(* ===== verification/_CoqProject ===== *)
-Q . S2P
Prelude.v
NvmAlloc.v
Entry.v
Index.v
EplTree.v
EplTreeInv.v
EplTreeSpec.v
EplTreeRecover.v
EplTreeBulk.v
EplTreeScan.v
Persist.v
EntryCrash.v
SplitCrash.v
EplTreeBitmap.v
Ieee.v
IeeeMono.v
IeeeLimit.v
Clht.v
ClhtInv.v
ClhtSpec.v
ClhtResize.v
ClhtStatus.v
ClhtThm.v
Ssmem.v
SsmemThm.v
ClhtGc.v
ClhtGcThm.v
SwTable.v
Epli.v
EpliThm.v
AlexBase.v
AlexNode.v
AlexOps.v
AlexInv.v
AlexSearch.v
AlexLookup.v
AlexBuild.v
AlexGap.v
AlexUpdate.v
AlexErase.v
AlexThm.v
AlexCost.v
AlexFanout.v
AlexTree.v
AlexTreeOps.v
AlexEnds.v
AlexRoute.v
AlexScale.v
AlexTreeInv.v
AlexTreeOk.v
AlexTreeLookup.v
AlexTreeUpdate.v
AlexIter.v
AlexIterLookup.v
AlexIterRev.v
AlexLink.v
AlexSubtree.v
AlexReplace.v
AlexSplit.v
AlexSplitPlan.v
AlexTreeSplit.v
AlexMerge.v
AlexMergeLoop.v
AlexCollapse.v
AlexTreeErase.v
AlexSplitDown.v
AlexGrow.v
AlexLevel.v
AlexPlan.v
AlexLoad.v
AlexLinkAll.v
AlexLoadTree.v
AlexRoom.v
AlexRound.v
AlexTreeInsert.v
AlexTreeCheck.v
AlexTreeThm.v
AlexLoadThm.v
AlexIndex.v
AlexIterThm.v
