(* ===== verification/Prelude.v ===== *)
(** * EPLI: a verification library for the EPL-Tree / SW-Table index

    The repository implements EPLI, a key/value index for persistent memory,
    and compares it with other indexes.  This library models the index and the
    code it runs on, function by function, and proves what the parts promise to
    each other.  File names below are under [src/] of the repository; 64-bit
    keys and values are [Z].

    ** The program and its model

    An EPLI ([src/epli.h]) is an EPL-Tree behind a cache.

    - The EPL-Tree ([src/epltree.h]) keeps its pairs in 256-byte leaves
      ([src/entry.h]) in persistent memory, linked in key order
      ([src/datalist.h]) and cut from one mapped file by a bump allocator
      ([include/util/nvm/nvm_alloc.h]).  In DRAM an ordered index maps a routing
      key to each leaf; it is ALEX ([include/alex/]).
    - The cache is the SW-Table ([src/swtable.h]): a CLHT hash table
      ([src/clht_lb_res.cc]) whose old versions are collected
      ([src/clht_gc.cc]) through the SSMEM allocator ([src/ssmem.cc]).

    Each part is a file with its data and operations, followed by the files of
    its invariant and theorems:

    - [NvmAlloc]: [NVM::Alloc].
    - [Entry]: the leaf, a map of at most 14 pairs.
    - [Index]: the interface between the EPL-Tree and its index, a class of
      operations with laws over a finite map, and an instance by a sorted map.
    - [EplTree]: [EPLTree] and [DataList]; [EplTreeInv] the invariant and the
      point operations, [EplTreeSpec] the refinement of a finite map,
      [EplTreeRecover], [EplTreeBulk] and [EplTreeScan] the operations of these
      names.
    - [Persist]: stores, cache-line flushes and crashes ([src/pmem.h]);
      [EntryCrash] and [SplitCrash] the leaf operations and [splitEntry] as the
      stores they make.
    - [EplTreeBitmap]: the tree with slot bitmaps and fingerprints
      ([USE_BITMAP], [USE_FGPT]), a configuration that is commented out.
    - [Ieee]: [double] and [long double], by the Standard Library's SpecFloat;
      [IeeeMono] that rounded arithmetic is monotone, [IeeeLimit] that it stays
      within the format and that powers of two scale it.
    - [Clht]: the table; [ClhtInv], [ClhtSpec], [ClhtResize], [ClhtStatus] and
      [ClhtThm] its invariant, operations, resizes and refinement.
    - [Ssmem], [SsmemThm]; [ClhtGc], [ClhtGcThm]; [SwTable].
    - [Epli], [EpliThm]: EPLI over any index and any cache that keep their
      laws, and over the SW-Table.
    - [AlexBase]: the linear model and the bit tricks ([alex_base.h]);
      [AlexNode] and [AlexOps] the data node of [alex_nodes.h] (a gapped array
      with its bitmap), [AlexInv] its invariant, [AlexSearch], [AlexLookup],
      [AlexBuild], [AlexGap], [AlexUpdate], [AlexErase] its operations and
      [AlexThm] what a node promises.
    - [AlexCost] and [AlexFanout]: expected costs and the bottom-up search for a
      fanout ([alex_fanout_tree.h]), which decide where the tree is cut;
      [AlexTree] the model nodes, the heap of nodes, descending and the list of
      leaves, [AlexTreeOps] the operations of [Alex] ([alex.h]).
    - [AlexRoute]: a model with a positive slope is monotone, rounding
      included, and [AlexScale] can be expanded; [AlexTreeInv] which leaves a
      node leads to, [AlexTreeOk] the invariant of a tree, [AlexEnds] and [AlexTreeLookup] the lookups,
      [AlexTreeUpdate] inserts that keep the shape.  [AlexLink], [AlexSubtree]
      and [AlexReplace] say when a part of a tree can be replaced: [AlexSplit]
      and [AlexTreeSplit] apply it to a split in two, [AlexMerge]
      and [AlexMergeLoop] to merges with a sibling, [AlexCollapse] to model
      nodes replaced by their only leaf, [AlexTreeErase] to erases,
      [AlexSplitDown] to a leaf replaced by a model node with two leaves;
      [AlexGrow] to a model node whose pointers are repeated; [AlexSplitPlan]
      is about the split with a plan of two parts.
      [AlexRoom] is about what a split does in each place a leaf can have,
      [AlexRound] about the rounds of the loop of [insert], in which the policy
      decides for a split or for a new model, [AlexTreeInsert] about the inserts
      that need such rounds, after which the new arrays take the pair.
      [AlexLevel] is about the levels of a fanout tree, [AlexPlan] about the
      nodes that the search for a fanout picks, [AlexLoad] about
      [bulk_load_node], [AlexLinkAll] about the pass that links all leaves and
      [AlexLoadTree] about construction and bulk loading.
      [AlexTreeCheck] decides the invariant and what the rounds ask of the models;
      [AlexTreeThm] is what the tree promises, [AlexLoadThm] what loading does,
      [AlexIndex] what both are to the EPL-Tree.
    - [AlexIter]: the iterators of the tree, the lookups that return one and
      [count]; [AlexIterLookup], [AlexIterRev] and [AlexIterThm] where they
      stand in the list of all pairs, forwards and backwards.

    Code that can fail is a function into [res]: [Ret], [Fault] for undefined
    behaviour (a null pointer, an index outside an array, a store outside the
    mapping, a block freed twice) and [Diverge] for an execution that has not
    ended.  State is passed explicitly: leaves, hash tables and memory blocks
    live in maps from addresses, so that two names of one object alias.
    Unsigned integers wrap where the code lets them ([wrap]), signed ones are
    kept in range by the invariants or reduced ([s32]).  [assert] is compiled
    out in the build ([-DNDEBUG]) and stands for a [Fault] only in [AlexNode],
    whose accesses would be out of bounds otherwise.

    ** What the theorems show

    - EPLI is a finite map over any index that keeps the laws of [Index]: every
      run of its operations by one thread returns what the map returns, with the
      cache or without, as long as only present keys are updated and, with the
      cache, the group id of the process is 0 ([EpliThm]).
    - The EPL-Tree is a finite map over any such index ([EplTreeSpec]): an insert ends after at most
      one split; a split moves the upper half of a leaf; recovery after a clean
      shutdown, bulk loading and short scans do what they say, and the theorems
      of [EplTreeRecover], [EplTreeBulk] and [EplTreeScan] give the cases in
      which they do not.
    - Leaf operations are atomic with respect to crashes in the slots whose key
      and value share a cache line, and not in the others ([EntryCrash]); a
      split links a leaf that is durable, but trims the old one too early
      ([SplitCrash]).
    - With bitmaps and fingerprints a lookup gives what a comparison of all keys
      gives, and an insert keeps the metadata true to the leaf; splits and
      recovery do not ([EplTreeBitmap]).
    - The CLHT table, used by one thread, is a finite map that may forget pairs
      when it inserts: resizes and their recursion through [ht_status] end, and
      growing keeps the map ([ClhtThm]).  Collection frees exactly the versions
      older than the current one and every announced one ([ClhtGcThm]); SSMEM hands out disjoint objects
      ([SsmemThm]).  The errors in the release of memory are theorems too.
    - An ALEX data node is a sorted list whatever its model predicts: searches,
      inserts with expansion and shifting, erases with contraction and rebuilds
      never leave the arrays, end, and act on the list as their names say; the
      word-wise search for a gap is equivalent to the slot-wise one ([AlexThm]).
    - An ALEX tree whose models are monotone and whose predictions fit an [int]
      leads greater keys further to the right ([AlexRoute]), so that the lookups
      answer for the list of the pairs of all leaves in order, an insert
      and an erase change that list as their names say, the insert with a
      round that makes room for it, in which a leaf is split in two (sideways,
      with an expansion of the parent where it needs one, downwards or at the
      root, with a plan of the costs or without) or gets larger arrays and a new
      model, the erase with all the merges it starts ([AlexTreeThm]).  Construction gives such a tree and
      so does bulk loading, whose fanout search shares out the keys of a node
      without losing one ([AlexLoadThm]).  The iterators visit the list from
      either end, and from where the lookups put them ([AlexIterThm]).
      Predictions that do not fit are sent to the first child: that is a theorem
      too.
    - On the calls of the EPL-Tree an ALEX tree is an index that keeps the laws
      of [Index], as long as its models and costs allow each insert
      ([AlexIndex]).

    ** Bounds and fuel

    Recursion that is not structural takes fuel, and the theorems show that
    enough is given: one unit per split for [EplTree.Insert] (at most one split
    happens), one per leaf for the loops over the leaf list, [put_fuel] = 33 for
    [clht_put] and the resizes it starts (each doubles a table of at most 2^26
    buckets and 2^32 pairs), 64 for the doubling in [ssmem_alloc], one per
    version for the collector, [search_fuel] = 33 for the binary searches over
    an [int] range and [keys_fuel] for the loops over the keys of a data node.
    Data nodes are bounded by 2^26 keys and 2^30 slots, so that no [int]
    overflows.  What bulk loading needs of the floating-point models it builds
    (each is monotone, its predictions fit an [int], and it predicts a key to
    the side of a bucket boundary on which the key was cut, by a comparison of
    [double]s or, where the fanout is forced, of the boundary truncated to
    [uint64_t]) is decided by [bulk_loadable], which runs the fanout searches but makes no node; its fuel
    is the height of the tree.  What an insert that splits needs is decided by
    the functions of [AlexTreeCheck]; its fuel is one more than the rounds.  The
    room left in the mapping and the alignment of the allocator are hypotheses.

    ** What is not modelled

    - Of the ALEX tree: splitting upwards, the top-down fanout search and
      sampled costs, which the source switches off; [clear], the copies and
      the printing, which the EPL-Tree does not use.  Splits
      into more than two leaves (a fanout limit that [insert] sets only for
      other policies) and expansions of the root are executable definitions
      without a theorem.  (An expansion of the root cuts the outermost leaf at a
      key; rounding may leave the models one bucket off there, which [get_leaf]
      makes up for, while the invariant asks the models themselves for the leaf
      of each key.)  So [AlexIndex] gives the laws of [Index] for the calls that
      do not need them.
      Logarithms ([log2]) are a parameter.
    - Concurrency beyond the version lists and time stamps that other threads
      are represented by: the functions of the table are given as one thread
      runs them.
    - libpmem and malloc: their results are arguments, their documented effect
      (persisting a range, fresh blocks) is part of the state.
    - The scans of the bitmap configuration; the [USE_MEM] build, printing and
      statistics.
    - The indexes of the comparison (APEX, LB+-Tree, FAST&FAIR, uTree), the
      workload generators, tests and benchmarks. *)
From Stdlib Require Export ZArith Lia.
From stdpp Require Export base tactics numbers list sorting gmap option.

Export stdpp.list_basics.list stdpp.list_misc.list stdpp.list_relations.list.

#[export] Set Default Goal Selector "!".

(** ** Machine integers

    An unsigned w-bit integer of the C++ code is a [Z]; every operation that
    can wrap around is followed by [wrap w].  Signed 32-bit results are
    reduced by [s32]. *)
Definition wrap (w x : Z) : Z := (x mod 2 ^ w)%Z.
Abbreviation u8 := (wrap 8).
Abbreviation u16 := (wrap 16).
Abbreviation u32 := (wrap 32).
Abbreviation u64 := (wrap 64).
Definition s32 (x : Z) : Z := ((x + 2 ^ 31) mod 2 ^ 32 - 2 ^ 31)%Z.
Definition UINT64_MAX : Z := (2 ^ 64 - 1)%Z.
Definition UINT32_MAX : Z := (2 ^ 32 - 1)%Z.

(** ** Outcomes

    [Ret] is a normal return, [Fault] stands for the undefined behaviour the
    code can run into (a null or wild pointer dereferenced, an array indexed
    out of its bounds, a store outside the mapped file) and [Diverge] for an
    execution that has not finished: the fuel of a loop is spent, or a lock
    is spun on that nobody will release. *)
Inductive res (A : Type) : Type :=
| Ret (a : A)
| Fault
| Diverge.
Arguments Ret {A} _.
Arguments Fault {A}.
Arguments Diverge {A}.

#[export] Instance res_ret : MRet res := @Ret.
#[export] Instance res_bind : MBind res := λ A B f m,
  match m with Ret a => f a | Fault => Fault | Diverge => Diverge end.

Definition of_option {A} (o : option A) : res A :=
  match o with Some a => Ret a | None => Fault end.

Declare Scope res_scope.
Delimit Scope res_scope with res.
Notation "'let*' x ':=' m 'in' k" := (mbind (M := res) (λ x, k) m)
  (at level 10, x pattern, m at level 100, k at level 200) : res_scope.
Notation "'let*' ' x ':=' m 'in' k" := (mbind (M := res) (λ x, k) m)
  (at level 10, x pattern, m at level 100, k at level 200) : res_scope.
Notation "m1 ';;;' m2" := (mbind (M := res) (λ _, m2) m1)
  (at level 100, m2 at level 200, right associativity) : res_scope.
Open Scope res_scope.
Open Scope Z_scope.

Section res.
Context {A B : Type}.
Implicit Types m : res A.

Lemma res_bind_ret (f : A → res B) (a : A) : (Ret a ≫= f) = f a.
Proof. done. Qed.

Lemma res_bind_Ret_inv (f : A → res B) m b :
  (m ≫= f) = Ret b → ∃ a, m = Ret a ∧ f a = Ret b.
Proof. destruct m; cbn; intros; [eauto | done | done]. Qed.

Lemma of_option_Ret (o : option A) a : of_option o = Ret a ↔ o = Some a.
Proof. destruct o; cbn; split; intros; simplify_eq; done. Qed.
End res.

(** ** Tactics and hints *)
Create HintDb epli.
Create Rewrite HintDb epli.
#[export] Hint Rewrite @length_insert @length_fmap @length_alter @length_take
  @length_drop @length_app @length_replicate : epli.

(** Inverts the chain of binds of a computation that returned. *)
Ltac res_inv :=
  repeat match goal with
  | H : (_ ≫= _) = Ret _ |- _ =>
      let a := fresh "a" in let Ha := fresh "Ha" in
      apply res_bind_Ret_inv in H as (a & Ha & H)
  | H : of_option _ = Ret _ |- _ => apply of_option_Ret in H
  | H : Ret _ = Ret _ |- _ => injection H as H; try subst
  | H : Fault = Ret _ |- _ => discriminate H
  | H : Diverge = Ret _ |- _ => discriminate H
  | H : context [let '(_, _) := ?p in _] |- _ => destruct p eqn:?
  end.

Ltac list_len := autorewrite with epli in *; try lia.

(** ** Words *)
Section words.
Lemma wrap_range w x : 0 ≤ w → 0 ≤ wrap w x < 2 ^ w.
Proof. intros. apply Z.mod_pos_bound, Z.pow_pos_nonneg; lia. Qed.

Lemma wrap_small w x : 0 ≤ x < 2 ^ w → wrap w x = x.
Proof. apply Z.mod_small. Qed.

Lemma s32_range x : - 2 ^ 31 ≤ s32 x < 2 ^ 31.
Proof. unfold s32. pose proof (Z.mod_pos_bound (x + 2 ^ 31) (2 ^ 32)). lia. Qed.

Lemma s32_small x : - 2 ^ 31 ≤ x < 2 ^ 31 → s32 x = x.
Proof. intros. unfold s32. rewrite Z.mod_small by lia. lia. Qed.
End words.
#[export] Hint Resolve wrap_range s32_range : epli.

(** ** Lists of pairs, read as finite maps

    The arrays of key/value pairs of the program are lists of pairs in which
    a reserved key marks an empty slot. *)
Section pairs.
Context {V : Type}.
Implicit Types (l : list (Z * V)) (k : Z) (v : V).

Lemma NoDup_fst_inj l k v1 v2 :
  NoDup l.*1 → (k, v1) ∈ l → (k, v2) ∈ l → v1 = v2.
Proof.
  intros Hnd H1 H2.
  assert ((list_to_map l : gmap Z V) !! k = Some v1)
    by (apply elem_of_list_to_map_1; done).
  assert ((list_to_map l : gmap Z V) !! k = Some v2)
    by (apply elem_of_list_to_map_1; done).
  congruence.
Qed.

Lemma elem_of_fst l k v : (k, v) ∈ l → k ∈ l.*1.
Proof. intros. apply list_elem_of_fmap. by exists (k, v). Qed.

Lemma elem_of_fst_inv l k : k ∈ l.*1 → ∃ v, (k, v) ∈ l.
Proof. intros ([? v] & -> & ?)%list_elem_of_fmap. by exists v. Qed.

Lemma Forall_fst (P : Z → Prop) l :
  Forall P l.*1 ↔ ∀ k v, (k, v) ∈ l → P k.
Proof.
  rewrite list.Forall_forall. split.
  - intros HP k v Hin. by apply HP, elem_of_fst with v.
  - intros HP k [v Hin]%elem_of_fst_inv. by apply HP with v.
Qed.
End pairs.

(** ** [std::sort] by key

    The comparator of the program compares the first components only.  The
    algorithm of [std::sort] is not fixed by the language; on arrays with
    distinct keys every sorting algorithm gives the same array
    ([sort_kvs_unique]), so a merge sort stands for it. *)
Definition kv_le (a b : Z * Z) : Prop := a.1 ≤ b.1.
#[export] Instance kv_le_dec a b : Decision (kv_le a b) := Z_le_dec a.1 b.1.
#[export] Instance kv_le_trans : Transitive kv_le.
Proof. intros ???. unfold kv_le. lia. Qed.
#[export] Instance kv_le_total : Total kv_le.
Proof. intros a b. unfold kv_le. lia. Qed.

Definition sort_kvs (l : list (Z * Z)) : list (Z * Z) := merge_sort kv_le l.

Section sorting.
Implicit Types (l : list (Z * Z)).

Lemma sort_kvs_perm l : sort_kvs l ≡ₚ l.
Proof. apply merge_sort_Permutation. Qed.

Lemma sort_kvs_length l : length (sort_kvs l) = length l.
Proof. by rewrite sort_kvs_perm. Qed.

Lemma sort_kvs_sorted l : StronglySorted kv_le (sort_kvs l).
Proof. apply StronglySorted_merge_sort; apply _. Qed.

Lemma kv_sorted_lt l :
  StronglySorted kv_le l → NoDup l.*1 → StronglySorted Z.lt l.*1.
Proof.
  induction 1 as [|x l Hs IH Hx]; cbn; [constructor|].
  intros [Hni Hnd]%NoDup_cons. constructor; [by apply IH|].
  apply list.Forall_fmap. rewrite list.Forall_forall in *. intros y Hy.
  cbn. specialize (Hx y Hy). unfold kv_le in Hx.
  assert (x.1 ≠ y.1); [|lia]. intros E. apply Hni. rewrite E.
  by apply list_elem_of_fmap_2.
Qed.

Lemma kv_lt_sorted l : StronglySorted Z.lt l.*1 → StronglySorted kv_le l.
Proof.
  induction l as [|x l IH]; cbn; [constructor|].
  intros [Hs Hx]%StronglySorted_inv. constructor; [by apply IH|].
  apply list.Forall_forall. rewrite list.Forall_forall in Hx. intros y Hy. unfold kv_le.
  specialize (Hx y.1). apply Z.lt_le_incl, Hx. by apply list_elem_of_fmap_2.
Qed.

Lemma sort_kvs_lt l : NoDup l.*1 → StronglySorted Z.lt (sort_kvs l).*1.
Proof.
  intros. apply kv_sorted_lt; [apply sort_kvs_sorted|].
  by rewrite sort_kvs_perm.
Qed.

Lemma sorted_lt_lookup (l : list Z) i j x y :
  StronglySorted Z.lt l → l !! i = Some x → l !! j = Some y →
  (i < j)%nat → x < y.
Proof.
  intros Hs. revert i j. induction Hs as [|a l Hs IH Ha]; intros i j Hi Hj Hij;
    [done|].
  destruct j as [|j]; [lia|]. cbn in Hj. destruct i as [|i]; cbn in Hi; simplify_eq.
  - rewrite list.Forall_forall in Ha. by apply Ha, list_elem_of_lookup_2 with j.
  - apply (IH i j); [done..|lia].
Qed.

Lemma sorted_lt_NoDup (l : list Z) : StronglySorted Z.lt l → NoDup l.
Proof.
  induction 1 as [|x l Hs IH Hx]; constructor; [|done].
  intros Hin. rewrite list.Forall_forall in Hx. specialize (Hx x Hin). lia.
Qed.

Lemma sorted_lt_app_inv (l1 l2 : list Z) :
  StronglySorted Z.lt (l1 ++ l2) →
  StronglySorted Z.lt l1 ∧ StronglySorted Z.lt l2 ∧
  (∀ x y, x ∈ l1 → y ∈ l2 → x < y).
Proof.
  induction l1 as [|a l1 IH]; cbn; intros H.
  { split_and!; [constructor|done|]. by intros x y ?%not_elem_of_nil. }
  apply StronglySorted_inv in H as [H Ha].
  destruct (IH H) as (? & ? & Hlt). rewrite Forall_app in Ha. destruct Ha as [Ha1 Ha2].
  rewrite list.Forall_forall in Ha2.
  split_and!; [by constructor|done|].
  intros x y [->|Hx]%elem_of_cons Hy; [by apply Ha2|by apply Hlt].
Qed.

(** Sorting is unique on distinct keys. *)
Lemma kv_sorted_unique l1 l2 :
  StronglySorted kv_le l1 → StronglySorted kv_le l2 → NoDup l1.*1 →
  l1 ≡ₚ l2 → l1 = l2.
Proof.
  intros H1. revert l2. induction H1 as [|x l1 Hs IH Hx]; intros l2 H2 Hnd Hp.
  { by apply Permutation_nil_l in Hp. }
  inversion H2 as [|y l2' Hs2 Hy]; subst.
  { by apply symmetry, Permutation_nil_l in Hp. }
  assert (x = y) as ->.
  { assert (y ∈ x :: l1) as Hyin by (rewrite Hp; left).
    assert (x ∈ y :: l2') as Hxin by (rewrite <- Hp; left).
    apply elem_of_cons in Hyin as [|Hyin]; [done|].
    apply elem_of_cons in Hxin as [|Hxin]; [done|].
    rewrite list.Forall_forall in *.
    assert (x.1 = y.1) as E.
    { specialize (Hx y Hyin). specialize (Hy x Hxin). unfold kv_le in *. lia. }
    apply NoDup_cons in Hnd as [Hni _]. exfalso. apply Hni. rewrite E.
    by apply list_elem_of_fmap_2. }
  f_equal. apply IH; [done|by apply NoDup_cons in Hnd as [_ ?]|].
  by apply Permutation_cons_inv in Hp.
Qed.

Lemma sort_kvs_unique l l' :
  NoDup l.*1 → StronglySorted kv_le l' → l' ≡ₚ l → l' = sort_kvs l.
Proof.
  intros Hnd Hs Hp. symmetry. apply kv_sorted_unique; [apply sort_kvs_sorted|done| |].
  - by rewrite sort_kvs_perm.
  - by rewrite sort_kvs_perm.
Qed.
End sorting.

(** ** Slot arrays

    An array of key/value slots in which key 0 marks a free slot: its stored
    pairs, and the finite map they are. *)
Definition live (l : list (Z * Z)) : list (Z * Z) := filter (λ kv : Z * Z, kv.1 ≠ 0) l.

Section live.
Implicit Types (l : list (Z * Z)) (k v : Z).

Lemma elem_of_live l k v : (k, v) ∈ live l ↔ k ≠ 0 ∧ (k, v) ∈ l.
Proof. unfold live. by rewrite list_elem_of_filter. Qed.

Lemma live_app l1 l2 : live (l1 ++ l2) = live l1 ++ live l2.
Proof. apply list.filter_app. Qed.

Lemma live_cons k v l :
  live ((k, v) :: l) = if decide (k = 0) then live l else (k, v) :: live l.
Proof.
  unfold live. rewrite filter_cons. cbn.
  repeat case_decide; naive_solver.
Qed.

Lemma live_length l : (length (live l) ≤ length l)%nat.
Proof. apply list.length_filter. Qed.

Lemma live_all l : Forall (λ kv, kv.1 ≠ 0) l → live l = l.
Proof.
  induction 1 as [|[k v] l Hx _ IH]; [done|].
  rewrite live_cons, decide_False by done. by rewrite IH.
Qed.

Lemma live_full l : length (live l) = length l → live l = l.
Proof.
  induction l as [|[k v] l IH]; [done|]. rewrite live_cons.
  pose proof (live_length l). case_decide; cbn; intros; [lia|].
  f_equal. apply IH. lia.
Qed.

Lemma live_zero n : live (replicate n (0, 0)) = [].
Proof. induction n; [done|]. cbn [replicate]. by rewrite live_cons. Qed.

Lemma live_perm l1 l2 : l1 ≡ₚ l2 → live l1 ≡ₚ live l2.
Proof. apply filter_Permutation. Qed.

#[export] Instance live_Proper : Proper ((≡ₚ) ==> (≡ₚ)) live.
Proof. intros l1 l2. apply live_perm. Qed.

Lemma alter_split {A} (xs : list A) i x :
  xs !! i = Some x →
  ∃ ys zs : list A, xs = ys ++ x :: zs ∧ length ys = i ∧
    (∀ f, alter f i xs = ys ++ f x :: zs).
Proof.
  revert i. induction xs as [|y xs IH]; intros [|i] H; cbn in H; simplify_eq.
  { by exists [], xs. }
  destruct (IH i H) as (ys & zs & -> & <- & Hf).
  exists (y :: ys), zs. split_and!; [done..|].
  intros f. change (alter f (S (length ys)) (y :: ys ++ x :: zs))
    with (y :: alter f (length ys) (ys ++ x :: zs)). by rewrite Hf.
Qed.

Lemma alter_middle {A} (ys zs : list A) x f :
  alter f (length ys) (ys ++ x :: zs) = ys ++ f x :: zs.
Proof.
  induction ys as [|y ys IH]; [done|].
  change (y :: alter f (length ys) (ys ++ x :: zs) = y :: ys ++ f x :: zs).
  by rewrite IH.
Qed.

(** The first slot holding a key decides the value the array gives it. *)
Lemma live_lookup l k :
  k ≠ 0 →
  (list_to_map (live l) : gmap Z Z) !! k
    = (λ p, p.2.2) <$> list_find (λ kv : Z * Z, kv.1 = k) l.
Proof.
  intros Hk. induction l as [|[k' v'] l IH]; [done|].
  rewrite live_cons. cbn [list_find]. destruct (decide (k' = k)) as [->|Hne]; cbn.
  - rewrite decide_False by done. cbn. rewrite decide_True by done.
    by rewrite lookup_insert_eq.
  - rewrite (decide_False (P := k' = k)) by done.
    rewrite <- option_fmap_compose.
    destruct (decide (k' = 0)); cbn; [|rewrite lookup_insert_ne by done];
      rewrite IH; by destruct (list_find _ l) as [[]|].
Qed.

(** The map a slot array stands for. *)
Definition slot_map l : gmap Z Z := list_to_map (live l).

Lemma slot_map_None l k : slot_map l !! k = None ↔ k ∉ (live l).*1.
Proof. symmetry. apply not_elem_of_list_to_map. Qed.

Lemma slot_map_nokey l k : k ∉ l.*1 → slot_map l !! k = None.
Proof.
  intros Hn. apply slot_map_None. intros [v Hv]%elem_of_fst_inv.
  apply elem_of_live in Hv as [_ Hv]. by apply Hn, elem_of_fst with v.
Qed.

Lemma slot_map_app l1 l2 : slot_map (l1 ++ l2) = slot_map l1 ∪ slot_map l2.
Proof. unfold slot_map. by rewrite live_app, list_to_map_app. Qed.

Lemma slot_map_zero l k : slot_map l !! k ≠ None → k ≠ 0.
Proof.
  intros Hk ->. apply Hk, slot_map_None. intros [v [? _]%elem_of_live]%elem_of_fst_inv. done.
Qed.

Lemma slot_find_Some key l i kv :
  list_find (λ kv : Z * Z, kv.1 = key) l = Some (i, kv) →
  ∃ l1 l2 v, kv = (key, v) ∧ l = l1 ++ (key, v) :: l2 ∧ length l1 = i ∧
    (key ∉ l1.*1) ∧ (∀ f, alter f i l = l1 ++ f (key, v) :: l2).
Proof.
  intros (Hi & Hk & Hmin)%list_find_Some. destruct kv as [k v]; cbn in Hk; subst k.
  destruct (alter_split _ _ _ Hi) as (l1 & l2 & E & Hl & Hf).
  exists l1, l2, v. split_and!; [done..| |done].
  intros ([k' v'] & ? & Hin)%list_elem_of_fmap; simplify_eq/=.
  apply list_elem_of_lookup in Hin as [j Hj].
  pose proof (lookup_lt_Some _ _ _ Hj).
  apply (Hmin j (k', v')); [|lia|done]. by apply lookup_app_l_Some.
Qed.

Lemma slot_find_None key l :
  list_find (λ kv : Z * Z, kv.1 = key) l = None → key ∉ l.*1.
Proof.
  intros H%list_find_None ([k v] & -> & Hin)%list_elem_of_fmap.
  rewrite list.Forall_forall in H. by apply (H (k, v) Hin).
Qed.

(** The three edits of a slot: a free slot taken, a value replaced, a key
    cleared. *)
Lemma slots_new l1 l2 w k v :
  k ≠ 0 → slot_map (l1 ++ (0, w) :: l2) !! k = None →
  NoDup (live (l1 ++ (0, w) :: l2)).*1 →
  NoDup (live (l1 ++ (k, v) :: l2)).*1 ∧
  slot_map (l1 ++ (k, v) :: l2) = <[k := v]> (slot_map (l1 ++ (0, w) :: l2)).
Proof.
  intros Hk Hn Hnd.
  assert (live (l1 ++ (k, v) :: l2) ≡ₚ (k, v) :: live (l1 ++ (0, w) :: l2)) as Hp.
  { rewrite !live_app, !live_cons, decide_False, decide_True by done.
    by rewrite Permutation_middle. }
  assert (NoDup (live (l1 ++ (k, v) :: l2)).*1) as Hnd'.
  { rewrite Hp. cbn. constructor; [|done]. by apply slot_map_None. }
  split; [done|]. unfold slot_map. by rewrite (list_to_map_proper _ _ Hnd' Hp).
Qed.

Lemma slots_update l1 l2 w k v :
  k ≠ 0 → NoDup (live (l1 ++ (k, w) :: l2)).*1 →
  NoDup (live (l1 ++ (k, v) :: l2)).*1 ∧
  slot_map (l1 ++ (k, v) :: l2) = <[k := v]> (slot_map (l1 ++ (k, w) :: l2)).
Proof.
  intros Hk. rewrite !live_app, !live_cons, !decide_False, !fmap_app by done. cbn.
  intros Hnd. split; [done|]. pose proof Hnd as (_ & Hd & _)%NoDup_app.
  assert (slot_map l1 !! k = None) as Hn.
  { apply slot_map_None. intros Hin. apply (Hd _ Hin). left. }
  rewrite !slot_map_app.
  unfold slot_map in *. rewrite !live_cons, !decide_False by done. cbn.
  rewrite insert_union_r by done. by rewrite insert_insert_eq.
Qed.

Lemma slots_remove l1 l2 w k :
  k ≠ 0 → NoDup (live (l1 ++ (k, w) :: l2)).*1 →
  NoDup (live (l1 ++ (0, w) :: l2)).*1 ∧
  slot_map (l1 ++ (0, w) :: l2) = delete k (slot_map (l1 ++ (k, w) :: l2)).
Proof.
  intros Hk Hnd. rewrite live_app, live_cons, decide_False, fmap_app in Hnd by done.
  cbn in Hnd. apply NoDup_app in Hnd as (N1 & Hd & [N2 N3]%NoDup_cons).
  assert (slot_map l1 !! k = None) as Hn1.
  { apply slot_map_None. intros Hin. apply (Hd _ Hin). left. }
  assert (slot_map l2 !! k = None) as Hn2 by (by apply slot_map_None).
  split.
  - rewrite live_app, live_cons, decide_True, fmap_app by done. apply NoDup_app.
    split_and!; [done| |done]. intros x Hx Hx2. apply (Hd x Hx). by right.
  - rewrite !slot_map_app. unfold slot_map in *.
    rewrite !live_cons, decide_True, decide_False by done. cbn.
    rewrite delete_union, delete_insert_eq, (delete_id _ _ Hn1), (delete_id _ _ Hn2). done.
Qed.
End live.

(** ** Filters *)
Section filters.
Context {A : Type} (P Q : A → Prop) `{!∀ x, Decision (P x), !∀ x, Decision (Q x)}.
Implicit Types (l : list A).

Lemma filter_ext_in l : (∀ x, x ∈ l → P x ↔ Q x) → filter P l = filter Q l.
Proof.
  induction l as [|x l IH]; [done|]. intros Hpq. rewrite !filter_cons.
  rewrite IH by (intros; apply Hpq; by right). specialize (Hpq x ltac:(left)).
  destruct (decide (P x)), (decide (Q x)); tauto.
Qed.

Lemma filter_all l : Forall P l → filter P l = l.
Proof. induction 1; [done|]. by rewrite filter_cons_True, IHForall. Qed.

Lemma filter_none l : Forall (λ x, ¬ P x) l → filter P l = [].
Proof. induction 1; [done|]. by rewrite filter_cons_False. Qed.

Lemma filter_more l : (∀ x, P x → Q x) → (length (filter P l) ≤ length (filter Q l))%nat.
Proof.
  intros HPQ. induction l as [|x l IH]; [done|]. rewrite !filter_cons. specialize (HPQ x).
  destruct (decide (P x)), (decide (Q x)); cbn [length]; tauto || lia.
Qed.

Lemma filter_sorted (R : A → A → Prop) l : StronglySorted R l → StronglySorted R (filter P l).
Proof.
  induction 1 as [|x l Hs IH Hx]; [constructor|]. rewrite filter_cons. case_decide; [|done].
  constructor; [done|]. rewrite list.Forall_forall in *. intros y [_ Hy]%list_elem_of_filter. by apply Hx.
Qed.
End filters.

Lemma forallb_spec {A} (f : A → bool) (l : list A) : forallb f l = true ↔ ∀ x, x ∈ l → f x = true.
Proof. rewrite forallb_forall. by setoid_rewrite list_elem_of_In. Qed.

Lemma seqZ_sorted a n : StronglySorted Z.lt (seqZ a n).
Proof.
  destruct (decide (n ≤ 0)); [by rewrite seqZ_nil by lia; constructor|].
  replace n with (Z.of_nat (Z.to_nat n)) by lia. generalize (Z.to_nat n) as k. intros k. revert a.
  induction k as [|k IH]; intros a; [constructor|].
  rewrite seqZ_cons by lia. replace (Z.pred (Z.of_nat (S k))) with (Z.of_nat k) by lia.
  constructor; [apply IH|]. apply Forall_seqZ. lia.
Qed.
