(* ===== verification/NvmAlloc.v ===== *)
(** * The persistent-memory bump allocator ([include/util/nvm/nvm_alloc.h])

    [NVM::Alloc] hands out consecutive blocks of one mapped file.  Pointers
    are addresses in [Z], 0 is [nullptr]; the counters [used_] and [freed_]
    are [size_t] and wrap at 64 bits.  [pmem_map_file] (libpmem) is outside
    the repository: its two results, the mapping address and its length, are
    arguments of the constructor.  [assert] is compiled out ([-DNDEBUG] in
    CMakeLists.txt), so running past the mapping is not detected here; the
    clients fault when they store outside the mapping. *)
From S2P Require Import Prelude.

Definition CACHE_LINE_SIZE : Z := 64.

(** [NVM::Mem_persist]: the bytes accounted to the global [pmem_size]. *)
Definition Mem_persist (len pmem_size : Z) : Z :=
  if bool_decide (len < CACHE_LINE_SIZE)
  then u64 (pmem_size + CACHE_LINE_SIZE)
  else u64 (pmem_size + len).

Module Alloc.

Record t : Type := mk {
  pmem_addr_ : Z;
  current_addr : Z;
  mapped_len_ : Z;
  used_ : Z;
  freed_ : Z
}.

(** [Alloc::Alloc]; [pmem_addr] and [mapped_len] are what [PmemMapFile]
    returned. *)
Definition init (pmem_addr mapped_len : Z) : t :=
  {| pmem_addr_ := pmem_addr; current_addr := pmem_addr;
     mapped_len_ := mapped_len; used_ := 0; freed_ := 0 |}.

Definition alloc (size : Z) (a : t) : Z * t :=
  let p := current_addr a in
  (p, {| pmem_addr_ := pmem_addr_ a; current_addr := current_addr a + size;
         mapped_len_ := mapped_len_ a; used_ := u64 (used_ a + size);
         freed_ := freed_ a |}).

Definition alloc_aligned (size align : Z) (a : t) : Z * t :=
  let reserve :=
    if bool_decide (current_addr a `mod` align = 0) then 0
    else align - current_addr a `mod` align in
  let p := current_addr a + reserve in
  (p, {| pmem_addr_ := pmem_addr_ a; current_addr := current_addr a + size;
         mapped_len_ := mapped_len_ a;
         used_ := u64 (used_ a + (size + reserve)); freed_ := freed_ a |}).

(** [Alloc::Free(void *p, size_t size)] *)
Definition Free (p size : Z) (a : t) : t :=
  if bool_decide (p = 0) then a
  else if bool_decide (p + size = current_addr a)
  then {| pmem_addr_ := pmem_addr_ a; current_addr := p;
          mapped_len_ := mapped_len_ a; used_ := u64 (used_ a - size);
          freed_ := freed_ a |}
  else {| pmem_addr_ := pmem_addr_ a; current_addr := current_addr a;
          mapped_len_ := mapped_len_ a; used_ := used_ a;
          freed_ := u64 (freed_ a + size) |}.

(** [ComonAllocator::allocate] and [allocator::allocate]: [n] objects of
    [sizeof_T] bytes. *)
Definition allocate (n sizeof_T : Z) (a : t) : Z * t :=
  if bool_decide (0 = n) then (0, a) else alloc (u64 (n * sizeof_T)) a.

Definition deallocate (p n sizeof_T : Z) (a : t) : t :=
  if bool_decide (0 ≠ p) then Free p (u64 (n * sizeof_T)) a else a.

(** [n] successive calls of [alloc_aligned]. *)
Fixpoint alloc_aligned_n (n : nat) (size align : Z) (a : t) : list Z * t :=
  match n with
  | O => ([], a)
  | S n => let '(p, a1) := alloc_aligned size align a in
           let '(ps, a2) := alloc_aligned_n n size align a1 in (p :: ps, a2)
  end.

(** The allocator's state is consistent: the bump pointer is [used_] bytes
    into the mapping and aligned. *)
Record wf (align : Z) (a : t) : Prop := {
  wf_align : 0 < align;
  wf_pos : 0 < pmem_addr_ a;
  wf_cur : current_addr a = pmem_addr_ a + used_ a;
  wf_used : 0 ≤ used_ a;
  wf_aligned : current_addr a `mod` align = 0
}.

Section lemmas.
Implicit Types a : t.

Lemma alloc_aligned_wf size align a :
  wf align a → 0 < size → size `mod` align = 0 → used_ a + size < 2 ^ 64 →
  ∃ a', alloc_aligned size align a = (current_addr a, a') ∧
    wf align a' ∧ current_addr a' = current_addr a + size ∧
    used_ a' = used_ a + size ∧ pmem_addr_ a' = pmem_addr_ a ∧
    mapped_len_ a' = mapped_len_ a.
Proof.
  intros [] Hs Hm Hu. unfold alloc_aligned.
  rewrite bool_decide_eq_true_2 by done. rewrite !Z.add_0_r.
  eexists; split; [done|]. cbn. rewrite wrap_small by lia.
  split_and!; try done.
  split; cbn; try lia; [].
  rewrite Z.add_mod, Hm, wf_aligned0 by lia. by rewrite Z.mod_0_l by lia.
Qed.

Lemma alloc_aligned_n_spec n size align a ps a' :
  wf align a → 0 < size → size `mod` align = 0 →
  used_ a + Z.of_nat n * size < 2 ^ 64 →
  alloc_aligned_n n size align a = (ps, a') →
  wf align a' ∧ used_ a' = used_ a + Z.of_nat n * size ∧
  pmem_addr_ a' = pmem_addr_ a ∧
  ps = (λ i, current_addr a + Z.of_nat i * size) <$> seq 0 n.
Proof.
  revert a ps a'. induction n as [|n IH]; intros a ps a' Hwf Hs Hm Hu Heq.
  { cbn in Heq. simplify_eq. split_and!; try done; lia. }
  cbn [alloc_aligned_n] in Heq.
  destruct (alloc_aligned_wf size align a) as
    (a1 & E1 & Hwf1 & Hc1 & Hu1 & Hp1 & _); [done..|lia|].
  rewrite E1 in Heq.
  destruct (alloc_aligned_n n size align a1) as [ps1 a2] eqn:E2.
  simplify_eq.
  destruct (IH a1 ps1 a') as (? & ? & ? & ->); [done..|lia|done|].
  split_and!; [done|lia|congruence|].
  rewrite <- cons_seq. cbn. f_equal; [lia|].
  rewrite <- fmap_S_seq, <- list_fmap_compose.
  apply list_fmap_ext. intros i x Hx. cbn. lia.
Qed.
End lemmas.

(** C38: [alloc_aligned] blocks never overlap: from a consistent allocator,
    any number of [alloc_aligned] calls whose size is a multiple of the
    alignment (the only use the EPL-Tree makes of it) returns aligned blocks
    that are pairwise disjoint and lie inside the bytes counted by [used_]. *)
Theorem alloc_aligned_n_disjoint n size align a ps a' :
  wf align a → 0 < size → size `mod` align = 0 →
  used_ a + Z.of_nat n * size < 2 ^ 64 →
  alloc_aligned_n n size align a = (ps, a') →
  length ps = n ∧
  (∀ i p, ps !! i = Some p →
     p `mod` align = 0 ∧ pmem_addr_ a + used_ a ≤ p ∧
     p + size ≤ pmem_addr_ a' + used_ a') ∧
  (∀ i j p q, (i < j)%nat → ps !! i = Some p → ps !! j = Some q →
     p + size ≤ q).
Proof.
  intros Hwf Hs Hm Hu Heq.
  destruct (alloc_aligned_n_spec _ _ _ _ _ _ Hwf Hs Hm Hu Heq)
    as (_ & Hu' & Hp' & ->).
  destruct Hwf. split; [list_len; by rewrite length_seq|]. split.
  - intros i p Hi. apply list_lookup_fmap_Some in Hi as (k & -> & Hk).
    apply lookup_seq in Hk as [-> Hk]. split_and!; try nia.
    rewrite Z.add_mod, Z.mul_mod, Hm, wf_aligned0, Z.mul_0_r by lia.
    rewrite !Z.mod_0_l by lia. done.
  - intros i j p q Hij Hi Hj.
    apply list_lookup_fmap_Some in Hi as (k & -> & [-> ?]%lookup_seq).
    apply list_lookup_fmap_Some in Hj as (l & -> & [-> ?]%lookup_seq).
    nia.
Qed.

Definition witness_alloc : t := init 4096 (2 ^ 20).

Lemma alloc_aligned_n_disjoint_witness :
  alloc_aligned_n 3 256 256 witness_alloc
    = ([4096; 4352; 4608], snd (alloc_aligned_n 3 256 256 witness_alloc)) ∧
  4096 + 256 ≤ 4608.
Proof.
  split; [reflexivity|].
  eapply (alloc_aligned_n_disjoint 3 256 256 witness_alloc) with (i := 0%nat) (j := 2%nat);
    [split; vm_compute; done|lia|reflexivity|vm_compute; done|reflexivity
    |lia|reflexivity|reflexivity].
Defined.

(** When the bump pointer is not aligned, [alloc_aligned] reserves
    padding in [used_] but does not advance [current_addr] over it, so the
    very next [alloc] returns an address inside the block just handed out. *)
Theorem alloc_aligned_unaligned_overlap size size2 align a p q a1 a2 :
  0 < align → 0 < size → align ≤ size → current_addr a `mod` align ≠ 0 →
  alloc_aligned size align a = (p, a1) → alloc size2 a1 = (q, a2) →
  p < q < p + size.
Proof.
  intros Ha Hs Has Hm. unfold alloc_aligned, alloc.
  rewrite bool_decide_eq_false_2 by done. intros ? ?; simplify_eq/=.
  pose proof (Z.mod_pos_bound (current_addr a) align). lia.
Qed.

Lemma alloc_aligned_unaligned_overlap_witness :
  let a := snd (alloc 24 witness_alloc) in
  fst (alloc_aligned 256 256 a) <
  fst (alloc 64 (snd (alloc_aligned 256 256 a))) <
  fst (alloc_aligned 256 256 a) + 256.
Proof.
  cbv zeta.
  apply (alloc_aligned_unaligned_overlap 256 64 256 (snd (alloc 24 witness_alloc))
    _ _ (snd (alloc_aligned 256 256 (snd (alloc 24 witness_alloc))))
    (snd (alloc 64 (snd (alloc_aligned 256 256 (snd (alloc 24 witness_alloc)))))));
    [lia|lia|lia|vm_compute; discriminate|reflexivity|reflexivity].
Defined.

(** [Free] undoes the last [alloc]: the allocator is back in the state
    it had before, and a block that is not the last one is only counted. *)
Theorem alloc_Free_roundtrip size a p a1 :
  0 < current_addr a → 0 < size → 0 ≤ used_ a < 2 ^ 64 →
  alloc size a = (p, a1) →
  Free p size a1 = a ∧
  (∀ size2, 0 < size2 → ∀ p2 a2, alloc size2 a1 = (p2, a2) →
     current_addr (Free p size a2) = current_addr a2 ∧
     used_ (Free p size a2) = used_ a2 ∧
     freed_ (Free p size a2) = u64 (freed_ a + size)).
Proof.
  intros Hc Hs Hu Halloc. unfold alloc in *. simplify_eq. split.
  - unfold Free; cbn. rewrite bool_decide_eq_false_2 by lia.
    rewrite bool_decide_eq_true_2 by done. destruct a; cbn in *. f_equal.
    unfold wrap. rewrite Zminus_mod_idemp_l, Z.add_simpl_r.
    apply Z.mod_small. lia.
  - intros size2 Hs2 p2 a2 ?; simplify_eq. unfold Free; cbn.
    rewrite bool_decide_eq_false_2 by lia.
    rewrite bool_decide_eq_false_2 by lia. done.
Qed.

Lemma alloc_Free_roundtrip_witness :
  Free 4096 64 (snd (alloc 64 witness_alloc)) = witness_alloc.
Proof.
  apply (alloc_Free_roundtrip 64 witness_alloc 4096 (snd (alloc 64 witness_alloc)));
    [vm_compute; done|lia|vm_compute; done|reflexivity].
Defined.

End Alloc.
