(* ===== verification/Entry.v ===== *)
(** * EPL-Tree leaf entries ([src/entry.h])

    A 256-byte leaf: an unsorted array of [KVS_PER_ENTRY] key/value pairs in
    which [INVALID_KEY] marks a free slot, a lower bound [min_key] and the
    [next] pointer of the leaf list.  Setters that index the array fault when
    the index is out of its bounds. *)
From S2P Require Import Prelude.

Definition key_type : Type := Z.
Definition val_type : Type := Z.
Definition kv_type : Type := (Z * Z)%type.

Definition ENTRY_SIZE : Z := 256.
Definition INVALID_KEY : Z := 0.
(** [(ENTRY_SIZE - 17) / sizeof(kv_type)] *)
Definition KVS_PER_ENTRY : nat := Eval cbv in Z.to_nat ((256 - 17) / 16).

Definition STATUS_OK : Z := 0.
Definition STATUS_FAIL : Z := -1.
Definition STATUS_OVERFLOW : Z := 1.

Record Entry : Type := mkEntry {
  next : Z;
  min_key : Z;
  flag : Z;
  kvs : list (Z * Z);
  reserve : list Z
}.

#[export] Instance Entry_eq_dec : EqDecision Entry.
Proof. solve_decision. Defined.

Definition with_next (p : Z) (e : Entry) : Entry :=
  mkEntry p (min_key e) (flag e) (kvs e) (reserve e).
Definition with_min_key (k : Z) (e : Entry) : Entry :=
  mkEntry (next e) k (flag e) (kvs e) (reserve e).
Definition with_kvs (l : list (Z * Z)) (e : Entry) : Entry :=
  mkEntry (next e) (min_key e) (flag e) l (reserve e).

(** [memset(kvs, 0, sizeof(kvs))] *)
Definition zero_kvs : list (Z * Z) := replicate KVS_PER_ENTRY (0, 0).

(** [memset(this, 0, sizeof(Entry))] *)
Definition zero_Entry : Entry := mkEntry 0 0 0 zero_kvs (replicate 8 0).

(** ** Inner setters and getters *)
Definition setKey (i : nat) (key : Z) (e : Entry) : res Entry :=
  if bool_decide (i < KVS_PER_ENTRY)%nat
  then Ret (with_kvs (alter (λ kv : Z * Z, (key, kv.2)) i (kvs e)) e)
  else Fault.

Definition setVal (i : nat) (val : Z) (e : Entry) : res Entry :=
  if bool_decide (i < KVS_PER_ENTRY)%nat
  then Ret (with_kvs (alter (λ kv : Z * Z, (kv.1, val)) i (kvs e)) e)
  else Fault.

(** The loop [for (i; i < size; i++) { setVal(i, src[i].second);
    setKey(i, src[i].first); }] of the constructor and of [setOrderedKVs];
    [n] is the number of iterations left. *)
Fixpoint set_kvs_loop (n i : nat) (src : list (Z * Z)) (e : Entry) : res Entry :=
  match n with
  | O => Ret e
  | S n => let* kv := of_option (src !! i) in
           let* e := setVal i kv.2 e in
           let* e := setKey i kv.1 e in
           set_kvs_loop n (S i) src e
  end.

(** [Entry(key_type init_min_key)] *)
Definition Entry_new (init_min_key : Z) : Entry := with_min_key init_min_key zero_Entry.

(** [Entry(key_type init_min_key, const kv_type init_kvs[], size_t size)] *)
Definition Entry_new_kvs (init_min_key : Z) (init_kvs : list (Z * Z)) (size : nat) : res Entry :=
  set_kvs_loop size 0 init_kvs (with_min_key init_min_key zero_Entry).

Definition setOrderedKVs (new_kvs : list (Z * Z)) (size : nat) (e : Entry) : res Entry :=
  let* e := set_kvs_loop size 0 new_kvs (with_kvs zero_kvs e) in
  let* kv0 := of_option (new_kvs !! 0%nat) in
  Ret (with_min_key kv0.1 e).

(** [memset(kvs + KVS_PER_ENTRY / 2, 0, KVS_PER_ENTRY * sizeof(kv_type) / 2)] *)
Definition resetRightHalfKVs (e : Entry) : Entry :=
  with_kvs (take (KVS_PER_ENTRY / 2) (kvs e)
            ++ replicate (KVS_PER_ENTRY / 2) (0, 0)
            ++ drop (KVS_PER_ENTRY / 2 + KVS_PER_ENTRY / 2) (kvs e)) e.

(** The flag is a [uint8_t]; the flush that follows has no volatile effect. *)
Definition setFlag (v : Z) (e : Entry) : Entry :=
  mkEntry (next e) (min_key e) (u8 v) (kvs e) (reserve e).
Definition setPersistFlag (v : Z) (e : Entry) : Entry :=
  mkEntry (next e) (min_key e) (u8 v) (kvs e) (reserve e).
Definition GetMinKey (e : Entry) : Z := min_key e.

(** ** Public methods

    [find_slot key] is the loop [for (i = 0; i < KVS_PER_ENTRY; i++)
    if (kvs[i].first == key) ...]: the first slot that holds [key]. *)
Definition find_slot (key : Z) (e : Entry) : option (nat * (Z * Z)) :=
  list_find (λ kv : Z * Z, kv.1 = key) (kvs e).

(** [val0] is what the out-parameter holds before the call. *)
Definition Get (key val0 : Z) (e : Entry) : Z * Z :=
  match find_slot key e with
  | Some (_, kv) => (STATUS_OK, kv.2)
  | None => (STATUS_FAIL, val0)
  end.

Definition MaybePut (key val : Z) (e : Entry) : res (Z * Entry) :=
  match find_slot INVALID_KEY e with
  | None => Ret (STATUS_OVERFLOW, e)
  | Some (empty_pos, _) =>
      let* e := setVal empty_pos val e in
      let* e := setKey empty_pos key e in
      Ret (STATUS_OK, e)
  end.

Definition Update (key val : Z) (e : Entry) : res (Z * Entry) :=
  match find_slot key e with
  | Some (i, _) => let* e := setVal i val e in Ret (STATUS_OK, e)
  | None => Ret (STATUS_FAIL, e)
  end.

Definition Remove (key : Z) (e : Entry) : res (Z * Entry) :=
  match find_slot key e with
  | Some (i, _) => let* e := setKey i INVALID_KEY e in Ret (STATUS_OK, e)
  | None => Ret (STATUS_FAIL, e)
  end.

(** [PutAtPos] ([USE_BITMAP]): the slot is chosen by the caller's bitmap. *)
Definition PutAtPos (key val : Z) (pos : nat) (e : Entry) : res (Z * Entry) :=
  let* e := setVal pos val e in
  let* e := setKey pos key e in
  Ret (STATUS_OK, e).

(** ** Abstraction: the pairs stored in an entry and the finite map they are *)
Definition contents (e : Entry) : gmap Z Z := slot_map (kvs e).

(** Well-formed: the array has its size and no key occurs twice. *)
Definition entry_wf (e : Entry) : Prop :=
  length (kvs e) = KVS_PER_ENTRY ∧ NoDup (live (kvs e)).*1.

(** ** Lemmas on the array *)
Section live.
Implicit Types (l : list (Z * Z)) (k v : Z).

Lemma find_slot_Some key e i kv :
  find_slot key e = Some (i, kv) →
  ∃ l1 l2 v, kv = (key, v) ∧ kvs e = l1 ++ (key, v) :: l2 ∧ length l1 = i ∧
    (key ∉ l1.*1) ∧ (∀ f, alter f i (kvs e) = l1 ++ f (key, v) :: l2).
Proof. apply slot_find_Some. Qed.

Lemma find_slot_None key e : find_slot key e = None → key ∉ (kvs e).*1.
Proof. apply slot_find_None. Qed.

Lemma contents_lookup e k :
  k ≠ 0 → contents e !! k = (λ p, p.2.2) <$> find_slot k e.
Proof. apply live_lookup. Qed.

Lemma contents_Some e k v :
  contents e !! k = Some v → k ≠ 0 ∧ (k, v) ∈ kvs e.
Proof. intros ?%elem_of_list_to_map_2. by apply elem_of_live. Qed.

Lemma contents_None e k : k ∉ (live (kvs e)).*1 ↔ contents e !! k = None.
Proof. apply not_elem_of_list_to_map. Qed.

Lemma contents_elem e k v :
  entry_wf e → k ≠ 0 → (k, v) ∈ kvs e → contents e !! k = Some v.
Proof.
  intros [_ Hnd] Hk Hin. apply elem_of_list_to_map_1; [done|].
  by apply elem_of_live.
Qed.
End live.

(** ** Functional specifications of the public methods *)

(** The operations leave the link, the bound and the flag alone. *)
Definition same_meta (e e' : Entry) : Prop :=
  next e' = next e ∧ min_key e' = min_key e ∧ flag e' = flag e.

Lemma setVal_at i v e :
  (i < KVS_PER_ENTRY)%nat →
  setVal i v e = Ret (with_kvs (alter (λ kv : Z * Z, (kv.1, v)) i (kvs e)) e).
Proof. intros. unfold setVal. by rewrite bool_decide_eq_true_2. Qed.

Lemma setKey_at i k e :
  (i < KVS_PER_ENTRY)%nat →
  setKey i k e = Ret (with_kvs (alter (λ kv : Z * Z, (k, kv.2)) i (kvs e)) e).
Proof. intros. unfold setKey. by rewrite bool_decide_eq_true_2. Qed.

(** Writing value then key at slot [i] replaces the pair. *)
Lemma set_pair_at l1 l2 x k v e :
  kvs e = l1 ++ x :: l2 → length (kvs e) = KVS_PER_ENTRY →
  (let* e := setVal (length l1) v e in setKey (length l1) k e)
  = Ret (with_kvs (l1 ++ (k, v) :: l2) e).
Proof.
  intros E Hl. rewrite E, length_app in Hl; cbn in Hl.
  rewrite setVal_at by lia. cbn. rewrite setKey_at by lia. cbn.
  by rewrite E, !alter_middle.
Qed.

Lemma Get_spec key val0 e :
  key ≠ 0 →
  Get key val0 e = match contents e !! key with
                   | Some v => (STATUS_OK, v)
                   | None => (STATUS_FAIL, val0)
                   end.
Proof.
  intros. unfold Get. rewrite contents_lookup by done.
  by destruct (find_slot key e) as [[? []]|].
Qed.

Lemma full_iff e :
  entry_wf e →
  find_slot INVALID_KEY e = None ↔ length (live (kvs e)) = KVS_PER_ENTRY.
Proof.
  intros [Hlen _]. split.
  - intros Hn%find_slot_None. rewrite live_all; [done|].
    apply list.Forall_forall. intros [k v] Hin. cbn. intros ->.
    by apply Hn, (elem_of_fst _ _ v).
  - intros Hl. destruct (find_slot _ e) as [[i kv]|] eqn:E; [|done].
    apply find_slot_Some in E as (l1 & l2 & v & -> & E & _).
    rewrite E, live_app, live_cons, decide_True, length_app in Hl by done.
    rewrite E, length_app in Hlen; cbn in Hlen.
    pose proof (live_length l1). pose proof (live_length l2). lia.
Qed.

Lemma MaybePut_spec key val e :
  entry_wf e → key ≠ 0 → contents e !! key = None →
  (length (live (kvs e)) = KVS_PER_ENTRY ∧
   MaybePut key val e = Ret (STATUS_OVERFLOW, e)) ∨
  ((length (live (kvs e)) < KVS_PER_ENTRY)%nat ∧
   ∃ e', MaybePut key val e = Ret (STATUS_OK, e') ∧ entry_wf e' ∧
     contents e' = <[key := val]> (contents e) ∧ same_meta e e').
Proof.
  intros Hwf Hk Hnone. pose proof (full_iff e Hwf) as Hfull. unfold MaybePut.
  destruct (find_slot INVALID_KEY e) as [[i kv]|] eqn:E; [right|left; naive_solver].
  pose proof Hwf as [Hlen _].
  apply find_slot_Some in E as (l1 & l2 & v & -> & E & <- & _ & _).
  assert (length (live (kvs e)) ≠ KVS_PER_ENTRY) by (rewrite <- Hfull; done).
  pose proof (live_length (kvs e)). split; [lia|].
  eexists. split.
  { rewrite <- (res_bind_ret (λ e, Ret (STATUS_OK, e))).
    rewrite <- (set_pair_at l1 l2 (INVALID_KEY, v) key val e) by done.
    unfold mbind, res_bind. by destruct (setVal _ _ _); [destruct (setKey _ _ _)|..]. }
  destruct Hwf as [_ Hnd]. unfold entry_wf, contents in *. rewrite E in *.
  destruct (slots_new l1 l2 v key val Hk Hnone Hnd) as [??].
  split_and!; [|done..]. cbn. rewrite length_app in *. done.
Qed.

Lemma Update_spec key val e :
  entry_wf e → key ≠ 0 →
  match contents e !! key with
  | Some _ => ∃ e', Update key val e = Ret (STATUS_OK, e') ∧ entry_wf e' ∧
                contents e' = <[key := val]> (contents e) ∧ same_meta e e'
  | None => Update key val e = Ret (STATUS_FAIL, e)
  end.
Proof.
  intros [Hlen Hnd] Hk. rewrite contents_lookup by done. unfold Update.
  destruct (find_slot key e) as [[i kv]|] eqn:E; cbn; [|done].
  pose proof E as (l1 & l2 & v & -> & E1 & <- & Hni & _)%find_slot_Some. clear E.
  rewrite E1, length_app in Hlen; cbn in Hlen.
  rewrite setVal_at by lia. cbn. rewrite E1, alter_middle. cbn.
  rewrite E1 in Hnd. destruct (slots_update l1 l2 v key val Hk Hnd) as [??].
  eexists; split; [done|]. unfold entry_wf, contents, same_meta; cbn. rewrite E1.
  split_and!; [|done..]. rewrite length_app. cbn. lia.
Qed.

Lemma Remove_spec key e :
  entry_wf e → key ≠ 0 →
  match contents e !! key with
  | Some _ => ∃ e', Remove key e = Ret (STATUS_OK, e') ∧ entry_wf e' ∧
                contents e' = delete key (contents e) ∧ same_meta e e'
  | None => Remove key e = Ret (STATUS_FAIL, e)
  end.
Proof.
  intros [Hlen Hnd] Hk. rewrite contents_lookup by done. unfold Remove.
  destruct (find_slot key e) as [[i kv]|] eqn:E; cbn; [|done].
  pose proof E as (l1 & l2 & v & -> & E1 & <- & Hni & _)%find_slot_Some. clear E.
  rewrite E1, length_app in Hlen; cbn in Hlen.
  rewrite setKey_at by lia. cbn. rewrite E1, alter_middle. cbn.
  rewrite E1 in Hnd. destruct (slots_remove l1 l2 v key Hk Hnd) as [??].
  eexists; split; [done|]. unfold entry_wf, contents, same_meta; cbn. rewrite E1.
  split_and!; [|done..]. rewrite length_app. cbn. lia.
Qed.

(** ** The array initialisers *)
Lemma Entry_new_wf k : entry_wf (Entry_new k) ∧ contents (Entry_new k) = ∅.
Proof.
  unfold entry_wf, contents, Entry_new, zero_Entry, zero_kvs; cbn [kvs with_min_key].
  rewrite live_zero. split_and!; [done|constructor|done].
Qed.

Lemma set_kvs_loop_spec n i src e :
  (i + n ≤ KVS_PER_ENTRY)%nat → (i + n ≤ length src)%nat →
  length (kvs e) = KVS_PER_ENTRY →
  set_kvs_loop n i src e =
  Ret (with_kvs (take i (kvs e) ++ take n (drop i src) ++ drop (i + n) (kvs e)) e).
Proof.
  revert i e. induction n as [|n IH]; intros i e H1 H2 Hl; cbn [set_kvs_loop].
  { rewrite Nat.add_0_r, firstn_O. cbn [app]. rewrite take_drop. by destruct e. }
  destruct (lookup_lt_is_Some_2 src i) as [[k v] Hs]; [lia|].
  destruct (lookup_lt_is_Some_2 (kvs e) i) as [x Hx]; [lia|].
  rewrite Hs. cbn [of_option]. rewrite res_bind_ret.
  destruct (alter_split _ _ _ Hx) as (l1 & l2 & E & <- & _).
  pose proof (set_pair_at l1 l2 x k v e E Hl) as Hset.
  destruct (setVal _ _ e) as [e1| |]; [|done..]. cbn in Hset |- *.
  destruct (setKey _ _ e1) as [e2| |]; [|done..]. injection Hset as ->. cbn.
  rewrite E, length_app in Hl; cbn in Hl.
  rewrite IH; [|lia|lia|cbn; rewrite length_app; cbn; lia].
  f_equal. unfold with_kvs; cbn. f_equal.
  rewrite E, (drop_S _ _ _ Hs), firstn_cons, take_app_length.
  replace (S (length l1)) with (length l1 + 1)%nat by lia.
  replace (S (length l1 + n))%nat with (length l1 + S n)%nat by lia.
  rewrite take_app_add, !drop_app_add. cbn.
  by rewrite firstn_O, <- app_assoc, Nat.add_1_r.
Qed.

Lemma Entry_new_kvs_spec mk src size :
  (size ≤ KVS_PER_ENTRY)%nat → (size ≤ length src)%nat →
  Entry_new_kvs mk src size =
  Ret (mkEntry 0 mk 0 (take size src ++ replicate (KVS_PER_ENTRY - size) (0, 0))
         (replicate 8 0)).
Proof.
  intros. unfold Entry_new_kvs. rewrite set_kvs_loop_spec; [|done..].
  cbn [take app drop Nat.add kvs with_min_key zero_Entry zero_kvs].
  unfold zero_kvs. by rewrite drop_replicate.
Qed.

Lemma setOrderedKVs_spec kv0 src size e :
  src !! 0%nat = Some kv0 → (size ≤ KVS_PER_ENTRY)%nat → (size ≤ length src)%nat →
  setOrderedKVs src size e =
  Ret (mkEntry (next e) kv0.1 (flag e)
         (take size src ++ replicate (KVS_PER_ENTRY - size) (0, 0)) (reserve e)).
Proof.
  intros H0 ??. unfold setOrderedKVs. rewrite set_kvs_loop_spec; [|done..].
  rewrite res_bind_ret, H0. cbn [of_option]. rewrite res_bind_ret.
  unfold zero_kvs. cbn [take app Nat.add kvs with_kvs].
  by rewrite drop_replicate.
Qed.

(** ** Properties *)

(** C37: an entry is a finite map of at most [KVS_PER_ENTRY] keys.  From a
    well-formed entry, for a valid key: [Get] returns exactly the stored
    value; [MaybePut] of a new key either stores it or, exactly when all slots
    are taken, reports [STATUS_OVERFLOW] without a change; [Update] and
    [Remove] replace and delete a present key and otherwise report
    [STATUS_FAIL] without a change; no call faults, and each keeps the entry
    well-formed. *)
Theorem entry_refines_map e key val :
  entry_wf e → key ≠ INVALID_KEY →
  (∀ val0, Get key val0 e =
     match contents e !! key with
     | Some v => (STATUS_OK, v) | None => (STATUS_FAIL, val0) end) ∧
  (contents e !! key = None →
     if decide (length (live (kvs e)) = KVS_PER_ENTRY)
     then MaybePut key val e = Ret (STATUS_OVERFLOW, e)
     else ∃ e', MaybePut key val e = Ret (STATUS_OK, e') ∧ entry_wf e' ∧
            contents e' = <[key := val]> (contents e)) ∧
  (if decide (is_Some (contents e !! key))
   then ∃ e', Update key val e = Ret (STATUS_OK, e') ∧ entry_wf e' ∧
          contents e' = <[key := val]> (contents e)
   else Update key val e = Ret (STATUS_FAIL, e)) ∧
  (if decide (is_Some (contents e !! key))
   then ∃ e', Remove key e = Ret (STATUS_OK, e') ∧ entry_wf e' ∧
          contents e' = delete key (contents e)
   else Remove key e = Ret (STATUS_FAIL, e)).
Proof.
  intros Hwf Hk. split_and!.
  - intros. by apply Get_spec.
  - intros Hn. destruct (MaybePut_spec key val e Hwf Hk Hn) as [[??]|[? (e' & ?)]].
    + by rewrite decide_True.
    + rewrite decide_False by lia. exists e'. naive_solver.
  - pose proof (Update_spec key val e Hwf Hk) as HU.
    destruct (contents e !! key); cbn in *; [|done].
    destruct HU as (e' & ?). exists e'. naive_solver.
  - pose proof (Remove_spec key e Hwf Hk) as HR.
    destruct (contents e !! key); cbn in *; [|done].
    destruct HR as (e' & ?). exists e'. naive_solver.
Qed.

Definition witness_entry : Entry :=
  with_kvs ((7, 70) :: (9, 90) :: replicate 12 (0, 0)) (Entry_new 5).

Lemma entry_refines_map_witness :
  entry_wf witness_entry ∧ Get 9 0 witness_entry = (STATUS_OK, 90).
Proof.
  assert (entry_wf witness_entry) as Hwf.
  { split; [reflexivity|]. apply (bool_decide_unpack _). vm_compute. exact I. }
  split; [exact Hwf|].
  rewrite (proj1 (entry_refines_map witness_entry 9 0 Hwf ltac:(discriminate)) 0).
  vm_compute. reflexivity.
Defined.

(** Looking up [INVALID_KEY] in an entry that has a free slot succeeds
    and returns whatever value the free slot still holds: the reserved key is
    not rejected. *)
Theorem Get_INVALID_KEY_succeeds e val0 :
  entry_wf e → length (live (kvs e)) ≠ KVS_PER_ENTRY →
  ∃ v, Get INVALID_KEY val0 e = (STATUS_OK, v) ∧ (INVALID_KEY, v) ∈ kvs e.
Proof.
  intros Hwf Hl. unfold Get.
  destruct (find_slot INVALID_KEY e) as [[i kv]|] eqn:E;
    [|by apply full_iff in E].
  apply find_slot_Some in E as (l1 & l2 & v & -> & -> & _). exists v.
  split; [done|]. set_solver.
Qed.

Lemma Get_INVALID_KEY_succeeds_witness :
  ∃ v, Get INVALID_KEY 1 witness_entry = (STATUS_OK, v) ∧
       (INVALID_KEY, v) ∈ kvs witness_entry.
Proof.
  apply Get_INVALID_KEY_succeeds; [|vm_compute; discriminate].
  split; [reflexivity|]. apply (bool_decide_unpack _). vm_compute. exact I.
Defined.
