(* ===== verification/Index.v ===== *)
(** * The inner index promised to the EPL-Tree

    The EPL-Tree keeps, in DRAM, an ALEX index ([include/alex/alex.h]) from
    routing keys to leaf addresses.  This file states what the tree relies
    on: the five operations it calls and their laws over the finite map the
    index holds.  A lookup that would read a payload slot nobody wrote
    returns [None].

    The largest key, [UINT64_MAX], is ALEX's [kEndSentinel_]; the laws make no
    promise about it. *)
From S2P Require Import Prelude.

(** The routing keys of an index that the lookup can fall on. *)
Definition is_floor (m : gmap Z Z) (key k : Z) : Prop :=
  is_Some (m !! k) ∧ k ≤ key ∧ ∀ k', is_Some (m !! k') → k' ≤ key → k' ≤ k.
Definition is_minimum (m : gmap Z Z) (k : Z) : Prop :=
  is_Some (m !! k) ∧ ∀ k', is_Some (m !! k') → k ≤ k'.

Class OrderedIndex (idx : Type) := {
  idx_new : idx;
  idx_insert : Z → Z → idx → idx;
  idx_erase : Z → idx → idx;
  idx_bulk_load : list (Z * Z) → idx → idx;
  get_payload_last_no_greater_than : Z → idx → option Z;
  idx_map : idx → gmap Z Z
}.

Class OrderedIndexLaws (idx : Type) `{OrderedIndex idx} := {
  idx_map_new : idx_map idx_new = ∅;
  idx_map_insert k v i :
    0 ≤ k < UINT64_MAX → idx_map i !! k = None →
    idx_map (idx_insert k v i) = <[k := v]> (idx_map i);
  idx_map_erase k i : idx_map (idx_erase k i) = delete k (idx_map i);
  idx_map_bulk_load l i :
    idx_map i = ∅ → l ≠ [] → StronglySorted Z.lt l.*1 →
    Forall (λ k, 0 ≤ k < UINT64_MAX) l.*1 →
    idx_map (idx_bulk_load l i) = list_to_map l;
  lookup_floor key k v i :
    key < UINT64_MAX → is_floor (idx_map i) key k → idx_map i !! k = Some v →
    get_payload_last_no_greater_than key i = Some v;
  lookup_below key k v i :
    (∀ k', is_Some (idx_map i !! k') → key < k') →
    is_minimum (idx_map i) k → idx_map i !! k = Some v →
    get_payload_last_no_greater_than key i = Some v
}.

(** An index that holds a sorted list of routing keys. *)
Section sorted_index.
Context `{OrderedIndexLaws idx}.
Implicit Types (i : idx) (l r : list (Z * Z)).

Lemma lookup_floor_sorted i key r1 k p r2 :
  idx_map i = list_to_map (r1 ++ (k, p) :: r2) →
  StronglySorted Z.lt (r1 ++ (k, p) :: r2).*1 →
  k ≤ key < UINT64_MAX → Forall (λ x, key < x) r2.*1 →
  get_payload_last_no_greater_than key i = Some p.
Proof.
  intros Hi Hs Hk Hr2. pose proof (sorted_lt_NoDup _ Hs) as Hnd.
  assert ((k, p) ∈ r1 ++ (k, p) :: r2) as Hin by (apply elem_of_app; right; left).
  assert (idx_map i !! k = Some p) as Hl by (rewrite Hi; by apply elem_of_list_to_map_1).
  apply (lookup_floor key k p); [lia| |done]. split; [by eexists|]. split; [lia|].
  intros x [q Hq]. rewrite Hi in Hq. apply elem_of_list_to_map_2 in Hq.
  intros Hle. rewrite fmap_app in Hs. cbn in Hs.
  apply sorted_lt_app_inv in Hs as (_ & _ & Hlt).
  apply elem_of_app in Hq as [Hq|[?|Hq]%elem_of_cons].
  - apply Z.lt_le_incl, Hlt; [by apply elem_of_fst with q|left].
  - simplify_eq. lia.
  - rewrite list.Forall_forall in Hr2. specialize (Hr2 x (elem_of_fst _ _ _ Hq)). lia.
Qed.

Lemma lookup_below_sorted i key k p r :
  idx_map i = list_to_map ((k, p) :: r) →
  StronglySorted Z.lt ((k, p) :: r).*1 → key < k →
  get_payload_last_no_greater_than key i = Some p.
Proof.
  intros Hi Hs Hk. cbn in Hs. apply StronglySorted_inv in Hs as [_ Hr].
  rewrite list.Forall_forall in Hr.
  assert (∀ x, is_Some (idx_map i !! x) → k ≤ x) as Hmin.
  { rewrite Hi. intros x [q Hq%elem_of_list_to_map_2].
    apply elem_of_cons in Hq as [?|Hq]; [simplify_eq; lia|].
    specialize (Hr x (elem_of_fst _ _ _ Hq)). lia. }
  assert (idx_map i !! k = Some p) as Hl by (rewrite Hi; cbn; by rewrite lookup_insert_eq).
  apply (lookup_below key k p); [|split; [by eexists|done]|done].
  intros x Hx. specialize (Hmin x Hx). lia.
Qed.
End sorted_index.

(** ** A reference implementation

    A finite map with a sorted search.  It shows that the laws can hold
    together and lets the properties of the clients be evaluated on concrete
    runs; it stands for no code of the program. *)
Module MapIndex.

Abbreviation t := (gmap Z Z).

Definition lookup_last (key : Z) (m : t) : option Z :=
  let l := sort_kvs (map_to_list m) in
  match last (filter (λ kv : Z * Z, kv.1 ≤ key) l) with
  | Some kv => Some kv.2
  | None => snd <$> head l
  end.

#[export] Instance ops : OrderedIndex t := {
  idx_new := ∅;
  idx_insert k v m := <[k := v]> m;
  idx_erase k m := delete k m;
  idx_bulk_load l m := if decide (m = ∅) then list_to_map l else m;
  get_payload_last_no_greater_than := lookup_last;
  idx_map m := m
}.

Lemma elem_of_sorted_map (m : t) k v :
  (k, v) ∈ sort_kvs (map_to_list m) ↔ m !! k = Some v.
Proof. by rewrite sort_kvs_perm, elem_of_map_to_list. Qed.

Lemma sorted_last_ge (l : list (Z * Z)) x y :
  StronglySorted kv_le l → last l = Some x → y ∈ l → y.1 ≤ x.1.
Proof.
  intros Hs Hl Hy. destruct l as [|z l _] using rev_ind; [done|].
  rewrite last_snoc in Hl. simplify_eq.
  apply elem_of_app in Hy as [Hy|Hy%list_elem_of_singleton]; [|by subst].
  induction l as [|a l IH]; [by apply not_elem_of_nil in Hy|].
  cbn in Hs. apply StronglySorted_inv in Hs as [Hs Ha].
  apply elem_of_cons in Hy as [->|Hy]; [|by apply IH].
  rewrite list.Forall_forall in Ha. apply (Ha x). set_solver.
Qed.

Lemma sorted_filter (P : Z * Z → Prop) `{∀ x, Decision (P x)} l :
  StronglySorted kv_le l → StronglySorted kv_le (filter P l).
Proof.
  induction 1 as [|x l Hs IH Hx]; [constructor|].
  rewrite filter_cons. case_decide; [|done]. constructor; [done|].
  rewrite list.Forall_forall in *. intros y [_ Hy]%list_elem_of_filter. by apply Hx.
Qed.

#[export] Instance laws : OrderedIndexLaws t.
Proof.
  split; cbn.
  - done.
  - done.
  - done.
  - intros l i -> _ _ _. by rewrite decide_True.
  - intros key k v m _ (_ & Hle & Hmax) Hk. unfold lookup_last.
    set (l := filter _ _).
    assert ((k, v) ∈ l) as Hin.
    { apply list_elem_of_filter. by rewrite elem_of_sorted_map. }
    destruct (last l) as [[k2 v2]|] eqn:E; [|by apply last_None in E; rewrite E in Hin; apply not_elem_of_nil in Hin].
    pose proof (last_Some_elem_of _ _ E) as [Hle2 Hin2]%list_elem_of_filter.
    apply elem_of_sorted_map in Hin2. cbn in Hle2.
    assert (k ≤ k2).
    { apply (sorted_last_ge l (k2, v2) (k, v)); [|done..].
      apply sorted_filter, sort_kvs_sorted. }
    assert (k2 ≤ k) by (apply Hmax; eauto). assert (k2 = k) as -> by lia.
    cbn. congruence.
  - intros key k v m Hlt [_ Hmin] Hk. unfold lookup_last.
    destruct (last _) as [[k2 v2]|] eqn:E.
    { apply last_Some_elem_of, list_elem_of_filter in E as [? Hin2].
      apply elem_of_sorted_map in Hin2. specialize (Hlt k2 ltac:(eauto)). cbn in *. lia. }
    pose proof (sort_kvs_sorted (map_to_list m)) as Hs.
    assert ((k, v) ∈ sort_kvs (map_to_list m)) as Hin by (by apply elem_of_sorted_map).
    destruct (sort_kvs (map_to_list m)) as [|[k2 v2] l] eqn:Es; [by apply not_elem_of_nil in Hin|].
    cbn. f_equal.
    assert (m !! k2 = Some v2) as Hk2 by (apply elem_of_sorted_map; rewrite Es; left).
    apply StronglySorted_inv in Hs as [_ Ha]. rewrite list.Forall_forall in Ha.
    assert (k ≤ k2) by (apply Hmin; eauto).
    apply elem_of_cons in Hin as [|Hin]; [congruence|].
    specialize (Ha _ Hin). unfold kv_le in Ha; cbn in Ha.
    assert (k2 = k) as -> by lia. congruence.
Qed.
End MapIndex.
