(* ===== verification/EplTree.v ===== *)
(** * The EPL-Tree ([src/epltree.h], [src/datalist.h])

    Leaves live in persistent memory: [nvm] maps addresses to entries, linked
    through [next] from [entry_head] ([DataList]).  A DRAM index maps routing
    keys to leaf addresses; it is any instance of [OrderedIndex].  Every
    access goes through memory, so two names of one leaf alias.  [clflush],
    fences and [Mem_persist] do not change the volatile state modelled here;
    [SplitCrash.v] gives the order of the stores.  The array [tmp_kvs] is global
    in the code but written before every read, so it is a local here.

    The functions follow the configuration that is built: [USE_BITMAP] and
    [USE_FGPT] are commented out in [entry.h]. *)
From S2P Require Import Prelude NvmAlloc Entry Index.

Definition sizeof_Entry : Z := 256.

Section tree.
Context `{OrderedIndex idx}.

Record EPLTree : Type := mkTree {
  nvm : gmap Z Entry;
  data_alloc : Alloc.t;
  entry_head : Z;
  index : idx
}.

Definition with_nvm (m : gmap Z Entry) (s : EPLTree) : EPLTree :=
  mkTree m (data_alloc s) (entry_head s) (index s).
Definition with_index (i : idx) (s : EPLTree) : EPLTree :=
  mkTree (nvm s) (data_alloc s) (entry_head s) i.

(** Dereferencing an entry pointer. *)
Definition load (p : Z) (s : EPLTree) : res Entry :=
  if bool_decide (p = 0) then Fault else of_option (nvm s !! p).
Definition store (p : Z) (e : Entry) (s : EPLTree) : EPLTree :=
  with_nvm (<[p := e]> (nvm s)) s.
Definition modify (p : Z) (f : Entry → res Entry) (s : EPLTree) : res EPLTree :=
  let* e := load p s in let* e := f e in Ret (store p e s).

(** [NVM::data_alloc->alloc_aligned(sizeof(Entry))] followed by the
    placement [new] that writes the block, which must lie in the mapping. *)
Definition alloc_entry (s : EPLTree) : res (Z * EPLTree) :=
  let '(p, a) := Alloc.alloc_aligned sizeof_Entry 256 (data_alloc s) in
  if bool_decide (p + sizeof_Entry ≤ Alloc.pmem_addr_ a + Alloc.mapped_len_ a)
  then Ret (p, mkTree (nvm s) a (entry_head s) (index s))
  else Fault.

(** [DataList::Init] *)
Definition DataList_Init (recover : bool) (s : EPLTree) : res EPLTree :=
  let* '(p, s) := alloc_entry s in
  let s := mkTree (nvm s) (data_alloc s) p (index s) in
  if recover then Ret s else Ret (store p (Entry_new INVALID_KEY) s).

(** [EPLTree::EPLTree]; [file] is what the mapped file holds. *)
Definition EPLTree_new (recover : bool) (file : gmap Z Entry) (a : Alloc.t) : res EPLTree :=
  let* s := DataList_Init recover (mkTree file a 0 idx_new) in
  if recover then Ret s
  else Ret (with_index (idx_insert INVALID_KEY (entry_head s) (index s)) s).

(** [DataList::~DataList]: every leaf is given back, head first. *)
Fixpoint DataList_free (fuel : nat) (cur : Z) (s : EPLTree) : res EPLTree :=
  if bool_decide (cur = 0) then Ret s else
  match fuel with
  | O => Diverge
  | S fuel =>
      let prev := cur in
      let* e := load cur s in
      DataList_free fuel (next e)
        (mkTree (nvm s) (Alloc.Free prev sizeof_Entry (data_alloc s)) (entry_head s) (index s))
  end.

(** ** Recovery: the index is rebuilt from the leaf list *)
Fixpoint recover_loop (fuel : nat) (cap cur : Z) (index_kvs : list (Z * Z)) (s : EPLTree)
  : res (list (Z * Z)) :=
  if bool_decide (cur = 0) then Ret index_kvs else
  match fuel with
  | O => Diverge
  | S fuel =>
      let* e := load cur s in
      if bool_decide (Z.of_nat (length index_kvs) < cap)
      then recover_loop fuel cap (next e) (index_kvs ++ [(GetMinKey e, cur)]) s
      else Fault
  end.

Definition Recover (fuel : nat) (load_size : Z) (s : EPLTree) : res EPLTree :=
  let cap := load_size / Z.of_nat KVS_PER_ENTRY + 1 in
  let* index_kvs := recover_loop fuel cap (entry_head s) [] s in
  Ret (with_index (idx_bulk_load index_kvs (index s)) s).

(** ** Bulk loading *)
Fixpoint bulk_loop (fuel i : nat) (bulk_kvs : list (Z * Z)) (num_keys : nat)
    (cap : Z) (cur : Z) (index_kvs : list (Z * Z)) (s : EPLTree)
  : res (list (Z * Z) * EPLTree) :=
  if bool_decide (KVS_PER_ENTRY * i < num_keys)%nat then
    match fuel with
    | O => Diverge
    | S fuel =>
        let* '(new_entry, s) := alloc_entry s in
        let* kv := of_option (bulk_kvs !! (i * KVS_PER_ENTRY)%nat) in
        let new_min_key := kv.1 in
        let* e := Entry_new_kvs new_min_key (drop (i * KVS_PER_ENTRY) bulk_kvs)
                    (Nat.min (num_keys - i * KVS_PER_ENTRY) KVS_PER_ENTRY) in
        let s := store new_entry e s in
        let* s := modify cur (λ e, Ret (with_next new_entry e)) s in
        let* ce := load cur s in
        let cur := next ce in
        if bool_decide (Z.of_nat (length index_kvs) < cap)
        then bulk_loop fuel (S i) bulk_kvs num_keys cap cur
               (index_kvs ++ [(new_min_key, new_entry)]) s
        else Fault
    end
  else Ret (index_kvs, s).

Definition BulkLoad (bulk_kvs : list (Z * Z)) (num_keys : nat) (s : EPLTree) : res EPLTree :=
  if bool_decide (num_keys = 0)%nat then Ret s else
  let cap := Z.of_nat (num_keys / KVS_PER_ENTRY) + 1 in
  let head := entry_head s in
  let* s := modify head (setOrderedKVs bulk_kvs (Nat.min num_keys KVS_PER_ENTRY)) s in
  let s := with_index (idx_erase INVALID_KEY (index s)) s in
  let* h := load head s in
  let index_kvs := [(GetMinKey h, head)] in
  if bool_decide (num_keys ≤ KVS_PER_ENTRY)%nat then Ret s else
  let* '(index_kvs, s) := bulk_loop num_keys 1 bulk_kvs num_keys cap head index_kvs s in
  Ret (with_index (idx_bulk_load index_kvs (index s)) s).

(** ** Point operations *)
Definition find_entry (key : Z) (s : EPLTree) : res Z :=
  of_option (get_payload_last_no_greater_than key (index s)).

(** [EPLTree::Get]: the status and the out-parameter. *)
Definition Get (key val0 : Z) (s : EPLTree) : res (Z * Z) :=
  let* entry := find_entry key s in
  let* e := load entry s in
  let '(st, val) := Entry.Get key val0 e in
  if bool_decide (st ≠ STATUS_OK) then Ret (STATUS_FAIL, 0)
  else Ret (STATUS_OK, val).

Definition splitEntry (entry : Z) (s : EPLTree) : res EPLTree :=
  let* e := load entry s in
  let tmp_kvs := sort_kvs (kvs e) in
  let* '(new_entry, s) := alloc_entry s in
  let* m := of_option (tmp_kvs !! (KVS_PER_ENTRY / 2)%nat) in
  let new_min_key := m.1 in
  let* ne := Entry_new_kvs new_min_key (drop (KVS_PER_ENTRY / 2) tmp_kvs)
               ((KVS_PER_ENTRY + 1) / 2) in
  let s := store new_entry ne s in
  let* s := modify entry (λ e, Ret (setFlag 1 e)) s in
  let* s := modify entry (λ e, Ret (setPersistFlag 1 e)) s in
  let* e := load entry s in
  let* s := modify new_entry (λ ne, Ret (with_next (next e) ne)) s in
  let* s := modify entry (λ e, Ret (with_next new_entry e)) s in
  let s := with_index (idx_insert new_min_key new_entry (index s)) s in
  let* s := modify entry (setOrderedKVs tmp_kvs (KVS_PER_ENTRY / 2)) s in
  modify entry (λ e, Ret (setFlag 0 e)) s.

(** Runs a status-returning method on the entry at [p]. *)
Definition run_entry (p : Z) (f : Entry → res (Z * Entry)) (s : EPLTree)
  : res (Z * EPLTree) :=
  let* e := load p s in
  let* '(st, e) := f e in
  Ret (st, store p e s).

(** [EPLTree::Insert]; the recursive call after a split costs one unit of
    fuel. *)
Fixpoint Insert (fuel : nat) (key val : Z) (s : EPLTree) : res (Z * EPLTree) :=
  let* entry := find_entry key s in
  let* entry := if bool_decide (entry = 0) then find_entry (u64 (key - 1)) s
                else Ret entry in
  let* '(ret, s) := run_entry entry (MaybePut key val) s in
  if bool_decide (ret = STATUS_OVERFLOW) then
    match fuel with
    | O => Diverge
    | S fuel => let* s := splitEntry entry s in Insert fuel key val s
    end
  else Ret (ret, s).

Definition Update (key val : Z) (s : EPLTree) : res (Z * EPLTree) :=
  let* entry := find_entry key s in
  run_entry entry (Entry.Update key val) s.

Definition Remove (key : Z) (s : EPLTree) : res (Z * EPLTree) :=
  let* entry := find_entry key s in
  run_entry entry (Entry.Remove key) s.

(** ** Scans *)
Definition in_range (start_key end_key : Z) (kv : Z * Z) : Prop :=
  start_key ≤ kv.1 ≤ end_key.

(** [while (start_entry != end_entry)] of [RangeScan]: pushes every slot. *)
Fixpoint range_middle (fuel : nat) (start_entry end_entry : Z)
    (results : list (Z * Z)) (s : EPLTree) : res (list (Z * Z)) :=
  if bool_decide (start_entry = end_entry) then Ret results else
  match fuel with
  | O => Diverge
  | S fuel => let* e := load start_entry s in
              range_middle fuel (next e) end_entry (results ++ kvs e) s
  end.

Definition RangeScan (fuel : nat) (start_key end_key : Z)
    (results : list (Z * Z)) (s : EPLTree) : res (Z * list (Z * Z)) :=
  let* start_entry := find_entry start_key s in
  let* end_entry := find_entry end_key s in
  let* e := load start_entry s in
  let results := results ++ filter (in_range start_key end_key) (kvs e) in
  if bool_decide (start_entry = end_entry) then Ret (STATUS_OK, results) else
  let* results := range_middle fuel start_entry end_entry results s in
  let* e := load end_entry s in
  Ret (STATUS_OK, results ++ filter (in_range start_key end_key) (kvs e)).

(** The middle loop of [Scan]; the code pushes the stale [tmp_kvs]. *)
Fixpoint scan_middle (fuel : nat) (entry size cnt : Z) (tmp_kvs : list (Z * Z))
    (results : list (Z * Z)) (s : EPLTree) : res (bool * Z * Z * list (Z * Z)) :=
  if bool_decide (entry ≠ 0 ∧ Z.of_nat KVS_PER_ENTRY ≤ size - cnt) then
    match fuel with
    | O => Diverge
    | S fuel =>
        let pushed := live tmp_kvs in
        let results := results ++ pushed in
        let cnt := cnt + Z.of_nat (length pushed) in
        if bool_decide (cnt = size) then Ret (true, entry, cnt, results) else
        let* e := load entry s in
        scan_middle fuel (next e) size cnt tmp_kvs results s
    end
  else Ret (false, entry, cnt, results).

(** The inner [for] of the last loop: pushes until [++cnt == size]. *)
Fixpoint scan_push (l : list (Z * Z)) (size cnt : Z) (results : list (Z * Z))
  : bool * Z * list (Z * Z) :=
  match l with
  | [] => (false, cnt, results)
  | kv :: l =>
      if bool_decide (kv.1 = INVALID_KEY) then scan_push l size cnt results
      else if bool_decide (cnt + 1 = size)
      then (true, cnt + 1, results ++ [kv])
      else scan_push l size (cnt + 1) (results ++ [kv])
  end.

Fixpoint scan_end (fuel : nat) (entry size cnt : Z)
    (results : list (Z * Z)) (s : EPLTree) : res (list (Z * Z)) :=
  if bool_decide (entry = 0) then Ret results else
  match fuel with
  | O => Diverge
  | S fuel =>
      let* e := load entry s in
      let '(full, cnt, results) := scan_push (sort_kvs (kvs e)) size cnt results in
      if full : bool then Ret results else scan_end fuel (next e) size cnt results s
  end.

Definition Scan (fuel : nat) (start_key size : Z) (results : list (Z * Z))
    (s : EPLTree) : res (Z * list (Z * Z)) :=
  let* entry := find_entry start_key s in
  if bool_decide (entry = 0) then Ret (STATUS_OK, results) else
  let* e := load entry s in
  let tmp_kvs := sort_kvs (kvs e) in
  let '(stop, cnt, results) :=
    match list_find (λ kv : Z * Z, start_key ≤ kv.1) tmp_kvs with
    | None => (false, 0, results)
    | Some (start_pos, _) =>
        let end_pos := Z.min (Z.of_nat start_pos + size) (Z.of_nat KVS_PER_ENTRY) in
        let cnt := end_pos - Z.of_nat start_pos in
        (bool_decide (cnt = size), cnt,
         results ++ take (Z.to_nat cnt) (drop start_pos tmp_kvs))
    end in
  if stop : bool then Ret (STATUS_OK, results) else
  let* '(stop, entry, cnt, results) :=
    scan_middle fuel (next e) size cnt tmp_kvs results s in
  if stop : bool then Ret (STATUS_OK, results) else
  let* results := scan_end fuel entry size cnt results s in
  Ret (STATUS_OK, results).
End tree.
Arguments EPLTree idx : clear implicits.
