(* ===== verification/EplTreeInv.v ===== *)
(** * Invariant and functional correctness of the EPL-Tree

    [tree_ok s segs]: the leaf list of [s] is [segs], a list of routing keys
    with leaf addresses in increasing key order, each leaf holds only keys
    between its routing key and the next one, and the index maps exactly the
    routing keys to the leaves.  [tree_map] is the finite map the tree stands
    for; every point operation implements the map operation of its name. *)
From S2P Require Import Prelude NvmAlloc Entry Index EplTree.

Section chain.
Implicit Types (m : gmap Z Entry) (segs l : list (Z * Z)) (hi nx k p x : Z).

Definition hd_key segs hi : Z := match segs with [] => hi | (k, _) :: _ => k end.
Definition hd_ptr segs nx : Z := match segs with [] => nx | (_, p) :: _ => p end.

(** A leaf at [p] whose keys lie in [[k, hi)] and whose successor is [nx]. *)
Definition leaf m k p hi nx : Prop :=
  p ≠ 0 ∧ 0 ≤ k < hi ∧ ∃ e, m !! p = Some e ∧ next e = nx ∧ entry_wf e ∧
    (∀ x v, contents e !! x = Some v → k ≤ x < hi) ∧ k ≤ min_key e < hi.

Fixpoint chain m segs hi nx : Prop :=
  match segs with
  | [] => True
  | (k, p) :: segs => leaf m k p (hd_key segs hi) (hd_ptr segs nx) ∧ chain m segs hi nx
  end.

Definition leaf_map m p : gmap Z Z :=
  match m !! p with Some e => contents e | None => ∅ end.
Fixpoint tree_map m segs : gmap Z Z :=
  match segs with
  | [] => ∅
  | (_, p) :: segs => leaf_map m p ∪ tree_map m segs
  end.

Lemma chain_app m l1 l2 hi nx :
  chain m (l1 ++ l2) hi nx ↔
  chain m l1 (hd_key l2 hi) (hd_ptr l2 nx) ∧ chain m l2 hi nx.
Proof.
  induction l1 as [|[k p] l1 IH]; cbn; [tauto|]. rewrite IH.
  replace (hd_key (l1 ++ l2) hi) with (hd_key l1 (hd_key l2 hi)) by (by destruct l1).
  replace (hd_ptr (l1 ++ l2) nx) with (hd_ptr l1 (hd_ptr l2 nx)) by (by destruct l1).
  tauto.
Qed.

Lemma tree_map_app m l1 l2 : tree_map m (l1 ++ l2) = tree_map m l1 ∪ tree_map m l2.
Proof.
  induction l1 as [|[k p] l1 IH]; cbn; [by rewrite (left_id_L ∅ (∪))|].
  by rewrite IH, (assoc_L (∪)).
Qed.

(** Stores elsewhere do not matter. *)
Lemma chain_frame m p e l hi nx :
  p ∉ l.*2 → chain m l hi nx → chain (<[p := e]> m) l hi nx.
Proof.
  induction l as [|[k q] l IH]; cbn; [done|].
  intros [Hq Hl]%not_elem_of_cons [(? & ? & e' & He & ?) Hc].
  split; [|by apply IH]. split; [done|]. split; [done|]. exists e'.
  by rewrite lookup_insert_ne.
Qed.

Lemma tree_map_frame m p e l :
  p ∉ l.*2 → tree_map (<[p := e]> m) l = tree_map m l.
Proof.
  induction l as [|[k q] l IH]; cbn; [done|].
  intros [Hq Hl]%not_elem_of_cons. rewrite IH by done.
  unfold leaf_map. by rewrite lookup_insert_ne.
Qed.

Lemma chain_bounds m l hi nx : chain m l hi nx → hd_key l hi ≤ hi.
Proof.
  induction l as [|[k p] l IH]; cbn; [lia|].
  intros [(_ & ? & _) Hc]. apply IH in Hc. lia.
Qed.

Lemma tree_map_bounds m l hi nx x v :
  chain m l hi nx → tree_map m l !! x = Some v → hd_key l hi ≤ x < hi.
Proof.
  induction l as [|[k p] l IH]; cbn; [done|].
  intros [(_ & ? & e & He & _ & _ & Hb & _) Hc] Hx.
  pose proof (chain_bounds _ _ _ _ Hc).
  apply lookup_union_Some_raw in Hx as [Hx|[_ Hx]].
  - unfold leaf_map in Hx. rewrite He in Hx. apply Hb in Hx. lia.
  - apply IH in Hx; [|done]. lia.
Qed.

Lemma chain_keys_sorted m l hi nx :
  chain m l hi nx → StronglySorted Z.lt l.*1 ∧ Forall (λ k, hd_key l hi ≤ k < hi) l.*1.
Proof.
  induction l as [|[k p] l IH]; cbn; [by split; constructor|].
  intros [(_ & ? & _) Hc]. destruct (IH Hc) as [Hs Hf].
  pose proof (chain_bounds _ _ _ _ Hc).
  split; constructor; [done| |lia|];
    (eapply Forall_impl; [done|]; cbn; lia).
Qed.

Lemma chain_keys_range m l hi nx :
  chain m l hi nx → Forall (λ k, 0 ≤ k < hi) l.*1.
Proof.
  intros Hc. destruct l as [|[k p] l]; [constructor|].
  pose proof Hc as [(_ & ? & _) _].
  destruct (chain_keys_sorted _ _ _ _ Hc) as [_ Hf].
  eapply Forall_impl; [done|]. cbn. lia.
Qed.

(** The segment a key belongs to. *)
Lemma chain_route m l hi nx x :
  chain m l hi nx → hd_key l hi ≤ x < hi →
  ∃ l1 k p l2, l = l1 ++ (k, p) :: l2 ∧ k ≤ x < hd_key l2 hi.
Proof.
  induction l as [|[k p] l IH]; cbn; [lia|]. intros [_ Hc] Hx.
  destruct (decide (hd_key l hi ≤ x)) as [Hle|].
  - destruct (IH Hc ltac:(lia)) as (l1 & k' & p' & l2 & -> & ?).
    by exists ((k, p) :: l1), k', p', l2.
  - exists [], k, p, l. split; [done|lia].
Qed.

(** Within its segment the tree agrees with the leaf. *)
Lemma tree_map_segment m l1 k p l2 hi nx e x :
  chain m (l1 ++ (k, p) :: l2) hi nx → m !! p = Some e →
  x < hd_key l2 hi → k ≤ x ∨ l1 = [] →
  tree_map m l1 !! x = None ∧ tree_map m l2 !! x = None ∧
  tree_map m (l1 ++ (k, p) :: l2) !! x = contents e !! x.
Proof.
  intros Hc He Hx Hk. pose proof Hc as [Hc1 [Hl Hc2]]%chain_app. cbn in Hc1.
  assert (tree_map m l1 !! x = None) as H1.
  { destruct (tree_map m l1 !! x) as [v|] eqn:E; [|done].
    pose proof (tree_map_bounds _ _ _ _ _ _ Hc1 E).
    destruct Hk as [| ->]; [lia|done]. }
  assert (tree_map m l2 !! x = None) as H2.
  { destruct (tree_map m l2 !! x) as [v|] eqn:E; [|done].
    pose proof (tree_map_bounds _ _ _ _ _ _ Hc2 E). lia. }
  split_and!; [done..|].
  rewrite tree_map_app. cbn. unfold leaf_map. rewrite He.
  rewrite lookup_union_r by done. rewrite lookup_union, H2.
  by destruct (contents e !! x).
Qed.

(** Replacing a leaf. *)
Lemma tree_map_store m l1 k p l2 e' :
  NoDup (l1 ++ (k, p) :: l2).*2 →
  tree_map (<[p := e']> m) (l1 ++ (k, p) :: l2)
    = tree_map m l1 ∪ (contents e' ∪ tree_map m l2).
Proof.
  rewrite fmap_app. cbn. intros (_ & Hd & [Hn _]%NoDup_cons)%NoDup_app.
  rewrite tree_map_app. cbn. unfold leaf_map. rewrite lookup_insert_eq.
  rewrite !tree_map_frame; [done|done|]. intros Hin. apply (Hd _ Hin). left.
Qed.

Lemma chain_store m l1 k p l2 hi nx e' :
  NoDup (l1 ++ (k, p) :: l2).*2 → chain m (l1 ++ (k, p) :: l2) hi nx →
  next e' = hd_ptr l2 nx → entry_wf e' →
  (∀ x v, contents e' !! x = Some v → k ≤ x < hd_key l2 hi) →
  k ≤ min_key e' < hd_key l2 hi →
  chain (<[p := e']> m) (l1 ++ (k, p) :: l2) hi nx.
Proof.
  rewrite fmap_app. cbn. intros (_ & Hd & [Hn _]%NoDup_cons)%NoDup_app.
  intros [Hc1 [(? & ? & _) Hc2]]%chain_app Hnx Hwf Hb Hmk.
  apply chain_app. split.
  - apply chain_frame; [|done]. intros Hin. apply (Hd _ Hin). left.
  - split; [|by apply chain_frame]. split; [done|]. split; [done|].
    exists e'. by rewrite lookup_insert_eq.
Qed.
End chain.

Section correctness.
Context `{OrderedIndexLaws idx}.
Implicit Types (s : EPLTree idx) (segs : list (Z * Z)).

Record tree_ok s segs : Prop := {
  ok_ne : segs ≠ [];
  ok_chain : chain (nvm s) segs UINT64_MAX 0;
  ok_index : idx_map (index s) = list_to_map segs;
  ok_nodup : NoDup segs.*2;
  ok_head : hd_ptr segs 0 = entry_head s;
  ok_alloc : Alloc.wf 256 (data_alloc s);
  ok_fresh : Forall (λ p, p < Alloc.current_addr (data_alloc s)) segs.*2;
  ok_mapped : Alloc.mapped_len_ (data_alloc s) < 2 ^ 64
}.

(** There is room for [n] more leaves in the mapping. *)
Definition room (n : nat) s : Prop :=
  Alloc.current_addr (data_alloc s) + Z.of_nat n * sizeof_Entry
    ≤ Alloc.pmem_addr_ (data_alloc s) + Alloc.mapped_len_ (data_alloc s).
Definition has_room s : Prop := room 1 s.

Lemma room_mono n m s : (n ≤ m)%nat → room m s → room n s.
Proof. unfold room, sizeof_Entry. lia. Qed.

Lemma store_id p e s : nvm s !! p = Some e → store p e s = s.
Proof. intros. destruct s; unfold store, with_nvm; cbn in *. by rewrite insert_id. Qed.

(** What a chain tells about its routing keys. *)
Lemma route_sorted m l1 k p l2 hi nx key :
  chain m (l1 ++ (k, p) :: l2) hi nx → key < hd_key l2 hi →
  StronglySorted Z.lt (l1 ++ (k, p) :: l2).*1 ∧ Forall (λ x, key < x) l2.*1 ∧
  hd_key l2 hi ≤ hi.
Proof.
  intros Hc Hk. split; [by eapply chain_keys_sorted|].
  apply chain_app in Hc as [_ [_ Hc2]]. split; [|by eapply chain_bounds].
  destruct (chain_keys_sorted _ _ _ _ Hc2) as [_ Hf].
  eapply Forall_impl; [done|]. cbn. lia.
Qed.

(** The leaf list is what the index says, in key order. *)
Lemma tree_ok_segs s segs :
  tree_ok s segs → segs = sort_kvs (map_to_list (idx_map (index s))).
Proof.
  intros []. destruct (chain_keys_sorted _ _ _ _ ok_chain0) as [Hs _].
  rewrite ok_index0. apply sort_kvs_unique.
  - apply NoDup_fst_map_to_list.
  - by apply kv_lt_sorted.
  - symmetry. by apply map_to_list_to_map, sorted_lt_NoDup.
Qed.

(** The index lookup finds the leaf responsible for a key. *)
Lemma find_entry_spec s segs key :
  tree_ok s segs → 0 ≤ key < UINT64_MAX →
  ∃ l1 k p l2 e, segs = l1 ++ (k, p) :: l2 ∧ find_entry key s = Ret p ∧
    p ≠ 0 ∧ load p s = Ret e ∧ nvm s !! p = Some e ∧ entry_wf e ∧
    next e = hd_ptr l2 0 ∧
    (∀ x v, contents e !! x = Some v → k ≤ x < hd_key l2 UINT64_MAX) ∧
    key < hd_key l2 UINT64_MAX ∧ (k ≤ key ∨ l1 = []) ∧
    (hd_key segs 0 ≤ key → k ≤ key).
Proof.
  intros [] Hkey.
  assert (∃ l1 k p l2, segs = l1 ++ (k, p) :: l2 ∧ find_entry key s = Ret p ∧
    key < hd_key l2 UINT64_MAX ∧ (k ≤ key ∨ l1 = []) ∧
    (hd_key segs 0 ≤ key → k ≤ key)) as (l1 & k & p & l2 & E & Hf & Hlt & Hor & Hge).
  { unfold find_entry. destruct (decide (hd_key segs UINT64_MAX ≤ key)) as [Hle|Hnle].
    - destruct (chain_route _ _ _ _ key ok_chain0) as (l1 & k & p & l2 & -> & Hk); [lia|].
      exists l1, k, p, l2.
      destruct (route_sorted _ _ _ _ _ _ _ key ok_chain0) as (Hs & Hl2 & _); [lia|].
      rewrite (lookup_floor_sorted _ key _ _ _ _ ok_index0 Hs) by (done || lia).
      split_and!; [done..|lia|left; lia|lia].
    - destruct segs as [|[k p] l2]; [done|]. cbn in Hnle.
      exists [], k, p, l2. destruct (chain_keys_sorted _ _ _ _ ok_chain0) as [Hs _].
      rewrite (lookup_below_sorted _ key _ _ _ ok_index0 Hs) by lia.
      destruct ok_chain0 as [(_ & ? & _) _].
      split_and!; [done..|lia|by right|cbn; lia]. }
  pose proof ok_chain0 as Hc. rewrite E in Hc.
  apply chain_app in Hc as [_ [(Hp & Hk & e & He & Hnx & Hwf & Hb & _) _]].
  exists l1, k, p, l2, e. split_and!; try done.
  unfold load. rewrite bool_decide_eq_false_2 by done. by rewrite He.
Qed.

(** ** One leaf replaced *)
Lemma store_ok s l1 k p l2 e e' :
  tree_ok s (l1 ++ (k, p) :: l2) → nvm s !! p = Some e →
  same_meta e e' → entry_wf e' →
  (∀ x v, contents e' !! x = Some v → k ≤ x < hd_key l2 UINT64_MAX) →
  tree_ok (store p e' s) (l1 ++ (k, p) :: l2).
Proof.
  intros [] He (Hn & Hmk & _) Hwf Hb. split; try done. cbn.
  pose proof ok_chain0 as [_ [(_ & _ & e0 & He0 & Hn0 & _ & _ & Hmk0) _]]%chain_app.
  simplify_eq. apply chain_store; try done; [congruence|by rewrite Hmk].
Qed.

Lemma load_at p s e : p ≠ 0 → nvm s !! p = Some e → load p s = Ret e.
Proof. intros ? He. unfold load. rewrite bool_decide_eq_false_2 by done. by rewrite He. Qed.

Lemma modify_at p f s e e' :
  p ≠ 0 → nvm s !! p = Some e → f e = Ret e' → modify p f s = Ret (store p e' s).
Proof. intros ? He Hf. unfold modify. rewrite (load_at _ _ e) by done. cbn. by rewrite Hf. Qed.

Lemma run_entry_at p f s e st e' :
  p ≠ 0 → nvm s !! p = Some e → f e = Ret (st, e') →
  run_entry p f s = Ret (st, store p e' s).
Proof. intros ? He Hf. unfold run_entry. rewrite (load_at _ _ e) by done. cbn. by rewrite Hf. Qed.

Lemma find_entry_at s l1 k p l2 key :
  tree_ok s (l1 ++ (k, p) :: l2) → k ≤ key < hd_key l2 UINT64_MAX →
  find_entry key s = Ret p.
Proof.
  intros [] Hk.
  destruct (route_sorted _ _ _ _ _ _ _ key ok_chain0) as (Hs & Hl2 & ?); [lia|].
  unfold find_entry.
  by rewrite (lookup_floor_sorted _ key _ _ _ _ ok_index0 Hs) by (done || lia).
Qed.

Lemma tree_ok_segment s l1 k p l2 :
  tree_ok s (l1 ++ (k, p) :: l2) → leaf (nvm s) k p (hd_key l2 UINT64_MAX) (hd_ptr l2 0).
Proof. intros []. by apply chain_app in ok_chain0 as [_ [? _]]. Qed.

(** Storing a leaf whose contents changed at one key changes the tree at
    that key. *)
Lemma tree_map_insert_at s l1 k p l2 e e' key val :
  tree_ok s (l1 ++ (k, p) :: l2) → nvm s !! p = Some e →
  key < hd_key l2 UINT64_MAX → k ≤ key ∨ l1 = [] →
  contents e' = <[key := val]> (contents e) →
  tree_map (nvm (store p e' s)) (l1 ++ (k, p) :: l2)
    = <[key := val]> (tree_map (nvm s) (l1 ++ (k, p) :: l2)).
Proof.
  intros [] He Hlt Hor Hc'. cbn. rewrite tree_map_store by done.
  destruct (tree_map_segment _ _ _ _ _ _ _ _ _ ok_chain0 He Hlt Hor) as (H1 & _ & _).
  rewrite Hc', tree_map_app. cbn. unfold leaf_map. rewrite He.
  by rewrite insert_union_r, insert_union_l by done.
Qed.

Lemma tree_map_delete_at s l1 k p l2 e e' key :
  tree_ok s (l1 ++ (k, p) :: l2) → nvm s !! p = Some e →
  key < hd_key l2 UINT64_MAX → k ≤ key ∨ l1 = [] →
  contents e' = delete key (contents e) →
  tree_map (nvm (store p e' s)) (l1 ++ (k, p) :: l2)
    = delete key (tree_map (nvm s) (l1 ++ (k, p) :: l2)).
Proof.
  intros [] He Hlt Hor Hc'. cbn. rewrite tree_map_store by done.
  destruct (tree_map_segment _ _ _ _ _ _ _ _ _ ok_chain0 He Hlt Hor) as (H1 & H2 & _).
  rewrite Hc', tree_map_app. cbn. unfold leaf_map. rewrite He.
  rewrite !delete_union. by rewrite !(delete_id _ _ H1), !(delete_id _ _ H2).
Qed.

(** ** The split *)
Lemma split_sorted e :
  entry_wf e → length (live (kvs e)) = KVS_PER_ENTRY →
  let t := sort_kvs (kvs e) in
  length t = KVS_PER_ENTRY ∧ live t = t ∧ NoDup t.*1 ∧ t ≡ₚ kvs e ∧
  StronglySorted Z.lt t.*1.
Proof.
  intros [Hl Hnd] Hf t. assert (live (kvs e) = kvs e) as E by (apply live_full; congruence).
  assert (t ≡ₚ kvs e) as Hp by apply sort_kvs_perm.
  rewrite E in Hnd. split_and!.
  - by rewrite Hp.
  - apply live_full. rewrite (live_perm _ _ Hp), E. by rewrite Hp.
  - by rewrite Hp.
  - done.
  - by apply sort_kvs_lt.
Qed.

Definition half : nat := (KVS_PER_ENTRY / 2)%nat.

(** The first pair of the sorted leaf is stored and below the median. *)
Lemma split_first e kv0 :
  entry_wf e → length (live (kvs e)) = KVS_PER_ENTRY →
  sort_kvs (kvs e) !! 0%nat = Some kv0 →
  ∀ m v, sort_kvs (kvs e) !! half = Some (m, v) →
  is_Some (contents e !! kv0.1) ∧ kv0.1 < m.
Proof.
  intros Hwf Hf Hkv0 m v Hm.
  destruct (split_sorted e Hwf Hf) as (_ & Hlv & _ & Hp & Hs). split.
  - exists kv0.2. apply elem_of_list_to_map_1; [apply Hwf|].
    rewrite <- (live_perm _ _ Hp), Hlv, <- surjective_pairing.
    by apply list_elem_of_lookup_2 with 0%nat.
  - eapply (sorted_lt_lookup _ 0 half); [done| | |vm_compute; lia];
      rewrite list_lookup_fmap; [by rewrite Hkv0|by rewrite Hm].
Qed.

(** The two halves of a full leaf. *)
Lemma split_halves e v nx fl nx' mk' rs rs' k :
  entry_wf e → length (live (kvs e)) = KVS_PER_ENTRY →
  let t := sort_kvs (kvs e) in
  t !! half = Some (k, v) →
  let e1 := mkEntry nx mk' fl (take half t ++ replicate half (0, 0)) rs in
  let e2 := mkEntry nx' k 0 (drop half t ++ replicate half (0, 0)) rs' in
  entry_wf e1 ∧ entry_wf e2 ∧
  length (live (kvs e1)) = half ∧ length (live (kvs e2)) = half ∧
  contents e = contents e1 ∪ contents e2 ∧
  (∀ x w, contents e1 !! x = Some w → is_Some (contents e !! x) ∧ x < k) ∧
  (∀ x w, contents e2 !! x = Some w → is_Some (contents e !! x) ∧ k ≤ x) ∧
  (∃ x w, contents e !! x = Some w ∧ x < k) ∧ is_Some (contents e !! k).
Proof.
  intros Hwf Hf t Hm e1 e2.
  destruct (split_sorted e Hwf Hf) as (Hl & Hlv & Hnd & Hp & Hs). fold t in Hl, Hlv, Hnd, Hp, Hs.
  assert (live (take half t) = take half t ∧ live (drop half t) = drop half t) as [L1 L2].
  { assert (length t = length (take half t) + length (drop half t))%nat as Hlen
      by (rewrite <- length_app; by rewrite take_drop).
    assert (length (live (take half t)) + length (live (drop half t)) = length t)%nat
      by (rewrite <- length_app, <- live_app, take_drop; by rewrite Hlv).
    pose proof (live_length (take half t)). pose proof (live_length (drop half t)).
    split; apply live_full; lia. }
  assert (length (take half t) = half ∧ length (drop half t) = half) as [N1 N2].
  { rewrite length_take, length_drop, Hl. by vm_compute. }
  assert (live (kvs e1) = take half t) as E1.
  { change (live (take half t ++ replicate half (0, 0)) = take half t).
    by rewrite live_app, L1, live_zero, app_nil_r. }
  assert (live (kvs e2) = drop half t) as E2.
  { change (live (drop half t ++ replicate half (0, 0)) = drop half t).
    by rewrite live_app, L2, live_zero, app_nil_r. }
  pose proof Hnd as Hnd'. rewrite <- (take_drop half t), fmap_app in Hnd'.
  apply NoDup_app in Hnd' as (Nd1 & _ & Nd2).
  rewrite <- (take_drop half t), fmap_app in Hs.
  apply sorted_lt_app_inv in Hs as (_ & Hs2 & Hlt).
  assert (contents e = list_to_map t) as Ec.
  { unfold contents. apply list_to_map_proper; [apply Hwf|].
    by rewrite <- Hlv, Hp. }
  assert (k ∈ (drop half t).*1) as Hk.
  { apply elem_of_fst with v, list_elem_of_lookup_2 with 0%nat.
    by rewrite lookup_drop, Nat.add_0_r. }
  assert (contents e = contents e1 ∪ contents e2) as Eu.
  { unfold contents at 2 3, slot_map. by rewrite E1, E2, Ec, <- list_to_map_app, take_drop. }
  split_and!.
  - split; [unfold e1, kvs; by rewrite length_app, N1, length_replicate|by rewrite E1].
  - split; [unfold e2, kvs; by rewrite length_app, N2, length_replicate|by rewrite E2].
  - by rewrite E1.
  - by rewrite E2.
  - done.
  - intros x w Hx. split; [rewrite Eu; apply lookup_union_is_Some; eauto|].
    apply elem_of_list_to_map_2 in Hx. rewrite E1 in Hx.
    apply Hlt; [by apply elem_of_fst with w|done].
  - intros x w Hx. split; [rewrite Eu; apply lookup_union_is_Some; eauto|].
    apply elem_of_list_to_map_2 in Hx. rewrite E2 in Hx.
    rewrite (drop_S _ (k, v)) in Hs2, Hx by done. cbn in Hs2.
    apply StronglySorted_inv in Hs2 as [_ Hall].
    apply elem_of_cons in Hx as [?|Hx]; [simplify_eq; lia|].
    rewrite list.Forall_forall in Hall. specialize (Hall x (elem_of_fst _ _ _ Hx)). lia.
  - destruct (take half t) as [|[x w] r] eqn:Et; [done|].
    exists x, w. split; [|apply Hlt; [left|done]].
    rewrite Ec. apply elem_of_list_to_map_1; [done|].
    rewrite <- (take_drop half t), Et. set_solver.
  - rewrite Ec. exists v. apply elem_of_list_to_map_1; [done|].
    by apply list_elem_of_lookup_2 with half.
Qed.

Lemma alloc_entry_at s :
  Alloc.wf 256 (data_alloc s) → Alloc.mapped_len_ (data_alloc s) < 2 ^ 64 → has_room s →
  ∃ s', alloc_entry s = Ret (Alloc.current_addr (data_alloc s), s') ∧
    nvm s' = nvm s ∧ entry_head s' = entry_head s ∧ index s' = index s ∧
    Alloc.wf 256 (data_alloc s') ∧
    Alloc.current_addr (data_alloc s')
      = Alloc.current_addr (data_alloc s) + sizeof_Entry ∧
    Alloc.pmem_addr_ (data_alloc s') = Alloc.pmem_addr_ (data_alloc s) ∧
    Alloc.mapped_len_ (data_alloc s') = Alloc.mapped_len_ (data_alloc s).
Proof.
  intros Hwf0 Hml Hroom. unfold has_room, room, sizeof_Entry in *.
  destruct (Alloc.alloc_aligned_wf 256 256 (data_alloc s)) as
    (a' & E & Hwf & Hc & Hu & Hp & Hm); [done|lia|done| |].
  { destruct Hwf0. lia. }
  unfold alloc_entry, sizeof_Entry. rewrite E, bool_decide_eq_true_2 by (rewrite Hp, Hm; lia).
  eexists; split; [done|]. done.
Qed.

Definition split_left (t : list (Z * Z)) (p' mk : Z) (e : Entry) : Entry :=
  mkEntry p' mk 0 (take half t ++ replicate half (0, 0)) (reserve e).
Definition split_right (t : list (Z * Z)) (m : Z) (e : Entry) : Entry :=
  mkEntry (next e) m 0 (drop half t ++ replicate half (0, 0)) (replicate 8 0).

(** What one run of [splitEntry] leaves in memory. *)
Lemma splitEntry_run s p p' s0 e t kv0 m v :
  p ≠ 0 → p' ≠ 0 → p ≠ p' → nvm s !! p = Some e →
  alloc_entry s = Ret (p', s0) → nvm s0 = nvm s →
  t = sort_kvs (kvs e) → length t = KVS_PER_ENTRY →
  t !! 0%nat = Some kv0 → t !! half = Some (m, v) →
  splitEntry p s = Ret (mkTree
    (<[p := split_left t p' kv0.1 e]> (<[p' := split_right t m e]> (nvm s)))
    (data_alloc s0) (entry_head s0) (idx_insert m p' (index s0))).
Proof.
  intros Hp Hp' Hne He Ha Hs0 -> Hlen H0t Hm. unfold splitEntry.
  rewrite (load_at p s e), res_bind_ret by done.
  rewrite Ha, res_bind_ret. change (KVS_PER_ENTRY / 2)%nat with half.
  change ((KVS_PER_ENTRY + 1) / 2)%nat with half.
  rewrite Hm. cbn [of_option]. rewrite res_bind_ret.
  rewrite Entry_new_kvs_spec, res_bind_ret;
    [|by vm_compute; lia|rewrite length_drop, Hlen; by vm_compute; lia].
  rewrite (take_ge (drop half _) half) by (rewrite length_drop, Hlen; vm_compute; lia).
  change (KVS_PER_ENTRY - half)%nat with half.
  repeat first
    [ erewrite modify_at;
        [|done|cbn; rewrite ?Hs0; simplify_map_eq; reflexivity
         |first [reflexivity|by apply (setOrderedKVs_spec kv0); [done|vm_compute; lia|rewrite Hlen; vm_compute; lia]]];
      rewrite res_bind_ret
    | erewrite load_at;
        [|done|cbn; rewrite ?Hs0; simplify_map_eq; reflexivity];
      rewrite res_bind_ret ].
  erewrite modify_at;
    [|done|cbn; rewrite ?Hs0; simplify_map_eq; reflexivity|reflexivity].
  f_equal. unfold store, with_nvm, with_index; cbn -[half take drop]. f_equal.
  apply map_eq. intros q. rewrite Hs0.
  destruct (decide (q = p)) as [->|]; [by simplify_map_eq|].
  destruct (decide (q = p')) as [->|]; by simplify_map_eq.
Qed.


Lemma in_chain_fresh s segs q :
  tree_ok s segs → q ∈ segs.*2 → q ≠ Alloc.current_addr (data_alloc s).
Proof.
  intros [] Hq. rewrite list.Forall_forall in ok_fresh0. specialize (ok_fresh0 q Hq). lia.
Qed.

(** The invariant after a split, stated on the new memory. *)
Lemma split_tree_ok s s0 l1 k p l2 e e1 e2 m p' :
  tree_ok s (l1 ++ (k, p) :: l2) → nvm s !! p = Some e →
  p' = Alloc.current_addr (data_alloc s) →
  Alloc.wf 256 (data_alloc s0) →
  Alloc.current_addr (data_alloc s0) = Alloc.current_addr (data_alloc s) + sizeof_Entry →
  Alloc.mapped_len_ (data_alloc s0) = Alloc.mapped_len_ (data_alloc s) →
  entry_head s0 = entry_head s → index s0 = index s →
  next e1 = p' → next e2 = next e → entry_wf e1 → entry_wf e2 →
  k < m < hd_key l2 UINT64_MAX →
  (∀ x w, contents e1 !! x = Some w → k ≤ x < m) →
  (∀ x w, contents e2 !! x = Some w → m ≤ x < hd_key l2 UINT64_MAX) →
  k ≤ min_key e1 < m → min_key e2 = m →
  contents e = contents e1 ∪ contents e2 →
  let s' := mkTree (<[p := e1]> (<[p' := e2]> (nvm s))) (data_alloc s0)
              (entry_head s0) (idx_insert m p' (index s0)) in
  tree_ok s' (l1 ++ (k, p) :: (m, p') :: l2) ∧
  tree_map (nvm s') (l1 ++ (k, p) :: (m, p') :: l2)
    = tree_map (nvm s) (l1 ++ (k, p) :: l2).
Proof.
  intros Hok He Hp' Hwf0 Hc0 Hm0 Hh0 Hi0 Hn1 Hn2 W1 W2 Hm B1 B2 M1 M2 Hc s'.
  assert (p' ∉ (l1 ++ (k, p) :: l2).*2) as Hfresh.
  { intros Hin. by apply (in_chain_fresh _ _ _ Hok) in Hin. }
  pose proof Hok as []. pose proof ok_nodup0 as Hnd.
  rewrite fmap_app in Hnd, Hfresh. cbn in Hnd, Hfresh.
  apply NoDup_app in Hnd as (Nd1 & Nd12 & [Np Nd2]%NoDup_cons).
  apply not_elem_of_app in Hfresh as [Hf1 [Hfp Hf2]%not_elem_of_cons].
  assert (p ∉ l1.*2) as Hp1 by (intros Hin; apply (Nd12 _ Hin); left).
  pose proof ok_chain0 as [C1 [L C2]]%chain_app.
  assert (0 < p') as Hpos by (destruct ok_alloc0; lia).
  assert (NoDup (l1 ++ (k, p) :: (m, p') :: l2).*2) as Hnd'.
  { rewrite fmap_app. cbn. apply NoDup_app. split_and!; [done| |].
    - intros q Hq [->|[->|Hq2]%elem_of_cons]%elem_of_cons; [done|done|].
      apply (Nd12 q); [done|by right].
    - apply NoDup_cons; split; [|by apply NoDup_cons].
      intros [->|?]%elem_of_cons; done. }
  split; [split|]; try done; cbn [nvm index data_alloc entry_head s'].
  - by destruct l1.
  - apply chain_app. cbn. split; [by do 2 (apply chain_frame; [done|])|].
    split; [|split].
    + destruct L as (? & ? & e' & He' & _). split; [done|]. split; [lia|].
      exists e1. by simplify_map_eq.
    + destruct L as (? & ? & e' & He' & Hn' & _). split; [lia|]. split; [lia|].
      exists e2. simplify_map_eq. split; [done|]. split_and!; [congruence|done..|lia|lia].
    + by do 2 (apply chain_frame; [done|]).
  - assert (idx_map (index s) !! m = None) as Hnone.
    { rewrite ok_index0. apply not_elem_of_list_to_map.
      destruct (chain_keys_sorted _ _ _ _ ok_chain0) as [Hs _].
      rewrite fmap_app in *; cbn in *. apply sorted_lt_app_inv in Hs as (_ & Hs2 & Hlt).
      apply StronglySorted_inv in Hs2 as [_ _].
      destruct (chain_keys_sorted _ _ _ _ C2) as [_ Hb]. rewrite list.Forall_forall in Hb.
      intros [Hin|[->|Hin]%elem_of_cons]%elem_of_app; [|lia|specialize (Hb _ Hin); lia].
      specialize (Hlt m k Hin ltac:(left)). lia. }
    rewrite Hi0, idx_map_insert by (done || (pose proof (chain_bounds _ _ _ _ C2); destruct L as (_ & ? & _); lia)).
    rewrite ok_index0. apply map_eq. intros x. rewrite !list_to_map_app. cbn.
    rewrite ok_index0, list_to_map_app in Hnone. cbn in Hnone.
    apply lookup_union_None in Hnone as [Hn11 Hn12].
    destruct (decide (x = m)) as [->|].
    { rewrite lookup_insert_eq, lookup_union_r by done.
      rewrite lookup_insert_ne by lia. by rewrite lookup_insert_eq. }
    rewrite lookup_insert_ne by done. rewrite !lookup_union. f_equal.
    destruct (decide (x = k)) as [->|]; [by rewrite !lookup_insert_eq|].
    by rewrite !lookup_insert_ne by done.
  - rewrite Hh0, <- ok_head0. by destruct l1.
  - rewrite Hc0. unfold sizeof_Entry. rewrite fmap_app in *. cbn in *.
    apply Forall_app in ok_fresh0 as [F1 [Fp F2]%Forall_cons].
    apply Forall_app. split; [eapply Forall_impl; [done|]; cbn; lia|].
    do 2 (constructor; [lia|]). eapply Forall_impl; [done|]; cbn; lia.
  - lia.
  - rewrite !tree_map_app. cbn. unfold leaf_map. rewrite He.
    rewrite lookup_insert_eq, lookup_insert_ne, lookup_insert_eq by done.
    rewrite !tree_map_frame by done. rewrite Hc. by rewrite <- (assoc_L (∪) (contents e1)).
Qed.

Lemma splitEntry_spec s l1 k p l2 e :
  tree_ok s (l1 ++ (k, p) :: l2) → nvm s !! p = Some e →
  length (live (kvs e)) = KVS_PER_ENTRY → has_room s →
  ∃ s' m p' e1 e2,
    splitEntry p s = Ret s' ∧
    tree_ok s' (l1 ++ (k, p) :: (m, p') :: l2) ∧
    tree_map (nvm s') (l1 ++ (k, p) :: (m, p') :: l2)
      = tree_map (nvm s) (l1 ++ (k, p) :: l2) ∧
    nvm s' = <[p := e1]> (<[p' := e2]> (nvm s)) ∧ p ≠ p' ∧
    length (live (kvs e1)) = half ∧ length (live (kvs e2)) = half ∧
    contents e = contents e1 ∪ contents e2 ∧ flag e1 = 0 ∧ flag e2 = 0 ∧
    k < m < hd_key l2 UINT64_MAX ∧ min_key e2 = m ∧
    (∀ n, room (S n) s → room n s').
Proof.
  intros Hok He Hfull Hroom.
  pose proof (tree_ok_segment _ _ _ _ _ Hok) as (Hp0 & Hk & e' & He' & Hnx & Hwf & Hb & _).
  simplify_eq.
  destruct (alloc_entry_at s (ok_alloc _ _ Hok) (ok_mapped _ _ Hok) Hroom) as (s0 & Ha & Hn0 & Hh0 & Hi0 & Hw0 & Hc0 & Hpm0 & Hm0).
  set (p' := Alloc.current_addr (data_alloc s)) in *.
  destruct (split_sorted e Hwf Hfull) as (Hlen & _).
  set (t := sort_kvs (kvs e)) in *.
  destruct (lookup_lt_is_Some_2 t 0) as [kv0 Ht0]; [rewrite Hlen; by vm_compute; lia|].
  destruct (lookup_lt_is_Some_2 t half) as [[m v] Htm]; [rewrite Hlen; vm_compute; lia|].
  assert (p' ≠ 0) as Hp'0 by (pose proof (ok_alloc _ _ Hok) as []; lia).
  assert (p ≠ p') as Hpp'.
  { apply (in_chain_fresh _ _ _ Hok). rewrite fmap_app. set_solver. }
  pose proof (splitEntry_run s p p' s0 e t kv0 m v) as Hrun.
  pose proof (split_halves e v p' 0 (next e) kv0.1 (reserve e) (replicate 8 0) m
    Hwf Hfull Htm) as (W1 & W2 & N1 & N2 & Hc & B1 & B2 & (x0 & w0 & Hx0 & Hlt0) & [wm Hwm]).
  assert (k < m < hd_key l2 UINT64_MAX) as Hkm.
  { apply Hb in Hx0. apply Hb in Hwm. lia. }
  destruct (split_tree_ok s s0 l1 k p l2 e (split_left t p' kv0.1 e) (split_right t m e) m p')
    as [Hok' Hmap]; try done.
  { intros x w Hx. destruct (B1 x w Hx) as [[w' Hw'] ?]. apply Hb in Hw'. lia. }
  { intros x w Hx. destruct (B2 x w Hx) as [[w' Hw'] ?]. apply Hb in Hw'. lia. }
  { destruct (split_first e kv0 Hwf Hfull Ht0 m v Htm) as [[w1 Hw1] ?].
    apply Hb in Hw1. cbn. lia. }
  eexists _, m, p', _, _. split; [apply Hrun; done|].
  split_and!; try (done || lia).
  intros n. unfold room, sizeof_Entry; cbn. rewrite Hc0, Hpm0, Hm0. unfold sizeof_Entry. lia.
Qed.

(** ** Insertion *)
Lemma find_entry_nonzero s l1 k p l2 key :
  tree_ok s (l1 ++ (k, p) :: l2) → k ≤ key < hd_key l2 UINT64_MAX →
  (let* entry := find_entry key s in
   if bool_decide (entry = 0) then find_entry (u64 (key - 1)) s else Ret entry) = Ret p.
Proof.
  intros Hok Hk. rewrite (find_entry_at _ _ _ _ _ _ Hok Hk), res_bind_ret.
  pose proof (tree_ok_segment _ _ _ _ _ Hok) as [? _]. by rewrite bool_decide_eq_false_2.
Qed.

Lemma Insert_unfold fuel key val s l1 k p l2 :
  tree_ok s (l1 ++ (k, p) :: l2) → k ≤ key < hd_key l2 UINT64_MAX →
  Insert fuel key val s =
  let* '(ret, s1) := run_entry p (MaybePut key val) s in
  if bool_decide (ret = STATUS_OVERFLOW) then
    match fuel with
    | O => Diverge
    | S fuel => let* s2 := splitEntry p s1 in Insert fuel key val s2
    end
  else Ret (ret, s1).
Proof.
  intros Hok Hk. pose proof (find_entry_nonzero _ _ _ _ _ _ Hok Hk) as E.
  destruct fuel; cbn [Insert];
    (destruct (find_entry key s) as [q| |]; cbn in E |- *; [|done..]; rewrite E; done).
Qed.

(** Insertion into a leaf with a free slot. *)
Lemma Insert_at fuel key val s l1 k p l2 e :
  tree_ok s (l1 ++ (k, p) :: l2) → k ≤ key < hd_key l2 UINT64_MAX →
  nvm s !! p = Some e → key ≠ 0 → contents e !! key = None →
  (length (live (kvs e)) < KVS_PER_ENTRY)%nat →
  ∃ s', Insert fuel key val s = Ret (STATUS_OK, s') ∧
    tree_ok s' (l1 ++ (k, p) :: l2) ∧
    tree_map (nvm s') (l1 ++ (k, p) :: l2)
      = <[key := val]> (tree_map (nvm s) (l1 ++ (k, p) :: l2)) ∧
    data_alloc s' = data_alloc s.
Proof.
  intros Hok Hk He Hk0 Hnone Hroom.
  pose proof (tree_ok_segment _ _ _ _ _ Hok) as (Hp & _ & e0 & ? & _ & Hwf & Hb & _). simplify_eq.
  destruct (MaybePut_spec key val e Hwf Hk0 Hnone) as [[? _]|(_ & e' & Hput & Hwf' & Hc' & Hn')];
    [lia|].
  exists (store p e' s).
  rewrite (Insert_unfold _ _ _ _ _ _ _ _ Hok Hk).
  rewrite (run_entry_at _ _ _ _ _ _ Hp He Hput), res_bind_ret. cbn -[store].
  split_and!; [done| |by eapply tree_map_insert_at; try done; [lia|left; lia]|done].
  eapply store_ok; try done. intros x v. rewrite Hc'.
  destruct (decide (x = key)) as [->|]; [lia|]. rewrite lookup_insert_ne by done. by apply Hb.
Qed.

Lemma Insert_spec fuel key val s segs :
  tree_ok s segs → 0 < key < UINT64_MAX → hd_key segs 0 ≤ key →
  tree_map (nvm s) segs !! key = None → has_room s → (1 ≤ fuel)%nat →
  ∃ s' segs', Insert fuel key val s = Ret (STATUS_OK, s') ∧ tree_ok s' segs' ∧
    tree_map (nvm s') segs' = <[key := val]> (tree_map (nvm s) segs) ∧
    hd_key segs' 0 = hd_key segs 0 ∧ (∀ n, room (S n) s → room n s').
Proof.
  intros Hok Hkey Hhd Hnone Hroom Hfuel.
  destruct (find_entry_spec s segs key Hok) as
    (l1 & k & p & l2 & e & -> & _ & Hp & _ & He & Hwf & _ & _ & Hlt & Hor & Hge); [lia|].
  specialize (Hge Hhd). assert (k ≤ key < hd_key l2 UINT64_MAX) as Hk by lia.
  destruct (tree_map_segment _ _ _ _ _ _ _ _ _ (ok_chain _ _ Hok) He Hlt Hor)
    as (_ & _ & Hseg). rewrite Hseg in Hnone.
  destruct (decide (length (live (kvs e)) = KVS_PER_ENTRY)) as [Hfull|Hnf].
  - destruct (splitEntry_spec _ _ _ _ _ _ Hok He Hfull Hroom) as
      (s1 & m & p' & e1 & e2 & Hs1 & Hok1 & Hm1 & Hn1 & Hpp & L1 & L2 & Hc & _ & _ & Hkm & _ & Hrm).
    destruct fuel as [|fuel]; [lia|].
    rewrite (Insert_unfold _ _ _ _ _ _ _ _ Hok Hk).
    assert (MaybePut key val e = Ret (STATUS_OVERFLOW, e)) as Hput.
    { destruct (MaybePut_spec key val e Hwf ltac:(lia) Hnone) as [[??]|[??]]; [done|lia]. }
    rewrite (run_entry_at _ _ _ _ _ _ Hp He Hput), res_bind_ret.
    rewrite (store_id _ _ _ He).
    rewrite bool_decide_eq_true_2, Hs1, res_bind_ret by done.
    assert (contents e1 !! key = None ∧ contents e2 !! key = None) as [E1 E2].
    { rewrite Hc in Hnone. by apply lookup_union_None in Hnone. }
    destruct (decide (key < m)).
    + destruct (Insert_at fuel key val s1 l1 k p ((m, p') :: l2) e1) as
        (s2 & ? & ? & ? & Hda); [done|cbn; lia|by rewrite Hn1; simplify_map_eq|lia|done|
        by rewrite L1; vm_compute; lia|].
      exists s2, (l1 ++ (k, p) :: (m, p') :: l2). rewrite <- Hm1.
      split_and!; [done..|by destruct l1|unfold room; rewrite Hda; apply Hrm].
    + rewrite cons_middle, app_assoc in Hok1, Hm1.
      destruct (Insert_at fuel key val s1 (l1 ++ [(k, p)]) m p' l2 e2) as
        (s2 & ? & ? & ? & Hda); [done|cbn; lia|by rewrite Hn1; simplify_map_eq|lia|done|
        by rewrite L2; vm_compute; lia|].
      exists s2, ((l1 ++ [(k, p)]) ++ (m, p') :: l2). rewrite <- Hm1.
      split_and!; [done..|by destruct l1|unfold room; rewrite Hda; apply Hrm].
  - pose proof (live_length (kvs e)). destruct Hwf as [Hl _].
    destruct (Insert_at fuel key val s l1 k p l2 e) as (s2 & ? & ? & ? & Hda);
      [done|lia|done|lia|done|lia|].
    exists s2, (l1 ++ (k, p) :: l2). split_and!; try done.
    intros n Hn. unfold room in *. rewrite Hda. unfold sizeof_Entry in *. lia.
Qed.

(** ** Update, removal and lookup *)
Lemma Update_spec' key val s segs :
  tree_ok s segs → 0 < key < UINT64_MAX →
  ∃ st s', Update key val s = Ret (st, s') ∧ tree_ok s' segs ∧
    data_alloc s' = data_alloc s ∧
    match tree_map (nvm s) segs !! key with
    | Some _ => st = STATUS_OK ∧
                tree_map (nvm s') segs = <[key := val]> (tree_map (nvm s) segs)
    | None => st = STATUS_FAIL ∧ s' = s
    end.
Proof.
  intros Hok Hkey.
  destruct (find_entry_spec s segs key Hok) as
    (l1 & k & p & l2 & e & -> & Hf & Hp & _ & He & Hwf & Hnx & Hb & Hlt & Hor & _); [lia|].
  destruct (tree_map_segment _ _ _ _ _ _ _ _ _ (ok_chain _ _ Hok) He Hlt Hor)
    as (_ & _ & ->).
  unfold Update. rewrite Hf, res_bind_ret.
  pose proof (Entry.Update_spec key val e Hwf ltac:(lia)) as HU.
  destruct (contents e !! key) as [v0|] eqn:Hv.
  - destruct HU as (e' & Hrun & Hwf' & Hc' & Hn').
    rewrite (run_entry_at _ _ _ _ _ _ Hp He Hrun). eexists _, _. split; [done|].
    split; [|split; [done|split; [done|by eapply tree_map_insert_at]]].
    eapply store_ok; try done. intros x v. rewrite Hc'.
    destruct (decide (x = key)) as [->|]; [intros _; by apply (Hb key v0)|].
    rewrite lookup_insert_ne by done. by apply Hb.
  - rewrite (run_entry_at _ _ _ _ _ _ Hp He HU).
    rewrite (store_id _ _ _ He).
    by eexists _, _.
Qed.

Lemma Remove_spec' key s segs :
  tree_ok s segs → 0 < key < UINT64_MAX →
  ∃ st s', Remove key s = Ret (st, s') ∧ tree_ok s' segs ∧
    data_alloc s' = data_alloc s ∧
    match tree_map (nvm s) segs !! key with
    | Some _ => st = STATUS_OK ∧
                tree_map (nvm s') segs = delete key (tree_map (nvm s) segs)
    | None => st = STATUS_FAIL ∧ s' = s
    end.
Proof.
  intros Hok Hkey.
  destruct (find_entry_spec s segs key Hok) as
    (l1 & k & p & l2 & e & -> & Hf & Hp & _ & He & Hwf & Hnx & Hb & Hlt & Hor & _); [lia|].
  destruct (tree_map_segment _ _ _ _ _ _ _ _ _ (ok_chain _ _ Hok) He Hlt Hor)
    as (_ & _ & ->).
  unfold Remove. rewrite Hf, res_bind_ret.
  pose proof (Entry.Remove_spec key e Hwf ltac:(lia)) as HR.
  destruct (contents e !! key) as [v0|] eqn:Hv.
  - destruct HR as (e' & Hrun & Hwf' & Hc' & Hn').
    rewrite (run_entry_at _ _ _ _ _ _ Hp He Hrun). eexists _, _. split; [done|].
    split; [|split; [done|split; [done|by eapply tree_map_delete_at]]].
    eapply store_ok; try done. intros x v. rewrite Hc'.
    intros [_ ?]%lookup_delete_Some. by apply (Hb x v).
  - rewrite (run_entry_at _ _ _ _ _ _ Hp He HR).
    rewrite (store_id _ _ _ He).
    by eexists _, _.
Qed.

Lemma Get_spec' key val0 s segs :
  tree_ok s segs → 0 < key < UINT64_MAX →
  Get key val0 s = Ret match tree_map (nvm s) segs !! key with
                       | Some v => (STATUS_OK, v)
                       | None => (STATUS_FAIL, 0)
                       end.
Proof.
  intros Hok Hkey.
  destruct (find_entry_spec s segs key Hok) as
    (l1 & k & p & l2 & e & -> & Hf & Hp & Hld & He & Hwf & _ & _ & Hlt & Hor & _); [lia|].
  destruct (tree_map_segment _ _ _ _ _ _ _ _ _ (ok_chain _ _ Hok) He Hlt Hor)
    as (_ & _ & ->).
  unfold Get. rewrite Hf, res_bind_ret, Hld, res_bind_ret.
  rewrite Entry.Get_spec by lia. by destruct (contents e !! key).
Qed.

(** ** The empty tree *)
Lemma EPLTree_new_spec file a :
  Alloc.wf 256 a → Alloc.mapped_len_ a < 2 ^ 64 →
  Alloc.current_addr a + sizeof_Entry ≤ Alloc.pmem_addr_ a + Alloc.mapped_len_ a →
  ∃ s, EPLTree_new false file a = Ret s ∧
    tree_ok s [(INVALID_KEY, Alloc.current_addr a)] ∧
    tree_map (nvm s) [(INVALID_KEY, Alloc.current_addr a)] = ∅ ∧
    (∀ n, Alloc.current_addr a + Z.of_nat (S n) * sizeof_Entry
            ≤ Alloc.pmem_addr_ a + Alloc.mapped_len_ a → room n s).
Proof.
  intros Hwf Hm Hroom. unfold sizeof_Entry in *.
  destruct (Alloc.alloc_aligned_wf 256 256 a) as
    (a' & E & Hwf' & Hc & Hu & Hp & Hml); [done|lia|done|destruct Hwf; lia|].
  unfold EPLTree_new, DataList_Init, alloc_entry. cbn [data_alloc nvm index entry_head].
  unfold sizeof_Entry. rewrite E, bool_decide_eq_true_2 by (rewrite Hp, Hml; lia).
  cbn -[Entry_new]. eexists; split; [done|].
  destruct (Entry_new_wf INVALID_KEY) as [Hw He].
  split; [split|split]; cbn [nvm index data_alloc entry_head store with_nvm with_index
    hd_ptr fmap list_fmap fst snd].
  - done.
  - split; [|done]. split; [destruct Hwf; lia|]. split; [by vm_compute|].
    eexists. rewrite lookup_insert_eq. split; [done|]. split; [done|].
    split; [done|]. rewrite He. split; [by intros x v ?%lookup_empty_Some|done].
  - rewrite idx_map_insert by (rewrite ?idx_map_new; by vm_compute).
    by rewrite idx_map_new.
  - repeat constructor. set_solver.
  - done.
  - done.
  - constructor; [|constructor]. rewrite Hc. lia.
  - by rewrite Hml.
  - cbn. unfold leaf_map. rewrite lookup_insert_eq. by rewrite He, (left_id_L ∅ (∪)).
  - intros n. unfold room, sizeof_Entry; cbn. rewrite Hc, Hp, Hml. lia.
Qed.
End correctness.
