(* ===== verification/EplTreeSpec.v ===== *)
(** * What the EPL-Tree promises

    The abstract specification is a finite map with four operations; the
    theorems of this file state that the tree implements it, operation by
    operation and for whole runs from an empty tree. *)
From S2P Require Import Prelude NvmAlloc Entry Index EplTree EplTreeInv.

(** ** The specification: a finite map *)
Inductive op : Type :=
| OpInsert (key val : Z)
| OpUpdate (key val : Z)
| OpRemove (key : Z)
| OpGet (key : Z).

(** The status and value an operation returns, and the map after it. *)
Definition spec_op (o : op) (m : gmap Z Z) : (Z * Z) * gmap Z Z :=
  match o with
  | OpInsert k v => ((STATUS_OK, 0), <[k := v]> m)
  | OpUpdate k v => if m !! k is Some _ then ((STATUS_OK, 0), <[k := v]> m) else ((STATUS_FAIL, 0), m)
  | OpRemove k => if m !! k is Some _ then ((STATUS_OK, 0), delete k m) else ((STATUS_FAIL, 0), m)
  | OpGet k => (match m !! k with Some v => (STATUS_OK, v) | None => (STATUS_FAIL, 0) end, m)
  end.

(** Keys are neither [INVALID_KEY] nor the index's sentinel, and only new
    keys are inserted, as the comment on [MaybePut] asks. *)
Definition valid_key (k : Z) : Prop := INVALID_KEY < k < UINT64_MAX.
Definition valid_op (m : gmap Z Z) (o : op) : Prop :=
  match o with
  | OpInsert k _ => valid_key k ∧ m !! k = None
  | OpUpdate k _ | OpRemove k | OpGet k => valid_key k
  end.

Fixpoint spec_ops (os : list op) (m : gmap Z Z) : list (Z * Z) * gmap Z Z :=
  match os with
  | [] => ([], m)
  | o :: os => let '(r, m) := spec_op o m in
               let '(rs, m) := spec_ops os m in (r :: rs, m)
  end.
Fixpoint valid_ops (m : gmap Z Z) (os : list op) : Prop :=
  match os with
  | [] => True
  | o :: os => valid_op m o ∧ valid_ops (spec_op o m).2 os
  end.

Section spec.
Context `{OrderedIndexLaws idx}.
Implicit Types (s : EPLTree idx) (segs : list (Z * Z)).

(** ** The implementation *)
Definition run_op (o : op) s : res ((Z * Z) * EPLTree idx) :=
  match o with
  | OpInsert k v => let* '(st, s) := Insert 1 k v s in Ret ((st, 0), s)
  | OpUpdate k v => let* '(st, s) := Update k v s in Ret ((st, 0), s)
  | OpRemove k => let* '(st, s) := Remove k s in Ret ((st, 0), s)
  | OpGet k => let* r := Get k 0 s in Ret (r, s)
  end.
Fixpoint run_ops (os : list op) s : res (list (Z * Z) * EPLTree idx) :=
  match os with
  | [] => Ret ([], s)
  | o :: os => let* '(r, s) := run_op o s in
               let* '(rs, s) := run_ops os s in Ret (r :: rs, s)
  end.

(** The simulation relation: [s] stands for the map [m], accepts every valid
    key, and has room for [n] more leaves. *)
Definition simulates (n : nat) s (m : gmap Z Z) : Prop :=
  ∃ segs, tree_ok s segs ∧ hd_key segs 0 = 0 ∧ tree_map (nvm s) segs = m ∧ room n s.

Lemma run_op_simulation n o s m :
  simulates (S n) s m → valid_op m o →
  ∃ s', run_op o s = Ret ((spec_op o m).1, s') ∧ simulates n s' (spec_op o m).2.
Proof.
  intros (segs & Hok & Hhd & <- & Hroom) Hv. unfold valid_op, valid_key, INVALID_KEY in Hv.
  destruct o as [k v|k v|k|k]; cbn [run_op spec_op].
  - destruct Hv as [Hk Hn].
    destruct (Insert_spec 1 k v s segs Hok) as (s' & segs' & -> & Hok' & Hm & Hh & Hr);
      [done|lia|done|by eapply room_mono; [|done]; lia|done|].
    exists s'. split; [done|]. exists segs'. split_and!; [done|lia|done|auto].
  - destruct (Update_spec' k v s segs Hok Hv) as (st & s' & -> & Hok' & Hda & Hm).
    assert (room n s') by (unfold room, sizeof_Entry in *; rewrite Hda; lia).
    destruct (tree_map (nvm s) segs !! k); cbn; destruct Hm as [-> Hm].
    + exists s'. split; [done|]. by exists segs.
    + subst s'. exists s. split; [done|]. by exists segs.
  - destruct (Remove_spec' k s segs Hok Hv) as (st & s' & -> & Hok' & Hda & Hm).
    assert (room n s') by (unfold room, sizeof_Entry in *; rewrite Hda; lia).
    destruct (tree_map (nvm s) segs !! k); cbn; destruct Hm as [-> Hm].
    + exists s'. split; [done|]. by exists segs.
    + subst s'. exists s. split; [done|]. by exists segs.
  - rewrite (Get_spec' k 0 s segs) by done. cbn. exists s. split; [done|].
    exists segs. split_and!; try done. unfold room, sizeof_Entry in *. lia.
Qed.

Lemma run_ops_simulation n os s m :
  simulates (length os + n) s m → valid_ops m os →
  ∃ s', run_ops os s = Ret ((spec_ops os m).1, s') ∧ simulates n s' (spec_ops os m).2.
Proof.
  revert s m. induction os as [|o os IH]; intros s m Hs; cbn; [eauto|].
  intros [Hv Hvs]. destruct (run_op_simulation _ _ _ _ Hs Hv) as (s1 & -> & Hs1).
  rewrite res_bind_ret. destruct (spec_op o m) as [r m1]; cbn in *.
  destruct (IH s1 m1 Hs1 Hvs) as (s2 & -> & Hs2). rewrite res_bind_ret.
  destruct (spec_ops os m1) as [rs m2]; cbn in *. by exists s2.
Qed.

(** C2: the EPL-Tree refines a finite map over any index that keeps the laws of
    [Index], which ALEX keeps only on the calls [AlexIndex] describes.  Any run
    of valid operations (keys other than 0 and the maximum, inserts of new keys)
    from a freshly constructed tree whose mapping has room for one leaf per
    operation returns, without fault and with at most one split per insertion,
    exactly the statuses and values of the abstract map. *)
Theorem EPLTree_refines_map file a os :
  Alloc.wf 256 a → Alloc.mapped_len_ a < 2 ^ 64 →
  Alloc.current_addr a + Z.of_nat (S (length os)) * sizeof_Entry
    ≤ Alloc.pmem_addr_ a + Alloc.mapped_len_ a →
  valid_ops ∅ os →
  ∃ s s', EPLTree_new false file a = Ret s ∧
    run_ops os s = Ret ((spec_ops os ∅).1, s') ∧
    simulates 0 s' (spec_ops os ∅).2.
Proof.
  intros Hwf Hml Hroom Hv.
  destruct (EPLTree_new_spec file a) as (s & Hs & Hok & Hm & Hr);
    [done|done|unfold sizeof_Entry in *; lia|].
  destruct (run_ops_simulation 0 os s ∅) as (s' & Hrun & Hs').
  - eexists. rewrite Nat.add_0_r. split_and!; [done|done|done|by apply Hr].
  - done.
  - by exists s, s'.
Qed.

(** C12: [Insert] of a new key that is not below the first routing key
    terminates after at most one split, reports success, and the tree then
    stands for the old map with the pair added. *)
Theorem Insert_correct fuel key val s segs :
  tree_ok s segs → valid_key key → hd_key segs 0 ≤ key →
  tree_map (nvm s) segs !! key = None → has_room s → (1 ≤ fuel)%nat →
  ∃ s' segs', Insert fuel key val s = Ret (STATUS_OK, s') ∧ tree_ok s' segs' ∧
    tree_map (nvm s') segs' = <[key := val]> (tree_map (nvm s) segs).
Proof.
  intros Hok Hk Hhd Hn Hr Hf.
  destruct (Insert_spec fuel key val s segs) as (s' & segs' & ? & ? & ? & _); try done.
  by exists s', segs'.
Qed.

(** [Get] returns the value the map has for the key, or [STATUS_FAIL] and 0;
    [Update] and [Remove] change exactly that key when it is present. *)
Theorem point_operations_correct key val s segs :
  tree_ok s segs → valid_key key →
  (∀ val0, Get key val0 s = Ret match tree_map (nvm s) segs !! key with
                                | Some v => (STATUS_OK, v)
                                | None => (STATUS_FAIL, 0)
                                end) ∧
  (∃ s', Update key val s = Ret (if tree_map (nvm s) segs !! key is Some _ then STATUS_OK else STATUS_FAIL, s') ∧
     tree_ok s' segs ∧
     tree_map (nvm s') segs = if tree_map (nvm s) segs !! key is Some _
                              then <[key := val]> (tree_map (nvm s) segs)
                              else tree_map (nvm s) segs) ∧
  (∃ s', Remove key s = Ret (if tree_map (nvm s) segs !! key is Some _ then STATUS_OK else STATUS_FAIL, s') ∧
     tree_ok s' segs ∧
     tree_map (nvm s') segs = delete key (tree_map (nvm s) segs)).
Proof.
  intros Hok Hk. split_and!.
  - intros. by apply Get_spec'.
  - destruct (Update_spec' key val s segs Hok Hk) as (st & s' & -> & Hok' & _ & Hm).
    exists s'. destruct (tree_map (nvm s) segs !! key); destruct Hm as [-> Hm]; by subst.
  - destruct (Remove_spec' key s segs Hok Hk) as (st & s' & -> & Hok' & _ & Hm).
    exists s'. destruct (tree_map (nvm s) segs !! key) eqn:E; destruct Hm as [-> Hm];
      [done|subst; by rewrite delete_id].
Qed.

Lemma run_entry_unchanged p f s st s' : (∀ e st e', f e = Ret (st, e') → st = STATUS_OK ∨ e' = e) →
  run_entry p f s = Ret (st, s') → st = STATUS_OK ∨ s' = s.
Proof.
  intros Hf. unfold run_entry, load. case_bool_decide; [done|]. destruct (nvm s !! p) as [e|] eqn:He; [|done]. cbn.
  destruct (f e) as [[st1 e1]| |] eqn:E; [|done..]. cbn. intros [= <- <-]. destruct (Hf _ _ _ E) as [->| ->]; [by left|right].
  unfold store. rewrite insert_id by done. by destruct s.
Qed.

(** C13: An operation that fails changes nothing. Whatever the state of the
    tree, an [Update] or a [Remove] that does not report [STATUS_OK], and a
    [MaybePut] that reports [STATUS_OVERFLOW], leave the leaves, the index and the
    allocator as they were; and on a well-formed tree the lookup, the
    update and the removal of a key that is not stored report [STATUS_FAIL],
    the lookup with the value 0. *)
Theorem failures_change_nothing s :
  (∀ key val st s', Update key val s = Ret (st, s') → st = STATUS_OK ∨ s' = s) ∧
  (∀ key st s', Remove key s = Ret (st, s') → st = STATUS_OK ∨ s' = s) ∧
  (∀ p key val st s', run_entry p (Entry.MaybePut key val) s = Ret (st, s') → st = STATUS_OK ∨ s' = s) ∧
  (∀ segs key val, tree_ok s segs → valid_key key → tree_map (nvm s) segs !! key = None →
     Get key val s = Ret (STATUS_FAIL, 0) ∧ Update key val s = Ret (STATUS_FAIL, s) ∧ Remove key s = Ret (STATUS_FAIL, s)).
Proof.
  split_and!.
  - intros key val st s'. unfold Update. destruct (find_entry key s); [|done..]. cbn. apply run_entry_unchanged.
    intros e ? ?. unfold Entry.Update. destruct (find_slot key e) as [[i x]|]; [|by intros [= <- <-]; right]. destruct (setVal i val e); [|done..]. cbn. intros [= <- _]. by left.
  - intros key st s'. unfold Remove. destruct (find_entry key s); [|done..]. cbn. apply run_entry_unchanged.
    intros e ? ?. unfold Entry.Remove. destruct (find_slot key e) as [[i x]|]; [|by intros [= <- <-]; right]. destruct (setKey i INVALID_KEY e); [|done..]. cbn. intros [= <- _]. by left.
  - intros p key val st s'. apply run_entry_unchanged. intros e ? ?. unfold Entry.MaybePut. destruct (find_slot INVALID_KEY e) as [[i x]|]; [|by intros [= <- <-]; right].
    destruct (setVal i val e) as [e1| |]; [|done..]. cbn. destruct (setKey i key e1); [|done..]. cbn. intros [= <- _]. by left.
  - intros segs key val Hok Hk Hno. destruct (Update_spec' key val s segs Hok Hk) as (st & s' & -> & _ & _ & Hu). destruct (Remove_spec' key s segs Hok Hk) as (st2 & s2 & -> & _ & _ & Hr).
    rewrite (Get_spec' key val s segs Hok Hk). rewrite Hno in Hu, Hr |- *. by destruct Hu as [-> ->], Hr as [-> ->].
Qed.

(** C6: splitting a full leaf moves the upper half of its keys, in order,
    to a new leaf linked behind it and indexed under its smallest key: the
    map is unchanged, both leaves are half full, their [flag] is clear, and
    the new leaf's [min_key] is its routing key. *)
Theorem splitEntry_correct s l1 k p l2 e :
  tree_ok s (l1 ++ (k, p) :: l2) → nvm s !! p = Some e →
  length (live (kvs e)) = KVS_PER_ENTRY → has_room s →
  ∃ s' m p' e1 e2,
    splitEntry p s = Ret s' ∧
    tree_ok s' (l1 ++ (k, p) :: (m, p') :: l2) ∧
    tree_map (nvm s') (l1 ++ (k, p) :: (m, p') :: l2)
      = tree_map (nvm s) (l1 ++ (k, p) :: l2) ∧
    nvm s' = <[p := e1]> (<[p' := e2]> (nvm s)) ∧ p ≠ p' ∧
    length (live (kvs e1)) = (KVS_PER_ENTRY / 2)%nat ∧
    length (live (kvs e2)) = (KVS_PER_ENTRY / 2)%nat ∧
    flag e1 = 0 ∧ flag e2 = 0 ∧ k < m ∧ min_key e2 = m.
Proof.
  intros Hok He Hf Hr.
  destruct (splitEntry_spec s l1 k p l2 e) as
    (s' & m & p' & e1 & e2 & ? & ? & ? & ? & ? & ? & ? & _ & ? & ? & [??] & ? & _); try done.
  by exists s', m, p', e1, e2.
Qed.
End spec.

(** ** Witnesses: concrete trees over the reference index *)
Module Witness.
Export MapIndex.
Definition alloc0 : Alloc.t := Alloc.init 4096 (2 ^ 20).
Definition dflt : EPLTree (gmap Z Z) := mkTree ∅ alloc0 0 ∅.
Definition get_tree (r : res (EPLTree (gmap Z Z))) : EPLTree (gmap Z Z) :=
  match r with Ret s => s | _ => dflt end.
Definition tree0 : EPLTree (gmap Z Z) := get_tree (EPLTree_new false ∅ alloc0).
(** Fifteen insertions: the last one splits. *)
Definition ops15 : list op := (λ i, OpInsert (Z.of_nat i * 10) (Z.of_nat i)) <$> seq 1 15.
Definition tree14 : EPLTree (gmap Z Z) :=
  get_tree (let* '(_, s) := run_ops (take 14 ops15) tree0 in Ret s).

Lemma alloc0_wf : Alloc.wf 256 alloc0.
Proof. by split; vm_compute. Qed.

Lemma tree0_simulates n : (n ≤ 4000)%nat → simulates n tree0 ∅.
Proof.
  intros Hn. destruct (EPLTree_new_spec (idx := gmap Z Z) ∅ alloc0) as (s & Hs & Hok & Hm & Hr);
    [apply alloc0_wf|by vm_compute..|].
  assert (tree0 = s) as -> by (unfold tree0; by rewrite Hs).
  eexists. split_and!; [done|done|done|]. apply Hr. cbn. unfold sizeof_Entry. lia.
Qed.

Lemma ops15_valid : valid_ops ∅ ops15.
Proof. cbn. unfold valid_key. repeat split; vm_compute; done. Qed.

Lemma tree14_simulates : simulates 1 tree14 (spec_ops (take 14 ops15) ∅).2.
Proof.
  destruct (run_ops_simulation 1 (take 14 ops15) tree0 ∅) as (s & Hs & Hsim).
  - apply tree0_simulates. by apply (bool_decide_unpack _).
  - cbn. unfold valid_key. repeat split; vm_compute; done.
  - assert (tree14 = s) as -> by (unfold tree14; by rewrite Hs). done.
Qed.

(** The one leaf of [tree14] is full. *)
Lemma tree14_ok : tree_ok tree14 [(0, 4096)] ∧ has_room tree14.
Proof.
  destruct tree14_simulates as (segs & Hok & Hhd & _ & Hr). split; [|done].
  assert (entry_head tree14 = 4096) as Hh by (by vm_compute).
  pose proof (ok_index _ _ Hok) as Hi.
  assert (idx_map (index tree14) = {[0 := 4096]}) as Hi' by (vm_compute; reflexivity).
  rewrite Hi' in Hi. clear Hi'.
  destruct (chain_keys_sorted _ _ _ _ (ok_chain _ _ Hok)) as [Hs%sorted_lt_NoDup _].
  assert (segs ≡ₚ [(0, 4096)]) as Hp.
  { rewrite <- (map_to_list_to_map (M := gmap Z) segs), <- Hi by done.
    by rewrite map_to_list_singleton. }
  apply Permutation_singleton_r in Hp. by subst.
Qed.
End Witness.
Import Witness.

Lemma EPLTree_refines_map_witness :
  ∃ s s', EPLTree_new (idx := gmap Z Z) false ∅ Witness.alloc0 = Ret s ∧
    run_ops (Witness.ops15 ++ [OpGet 150; OpRemove 150; OpGet 150]) s
      = Ret (replicate 15 (0, 0) ++ [(0, 15); (0, 0); (-1, 0)], s').
Proof.
  destruct (EPLTree_refines_map (idx := gmap Z Z) ∅ Witness.alloc0
    (Witness.ops15 ++ [OpGet 150; OpRemove 150; OpGet 150])) as (s & s' & Hs & Hr & _).
  - apply Witness.alloc0_wf.
  - vm_compute. reflexivity.
  - vm_compute. discriminate.
  - cbn. unfold valid_key. repeat split; vm_compute; reflexivity.
  - exists s, s'. split; [exact Hs|]. rewrite Hr. f_equal.
Defined.

Lemma Insert_correct_witness :
  ∃ s' segs', Insert 1 75 7 Witness.tree14 = Ret (STATUS_OK, s') ∧ tree_ok s' segs' ∧
    tree_map (nvm s') segs' = <[75 := 7]> (tree_map (nvm Witness.tree14) [(0, 4096)]).
Proof.
  apply Insert_correct; [apply Witness.tree14_ok| | | |apply Witness.tree14_ok|lia].
  - unfold valid_key. split; vm_compute; reflexivity.
  - cbn. lia.
  - vm_compute. reflexivity.
Defined.

Lemma point_operations_correct_witness :
  Get 70 1 Witness.tree14 = Ret (STATUS_OK, 7) ∧ Get 71 1 Witness.tree14 = Ret (STATUS_FAIL, 0).
Proof.
  split.
  - rewrite (proj1 (point_operations_correct 70 0 Witness.tree14 [(0, 4096)]
      (proj1 Witness.tree14_ok) ltac:(unfold valid_key; split; vm_compute; reflexivity)) 1).
    vm_compute. reflexivity.
  - rewrite (proj1 (point_operations_correct 71 0 Witness.tree14 [(0, 4096)]
      (proj1 Witness.tree14_ok) ltac:(unfold valid_key; split; vm_compute; reflexivity)) 1).
    vm_compute. reflexivity.
Defined.

Lemma failures_change_nothing_witness :
  Get 71 1 Witness.tree14 = Ret (STATUS_FAIL, 0) ∧ Update 71 1 Witness.tree14 = Ret (STATUS_FAIL, Witness.tree14) ∧
  Remove 71 Witness.tree14 = Ret (STATUS_FAIL, Witness.tree14).
Proof.
  destruct (failures_change_nothing Witness.tree14) as (_ & _ & _ & H).
  apply (H [(0, 4096)] 71 1 (proj1 Witness.tree14_ok)).
  - split; vm_compute; reflexivity.
  - vm_compute. reflexivity.
Defined.

Lemma splitEntry_correct_witness :
  ∃ s' m p', splitEntry 4096 Witness.tree14 = Ret s' ∧
    tree_ok s' [(0, 4096); (m, p')].
Proof.
  destruct (nvm Witness.tree14 !! 4096) as [e|] eqn:He;
    [|vm_compute in He; discriminate He].
  destruct (splitEntry_correct Witness.tree14 [] 0 4096 [] e) as
    (s' & m & p' & e1 & e2 & Hs & Hok & _).
  - apply Witness.tree14_ok.
  - exact He.
  - vm_compute in He. injection He as <-. vm_compute. reflexivity.
  - apply Witness.tree14_ok.
  - exists s', m, p'. split; [exact Hs|exact Hok].
Defined.
