(* ===== verification/EplTreeRecover.v ===== *)
(** * Recovery and bulk loading of the EPL-Tree

    [recovered] is the list of routing keys [Recover] rebuilds from the
    [min_key] fields.  The theorems say which lookups survive a restart, when
    the array of [Recover] is too small, and what [BulkLoad] builds. *)
From S2P Require Import Prelude NvmAlloc Entry Index EplTree EplTreeInv EplTreeSpec.

Definition leaf_min (m : gmap Z Entry) (p : Z) : Z :=
  match m !! p with Some e => min_key e | None => 0 end.
Definition recovered (m : gmap Z Entry) (segs : list (Z * Z)) : list (Z * Z) :=
  (λ kp : Z * Z, (leaf_min m kp.2, kp.2)) <$> segs.

Section recovered.
Implicit Types (m : gmap Z Entry) (segs : list (Z * Z)).

Lemma recovered_length m segs : length (recovered m segs) = length segs.
Proof. apply length_fmap. Qed.

Lemma leaf_min_bounds m k p hi nx :
  leaf m k p hi nx → k ≤ leaf_min m p < hi.
Proof. intros (_ & _ & e & He & _ & _ & _ & Hb). unfold leaf_min. by rewrite He. Qed.

Lemma recovered_app m l1 k p l2 :
  recovered m (l1 ++ (k, p) :: l2) = recovered m l1 ++ (leaf_min m p, p) :: recovered m l2.
Proof. unfold recovered. by rewrite fmap_app. Qed.

(** The rebuilt routing keys lie in the segments of the old ones. *)
Lemma recovered_sorted m segs hi nx :
  chain m segs hi nx →
  StronglySorted Z.lt (recovered m segs).*1 ∧
  Forall (λ x, hd_key segs hi ≤ x < hi) (recovered m segs).*1.
Proof.
  induction segs as [|[k p] segs IH]; cbn; [by split; constructor|].
  intros [Hl Hc]. destruct (IH Hc) as [Hs Hf]. apply leaf_min_bounds in Hl.
  pose proof (chain_bounds _ _ _ _ Hc).
  split; constructor; [done| |lia|]; (eapply Forall_impl; [done|]; cbn; lia).
Qed.

Lemma recovered_last m l1 k p hi nx :
  chain m (l1 ++ [(k, p)]) hi nx →
  ∃ e, m !! p = Some e ∧ leaf_min m p = min_key e ∧ min_key e < hi ∧
    ∀ x v, contents e !! x = Some v → x < hi.
Proof.
  intros [_ [(_ & _ & e & He & _ & _ & Hb & ?) _]]%chain_app. exists e.
  unfold leaf_min. rewrite He. split_and!; [done|done|cbn in *; lia|].
  intros x v ?%Hb. cbn in *. lia.
Qed.
End recovered.

Section recover.
Context `{OrderedIndexLaws idx}.
Implicit Types (s : EPLTree idx) (segs : list (Z * Z)).

Lemma recover_loop_run s segs hi fuel cap cur acc :
  chain (nvm s) segs hi 0 → hd_ptr segs 0 = cur → (length segs ≤ fuel)%nat →
  Z.of_nat (length acc + length segs) ≤ cap →
  recover_loop fuel cap cur acc s = Ret (acc ++ recovered (nvm s) segs).
Proof.
  revert fuel cur acc. induction segs as [|[k p] segs IH]; intros fuel cur acc Hc <- Hf Hcap.
  { cbn. destruct fuel; cbn; by rewrite app_nil_r. }
  cbn in Hc, Hf, Hcap. destruct Hc as [(Hp & _ & e & He & Hn & _) Hc].
  destruct fuel as [|fuel]; [lia|]. cbn [recover_loop hd_ptr].
  rewrite bool_decide_eq_false_2 by done.
  rewrite (load_at _ _ e), res_bind_ret by done.
  rewrite bool_decide_eq_true_2 by lia.
  rewrite IH; [|done|done|lia|rewrite length_app; cbn; lia].
  rewrite <- app_assoc. cbn. unfold leaf_min. by rewrite He.
Qed.

Lemma recover_loop_full s segs hi fuel cap cur acc :
  chain (nvm s) segs hi 0 → hd_ptr segs 0 = cur → (length segs ≤ fuel)%nat →
  Z.of_nat (length acc) ≤ cap < Z.of_nat (length acc + length segs) →
  recover_loop fuel cap cur acc s = Fault.
Proof.
  revert fuel cur acc. induction segs as [|[k p] segs IH]; intros fuel cur acc Hc <- Hf Hcap.
  { cbn in Hcap. lia. }
  cbn in Hc, Hf, Hcap. destruct Hc as [(Hp & _ & e & He & Hn & _) Hc].
  destruct fuel as [|fuel]; [lia|]. cbn [recover_loop hd_ptr].
  rewrite bool_decide_eq_false_2 by done.
  rewrite (load_at _ _ e), res_bind_ret by done.
  case_bool_decide; [|done].
  apply IH; [done|done|lia|rewrite length_app; cbn; lia].
Qed.

(** Reopening the file: the head leaf is the allocator's first block. *)
Definition restart (fuel : nat) (load_size : Z) (a : Alloc.t) (file : gmap Z Entry)
  : res (EPLTree idx) :=
  let* s := EPLTree_new true file a in Recover fuel load_size s.

Record reopens (a : Alloc.t) s : Prop := {
  re_wf : Alloc.wf 256 a;
  re_head : Alloc.current_addr a = entry_head s;
  re_mapped : Alloc.mapped_len_ a < 2 ^ 64;
  re_room : Alloc.current_addr a + sizeof_Entry ≤ Alloc.pmem_addr_ a + Alloc.mapped_len_ a
}.

Lemma reopen_run s a :
  reopens a s →
  ∃ a', EPLTree_new true (nvm s) a = Ret (mkTree (nvm s) a' (entry_head s) idx_new) ∧
    Alloc.wf 256 a' ∧ Alloc.current_addr a' = entry_head s + sizeof_Entry ∧
    Alloc.mapped_len_ a' = Alloc.mapped_len_ a ∧ Alloc.pmem_addr_ a' = Alloc.pmem_addr_ a.
Proof.
  intros [Hwf Hh Hm Hr].
  destruct (alloc_entry_at (mkTree (nvm s) a 0 (idx_new : idx))) as
    ([nv a' h i] & E & Hn & He & Hi & Hw & Hc & Hp & Hm'); [done|done|
     unfold has_room, room, sizeof_Entry in *; cbn; lia|].
  unfold EPLTree_new, DataList_Init. rewrite E. cbn in *. subst.
  rewrite Hh in *. by exists a'.
Qed.

Lemma restart_run s segs fuel load_size a :
  tree_ok s segs → reopens a s → (length segs ≤ fuel)%nat →
  Z.of_nat (length segs) ≤ load_size / Z.of_nat KVS_PER_ENTRY + 1 →
  ∃ s', restart fuel load_size a (nvm s) = Ret s' ∧ nvm s' = nvm s ∧
    entry_head s' = entry_head s ∧
    idx_map (index s') = list_to_map (recovered (nvm s) segs) ∧
    Alloc.wf 256 (data_alloc s') ∧
    Alloc.current_addr (data_alloc s') = entry_head s + sizeof_Entry ∧
    Alloc.mapped_len_ (data_alloc s') = Alloc.mapped_len_ a ∧
    Alloc.pmem_addr_ (data_alloc s') = Alloc.pmem_addr_ a.
Proof.
  intros Hok Hre Hf Hcap. pose proof (ok_chain _ _ Hok) as Hc.
  pose proof (ok_ne _ _ Hok) as Hne. pose proof (ok_head _ _ Hok) as Hh.
  destruct (reopen_run s a Hre) as (a' & E & ? & ? & ? & ?).
  unfold restart. rewrite E, res_bind_ret. unfold Recover.
  rewrite (recover_loop_run _ segs UINT64_MAX) by (done || cbn; lia).
  rewrite res_bind_ret. eexists; split; [done|]. cbn.
  split_and!; try done.
  destruct (recovered_sorted _ _ _ _ Hc) as [Hs Hf'].
  apply idx_map_bulk_load; [apply idx_map_new| |done|].
  - by destruct segs.
  - destruct segs as [|[k p] segs]; [done|]. destruct Hc as [(_ & ? & _) _].
    eapply Forall_impl; [done|]. cbn. lia.
Qed.

(** Where the rebuilt index sends a key of the leaf [p]. *)
Lemma recovered_route s s' l1 k p l2 e key :
  tree_ok s (l1 ++ (k, p) :: l2) → nvm s !! p = Some e →
  idx_map (index s') = list_to_map (recovered (nvm s) (l1 ++ (k, p) :: l2)) →
  0 ≤ key → key < hd_key l2 UINT64_MAX → k ≤ key ∨ l1 = [] →
  find_entry key s' = Ret (if decide (l1 ≠ [] ∧ key < min_key e)
                           then List.last l1.*2 0 else p).
Proof.
  intros Hok He Hi Hk0 Hlt Hor. pose proof (ok_chain _ _ Hok) as Hc.
  pose proof (recovered_sorted _ _ _ _ Hc) as [Hs _].
  pose proof Hc as [C1 [L C2]]%chain_app.
  pose proof (recovered_sorted _ _ _ _ C2) as [_ Hf2].
  pose proof (chain_bounds _ _ _ _ C2) as Hb2.
  assert (leaf_min (nvm s) p = min_key e) as Hm by (unfold leaf_min; by rewrite He).
  assert (Forall (λ x, key < x) (recovered (nvm s) l2).*1) as Hr2.
  { eapply Forall_impl; [exact Hf2|]. cbn. lia. }
  rewrite recovered_app, Hm in Hi, Hs.
  unfold find_entry. case_decide as Hd.
  - destruct Hd as [Hne Hkm].
    destruct l1 as [|[k1 p1] l1 _] using rev_ind; [done|].
    rewrite fmap_app. change (snd <$> [(k1, p1)]) with [p1]. rewrite List.last_last.
    destruct (recovered_last _ _ _ _ _ _ C1) as (e1 & He1 & Hm1 & Hlt1 & _).
    cbn in Hlt1. rewrite recovered_app, <- app_assoc in Hi, Hs. cbn in Hi, Hs.
    erewrite (lookup_floor_sorted _ key); [done|exact Hi|exact Hs| |].
    + destruct Hor; [|by destruct l1]. lia.
    + cbn. by constructor.
  - destruct (decide (min_key e ≤ key)) as [Hle|Hnle].
    + erewrite (lookup_floor_sorted _ key); [done|exact Hi|exact Hs|lia|done].
    + assert (l1 = []) as -> by (apply dec_stable; intros ?; apply Hd; split; [done|lia]).
      erewrite (lookup_below_sorted _ key); [done|exact Hi|exact Hs|lia].
Qed.

(** What a lookup returns after a restart. *)
Lemma recovered_Get s s' l1 k p l2 e key :
  tree_ok s (l1 ++ (k, p) :: l2) → nvm s !! p = Some e → nvm s' = nvm s →
  idx_map (index s') = list_to_map (recovered (nvm s) (l1 ++ (k, p) :: l2)) →
  0 < key → key < hd_key l2 UINT64_MAX → k ≤ key ∨ l1 = [] →
  Get key 0 s' = Ret (if decide (l1 ≠ [] ∧ key < min_key e) then (STATUS_FAIL, 0)
                      else match contents e !! key with
                           | Some v => (STATUS_OK, v) | None => (STATUS_FAIL, 0) end).
Proof.
  intros Hok He Hn Hi Hk Hlt Hor. unfold Get.
  rewrite (recovered_route s s' l1 k p l2 e) by (done || lia). rewrite res_bind_ret.
  pose proof (tree_ok_segment _ _ _ _ _ Hok) as [Hp _].
  case_decide as Hd.
  - destruct Hd as [Hne Hkm]. destruct l1 as [|[k1 p1] l1 _] using rev_ind; [done|].
    rewrite fmap_app. change (snd <$> [(k1, p1)]) with [p1]. rewrite List.last_last.
    pose proof (ok_chain _ _ Hok) as [C1 _]%chain_app.
    pose proof C1 as [_ [(Hp1 & _) _]]%chain_app.
    destruct (recovered_last _ _ _ _ _ _ C1) as (e1 & He1 & _ & _ & Hb1). cbn in Hb1.
    rewrite (load_at _ _ e1), res_bind_ret by (rewrite ?Hn; done).
    rewrite Get_spec by lia. destruct (contents e1 !! key) as [v|] eqn:E; [|done].
    apply Hb1 in E. destruct Hor; [lia|by destruct l1].
  - rewrite (load_at _ _ e), res_bind_ret by (rewrite ?Hn; done).
    rewrite Get_spec by lia. by destruct (contents e !! key).
Qed.

(** C32: after a clean shutdown [Recover] rebuilds an index under which every
    lookup answers as before, provided no leaf but the first holds a key below
    its own [min_key] and the array sized by [load_size] has a slot per
    leaf. *)
Theorem Recover_preserves_map s segs fuel load_size a :
  tree_ok s segs → reopens a s → (length segs ≤ fuel)%nat →
  Z.of_nat (length segs) ≤ load_size / Z.of_nat KVS_PER_ENTRY + 1 →
  (∀ k p e x, (k, p) ∈ tail segs → nvm s !! p = Some e →
     is_Some (contents e !! x) → min_key e ≤ x) →
  ∃ s', restart fuel load_size a (nvm s) = Ret s' ∧ nvm s' = nvm s ∧
    ∀ key, valid_key key → Get key 0 s' = Get key 0 s.
Proof.
  intros Hok Hre Hf Hcap Hmin.
  destruct (restart_run s segs fuel load_size a Hok Hre Hf Hcap) as (s' & Hr & Hn & _ & Hi & _).
  exists s'. split_and!; [done..|]. intros key Hkey. unfold valid_key, INVALID_KEY in Hkey.
  rewrite (Get_spec' key 0 s segs) by done.
  destruct (find_entry_spec s segs key Hok) as
    (l1 & k & p & l2 & e & -> & _ & _ & _ & He & _ & _ & _ & Hlt & Hor & _); [lia|].
  destruct (tree_map_segment _ _ _ _ _ _ _ _ _ (ok_chain _ _ Hok) He Hlt Hor)
    as (_ & _ & ->).
  rewrite (recovered_Get s s' l1 k p l2 e) by (done || lia).
  case_decide as Hd; [|done]. destruct Hd as [Hne Hk]. f_equal.
  destruct (contents e !! key) as [v|] eqn:E; [|done].
  assert (min_key e ≤ key); [|lia].
  apply (Hmin k p); [|done|by eexists]. destruct l1; [done|].
  cbn. apply elem_of_app. right; left.
Qed.

(** C39: a key that a leaf other than the first holds below its [min_key]
    (a split raises [min_key] to the smallest key it keeps, while the routing
    key stays) is lost by [Recover]: it was found before the restart and is
    not found after it, although it is still in the leaf. *)
Theorem Recover_loses_low_key s segs fuel load_size a l1 k p l2 e key v :
  tree_ok s segs → reopens a s → (length segs ≤ fuel)%nat →
  Z.of_nat (length segs) ≤ load_size / Z.of_nat KVS_PER_ENTRY + 1 →
  segs = l1 ++ (k, p) :: l2 → l1 ≠ [] → nvm s !! p = Some e → valid_key key →
  contents e !! key = Some v → key < min_key e →
  ∃ s', restart fuel load_size a (nvm s) = Ret s' ∧ nvm s' = nvm s ∧
    Get key 0 s = Ret (STATUS_OK, v) ∧ Get key 0 s' = Ret (STATUS_FAIL, 0).
Proof.
  intros Hok Hre Hf Hcap -> Hne He Hkey Hv Hlow. unfold valid_key, INVALID_KEY in Hkey.
  destruct (restart_run s _ fuel load_size a Hok Hre Hf Hcap) as (s' & Hr & Hn & _ & Hi & _).
  pose proof (tree_ok_segment _ _ _ _ _ Hok) as (_ & _ & e' & He' & _ & _ & Hb & _).
  simplify_eq. pose proof (Hb _ _ Hv) as Hkb.
  destruct (tree_map_segment _ _ _ _ _ _ _ _ key (ok_chain _ _ Hok) He) as (_ & _ & Hm);
    [lia|left; lia|].
  exists s'. split_and!; [done..| |].
  - rewrite (Get_spec' key 0 s _ Hok) by lia. by rewrite Hm, Hv.
  - rewrite (recovered_Get s s' l1 k p l2 e) by (done || lia || (left; lia)).
    by rewrite decide_True.
Qed.

(** C40: [Recover] writes one element per leaf to an array of
    [load_size / KVS_PER_ENTRY + 1] elements; with more leaves than that
    (leaves are half full after splits) it writes past its end. *)
Theorem Recover_array_overflow s segs fuel load_size a :
  tree_ok s segs → reopens a s → (length segs ≤ fuel)%nat → 0 ≤ load_size →
  load_size / Z.of_nat KVS_PER_ENTRY + 1 < Z.of_nat (length segs) →
  restart fuel load_size a (nvm s) = Fault.
Proof.
  intros Hok Hre Hf Hl Hcap. destruct (reopen_run s a Hre) as (a' & E & _).
  unfold restart. rewrite E, res_bind_ret. unfold Recover.
  pose proof (Z.div_pos load_size (Z.of_nat KVS_PER_ENTRY) Hl ltac:(done)).
  by rewrite (recover_loop_full _ segs UINT64_MAX) by
    (done || apply Hok || (cbn [length]; lia)).
Qed.

(** the reopened allocator starts behind the head leaf only, so the
    next leaf it hands out is the one the previous run put there: the address
    belongs to a live leaf of the recovered tree. *)
Theorem Recover_allocator_reuses_leaf s segs fuel load_size a :
  tree_ok s segs → reopens a s → (length segs ≤ fuel)%nat →
  Z.of_nat (length segs) ≤ load_size / Z.of_nat KVS_PER_ENTRY + 1 →
  entry_head s + sizeof_Entry ∈ segs.*2 →
  ∃ s', restart fuel load_size a (nvm s) = Ret s' ∧
    (has_room s' → ∃ p s'', alloc_entry s' = Ret (p, s'') ∧ p ∈ segs.*2).
Proof.
  intros Hok Hre Hf Hcap Hin.
  destruct (restart_run s segs fuel load_size a Hok Hre Hf Hcap) as
    (s' & Hr & _ & _ & _ & Hw & Hc & Hm & _).
  exists s'. split; [done|]. intros Hroom.
  destruct (alloc_entry_at s') as (s'' & Ha & _); [done|rewrite Hm; by destruct Hre|done|].
  exists (Alloc.current_addr (data_alloc s')), s''. split; [done|]. by rewrite Hc.
Qed.
End recover.

(** ** Witnesses *)
Module RecoverWitness.
Export Witness.
Definition run (os : list op) : EPLTree (gmap Z Z) :=
  get_tree (let* '(_, s) := run_ops os tree0 in Ret s).
Definition ins (l : list Z) : list op := (λ k, OpInsert k (k + 1)) <$> l.
Definition tens (a n : nat) : list Z := (λ i, Z.of_nat i * 10) <$> seq a n.

(** Two leaves, as a run of ascending insertions leaves them. *)
Definition tree15 : EPLTree (gmap Z Z) := run (ins (tens 1 15)).
(** Three leaves. *)
Definition tree22 : EPLTree (gmap Z Z) := run (ins (tens 1 22)).
(** The second leaf loses its first key, splits, and gets the key back. *)
Definition ops_low : list op :=
  ins (tens 1 15) ++ [OpRemove 80] ++ ins (tens 16 8) ++ ins [80].
Definition tree_low : EPLTree (gmap Z Z) := run ops_low.

Lemma run_ok os :
  (length os ≤ 3000)%nat → valid_ops ∅ os →
  let s := run os in tree_ok s (sort_kvs (map_to_list (idx_map (index s)))).
Proof.
  intros Hl Hv s.
  destruct (run_ops_simulation 0 os tree0 ∅) as (s' & Hs & segs & Hok & _); [|done|].
  - rewrite Nat.add_0_r. apply tree0_simulates. lia.
  - assert (s = s') as -> by (unfold s, run; by rewrite Hs).
    by rewrite <- (tree_ok_segs _ _ Hok).
Qed.

Lemma alloc0_reopens s : entry_head s = 4096 → reopens alloc0 (s : EPLTree (gmap Z Z)).
Proof.
  intros Hh. split; [apply alloc0_wf|by rewrite Hh|by vm_compute|by vm_compute].
Qed.

(** [tree_ok (run os) segs] for a concrete run. *)
Ltac run_ok_tac :=
  lazymatch goal with |- tree_ok ?t ?segs =>
    assert (segs = sort_kvs (map_to_list (idx_map (index t)))) as -> by (vm_compute; reflexivity)
  end;
  apply run_ok; [apply (bool_decide_unpack _); vm_compute; exact I|];
  cbn; unfold valid_key; repeat split; vm_compute; done.

Lemma tree15_ok : tree_ok tree15 [(0, 4096); (80, 4352)].
Proof. run_ok_tac. Qed.
Lemma tree22_ok : tree_ok tree22 [(0, 4096); (80, 4352); (150, 4608)].
Proof. run_ok_tac. Qed.
Lemma tree_low_ok : tree_ok tree_low [(0, 4096); (80, 4352); (160, 4608)].
Proof. run_ok_tac. Qed.
End RecoverWitness.
Import MapIndex.

Lemma Recover_preserves_map_witness :
  ∃ s', restart 2 15 Witness.alloc0 (nvm RecoverWitness.tree15) = Ret (s' : EPLTree (gmap Z Z)) ∧
    nvm s' = nvm RecoverWitness.tree15 ∧
    Get 150 0 s' = Get 150 0 RecoverWitness.tree15.
Proof.
  destruct (Recover_preserves_map RecoverWitness.tree15 [(0, 4096); (80, 4352)] 2 15
    Witness.alloc0 RecoverWitness.tree15_ok) as (s' & Hr & Hn & Hg).
  - apply RecoverWitness.alloc0_reopens. reflexivity.
  - apply le_n.
  - vm_compute. discriminate.
  - intros k p e x Hin%list_elem_of_singleton. injection Hin as -> ->.
    vm_compute (nvm RecoverWitness.tree15 !! 4352). intros He. injection He as <-.
    intros [v Hx%contents_Some]. destruct Hx as [Hx0 Hx].
    repeat (apply elem_of_cons in Hx as [Hx|Hx];
      [injection Hx as -> ->; first [by destruct Hx0|vm_compute; discriminate]|]).
    by apply not_elem_of_nil in Hx.
  - exists s'. split; [exact Hr|]. split; [exact Hn|]. apply Hg. split; vm_compute; reflexivity.
Defined.

Lemma Recover_loses_low_key_witness :
  ∃ s', restart 3 28 Witness.alloc0 (nvm RecoverWitness.tree_low) = Ret (s' : EPLTree (gmap Z Z)) ∧
    nvm s' = nvm RecoverWitness.tree_low ∧
    Get 80 0 RecoverWitness.tree_low = Ret (STATUS_OK, 81) ∧ Get 80 0 s' = Ret (STATUS_FAIL, 0).
Proof.
  destruct (nvm RecoverWitness.tree_low !! 4352) as [e|] eqn:He;
    [|vm_compute in He; discriminate He].
  apply (Recover_loses_low_key RecoverWitness.tree_low _ 3 28 Witness.alloc0
    [(0, 4096)] 80 4352 [(160, 4608)] e 80 81 RecoverWitness.tree_low_ok).
  - apply RecoverWitness.alloc0_reopens. reflexivity.
  - apply le_n.
  - vm_compute. discriminate.
  - reflexivity.
  - discriminate.
  - exact He.
  - split; vm_compute; reflexivity.
  - vm_compute in He. injection He as <-. vm_compute. reflexivity.
  - vm_compute in He. injection He as <-. vm_compute. reflexivity.
Defined.

Lemma Recover_array_overflow_witness :
  restart 3 22 Witness.alloc0 (nvm RecoverWitness.tree22) = (Fault : res (EPLTree (gmap Z Z))).
Proof.
  apply (Recover_array_overflow RecoverWitness.tree22 _ 3 22 Witness.alloc0
    RecoverWitness.tree22_ok).
  - apply RecoverWitness.alloc0_reopens. reflexivity.
  - apply le_n.
  - lia.
  - vm_compute. reflexivity.
Defined.

(** Eight insertions after the restart split the head leaf, and the block the
    split takes is the second leaf: key 80 is gone. *)
Lemma Recover_allocator_reuses_leaf_witness :
  ∃ s', restart 2 15 Witness.alloc0 (nvm RecoverWitness.tree15) = Ret (s' : EPLTree (gmap Z Z)) ∧
    (has_room s' → ∃ p s'', alloc_entry s' = Ret (p, s'') ∧ p ∈ [4096; 4352]) ∧
    (let* '(_, s) := run_ops (RecoverWitness.ins (seqZ 1 8)) s' in Get 80 0 s)
      = Ret (STATUS_FAIL, 0).
Proof.
  destruct (Recover_allocator_reuses_leaf RecoverWitness.tree15 [(0, 4096); (80, 4352)] 2 15
    Witness.alloc0 RecoverWitness.tree15_ok) as (s' & Hr & Hg).
  - apply RecoverWitness.alloc0_reopens. reflexivity.
  - apply le_n.
  - vm_compute. discriminate.
  - vm_compute. right. left.
  - exists s'. split; [exact Hr|]. split; [exact Hg|].
    vm_compute in Hr. injection Hr as <-. vm_compute. reflexivity.
Defined.
