(* ===== verification/EplTreeBulk.v ===== *)
(** * Bulk loading

    [BulkLoad] packs sorted pairs into full leaves behind the head and builds
    the index in one go.  The theorems give the tree it builds, and the two
    cases it does not handle: an input that fits one leaf, and later keys
    below the first loaded one. *)
From S2P Require Import Prelude NvmAlloc Entry Index EplTree EplTreeInv EplTreeSpec.

(** The inputs [BulkLoad] asks for: sorted, distinct, valid keys. *)
Definition loadable (l : list (Z * Z)) : Prop :=
  StronglySorted Z.lt l.*1 ∧ Forall valid_key l.*1.

(** The key that follows the first [n] pairs. *)
Definition key_after (n : nat) (l : list (Z * Z)) : Z :=
  match l !! n with Some kv => kv.1 | None => UINT64_MAX end.

Section lists.
Implicit Types (l : list (Z * Z)).

Lemma loadable_valid l k v : loadable l → (k, v) ∈ l → valid_key k.
Proof. intros [_ Hv]. by apply Forall_fst. Qed.

Lemma loadable_lt l i j kv kv' :
  loadable l → l !! i = Some kv → l !! j = Some kv' → (i < j)%nat → kv.1 < kv'.1.
Proof.
  intros [Hs _] Hi Hj ?.
  apply (sorted_lt_lookup l.*1 i j); [done|..|done]; rewrite list_lookup_fmap;
    [by rewrite Hi|by rewrite Hj].
Qed.

Lemma loadable_split l n : loadable l → loadable (take n l) ∧ loadable (drop n l).
Proof.
  intros [Hs Hv]. rewrite <- (take_drop n l), fmap_app in Hs, Hv.
  apply sorted_lt_app_inv in Hs as (? & ? & _). apply Forall_app in Hv as [? ?]. done.
Qed.

Lemma loadable_live l n : loadable l → live (take n l) = take n l.
Proof.
  intros [Hl _]%(loadable_split l n). apply live_all, list.Forall_forall.
  intros [k v] Hin. pose proof (loadable_valid _ _ _ Hl Hin) as Hv.
  unfold valid_key, INVALID_KEY in Hv. cbn. lia.
Qed.

Lemma key_after_some l i kv :
  l !! i = Some kv → key_after i l = kv.1.
Proof. unfold key_after. by intros ->. Qed.

Lemma key_after_gt l i j kv :
  loadable l → l !! i = Some kv → (i < j)%nat → kv.1 < key_after j l.
Proof.
  intros Hl Hi ?. unfold key_after. destruct (l !! j) as [kv'|] eqn:Hj.
  - by apply (loadable_lt l i j).
  - assert (valid_key kv.1); [|unfold valid_key in *; lia].
    apply (loadable_valid l kv.1 kv.2); [done|]. rewrite <- surjective_pairing.
    by apply list_elem_of_lookup_2 with i.
Qed.

Lemma key_after_over l i j :
  (length l ≤ i)%nat → (length l ≤ j)%nat → key_after i l = key_after j l.
Proof. intros. unfold key_after. by rewrite !lookup_ge_None_2. Qed.

(** Keys of a block lie between its first key and the one that follows. *)
Lemma loadable_block l i n k v kv0 :
  loadable l → l !! i = Some kv0 → (k, v) ∈ take n (drop i l) →
  kv0.1 ≤ k < key_after (i + n) l.
Proof.
  intros Hl H0 [j Hj]%list_elem_of_lookup.
  apply lookup_take_Some in Hj as [Hj Hlt]. rewrite lookup_drop in Hj. split.
  - destruct j as [|j]; [rewrite Nat.add_0_r in Hj; by simplify_eq|].
    pose proof (loadable_lt l i _ _ _ Hl H0 Hj ltac:(lia)). cbn in *. lia.
  - apply (key_after_gt l _ _ _ Hl Hj). lia.
Qed.

(** The block a leaf takes: the rest of the list, or a full leaf. *)
Lemma block_take l i :
  let sz := Nat.min (length l - i) KVS_PER_ENTRY in
  take sz (drop i l) = take KVS_PER_ENTRY (drop i l) ∧
  key_after (i + sz) l = key_after (i + KVS_PER_ENTRY) l.
Proof.
  intros sz. destruct (decide (length l - i ≤ KVS_PER_ENTRY)%nat).
  - split; [rewrite !take_ge; rewrite ?length_drop; unfold sz; try lia; done|].
    apply key_after_over; unfold sz; lia.
  - unfold sz. by rewrite Nat.min_r by lia.
Qed.
End lists.

(** A leaf packed with the first pairs of a loadable list. *)
Definition packed (nx mk fl : Z) (l : list (Z * Z)) (n : nat) (rs : list Z) : Entry :=
  mkEntry nx mk fl (take n l ++ replicate (KVS_PER_ENTRY - n) (0, 0)) rs.

Lemma packed_spec nx mk fl l n rs :
  loadable l → (n ≤ KVS_PER_ENTRY)%nat → (n ≤ length l)%nat →
  entry_wf (packed nx mk fl l n rs) ∧
  contents (packed nx mk fl l n rs) = list_to_map (take n l).
Proof.
  intros Hl Hn Hlen.
  assert (live (kvs (packed nx mk fl l n rs)) = take n l) as E.
  { change (live (take n l ++ replicate (KVS_PER_ENTRY - n) (0, 0)) = take n l).
    by rewrite live_app, live_zero, app_nil_r, loadable_live. }
  split; [split|].
  - cbn [kvs packed]. rewrite length_app, length_take, length_replicate. lia.
  - rewrite E. by apply sorted_lt_NoDup, loadable_split.
  - unfold contents, slot_map. by rewrite E.
Qed.

Lemma chain_relink m l1 k p hi nx nx' e :
  NoDup (l1 ++ [(k, p)]).*2 → chain m (l1 ++ [(k, p)]) hi nx → m !! p = Some e →
  chain (<[p := with_next nx' e]> m) (l1 ++ [(k, p)]) hi nx'.
Proof.
  rewrite fmap_app. cbn. intros (_ & Hd & _)%NoDup_app Hc He.
  apply chain_app in Hc as [C1 [(? & ? & e' & He' & ?) _]]. simplify_eq.
  apply chain_app. split.
  - apply chain_frame; [|done]. intros Hin. apply (Hd _ Hin). left.
  - split; [|done]. split; [done|]. split; [done|]. exists (with_next nx' e').
    rewrite lookup_insert_eq. cbn. destruct_and!. done.
Qed.

Section bulk.
Context `{OrderedIndexLaws idx}.
Implicit Types (s : EPLTree idx) (segs acc : list (Z * Z)).

(** The leaves built so far hold the first [n] pairs of [l]. *)
Record built s l (n : nat) acc : Prop := {
  bl_chain : chain (nvm s) acc (key_after n l) 0;
  bl_map : tree_map (nvm s) acc = list_to_map (take n l);
  bl_nodup : NoDup acc.*2;
  bl_head : hd_ptr acc 0 = entry_head s;
  bl_alloc : Alloc.wf 256 (data_alloc s);
  bl_fresh : Forall (λ p, p < Alloc.current_addr (data_alloc s)) acc.*2;
  bl_mapped : Alloc.mapped_len_ (data_alloc s) < 2 ^ 64
}.

(** The new leaf and the relinked last leaf, in memory. *)
Lemma extend_chain m acc k p e p' l n :
  chain m (acc ++ [(k, p)]) (key_after n l) 0 → NoDup (acc ++ [(k, p)]).*2 →
  m !! p = Some e → p' ∉ (acc ++ [(k, p)]).*2 → 0 < p' → loadable l →
  ∀ kv, l !! n = Some kv →
  let sz := Nat.min (length l - n) KVS_PER_ENTRY in
  let e' := packed 0 kv.1 0 (drop n l) sz (replicate 8 0) in
  let m' := <[p := with_next p' e]> (<[p' := e']> m) in
  chain m' ((acc ++ [(k, p)]) ++ [(kv.1, p')]) (key_after (n + KVS_PER_ENTRY) l) 0 ∧
  tree_map m' ((acc ++ [(k, p)]) ++ [(kv.1, p')])
    = tree_map m (acc ++ [(k, p)]) ∪ list_to_map (take KVS_PER_ENTRY (drop n l)).
Proof.
  intros Hc Hnd He Hf Hp' Hl kv Hkv sz e' m'.
  pose proof (lookup_lt_Some _ _ _ Hkv) as Hlt.
  destruct (block_take l n) as [Htk Hka]. fold sz in Htk, Hka.
  destruct (packed_spec 0 kv.1 0 (drop n l) sz (replicate 8 0)) as [W C];
    [by apply loadable_split|lia|rewrite length_drop; lia|]. fold e' in W, C.
  assert (p ≠ p') as Hpp by (intros ->; apply Hf; rewrite fmap_app; set_solver).
  assert (valid_key kv.1) as Hv.
  { apply (loadable_valid l _ kv.2); [done|]. rewrite <- surjective_pairing.
    by apply list_elem_of_lookup_2 with n. }
  unfold valid_key, INVALID_KEY in Hv.
  pose proof (key_after_gt l n (n + KVS_PER_ENTRY) kv Hl Hkv ltac:(unfold KVS_PER_ENTRY; lia)).
  rewrite (key_after_some _ _ _ Hkv) in Hc. split.
  - apply chain_app. cbn [hd_key hd_ptr]. split.
    + apply (chain_relink _ _ _ _ _ 0); [done|by apply chain_frame|]. by simplify_map_eq.
    + split; [|done]. split; [lia|]. split; [cbn; lia|]. exists e'. unfold m'.
      simplify_map_eq. split_and!; [done..| |cbn; lia|done].
      intros x v. rewrite C. intros Hx%elem_of_list_to_map_2.
      cbn [hd_key]. rewrite <- Hka. by apply (loadable_block l n sz x v kv).
  - rewrite tree_map_app. unfold m'. rewrite tree_map_store by done.
    rewrite tree_map_app. cbn. unfold leaf_map. rewrite He.
    rewrite lookup_insert_ne, lookup_insert_eq by done. rewrite C, Htk.
    rewrite !(right_id_L ∅ (∪)). rewrite fmap_app in Hf.
    rewrite tree_map_frame by set_solver. done.
Qed.

(** Linking one more packed leaf behind the last. *)
Lemma built_extend s s0 l n acc k p e kv :
  built s l n (acc ++ [(k, p)]) → loadable l → l !! n = Some kv →
  nvm s !! p = Some e → has_room s →
  alloc_entry s = Ret (Alloc.current_addr (data_alloc s), s0) →
  let p' := Alloc.current_addr (data_alloc s) in
  let sz := Nat.min (length l - n) KVS_PER_ENTRY in
  let e' := packed 0 kv.1 0 (drop n l) sz (replicate 8 0) in
  let s' := store p (with_next p' e) (store p' e' s0) in
  built s' l (n + KVS_PER_ENTRY) ((acc ++ [(k, p)]) ++ [(kv.1, p')]) ∧
  index s' = index s ∧ entry_head s' = entry_head s ∧ (∀ m, room (S m) s → room m s').
Proof.
  intros [] Hl Hkv He Hroom Ha p' sz e' s'.
  destruct (alloc_entry_at s bl_alloc0 bl_mapped0 Hroom) as
    (s1 & Ha1 & Hn & Hh & Hi & Hw & Hc & Hp & Hm).
  assert (s1 = s0) as -> by congruence. fold p' in Ha, Ha1, Hc.
  assert (p' ∉ (acc ++ [(k, p)]).*2) as Hfresh.
  { intros Hin. rewrite list.Forall_forall in bl_fresh0. specialize (bl_fresh0 p' Hin). lia. }
  assert (0 < p') by (destruct bl_alloc0; lia).
  destruct (extend_chain (nvm s) acc k p e p' l n bl_chain0 bl_nodup0 He Hfresh ltac:(done) Hl kv Hkv)
    as [Hc' Hm']. fold sz e' in Hc', Hm'.
  split; [split|]; cbn [data_alloc entry_head nvm index s' store with_nvm]; rewrite ?Hn.
  - done.
  - rewrite Hm', bl_map0, <- list_to_map_app. f_equal. by rewrite take_take_drop.
  - rewrite fmap_app. cbn. apply NoDup_app. split_and!; [done| |repeat constructor; set_solver].
    intros q Hq ->%list_elem_of_singleton. done.
  - rewrite Hh, <- bl_head0. by destruct acc.
  - done.
  - rewrite fmap_app. apply Forall_app. rewrite Hc. unfold sizeof_Entry. split.
    + eapply Forall_impl; [exact bl_fresh0|]. cbn. lia.
    + cbn. constructor; [lia|done].
  - lia.
  - split_and!; [done..|]. intros m. unfold room, sizeof_Entry; cbn. rewrite Hc, Hp, Hm.
    unfold sizeof_Entry. lia.
Qed.

Lemma bulk_loop_spec fuel i l acc k p s :
  built s l (i * KVS_PER_ENTRY) (acc ++ [(k, p)]) → loadable l →
  length (acc ++ [(k, p)]) = i → (i ≤ S (length l / KVS_PER_ENTRY))%nat →
  (S (length l / KVS_PER_ENTRY) - i ≤ fuel)%nat →
  room (S (length l / KVS_PER_ENTRY) - i) s →
  ∃ s' segs, bulk_loop fuel i l (length l) (Z.of_nat (length l / KVS_PER_ENTRY) + 1) p
      (acc ++ [(k, p)]) s = Ret (segs, s') ∧
    built s' l (length l) segs ∧ index s' = index s ∧ segs ≠ [] ∧
    hd_key segs 0 = hd_key (acc ++ [(k, p)]) 0.
Proof.
  revert i acc k p s. induction fuel as [|fuel IH];
    intros i acc k p s Hb Hl Hlen Hi Hfuel Hroom; cbn [bulk_loop].
  all: destruct (decide (KVS_PER_ENTRY * i < length l)%nat) as [Hlt|Hge].
  all: pose proof (Nat.div_mod (length l) KVS_PER_ENTRY ltac:(done)) as Hdm.
  all: pose proof (Nat.mod_upper_bound (length l) KVS_PER_ENTRY ltac:(done)) as Hmb.
  2, 4: rewrite bool_decide_eq_false_2 by done; eexists _, _; split; [done|];
    split; [|split_and!; [done|by destruct acc|done]];
    destruct Hb; split; try done;
    [by rewrite (key_after_over l (length l) (i * KVS_PER_ENTRY)) by lia
    |by rewrite take_ge in bl_map0 |- * by lia].
  { nia. }
  rewrite bool_decide_eq_true_2 by done.
  destruct (lookup_lt_is_Some_2 l (i * KVS_PER_ENTRY)) as [kv Hkv]; [lia|].
  assert (has_room s) as Hr by (eapply room_mono; [|exact Hroom]; nia).
  destruct (alloc_entry_at s (bl_alloc _ _ _ _ Hb) (bl_mapped _ _ _ _ Hb) Hr) as
    (s0 & Ha & Hn & _).
  set (p' := Alloc.current_addr (data_alloc s)) in *.
  pose proof (bl_chain _ _ _ _ Hb) as [_ [(Hp & _ & e & He & _) _]]%chain_app.
  destruct (built_extend s s0 l _ acc k p e kv Hb Hl Hkv He Hr Ha) as (Hb' & Hix & Hhd & Hrm).
  assert (p ≠ p') as Hpp.
  { intros E. pose proof (bl_fresh _ _ _ _ Hb) as Hf. rewrite list.Forall_forall in Hf.
    specialize (Hf p). rewrite fmap_app in Hf. fold p' in Hf. subst p. set_solver by lia. }
  rewrite Ha, res_bind_ret, Hkv. cbn [of_option]. rewrite res_bind_ret.
  rewrite Entry_new_kvs_spec, res_bind_ret by (rewrite ?length_drop; lia).
  erewrite modify_at; [|done|cbn; rewrite Hn; by simplify_map_eq|reflexivity].
  rewrite res_bind_ret. erewrite load_at; [|done|cbn; by simplify_map_eq].
  rewrite res_bind_ret, bool_decide_eq_true_2 by (rewrite Hlen; nia).
  cbn [next with_next].
  destruct (IH (S i) (acc ++ [(k, p)]) kv.1 p' (store p (with_next p' e)
    (store p' (packed 0 kv.1 0 (drop (i * KVS_PER_ENTRY) l)
       (Nat.min (length l - i * KVS_PER_ENTRY) KVS_PER_ENTRY) (replicate 8 0)) s0)))
    as (s' & segs & Hrun & Hok & Hix' & Hne & Hhk).
  - rewrite Nat.add_comm in Hb'. exact Hb'.
  - done.
  - rewrite length_app, Hlen. cbn. lia.
  - nia.
  - lia.
  - apply Hrm. eapply room_mono; [|exact Hroom]. nia.
  - exists s', segs. split; [exact Hrun|]. split_and!; [done|exact (eq_trans Hix' Hix)|done|].
    rewrite Hhk. by destruct acc.
Qed.

(** The head leaf filled with the first block. *)
Lemma head_built s l head kv0 e :
  tree_ok s [(0, head)] → loadable l → l !! 0%nat = Some kv0 → nvm s !! head = Some e →
  let sz := Nat.min (length l) KVS_PER_ENTRY in
  let s' := with_index (idx_erase INVALID_KEY (index s))
              (store head (packed (next e) kv0.1 (flag e) l sz (reserve e)) s) in
  built s' l (1 * KVS_PER_ENTRY) ([] ++ [(kv0.1, head)]) ∧ idx_map (index s') = ∅.
Proof.
  intros Hok Hl Hkv0 He sz s'.
  destruct (ok_chain _ _ Hok) as [(Hp & _ & e' & He' & Hnx & _) _]. simplify_eq. cbn in Hnx.
  pose proof (lookup_lt_Some _ _ _ Hkv0).
  destruct (packed_spec (next e) kv0.1 (flag e) l sz (reserve e)) as [W C]; [done|lia|lia|].
  destruct (block_take l 0) as [Htk Hka]. rewrite drop_0 in Htk. cbn [Nat.add] in Hka.
  rewrite Nat.sub_0_r in Htk, Hka. fold sz in Htk, Hka.
  assert (valid_key kv0.1) as Hv.
  { apply (loadable_valid l _ kv0.2); [done|]. rewrite <- surjective_pairing.
    by apply list_elem_of_lookup_2 with 0%nat. }
  unfold valid_key, INVALID_KEY in Hv.
  pose proof (key_after_gt l 0 (1 * KVS_PER_ENTRY) kv0 Hl Hkv0 ltac:(unfold KVS_PER_ENTRY; lia)).
  split; [split|]; cbn [data_alloc entry_head nvm index s' store with_nvm with_index app].
  - split; [|done]. split; [done|]. split; [cbn [hd_key]; lia|]. eexists. rewrite lookup_insert_eq.
    split; [done|]. split_and!; [done..| |cbn [min_key packed]; lia|cbn [min_key packed hd_key]; lia].
    intros x v. rewrite C. intros Hx%elem_of_list_to_map_2. cbn [hd_key].
    rewrite Nat.mul_1_l, <- Hka. by apply (loadable_block l 0 sz x v kv0).
  - cbn. unfold leaf_map. rewrite lookup_insert_eq, C, (right_id_L ∅ (∪)).
    rewrite Htk. done.
  - apply Hok.
  - apply Hok.
  - apply Hok.
  - apply Hok.
  - apply Hok.
  - rewrite idx_map_erase, (ok_index _ _ Hok). apply map_eq. intros x.
    cbn. unfold INVALID_KEY. rewrite lookup_empty.
    destruct (decide (x = 0)) as [->|]; [by rewrite lookup_delete_eq|].
    by rewrite lookup_delete_ne, lookup_insert_ne by done.
Qed.

Lemma BulkLoad_head s l head kv0 e :
  tree_ok s [(0, head)] → loadable l → l !! 0%nat = Some kv0 → nvm s !! head = Some e →
  let sz := Nat.min (length l) KVS_PER_ENTRY in
  let s1 := with_index (idx_erase INVALID_KEY (index s))
              (store head (packed (next e) kv0.1 (flag e) l sz (reserve e)) s) in
  BulkLoad l (length l) s =
    if bool_decide (length l ≤ KVS_PER_ENTRY)%nat then Ret s1
    else let* '(index_kvs, s) := bulk_loop (length l) 1 l (length l)
           (Z.of_nat (length l / KVS_PER_ENTRY) + 1) head [(kv0.1, head)] s1 in
         Ret (with_index (idx_bulk_load index_kvs (index s)) s).
Proof.
  intros Hok Hl Hkv0 He sz s1. pose proof (lookup_lt_Some _ _ _ Hkv0).
  pose proof (ok_head _ _ Hok) as Hh. cbn in Hh.
  pose proof (ok_chain _ _ Hok) as [(Hp & _) _].
  unfold BulkLoad. rewrite bool_decide_eq_false_2 by lia. rewrite <- Hh.
  erewrite modify_at; [|done|exact He|apply (setOrderedKVs_spec kv0); [done|lia|lia]].
  rewrite res_bind_ret. erewrite load_at; [|done|cbn; by rewrite lookup_insert_eq].
  by rewrite res_bind_ret.
Qed.

(** C33: [BulkLoad] of more than [KVS_PER_ENTRY] sorted pairs into an empty
    tree terminates without running past its index array, and the tree it
    builds satisfies the invariant and stands for exactly those pairs. *)
Theorem BulkLoad_correct s l head :
  tree_ok s [(0, head)] → loadable l → (KVS_PER_ENTRY < length l)%nat →
  room (length l / KVS_PER_ENTRY) s →
  ∃ s' segs, BulkLoad l (length l) s = Ret s' ∧ tree_ok s' segs ∧
    tree_map (nvm s') segs = list_to_map l ∧ hd_key segs 0 = hd_key l 0.
Proof.
  intros Hok Hl Hlen Hroom.
  destruct (lookup_lt_is_Some_2 l 0) as [kv0 Hkv0]; [lia|].
  pose proof (ok_chain _ _ Hok) as [(Hp & _ & e & He & _) _].
  destruct (head_built s l head kv0 e Hok Hl Hkv0 He) as [Hb Hix].
  rewrite (BulkLoad_head s l head kv0 e Hok Hl Hkv0 He).
  set (s1 := with_index _ _) in *.
  rewrite bool_decide_eq_false_2 by lia.
  destruct (bulk_loop_spec (length l) 1 l [] kv0.1 head s1) as
    (s' & segs & Hrun & Hb' & Hix' & Hne & Hhk); [done|done|done|lia| | |].
  { assert (length l / KVS_PER_ENTRY ≤ length l)%nat; [|lia].
    apply Nat.Div0.div_le_upper_bound. unfold KVS_PER_ENTRY. lia. }
  { by rewrite Nat.sub_succ, Nat.sub_0_r. }
  cbn [app] in Hrun. rewrite Hrun, res_bind_ret. eexists _, segs. split; [done|].
  destruct Hb' as [Hc Hm Hnd Hhd Hw Hf Hml]. unfold key_after in Hc.
  rewrite (lookup_ge_None_2 l (length l)) in Hc by done. rewrite take_ge in Hm by done.
  split_and!; [split|..]; cbn [nvm index entry_head data_alloc with_index]; try done.
  - destruct (chain_keys_sorted _ _ _ _ Hc) as [Hs _].
    apply idx_map_bulk_load; [by rewrite Hix', Hix|done|done|].
    by apply chain_keys_range in Hc.
  - rewrite Hhk. destruct l as [|[] ?]; [done|]. cbn in Hkv0. by simplify_eq.
Qed.

(** When the input fits one leaf, [BulkLoad] erases the only routing
    key and returns before it fills the index: the pairs are in the head leaf
    and the index is empty. *)
Theorem BulkLoad_small_empties_index s l head :
  tree_ok s [(0, head)] → loadable l → (0 < length l ≤ KVS_PER_ENTRY)%nat →
  ∃ s', BulkLoad l (length l) s = Ret s' ∧ idx_map (index s') = ∅ ∧
    leaf_map (nvm s') head = list_to_map l.
Proof.
  intros Hok Hl Hlen.
  destruct (lookup_lt_is_Some_2 l 0) as [kv0 Hkv0]; [lia|].
  pose proof (ok_chain _ _ Hok) as [(Hp & _ & e & He & _) _].
  destruct (head_built s l head kv0 e Hok Hl Hkv0 He) as [Hb Hix].
  rewrite (BulkLoad_head s l head kv0 e Hok Hl Hkv0 He).
  rewrite bool_decide_eq_true_2 by lia. eexists; split; [done|]. split; [done|].
  pose proof (bl_map _ _ _ _ Hb) as Hm. cbn [tree_map app] in Hm.
  rewrite (right_id_L ∅ (∪)), take_ge in Hm by lia. done.
Qed.

(** a key below the first routing key is put in the first leaf.  When
    that leaf later splits at a median below its own routing key [k0], the
    new leaf is indexed under the median and the old one stays under [k0]:
    every key of both halves is then looked up in the other half, and lost. *)
Theorem split_below_routing_key_loses s p k0 e t m v :
  p ≠ 0 → nvm s !! p = Some e → entry_wf e → length (live (kvs e)) = KVS_PER_ENTRY →
  Alloc.wf 256 (data_alloc s) → Alloc.mapped_len_ (data_alloc s) < 2 ^ 64 →
  has_room s → p < Alloc.current_addr (data_alloc s) →
  idx_map (index s) = {[k0 := p]} → k0 < UINT64_MAX →
  t = sort_kvs (kvs e) → t !! half = Some (m, v) → 0 < m < k0 →
  ∃ s', splitEntry p s = Ret s' ∧
    ∀ key, valid_key key → is_Some (contents e !! key) → key < m ∨ k0 ≤ key →
      Get key 0 s' = Ret (STATUS_FAIL, 0).
Proof.
  intros Hp He Hwf Hfull Hw Hml Hroom Hfresh Hi Hk0 Ht Hm Hmk.
  destruct (alloc_entry_at s Hw Hml Hroom) as (s0 & Ha & Hn0 & Hh0 & Hi0 & _).
  set (p' := Alloc.current_addr (data_alloc s)) in *.
  destruct (split_sorted e Hwf Hfull) as (Hlen & _). rewrite <- Ht in Hlen.
  destruct (lookup_lt_is_Some_2 t 0) as [kv0 Ht0]; [rewrite Hlen; by vm_compute; lia|].
  assert (p' ≠ 0) as Hp' by (destruct Hw; lia). assert (p ≠ p') as Hpp by lia.
  pose proof (splitEntry_run s p p' s0 e t kv0 m v Hp Hp' Hpp He Ha Hn0 Ht Hlen Ht0 Hm) as Hrun.
  rewrite Ht in Hm.
  pose proof (split_halves e v p' 0 (next e) kv0.1 (reserve e) (replicate 8 0) m
    Hwf Hfull Hm) as (_ & _ & _ & _ & _ & B1 & B2 & _). rewrite <- Ht in B1, B2.
  eexists. split; [exact Hrun|]. intros key Hv Hin Hor. unfold valid_key, INVALID_KEY in Hv.
  set (s' := mkTree _ _ _ _).
  assert (idx_map (index s') = list_to_map ([(m, p')] ++ [(k0, p)])) as Hi'.
  { cbn [index s']. rewrite Hi0, idx_map_insert; rewrite ?Hi; [done|lia|].
    rewrite lookup_singleton_ne; [done|lia]. }
  assert (StronglySorted Z.lt ([(m, p')] ++ [(k0, p)]).*1) as Hs'.
  { cbn. repeat constructor. lia. }
  unfold Get, find_entry. destruct Hor as [Hlt|Hge].
  - rewrite (lookup_below_sorted _ key _ _ _ Hi' Hs' Hlt). cbn [of_option].
    rewrite res_bind_ret, (load_at p' s' (split_right t m e)), res_bind_ret, Get_spec
      by (lia || done || (unfold s'; cbn [nvm]; by simplify_map_eq)).
    destruct (contents (split_right t m e) !! key) as [w|] eqn:E; [|done].
    apply B2 in E. lia.
  - rewrite (lookup_floor_sorted _ key _ _ _ _ Hi' Hs') by (lia || constructor).
    cbn [of_option].
    rewrite res_bind_ret, (load_at p s' (split_left t p' kv0.1 e)), res_bind_ret, Get_spec
      by (lia || done || (unfold s'; cbn [nvm]; by simplify_map_eq)).
    destruct (contents (split_left t p' kv0.1 e) !! key) as [w|] eqn:E; [|done].
    apply B1 in E. lia.
Qed.
End bulk.

(** ** Witnesses *)
Module BulkWitness.
Export Witness.
Definition pairs (a n : nat) : list (Z * Z) := (λ i, (Z.of_nat i * 10, Z.of_nat i)) <$> seq a n.

Lemma tree0_ok n : (n ≤ 4000)%nat → tree_ok tree0 [(0, 4096)] ∧ room n tree0.
Proof.
  intros Hn. destruct (tree0_simulates n Hn) as (segs & Hok & _ & _ & Hr).
  split; [|done]. rewrite (tree_ok_segs _ _ Hok) in Hok.
  assert (sort_kvs (map_to_list (idx_map (index tree0))) = [(0, 4096)]) as E
    by (vm_compute; reflexivity). by rewrite E in Hok.
Qed.

Lemma pairs_loadable a n :
  (0 < a)%nat → (a + n < 2 ^ 16)%nat → loadable (pairs a n).
Proof.
  intros Ha Hn. unfold pairs. split.
  - revert a Ha Hn. induction n as [|n IH]; intros a Ha Hn; cbn; constructor.
    + apply IH; lia.
    + apply Forall_fst. intros k v (i & E & Hi%elem_of_seq)%list_elem_of_fmap.
      injection E as -> _. lia.
  - apply Forall_fst. intros k v (i & E & Hi%elem_of_seq)%list_elem_of_fmap.
    injection E as -> _. unfold valid_key, INVALID_KEY, UINT64_MAX.
    assert (Z.of_nat (2 ^ 16) = 65536) by (by vm_compute). lia.
Qed.

(** A tree loaded with one leaf's worth of pairs by hand: keys 1 to 8 were
    inserted below the first routing key 100. *)
Definition low_entry : Entry :=
  mkEntry 0 100 0 (((λ i, (Z.of_nat i * 100, 1)) <$> seq 1 6) ++
                   ((λ i, (Z.of_nat i, 2)) <$> seq 1 8)) (replicate 8 0).
Definition low_tree : EPLTree (gmap Z Z) :=
  mkTree {[4096 := low_entry]} (snd (Alloc.alloc_aligned 256 256 alloc0)) 4096 {[100 := 4096]}.
End BulkWitness.
Import MapIndex.

Lemma BulkLoad_correct_witness :
  ∃ s' segs, BulkLoad (BulkWitness.pairs 1 40) 40 Witness.tree0 = Ret s' ∧ tree_ok s' segs ∧
    tree_map (nvm s') segs = list_to_map (BulkWitness.pairs 1 40) ∧
    hd_key segs 0 = 10.
Proof.
  apply (BulkLoad_correct Witness.tree0 (BulkWitness.pairs 1 40) 4096).
  - apply (BulkWitness.tree0_ok 0). lia.
  - apply BulkWitness.pairs_loadable; apply (bool_decide_unpack _); vm_compute; exact I.
  - apply (bool_decide_unpack _); vm_compute; exact I.
  - apply BulkWitness.tree0_ok. apply (bool_decide_unpack _); vm_compute; exact I.
Defined.

Lemma BulkLoad_small_empties_index_witness :
  ∃ s', BulkLoad (BulkWitness.pairs 1 14) 14 Witness.tree0 = Ret s' ∧
    idx_map (index s') = ∅ ∧ leaf_map (nvm s') 4096 = list_to_map (BulkWitness.pairs 1 14) ∧
    Get 10 0 s' = Fault.
Proof.
  destruct (BulkLoad_small_empties_index Witness.tree0 (BulkWitness.pairs 1 14) 4096)
    as (s' & Hr & Hi & Hm).
  - apply (BulkWitness.tree0_ok 0). lia.
  - apply BulkWitness.pairs_loadable; apply (bool_decide_unpack _); vm_compute; exact I.
  - split; apply (bool_decide_unpack _); vm_compute; exact I.
  - exists s'. split; [exact Hr|]. split; [exact Hi|]. split; [exact Hm|].
    vm_compute in Hr. injection Hr as <-. vm_compute. reflexivity.
Defined.

Lemma split_below_routing_key_loses_witness :
  Get 1 0 BulkWitness.low_tree = Ret (STATUS_OK, 2) ∧
  Get 100 0 BulkWitness.low_tree = Ret (STATUS_OK, 1) ∧
  ∃ s', splitEntry 4096 BulkWitness.low_tree = Ret s' ∧
    Get 1 0 s' = Ret (STATUS_FAIL, 0) ∧ Get 100 0 s' = Ret (STATUS_FAIL, 0).
Proof.
  split; [vm_compute; reflexivity|]. split; [vm_compute; reflexivity|].
  destruct (split_below_routing_key_loses BulkWitness.low_tree 4096 100 BulkWitness.low_entry
    (sort_kvs (kvs BulkWitness.low_entry)) 8 2) as (s' & Hs & Hg).
  - discriminate.
  - reflexivity.
  - split; [reflexivity|]. apply (bool_decide_unpack _). vm_compute. exact I.
  - vm_compute. reflexivity.
  - split; vm_compute; done.
  - vm_compute. reflexivity.
  - vm_compute. discriminate.
  - vm_compute. reflexivity.
  - reflexivity.
  - vm_compute. reflexivity.
  - reflexivity.
  - vm_compute. reflexivity.
  - lia.
  - exists s'. split; [exact Hs|]. split.
    + apply Hg; [split; vm_compute; reflexivity|vm_compute; eauto|left; lia].
    + apply Hg; [split; vm_compute; reflexivity|vm_compute; eauto|right; lia].
Defined.
