(* ===== verification/EplTreeScan.v ===== *)
(** * Scans

    [Scan] returns pairs in key order, [RangeScan] the pairs of a key range.
    The specification is the sorted list of the pairs of the map the tree
    stands for.  The theorems cover the cases that are right (a scan shorter
    than a leaf, a range inside one leaf) and give the exact result of the
    cases that are not. *)
From S2P Require Import Prelude NvmAlloc Entry Index EplTree EplTreeInv EplTreeSpec.

(** The stored pairs of a leaf, and of the whole tree, in key order. *)
Definition leaf_pairs (m : gmap Z Entry) (p : Z) : list (Z * Z) :=
  match m !! p with Some e => live (sort_kvs (kvs e)) | None => [] end.
Fixpoint tree_pairs (m : gmap Z Entry) (segs : list (Z * Z)) : list (Z * Z) :=
  match segs with
  | [] => []
  | (_, p) :: segs => leaf_pairs m p ++ tree_pairs m segs
  end.
(** All slots of the leaves of [segs], used or not. *)
Fixpoint tree_slots (m : gmap Z Entry) (segs : list (Z * Z)) : list (Z * Z) :=
  match segs with
  | [] => []
  | (_, p) :: segs => match m !! p with Some e => kvs e | None => [] end ++ tree_slots m segs
  end.

Section pairs.
Implicit Types (m : gmap Z Entry) (segs l : list (Z * Z)) (e : Entry).

Lemma live_sorted l : StronglySorted kv_le l → StronglySorted kv_le (live l).
Proof. apply MapIndex.sorted_filter. Qed.

Lemma sorted_app l1 l2 :
  StronglySorted kv_le l1 → StronglySorted kv_le l2 →
  (∀ a b, a ∈ l1 → b ∈ l2 → a.1 ≤ b.1) → StronglySorted kv_le (l1 ++ l2).
Proof.
  induction 1 as [|x l1 Hs IH Hx]; intros H2 H12; cbn; [done|].
  constructor.
  - apply IH; [done|]. intros a b Ha Hb. apply H12; [by right|done].
  - apply Forall_app. split; [done|]. apply list.Forall_forall. intros b Hb.
    apply H12; [left|done].
Qed.

Lemma elem_of_leaf_pairs e x v :
  entry_wf e → (x, v) ∈ live (sort_kvs (kvs e)) ↔ contents e !! x = Some v.
Proof.
  intros [_ Hnd]. rewrite (live_perm _ _ (sort_kvs_perm (kvs e))). unfold contents.
  by apply elem_of_list_to_map.
Qed.

Lemma leaf_pairs_nodup e : entry_wf e → NoDup (live (sort_kvs (kvs e))).*1.
Proof. intros [_ Hnd]. by rewrite (live_perm _ _ (sort_kvs_perm (kvs e))). Qed.

Lemma leaf_pairs_map e :
  entry_wf e → list_to_map (live (sort_kvs (kvs e))) = contents e.
Proof.
  intros Hwf. apply list_to_map_proper; [by apply leaf_pairs_nodup|].
  apply live_perm, sort_kvs_perm.
Qed.

Lemma tree_pairs_spec m segs hi nx :
  chain m segs hi nx →
  StronglySorted kv_le (tree_pairs m segs) ∧
  list_to_map (tree_pairs m segs) = tree_map m segs ∧ NoDup (tree_pairs m segs).*1 ∧
  (∀ x v, (x, v) ∈ tree_pairs m segs → hd_key segs hi ≤ x < hi).
Proof.
  induction segs as [|[k p] segs IH]; cbn.
  { intros _. split_and!; [constructor|done|constructor|]. by intros x v ?%not_elem_of_nil. }
  intros [(_ & ? & e & He & _ & Hwf & Hb & _) Hc]. destruct (IH Hc) as (Hs & Hm & Hnd & Hbs).
  pose proof (chain_bounds _ _ _ _ Hc). unfold leaf_pairs, leaf_map. rewrite He.
  assert (∀ x v, (x, v) ∈ live (sort_kvs (kvs e)) → k ≤ x < hd_key segs hi) as Hb'.
  { intros x v ?%elem_of_leaf_pairs; [|done]. by apply Hb with v. }
  split_and!.
  - apply sorted_app; [apply live_sorted, sort_kvs_sorted|done|].
    intros [a v] [b w] Ha%Hb' Hb2%Hbs. cbn. lia.
  - by rewrite list_to_map_app, Hm, leaf_pairs_map.
  - rewrite fmap_app. apply NoDup_app. split_and!; [by apply leaf_pairs_nodup| |done].
    intros x [v Hx]%elem_of_fst_inv [w Hw]%elem_of_fst_inv.
    apply Hb' in Hx. apply Hbs in Hw. lia.
  - intros x v [Hx%Hb'|Hx%Hbs]%elem_of_app; lia.
Qed.

(** The concatenation of the sorted leaves is the sorted map. *)
Lemma tree_pairs_sorted_map m segs hi nx :
  chain m segs hi nx → tree_pairs m segs = sort_kvs (map_to_list (tree_map m segs)).
Proof.
  intros Hc. destruct (tree_pairs_spec _ _ _ _ Hc) as (Hs & Hm & Hnd & _).
  apply sort_kvs_unique; [apply NoDup_fst_map_to_list|done|].
  rewrite <- Hm. symmetry. by apply map_to_list_to_map.
Qed.

Lemma tree_pairs_app m l1 l2 : tree_pairs m (l1 ++ l2) = tree_pairs m l1 ++ tree_pairs m l2.
Proof.
  induction l1 as [|[k p] l1 IH]; cbn; [done|]. by rewrite IH, app_assoc.
Qed.

Lemma filter_kv_none (P : Z * Z → Prop) `{∀ x, Decision (P x)} l :
  (∀ k v, (k, v) ∈ l → ¬ P (k, v)) → filter P l = [].
Proof. intros Hn. apply filter_none, list.Forall_forall. intros [k v]. apply Hn. Qed.

Lemma filter_kv_all (P : Z * Z → Prop) `{∀ x, Decision (P x)} l :
  (∀ k v, (k, v) ∈ l → P (k, v)) → filter P l = l.
Proof. intros Hn. apply filter_all, list.Forall_forall. intros [k v]. apply Hn. Qed.

(** The slots of a sorted array from the first key at least [x] on. *)
Lemma sorted_from l x :
  0 < x → StronglySorted kv_le l →
  match list_find (λ kv : Z * Z, x ≤ kv.1) l with
  | Some (i, _) => drop i l = filter (λ kv : Z * Z, x ≤ kv.1) (live l) ∧ (i < length l)%nat
  | None => filter (λ kv : Z * Z, x ≤ kv.1) (live l) = []
  end.
Proof.
  intros Hx Hs. destruct (list_find _ l) as [[i kv]|] eqn:E.
  - apply list_find_Some in E as (Hi & Hk & Hmin).
    split; [|by apply lookup_lt_Some in Hi].
    rewrite <- (take_drop i l) at 2. rewrite live_app, list.filter_app.
    rewrite (filter_kv_none _ (live (take i l))).
    + rewrite (drop_S _ _ _ Hi) in *. cbn [app].
      assert (∀ k v, (k, v) ∈ kv :: drop (S i) l → x ≤ k) as Hge.
      { intros k v [<-|Hin]%elem_of_cons; [done|].
        rewrite <- (take_drop_middle _ _ _ Hi) in Hs.
        clear -Hs Hk Hin. induction (take i l) as [|y l' IH]; cbn in Hs.
        - apply StronglySorted_inv in Hs as [_ Hf]. rewrite list.Forall_forall in Hf.
          specialize (Hf _ Hin). unfold kv_le in Hf. cbn in Hf. lia.
        - apply StronglySorted_inv in Hs as [Hs _]. by apply IH. }
      rewrite live_all.
      * symmetry. apply filter_kv_all. exact Hge.
      * apply list.Forall_forall. intros [k v] Hin. specialize (Hge _ _ Hin). cbn. lia.
    + intros k v [_ Hin]%elem_of_live Hge.
      apply list_elem_of_lookup in Hin as [j Hj]. apply lookup_take_Some in Hj as [Hj ?].
      by apply (Hmin j (k, v)).
  - apply filter_kv_none. intros k v [_ Hin]%elem_of_live.
    apply list_find_None in E. rewrite list.Forall_forall in E. by apply E.
Qed.
End pairs.

(** The last loop pushes up to [size - cnt] stored pairs of a leaf. *)
Lemma scan_push_spec l size cnt results :
  0 ≤ cnt < size →
  scan_push l size cnt results =
    let n := Z.to_nat (size - cnt) in
    if bool_decide (n ≤ length (live l))%nat then (true, size, results ++ take n (live l))
    else (false, cnt + Z.of_nat (length (live l)), results ++ live l).
Proof.
  cbn zeta. revert cnt results. induction l as [|[k v] l IH]; intros cnt results Hc.
  { cbn [scan_push]. rewrite bool_decide_eq_false_2 by (cbn; lia).
    cbn. by rewrite Z.add_0_r, app_nil_r. }
  cbn [scan_push fst]. rewrite live_cons.
  destruct (decide (k = 0)) as [->|Hk].
  { rewrite bool_decide_eq_true_2 by done. by apply IH. }
  rewrite bool_decide_eq_false_2 by done. cbn [length].
  destruct (decide (cnt + 1 = size)) as [He|Hne].
  - rewrite bool_decide_eq_true_2 by done.
    replace (Z.to_nat (size - cnt)) with 1%nat by lia.
    rewrite bool_decide_eq_true_2 by lia. by rewrite He.
  - rewrite bool_decide_eq_false_2 by done. rewrite IH by lia.
    replace (Z.to_nat (size - cnt)) with (S (Z.to_nat (size - (cnt + 1)))) by lia.
    cbn [take]. destruct (decide (Z.to_nat (size - (cnt + 1)) ≤ length (live l))%nat).
    + rewrite !bool_decide_eq_true_2 by lia. by rewrite <- app_assoc.
    + rewrite !bool_decide_eq_false_2 by lia. rewrite <- app_assoc. cbn. f_equal. f_equal. lia.
Qed.

Section scan.
Context `{OrderedIndexLaws idx}.
Implicit Types (s : EPLTree idx) (segs : list (Z * Z)).

Lemma scan_end_spec s segs hi fuel cnt size results :
  chain (nvm s) segs hi 0 → (length segs ≤ fuel)%nat → 0 ≤ cnt < size →
  scan_end fuel (hd_ptr segs 0) size cnt results s
    = Ret (results ++ take (Z.to_nat (size - cnt)) (tree_pairs (nvm s) segs)).
Proof.
  revert fuel cnt results. induction segs as [|[k p] segs IH]; intros fuel cnt results Hc Hf Hcnt.
  { destruct fuel; cbn; by rewrite take_nil, app_nil_r. }
  cbn in Hf. destruct fuel as [|fuel]; [lia|].
  cbn [chain] in Hc. destruct Hc as [(Hp & _ & e & He & Hn & _) Hc].
  cbn [scan_end hd_ptr tree_pairs]. rewrite bool_decide_eq_false_2 by done.
  rewrite (load_at _ _ e), res_bind_ret by done. rewrite scan_push_spec by done.
  unfold leaf_pairs. rewrite He. cbn zeta. set (pl := live (sort_kvs (kvs e))).
  case_bool_decide as Hle.
  - by rewrite take_app_le by lia.
  - rewrite Hn, IH by (done || lia). rewrite <- app_assoc. do 2 f_equal.
    rewrite take_app_ge by lia. do 2 f_equal. lia.
Qed.

(** The first leaf of a scan: what is pushed, and how much. *)
Lemma Scan_first s l1 k p l2 e fuel start_key size results :
  tree_ok s (l1 ++ (k, p) :: l2) → nvm s !! p = Some e →
  k ≤ start_key < hd_key l2 UINT64_MAX → 0 < start_key → 0 < size →
  let t := sort_kvs (kvs e) in
  let d := filter (λ kv : Z * Z, start_key ≤ kv.1) (live t) in
  Scan fuel start_key size results s =
    if bool_decide (size ≤ Z.of_nat (length d))
    then Ret (STATUS_OK, results ++ take (Z.to_nat size) d)
    else let* '(stop, entry, cnt, results) :=
           scan_middle fuel (hd_ptr l2 0) size (Z.of_nat (length d)) t (results ++ d) s in
         if stop : bool then Ret (STATUS_OK, results) else
         let* results := scan_end fuel entry size cnt results s in
         Ret (STATUS_OK, results).
Proof.
  intros Hok He Hk Hs0 Hsz t d. unfold Scan.
  rewrite (find_entry_at _ _ _ _ _ _ Hok Hk), res_bind_ret.
  pose proof (tree_ok_segment _ _ _ _ _ Hok) as (Hp & _ & e' & He' & Hn & [Hlen _] & _).
  simplify_eq. rewrite bool_decide_eq_false_2 by done.
  rewrite (load_at _ _ e), res_bind_ret by done. fold t. rewrite Hn.
  pose proof (sorted_from t start_key Hs0 (sort_kvs_sorted _)) as Hd. fold d in Hd.
  assert (length t = KVS_PER_ENTRY) as Ht by (unfold t; by rewrite sort_kvs_length).
  destruct (list_find _ t) as [[i kv]|].
  - destruct Hd as [Hd Hi]. rewrite Hd.
    assert (length d = KVS_PER_ENTRY - i)%nat as Hld by (rewrite <- Hd, length_drop; lia).
    destruct (decide (size ≤ Z.of_nat (length d))) as [Hle|Hgt].
    + rewrite (bool_decide_eq_true_2 (size ≤ _)) by done.
      rewrite Z.min_l by lia. rewrite bool_decide_eq_true_2 by lia.
      by replace (Z.of_nat i + size - Z.of_nat i) with size by lia.
    + rewrite (bool_decide_eq_false_2 (size ≤ _)) by done.
      rewrite Z.min_r by lia. rewrite bool_decide_eq_false_2 by lia.
      rewrite take_ge by lia.
      replace (Z.of_nat KVS_PER_ENTRY - Z.of_nat i) with (Z.of_nat (length d)) by lia. done.
  - rewrite Hd. cbn [length]. rewrite bool_decide_eq_false_2 by lia.
    by rewrite app_nil_r.
Qed.

Lemma scan_middle_skip fuel entry size cnt t results s :
  size - cnt < Z.of_nat KVS_PER_ENTRY →
  scan_middle fuel entry size cnt t results s = Ret (false, entry, cnt, results).
Proof. intros. destruct fuel; cbn [scan_middle]; by rewrite bool_decide_eq_false_2 by lia. Qed.

Lemma chain_suffix m l1 k p l2 hi nx : chain m (l1 ++ (k, p) :: l2) hi nx → chain m l2 hi nx.
Proof. by intros [_ [_ ?]]%chain_app. Qed.

(** C34: On a well-formed tree, from a key greater than 0, less than the maximum
    and not below the first routing key, a [Scan] of at least one and fewer than
    [KVS_PER_ENTRY] pairs terminates and appends exactly the first [size] stored
    pairs whose key is at least [start_key], in key order, however many leaves
    they are spread over. *)
Theorem Scan_correct s segs fuel start_key size results :
  tree_ok s segs → 0 < start_key < UINT64_MAX → hd_key segs 0 ≤ start_key →
  0 < size < Z.of_nat KVS_PER_ENTRY → (length segs ≤ fuel)%nat →
  Scan fuel start_key size results s =
    Ret (STATUS_OK, results ++ take (Z.to_nat size)
           (filter (λ kv : Z * Z, start_key ≤ kv.1)
              (sort_kvs (map_to_list (tree_map (nvm s) segs))))).
Proof.
  intros Hok Hs Hhd Hsz Hf. pose proof (ok_chain _ _ Hok) as Hc.
  rewrite <- (tree_pairs_sorted_map _ _ _ _ Hc).
  destruct (find_entry_spec s segs start_key Hok ltac:(lia)) as
    (l1 & k & p & l2 & e & -> & _ & _ & _ & He & _ & _ & _ & Hlt & _ & Hge).
  specialize (Hge Hhd).
  rewrite (Scan_first s l1 k p l2 e fuel start_key size results Hok He) by lia.
  cbn zeta. set (d := filter _ (live (sort_kvs (kvs e)))).
  assert (filter (λ kv : Z * Z, start_key ≤ kv.1) (tree_pairs (nvm s) (l1 ++ (k, p) :: l2))
    = d ++ tree_pairs (nvm s) l2) as ->.
  { pose proof Hc as [C1 [_ C2]]%chain_app. cbn in C1.
    destruct (tree_pairs_spec _ _ _ _ C1) as (_ & _ & _ & B1).
    destruct (tree_pairs_spec _ _ _ _ C2) as (_ & _ & _ & B2).
    rewrite tree_pairs_app. cbn. unfold leaf_pairs. rewrite He, !list.filter_app.
    rewrite filter_kv_none, (filter_kv_all _ (tree_pairs (nvm s) l2)); [done| |].
    - intros x v ?%B2. cbn. lia.
    - intros x v ?%B1. cbn. lia. }
  case_bool_decide as Hle.
  - by rewrite take_app_le by lia.
  - rewrite scan_middle_skip by lia. rewrite res_bind_ret.
    rewrite (scan_end_spec s l2 UINT64_MAX), res_bind_ret; [|by eapply chain_suffix| |lia].
    + rewrite <- app_assoc, take_app_ge by lia. do 5 f_equal. lia.
    + rewrite length_app in Hf. cbn in Hf. lia.
Qed.

(** The middle loop only appends, and always ends. *)
Lemma scan_middle_appends s segs hi fuel cnt size t results :
  chain (nvm s) segs hi 0 → (length segs ≤ fuel)%nat → 0 ≤ cnt < size →
  length t = KVS_PER_ENTRY →
  ∃ stop segs' cnt' more,
    scan_middle fuel (hd_ptr segs 0) size cnt t results s
      = Ret (stop, hd_ptr segs' 0, cnt', results ++ more) ∧
    chain (nvm s) segs' hi 0 ∧ (length segs' ≤ length segs)%nat ∧
    (stop = false → 0 ≤ cnt' < size) ∧
    (segs ≠ [] → Z.of_nat KVS_PER_ENTRY ≤ size - cnt → ∃ more', more = live t ++ more').
Proof.
  revert fuel cnt results. induction segs as [|[k p] segs IH]; intros fuel cnt results Hc Hf Hcnt Ht.
  { exists false, [], cnt, []. rewrite app_nil_r.
    split; [by destruct fuel|]. split_and!; [done..|lia|done]. }
  cbn in Hf. destruct fuel as [|fuel]; [lia|].
  pose proof Hc as [(Hp & _ & e & He & Hn & _) Hc'].
  cbn [scan_middle hd_ptr].
  destruct (decide (Z.of_nat KVS_PER_ENTRY ≤ size - cnt)) as [Hle|Hgt].
  - rewrite bool_decide_eq_true_2 by done.
    pose proof (live_length t) as Hlt.
    case_bool_decide as Heq.
    + exists true, ((k, p) :: segs), (cnt + Z.of_nat (length (live t))), (live t).
      split_and!; [done|done|done|done|]. intros _ _. exists []. by rewrite app_nil_r.
    + rewrite (load_at _ _ e), res_bind_ret, Hn by done.
      destruct (IH fuel (cnt + Z.of_nat (length (live t))) (results ++ live t)) as
        (stop & segs' & cnt' & more & -> & ? & ? & ? & _); [done|lia|lia|done|].
      exists stop, segs', cnt', (live t ++ more).
      split_and!; [by rewrite <- app_assoc|done|cbn; lia|done|]. intros _ _. by exists more.
  - rewrite bool_decide_eq_false_2 by lia.
    exists false, ((k, p) :: segs), cnt, []. rewrite app_nil_r. split_and!; done.
Qed.

(** The middle loop of [Scan] pushes the copy of the first leaf it
    made before the loop, not the leaf it has reached: whenever at least
    [KVS_PER_ENTRY] pairs are still wanted after the first leaf and there is
    a second one, the result holds the whole first leaf a second time. *)
Theorem Scan_repeats_first_leaf s l1 k p l2 e fuel start_key size results :
  tree_ok s (l1 ++ (k, p) :: l2) → nvm s !! p = Some e → l2 ≠ [] →
  k ≤ start_key < hd_key l2 UINT64_MAX → 0 < start_key →
  (length (l1 ++ (k, p) :: l2) ≤ fuel)%nat →
  let t := live (sort_kvs (kvs e)) in
  let d := filter (λ kv : Z * Z, start_key ≤ kv.1) t in
  Z.of_nat KVS_PER_ENTRY ≤ size - Z.of_nat (length d) →
  ∃ more, Scan fuel start_key size results s = Ret (STATUS_OK, results ++ d ++ t ++ more).
Proof.
  intros Hok He Hne Hk Hs0 Hf t d Hsz.
  assert (0 < Z.of_nat KVS_PER_ENTRY) by done.
  rewrite (Scan_first s l1 k p l2 e fuel start_key size results Hok He) by lia.
  cbn zeta. fold t d. rewrite bool_decide_eq_false_2 by lia.
  pose proof (chain_suffix _ _ _ _ _ _ _ (ok_chain _ _ Hok)) as Hc2.
  pose proof (tree_ok_segment _ _ _ _ _ Hok) as (_ & _ & e' & He' & _ & [Hlen _] & _).
  simplify_eq. rewrite length_app in Hf. cbn in Hf.
  destruct (scan_middle_appends s l2 UINT64_MAX fuel (Z.of_nat (length d)) size
    (sort_kvs (kvs e)) (results ++ d)) as (stop & segs' & cnt' & more & -> & Hc' & Hl' & Hcnt & Hmore);
    [done|lia|lia|by rewrite sort_kvs_length|].
  rewrite res_bind_ret. destruct (Hmore Hne Hsz) as [more' ->]. fold t.
  destruct stop.
  - exists more'. by rewrite <- !app_assoc.
  - rewrite (scan_end_spec s segs' UINT64_MAX), res_bind_ret by (done || lia || by apply Hcnt).
    eexists. by rewrite <- !app_assoc.
Qed.

(** ** Range scans *)
Lemma range_middle_spec s l1 k p l2 hi fuel results :
  chain (nvm s) (l1 ++ (k, p) :: l2) hi 0 → NoDup (l1 ++ (k, p) :: l2).*2 →
  (length l1 ≤ fuel)%nat →
  range_middle fuel (hd_ptr (l1 ++ (k, p) :: l2) 0) p results s
    = Ret (results ++ tree_slots (nvm s) l1).
Proof.
  revert fuel results. induction l1 as [|[k1 p1] l1 IH]; intros fuel results Hc Hnd Hf.
  { destruct fuel; cbn [range_middle hd_ptr app tree_slots]; rewrite bool_decide_eq_true_2 by done;
      by rewrite app_nil_r. }
  cbn in Hf. destruct fuel as [|fuel]; [lia|].
  cbn [app] in Hc, Hnd. destruct Hc as [(Hp1 & _ & e & He & Hn & _) Hc].
  cbn in Hnd. apply NoDup_cons in Hnd as [Hni Hnd].
  cbn [range_middle hd_ptr app tree_slots]. rewrite bool_decide_eq_false_2; [|intros ->; apply Hni].
  - rewrite (load_at _ _ e), res_bind_ret, Hn, He by done.
    rewrite IH by (done || lia). by rewrite <- app_assoc.
  - rewrite fmap_app. cbn. set_solver.
Qed.

(** A [RangeScan] whose two bounds fall into one leaf appends exactly
    the stored pairs of the range (in slot order). *)
Theorem RangeScan_one_leaf_correct s l1 k p l2 fuel start_key end_key results :
  tree_ok s (l1 ++ (k, p) :: l2) → 0 < start_key →
  k ≤ start_key < hd_key l2 UINT64_MAX → k ≤ end_key < hd_key l2 UINT64_MAX →
  ∃ l, RangeScan fuel start_key end_key results s = Ret (STATUS_OK, results ++ l) ∧
    l ≡ₚ filter (in_range start_key end_key)
           (map_to_list (tree_map (nvm s) (l1 ++ (k, p) :: l2))).
Proof.
  intros Hok Hs0 Hs He. pose proof (ok_chain _ _ Hok) as Hc.
  pose proof (tree_ok_segment _ _ _ _ _ Hok) as (Hp & _ & e & Hm & _ & Hwf & _).
  unfold RangeScan. rewrite !(find_entry_at _ _ _ _ _ _ Hok) by done. rewrite !res_bind_ret.
  rewrite (load_at _ _ e), res_bind_ret by done. rewrite bool_decide_eq_true_2 by done.
  eexists. split; [done|].
  rewrite <- (sort_kvs_perm (map_to_list _)), <- (tree_pairs_sorted_map _ _ _ _ Hc).
  pose proof Hc as [C1 [_ C2]]%chain_app. cbn in C1.
  destruct (tree_pairs_spec _ _ _ _ C1) as (_ & _ & _ & B1).
  destruct (tree_pairs_spec _ _ _ _ C2) as (_ & _ & _ & B2).
  rewrite tree_pairs_app. cbn. unfold leaf_pairs. rewrite Hm, !list.filter_app.
  rewrite (filter_kv_none _ (tree_pairs (nvm s) l1)), (filter_kv_none _ (tree_pairs (nvm s) l2)),
    app_nil_r.
  - cbn. rewrite (live_perm _ _ (sort_kvs_perm (kvs e))). unfold live.
    rewrite list_filter_filter. apply reflexive_eq. apply list_filter_iff.
    intros [x v]. unfold in_range, INVALID_KEY. cbn. lia.
  - intros x v ?%B2. unfold in_range. cbn. lia.
  - intros x v ?%B1. unfold in_range. cbn. lia.
Qed.

(** a [RangeScan] over several leaves appends the in-range pairs of the
    first leaf, then every slot of the first and the middle leaves, free ones
    included, then the in-range pairs of the last: the pairs of the first
    leaf come twice, and pairs outside the range and free slots come with
    them. *)
Theorem RangeScan_many_leaves s l1 k p l2 k' p' l3 e e' fuel start_key end_key results :
  tree_ok s (l1 ++ (k, p) :: l2 ++ (k', p') :: l3) →
  nvm s !! p = Some e → nvm s !! p' = Some e' →
  k ≤ start_key < hd_key (l2 ++ (k', p') :: l3) UINT64_MAX →
  k' ≤ end_key < hd_key l3 UINT64_MAX → (S (length l2) ≤ fuel)%nat →
  RangeScan fuel start_key end_key results s =
    Ret (STATUS_OK, results ++ filter (in_range start_key end_key) (kvs e)
                    ++ (kvs e ++ tree_slots (nvm s) l2)
                    ++ filter (in_range start_key end_key) (kvs e')).
Proof.
  intros Hok He He' Hs Hend Hf. pose proof (ok_chain _ _ Hok) as Hc.
  pose proof (tree_ok_segment _ _ _ _ _ Hok) as [Hp _].
  unfold RangeScan. rewrite (find_entry_at _ _ _ _ _ _ Hok Hs), res_bind_ret.
  assert (l1 ++ (k, p) :: l2 ++ (k', p') :: l3 = (l1 ++ (k, p) :: l2) ++ (k', p') :: l3) as E
    by (by rewrite <- app_assoc).
  pose proof Hok as Hok'. rewrite E in Hok'.
  pose proof (tree_ok_segment _ _ _ _ _ Hok') as [Hp' _].
  rewrite (find_entry_at _ _ _ _ _ _ Hok' Hend), res_bind_ret.
  rewrite (load_at p s e), res_bind_ret by done.
  apply chain_app in Hc as [_ Hc].
  pose proof (ok_nodup _ _ Hok) as Hnd. rewrite fmap_app in Hnd.
  apply NoDup_app in Hnd as (_ & _ & Hnd).
  rewrite bool_decide_eq_false_2.
  - rewrite (range_middle_spec s ((k, p) :: l2) k' p' l3 UINT64_MAX fuel _ Hc Hnd)
      by (cbn; lia).
    rewrite res_bind_ret, (load_at p' s e'), res_bind_ret by done.
    cbn [tree_slots]. rewrite He. by rewrite <- !app_assoc.
  - intros ->. cbn in Hnd. apply NoDup_cons in Hnd as [Hni _]. apply Hni.
    rewrite fmap_app. set_solver.
Qed.
End scan.

(** ** Witnesses *)
Module ScanWitness.
Export Witness.
Definition ins (l : list Z) : list op := (λ k, OpInsert k (k + 1)) <$> l.
Definition ops22 : list op := ins ((λ i, Z.of_nat i * 10) <$> seq 1 22).
(** Three leaves: 10 to 70, 80 to 140, 150 to 220. *)
Definition tree22 : EPLTree (gmap Z Z) :=
  get_tree (let* '(_, s) := run_ops ops22 tree0 in Ret s).

Lemma scan_tree22_ok : tree_ok tree22 [(0, 4096); (80, 4352); (150, 4608)].
Proof.
  destruct (run_ops_simulation 0 ops22 tree0 ∅) as (s & Hs & segs & Hok & _).
  - rewrite Nat.add_0_r. apply tree0_simulates. by apply (bool_decide_unpack _).
  - cbn. unfold valid_key. repeat split; vm_compute; done.
  - assert (tree22 = s) as E by (unfold tree22; by rewrite Hs). rewrite <- E in Hok.
    assert (sort_kvs (map_to_list (idx_map (index tree22))) = [(0, 4096); (80, 4352); (150, 4608)])
      as Hsegs by (vm_compute; reflexivity).
    by rewrite (tree_ok_segs _ _ Hok), Hsegs in Hok.
Qed.

Definition leaf_at (p : Z) : Entry := default zero_Entry (nvm tree22 !! p).
End ScanWitness.
Import MapIndex.

Lemma Scan_correct_witness :
  Scan 3 65 9 [] ScanWitness.tree22 = Ret (STATUS_OK,
    [(70, 71); (80, 81); (90, 91); (100, 101); (110, 111); (120, 121); (130, 131);
     (140, 141); (150, 151)]).
Proof.
  rewrite (Scan_correct ScanWitness.tree22 _ 3 65 9 [] ScanWitness.scan_tree22_ok).
  - vm_compute. reflexivity.
  - split; vm_compute; reflexivity.
  - cbn. lia.
  - split; vm_compute; reflexivity.
  - apply le_n.
Defined.

Lemma Scan_repeats_first_leaf_witness :
  ∃ more, Scan 3 10 21 [] ScanWitness.tree22 = Ret (STATUS_OK,
    ((λ k, (k, k + 1)) <$> [10; 20; 30; 40; 50; 60; 70]) ++
    ((λ k, (k, k + 1)) <$> [10; 20; 30; 40; 50; 60; 70]) ++ more).
Proof.
  apply (Scan_repeats_first_leaf ScanWitness.tree22 [] 0 4096 [(80, 4352); (150, 4608)]
    (ScanWitness.leaf_at 4096) 3 10 21 [] ScanWitness.scan_tree22_ok).
  - vm_compute. reflexivity.
  - discriminate.
  - cbn. lia.
  - lia.
  - apply le_n.
  - vm_compute. discriminate.
Defined.

Lemma RangeScan_one_leaf_correct_witness :
  ∃ l, RangeScan 0 85 125 [] ScanWitness.tree22 = Ret (STATUS_OK, l) ∧
    l ≡ₚ filter (in_range 85 125) (map_to_list
           (tree_map (nvm ScanWitness.tree22) [(0, 4096); (80, 4352); (150, 4608)])).
Proof.
  apply (RangeScan_one_leaf_correct ScanWitness.tree22 [(0, 4096)] 80 4352 [(150, 4608)]
    0 85 125 [] ScanWitness.scan_tree22_ok); cbn; lia.
Defined.

Lemma RangeScan_many_leaves_witness :
  RangeScan 2 60 150 [] ScanWitness.tree22 = Ret (STATUS_OK, []
    ++ filter (in_range 60 150) (kvs (ScanWitness.leaf_at 4096))
    ++ (kvs (ScanWitness.leaf_at 4096) ++ tree_slots (nvm ScanWitness.tree22) [(80, 4352)])
    ++ filter (in_range 60 150) (kvs (ScanWitness.leaf_at 4608))).
Proof.
  apply (RangeScan_many_leaves ScanWitness.tree22 [] 0 4096 [(80, 4352)] 150 4608 []
    (ScanWitness.leaf_at 4096) (ScanWitness.leaf_at 4608) 2 60 150 [] ScanWitness.scan_tree22_ok).
  - vm_compute. reflexivity.
  - vm_compute. reflexivity.
  - cbn. lia.
  - cbn. vm_compute. split; [discriminate|reflexivity].
  - apply le_n.
Defined.
