(* ===== verification/Persist.v ===== *)
(** * Persistent memory ([src/pmem.h], [NVM::Mem_persist])

    Stores reach persistent memory when their cache line is written back.  The
    machine keeps what is durable and a buffer of the stores that are not yet;
    a line may be evicted at any time, oldest store first, so that the durable
    contents of a line are those after some prefix of the stores to it, each
    line with its own prefix.  [clflush] starts the write-back of a line and
    [fence] waits for it; [pmem_persist] (libpmem) does both for a range.  A
    crash leaves what is durable.

    Memory is made of the 8-byte fields of leaf entries, which are stored
    atomically.  Stores are taken in the order of the program, and [memset]
    goes upwards. *)
From S2P Require Import Prelude Entry.

(** ** The cells of a leaf *)
Inductive field : Type := FNext | FMinKey | FFlag | FKey (i : nat) | FVal (i : nat).
#[export] Instance field_eq_dec : EqDecision field.
Proof. solve_decision. Defined.

(** [struct Entry]: [next], [min_key], [flag] (padded to 8 bytes), [kvs]. *)
Definition offset (f : field) : Z :=
  match f with
  | FNext => 0
  | FMinKey => 8
  | FFlag => 16
  | FKey i => 24 + 16 * Z.of_nat i
  | FVal i => 32 + 16 * Z.of_nat i
  end.
Definition cell : Type := (Z * field)%type.
Definition address (c : cell) : Z := c.1 + offset c.2.

Definition CACHE_LINE_SIZE : Z := 64.
(** [(unsigned long)data & ~(CACHE_LINE_SIZE - 1)] *)
Definition line_of (data : Z) : Z := Z.land data (Z.lnot (CACHE_LINE_SIZE - 1)).
Definition line (c : cell) : Z := line_of (address c).

Definition mem : Type := cell → Z.
Definition upd (m : mem) (s : cell * Z) : mem := λ c, if decide (c = s.1) then s.2 else m c.
Definition apply (m : mem) (l : list (cell * Z)) : mem := fold_left upd l m.

(** ** The instructions and the machine *)
Inductive event : Type :=
| Store (c : cell) (v : Z)
| Flush (l : Z)
| Fence
| Persist (addr len : Z).

Definition clflush (data : Z) : event := Flush (line_of data).
Definition fence : event := Fence.

(** A buffered store, and whether its write-back has been started. *)
Definition buffered : Type := (cell * Z * bool)%type.
Record pstate : Type := PState { durable : mem; buffer : list buffered }.

Definition mark (l : Z) (x : buffered) : buffered :=
  if decide (line x.1.1 = l) then (x.1, true) else x.
Definition marked (b : list buffered) : list (cell * Z) := (filter (λ x : buffered, x.2 = true) b).*1.
Definition unmarked (b : list buffered) : list buffered := filter (λ x : buffered, x.2 ≠ true) b.
Definition in_lines (addr len : Z) (x : buffered) : Prop :=
  line_of addr ≤ line x.1.1 < addr + len.
#[export] Instance in_lines_dec addr len x : Decision (in_lines addr len x).
Proof. unfold in_lines. apply _. Defined.

Inductive pstep : list event * pstate → list event * pstate → Prop :=
| step_store c v t d b :
    pstep (Store c v :: t, PState d b) (t, PState d (b ++ [(c, v, false)]))
| step_flush l t d b :
    pstep (Flush l :: t, PState d b) (t, PState d (mark l <$> b))
| step_fence t d b :
    pstep (Fence :: t, PState d b) (t, PState (apply d (marked b)) (unmarked b))
| step_persist addr len t d b :
    pstep (Persist addr len :: t, PState d b)
      (t, PState (apply d (filter (in_lines addr len) b).*1) (filter (λ x, ¬ in_lines addr len x) b))
| step_evict t d b1 x b2 :
    Forall (λ y : buffered, line y.1.1 ≠ line x.1.1) b1 →
    pstep (t, PState d (b1 ++ x :: b2)) (t, PState (upd d x.1) (b1 ++ b2)).

Definition psteps : list event * pstate → list event * pstate → Prop := rtc pstep.

(** The stores of a trace, and those to one line. *)
Definition stores (t : list event) : list (cell * Z) :=
  omap (λ e, match e with Store c v => Some (c, v) | _ => None end) t.
Definition on_line (l : Z) (s : list (cell * Z)) : list (cell * Z) := filter (λ x, line x.1 = l) s.
Definition pend (l : Z) (b : list buffered) : list buffered := filter (λ x : buffered, line x.1.1 = l) b.

(** How many stores to a line a trace makes, how many of them have their
    write-back started, and how many are certainly durable. *)
Fixpoint counts (l : Z) (t : list event) (n m s : nat) : nat * nat * nat :=
  match t with
  | [] => (n, m, s)
  | Store c _ :: t => counts l t (if decide (line c = l) then S n else n) m s
  | Flush l' :: t => counts l t n (if decide (l' = l) then n else m) s
  | Fence :: t => counts l t n m (Nat.max s m)
  | Persist a len :: t =>
      if decide (line_of a ≤ l < a + len) then counts l t n n n else counts l t n m s
  end.
Definition safe (l : Z) (t : list event) : nat := (counts l t 0 0 0).2.

(** ** Memory *)
Section mem.
Implicit Types (m : mem) (c : cell) (l : Z) (s : list (cell * Z)).

Lemma apply_app m s1 s2 : apply m (s1 ++ s2) = apply (apply m s1) s2.
Proof. apply fold_left_app. Qed.

Lemma apply_cons m x s : apply m (x :: s) = apply (upd m x) s.
Proof. done. Qed.

Lemma apply_ext m m' s c : m c = m' c → apply m s c = apply m' s c.
Proof.
  revert m m'. induction s as [|x s IH]; intros m m' E; [done|]. rewrite !apply_cons. apply IH.
  unfold upd. by case_decide.
Qed.

(** Stores to other cells than those of [P] do not matter for a cell of [P]. *)
Lemma apply_filter (P : cell → Prop) `{!∀ c, Decision (P c)} m s c :
  P c → apply m s c = apply m (filter (λ x, P x.1) s) c.
Proof.
  intros Hc. revert m. induction s as [|x s IH]; intros m; [done|]. rewrite filter_cons, apply_cons.
  case_decide as Hx; [by rewrite apply_cons|]. rewrite IH. apply apply_ext.
  unfold upd. rewrite decide_False; [done|]. by intros ->.
Qed.
Lemma apply_line m s c : apply m s c = apply m (on_line (line c) s) c.
Proof. exact (apply_filter (λ c', line c' = line c) m s c eq_refl). Qed.

Lemma apply_notin m s c : c ∉ s.*1 → apply m s c = m c.
Proof.
  revert m. induction s as [|x s IH]; intros m Hc; [done|].
  apply not_elem_of_cons in Hc as [Hx Hc]. rewrite apply_cons, IH by done. unfold upd. by rewrite decide_False.
Qed.

(** A cell that is only given one value. *)
Lemma apply_const m s c v : c ∈ s.*1 → (∀ w, (c, w) ∈ s → w = v) → apply m s c = v.
Proof.
  revert m. induction s as [|[c' w] s IH] using rev_ind; intros m Hc Hv; [by apply not_elem_of_nil in Hc|].
  rewrite apply_app. cbn [apply fold_left]. unfold upd. cbn [fst snd]. case_decide as E.
  - subst c'. apply Hv, elem_of_app. right; left.
  - apply IH; [|intros w' Hw; apply Hv, elem_of_app; by left].
    rewrite fmap_app in Hc. apply elem_of_app in Hc as [?|Hc]; [done|]. apply list_elem_of_singleton in Hc. by cbn in Hc.
Qed.
End mem.

Lemma line_of_div a : line_of a = 64 * (a / 64).
Proof.
  unfold line_of, CACHE_LINE_SIZE. rewrite <- Z.ldiff_land. change (64 - 1) with (Z.ones 6).
  rewrite Z.ldiff_ones_r, Z.shiftl_mul_pow2, Z.shiftr_div_pow2 by lia. change (2 ^ 6) with 64. lia.
Qed.

(** ** What survives a crash *)
Section crash.
Implicit Types (l : Z) (t done rest : list event) (b : list buffered) (st : pstate).

Lemma stores_app t1 t2 : stores (t1 ++ t2) = stores t1 ++ stores t2.
Proof. apply omap_app. Qed.
Lemma on_line_app l s1 s2 : on_line l (s1 ++ s2) = on_line l s1 ++ on_line l s2.
Proof. apply filter_app. Qed.

Lemma counts_app l t1 t2 n m s :
  counts l (t1 ++ t2) n m s = (let '(n, m, s) := counts l t1 n m s in counts l t2 n m s).
Proof.
  revert n m s. induction t1 as [|[c v|l'| |a len] t1 IH]; intros n m s; cbn [app counts]; [done|done|done|done|].
  by case_decide.
Qed.

(** The stores to a line: durable ones, those being written back, the rest;
    exactly as [counts] says as long as nothing was evicted. *)
Definition line_state (evicted : bool) l (d0 : mem) (p : list (cell * Z)) (n m s : nat) st : Prop :=
  ∃ a b1 b2 : list (cell * Z), p = a ++ b1 ++ b2 ∧ n = length p ∧
    pend l (buffer st) = ((λ x, (x, true)) <$> b1) ++ ((λ x, (x, false)) <$> b2) ∧
    (∀ c, line c = l → durable st c = apply d0 a c) ∧
    (s ≤ length a)%nat ∧ (m ≤ length a + length b1)%nat ∧
    (evicted = false → s = length a ∧ m = length a + length b1)%nat.

Lemma mark_cell l x : (mark l x).1 = x.1.
Proof. unfold mark. by case_decide. Qed.

Lemma pend_cons l x b : pend l (x :: b) = if decide (line x.1.1 = l) then x :: pend l b else pend l b.
Proof. unfold pend. by rewrite filter_cons. Qed.

Lemma pend_mark l l' b :
  pend l (mark l' <$> b) = if decide (l' = l) then (λ x, (x.1, true)) <$> pend l b else pend l b.
Proof.
  induction b as [|x b IH]; [by case_decide|]. rewrite fmap_cons, !pend_cons, mark_cell, IH.
  destruct (decide (line x.1.1 = l)) as [Hx|Hx]; [|by case_decide]. unfold mark. rewrite Hx.
  destruct (decide (l' = l)) as [->|Hl]; [by rewrite decide_True|by rewrite decide_False].
Qed.

(** A filter of the buffer that is constant on a line. *)
Lemma pend_filter (P : buffered → Prop) `{!∀ x, Decision (P x)} l b :
  pend l (filter P b) = filter P (pend l b).
Proof.
  induction b as [|x b IH]; [done|]. rewrite filter_cons, pend_cons. case_decide as HP.
  - rewrite pend_cons, IH. case_decide; [by rewrite filter_cons_True|done].
  - rewrite IH. case_decide; [by rewrite filter_cons_False|done].
Qed.

Lemma on_line_fst l b : on_line l b.*1 = (pend l b).*1.
Proof.
  induction b as [|x b IH]; [done|]. rewrite fmap_cons, pend_cons. unfold on_line in *.
  rewrite filter_cons, IH. by case_decide.
Qed.

Lemma filter_true (b1 b2 : list (cell * Z)) :
  filter (λ x : buffered, x.2 = true) (((λ x, (x, true)) <$> b1) ++ ((λ x, (x, false)) <$> b2)) = (λ x, (x, true)) <$> b1.
Proof.
  rewrite filter_app, filter_all, filter_none, app_nil_r; [done|..]; apply list.Forall_forall; intros x (y & -> & _)%list_elem_of_fmap; done.
Qed.
Lemma filter_false (b1 b2 : list (cell * Z)) :
  filter (λ x : buffered, x.2 ≠ true) (((λ x, (x, true)) <$> b1) ++ ((λ x, (x, false)) <$> b2)) = (λ x, (x, false)) <$> b2.
Proof.
  rewrite filter_app, filter_none, (filter_all _ (_ <$> b2)); [done|..]; apply list.Forall_forall; intros x (y & -> & _)%list_elem_of_fmap; cbn; [done|tauto].
Qed.
Lemma fst_marks (k : bool) (b : list (cell * Z)) : ((λ x, (x, k)) <$> b).*1 = b.
Proof. rewrite <- list_fmap_compose. apply list_fmap_id. Qed.

Lemma line_state_event ev l d0 p n m s e d b d' b' :
  line_state ev l d0 p n m s (PState d b) → pstep ([e], PState d b) ([], PState d' b') →
  (let '(n, m, s) := counts l [e] n m s in line_state ev l d0 (p ++ on_line l (stores [e])) n m s (PState d' b')).
Proof.
  intros (a & b1 & b2 & Hp & Hn & Hpend & Hd & Hs & Hm & Hev) Hstep. cbn [durable buffer] in *.
  inversion Hstep as [c v t d1 b0|l' t d1 b0|t d1 b0|a' len t d1 b0|]; subst; cbn [counts stores omap list_omap].
  - unfold on_line. rewrite filter_cons. change (filter (λ x, line x.1 = l) []) with ([] : list (cell * Z)).
    cbn [fst]. case_decide as Hl.
    + exists a, b1, (b2 ++ [(c, v)]). rewrite <- !app_assoc. split; [done|]. rewrite !length_app. cbn [length].
      split; [lia|]. split_and!; [|done|done|done|done]. cbn [buffer]. unfold pend in *. rewrite filter_app, Hpend, fmap_app, <- app_assoc.
      by rewrite filter_cons_True.
    + rewrite app_nil_r. exists a, b1, b2. split_and!; [done|done| |done|done|done|done]. cbn [buffer]. unfold pend in *.
      rewrite filter_app, Hpend, (filter_cons_False _ (c, v, false)), app_nil_r; done.
  - rewrite app_nil_r. case_decide as Hl.
    + exists a, (b1 ++ b2), []. rewrite !length_app, !app_nil_r. split; [done|]. split; [done|]. split_and!; [|done|done|lia|intros E; specialize (Hev E); lia].
      cbn [buffer]. rewrite pend_mark, decide_True, Hpend, fmap_app by done. rewrite <- !list_fmap_compose, fmap_app. done.
    + exists a, b1, b2. split_and!; [done|done| |done|done|done|done]. cbn [buffer]. by rewrite pend_mark, decide_False.
  - rewrite app_nil_r. exists (a ++ b1), [], b2. rewrite <- app_assoc, !length_app. cbn [length buffer durable fmap list_fmap app].
    split_and!; [done|done| | |lia|lia|intros E; try specialize (Hev E); lia].
    + unfold unmarked. by rewrite pend_filter, Hpend, filter_false.
    + intros c Hc. rewrite apply_line. unfold marked. rewrite Hc, on_line_fst, pend_filter, Hpend, filter_true, fst_marks, apply_app.
      by apply apply_ext, Hd.
  - rewrite app_nil_r. case_decide as Hl.
    + exists (a ++ b1 ++ b2), [], []. rewrite !app_nil_r, !length_app. cbn [length buffer durable fmap list_fmap app].
      assert (∀ x, x ∈ pend l b → in_lines a' len x) as Hin.
      { intros x [Hx _]%list_elem_of_filter. unfold in_lines. by rewrite Hx. }
      split_and!; [done|done| | |lia|lia|intros E; try specialize (Hev E); lia].
      * rewrite pend_filter. apply filter_none, list.Forall_forall. intros x Hx Hx'. by apply Hx', Hin.
      * intros c Hc. rewrite apply_line, Hc, on_line_fst, pend_filter, filter_all by (by apply list.Forall_forall).
        rewrite Hpend, fmap_app, !fst_marks, (apply_app d0 a). by apply apply_ext, Hd.
    + assert (∀ x, x ∈ pend l b → ¬ in_lines a' len x) as Hin.
      { intros x [Hx _]%list_elem_of_filter. unfold in_lines. by rewrite Hx. }
      exists a, b1, b2. cbn [buffer durable]. split_and!; [done|done| | |done|done|done].
      * by rewrite pend_filter, filter_all by (by apply list.Forall_forall).
      * intros c Hc. rewrite apply_line, Hc, on_line_fst, pend_filter, filter_none by (by apply list.Forall_forall).
        by apply Hd.
Qed.

Lemma line_state_evict y0 l d0 p n m s d b1 x b2 :
  Forall (λ y : buffered, line y.1.1 ≠ line x.1.1) b1 →
  line_state y0 l d0 p n m s (PState d (b1 ++ x :: b2)) → line_state true l d0 p n m s (PState (upd d x.1) (b1 ++ b2)).
Proof.
  intros Hb (a & c1 & c2 & Hp & Hn & Hpend & Hd & Hs & Hm & _). cbn [durable buffer] in *.
  assert (∀ b, pend l (b1 ++ b) = pend l b1 ++ pend l b) as Happ by (intros; apply filter_app).
  rewrite Happ, pend_cons in Hpend. destruct (decide (line x.1.1 = l)) as [Hl|Hl].
  - assert (pend l b1 = []) as Hnil.
    { apply filter_none. eapply Forall_impl; [exact Hb|]. cbn. intros y Hy. by rewrite <- Hl. }
    rewrite Hnil in Hpend. cbn [app] in Hpend.
    assert (∀ c, line c = l → upd d x.1 c = apply d0 (a ++ [x.1]) c) as Hd'.
    { intros c Hc. rewrite apply_app. cbn [apply fold_left]. unfold upd. case_decide; [done|by apply Hd]. }
    destruct c1 as [|y c1].
    + destruct c2 as [|y c2]; [done|]. cbn in Hpend. injection Hpend as -> Hpend.
      exists (a ++ [y]), [], c2. rewrite <- app_assoc, length_app. cbn [length durable buffer].
      split_and!; [done|done| |exact Hd'|lia|cbn in *; lia|done]. by rewrite Happ, Hnil.
    + cbn in Hpend. injection Hpend as -> Hpend.
      exists (a ++ [y]), c1, c2. rewrite <- app_assoc, length_app. cbn [length durable buffer] in *.
      split_and!; [done|done| |exact Hd'|lia|lia|done]. by rewrite Happ, Hnil.
  - exists a, c1, c2. cbn [durable buffer]. split_and!; [done|done|by rewrite Happ| |done|done|done].
    intros c Hc. unfold upd. rewrite decide_False; [by apply Hd|]. intros ->. by rewrite Hc in Hl.
Qed.

(** What a crash leaves of a line that was durable at the start. *)
Theorem line_crash t st rest st' :
  psteps (t, st) (rest, st') →
  ∃ done, t = done ++ rest ∧ ∀ l, pend l (buffer st) = [] →
    ∃ a, a `prefix_of` on_line l (stores done) ∧ (safe l done ≤ length a)%nat ∧
      ∀ c, line c = l → durable st' c = apply (durable st) a c.
Proof.
  intros Hsteps. set (P := λ cf : list event * pstate, ∃ done, t = done ++ cf.1 ∧ ∀ l, pend l (buffer st) = [] →
    let '(n, m, s) := counts l done 0 0 0 in line_state true l (durable st) (on_line l (stores done)) n m s cf.2).
  assert (P (rest, st')) as (done & -> & H).
  { remember (rest, st') as cf eqn:Ecf. clear Ecf rest st'.
    revert cf Hsteps. apply (rtc_ind_r (R := pstep) P (t, st)).
    - exists []. split; [done|]. intros l Hl. exists [], [], []. cbn. rewrite Hl. split_and!; done || lia.
    - intros [t1 st1] [t2 st2] _ Hstep (done & E & IH). unfold P. cbn [fst snd] in *.
      assert (t1 = t2 ∧ (∃ d b1 x b2, Forall (λ y : buffered, line y.1.1 ≠ line x.1.1) b1 ∧ st1 = PState d (b1 ++ x :: b2) ∧
          st2 = PState (upd d x.1) (b1 ++ b2)) ∨ ∃ e, t1 = e :: t2 ∧ pstep ([e], st1) ([], st2)) as [[-> Hev]|(e & -> & He)].
      { inversion Hstep; subst; [right; eexists; split; [done|constructor]..|left; split; [done|by eexists _, _, _, _]]. }
      + exists done. split; [done|]. intros l Hl. specialize (IH l Hl).
        destruct Hev as (d & b1 & x & b2 & Hb & -> & ->). destruct (counts l done 0 0 0) as [[n m] s].
        by eapply line_state_evict.
      + exists (done ++ [e]). rewrite <- app_assoc. split; [done|]. intros l Hl. specialize (IH l Hl).
        rewrite counts_app, stores_app, on_line_app. destruct (counts l done 0 0 0) as [[n m] s].
        destruct st1 as [d b], st2 as [d' b']. by apply (line_state_event true l (durable st) _ n m s e d b d' b'). }
  exists done. split; [done|]. intros l Hl. specialize (H l Hl). unfold safe.
  destruct (counts l done 0 0 0) as [[n m] s]. destruct H as (a & b1 & b2 & -> & _ & _ & Hd & Hs & _).
  exists a. split; [by eexists|done].
Qed.

(** ** Crashes that can happen *)
Definition exec1 (e : event) st : pstate :=
  match e with
  | Store c v => PState (durable st) (buffer st ++ [(c, v, false)])
  | Flush l => PState (durable st) (mark l <$> buffer st)
  | Fence => PState (apply (durable st) (marked (buffer st))) (unmarked (buffer st))
  | Persist a len =>
      PState (apply (durable st) (filter (in_lines a len) (buffer st)).*1)
        (filter (λ x, ¬ in_lines a len x) (buffer st))
  end.
Definition exec (t : list event) st : pstate := fold_left (λ st e, exec1 e st) t st.

Lemma exec1_step e t st : pstep (e :: t, st) (t, exec1 e st).
Proof. destruct st as [d b], e; constructor. Qed.

Lemma exec_steps t rest : ∀ st, psteps (t ++ rest, st) (rest, exec t st).
Proof.
  induction t as [|e t IH]; intros st; [constructor|]. eapply rtc_l; [apply exec1_step|]. apply IH.
Qed.

Lemma exec_line t l d : 
  let '(n, m, s) := counts l t 0 0 0 in line_state false l d (on_line l (stores t)) n m s (exec t (PState d [])).
Proof.
  induction t as [|e t IH] using rev_ind; [exists [], [], []; cbn; split_and!; done || lia|].
  rewrite counts_app, stores_app, on_line_app. unfold exec in *. rewrite fold_left_app. cbn [fold_left].
  destruct (fold_left _ t _) as [d1 b1]. destruct (counts l t 0 0 0) as [[n m] s].
  destruct (exec1 e (PState d1 b1)) as [d2 b2] eqn:E. apply (line_state_event false l d _ n m s e d1 b1 d2 b2 IH).
  rewrite <- E. apply exec1_step.
Qed.

(** Lines may be evicted alone. *)
Lemma evict_lines (L : Z → Prop) `{!∀ l, Decision (L l)} rest b1 b2 : ∀ d,
  Forall (λ x : buffered, ¬ L (line x.1.1)) b1 →
  psteps (rest, PState d (b1 ++ b2))
    (rest, PState (apply d (filter (λ x : buffered, L (line x.1.1)) b2).*1)
             (b1 ++ filter (λ x : buffered, ¬ L (line x.1.1)) b2)).
Proof.
  revert b1. induction b2 as [|x b2 IH]; intros b1 d Hb; [constructor|]. rewrite !filter_cons.
  destruct (decide (L (line x.1.1))) as [Hx|Hx].
  - rewrite decide_False by tauto. eapply rtc_l; [apply step_evict|].
    + eapply Forall_impl; [exact Hb|]. cbn. intros y Hy E. by rewrite E in Hy.
    + rewrite fmap_cons, apply_cons. by apply IH.
  - rewrite decide_True by done. rewrite (cons_middle x b1 b2), (cons_middle x b1 (filter _ b2)), !app_assoc.
    apply IH. apply Forall_app. by repeat constructor.
Qed.

(** Any choice of lines to write back in full is possible: the others hold what
    was flushed. *)
Theorem crash_choice (L : Z → Prop) `{!∀ l, Decision (L l)} t rest d :
  ∃ st, psteps (t ++ rest, PState d []) (rest, st) ∧
    ∀ c, durable st c = if decide (L (line c)) then apply d (stores t) c
                        else apply d (take (safe (line c) t) (on_line (line c) (stores t))) c.
Proof.
  destruct (exec t (PState d [])) as [d1 b1] eqn:E. eexists. split.
  - etrans; [apply exec_steps|]. rewrite E. apply (evict_lines L rest [] b1 d1). constructor.
  - intros c. pose proof (exec_line t (line c) d) as Hl. unfold safe. rewrite E in Hl.
    destruct (counts (line c) t 0 0 0) as [[n m] s].
    destruct Hl as (a & c1 & c2 & Hp & _ & Hpend & Hd & _ & _ & [-> _]); [done|]. cbn [durable buffer snd] in *.
    rewrite apply_line, on_line_fst, (pend_filter (λ x : buffered, L (line x.1.1))).
    assert (∀ x, x ∈ pend (line c) b1 → line x.1.1 = line c) as Hin by (by intros x [? _]%list_elem_of_filter).
    case_decide as Hc.
    + rewrite filter_all by (apply list.Forall_forall; intros x Hx; by rewrite (Hin x Hx)).
      rewrite Hpend, fmap_app, !fst_marks, (apply_line d (stores t)), Hp, (apply_app d a). by apply apply_ext, Hd.
    + rewrite filter_none by (apply list.Forall_forall; intros x Hx; by rewrite (Hin x Hx)).
      rewrite Hp, take_app_length. by apply Hd.
Qed.

Lemma counts_n l t : ∀ n m s, (counts l t n m s).1.1 = (n + length (on_line l (stores t)))%nat.
Proof.
  induction t as [|[c v|l'| |a len] t IH]; intros n m s; cbn [counts]; [cbn; lia|..].
  - rewrite IH. change (stores (Store c v :: t)) with ((c, v) :: stores t). unfold on_line. rewrite filter_cons.
    cbn [fst]. case_decide; cbn [length]; lia.
  - by rewrite IH.
  - by rewrite IH.
  - case_decide; by rewrite IH.
Qed.

(** What [Persist] covers is durable. *)
Lemma safe_persist l t addr len t' :
  line_of addr ≤ l < addr + len → on_line l (stores t') = [] →
  safe l (t ++ Persist addr len :: t') = length (on_line l (stores (t ++ Persist addr len :: t'))).
Proof.
  intros Hl Ht'.
  unfold safe. rewrite counts_app, stores_app, on_line_app. change (stores (Persist addr len :: t')) with (stores t').
  rewrite Ht', app_nil_r. pose proof (counts_n l t 0 0 0) as Hn. destruct (counts l t 0 0 0) as [[n m] s]. cbn in Hn. subst n.
  cbn [counts]. rewrite decide_True by done. clear -Ht'. set (n := length _). clearbody n. clear t.
  assert (∀ t m s, on_line l (stores t) = [] → m = n → s = n → (counts l t n m s).2 = n) as H; [|by apply H].
  induction t as [|[c v|l'| |a len'] t IH]; intros m s0 Ht -> ->; cbn [counts]; [done|..].
  - change (stores (Store c v :: t)) with ((c, v) :: stores t) in Ht. unfold on_line in Ht. rewrite filter_cons in Ht.
    cbn [fst] in Ht. case_decide; [done|]. by apply IH.
  - apply IH; [done| |done]. by case_decide.
  - rewrite Nat.max_id. by apply IH.
  - case_decide; by apply IH.
Qed.
End crash.
