(* ===== verification/EntryCrash.v ===== *)
(** * Crashes during the operations of a leaf ([src/entry.h])

    [MaybePut], [Update] and [Remove] as the stores and flushes they make.  A
    leaf is 64-byte aligned; its slots are 16 bytes from offset 24 on, so that
    the key and the value of every fourth slot lie in different cache lines. *)
From S2P Require Import Prelude Entry Persist.

(** The leaf at [p] in a memory. *)
Definition leaf_at (m : mem) (p : Z) : Entry :=
  mkEntry (m (p, FNext)) (m (p, FMinKey)) (m (p, FFlag))
    ((λ i, (m (p, FKey i), m (p, FVal i))) <$> seq 0 KVS_PER_ENTRY) (replicate 8 0).

(** The fields a leaf has. *)
Definition valid_field (f : field) : Prop :=
  match f with FKey i | FVal i => (i < KVS_PER_ENTRY)%nat | _ => True end.

Definition set_field (f : field) (v : Z) (e : Entry) : Entry :=
  match f with
  | FNext => with_next v e
  | FMinKey => with_min_key v e
  | FFlag => mkEntry (next e) (min_key e) v (kvs e) (reserve e)
  | FKey i => with_kvs (alter (λ kv : Z * Z, (v, kv.2)) i (kvs e)) e
  | FVal i => with_kvs (alter (λ kv : Z * Z, (kv.1, v)) i (kvs e)) e
  end.
Definition set_fields (s : list (field * Z)) (e : Entry) : Entry :=
  fold_left (λ e x, set_field x.1 x.2 e) s e.

(** ** The operations as traces *)
Definition MaybePut_trace (p key val : Z) (e : Entry) : list event :=
  match find_slot INVALID_KEY e with
  | None => []
  | Some (i, _) =>
      [Store (p, FVal i) val; Store (p, FKey i) key; clflush (address (p, FKey i)); fence]
  end.

Definition Update_trace (p key val : Z) (e : Entry) : list event :=
  match find_slot key e with
  | Some (i, _) => [Store (p, FVal i) val; clflush (address (p, FKey i)); fence]
  | None => []
  end.

Definition Remove_trace (p key : Z) (e : Entry) : list event :=
  match find_slot key e with
  | Some (i, _) => [Store (p, FKey i) INVALID_KEY; clflush (address (p, FKey i)); fence]
  | None => []
  end.

Inductive leaf_op : Type := Put (key val : Z) | Upd (key val : Z) | Rem (key : Z).

Definition leaf_trace (o : leaf_op) (p : Z) (e : Entry) : list event :=
  match o with
  | Put k v => MaybePut_trace p k v e
  | Upd k v => Update_trace p k v e
  | Rem k => Remove_trace p k e
  end.
Definition leaf_run (o : leaf_op) (e : Entry) : res (Z * Entry) :=
  match o with
  | Put k v => MaybePut k v e
  | Upd k v => Update k v e
  | Rem k => Remove k e
  end.
(** The slot whose value the operation stores. *)
Definition value_slot (o : leaf_op) (e : Entry) : option nat :=
  match o with
  | Put _ _ => fst <$> find_slot INVALID_KEY e
  | Upd k _ => fst <$> find_slot k e
  | Rem _ => None
  end.
Definition leaf_op_ok (o : leaf_op) (e : Entry) : Prop :=
  match o with
  | Put k _ => k ≠ 0 ∧ contents e !! k = None
  | Upd k _ | Rem k => k ≠ 0
  end.

(** ** Leaves in memory *)
Section leaf.
Implicit Types (p : Z) (m : mem) (e : Entry) (st : pstate) (t : list event).

Lemma line_cell p f : p mod 64 = 0 → line (p, f) = p + 64 * (offset f / 64).
Proof.
  intros Hp. unfold line, address. rewrite line_of_div. cbn [fst snd].
  pose proof (Z.div_mod p 64 ltac:(lia)). rewrite Hp in *.
  replace (p + offset f) with (offset f + (p / 64) * 64) by lia. rewrite Z.div_add by lia. lia.
Qed.

(** Key and value of a slot share their line unless the slot is 2 modulo 4. *)
Lemma slot_line p i : p mod 64 = 0 → line (p, FVal i) = line (p, FKey i) ↔ (i mod 4 ≠ 2)%nat.
Proof.
  intros Hp. rewrite !line_cell by done. cbn [offset].
  rewrite <- (Nat2Z.inj_iff (i mod 4)), Nat2Z.inj_mod. change (Z.of_nat 4) with 4. change (Z.of_nat 2) with 2.
  Z.to_euclidean_division_equations. lia.
Qed.

Lemma leaf_at_ext m m' p : (∀ f, valid_field f → m (p, f) = m' (p, f)) → leaf_at m p = leaf_at m' p.
Proof.
  intros E. unfold leaf_at. rewrite !E by done. f_equal. apply list_fmap_ext.
  intros i j [-> Hj]%lookup_seq. by rewrite !E by done.
Qed.

Lemma lookup_slots m p i : (i < KVS_PER_ENTRY)%nat →
  kvs (leaf_at m p) !! i = Some (m (p, FKey i), m (p, FVal i)).
Proof. intros Hi. cbn [kvs leaf_at]. rewrite list_lookup_fmap, lookup_seq_lt by done. done. Qed.

Lemma leaf_at_upd m p f v : leaf_at (upd m ((p, f), v)) p = set_field f v (leaf_at m p).
Proof.
  assert (∀ e1 e2, next e1 = next e2 → min_key e1 = min_key e2 → flag e1 = flag e2 → reserve e1 = reserve e2 →
    kvs e1 = kvs e2 → e1 = e2) as Hext by (intros [] []; cbn; congruence).
  assert (∀ g, g ≠ f → upd m ((p, f), v) (p, g) = m (p, g)) as Hne.
  { intros g Hg. unfold upd. rewrite decide_False; [done|]. cbn. congruence. }
  assert (upd m ((p, f), v) (p, f) = v) as Heq by (unfold upd; by rewrite decide_True).
  apply Hext; [destruct f; cbn [set_field leaf_at next min_key flag reserve with_next with_min_key with_kvs];
    by rewrite ?Heq, ?Hne..|].
  apply (list_eq_same_length _ _ KVS_PER_ENTRY); [|done|].
  - destruct f; cbn [set_field with_next with_min_key with_kvs kvs]; rewrite ?length_alter; done.
  - intros j x y Hj E1 E2. rewrite lookup_slots in E1 by done. injection E1 as <-.
    destruct f as [| | |i|i]; cbn [set_field with_next with_min_key with_kvs kvs] in E2;
      rewrite ?list_lookup_alter in E2; try (case_decide as Hij; [subst j|]); rewrite (lookup_slots m p _ Hj) in E2;
      apply (inj Some) in E2 as <-; cbn [fst snd]; rewrite ?Heq, ?Hne by congruence; done.
Qed.

Lemma leaf_at_apply p s : ∀ m,
  leaf_at (apply m ((λ x : field * Z, ((p, x.1), x.2)) <$> s)) p = set_fields s (leaf_at m p).
Proof.
  induction s as [|[f v] s IH]; intros m; [done|]. rewrite fmap_cons, apply_cons, IH. cbn [set_fields fold_left fst snd].
  by rewrite leaf_at_upd.
Qed.

(** No store to the leaf is buffered. *)
Definition clean p st : Prop := ∀ f, valid_field f → pend (line (p, f)) (buffer st) = [].

(** Stores to one line of a leaf become durable in their order. *)
Lemma one_line_crash p f0 s t st rest st' :
  valid_field f0 → clean p st → psteps (t, st) (rest, st') →
  stores t = (λ x : field * Z, ((p, x.1), x.2)) <$> s → Forall (λ x, line (p, x.1) = line (p, f0)) s →
  ∃ done a, t = done ++ rest ∧ a `prefix_of` s ∧ (safe (line (p, f0)) done ≤ length a)%nat ∧
    leaf_at (durable st') p = set_fields a (leaf_at (durable st) p).
Proof.
  intros Hf0 Hclean Hsteps Hst Hs. destruct (line_crash _ _ _ _ Hsteps) as (done & -> & H). rewrite stores_app in Hst.
  set (g := λ x : field * Z, ((p, x.1), x.2)) in *.
  assert (stores done = g <$> take (length (stores done)) s) as Hd.
  { rewrite fmap_take, <- Hst. by rewrite take_app_length. }
  destruct (H (line (p, f0)) (Hclean f0 Hf0)) as (a & Ha & Hsafe & Hdur).
  assert (on_line (line (p, f0)) (stores done) = stores done) as Hon.
  { apply filter_all. rewrite Hd. apply Forall_fmap, Forall_take. exact Hs. }
  rewrite Hon, Hd in Ha. destruct Ha as [k Ha]. apply fmap_app_inv in Ha as (a' & k' & -> & -> & Ha').
  exists done, a'. split; [done|]. split; [|split].
  - rewrite <- (take_drop (length (stores done)) s), Ha', <- app_assoc. by eexists.
  - by rewrite length_fmap in Hsafe.
  - rewrite <- leaf_at_apply. apply leaf_at_ext. intros f Hf. destruct (decide (line (p, f) = line (p, f0))) as [E|E]; [by apply Hdur|].
    destruct (H (line (p, f)) (Hclean f Hf)) as (b & Hb & _ & Hdur'). rewrite Hdur' by done.
    assert (on_line (line (p, f)) (stores done) = []) as Hnil.
    { apply filter_none. rewrite Hd. apply Forall_fmap, Forall_take. eapply Forall_impl; [exact Hs|]. cbn. congruence. }
    rewrite Hnil in Hb. apply prefix_nil_inv in Hb as ->.
    rewrite (apply_line _ (g <$> a')). assert (on_line (line (p, f)) (g <$> a') = []) as ->; [|done].
    apply filter_none, Forall_fmap. assert (Forall (λ x, line (p, x.1) = line (p, f0)) a') as Ha.
    { apply (Forall_take _ (length (stores done))) in Hs. rewrite Ha' in Hs. by apply Forall_app in Hs as [? _]. }
    eapply Forall_impl; [exact Ha|]. cbn. congruence.
Qed.
End leaf.

(** ** The traces are the operations *)
Section ops.
Implicit Types (p i : Z) (m : mem) (e : Entry) (st : pstate) (o : leaf_op).

(** The fields an operation stores, in order. *)
Definition op_fields o e : list (field * Z) :=
  match o with
  | Put k v => match find_slot INVALID_KEY e with Some (i, _) => [(FVal i, v); (FKey i, k)] | None => [] end
  | Upd k v => match find_slot k e with Some (i, _) => [(FVal i, v)] | None => [] end
  | Rem k => match find_slot k e with Some (i, _) => [(FKey i, INVALID_KEY)] | None => [] end
  end.

Lemma find_slot_lt key e j kv :
  length (kvs e) = KVS_PER_ENTRY → find_slot key e = Some (j, kv) → (j < KVS_PER_ENTRY)%nat.
Proof. intros Hl (H & _)%list_find_Some. apply lookup_lt_Some in H. by rewrite Hl in H. Qed.

Lemma trace_stores o p e : stores (leaf_trace o p e) = (λ x : field * Z, ((p, x.1), x.2)) <$> op_fields o e.
Proof.
  destruct o; cbn [leaf_trace op_fields]; unfold MaybePut_trace, Update_trace, Remove_trace;
    by destruct (find_slot _ e) as [[]|].
Qed.

Lemma run_fields o e :
  length (kvs e) = KVS_PER_ENTRY → ∃ code, leaf_run o e = Ret (code, set_fields (op_fields o e) e).
Proof.
  intros Hl. destruct o as [k v|k v|k]; cbn [leaf_run op_fields]; unfold MaybePut, Update, Remove;
    destruct (find_slot _ e) as [[j kv]|] eqn:E; try (by eexists);
    pose proof (find_slot_lt _ _ _ _ Hl E) as Hj;
    rewrite ?setVal_at, ?setKey_at, res_bind_ret, ?setKey_at, ?res_bind_ret by done; by eexists.
Qed.

(** An aligned operation: what it stores lies in the line it flushes. *)
Lemma aligned_trace o p e :
  p mod 64 = 0 → length (kvs e) = KVS_PER_ENTRY →
  (∀ j, value_slot o e = Some j → (j mod 4 ≠ 2)%nat) → op_fields o e ≠ [] →
  ∃ f, valid_field f ∧ Forall (λ x : field * Z, line (p, x.1) = line (p, f)) (op_fields o e) ∧
    safe (line (p, f)) (leaf_trace o p e) = length (op_fields o e).
Proof.
  intros Hp Hl Hv Hne. destruct o as [k v|k v|k]; cbn [value_slot op_fields leaf_trace] in *;
    unfold MaybePut_trace, Update_trace, Remove_trace, safe, clflush;
    destruct (find_slot _ e) as [[j kv]|] eqn:E; try done; exists (FKey j);
    (split; [by eapply find_slot_lt|]); cbn [counts length];
    change (line_of (address (p, FKey j))) with (line (p, FKey j));
    [assert (line (p, FVal j) = line (p, FKey j)) as Hj by (apply slot_line; [done|]; by apply Hv)..|];
    rewrite ?decide_True by done; (split; [|done]); repeat constructor; cbn; done.
Qed.

(** Storing the value of a free slot does not show. *)
Lemma put_value_hidden e (v : Z) j kv :
  find_slot INVALID_KEY e = Some (j, kv) → contents (set_field (FVal j) v e) = contents e.
Proof.
  intros E. apply find_slot_Some in E as (l1 & l2 & w & -> & E & <- & _ & Hf).
  unfold contents, slot_map. cbn [set_field with_kvs kvs]. rewrite Hf, E, !live_app, !live_cons, !decide_True by done. done.
Qed.

(** C19: when the slot is not 2 modulo 4, [MaybePut], [Update] and [Remove] are
    atomic with respect to crashes: a crash at any moment leaves the map of the
    leaf before or after the operation, and when the operation has returned its
    effect is durable. *)
Theorem leaf_operations_crash_atomic o p e e2 code st rest st' :
  p mod 64 = 0 → clean p st → leaf_at (durable st) p = e → entry_wf e →
  (∀ j, value_slot o e = Some j → (j mod 4 ≠ 2)%nat) →
  leaf_run o e = Ret (code, e2) → psteps (leaf_trace o p e, st) (rest, st') →
  (contents (leaf_at (durable st') p) = contents e ∨ contents (leaf_at (durable st') p) = contents e2) ∧
  (rest = [] → leaf_at (durable st') p = e2).
Proof.
  intros Hp Hclean He Hwf Hv Hrun Hsteps. destruct (run_fields o e (proj1 Hwf)) as (code' & E).
  rewrite Hrun in E. injection E as _ ->. destruct (decide (op_fields o e = [])) as [Hnil|Hne].
  - destruct (one_line_crash p FNext [] _ _ _ _ I Hclean Hsteps) as (t0 & a & _ & Ha & _ & ->);
      [by rewrite trace_stores, Hnil|done|]. apply prefix_nil_inv in Ha as ->. rewrite Hnil, He. cbn. by split; [left|].
  - destruct (aligned_trace o p e Hp (proj1 Hwf) Hv Hne) as (f & Hvf & Hf & Hsafe).
    destruct (one_line_crash p f _ _ _ _ _ Hvf Hclean Hsteps (trace_stores o p e) Hf) as (t0 & a & Ed & Ha & Hs & ->).
    rewrite He. assert (rest = [] → a = op_fields o e) as Hall.
    { intros ->. rewrite app_nil_r in Ed. rewrite <- Ed, Hsafe in Hs. apply prefix_length_eq in Ha; [done|lia]. }
    split; [|by intros ->%Hall]. destruct Ha as [k Ha]. destruct a as [|x a]; [by left|].
    destruct o as [key val|key val|key]; cbn [op_fields] in *; destruct (find_slot _ e) as [[j kv]|] eqn:E; try done.
    + destruct a as [|y [|z a]]; simplify_eq/=; [left; by eapply put_value_hidden|by right].
    + destruct a; simplify_eq/=; by right.
    + destruct a; simplify_eq/=; by right.
Qed.

(** C29: in a slot that is 2 modulo 4 the value lies in the line behind the one
    that is flushed: after [MaybePut] has returned a crash may leave the key
    with the value the slot had before, and after [Update] has returned the old
    value. *)
Theorem value_not_flushed p key val e d j w :
  p mod 64 = 0 → leaf_at d p = e → entry_wf e → key ≠ 0 → (j mod 4 = 2)%nat →
  (find_slot INVALID_KEY e = Some (j, (INVALID_KEY, w)) → contents e !! key = None →
   ∃ st, psteps (MaybePut_trace p key val e, PState d []) ([], st) ∧
     contents (leaf_at (durable st) p) = <[key := w]> (contents e)) ∧
  (find_slot key e = Some (j, (key, w)) →
   ∃ st, psteps (Update_trace p key val e, PState d []) ([], st) ∧ leaf_at (durable st) p = e).
Proof.
  intros Hp He [Hl Hnd] Hk Hj.
  assert (line (p, FVal j) ≠ line (p, FKey j)) as Hline by (rewrite slot_line by done; lia).
  split; intros E; [intros Hn|]; unfold MaybePut_trace, Update_trace; rewrite E.
  - eexists. split.
    + do 2 (eapply rtc_l; [constructor|]). eapply rtc_l; [constructor|]. eapply rtc_l; [constructor|]. apply rtc_refl.
    + cbn [durable app fmap list_fmap]. unfold mark. cbn [fst].
      change (line_of (address (p, FKey j))) with (line (p, FKey j)).
      rewrite decide_False, decide_True by done. unfold marked. cbn [filter list_filter snd fst fmap list_fmap].
      rewrite decide_False, decide_True by done. cbn [apply fold_left fst fmap list_fmap]. rewrite leaf_at_upd, He.
      apply find_slot_Some in E as (l1 & l2 & w' & [= <-] & E & <- & _ & Hf).
      unfold contents in *. cbn [set_field with_kvs kvs]. rewrite Hf, E in *. cbn. by apply slots_new.
  - eexists. split.
    + eapply rtc_l; [constructor|]. eapply rtc_l; [constructor|]. eapply rtc_l; [constructor|]. apply rtc_refl.
    + cbn [durable app fmap list_fmap]. unfold mark. cbn [fst].
      change (line_of (address (p, FKey j))) with (line (p, FKey j)).
      rewrite decide_False by done. unfold marked. cbn [filter list_filter snd].
      rewrite decide_False by done. done.
Qed.
End ops.

(** ** Witnesses *)
Module CrashWitness.
(** Leaves whose first slots are given and whose other fields are 0. *)
Definition mem_of (l : list (Z * Z)) : mem := λ c,
  match c.2 with
  | FKey i => (default (0, 0) (l !! i)).1
  | FVal i => (default (0, 0) (l !! i)).2
  | _ => 0
  end.
(** Two pairs; the third slot is free and holds the value of a removed pair. *)
Definition two : mem := mem_of [(1, 10); (2, 20); (0, 99)].
Definition three : mem := mem_of [(1, 10); (2, 20); (3, 30)].

Lemma clean_nil p d : clean p (PState d []).
Proof. by intros f _. Qed.

Lemma wf_nodup e : length (kvs e) = KVS_PER_ENTRY → bool_decide (NoDup (live (kvs e)).*1) = true → entry_wf e.
Proof. intros Hl Hd%bool_decide_eq_true. by split. Qed.
End CrashWitness.
Import CrashWitness.

Lemma leaf_operations_crash_atomic_witness :
  ∃ st, psteps (leaf_trace (Upd 2 21) 4096 (leaf_at two 4096), PState two []) ([], st) ∧
    contents (leaf_at (durable st) 4096) = {[1 := 10; 2 := 21]}.
Proof.
  assert (psteps (leaf_trace (Upd 2 21) 4096 (leaf_at two 4096), PState two [])
    ([], exec (leaf_trace (Upd 2 21) 4096 (leaf_at two 4096)) (PState two []))) as Hs.
  { etrans; [|apply (exec_steps _ [])]. by rewrite app_nil_r. }
  eexists. split; [exact Hs|].
  assert (leaf_at (durable (exec (leaf_trace (Upd 2 21) 4096 (leaf_at two 4096)) (PState two []))) 4096 =
    with_kvs ([(1, 10); (2, 21); (0, 99)] ++ replicate 11 (0, 0)) (leaf_at two 4096)) as ->; [|vm_compute; reflexivity].
  eapply (leaf_operations_crash_atomic (Upd 2 21) 4096 (leaf_at two 4096) _ STATUS_OK (PState two []) []);
    [reflexivity|apply clean_nil|reflexivity|by apply wf_nodup| |reflexivity|exact Hs|reflexivity].
  intros j E. vm_compute in E. injection E as <-. discriminate.
Defined.

Lemma value_not_flushed_witness :
  (∃ st, psteps (MaybePut_trace 4096 3 30 (leaf_at two 4096), PState two []) ([], st) ∧
     contents (leaf_at (durable st) 4096) = <[3 := 99]> (contents (leaf_at two 4096))) ∧
  (∃ st, psteps (Update_trace 4096 3 31 (leaf_at three 4096), PState three []) ([], st) ∧
     leaf_at (durable st) 4096 = leaf_at three 4096).
Proof.
  split.
  - apply (value_not_flushed 4096 3 30 (leaf_at two 4096) two 2 99);
      [reflexivity|reflexivity|by apply wf_nodup|discriminate|reflexivity|reflexivity|reflexivity].
  - apply (value_not_flushed 4096 3 31 (leaf_at three 4096) three 2 30);
      [reflexivity|reflexivity|by apply wf_nodup|discriminate|reflexivity|reflexivity].
Defined.
