(* ===== verification/SplitCrash.v ===== *)
(** * Crashes during the split of a leaf ([splitEntry], [src/epltree.h])

    The stores, flushes and persists of a split in the order of the code.  The
    new leaf is durable before it is linked; until the old leaf is trimmed both
    hold the upper half.  Trimming clears the slots of the old leaf before the
    link to the new one need be durable. *)
From S2P Require Import Prelude NvmAlloc Entry Index EplTree EplTreeInv Persist EntryCrash.

(** ** The trace *)
Definition leaf_stores (p : Z) (s : list (field * Z)) : list event := (λ x : field * Z, Store (p, x.1) x.2) <$> s.

(** [memset(kvs, 0, sizeof(kvs))] and the copy loop. *)
Definition memset_kvs : list (field * Z) := flat_map (λ i, [(FKey i, 0); (FVal i, 0)]) (seq 0 KVS_PER_ENTRY).
Fixpoint set_kvs_fields (n i : nat) (src : list (Z * Z)) : list (field * Z) :=
  match n, src !! i with
  | S n, Some kv => (FVal i, kv.2) :: (FKey i, kv.1) :: set_kvs_fields n (S i) src
  | _, _ => []
  end.
(** The constructor, whose [memset] covers the whole leaf. *)
Definition new_fields (init_min_key : Z) (init_kvs : list (Z * Z)) (size : nat) : list (field * Z) :=
  [(FNext, 0); (FMinKey, 0); (FFlag, 0)] ++ memset_kvs ++ [(FMinKey, init_min_key)] ++ set_kvs_fields size 0 init_kvs.
Definition ordered_fields (new_kvs : list (Z * Z)) (size : nat) : list (field * Z) :=
  memset_kvs ++ set_kvs_fields size 0 new_kvs ++ [(FMinKey, (new_kvs !!! 0%nat).1)].

(** [tmp_kvs] and the smallest key of the upper half. *)
Definition tmp_of (e : Entry) : list (Z * Z) := sort_kvs (kvs e).
Definition median (e : Entry) : Z := (tmp_of e !!! (KVS_PER_ENTRY / 2)%nat).1.

(** From the constructor of the new leaf at [q] to [entry->next = new_entry]. *)
Definition link_trace (p q : Z) (e : Entry) : list event :=
  leaf_stores q (new_fields (median e) (drop (KVS_PER_ENTRY / 2) (tmp_of e)) ((KVS_PER_ENTRY + 1) / 2)) ++
  [Store (p, FFlag) 1] ++
  [Store (p, FFlag) 1; clflush (address (p, FFlag)); fence] ++
  [Store (q, FNext) (next e); Persist q sizeof_Entry] ++ [Store (p, FNext) q].
(** [setOrderedKVs], [setFlag(0)] and [Mem_persist]. *)
Definition trim_trace (p : Z) (e : Entry) : list event :=
  leaf_stores p (ordered_fields (tmp_of e) (KVS_PER_ENTRY / 2)) ++ [Store (p, FFlag) 0; Persist p sizeof_Entry].
Definition split_trace (p q : Z) (e : Entry) : list event := link_trace p q e ++ trim_trace p e.

(** ** What the stores make of a leaf *)
Section fields.
Implicit Types (e : Entry) (l src : list (Z * Z)) (s : list (field * Z)).

Lemma set_fields_app s1 s2 e : set_fields (s1 ++ s2) e = set_fields s2 (set_fields s1 e).
Proof. apply fold_left_app. Qed.

Lemma memset_spec e : length (kvs e) = KVS_PER_ENTRY → set_fields memset_kvs e = with_kvs zero_kvs e.
Proof.
  destruct e as [nx mk fl l r]. cbn [kvs]. intros Hl. do 14 (destruct l as [|? l]; [done|]). by destruct l.
Qed.

Lemma set_kvs_spec n : ∀ i src e,
  (i + n ≤ KVS_PER_ENTRY)%nat → (i + n ≤ length src)%nat →
  set_kvs_loop n i src e = Ret (set_fields (set_kvs_fields n i src) e).
Proof.
  induction n as [|n IH]; intros i src e Hi Hs; cbn [set_kvs_loop set_kvs_fields]; [done|].
  destruct (lookup_lt_is_Some_2 src i) as [kv Hkv]; [lia|]. rewrite Hkv. cbn [of_option].
  rewrite res_bind_ret, setVal_at, res_bind_ret, setKey_at, res_bind_ret, IH by lia. done.
Qed.

Lemma new_fields_spec m src n e :
  length (kvs e) = KVS_PER_ENTRY → reserve e = replicate 8 0 → (n ≤ KVS_PER_ENTRY)%nat → (n ≤ length src)%nat →
  Entry_new_kvs m src n = Ret (set_fields (new_fields m src n) e).
Proof.
  intros Hl Hr Hn Hs. unfold Entry_new_kvs. rewrite set_kvs_spec by lia. f_equal.
  unfold new_fields. rewrite !set_fields_app. f_equal. rewrite memset_spec by done.
  destruct e as [nx mk fl l r]; cbn in *. by subst.
Qed.

Lemma ordered_fields_spec src n e :
  length (kvs e) = KVS_PER_ENTRY → (n ≤ KVS_PER_ENTRY)%nat → (n ≤ length src)%nat → src ≠ [] →
  setOrderedKVs src n e = Ret (set_fields (ordered_fields src n) e).
Proof.
  intros Hl Hn Hs Hne. unfold setOrderedKVs. rewrite set_kvs_spec, res_bind_ret by lia.
  destruct src as [|kv src]; [done|]. cbn [lookup list_lookup of_option]. rewrite res_bind_ret.
  unfold ordered_fields. by rewrite !set_fields_app, memset_spec.
Qed.
End fields.

(** ** Leaves and traces *)
Section traces.
Implicit Types (p q r : Z) (m d : mem) (e : Entry) (st : pstate) (t : list event) (s : list (field * Z)).

Definition on_leaf (r : Z) (s : list (cell * Z)) : list (cell * Z) := filter (λ x, x.1.1 = r) s.

Lemma stores_leaf p s : stores (leaf_stores p s) = (λ x : field * Z, ((p, x.1), x.2)) <$> s.
Proof. induction s as [|x s IH]; [done|]. change (stores (leaf_stores p (x :: s))) with (((p, x.1), x.2) :: stores (leaf_stores p s)).
  by rewrite IH. Qed.

Lemma on_leaf_fields p r s :
  on_leaf r ((λ x : field * Z, ((p, x.1), x.2)) <$> s) = if decide (p = r) then (λ x : field * Z, ((p, x.1), x.2)) <$> s else [].
Proof.
  case_decide as Hp; [apply filter_all|apply filter_none]; apply Forall_fmap, Forall_true; done.
Qed.

Lemma leaf_stores_app p s1 s2 : leaf_stores p (s1 ++ s2) = leaf_stores p s1 ++ leaf_stores p s2.
Proof. apply fmap_app. Qed.

(** The stores of a trace to one leaf. *)
Lemma leaf_at_stores p d t s :
  on_leaf p (stores t) = (λ x : field * Z, ((p, x.1), x.2)) <$> s → leaf_at (apply d (stores t)) p = set_fields s (leaf_at d p).
Proof.
  intros E. rewrite <- leaf_at_apply, <- E. apply leaf_at_ext. intros f _.
  exact (apply_filter (λ c, c.1 = p) d (stores t) (p, f) eq_refl).
Qed.

Lemma cell_range p f : p mod 256 = 0 → valid_field f → p ≤ line (p, f) < p + 256.
Proof.
  intros Hp Hf. rewrite line_cell by (Z.to_euclidean_division_equations; lia).
  assert (0 ≤ offset f < 256).
  { unfold valid_field, KVS_PER_ENTRY in Hf. destruct f; cbn [offset]; lia. }
  Z.to_euclidean_division_equations. lia.
Qed.

Lemma line_ne p q f g :
  p mod 256 = 0 → q mod 256 = 0 → p ≠ q → valid_field f → valid_field g → line (p, f) ≠ line (q, g).
Proof.
  intros Hp Hq Hne Hf Hg E. pose proof (cell_range p f Hp Hf). pose proof (cell_range q g Hq Hg).
  Z.to_euclidean_division_equations. lia.
Qed.

(** A leaf is durable once it was persisted and only other leaves changed. *)
Lemma persisted_leaf r pre post rest st st' s :
  psteps ((pre ++ Persist r sizeof_Entry :: post) ++ rest, st) (rest, st') → r mod 256 = 0 → clean r st →
  Forall (λ x : cell * Z, x.1.1 mod 256 = 0 ∧ x.1.1 ≠ r ∧ valid_field x.1.2) (stores post) →
  on_leaf r (stores (pre ++ Persist r sizeof_Entry :: post)) = (λ x : field * Z, ((r, x.1), x.2)) <$> s →
  leaf_at (durable st') r = set_fields s (leaf_at (durable st) r).
Proof.
  intros Hsteps Hr Hclean Hpost Hs. destruct (line_crash _ _ _ _ Hsteps) as (ev & E & H).
  apply app_inv_tail in E as <-. set (t := pre ++ _) in *. rewrite <- (leaf_at_stores r _ t s Hs).
  apply leaf_at_ext. intros f Hf. destruct (H (line (r, f)) (Hclean f Hf)) as (a & Ha & Hsafe & Hd).
  rewrite Hd by done. rewrite (apply_line _ (stores t)). assert (a = on_line (line (r, f)) (stores t)) as ->; [|done].
  apply prefix_length_eq; [done|]. unfold t in Hsafe. rewrite safe_persist in Hsafe; [done| |].
  - pose proof (cell_range r f Hr Hf). rewrite line_of_div. unfold sizeof_Entry.
    Z.to_euclidean_division_equations. lia.
  - apply filter_none. eapply Forall_impl; [exact Hpost|]. intros [[p g] v] (Hp & Hne & Hg) E. cbn in *.
    by apply (line_ne p r g f Hp Hr Hne Hg Hf).
Qed.
End traces.

(** ** The split *)
Section split.
Implicit Types (p q : Z) (d : mem) (e : Entry) (st : pstate) (t : list event).

Lemma tmp_length e : length (kvs e) = KVS_PER_ENTRY → length (tmp_of e) = KVS_PER_ENTRY.
Proof. intros <-. apply sort_kvs_length. Qed.

Definition link_fields q : list (field * Z) := [(FFlag, 1); (FFlag, 1); (FNext, q)].
Definition right_fields e : list (field * Z) :=
  new_fields (median e) (drop (KVS_PER_ENTRY / 2) (tmp_of e)) ((KVS_PER_ENTRY + 1) / 2) ++ [(FNext, next e)].
Definition trim_fields e : list (field * Z) := ordered_fields (tmp_of e) (KVS_PER_ENTRY / 2) ++ [(FFlag, 0)].

Lemma on_leaf_app p s1 s2 : on_leaf p (s1 ++ s2) = on_leaf p s1 ++ on_leaf p s2.
Proof. apply filter_app. Qed.

Lemma link_old p q e : p ≠ q → on_leaf p (stores (link_trace p q e)) = (λ x : field * Z, ((p, x.1), x.2)) <$> link_fields q.
Proof.
  intros Hne. unfold link_trace. rewrite stores_app, stores_leaf, on_leaf_app, on_leaf_fields, decide_False by done.
  unfold on_leaf. cbn. by rewrite !(decide_True (P := p = p)), (decide_False (P := q = p)).
Qed.
Lemma link_new p q e : p ≠ q → on_leaf q (stores (link_trace p q e)) = (λ x : field * Z, ((q, x.1), x.2)) <$> right_fields e.
Proof.
  intros Hne. unfold link_trace, right_fields. rewrite stores_app, stores_leaf, on_leaf_app, on_leaf_fields, decide_True, fmap_app by done.
  f_equal. unfold on_leaf. cbn. by rewrite !(decide_True (P := q = q)), !(decide_False (P := p = q)).
Qed.
Lemma trim_stores p e : stores (trim_trace p e) = (λ x : field * Z, ((p, x.1), x.2)) <$> trim_fields e.
Proof. unfold trim_trace, trim_fields. by rewrite stores_app, stores_leaf, fmap_app. Qed.

(** The leaves of the functional model. *)
Lemma right_leaf e d q :
  length (kvs e) = KVS_PER_ENTRY → set_fields (right_fields e) (leaf_at d q) = split_right (tmp_of e) (median e) e.
Proof.
  intros Hl%tmp_length. unfold right_fields, split_right, median. destruct (tmp_of e) as [|x0 t]; [done|].
  do 13 (destruct t as [|? t]; [done|]). destruct t; [|done]. cbn.
  repeat match goal with x : Z * Z |- _ => destruct x end. reflexivity.
Qed.
Lemma left_leaf e q :
  length (kvs e) = KVS_PER_ENTRY →
  set_fields (link_fields q ++ trim_fields e) e = split_left (tmp_of e) q (tmp_of e !!! 0%nat).1 e.
Proof.
  intros Hl. pose proof (tmp_length e Hl) as Ht. unfold split_left, trim_fields, ordered_fields. rewrite !set_fields_app, memset_spec.
  - destruct (tmp_of e) as [|x0 t]; [done|]. do 13 (destruct t as [|? t]; [done|]). destruct t; [|done]. cbn.
    repeat match goal with x : Z * Z |- _ => destruct x end. reflexivity.
  - by destruct e.
Qed.
(** The stores are those of the functional model. *)
Lemma splitEntry_stores `{OrderedIndex idx} (s s0 : EPLTree idx) p q e d :
  p ≠ 0 → q ≠ 0 → p ≠ q → nvm s !! p = Some e → length (kvs e) = KVS_PER_ENTRY →
  alloc_entry s = Ret (q, s0) → nvm s0 = nvm s →
  splitEntry p s = Ret (mkTree
    (<[p := set_fields (link_fields q ++ trim_fields e) e]> (<[q := set_fields (right_fields e) (leaf_at d q)]> (nvm s)))
    (data_alloc s0) (entry_head s0) (idx_insert (median e) q (index s0))).
Proof.
  intros Hp Hq Hne He Hl Ha Hs0. pose proof (tmp_length e Hl) as Ht. rewrite left_leaf, right_leaf by done. unfold median.
  destruct (lookup_lt_is_Some_2 (tmp_of e) 0) as [kv0 H0]; [rewrite Ht; vm_compute; lia|].
  destruct (lookup_lt_is_Some_2 (tmp_of e) (KVS_PER_ENTRY / 2)) as [[m v] Hm]; [rewrite Ht; vm_compute; lia|].
  rewrite (list_lookup_total_correct _ _ _ H0), (list_lookup_total_correct _ _ _ Hm).
  by eapply splitEntry_run.
Qed.

Lemma link_elem p q e x :
  x ∈ stores (link_trace p q e) → x.1.1 = q ∨ x = ((p, FFlag), 1) ∨ x = ((p, FNext), q).
Proof.
  unfold link_trace. rewrite stores_app, stores_leaf. intros [(y & -> & _)%list_elem_of_fmap|Hx]%elem_of_app; [by left|].
  cbn in Hx. set_solver.
Qed.

Definition link_pre p q e : list event :=
  leaf_stores q (new_fields (median e) (drop (KVS_PER_ENTRY / 2) (tmp_of e)) ((KVS_PER_ENTRY + 1) / 2)) ++
  [Store (p, FFlag) 1; Store (p, FFlag) 1; clflush (address (p, FFlag)); fence; Store (q, FNext) (next e)].
Lemma link_split p q e : link_trace p q e = link_pre p q e ++ Persist q sizeof_Entry :: [Store (p, FNext) q].
Proof. unfold link_trace, link_pre. by rewrite <- !app_assoc. Qed.

Lemma trim_valid p e : p mod 256 = 0 → length (kvs e) = KVS_PER_ENTRY →
  Forall (λ x : cell * Z, x.1.1 mod 256 = 0 ∧ x.1.1 = p ∧ valid_field x.1.2) (stores (trim_trace p e)).
Proof.
  intros Hp Hl%tmp_length. rewrite trim_stores. apply Forall_fmap.
  assert (Forall (λ x : field * Z, valid_field x.1) (trim_fields e)) as Hv; [|eapply Forall_impl; [exact Hv|]; cbn; naive_solver].
  unfold trim_fields, ordered_fields. destruct (tmp_of e) as [|x0 t]; [done|]. do 13 (destruct t as [|? t]; [done|]).
  destruct t; [|done]. cbn -[valid_field].
  repeat (apply Forall_cons_2; [first [exact I|unfold valid_field, KVS_PER_ENTRY; cbn [fst]; lia]|]). constructor.
Qed.

(** The link is the last store before trimming. *)
Lemma link_last p q e ev r :
  p ≠ q → ev ++ r = link_trace p q e → ((p, FNext), q) ∈ stores ev → ev = link_trace p q e.
Proof.
  intros Hne E Hin. destruct r as [|y r _] using rev_ind; [by rewrite app_nil_r in E|]. exfalso.
  unfold link_trace in E. rewrite !app_assoc in E. apply app_inj_tail in E as [E _].
  assert (((p, FNext), q) ∈ stores (ev ++ r)) as Hx by (rewrite stores_app; set_solver). rewrite E in Hx.
  rewrite !stores_app, stores_leaf in Hx.
  repeat (apply elem_of_app in Hx as [Hx|Hx]); [by apply list_elem_of_fmap in Hx as (y0 & [= -> _ _] & _)|..];
    cbn in Hx; set_unfold in Hx; naive_solver congruence.
Qed.

(** C20: the new leaf of a split is durable before the old one points to it: a
    crash before trimming leaves the pairs of the old leaf and its bound alone,
    and its link is the old one or leads to the complete new leaf.  When
    [splitEntry] has returned, both leaves are durable. *)
Theorem split_crash_order p q e st rest st' :
  p mod 256 = 0 → q mod 256 = 0 → p ≠ q → clean p st → clean q st → leaf_at (durable st) p = e →
  psteps (split_trace p q e, st) (rest, st') →
  let e1 := leaf_at (durable st') p in let e2 := leaf_at (durable st') q in
  (∀ r, rest = r ++ trim_trace p e → kvs e1 = kvs e ∧ min_key e1 = min_key e ∧
     (next e1 = next e ∨ next e1 = q ∧ e2 = split_right (tmp_of e) (median e) e)) ∧
  (rest = [] → e1 = split_left (tmp_of e) q (tmp_of e !!! 0%nat).1 e ∧ e2 = split_right (tmp_of e) (median e) e).
Proof.
  intros Hp Hq Hne Hcp Hcq He Hsteps. assert (length (kvs e) = KVS_PER_ENTRY) as Hl by (by rewrite <- He).
  destruct (line_crash _ _ _ _ Hsteps) as (ev & E & H). split.
  - intros r ->. unfold split_trace in E. rewrite app_assoc in E. apply app_inv_tail in E.
    assert (∀ f, valid_field f → f ≠ FFlag → f ≠ FNext → durable st' (p, f) = durable st (p, f)) as Hkeep.
    { intros f Hf Hf1 Hf2. destruct (H (line (p, f)) (Hcp f Hf)) as (a & [k Ha] & _ & ->); [|done].
      apply apply_notin. intros ([c v] & Ec & Hx)%list_elem_of_fmap. cbn in Ec. subst c.
      assert (((p, f), v) ∈ stores (link_trace p q e)) as Hin.
      { rewrite E, stores_app. apply elem_of_app. left.
        assert (((p, f), v) ∈ on_line (line (p, f)) (stores ev)) as Hon by (rewrite Ha; apply elem_of_app; by left).
        by apply list_elem_of_filter in Hon as [_ ?]. }
      apply link_elem in Hin as [?|[?|?]]; simplify_eq/=. }
    split; [|split].
    + rewrite <- He. cbn [kvs leaf_at]. apply list_fmap_ext. intros i j [-> Hj]%lookup_seq. by rewrite !Hkeep.
    + rewrite <- He. cbn [min_key leaf_at]. by apply Hkeep.
    + destruct (H (line (p, FNext)) (Hcp FNext I)) as (a & [k Ha] & _ & Hd). cbn [next leaf_at]. rewrite Hd by done.
      destruct (decide ((p, FNext) ∈ a.*1)) as [Hin|Hin]; [right|left; rewrite apply_notin by done; by rewrite <- He].
      assert (∀ v, ((p, FNext), v) ∈ a → ((p, FNext), v) ∈ stores ev) as Hsub.
      { intros v Hv. assert (((p, FNext), v) ∈ on_line (line (p, FNext)) (stores ev)) as Hon by (rewrite Ha; apply elem_of_app; by left).
        by apply list_elem_of_filter in Hon as [_ ?]. }
      assert (∀ v, ((p, FNext), v) ∈ a → v = q) as Hq'.
      { intros v Hv%Hsub. assert (((p, FNext), v) ∈ stores (link_trace p q e)) as Hx by (rewrite E, stores_app; apply elem_of_app; by left).
        apply link_elem in Hx as [?|[?|?]]; by simplify_eq/=. }
      split; [by apply apply_const|].
      apply list_elem_of_fmap in Hin as ([c v] & Ec & Hv). cbn in Ec. subst c. pose proof (Hq' v Hv) as ->.
      pose proof (link_last p q e ev r Hne (eq_sym E) (Hsub _ Hv)) as ->.
      rewrite <- (right_leaf e (durable st) q Hl).
      apply (persisted_leaf q (link_pre p q e) [Store (p, FNext) q] (r ++ trim_trace p e)); [|done|done| |].
      * rewrite <- link_split. unfold split_trace in Hsteps. by rewrite E, <- app_assoc in Hsteps at 1.
      * by repeat constructor.
      * rewrite <- link_split. by apply link_new.
  - intros ->. rewrite app_nil_r in E. subst ev. pose proof (trim_valid p e Hp Hl) as Hv. split.
    + rewrite <- (left_leaf e q Hl). rewrite <- He at 2.
      apply (persisted_leaf p (link_trace p q e ++ leaf_stores p (ordered_fields (tmp_of e) (KVS_PER_ENTRY / 2)) ++ [Store (p, FFlag) 0])
        [] []); [|done|done|constructor|]; rewrite ?app_nil_r, <- !app_assoc; [exact Hsteps|].
      change (on_leaf p (stores (split_trace p q e)) = (λ x : field * Z, ((p, x.1), x.2)) <$> (link_fields q ++ trim_fields e)).
      unfold split_trace. rewrite stores_app, on_leaf_app, link_old, trim_stores, on_leaf_fields, decide_True, fmap_app by done. done.
    + rewrite <- (right_leaf e (durable st) q Hl).
      apply (persisted_leaf q (link_pre p q e) (Store (p, FNext) q :: trim_trace p e) []); [|done|done| |].
      * rewrite app_nil_r. unfold split_trace in Hsteps. rewrite link_split, <- app_assoc in Hsteps. exact Hsteps.
      * constructor; [done|]. eapply Forall_impl; [exact Hv|]. cbn. intros x (? & -> & ?). done.
      * assert (link_pre p q e ++ Persist q sizeof_Entry :: Store (p, FNext) q :: trim_trace p e = link_trace p q e ++ trim_trace p e) as ->
          by (by rewrite link_split, <- app_assoc).
        rewrite stores_app, on_leaf_app, link_new, trim_stores, on_leaf_fields, decide_False, app_nil_r by done. done.
Qed.
(** What is certainly durable of the first line of the old leaf when it is being
    cleared: the flag. *)
Lemma right_valid e : length (kvs e) = KVS_PER_ENTRY → Forall (λ x : field * Z, valid_field x.1) (right_fields e).
Proof.
  intros Hl%tmp_length. unfold right_fields, new_fields. destruct (tmp_of e) as [|x0 t]; [done|].
  do 13 (destruct t as [|? t]; [done|]). destruct t; [|done]. cbn -[valid_field].
  repeat (apply Forall_cons_2; [first [exact I|unfold valid_field, KVS_PER_ENTRY; cbn [fst]; lia]|]). constructor.
Qed.

Lemma counts_other l q fs t n m s :
  Forall (λ x : field * Z, line (q, x.1) ≠ l) fs → counts l (leaf_stores q fs ++ t) n m s = counts l t n m s.
Proof. induction 1 as [|x fs Hx Hfs IH]; [done|]. cbn. by rewrite decide_False. Qed.
Lemma counts_stores l q fs n m s : (counts l (leaf_stores q fs) n m s).2 = s.
Proof. revert n. induction fs as [|x fs IH]; intros n; [done|]. apply IH. Qed.

Lemma line_first p f : p mod 256 = 0 → offset f < 64 → line (p, f) = p.
Proof.
  intros Hp Hf. rewrite line_cell by (Z.to_euclidean_division_equations; lia).
  assert (0 ≤ offset f) by (destruct f; cbn; lia). rewrite Z.div_small by lia. lia.
Qed.
Lemma line_other p q f : p mod 256 = 0 → q mod 256 = 0 → p ≠ q → valid_field f → line (q, f) ≠ p.
Proof.
  intros Hp Hq Hne Hf E. pose proof (cell_range q f Hq Hf). Z.to_euclidean_division_equations. lia.
Qed.

Section first_line.
Context (p q : Z) (e : Entry) (Hp : p mod 256 = 0) (Hq : q mod 256 = 0) (Hne : p ≠ q) (Hl : length (kvs e) = KVS_PER_ENTRY).
Let new := new_fields (median e) (drop (KVS_PER_ENTRY / 2) (tmp_of e)) ((KVS_PER_ENTRY + 1) / 2).

Lemma new_other : Forall (λ x : field * Z, line (q, x.1) ≠ p) new.
Proof.
  pose proof (right_valid e Hl) as [Hv _]%Forall_app. eapply Forall_impl; [exact Hv|]. intros x. by apply line_other.
Qed.

Lemma first_line_safe fs : safe p (link_trace p q e ++ leaf_stores p fs) = 2%nat.
Proof.
  unfold safe, link_trace. fold new. generalize new new_other. intros l Hn.
  rewrite <- app_assoc, counts_other by exact Hn. unfold clflush.
  assert (line_of (address (p, FFlag)) = p) as -> by (by apply line_first).
  cbn [app counts]. rewrite !(line_first p FFlag), !(line_first p FNext) by done.
  rewrite !(decide_True (P := p = p)), (decide_False (P := line (q, FNext) = p)) by (done || by apply line_other).
  rewrite decide_False; [apply counts_stores|]. rewrite line_of_div. unfold sizeof_Entry. Z.to_euclidean_division_equations. lia.
Qed.

Lemma first_line_stores fs : ∃ k,
  on_line p (stores (link_trace p q e ++ leaf_stores p fs)) = [((p, FFlag), 1); ((p, FFlag), 1)] ++ k.
Proof.
  unfold link_trace. fold new. pose proof new_other as Hn. revert Hn. generalize new. intros l Hn.
  rewrite <- !app_assoc, stores_app, stores_leaf, on_line_app.
  assert (on_line p ((λ x : field * Z, ((q, x.1), x.2)) <$> l) = []) as -> by (by apply filter_none, Forall_fmap).
  rewrite stores_app, on_line_app, stores_app, on_line_app.
  assert (∀ v, on_line p [((p, FFlag), v)] = [((p, FFlag), v)]) as Hf.
  { intros v. unfold on_line. by rewrite filter_cons_True by (by apply line_first). }
  rewrite (Hf 1 : on_line p (stores [Store (p, FFlag) 1]) = _).
  rewrite (Hf 1 : on_line p (stores [Store (p, FFlag) 1; clflush (address (p, FFlag)); fence]) = _). by eexists.
Qed.

Lemma first_line fs :
  let t := link_trace p q e ++ leaf_stores p fs in
  take (safe p t) (on_line p (stores t)) = [((p, FFlag), 1); ((p, FFlag), 1)].
Proof. intros t. unfold t. rewrite first_line_safe. destruct (first_line_stores fs) as [k ->]. done. Qed.
End first_line.

Lemma zero_slots m p i :
  kvs (leaf_at m p) = zero_kvs → (i < KVS_PER_ENTRY)%nat → m (p, FKey i) = 0 ∧ m (p, FVal i) = 0.
Proof.
  intros E Hi. pose proof (lookup_slots m p i Hi) as Hx. rewrite E in Hx. unfold zero_kvs in Hx.
  rewrite lookup_replicate_2 in Hx by done. by injection Hx.
Qed.

(** C30: [setOrderedKVs] clears the slots of the old leaf while the link to the
    new one is only buffered: a crash then may leave the old leaf with its old
    link and without its last 11 slots (and the value of the third lost), so
    that those pairs are in no leaf that is reachable. *)
Theorem split_crash_loses_pairs p q d e :
  p mod 256 = 0 → q mod 256 = 0 → p ≠ q → leaf_at d p = e →
  ∃ st rest, psteps (split_trace p q e, PState d []) (rest, st) ∧
    next (leaf_at (durable st) p) = next e ∧ flag (leaf_at (durable st) p) = 1 ∧
    kvs (leaf_at (durable st) p) = take 2 (kvs e) ++ ((kvs e !!! 2%nat).1, 0) :: replicate 11 (0, 0).
Proof.
  intros Hp Hq Hne He. assert (length (kvs e) = KVS_PER_ENTRY) as Hl by (by rewrite <- He).
  set (t := link_trace p q e ++ leaf_stores p memset_kvs).
  assert (∃ rest, split_trace p q e = t ++ rest) as [rest E].
  { exists (leaf_stores p (set_kvs_fields (KVS_PER_ENTRY / 2) 0 (tmp_of e) ++ [(FMinKey, (tmp_of e !!! 0%nat).1)]) ++
      [Store (p, FFlag) 0; Persist p sizeof_Entry]).
    unfold split_trace, trim_trace, ordered_fields, t. by rewrite leaf_stores_app, <- !app_assoc. }
  destruct (crash_choice (λ l, l ≠ p) t rest d) as (st & Hsteps & Hd). exists st, rest. rewrite E. split; [exact Hsteps|].
  assert (leaf_at (apply d (stores t)) p = set_fields (link_fields q ++ memset_kvs) e) as Hall.
  { rewrite <- He. apply leaf_at_stores. unfold t. rewrite stores_app, on_leaf_app, stores_leaf, on_leaf_fields, link_old, decide_True, fmap_app; done. }
  rewrite set_fields_app, memset_spec in Hall by (by destruct e).
  assert (∀ f, offset f < 64 → durable st (p, f) = if decide (f = FFlag) then 1 else d (p, f)) as Hfirst.
  { intros f Hf. rewrite Hd. assert (line (p, f) = p) as ->.
    { by apply line_first. }
    rewrite decide_False by tauto. unfold t. rewrite (first_line p q e Hp Hq Hne Hl memset_kvs).
    cbn [apply fold_left]. unfold upd. cbn [fst snd].
    case_decide as Ef; [injection Ef as ->; by rewrite decide_True|]. rewrite decide_False; [done|]. congruence. }
  assert (∀ f, 64 ≤ offset f → durable st (p, f) = apply d (stores t) (p, f)) as Hlast.
  { intros f Hf. rewrite Hd, decide_True; [done|]. rewrite line_cell by (Z.to_euclidean_division_equations; lia).
    Z.to_euclidean_division_equations. lia. }
  assert (∀ i, (i < KVS_PER_ENTRY)%nat → apply d (stores t) (p, FKey i) = 0 ∧ apply d (stores t) (p, FVal i) = 0) as Hz.
  { intros i Hi. apply zero_slots; [|done]. by rewrite Hall. }
  split; [|split].
  - cbn [next leaf_at]. rewrite Hfirst by done. by rewrite <- He.
  - cbn [flag leaf_at]. by rewrite Hfirst.
  - rewrite <- He.
    assert (∀ i, (i < KVS_PER_ENTRY)%nat → durable st (p, FKey i) = if (i <? 3)%nat then d (p, FKey i) else 0) as HK.
    { intros i Hi. destruct (Hz i Hi) as [Hz1 _]. destruct (Nat.ltb_spec i 3); [|rewrite Hlast by (cbn; lia); done].
      by rewrite Hfirst by (cbn; lia). }
    assert (∀ i, (i < KVS_PER_ENTRY)%nat → durable st (p, FVal i) = if (i <? 2)%nat then d (p, FVal i) else 0) as HV.
    { intros i Hi. destruct (Hz i Hi) as [_ Hz1]. destruct (Nat.ltb_spec i 2); [|rewrite Hlast by (cbn; lia); done].
      by rewrite Hfirst by (cbn; lia). }
    cbn [kvs leaf_at]. unfold KVS_PER_ENTRY in *. cbn [seq fmap list_fmap]. by rewrite !HK, !HV by lia.
Qed.
End split.

(** ** Witnesses *)
Import CrashWitness.

(** A full leaf with the keys 14 to 1. *)
Definition full : mem := mem_of ((λ i, (14 - i, 10 * i)) <$> seqZ 0 14).

Lemma split_crash_order_witness :
  ∃ st, psteps (split_trace 4096 8192 (leaf_at full 4096), PState full []) ([], st) ∧
    (kvs (leaf_at (durable st) 4096)).*1 = [1; 2; 3; 4; 5; 6; 7; 0; 0; 0; 0; 0; 0; 0] ∧
    (kvs (leaf_at (durable st) 8192)).*1 = [8; 9; 10; 11; 12; 13; 14; 0; 0; 0; 0; 0; 0; 0].
Proof.
  assert (psteps (split_trace 4096 8192 (leaf_at full 4096), PState full [])
    ([], exec (split_trace 4096 8192 (leaf_at full 4096)) (PState full []))) as Hs.
  { etrans; [|apply (exec_steps _ [])]. by rewrite app_nil_r. }
  eexists. split; [exact Hs|].
  destruct (split_crash_order 4096 8192 (leaf_at full 4096) (PState full []) [] _
    eq_refl eq_refl ltac:(discriminate) (clean_nil _ _) (clean_nil _ _) eq_refl Hs) as [_ H].
  destruct (H eq_refl) as [E1 E2]. rewrite E1, E2. split; vm_compute; reflexivity.
Defined.

Lemma split_crash_loses_pairs_witness :
  ∃ st rest, psteps (split_trace 4096 8192 (leaf_at full 4096), PState full []) (rest, st) ∧
    next (leaf_at (durable st) 4096) = 0 ∧ flag (leaf_at (durable st) 4096) = 1 ∧
    kvs (leaf_at (durable st) 4096) = [(14, 0); (13, 10); (12, 0)] ++ replicate 11 (0, 0).
Proof.
  destruct (split_crash_loses_pairs 4096 8192 full (leaf_at full 4096)) as (st & rest & Hs & Hn & Hf & Hk);
    [reflexivity|reflexivity|discriminate|reflexivity|].
  exists st, rest. split; [exact Hs|]. split; [exact Hn|]. split; [exact Hf|]. rewrite Hk. vm_compute. reflexivity.
Defined.
