(* ===== verification/EplTreeBitmap.v ===== *)
(** * The EPL-Tree with slot bitmaps and fingerprints ([USE_BITMAP], [USE_FGPT])

    The other configuration of [src/entry.h] and [src/epltree.h]: the index maps
    routing keys to metadata in DRAM, which hold a bitmap of the slots in use,
    one-byte fingerprints of the keys ([USE_FGPT], the flag of the section) and
    a 48-bit pointer to the leaf.  Metadata are named by numbers.

    The SSE comparison in [Get] is given by its result, [cmp_mask]: bit [i] tells
    whether byte [i] of the 16 loaded ones is the hash; the first two bytes are
    those of the bitmap. *)
From S2P Require Import Prelude NvmAlloc Entry Index EplTree EplTreeInv.

(** ** Metadata *)
Definition hashcode1B (x : Z) : Z :=
  let x := Z.lxor x (Z.shiftr x 32) in
  let x := Z.lxor x (Z.shiftr x 16) in
  let x := Z.lxor x (Z.shiftr x 8) in
  Z.land x 255.

Definition ffs_short (x : Z) : Z :=
  let '(num, x) := if bool_decide (Z.land x 255 = 0) then (9, Z.shiftr x 8) else (1, x) in
  let '(num, x) := if bool_decide (Z.land x 15 = 0) then (num + 4, Z.shiftr x 4) else (num, x) in
  let '(num, x) := if bool_decide (Z.land x 3 = 0) then (num + 2, Z.shiftr x 2) else (num, x) in
  if bool_decide (Z.land x 1 = 0) then num + 1 else num.

(** [EntryPointer]: 48 bits relative to [base_addr]. *)
Definition Setup (base_addr entry : Z) : Z := wrap 48 (u64 (entry - base_addr)).
Definition pointer (base_addr pointer_ : Z) : Z := u64 (pointer_ + base_addr).
Definition HasSetup (pointer_ : Z) : bool := bool_decide (Z.land pointer_ 1 = 0).

Record MetaData : Type := mkMeta {
  bitmap : Z;
  fgpt : list Z;
  entryPointer : Z
}.

Definition MetaData_new (base_addr entry : Z) : MetaData :=
  mkMeta 0 (replicate KVS_PER_ENTRY 0) (Setup base_addr entry).

Definition set_bitmap (pos : Z) (d : MetaData) : MetaData :=
  mkMeta (u16 (Z.lor (bitmap d) (Z.shiftl 1 pos))) (fgpt d) (entryPointer d).
(** [~bitmap] is promoted to [int] and cut to 16 bits again. *)
Definition find_first_zero (d : MetaData) : Z := ffs_short (u16 (Z.lnot (bitmap d))) - 1.
Definition reset_half_bitmap (d : MetaData) : MetaData := mkMeta 127 (fgpt d) (entryPointer d).

Fixpoint set_low_bits (n : nat) (b : Z) : Z :=
  match n with O => b | S n => set_low_bits n (u16 (Z.lor b (Z.shiftl 1 (Z.of_nat n)))) end.
Definition reset_n_bitmap (n : nat) (d : MetaData) : MetaData :=
  if bool_decide (n = KVS_PER_ENTRY) then mkMeta 16383 (fgpt d) (entryPointer d)
  else mkMeta (set_low_bits n (bitmap d)) (fgpt d) (entryPointer d).

Fixpoint set_n_fgpt_loop (n i : nat) (kvs : list (Z * Z)) (f : list Z) : res (list Z) :=
  match n with
  | O => Ret f
  | S n =>
      let* kv := of_option (kvs !! i) in
      if bool_decide (i < length f)%nat then set_n_fgpt_loop n (S i) kvs (<[i := hashcode1B kv.1]> f) else Fault
  end.
Definition set_n_fgpt (kvs : list (Z * Z)) (size : nat) (d : MetaData) : res MetaData :=
  let* f := set_n_fgpt_loop size 0 kvs (fgpt d) in Ret (mkMeta (bitmap d) f (entryPointer d)).
Definition set_fgpt (pos : nat) (key_hash : Z) (d : MetaData) : res MetaData :=
  if bool_decide (pos < length (fgpt d))%nat
  then Ret (mkMeta (bitmap d) (<[pos := key_hash]> (fgpt d)) (entryPointer d)) else Fault.
Definition reset_half_fgpt (d : MetaData) : MetaData :=
  mkMeta (bitmap d) (take (KVS_PER_ENTRY / 2) (fgpt d) ++ replicate ((KVS_PER_ENTRY + 1) / 2) 0) (entryPointer d).

(** ** Searching by fingerprints *)
(** [_mm_cmpeq_epi8] and [_mm_movemask_epi8] *)
Fixpoint cmp_mask (bytes : list Z) (key_hash : Z) (i : Z) : Z :=
  match bytes with
  | [] => 0
  | x :: bytes => Z.lor (if bool_decide (x = key_hash) then Z.shiftl 1 i else 0) (cmp_mask bytes key_hash (i + 1))
  end.
(** The first 16 bytes of the metadata. *)
Definition first_bytes (d : MetaData) : list Z := [Z.land (bitmap d) 255; Z.shiftr (bitmap d) 8] ++ fgpt d.
Definition candidates (key_hash : Z) (d : MetaData) : Z :=
  Z.land (Z.shiftr (cmp_mask (first_bytes d) key_hash 0) 2) (bitmap d).

(** [__builtin_ffs(mask) - 1] *)
Definition first_bit (mask : Z) : Z :=
  from_option snd (-1) (list_find (λ i, Z.testbit mask i = true) (seqZ 0 32)).

Fixpoint mask_loop (fuel : nat) (key mask : Z) (e : Entry) : res (option Z) :=
  match fuel with
  | O => Diverge
  | S fuel =>
      if bool_decide (mask = 0) then Ret None
      else
        let j := first_bit mask in
        let* kv := of_option (kvs e !! Z.to_nat j) in
        if bool_decide (kv.1 = key) then Ret (Some kv.2)
        else mask_loop fuel key (Z.land mask (Z.lnot (Z.shiftl 1 j))) e
  end.
Definition fgpt_search (key : Z) (d : MetaData) (e : Entry) : res (option Z) :=
  mask_loop 17 key (candidates (hashcode1B key) d) e.

(** ** The tree *)
Section tree.
Context `{OrderedIndex idx} (use_fgpt : bool).

Record BTree : Type := mkBTree {
  b_nvm : gmap Z Entry;
  b_alloc : Alloc.t;
  b_head : Z;
  b_index : idx;
  metas : gmap Z MetaData;
  next_meta : Z;
  base_addr : Z
}.
Implicit Types (s : BTree) (d : MetaData).

Definition b_with_nvm (m : gmap Z Entry) s : BTree :=
  mkBTree m (b_alloc s) (b_head s) (b_index s) (metas s) (next_meta s) (base_addr s).
Definition b_with_index (i : idx) s : BTree :=
  mkBTree (b_nvm s) (b_alloc s) (b_head s) i (metas s) (next_meta s) (base_addr s).
Definition set_meta (p : Z) d s : BTree :=
  mkBTree (b_nvm s) (b_alloc s) (b_head s) (b_index s) (<[p := d]> (metas s)) (next_meta s) (base_addr s).
(** [new MetaData]; [malloc] returns an address not in use. *)
Definition new_meta d s : Z * BTree :=
  (next_meta s, mkBTree (b_nvm s) (b_alloc s) (b_head s) (b_index s) (<[next_meta s := d]> (metas s))
    (next_meta s + 1) (base_addr s)).

Definition b_load (p : Z) s : res Entry := if bool_decide (p = 0) then Fault else of_option (b_nvm s !! p).
Definition b_store (p : Z) (e : Entry) s : BTree := b_with_nvm (<[p := e]> (b_nvm s)) s.
Definition b_modify (p : Z) (f : Entry → res Entry) s : res BTree :=
  let* e := b_load p s in let* e := f e in Ret (b_store p e s).
Definition b_run (p : Z) (f : Entry → res (Z * Entry)) s : res (Z * BTree) :=
  let* e := b_load p s in let* '(st, e) := f e in Ret (st, b_store p e s).
Definition b_alloc_entry s : res (Z * BTree) :=
  let '(p, a) := Alloc.alloc_aligned sizeof_Entry 256 (b_alloc s) in
  if bool_decide (p + sizeof_Entry ≤ Alloc.pmem_addr_ a + Alloc.mapped_len_ a)
  then Ret (p, mkBTree (b_nvm s) a (b_head s) (b_index s) (metas s) (next_meta s) (base_addr s))
  else Fault.

(** [*(index->get_payload_last_no_greater_than(key))] and the leaf it names. *)
Definition find_meta (key : Z) s : res Z := of_option (get_payload_last_no_greater_than key (b_index s)).
Definition load_meta (p : Z) s : res MetaData := of_option (metas s !! p).
Definition entry_of d s : Z := pointer (base_addr s) (entryPointer d).
Definition find_data (key : Z) s : res (Z * MetaData * Z) :=
  let* p := find_meta key s in let* d := load_meta p s in Ret (p, d, entry_of d s).

Definition b_Get (key val0 : Z) s : res (Z * Z) :=
  let* '(_, d, entry) := find_data key s in
  let* e := b_load entry s in
  if use_fgpt then
    let* r := fgpt_search key d e in
    match r with Some val => Ret (STATUS_OK, val) | None => Ret (STATUS_FAIL, 0) end
  else
    let '(st, val) := Entry.Get key val0 e in
    if bool_decide (st ≠ STATUS_OK) then Ret (STATUS_FAIL, 0) else Ret (STATUS_OK, val).

Definition b_splitEntry (data : Z) s : res BTree :=
  let* d := load_meta data s in
  let entry := entry_of d s in
  let* e := b_load entry s in
  let tmp_kvs := sort_kvs (kvs e) in
  let* '(new_entry, s) := b_alloc_entry s in
  let* m := of_option (tmp_kvs !! (KVS_PER_ENTRY / 2)%nat) in
  let new_min_key := m.1 in
  let upper := drop (KVS_PER_ENTRY / 2) tmp_kvs in
  let* ne := Entry_new_kvs new_min_key upper ((KVS_PER_ENTRY + 1) / 2) in
  let s := b_store new_entry ne s in
  let* s := b_modify entry (λ e, Ret (setFlag 1 e)) s in
  let* e := b_load entry s in
  let* s := b_modify new_entry (λ ne, Ret (with_next (next e) ne)) s in
  let* s := b_modify entry (λ e, Ret (with_next new_entry e)) s in
  let nd := reset_half_bitmap (MetaData_new (base_addr s) new_entry) in
  let* nd := if use_fgpt then set_n_fgpt upper ((KVS_PER_ENTRY + 1) / 2) nd else Ret nd in
  let '(newData, s) := new_meta nd s in
  let s := b_with_index (idx_insert new_min_key newData (b_index s)) s in
  let* s := b_modify entry (setOrderedKVs tmp_kvs (KVS_PER_ENTRY / 2)) s in
  let d := reset_half_bitmap d in
  let* d := if use_fgpt then set_n_fgpt tmp_kvs (KVS_PER_ENTRY / 2) d else Ret d in
  let s := set_meta data d s in
  b_modify entry (λ e, Ret (setFlag 0 e)) s.

Definition b_Insert (key val : Z) s : res (Z * BTree) :=
  let* '(data, d, entry) := find_data key s in
  let* '(data, d, entry) := if bool_decide (entry = 0) then find_data (u64 (key - 1)) s else Ret (data, d, entry) in
  let pos := find_first_zero d in
  if bool_decide (Z.of_nat KVS_PER_ENTRY ≤ pos) then
    let* s := b_splitEntry data s in
    let* e := b_load entry s in
    let* ne := b_load (next e) s in
    if bool_decide (GetMinKey ne ≤ key) then b_run (next e) (MaybePut key val) s
    else b_run entry (MaybePut key val) s
  else
    let* '(_, s) := b_run entry (PutAtPos key val (Z.to_nat pos)) s in
    let d := set_bitmap pos d in
    let* d := if use_fgpt then set_fgpt (Z.to_nat pos) (hashcode1B key) d else Ret d in
    Ret (STATUS_OK, set_meta data d s).

Definition b_Update (key val : Z) s : res (Z * BTree) :=
  let* '(_, _, entry) := find_data key s in b_run entry (Entry.Update key val) s.
Definition b_Remove (key : Z) s : res (Z * BTree) :=
  let* '(_, _, entry) := find_data key s in b_run entry (Entry.Remove key) s.

(** [EPLTree::EPLTree]: the first leaf is indexed even when a tree is reopened. *)
Definition b_new (recover : bool) (file : gmap Z Entry) (a : Alloc.t) : res BTree :=
  let* '(p, s) := b_alloc_entry (mkBTree file a 0 idx_new ∅ 1 (Alloc.pmem_addr_ a)) in
  let s := mkBTree (b_nvm s) (b_alloc s) p (b_index s) (metas s) (next_meta s) (base_addr s) in
  let s := if recover then s else b_store p (Entry_new INVALID_KEY) s in
  let '(data, s) := new_meta (MetaData_new (base_addr s) p) s in
  Ret (b_with_index (idx_insert INVALID_KEY data (b_index s)) s).

Fixpoint b_recover_loop (fuel : nat) (cap cur : Z) (index_kvs : list (Z * Z)) s : res (list (Z * Z) * BTree) :=
  if bool_decide (cur = 0) then Ret (index_kvs, s) else
  match fuel with
  | O => Diverge
  | S fuel =>
      let* e := b_load cur s in
      let '(data, s) := new_meta (MetaData_new (base_addr s) cur) s in
      if bool_decide (Z.of_nat (length index_kvs) < cap)
      then b_recover_loop fuel cap (next e) (index_kvs ++ [(GetMinKey e, data)]) s
      else Fault
  end.
Definition b_Recover (fuel : nat) (load_size : Z) s : res BTree :=
  let cap := load_size / Z.of_nat KVS_PER_ENTRY + 1 in
  let* '(index_kvs, s) := b_recover_loop fuel cap (b_head s) [] s in
  Ret (b_with_index (idx_bulk_load index_kvs (b_index s)) s).

Fixpoint b_bulk_loop (fuel i : nat) (bulk_kvs : list (Z * Z)) (num_keys : nat) (cap cur : Z)
    (index_kvs : list (Z * Z)) s : res (list (Z * Z) * BTree) :=
  if bool_decide (KVS_PER_ENTRY * i < num_keys)%nat then
    match fuel with
    | O => Diverge
    | S fuel =>
        let* '(new_entry, s) := b_alloc_entry s in
        let* kv := of_option (bulk_kvs !! (i * KVS_PER_ENTRY)%nat) in
        let new_min_key := kv.1 in
        let size := Nat.min (num_keys - i * KVS_PER_ENTRY) KVS_PER_ENTRY in
        let* e := Entry_new_kvs new_min_key (drop (i * KVS_PER_ENTRY) bulk_kvs) size in
        let s := b_store new_entry e s in
        let* s := b_modify cur (λ e, Ret (with_next new_entry e)) s in
        let* ce := b_load cur s in
        let cur := next ce in
        let '(data, s) := new_meta (reset_n_bitmap size (MetaData_new (base_addr s) new_entry)) s in
        if bool_decide (Z.of_nat (length index_kvs) < cap)
        then b_bulk_loop fuel (S i) bulk_kvs num_keys cap cur (index_kvs ++ [(new_min_key, data)]) s
        else Fault
    end
  else Ret (index_kvs, s).
Definition b_BulkLoad (bulk_kvs : list (Z * Z)) (num_keys : nat) s : res BTree :=
  if bool_decide (num_keys = 0)%nat then Ret s else
  let cap := Z.of_nat (num_keys / KVS_PER_ENTRY) + 1 in
  let size := Nat.min num_keys KVS_PER_ENTRY in
  let* s := b_modify (b_head s) (setOrderedKVs bulk_kvs size) s in
  let s := b_with_index (idx_erase INVALID_KEY (b_index s)) s in
  let '(data, s) := new_meta (reset_n_bitmap size (MetaData_new (base_addr s) (b_head s))) s in
  let* h := b_load (b_head s) s in
  let index_kvs := [(GetMinKey h, data)] in
  if bool_decide (num_keys ≤ KVS_PER_ENTRY)%nat then Ret s else
  let* '(index_kvs, s) := b_bulk_loop num_keys 1 bulk_kvs num_keys cap (b_head s) index_kvs s in
  Ret (b_with_index (idx_bulk_load index_kvs (b_index s)) s).
End tree.
Arguments BTree : clear implicits.

(** ** Bits *)
Section bits.
Implicit Types (b x i : Z).

(** [ffs_short] halves a range that holds a 1. *)
Definition lowest x p : Prop := 0 ≤ p ∧ Z.testbit x p = true ∧ ∀ i, 0 ≤ i < p → Z.testbit x i = false.
Definition one_below x (w : Z) : Prop := ∃ i, 0 ≤ i < w ∧ Z.testbit x i = true.

Lemma halve (k w : Z) x :
  0 ≤ k → w = 2 * k → one_below x w →
  (Z.land x (Z.ones k) = 0 → one_below (Z.shiftr x k) k ∧ ∀ p, lowest (Z.shiftr x k) p → lowest x (p + k)) ∧
  (Z.land x (Z.ones k) ≠ 0 → one_below x k).
Proof.
  intros Hk -> (i & Hi & Hb).
  assert (∀ j, 0 ≤ j < k → Z.testbit (Z.land x (Z.ones k)) j = Z.testbit x j) as Hland.
  { intros j Hj. by rewrite Z.land_spec, Z.ones_spec_low, andb_true_r by lia. }
  split.
  - intros Hz. assert (∀ j, 0 ≤ j < k → Z.testbit x j = false) as Hlow.
    { intros j Hj. rewrite <- Hland, Hz by done. apply Z.testbit_0_l. }
    assert (k ≤ i) by (destruct (decide (k ≤ i)); [done|rewrite Hlow in Hb by lia; done]). split.
    + exists (i - k). split; [lia|]. rewrite Z.shiftr_spec by lia. by replace (i - k + k) with i by lia.
    + intros p (Hp & Ht & Hf). rewrite Z.shiftr_spec in Ht by lia. split; [lia|]. split; [done|]. intros j Hj.
      destruct (decide (j < k)); [apply Hlow; lia|]. specialize (Hf (j - k) ltac:(lia)).
      rewrite Z.shiftr_spec in Hf by lia. by replace (j - k + k) with j in Hf by lia.
  - intros Hnz. rewrite Z.land_ones in * by lia. pose proof (Z.mod_pos_bound x (2 ^ k) ltac:(lia)) as Hr.
    exists (Z.log2 (x mod 2 ^ k)). split.
    + split; [apply Z.log2_nonneg|]. apply Z.log2_lt_pow2; lia.
    + rewrite <- Hland by (split; [apply Z.log2_nonneg|]; apply Z.log2_lt_pow2; lia). apply Z.bit_log2. lia.
Qed.

Lemma halve_step (k w m n : Z) x :
  0 ≤ k → w = 2 * k → m = Z.ones k → one_below x w →
  let '(n', x') := if bool_decide (Z.land x m = 0) then (n + k, Z.shiftr x k) else (n, x) in
  one_below x' k ∧ ∀ p, lowest x' p → lowest x (p + (n' - n)).
Proof.
  intros Hk Hw -> Hx. destruct (halve k w x Hk Hw Hx) as [Hz Hnz]. case_bool_decide as E.
  - destruct (Hz E) as [Ho Hl]. split; [done|]. intros p. replace (n + k - n) with k by lia. apply Hl.
  - split; [by apply Hnz|]. intros p. by rewrite Z.sub_diag, Z.add_0_r.
Qed.

Lemma ffs_short_spec x : one_below x 16 → lowest x (ffs_short x - 1).
Proof.
  intros H. unfold ffs_short. change 9 with (1 + 8).
  pose proof (halve_step 8 16 255 1 x ltac:(lia) eq_refl eq_refl H) as H1. destruct (if bool_decide _ then _ else _) as [n1 x1].
  destruct H1 as [H1 L1]. pose proof (halve_step 4 8 15 n1 x1 ltac:(lia) eq_refl eq_refl H1) as H2.
  destruct (if bool_decide _ then (n1 + 4, _) else _) as [n2 x2].
  destruct H2 as [H2 L2]. pose proof (halve_step 2 4 3 n2 x2 ltac:(lia) eq_refl eq_refl H2) as H3.
  destruct (if bool_decide _ then (n2 + 2, _) else _) as [n3 x3].
  destruct H3 as [H3 L3]. pose proof (halve_step 1 2 1 n3 x3 ltac:(lia) eq_refl eq_refl H3) as H4.
  assert ((if bool_decide (Z.land x3 1 = 0) then n3 + 1 else n3) =
    (if bool_decide (Z.land x3 1 = 0) then (n3 + 1, Z.shiftr x3 1) else (n3, x3)).1) as -> by (by case_bool_decide).
  destruct (if bool_decide _ then (n3 + 1, _) else _) as [n4 x4]. destruct H4 as [(i & Hi & Hb) L4]. cbn [fst].
  replace i with 0 in Hb by lia. assert (lowest x4 0) as L5 by (split; [done|]; split; [done|lia]).
  apply L4, L3, L2, L1 in L5. by replace (n4 - 1) with (0 + (n4 - n3) + (n3 - n2) + (n2 - n1) + (n1 - 1)) by lia.
Qed.

Lemma find_first_zero_spec d :
  0 ≤ bitmap d < 65535 →
  let p := find_first_zero d in 0 ≤ p < 16 ∧ Z.testbit (bitmap d) p = false ∧ ∀ i, 0 ≤ i < p → Z.testbit (bitmap d) i = true.
Proof.
  intros Hb. assert (∀ i, 0 ≤ i < 16 → Z.testbit (u16 (Z.lnot (bitmap d))) i = negb (Z.testbit (bitmap d) i)) as Hnot.
  { intros i Hi. unfold wrap. by rewrite Z.mod_pow2_bits_low, Z.lnot_spec by lia. }
  assert (one_below (u16 (Z.lnot (bitmap d))) 16) as Ho.
  { destruct (decide (u16 (Z.lnot (bitmap d)) = 0)) as [E|E].
    - exfalso. unfold wrap, Z.lnot in E. Z.to_euclidean_division_equations. lia.
    - pose proof (wrap_range 16 (Z.lnot (bitmap d)) ltac:(lia)) as Hr. exists (Z.log2 (u16 (Z.lnot (bitmap d)))).
      split; [split; [apply Z.log2_nonneg|apply Z.log2_lt_pow2; lia]|apply Z.bit_log2; lia]. }
  destruct (ffs_short_spec _ Ho) as (Hp & Ht & Hf). destruct Ho as (i & Hi & Hbi). cbn. unfold find_first_zero.
  set (p := ffs_short _ - 1) in *. assert (p ≤ i) by (destruct (decide (p ≤ i)); [done|]; rewrite Hf in Hbi by lia; done).
  split; [lia|]. rewrite Hnot in Ht by lia. split; [by destruct (Z.testbit (bitmap d) p)|]. intros j Hj.
  specialize (Hf j Hj). rewrite Hnot in Hf by lia. by destruct (Z.testbit (bitmap d) j).
Qed.

Lemma cmp_mask_spec f h : ∀ i j, 0 ≤ i → 0 ≤ j →
  Z.testbit (cmp_mask f h i) j = bool_decide (i ≤ j ∧ f !! Z.to_nat (j - i) = Some h).
Proof.
  induction f as [|x f IH]; intros i j Hi Hj; cbn [cmp_mask].
  - rewrite Z.testbit_0_l. symmetry. apply bool_decide_eq_false_2. by intros [_ ?].
  - rewrite Z.lor_spec, IH by lia.
    assert (Z.testbit (if bool_decide (x = h) then Z.shiftl 1 i else 0) j = bool_decide (j = i ∧ x = h)) as ->.
    { case_bool_decide as Hx.
      - rewrite Z.shiftl_mul_pow2, Z.mul_1_l, Z.pow2_bits_eqb by lia.
        destruct (Z.eqb_spec i j) as [->|]; symmetry; [by apply bool_decide_eq_true_2|apply bool_decide_eq_false_2; lia].
      - rewrite Z.testbit_0_l. symmetry. apply bool_decide_eq_false_2. tauto. }
    destruct (decide (j = i)) as [->|Hne].
    + rewrite (bool_decide_eq_false_2 (i + 1 ≤ i ∧ _)), orb_false_r by lia. rewrite Z.sub_diag. apply bool_decide_ext.
      cbn. naive_solver lia.
    + rewrite (bool_decide_eq_false_2 (j = i ∧ _)) by tauto. rewrite orb_false_l. apply bool_decide_ext.
      destruct (decide (i ≤ j)); [|lia]. replace (Z.to_nat (j - i)) with (S (Z.to_nat (j - (i + 1)))) by lia. cbn. naive_solver lia.
Qed.

Lemma first_bit_lowest x : one_below x 32 → lowest x (first_bit x).
Proof.
  intros (i & Hi & Hb). unfold first_bit. destruct (list_find _ _) as [[n y]|] eqn:E; cbn.
  - apply list_find_Some in E as (Hy & Ht & Hf). rewrite lookup_seqZ in Hy. destruct Hy as [-> Hn]. split; [lia|].
    split; [done|]. intros j Hj. specialize (Hf (Z.to_nat j) j). apply not_true_is_false, Hf; [|lia].
    apply lookup_seqZ. lia.
  - apply list_find_None in E. rewrite list.Forall_forall in E. destruct (E i); [apply elem_of_seqZ; lia|done].
Qed.

Lemma below_nonzero x w : 0 ≤ w → 0 ≤ x < 2 ^ w → x ≠ 0 → one_below x w.
Proof.
  intros ? ? ?. exists (Z.log2 x). split; [|apply Z.bit_log2; lia].
  split; [apply Z.log2_nonneg|]. apply Z.log2_lt_pow2; lia.
Qed.
Lemma testbit_above x w i : 0 ≤ x < 2 ^ w → 0 ≤ w ≤ i → Z.testbit x i = false.
Proof.
  intros. destruct (decide (x = 0)) as [->|]; [apply Z.testbit_0_l|]. apply Z.bits_above_log2; [lia|].
  apply Z.log2_lt_pow2; [lia|]. pose proof (Z.pow_le_mono_r 2 w i). lia.
Qed.
Lemma clear_bit x j i :
  0 ≤ j → 0 ≤ i → Z.testbit (Z.land x (Z.lnot (Z.shiftl 1 j))) i = Z.testbit x i && negb (bool_decide (i = j)).
Proof.
  intros. rewrite Z.land_spec, Z.lnot_spec, Z.shiftl_mul_pow2, Z.mul_1_l, Z.pow2_bits_eqb by lia. do 2 f_equal.
  destruct (Z.eqb_spec j i); case_bool_decide; congruence.
Qed.
Lemma clear_range x m w : 0 ≤ w → 0 ≤ x < 2 ^ w → 0 ≤ Z.land x m < 2 ^ w.
Proof.
  intros Hw Hx. assert (0 ≤ Z.land x m) by (apply Z.land_nonneg; lia). split; [done|].
  destruct (decide (Z.land x m = 0)) as [->|]; [lia|]. apply Z.log2_lt_pow2; [lia|].
  destruct (Z_lt_dec (Z.log2 (Z.land x m)) w); [done|]. exfalso.
  pose proof (Z.bit_log2 (Z.land x m) ltac:(lia)) as Hb. rewrite Z.land_spec, (testbit_above x w) in Hb by lia. done.
Qed.
End bits.

(** ** Metadata that describe their leaf *)
Section leaf.
Implicit Types (d : MetaData) (e : Entry).

(** Every pair has its bit and its fingerprint. *)
Definition meta_ok d e : Prop :=
  0 ≤ bitmap d < 2 ^ 14 ∧ length (fgpt d) = KVS_PER_ENTRY ∧
  ∀ i k v, kvs e !! i = Some (k, v) → k ≠ 0 →
    Z.testbit (bitmap d) (Z.of_nat i) = true ∧ fgpt d !! i = Some (hashcode1B k).

(** The bits of [mask] below [p] are spent. *)
Lemma mask_loop_spec key e : key ≠ 0 → entry_wf e → ∀ fuel (p : nat) mask,
  (∀ i, 0 ≤ i < Z.of_nat p → Z.testbit mask i = false) → (p ≤ 14 < p + fuel)%nat → 0 ≤ mask < 2 ^ 14 →
  (∀ (i : nat) v, kvs e !! i = Some (key, v) → Z.testbit mask (Z.of_nat i) = true) →
  mask_loop fuel key mask e = Ret (contents e !! key).
Proof.
  intros Hk Hwf. induction fuel as [|fuel IH]; intros p mask Hp Hf Hm Hc; [lia|]. cbn [mask_loop].
  case_bool_decide as Hz.
  - subst mask. f_equal. symmetry. apply contents_None. intros ([k v] & -> & Hin)%list_elem_of_fmap.
    apply elem_of_live in Hin as [_ [i Hi]%list_elem_of_lookup]. apply Hc in Hi. by rewrite Z.testbit_0_l in Hi.
  - destruct (below_nonzero mask 14) as (i & Hi & Hb); [lia..|].
    destruct (first_bit_lowest mask) as (Hj & Ht & Hl); [exists i; split; [lia|done]|]. set (j := first_bit mask) in *.
    assert (Z.of_nat p ≤ j) by (destruct (decide (Z.of_nat p ≤ j)); [done|rewrite Hp in Ht by lia; done]).
    assert (j ≤ i) by (destruct (decide (j ≤ i)); [done|rewrite Hl in Hb by lia; done]).
    pose proof (proj1 Hwf) as Hlen. destruct (lookup_lt_is_Some_2 (kvs e) (Z.to_nat j)) as [[k v] Hjk].
    { rewrite Hlen. change KVS_PER_ENTRY with 14%nat. lia. }
    rewrite Hjk. cbn. case_bool_decide as Hkj; [subst k|].
    + f_equal. symmetry. apply contents_elem; [done..|]. by eapply list_elem_of_lookup_2.
    + apply (IH (S (Z.to_nat j))); [|lia|by apply clear_range|].
      * intros i' Hi'. rewrite clear_bit by lia. case_bool_decide; [by rewrite andb_false_r|]. by rewrite Hl by lia.
      * intros i' v' Hi'. rewrite clear_bit, (Hc _ v') by (done || lia). cbn. rewrite bool_decide_eq_false_2; [done|].
        intros <-. rewrite Nat2Z.id in Hjk. congruence.
Qed.

Lemma candidates_spec h d (i : nat) :
  Z.testbit (candidates h d) (Z.of_nat i) = bool_decide (fgpt d !! i = Some h) && Z.testbit (bitmap d) (Z.of_nat i).
Proof.
  unfold candidates. rewrite Z.land_spec, Z.shiftr_spec, cmp_mask_spec by lia. f_equal. apply bool_decide_ext.
  replace (Z.to_nat (Z.of_nat i + 2 - 0)) with (S (S i)) by lia. cbn. split; [by intros [_ ?]|intros ?; split; [lia|done]].
Qed.

Lemma fgpt_search_contents key d e :
  key ≠ 0 → entry_wf e → meta_ok d e → fgpt_search key d e = Ret (contents e !! key).
Proof.
  intros Hk Hwf (Hb & Hl & Hs). apply (mask_loop_spec key e Hk Hwf 17 0); [lia..| |].
  - unfold candidates. rewrite Z.land_comm. apply clear_range; lia.
  - intros i v Hi. destruct (Hs i key v Hi Hk) as [Ht Hf]. by rewrite candidates_spec, Ht, bool_decide_eq_true_2.
Qed.

Lemma set_bitmap_bits pos d :
  0 ≤ pos < 14 → 0 ≤ bitmap d < 2 ^ 14 → 0 ≤ bitmap (set_bitmap pos d) < 2 ^ 14 ∧
  ∀ i, 0 ≤ i → Z.testbit (bitmap (set_bitmap pos d)) i = Z.testbit (bitmap d) i || bool_decide (i = pos).
Proof.
  intros Hp Hd. cbn. set (b := Z.lor (bitmap d) (Z.shiftl 1 pos)).
  assert (∀ i, 0 ≤ i → Z.testbit b i = Z.testbit (bitmap d) i || bool_decide (i = pos)) as Hbit.
  { intros i Hi. unfold b. rewrite Z.lor_spec, Z.shiftl_mul_pow2, Z.mul_1_l, Z.pow2_bits_eqb by lia. f_equal.
    destruct (Z.eqb_spec pos i); case_bool_decide; congruence. }
  assert (0 ≤ b < 2 ^ 14) as Hr.
  { assert (0 ≤ b) by (apply Z.lor_nonneg; rewrite Z.shiftl_nonneg; lia). split; [done|].
    destruct (decide (b = 0)) as [->|]; [lia|]. apply Z.log2_lt_pow2; [lia|].
    destruct (Z_lt_dec (Z.log2 b) 14); [done|]. exfalso. pose proof (Z.bit_log2 b ltac:(lia)) as Ht.
    rewrite Hbit, (testbit_above _ 14), bool_decide_eq_false_2 in Ht by lia. done. }
  rewrite wrap_small by lia. done.
Qed.

(** The slot [find_first_zero] names is empty. *)
Lemma first_zero_empty d e :
  entry_wf e → meta_ok d e → find_first_zero d < 14 →
  ∃ l1 v l2, kvs e = l1 ++ (0, v) :: l2 ∧ Z.of_nat (length l1) = find_first_zero d.
Proof.
  intros [Hl _] (Hb & _ & Hs) Hp. destruct (find_first_zero_spec d) as (Hp0 & Ht & _); [lia|].
  destruct (lookup_lt_is_Some_2 (kvs e) (Z.to_nat (find_first_zero d))) as [[k v] Hi].
  { rewrite Hl. change KVS_PER_ENTRY with 14%nat. lia. }
  assert (k = 0) as ->.
  { destruct (decide (k = 0)); [done|]. destruct (Hs _ _ _ Hi) as [Hc _]; [done|]. rewrite Z2Nat.id in Hc by lia. congruence. }
  destruct (alter_split _ _ _ Hi) as (l1 & l2 & E & Hn & _). exists l1, v, l2. split; [done|]. rewrite Hn. lia.
Qed.

Lemma insert_step key val d e :
  key ≠ 0 → entry_wf e → meta_ok d e → contents e !! key = None → find_first_zero d < 14 →
  let p := find_first_zero d in
  ∃ e' d', PutAtPos key val (Z.to_nat p) e = Ret (STATUS_OK, e') ∧
    set_fgpt (Z.to_nat p) (hashcode1B key) (set_bitmap p d) = Ret d' ∧ entryPointer d' = entryPointer d ∧
    entry_wf e' ∧ meta_ok d' e' ∧ contents e' = <[key := val]> (contents e) ∧ same_meta e e'.
Proof.
  intros Hk Hwf Hm Hn Hp. destruct (first_zero_empty d e Hwf Hm Hp) as (l1 & v & l2 & E & Hlen).
  cbn. rewrite <- Hlen, Nat2Z.id. destruct Hwf as [Hl Hnd], Hm as (Hb & Hf & Hs).
  destruct (set_bitmap_bits (Z.of_nat (length l1)) d) as [Hb' Hbit]; [lia|done|].
  assert (length l1 < KVS_PER_ENTRY)%nat by (rewrite E, length_app in Hl; cbn in Hl; lia).
  destruct (slots_new l1 l2 v key val) as [Hnd' Hmap]; [done|unfold contents in Hn; by rewrite <- E|by rewrite <- E|].
  exists (with_kvs (l1 ++ (key, val) :: l2) e).
  exists (mkMeta (bitmap (set_bitmap (Z.of_nat (length l1)) d)) (<[length l1 := hashcode1B key]> (fgpt d)) (entryPointer d)).
  split_and!; try done.
  - rewrite <- (res_bind_ret (λ e, Ret (STATUS_OK, e))), <- (set_pair_at l1 l2 (0, v) key val e) by done. unfold PutAtPos.
    by destruct (setVal _ _ e) as [e1| |]; cbn; [destruct (setKey _ _ e1)|..].
  - unfold set_fgpt. by rewrite bool_decide_eq_true_2 by (cbn [fgpt set_bitmap]; lia).
  - split; [|done]. rewrite E, length_app in Hl. cbn in Hl |- *. by rewrite length_app.
  - split; [exact Hb'|]. split; [cbn [fgpt]; by rewrite length_insert|]. intros i k w Hi Hk0. cbn [bitmap fgpt entryPointer kvs with_kvs] in Hi |- *. rewrite Hbit by lia.
    destruct (decide (i = length l1)) as [->|Hne].
    + rewrite bool_decide_eq_true_2, orb_true_r by done. rewrite list_lookup_insert_eq by lia.
      rewrite list_lookup_middle in Hi by done. by injection Hi as <- <-.
    + rewrite list_lookup_insert_ne by done. rewrite bool_decide_eq_false_2, orb_false_r by lia.
      apply (Hs i k w); [|done]. rewrite E. revert Hi. rewrite !lookup_app. destruct (l1 !! i) eqn:El; [done|].
      apply lookup_ge_None in El. by replace (i - length l1)%nat with (S (i - length l1 - 1)) by lia.
  - unfold contents. cbn [kvs with_kvs]. by rewrite E.
Qed.
End leaf.

(** A test for [meta_ok]. *)
Definition meta_okb (d : MetaData) (e : Entry) : bool :=
  bool_decide (0 ≤ bitmap d < 2 ^ 14 ∧ length (fgpt d) = KVS_PER_ENTRY) &&
  forallb (λ p : nat * (Z * Z), let '(i, kv) := p in bool_decide (kv.1 = 0) ||
    Z.testbit (bitmap d) (Z.of_nat i) && bool_decide (fgpt d !! i = Some (hashcode1B kv.1))) (imap pair (kvs e)).

Lemma meta_okb_sound d e : meta_okb d e = true → meta_ok d e.
Proof.
  unfold meta_okb. rewrite andb_true_iff, bool_decide_eq_true, forallb_forall. intros [[Hb Hl] Hf]. split; [done|].
  split; [done|]. intros i k v Hi Hk. specialize (Hf (i, (k, v))). cbn in Hf. rewrite bool_decide_eq_false_2 in Hf by done.
  cbn in Hf. rewrite andb_true_iff, bool_decide_eq_true in Hf. apply Hf, list_elem_of_In, list_elem_of_lookup.
  exists i. by rewrite list_lookup_imap, Hi.
Qed.

(** ** Properties *)
Section tree_props.
Context `{OrderedIndex idx}.
Implicit Types (s : BTree idx).

(** C23: a lookup by fingerprints and a lookup that compares all the keys of the
    leaf give the same result, the stored value, when the metadata describe
    the leaf. *)
Lemma fingerprint_Get_equivalent key val0 s p d entry e :
  key ≠ 0 → find_data key s = Ret (p, d, entry) → b_load entry s = Ret e → entry_wf e → meta_ok d e →
  b_Get true key val0 s = b_Get false key val0 s ∧
  b_Get true key val0 s =
    Ret (match contents e !! key with Some v => (STATUS_OK, v) | None => (STATUS_FAIL, 0) end).
Proof.
  intros Hk Hf Hl Hwf Hm. unfold b_Get. rewrite Hf, !res_bind_ret. cbn beta iota. rewrite Hl, !res_bind_ret.
  rewrite fgpt_search_contents, Get_spec, res_bind_ret by done. by destruct (contents e !! key).
Qed.

(** C24: an insert that finds a clear bit stores the pair in an empty slot, and
    the bitmap and the fingerprints it leaves describe the leaf again. *)
Lemma bitmap_Insert_correct key val s p d entry e :
  key ≠ 0 → find_data key s = Ret (p, d, entry) → b_load entry s = Ret e → entry_wf e → meta_ok d e →
  contents e !! key = None → find_first_zero d < Z.of_nat KVS_PER_ENTRY →
  ∃ e' d', b_Insert true key val s = Ret (STATUS_OK, set_meta p d' (b_store entry e' s)) ∧
    entry_wf e' ∧ meta_ok d' e' ∧ entryPointer d' = entryPointer d ∧ contents e' = <[key := val]> (contents e).
Proof.
  intros Hk Hf Hl Hwf Hm Hn Hp. destruct (insert_step key val d e Hk Hwf Hm Hn Hp) as (e' & d' & Hput & Hset & Hptr & Hwf' & Hm' & Hc & _).
  exists e', d'. split; [|done]. unfold b_Insert. rewrite Hf. cbn.
  rewrite bool_decide_eq_false_2 by (intros ->; by unfold b_load in Hl). cbn.
  rewrite bool_decide_eq_false_2 by lia. unfold b_run. rewrite Hl. cbn. rewrite Hput. cbn. rewrite Hset. done.
Qed.
End tree_props.

(** *** Runs with the reference index *)
Import MapIndex.

Definition b_start (recover : bool) (file : gmap Z Entry) : res (BTree MapIndex.t) :=
  b_new recover file (Alloc.init 1048576 4096).
Fixpoint b_inserts (use_fgpt : bool) (keys : list Z) (s : BTree MapIndex.t) : res (BTree MapIndex.t) :=
  match keys with
  | [] => Ret s
  | k :: keys => let* '(_, s) := b_Insert use_fgpt k (k * 10) s in b_inserts use_fgpt keys s
  end.

(** the 15th insert of a leaf splits it and puts its pair in a slot without
    recording it in the metadata: a lookup by fingerprints does not find it,
    and the next insert takes the same slot. *)
Lemma bitmap_split_forgets_key :
  (∃ s, (let* s := b_start false ∅ in b_inserts true (seqZ 1 15) s) = Ret s ∧
    b_Get true 14 0 s = Ret (STATUS_OK, 140) ∧
    b_Get true 15 0 s = Ret (STATUS_FAIL, 0) ∧ b_Get false 15 0 s = Ret (STATUS_OK, 150)) ∧
  (∃ s s', (let* s := b_start false ∅ in b_inserts false (seqZ 1 15) s) = Ret s ∧
    b_Get false 15 0 s = Ret (STATUS_OK, 150) ∧ b_inserts false [16] s = Ret s' ∧
    b_Get false 15 0 s' = Ret (STATUS_FAIL, 0) ∧ b_Get false 16 0 s' = Ret (STATUS_OK, 160)).
Proof.
  split.
  - eexists. split; [vm_compute; reflexivity|]. vm_compute. done.
  - eexists. eexists. split; [vm_compute; reflexivity|]. split; [vm_compute; reflexivity|].
    split; [vm_compute; reflexivity|]. vm_compute. done.
Qed.

(** the constructor has put the first leaf in the index, so the bulk load
    of [Recover] does nothing: the keys of the other leaves are lost, and the
    metadata of the first leaf have an empty bitmap, so that the first insert
    after a restart overwrites its first pair. *)
Lemma bitmap_Recover_loses_keys :
  (∃ s s', (let* s := b_start false ∅ in b_inserts true (seqZ 1 15) s) = Ret s ∧
    (let* s := b_start true (b_nvm s) in b_Recover 2 15 s) = Ret s' ∧
    b_Get false 15 0 s = Ret (STATUS_OK, 150) ∧ b_Get false 15 0 s' = Ret (STATUS_FAIL, 0)) ∧
  (∃ s s' s'', (let* s := b_start false ∅ in b_inserts false [5; 6] s) = Ret s ∧
    (let* s := b_start true (b_nvm s) in b_Recover 1 2 s) = Ret s' ∧
    b_Get false 5 0 s' = Ret (STATUS_OK, 50) ∧ b_inserts false [7] s' = Ret s'' ∧
    b_Get false 5 0 s'' = Ret (STATUS_FAIL, 0) ∧ b_Get false 6 0 s'' = Ret (STATUS_OK, 60)).
Proof.
  split.
  - eexists. eexists. split; [vm_compute; reflexivity|]. split; [vm_compute; reflexivity|]. vm_compute. done.
  - eexists. eexists. eexists. split; [vm_compute; reflexivity|]. split; [vm_compute; reflexivity|].
    split; [vm_compute; reflexivity|]. split; [vm_compute; reflexivity|]. vm_compute. done.
Qed.

(** *** Instances *)
Definition tree3 : BTree MapIndex.t :=
  match b_start false ∅ with
  | Ret s => match b_inserts true [5; 9; 6] s with Ret s => s | _ => mkBTree ∅ (Alloc.init 0 0) 0 ∅ ∅ 0 0 end
  | _ => mkBTree ∅ (Alloc.init 0 0) 0 ∅ ∅ 0 0
  end.
Definition meta3 : MetaData := default (mkMeta 0 [] 0) (metas tree3 !! 1).
Definition leaf3 : Entry := default zero_Entry (b_nvm tree3 !! 1048576).

Lemma leaf3_wf : entry_wf leaf3.
Proof. split; [by vm_compute|]. apply (bool_decide_unpack _). by vm_compute. Qed.

Lemma fingerprint_Get_equivalent_witness :
  b_Get true 9 0 tree3 = Ret (STATUS_OK, 90) ∧ b_Get true 7 0 tree3 = b_Get false 7 0 tree3.
Proof.
  split.
  - rewrite (proj2 (fingerprint_Get_equivalent 9 0 tree3 1 meta3 1048576 leaf3 ltac:(discriminate)
      ltac:(vm_compute; reflexivity) ltac:(vm_compute; reflexivity) leaf3_wf
      (meta_okb_sound meta3 leaf3 ltac:(vm_compute; reflexivity)))). vm_compute. reflexivity.
  - apply (fingerprint_Get_equivalent 7 0 tree3 1 meta3 1048576 leaf3 ltac:(discriminate)
      ltac:(vm_compute; reflexivity) ltac:(vm_compute; reflexivity) leaf3_wf
      (meta_okb_sound meta3 leaf3 ltac:(vm_compute; reflexivity))).
Defined.

Lemma bitmap_Insert_correct_witness :
  ∃ s', b_Insert true 7 70 tree3 = Ret (STATUS_OK, s').
Proof.
  destruct (bitmap_Insert_correct 7 70 tree3 1 meta3 1048576 leaf3) as (e' & d' & Hi & _).
  - discriminate.
  - vm_compute. reflexivity.
  - vm_compute. reflexivity.
  - exact leaf3_wf.
  - apply meta_okb_sound. vm_compute. reflexivity.
  - vm_compute. reflexivity.
  - vm_compute. reflexivity.
  - eexists. exact Hi.
Defined.
