(* ===== verification/Ieee.v ===== *)
(** * Floating-point numbers of the C++ code

    [double] is IEEE binary64 and [long double] the x87 extended format,
    both through the Standard Library's [SpecFloat]: every operation rounds
    to nearest, ties to even, as the hardware does. *)
From S2P Require Import Prelude.
From Stdlib Require Export SpecFloat.

Abbreviation double := spec_float (only parsing).
Abbreviation long_double := spec_float (only parsing).

(** Conversion of an integer, rounded. *)
Definition d_of_Z (z : Z) : double := binary_normalize 53 1024 z 0 false.
Definition ld_of_Z (z : Z) : long_double := binary_normalize 64 16384 z 0 false.

Definition d_add : double → double → double := SFadd 53 1024.
Definition d_sub : double → double → double := SFsub 53 1024.
Definition d_mul : double → double → double := SFmul 53 1024.
Definition d_div : double → double → double := SFdiv 53 1024.
Definition ld_add : long_double → long_double → long_double := SFadd 64 16384.
Definition ld_mul : long_double → long_double → long_double := SFmul 64 16384.
Definition ld_sub : long_double → long_double → long_double := SFsub 64 16384.
Definition ld_div : long_double → long_double → long_double := SFdiv 64 16384.
Definition d_lt (x y : double) : bool := SFltb x y.
Definition d_le (x y : double) : bool := SFleb x y.

(** [long double] to [double] and back (exact). *)
Definition d_of_ld (x : long_double) : double :=
  match x with
  | S754_finite s m e => binary_normalize 53 1024 (if s then Zneg m else Zpos m) e s
  | _ => x
  end.
Definition ld_of_d (x : double) : long_double :=
  match x with
  | S754_finite s m e => binary_normalize 64 16384 (if s then Zneg m else Zpos m) e s
  | _ => x
  end.

(** The integer part of a finite number, towards zero; a NaN or an infinity
    has none. *)
Definition sf_trunc (x : spec_float) : option Z :=
  match x with
  | S754_zero _ => Some 0
  | S754_finite s m e =>
      let a := if bool_decide (0 ≤ e) then Zpos m * 2 ^ e else Zpos m / 2 ^ (- e) in
      Some (if s then - a else a)
  | _ => None
  end.

(** A conversion to [int] or to [size_t] outside the range of the type is
    undefined; the hardware's "integer indefinite" value stands for it in the
    32-bit signed case. *)
Definition d_to_int (x : double) : Z :=
  match sf_trunc x with
  | Some z => if bool_decide (- 2 ^ 31 ≤ z < 2 ^ 31) then z else - 2 ^ 31
  | None => - 2 ^ 31
  end.

(** ** Magnitudes

    [normal x l]: [x] is a positive normal double with
    [2 ^ l <= x < 2 ^ (l + 1)]. *)
Definition normal (x : double) (l : Z) : Prop :=
  ∃ m, x = S754_finite false m (l - 52) ∧ Z.log2 (Zpos m) = 52.

Section rounding.
Implicit Types (m e l : Z) (mrs : shr_record).

Lemma digits2_log2 p : Zpos (digits2_pos p) = Z.log2 (Zpos p) + 1.
Proof.
  induction p as [p IH|p IH|]; cbn [digits2_pos]; [| |done];
    rewrite Pos2Z.inj_succ, IH.
  - change (Zpos p~1) with (2 * Zpos p + 1). rewrite Z.log2_succ_double by lia. lia.
  - change (Zpos p~0) with (2 * Zpos p). rewrite Z.log2_double by lia. lia.
Qed.

Lemma Zdigits2_log2 m : 0 < m → Zdigits2 m = Z.log2 m + 1.
Proof. destruct m; try lia. intros _. apply digits2_log2. Qed.

Lemma shr_1_spec mrs : 0 ≤ shr_m mrs → shr_m (shr_1 mrs) = shr_m mrs / 2.
Proof.
  destruct mrs as [[|p|p] r s]; intros Hm; [done| |by cbn in Hm].
  destruct p as [p|p|]; cbn [shr_m shr_1]; [| |done].
  - change (Zpos p~1) with (2 * Zpos p + 1). rewrite Z.mul_comm, Z.div_add_l by lia.
    by rewrite Z.add_0_r.
  - change (Zpos p~0) with (2 * Zpos p). by rewrite Z.mul_comm, Z.div_mul by lia.
Qed.

Lemma iter_shr_1 p mrs :
  0 ≤ shr_m mrs → shr_m (iter_pos shr_1 p mrs) = shr_m mrs / 2 ^ Zpos p.
Proof.
  assert (∀ q x, 0 ≤ x → 0 ≤ x / 2 ^ Zpos q) as Hpos by (intros; apply Z.div_pos; lia).
  revert mrs. induction p as [p IH|p IH|]; intros mrs Hm; cbn [iter_pos].
  - assert (shr_m (shr_1 mrs) = shr_m mrs / 2) as H1 by (by apply shr_1_spec).
    assert (0 ≤ shr_m (shr_1 mrs)) as P1 by (rewrite H1; apply Z.div_pos; lia).
    rewrite IH by (rewrite IH by done; by apply Hpos). rewrite IH, H1 by done.
    rewrite !Z.div_div by lia. f_equal.
    rewrite (Pos2Z.inj_xI p). replace (2 * Zpos p + 1) with (1 + (Zpos p + Zpos p)) by lia.
    rewrite !Z.pow_add_r by lia. lia.
  - rewrite IH by (rewrite IH by done; by apply Hpos). rewrite IH by done.
    rewrite Z.div_div by lia. f_equal.
    rewrite (Pos2Z.inj_xO p). replace (2 * Zpos p) with (Zpos p + Zpos p) by lia.
    by rewrite Z.pow_add_r by lia.
  - by apply shr_1_spec.
Qed.

Lemma log2_div_pow m n : 0 < m → 0 ≤ n ≤ Z.log2 m → Z.log2 (m / 2 ^ n) = Z.log2 m - n.
Proof.
  intros Hm Hn. rewrite <- Z.shiftr_div_pow2 by lia. rewrite Z.log2_shiftr by lia. lia.
Qed.

Lemma fexp_normal l : -1022 ≤ l → fexp 53 1024 (l + 1) = l - 52.
Proof. unfold fexp, emin. lia. Qed.

(** One alignment of a mantissa of at least 53 bits. *)
Lemma shr_fexp_spec m e l loc :
  0 < m → 52 ≤ Z.log2 m → l = Z.log2 m + e → -1022 ≤ l →
  ∃ mrs, shr_fexp 53 1024 m e loc = (mrs, l - 52) ∧ Z.log2 (shr_m mrs) = 52 ∧
    0 < shr_m mrs.
Proof.
  intros Hm Hl -> Hlo. unfold shr_fexp. rewrite Zdigits2_log2 by done.
  replace (Z.log2 m + 1 + e) with ((Z.log2 m + e) + 1) by lia. rewrite fexp_normal by done.
  assert (shr_m (shr_record_of_loc m loc) = m) as Hr by (by destruct loc as [|[]]).
  unfold shr. destruct (Z.log2 m + e - 52 - e) as [|p|p] eqn:E; [| |lia].
  - eexists; split; [f_equal; lia|]. rewrite Hr. lia.
  - eexists; split; [f_equal; lia|]. rewrite iter_shr_1 by lia. rewrite Hr.
    rewrite log2_div_pow by lia. split; [lia|].
    apply Z.div_str_pos. split; [lia|].
    transitivity (2 ^ Z.log2 m); [apply Z.pow_le_mono_r; lia|by apply Z.log2_spec].
Qed.

Lemma round_log2 m loc :
  0 < m → 0 < round_nearest_even m loc ∧
  (Z.log2 (round_nearest_even m loc) = Z.log2 m ∨
   Z.log2 (round_nearest_even m loc) = Z.log2 m + 1).
Proof.
  intros Hm.
  assert (round_nearest_even m loc = m ∨ round_nearest_even m loc = m + 1) as [-> | ->].
  { unfold round_nearest_even. destruct loc as [|[]]; [by left|destruct (Z.even m)|..]; auto. }
  - auto.
  - split; [lia|]. destruct (Z.log2_succ_or m) as [E|E]; rewrite Z.add_1_r; lia.
Qed.

Lemma binary_round_aux_normal m e l loc :
  0 < m → 52 ≤ Z.log2 m → l = Z.log2 m + e → -1022 ≤ l ≤ 970 →
  normal (binary_round_aux 53 1024 false m e loc) l ∨
  normal (binary_round_aux 53 1024 false m e loc) (l + 1).
Proof.
  intros Hm Hl El Hr. unfold binary_round_aux.
  destruct (shr_fexp_spec m e l loc) as (m1 & -> & Hm1 & Hp1); [done..|lia|].
  destruct (round_log2 (shr_m m1) (loc_of_shr_record m1) Hp1) as [Hp2 Hl2].
  set (m2 := round_nearest_even _ _) in *.
  destruct (shr_fexp_spec m2 (l - 52) (Z.log2 m2 + (l - 52)) loc_Exact) as (m3 & -> & Hm3 & Hp3);
    [done|lia|done|lia|].
  destruct (shr_m m3) as [|p|p] eqn:E3; [lia| |lia].
  assert ((Z.log2 m2 + (l - 52) - 52 <=? 1024 - 53) = true) as -> by lia.
  destruct Hl2 as [-> | ->]; [left|right]; exists p; (split; [f_equal; lia|done]).
Qed.

Lemma shl_align_spec p ex ex' :
  Zpos (shl_align p ex ex').1 = Zpos p * 2 ^ (ex - (shl_align p ex ex').2) ∧
  (shl_align p ex ex').2 = Z.min ex ex'.
Proof.
  unfold shl_align. destruct (ex' - ex) as [|d|d] eqn:E; cbn.
  - replace ex with ex' by lia. rewrite Z.sub_diag. lia.
  - rewrite Z.sub_diag. lia.
  - split; [|lia]. replace (ex - ex') with (Zpos d) by lia. clear E.
    induction d as [|d IH] using Pos.peano_ind; [cbn; lia|].
    rewrite Pos.iter_succ, Pos2Z.inj_xO, IH.
    rewrite Pos2Z.inj_succ, Z.pow_succ_r by lia. lia.
Qed.

Lemma binary_round_normal p e :
  let l := Z.log2 (Zpos p) + e in -1022 ≤ l ≤ 970 →
  normal (binary_round 53 1024 false p e) l ∨ normal (binary_round 53 1024 false p e) (l + 1).
Proof.
  intros l Hl. unfold binary_round. rewrite digits2_log2.
  replace (Z.log2 (Zpos p) + 1 + e) with (l + 1) by (unfold l; lia).
  rewrite fexp_normal by lia.
  destruct (shl_align_spec p e (l - 52)) as [Hm He].
  destruct (shl_align p e (l - 52)) as [mz ez]. cbn in Hm, He.
  assert (Z.log2 (Zpos mz) = Z.log2 (Zpos p) + (e - ez)) as Hlog.
  { rewrite Hm, Z.log2_mul_pow2 by lia. lia. }
  apply binary_round_aux_normal; [lia| |unfold l; lia|lia]. unfold l in *. lia.
Qed.

Lemma d_of_Z_normal n :
  0 < n < 2 ^ 900 → normal (d_of_Z n) (Z.log2 n) ∨ normal (d_of_Z n) (Z.log2 n + 1).
Proof.
  intros Hn. unfold d_of_Z, binary_normalize. destruct n as [|p|p]; [lia| |lia].
  assert (0 ≤ Z.log2 (Zpos p) < 900) by (split; [apply Z.log2_nonneg|apply Z.log2_lt_pow2; lia]).
  pose proof (binary_round_normal p 0) as Hb. rewrite Z.add_0_r in Hb. apply Hb. lia.
Qed.
End rounding.

(** [within x lo hi]: a positive normal double in [[2 ^ lo, 2 ^ (hi + 1))]. *)
Definition within (x : double) (lo hi : Z) : Prop := ∃ l, normal x l ∧ lo ≤ l ≤ hi.

Section bounds.
Implicit Types (x y : double).

Lemma normal_within x l lo hi :
  normal x l ∨ normal x (l + 1) → lo ≤ l → l + 1 ≤ hi → within x lo hi.
Proof. intros [?|?] ??; [exists l|exists (l + 1)]; (split; [done|lia]). Qed.

Lemma d_of_Z_within n : 0 < n < 2 ^ 900 → within (d_of_Z n) (Z.log2 n) (Z.log2 n + 1).
Proof. intros. eapply normal_within; [by apply d_of_Z_normal|lia|lia]. Qed.

Lemma d_mul_within x y l1 h1 l2 h2 :
  within x l1 h1 → within y l2 h2 → -900 ≤ l1 + l2 → h1 + h2 ≤ 900 →
  within (d_mul x y) (l1 + l2) (h1 + h2 + 2).
Proof.
  intros (lx & (mx & -> & Hx) & ?) (ly & (my & -> & Hy) & ?) ??.
  unfold d_mul, SFmul. cbn [xorb].
  pose proof (Z.log2_mul_below (Zpos mx) (Zpos my) ltac:(lia) ltac:(lia)) as Hb.
  pose proof (Z.log2_mul_above (Zpos mx) (Zpos my) ltac:(lia) ltac:(lia)) as Ha.
  rewrite Pos2Z.inj_mul. set (m := Zpos mx * Zpos my) in *.
  eapply normal_within; [apply binary_round_aux_normal; [unfold m; lia|lia|reflexivity|lia]|lia|lia].
Qed.

Lemma div_core_spec mx my ex ey :
  Z.log2 (Zpos mx) = 52 → Z.log2 (Zpos my) = 52 → -900 ≤ ex - ey ≤ 900 →
  ∃ q e loc, SFdiv_core_binary 53 1024 (Zpos mx) ex (Zpos my) ey = (q, e, loc) ∧
    0 < q ∧ 52 ≤ Z.log2 q ∧ ex - ey - 1 ≤ Z.log2 q + e ≤ ex - ey.
Proof.
  intros Hx Hy He. unfold SFdiv_core_binary.
  cbn [Zdigits2]. rewrite !digits2_log2, Hx, Hy.
  replace (52 + 1 + ex - (52 + 1 + ey)) with (ex - ey - 1 + 1) by lia.
  rewrite fexp_normal by lia.
  replace (Z.min (ex - ey - 1 - 52) (ex - ey)) with (ex - ey - 53) by lia.
  replace (ex - ey - (ex - ey - 53)) with 53 by lia.
  destruct (Z.div_eucl _ _) as [q r] eqn:E.
  eexists _, _, _. split; [reflexivity|].
  pose proof (Z.div_eucl_eq (Z.shiftl (Zpos mx) 53) (Zpos my) ltac:(lia)) as Hd.
  pose proof (Z.mod_pos_bound (Z.shiftl (Zpos mx) 53) (Zpos my) ltac:(lia)) as Hr.
  unfold Z.modulo in Hr. rewrite E in Hd, Hr. rewrite Z.shiftl_mul_pow2 in Hd by lia.
  pose proof (Z.log2_spec (Zpos mx) ltac:(lia)) as [Hx1 Hx2]. rewrite Hx in Hx1, Hx2.
  pose proof (Z.log2_spec (Zpos my) ltac:(lia)) as [Hy1 Hy2]. rewrite Hy in Hy1, Hy2.
  assert (2 ^ 52 ≤ q < 2 ^ 54) as Hq.
  { change (2 ^ Z.succ 52) with (2 * 2 ^ 52) in *. change (2 ^ 54) with (4 * 2 ^ 52).
    change (2 ^ 53) with (2 * 2 ^ 52) in Hd. set (c := 2 ^ 52) in *.
    assert (0 < c) by done. nia. }
  assert (52 ≤ Z.log2 q) by (apply Z.log2_le_pow2; lia).
  assert (Z.log2 q < 54) by (apply Z.log2_lt_pow2; lia).
  split_and!; lia.
Qed.

Lemma d_div_within x y l1 h1 l2 h2 :
  within x l1 h1 → within y l2 h2 → -800 ≤ l1 - h2 → h1 - l2 ≤ 800 →
  within (d_div x y) (l1 - h2 - 1) (h1 - l2 + 1).
Proof.
  intros (lx & (mx & -> & Hx) & ?) (ly & (my & -> & Hy) & ?) ??.
  unfold d_div, SFdiv.
  destruct (div_core_spec mx my (lx - 52) (ly - 52) Hx Hy) as (q & e & loc & -> & Hq & Hl & He);
    [lia|].
  cbn [xorb].
  eapply normal_within; [apply binary_round_aux_normal; [done|done|reflexivity|lia]|lia|lia].
Qed.

(** Doubles in disjoint binades compare by their exponents. *)
Lemma d_lt_within x y l1 h1 l2 h2 : within x l1 h1 → within y l2 h2 → h1 < l2 → d_lt x y = true.
Proof.
  intros (lx & (mx & -> & _) & ?) (ly & (my & -> & _) & ?) ?.
  unfold d_lt, SFltb, SFcompare.
  by rewrite (proj2 (Z.compare_lt_iff (lx - 52) (ly - 52))) by lia.
Qed.

Lemma d_lt_within_false x y l1 h1 l2 h2 :
  within x l1 h1 → within y l2 h2 → h2 < l1 → d_lt x y = false.
Proof.
  intros (lx & (mx & -> & _) & ?) (ly & (my & -> & _) & ?) ?.
  unfold d_lt, SFltb, SFcompare.
  by rewrite (proj2 (Z.compare_gt_iff (lx - 52) (ly - 52))) by lia.
Qed.

Lemma d_lt_zero x l h : within x l h → d_lt (d_of_Z 0) x = true.
Proof. by intros (lx & (mx & -> & _) & _). Qed.

Lemma sf_trunc_within x l h :
  within x l h → 0 ≤ h < 52 → ∃ z, sf_trunc x = Some z ∧ 0 ≤ z < 2 ^ (h + 1).
Proof.
  intros (lx & (mx & -> & Hx) & ?) Hh. cbn. eexists; split; [reflexivity|].
  rewrite bool_decide_eq_false_2 by lia.
  pose proof (Z.log2_spec (Zpos mx) ltac:(lia)) as [_ Hx2]. rewrite Hx in Hx2.
  split; [apply Z.div_pos; lia|].
  apply Z.div_lt_upper_bound; [lia|].
  apply Z.lt_le_trans with (2 ^ Z.succ 52); [done|].
  rewrite <- Z.pow_add_r by lia.
  apply Z.pow_le_mono_r; lia.
Qed.

Lemma sf_trunc_neg x l : normal x l → l < 0 → sf_trunc x = Some 0.
Proof.
  intros (mx & -> & Hx) Hl. cbn. rewrite bool_decide_eq_false_2 by lia. f_equal.
  pose proof (Z.log2_spec (Zpos mx) ltac:(lia)) as [_ Hx2]. rewrite Hx in Hx2.
  apply Z.div_small. split; [lia|].
  apply Z.lt_le_trans with (1 := Hx2). apply Z.pow_le_mono_r; lia.
Qed.
End bounds.

(** Small integers are exact. *)
Lemma d_of_Z_exact n : 0 < n < 2 ^ 53 → normal (d_of_Z n) (Z.log2 n).
Proof.
  intros Hn. unfold d_of_Z, binary_normalize. destruct n as [|p|p]; [lia| |lia].
  assert (0 ≤ Z.log2 (Zpos p) < 53) as Hl.
  { split; [apply Z.log2_nonneg|apply Z.log2_lt_pow2; lia]. }
  unfold binary_round. rewrite digits2_log2, Z.add_0_r, fexp_normal by lia.
  destruct (shl_align_spec p 0 (Z.log2 (Zpos p) - 52)) as [Hm He].
  destruct (shl_align p 0 (Z.log2 (Zpos p) - 52)) as [mz ez]. cbn [fst snd] in Hm, He.
  assert (ez = Z.log2 (Zpos p) - 52) as -> by lia.
  assert (Z.log2 (Zpos mz) = 52) as Hlog by (rewrite Hm, Z.log2_mul_pow2 by lia; lia).
  assert (∀ loc, shr_fexp 53 1024 (Zpos mz) (Z.log2 (Zpos p) - 52) loc
    = (shr_record_of_loc (Zpos mz) loc, Z.log2 (Zpos p) - 52)) as Hs.
  { intros loc. unfold shr_fexp. rewrite Zdigits2_log2, Hlog by lia.
    replace (52 + 1 + (Z.log2 (Zpos p) - 52)) with (Z.log2 (Zpos p) + 1) by lia.
    rewrite fexp_normal by lia. by rewrite Z.sub_diag. }
  unfold binary_round_aux. rewrite Hs. cbn [shr_m shr_record_of_loc loc_of_shr_record round_nearest_even].
  rewrite Hs. cbn [shr_m shr_record_of_loc].
  assert ((Z.log2 (Zpos p) - 52 <=? 1024 - 53) = true) as -> by lia.
  by exists mz.
Qed.

Lemma d_of_Z_exact_within n : 0 < n < 2 ^ 53 → within (d_of_Z n) (Z.log2 n) (Z.log2 n).
Proof. intros. exists (Z.log2 n). split; [by apply d_of_Z_exact|lia]. Qed.
