(* ===== verification/IeeeMono.v ===== *)
(** * Rounding is monotone

    Finite doubles are integers in units of 2^-2200 ([sval]).  In these units a
    rounded operation is [rne], rounding to nearest, ties to even, on [Z]; it is
    monotone and leaves rounded numbers alone.  So the conversion of an integer,
    a product with a fixed factor that is not negative, a sum with a fixed
    number and the truncation to an integer all keep the order. *)
From S2P Require Import Prelude Ieee.

Definition scale : Z := 2200.
(** The least exponent of a double in these units. *)
Definition lowest_shift : Z := scale - 1074.

Definition sval (x : double) : Z :=
  match x with
  | S754_finite s m e => (if s then -1 else 1) * (Zpos m * 2 ^ (e + scale))
  | _ => 0
  end.

(** ** Rounding in [Z] *)
Definition rq (v s : Z) : Z :=
  let q := v / 2 ^ s in
  let r := v mod 2 ^ s in
  let h := 2 ^ (s - 1) in
  (if bool_decide (r < h) then q else if bool_decide (h < r) then q + 1 else if Z.even q then q else q + 1) * 2 ^ s.
Definition shift_of (v : Z) : Z := Z.max (Z.log2 v - 52) lowest_shift.
Definition rne (v : Z) : Z := rq v (shift_of v).
Definition rne_signed (v : Z) : Z := if bool_decide (v < 0) then - rne (- v) else rne v.

Section rne.
Implicit Types (v w s p q : Z).

Lemma pow_pos s : 0 < 2 ^ Z.max s 0.
Proof. lia. Qed.

Lemma rq_cases v s : ∃ q, rq v s = q * 2 ^ s ∧ (q = v / 2 ^ s ∨ q = v / 2 ^ s + 1).
Proof. unfold rq. repeat case_bool_decide; try destruct (Z.even _); eexists; (split; [reflexivity|auto]). Qed.

Lemma rq_mono s v w : 1 ≤ s → v ≤ w → rq v s ≤ rq w s.
Proof.
  intros Hs Hvw. assert (0 < 2 ^ s) as Hp by lia.
  pose proof (Z.div_le_mono v w (2 ^ s) Hp Hvw) as Hq. destruct (decide (v / 2 ^ s = w / 2 ^ s)) as [E|].
  - assert (v mod 2 ^ s ≤ w mod 2 ^ s) as Hr.
    { pose proof (Z.div_mod v (2 ^ s)). pose proof (Z.div_mod w (2 ^ s)). rewrite E in *. lia. }
    unfold rq. rewrite E. apply Z.mul_le_mono_nonneg_r; [lia|]. repeat case_bool_decide; try destruct (Z.even _); lia.
  - destruct (rq_cases v s) as (q1 & -> & Hq1), (rq_cases w s) as (q2 & -> & Hq2).
    apply Z.mul_le_mono_nonneg_r; [lia|]. destruct Hq1, Hq2; lia.
Qed.

Lemma rq_below v s p : 0 ≤ s ≤ p → v < 2 ^ p → rq v s ≤ 2 ^ p.
Proof.
  intros Hs Hv. assert (2 ^ p = 2 ^ (p - s) * 2 ^ s) as E by (rewrite <- Z.pow_add_r by lia; f_equal; lia).
  assert (v / 2 ^ s < 2 ^ (p - s)) by (apply Z.div_lt_upper_bound; lia).
  destruct (rq_cases v s) as (q & -> & Hq). rewrite E. apply Z.mul_le_mono_nonneg_r; [lia|]. destruct Hq; lia.
Qed.
Lemma rq_above v s p : 0 ≤ s ≤ p → 2 ^ p ≤ v → 2 ^ p ≤ rq v s.
Proof.
  intros Hs Hv. assert (2 ^ p = 2 ^ (p - s) * 2 ^ s) as E by (rewrite <- Z.pow_add_r by lia; f_equal; lia).
  assert (2 ^ (p - s) ≤ v / 2 ^ s) by (apply Z.div_le_lower_bound; lia).
  destruct (rq_cases v s) as (q & -> & Hq). rewrite E. apply Z.mul_le_mono_nonneg_r; [lia|]. destruct Hq; lia.
Qed.

Lemma shift_of_pos v : 1 ≤ shift_of v.
Proof. unfold shift_of, lowest_shift, scale. lia. Qed.

Lemma rne_mono v w : 0 ≤ v ≤ w → rne v ≤ rne w.
Proof.
  intros Hvw. pose proof (shift_of_pos v). pose proof (Z.log2_le_mono v w ltac:(lia)) as Hl.
  destruct (decide (shift_of v = shift_of w)) as [E|Hne]; [unfold rne; rewrite E; apply rq_mono; lia|].
  assert (shift_of v < shift_of w ∧ shift_of w = Z.log2 w - 52) as [Hlt Es] by (unfold shift_of in *; lia).
  assert (Z.log2 v < Z.log2 w) by (unfold shift_of in *; lia).
  transitivity (2 ^ Z.log2 w); [apply rq_below|apply rq_above]; try lia.
  - destruct (decide (v = 0)) as [->|]; [lia|]. by apply Z.log2_lt_cancel; rewrite Z.log2_pow2 by lia.
  - apply Z.log2_spec. destruct (decide (w = 0)) as [->|]; [cbn in *; lia|lia].
Qed.

Lemma rne_0 : rne 0 = 0.
Proof.
  unfold rne, rq. rewrite Z.div_0_l, Z.mod_0_l by (pose proof (shift_of_pos 0); lia).
  rewrite bool_decide_eq_true_2; [done|]. pose proof (shift_of_pos 0). lia.
Qed.
Lemma rne_nonneg v : 0 ≤ v → 0 ≤ rne v.
Proof. intros. rewrite <- rne_0 at 1. by apply rne_mono. Qed.

Lemma rne_signed_mono v w : v ≤ w → rne_signed v ≤ rne_signed w.
Proof.
  intros. unfold rne_signed. repeat case_bool_decide; try lia.
  - apply Z.opp_le_mono. rewrite !Z.opp_involutive. apply rne_mono. lia.
  - pose proof (rne_nonneg (- v) ltac:(lia)). pose proof (rne_nonneg w ltac:(lia)). lia.
  - apply rne_mono. lia.
Qed.
Lemma rne_signed_opp v : rne_signed (- v) = - rne_signed v.
Proof.
  unfold rne_signed. repeat case_bool_decide; try lia.
  - by rewrite Z.opp_involutive.
  - assert (v = 0) as -> by lia. by rewrite rne_0.
Qed.

(** A multiple of its own unit is kept. *)
Lemma rne_exact v s q : v = q * 2 ^ s → shift_of v ≤ s → rne v = v.
Proof.
  intros -> Hs. pose proof (shift_of_pos (q * 2 ^ s)) as H1. unfold rne, rq. set (t := shift_of _) in *.
  assert (q * 2 ^ s = q * 2 ^ (s - t) * 2 ^ t) as -> by (rewrite <- Z.mul_assoc, <- Z.pow_add_r by lia; do 2 f_equal; lia).
  rewrite Z.mod_mul, Z.div_mul by lia. by rewrite bool_decide_eq_true_2 by lia.
Qed.

Lemma rne_rounded v : 0 ≤ v → rne (rne v) = rne v.
Proof.
  intros Hv. destruct (decide (v = 0)) as [->|]; [by rewrite !rne_0|].
  destruct (rq_cases v (shift_of v)) as (q & E & Hq). fold (rne v) in E. pose proof (shift_of_pos v) as Hs.
  assert (0 ≤ v / 2 ^ shift_of v < 2 ^ 53) as Hd.
  { split; [apply Z.div_pos; lia|]. apply Z.div_lt_upper_bound; [lia|]. rewrite <- Z.pow_add_r by lia.
    eapply Z.lt_le_trans; [apply Z.log2_spec; lia|]. apply Z.pow_le_mono_r; unfold shift_of; lia. }
  destruct (decide (q = 2 ^ 53)) as [->|Hne].
  - apply (rne_exact _ (shift_of v + 1) (2 ^ 52)).
    { rewrite E, Z.pow_add_r by lia. change (2 ^ 53) with (2 ^ 52 * 2). lia. }
    rewrite E. unfold shift_of at 1. rewrite <- Z.pow_add_r, Z.log2_pow2 by lia. unfold shift_of in *. lia.
  - apply (rne_exact _ (shift_of v) q); [done|]. rewrite E. unfold shift_of at 1.
    destruct (decide (q = 0)) as [->|]; [rewrite Z.mul_0_l; change (Z.log2 0) with 0; unfold shift_of, lowest_shift, scale in *; lia|].
    rewrite Z.log2_mul_pow2 by lia. assert (Z.log2 q < 53) by (apply Z.log2_lt_pow2; lia). unfold shift_of in *. lia.
Qed.
Lemma rne_signed_pos v : 0 ≤ v → rne_signed v = rne v.
Proof. intros. unfold rne_signed. by rewrite bool_decide_eq_false_2 by lia. Qed.
Lemma rne_signed_rounded v : rne_signed (rne_signed v) = rne_signed v.
Proof.
  assert (∀ w, 0 ≤ w → rne_signed (rne_signed w) = rne_signed w) as Hpos.
  { intros w Hw. rewrite (rne_signed_pos w), rne_signed_pos, rne_rounded; [done|done|by apply rne_nonneg|done]. }
  destruct (decide (0 ≤ v)); [by apply Hpos|]. pose proof (Hpos (- v) ltac:(lia)) as H. rewrite !rne_signed_opp in H. lia.
Qed.
End rne.

(** ** Rounding of mantissas *)
Section values.
Implicit Types (m e n : Z) (x y : double).

Definition exact_record m : shr_record := shr_record_of_loc m loc_Exact.

Lemma shr_1_eq m r s :
  0 ≤ m → shr_1 (Build_shr_record m r s) = Build_shr_record (m / 2) (bool_decide (m mod 2 = 1)) (r || s).
Proof.
  intros Hm. destruct m as [|p|p]; [done| |lia]. destruct p as [p|p|]; cbn [shr_1]; [| |done].
  - change (Zpos p~1) with (2 * Zpos p + 1). rewrite (Z.mul_comm 2), Z.div_add_l by lia.
    rewrite (Z.add_comm (Zpos p * 2) 1), Z.mod_add by lia. by rewrite Z.add_0_r.
  - change (Zpos p~0) with (2 * Zpos p). by rewrite (Z.mul_comm 2), Z.div_mul, Z.mod_mul by lia.
Qed.

(** [n] shifts: the quotient, the last bit shifted out, and whether one before
    it was 1. *)
Lemma shr_iter (n : nat) m :
  0 ≤ m → Nat.iter (S n) shr_1 (exact_record m) =
    Build_shr_record (m / 2 ^ Z.of_nat (S n)) (bool_decide (m / 2 ^ Z.of_nat n mod 2 = 1))
      (bool_decide (m mod 2 ^ Z.of_nat n ≠ 0)).
Proof.
  intros Hm. induction n as [|n IH].
  - cbn [Nat.iter]. unfold exact_record. cbn [shr_record_of_loc]. rewrite shr_1_eq by done.
    cbn [orb]. change (2 ^ Z.of_nat 0) with 1. change (2 ^ Z.of_nat 1) with 2. by rewrite Z.div_1_r, Z.mod_1_r.
  - change (Nat.iter (S (S n)) shr_1 (exact_record m)) with (shr_1 (Nat.iter (S n) shr_1 (exact_record m))).
    rewrite IH, shr_1_eq by (apply Z.div_pos; lia). f_equal.
    + rewrite Z.div_div by lia. f_equal. rewrite (Nat2Z.inj_succ (S n)), Z.pow_succ_r by lia. lia.
    + rewrite <- bool_decide_or. apply bool_decide_ext. rewrite (Nat2Z.inj_succ n), Z.pow_succ_r by lia.
      rewrite (Z.mul_comm 2), Z.rem_mul_r by lia.
      pose proof (Z.mod_pos_bound m (2 ^ Z.of_nat n) ltac:(lia)). pose proof (Z.mod_pos_bound (m / 2 ^ Z.of_nat n) 2 ltac:(lia)).
      split; [intros [E|E]; [rewrite E; lia|nia]|intros E; destruct (decide (m / 2 ^ Z.of_nat n mod 2 = 1)); [by left|right]].
      assert (m / 2 ^ Z.of_nat n mod 2 = 0) as E0 by lia. rewrite E0 in E. lia.
Qed.
Lemma round_iter (n : nat) m :
  0 ≤ m → let mrs := Nat.iter (S n) shr_1 (exact_record m) in
  round_nearest_even (shr_m mrs) (loc_of_shr_record mrs) * 2 ^ Z.of_nat (S n) = rq m (Z.of_nat (S n)).
Proof.
  intros Hm. cbn zeta. rewrite shr_iter by done. cbn [shr_m loc_of_shr_record]. unfold rq. f_equal.
  replace (Z.of_nat (S n) - 1) with (Z.of_nat n) by lia.
  assert (m mod 2 ^ Z.of_nat (S n) = m mod 2 ^ Z.of_nat n + 2 ^ Z.of_nat n * (m / 2 ^ Z.of_nat n mod 2)) as ->.
  { rewrite (Nat2Z.inj_succ n), Z.pow_succ_r, (Z.mul_comm 2), Z.rem_mul_r by lia. done. }
  pose proof (Z.mod_pos_bound m (2 ^ Z.of_nat n) ltac:(lia)). pose proof (Z.mod_pos_bound (m / 2 ^ Z.of_nat n) 2 ltac:(lia)).
  set (q := m / 2 ^ Z.of_nat (S n)). set (b := m / 2 ^ Z.of_nat n mod 2) in *. set (r := m mod 2 ^ Z.of_nat n) in *.
  set (h := 2 ^ Z.of_nat n) in *. clearbody q b r h. assert (b = 0 ∨ b = 1) as [->| ->] by lia.
  - rewrite (bool_decide_eq_false_2 (0 = 1)) by done. rewrite (bool_decide_eq_true_2 (_ < h)) by lia.
    by case_bool_decide.
  - rewrite (bool_decide_eq_true_2 (1 = 1)) by done. rewrite (bool_decide_eq_false_2 (_ < h)) by lia.
    case_bool_decide; [by rewrite bool_decide_eq_true_2 by lia|]. by rewrite bool_decide_eq_false_2 by lia.
Qed.

Lemma rq_scale m s c : 1 ≤ s → 0 ≤ c → rq (m * 2 ^ c) (s + c) = rq m s * 2 ^ c.
Proof.
  intros. unfold rq. rewrite Z.pow_add_r, Z.div_mul_cancel_r, Z.mul_mod_distr_r by lia.
  replace (s + c - 1) with (s - 1 + c) by lia. rewrite (Z.pow_add_r 2 (s - 1)) by lia.
  rewrite (bool_decide_ext (m mod 2 ^ s * 2 ^ c < 2 ^ (s - 1) * 2 ^ c) (m mod 2 ^ s < 2 ^ (s - 1)))
    by (symmetry; apply Z.mul_lt_mono_pos_r; lia).
  rewrite (bool_decide_ext (2 ^ (s - 1) * 2 ^ c < m mod 2 ^ s * 2 ^ c) (2 ^ (s - 1) < m mod 2 ^ s))
    by (symmetry; apply Z.mul_lt_mono_pos_r; lia).
  by rewrite Z.mul_assoc.
Qed.

Definition finite (x : double) : Prop := match x with S754_zero _ | S754_finite _ _ _ => True | _ => False end.
(** A finite double that is a rounded number. *)
Definition rounded x : Prop :=
  rne_signed (sval x) = sval x ∧
  match x with S754_zero _ => True | S754_finite _ _ e => -1074 ≤ e ≤ 971 | _ => False end.
Definition signed (s : bool) (v : Z) : Z := (if s then -1 else 1) * v.

Lemma iter_pos_nat {A} (f : A → A) p : ∀ a, iter_pos f p a = Nat.iter (Pos.to_nat p) f a.
Proof.
  assert (∀ (n k : nat) a, Nat.iter n f (Nat.iter k f a) = Nat.iter (n + k) f a) as Hadd.
  { intros n k a. induction n as [|n IH]; [done|]. exact (f_equal f IH). }
  induction p as [p IH|p IH|]; intros a; cbn [iter_pos]; [| |done]; rewrite !IH, ?Hadd.
  - change (f a) with (Nat.iter 1 f a). rewrite Hadd. f_equal. lia.
  - f_equal. lia.
Qed.

Lemma shr_none r e n : n ≤ 0 → shr r e n = (r, e).
Proof. intros. by destruct n; [|lia|]. Qed.

Lemma signed_rne s v : 0 ≤ v → rne_signed (signed s v) = signed s (rne v).
Proof.
  intros. unfold signed. destruct s; [|by rewrite !Z.mul_1_l, rne_signed_pos].
  replace (-1 * v) with (- v) by lia. rewrite rne_signed_opp, rne_signed_pos by done. lia.
Qed.

(** The rounded mantissa, written back. *)
Lemma finish_val sx m t v :
  0 ≤ m ≤ 2 ^ 53 → -1074 ≤ t → 0 ≤ v → m * 2 ^ (t + scale) = rne v →
  let x := (let '(r, e) := shr_fexp 53 1024 m t loc_Exact in
            match shr_m r with
            | Z0 => S754_zero sx
            | Zpos p => if e <=? 1024 - 53 then S754_finite sx p e else S754_infinity sx
            | Zneg _ => S754_nan
            end) in
  finite x → sval x = signed sx (rne v) ∧ rounded x.
Proof.
  intros Hm Ht Hv E. assert (∀ x, sval x = signed sx (rne v) →
    match x with S754_zero _ => True | S754_finite _ _ e => -1074 ≤ e ≤ 971 | _ => False end →
    sval x = signed sx (rne v) ∧ rounded x) as Hr.
  { intros x Hx He. split; [done|]. split; [|done]. rewrite Hx, signed_rne, rne_rounded by (try apply rne_nonneg; done). done. }
  unfold shr_fexp. fold (exact_record m). set (n := fexp 53 1024 (Zdigits2 m + t) - t).
  assert (m ≠ 2 ^ 53 → n ≤ 0) as Hn.
  { intros Hne. unfold n, fexp, emin. destruct (decide (m = 0)) as [->|]; [cbn; lia|].
    rewrite Zdigits2_log2 by lia. assert (Z.log2 m < 53) by (apply Z.log2_lt_pow2; lia). lia. }
  destruct (decide (m = 2 ^ 53)) as [->|Hne].
  - assert (n = 1) as -> by (unfold n, fexp, emin; rewrite Zdigits2_log2 by lia; change (Z.log2 (2 ^ 53)) with 53; lia).
    cbn [shr iter_pos]. unfold exact_record. cbn [shr_record_of_loc]. rewrite shr_1_eq by lia. cbn [shr_m].
    change (2 ^ 53 / 2) with (Zpos (2 ^ 52)). cbn zeta. destruct (t + 1 <=? 1024 - 53) eqn:El; [|done]. intros _.
    apply Hr; [|lia]. rewrite <- E. cbn [sval]. unfold signed. f_equal.
    replace (t + 1 + scale) with (t + scale + 1) by lia. rewrite Z.pow_add_r by (unfold scale; lia).
    change (2 ^ 53) with (Zpos (2 ^ 52) * 2). lia.
  - assert (shr (exact_record m) t n = (exact_record m, t)) as -> by (apply shr_none; by apply Hn).
    change (shr_m (exact_record m)) with m. cbn zeta. destruct m as [|p|p]; [| |lia].
    + intros _. apply Hr; [|done]. cbn [sval]. rewrite <- E. unfold signed. lia.
    + destruct (t <=? 1024 - 53) eqn:El; [|done]. intros _. apply Hr; [|lia]. cbn [sval]. by rewrite <- E.
Qed.

Lemma binary_round_aux_val sx m e :
  0 < m → - scale ≤ e → finite (binary_round_aux 53 1024 sx m e loc_Exact) →
  sval (binary_round_aux 53 1024 sx m e loc_Exact) = signed sx (rne (m * 2 ^ (e + scale))) ∧
  rounded (binary_round_aux 53 1024 sx m e loc_Exact).
Proof.
  intros Hm He. set (v := m * 2 ^ (e + scale)). assert (0 ≤ v) as Hv by (unfold v; lia).
  assert (Z.log2 v = Z.log2 m + (e + scale)) as Hlog by (unfold v; rewrite Z.log2_mul_pow2 by lia; lia).
  remember (binary_round_aux 53 1024 sx m e loc_Exact) as x eqn:Ex. unfold binary_round_aux, shr_fexp at 1 in Ex.
  rewrite Zdigits2_log2 in Ex by done. set (n := fexp 53 1024 (Z.log2 m + 1 + e) - e) in Ex.
  assert (shift_of v = e + n + scale) as Hs by (unfold shift_of, lowest_shift, n, fexp, emin; rewrite Hlog; lia).
  fold (exact_record m) in Ex. assert (-1074 ≤ e + n) by (unfold n, fexp, emin; lia).
  assert (∀ k, k ≤ 0 ∨ ∃ p, k = Zpos p) as Hcase by (intros [|p|p]; [by left|right; by exists p|left; lia]).
  destruct (Hcase n) as [Hn|[p Hn]]; clear Hcase.
  - rewrite (shr_none (exact_record m) e n Hn) in Ex. change (shr_m (exact_record m)) with m in Ex.
    change (loc_of_shr_record (exact_record m)) with loc_Exact in Ex.
    cbn [round_nearest_even] in Ex. assert (rne v = v) as Ev by (apply (rne_exact v (e + scale) m); [done|lia]).
    unfold shr_fexp in Ex. rewrite Zdigits2_log2 in Ex by done. fold n in Ex. fold (exact_record m) in Ex.
    rewrite (shr_none (exact_record m) e n Hn) in Ex.
    change (shr_m (exact_record m)) with m in Ex. destruct m as [|q|q]; [lia| |lia].
    destruct (e <=? 1024 - 53) eqn:El; subst x; [|done]. intros _. rewrite Ev. split; [reflexivity|]. split; [|lia].
    change (rne_signed (signed sx v) = signed sx v). by rewrite signed_rne, Ev.
  - rewrite Hn in Ex. cbn [shr] in Ex. rewrite <- Hn, iter_pos_nat in Ex. destruct (Pos.to_nat p) as [|k] eqn:Ek; [lia|].
    pose proof (round_iter k m ltac:(lia)) as Hr. cbn zeta in Hr. replace (Z.of_nat (S k)) with n in Hr by lia.
    set (r := Nat.iter (S k) shr_1 (exact_record m)) in *. set (m1 := round_nearest_even (shr_m r) (loc_of_shr_record r)) in *.
    clearbody r m1. subst x. assert (m1 * 2 ^ (e + n + scale) = rne v) as E.
    { unfold rne. rewrite Hs. unfold v. replace (e + n + scale) with (n + (e + scale)) by lia.
      rewrite rq_scale, <- Hr by lia. rewrite (Z.pow_add_r 2 n) by lia. set (a := 2 ^ n). set (b := 2 ^ (e + scale)). lia. }
    apply (finish_val sx m1 (e + n) v); [|done..]. pose proof (rne_nonneg v Hv) as H0.
    assert (rne v ≤ 2 ^ (53 + (e + n + scale))) as H1.
    { unfold rne. rewrite <- Hs. pose proof (shift_of_pos v). apply rq_below; [lia|].
      destruct (decide (v = 0)) as [->|]; [lia|]. eapply Z.lt_le_trans; [apply Z.log2_spec; lia|].
      apply Z.pow_le_mono_r; [lia|]. unfold shift_of; lia. }
    assert (scale = 2200) as Hsc by done. rewrite <- E in H0, H1. rewrite (Z.pow_add_r 2 53) in H1 by lia.
    assert (0 < 2 ^ (e + n + scale)) by lia. set (w := 2 ^ (e + n + scale)) in *. clearbody w. nia.
Qed.

(** ** The operations *)
Lemma sval_finite s p e : sval (S754_finite s p e) = signed s (Zpos p * 2 ^ (e + scale)).
Proof. done. Qed.

Lemma shl_align_val p e e' :
  - scale ≤ Z.min e e' → (shl_align p e e').2 = Z.min e e' ∧
  Zpos (shl_align p e e').1 * 2 ^ (Z.min e e' + scale) = Zpos p * 2 ^ (e + scale).
Proof.
  intros Hs. destruct (shl_align_spec p e e') as [E E2]. split; [done|]. rewrite E, E2, <- Z.mul_assoc, <- Z.pow_add_r by lia.
  do 2 f_equal. lia.
Qed.

Lemma binary_normalize_val m e sz :
  - 1074 ≤ e → finite (binary_normalize 53 1024 m e sz) →
  sval (binary_normalize 53 1024 m e sz) = rne_signed (m * 2 ^ (e + scale)) ∧ rounded (binary_normalize 53 1024 m e sz).
Proof.
  intros He Hf. assert (scale = 2200) as Hsc by done.
  assert (∀ s p, finite (binary_round 53 1024 s p e) →
    sval (binary_round 53 1024 s p e) = signed s (rne (Zpos p * 2 ^ (e + scale))) ∧ rounded (binary_round 53 1024 s p e)) as Hr.
  { intros s p. unfold binary_round. set (e' := fexp _ _ _). assert (-1074 ≤ e') by (unfold e', fexp, emin; lia).
    destruct (shl_align_val p e e') as [E1 E2]; [lia|]. destruct (shl_align p e e') as [mz ez]. cbn [fst snd] in E1, E2. subst ez.
    intros Hfin. destruct (binary_round_aux_val s (Zpos mz) (Z.min e e')) as [Hv Hrd]; [lia|lia|done|]. by rewrite <- E2. }
  destruct m as [|p|p]; cbn [binary_normalize] in *.
  - split; [|split; [|done]].
    + rewrite Z.mul_0_l, rne_signed_pos, rne_0 by lia. done.
    + change (rne_signed 0 = 0). by rewrite rne_signed_pos, rne_0 by lia.
  - destruct (Hr false p Hf) as [-> ?]. split; [|done]. rewrite rne_signed_pos by lia. unfold signed. lia.
  - destruct (Hr true p Hf) as [-> ?]. split; [|done]. change (Zneg p) with (- Zpos p).
    rewrite Z.mul_opp_l, rne_signed_opp, rne_signed_pos by lia. unfold signed. lia.
Qed.

Lemma d_of_Z_val z : finite (d_of_Z z) → sval (d_of_Z z) = rne_signed (z * 2 ^ scale) ∧ rounded (d_of_Z z).
Proof. apply (binary_normalize_val z 0 false). done. Qed.

Lemma d_add_val x y :
  rounded x → rounded y → finite (d_add x y) →
  sval (d_add x y) = rne_signed (sval x + sval y) ∧ rounded (d_add x y).
Proof.
  intros [Hx Ex] [Hy Ey]. unfold d_add, SFadd. destruct x as [sx| | |sx mx ex]; [|done|done|].
  - change (sval (S754_zero sx)) with 0. rewrite Z.add_0_l. destruct y as [sy| | |sy my ey]; [|done|done|by split].
    intros _. cbn [sval]. rewrite rne_signed_pos, rne_0 by done. destruct sx, sy; repeat split; done.
  - destruct y as [sy| | |sy my ey]; [|done|done|].
    + intros _. change (sval (S754_zero sy)) with 0. rewrite Z.add_0_r. by split.
    + intros Hf. assert (scale = 2200) as Hsc by done.
      destruct (shl_align_val mx ex (Z.min ex ey)) as [_ E1]; [lia|]. destruct (shl_align_val my ey (Z.min ex ey)) as [_ E2]; [lia|].
      replace (Z.min ex (Z.min ex ey)) with (Z.min ex ey) in E1 by lia.
      replace (Z.min ey (Z.min ex ey)) with (Z.min ex ey) in E2 by lia.
      destruct (binary_normalize_val _ (Z.min ex ey) false ltac:(lia) Hf) as [-> Hr]. split; [|done]. f_equal.
      rewrite !sval_finite, <- E1, <- E2. rewrite Z.mul_add_distr_r. unfold signed, cond_Zopp. destruct sx, sy; lia.
Qed.

(** The exact product, in the units of [sval]. *)
Definition product (x y : double) : Z :=
  match x, y with
  | S754_finite sx mx ex, S754_finite sy my ey => signed (xorb sx sy) (Zpos mx * Zpos my * 2 ^ (ex + ey + scale))
  | _, _ => 0
  end.

Lemma d_mul_val x y :
  rounded x → rounded y → finite (d_mul x y) → sval (d_mul x y) = rne_signed (product x y) ∧ rounded (d_mul x y).
Proof.
  intros [Hx Ex] [Hy Ey]. assert (scale = 2200) as Hsc by done.
  assert (∀ s, sval (S754_zero s) = rne_signed 0 ∧ rounded (S754_zero s)) as Hz.
  { intros s. assert (rne_signed 0 = 0) as E by (by rewrite rne_signed_pos, rne_0 by done). by rewrite E. }
  unfold d_mul, SFmul. destruct x as [sx| | |sx mx ex]; [|done|done|].
  - destruct y; [|done|done|]; intros _; apply Hz.
  - destruct y as [sy| | |sy my ey]; [intros _; apply Hz|done|done|]. intros Hf.
    destruct (binary_round_aux_val (xorb sx sy) (Zpos (mx * my)) (ex + ey)) as [-> Hr]; [lia|lia|done|]. split; [|done].
    unfold product. by rewrite signed_rne, Pos2Z.inj_mul by lia.
Qed.

Lemma product_mono a x y :
  rounded a → rounded x → rounded y → 0 ≤ sval a → sval x ≤ sval y → product a x ≤ product a y.
Proof.
  intros [_ Ea] [_ Ex] [_ Ey] Ha Hxy. assert (scale = 2200) as Hsc by done.
  assert (∀ x, match x with S754_zero _ => True | S754_finite _ _ e => -1074 ≤ e ≤ 971 | _ => False end →
    product a x * 2 ^ scale = sval a * sval x) as Hp.
  { intros z Hz. destruct a as [|?| |sa ma ea]; [cbn; lia|done|done|]. destruct z as [sz| | |sz mz ez]; [cbn; lia|done|done|].
    cbn [product]. rewrite !sval_finite. unfold signed.
    assert (2 ^ (ea + ez + scale) * 2 ^ scale = 2 ^ (ea + scale) * 2 ^ (ez + scale)) as E.
    { rewrite <- !Z.pow_add_r by lia. f_equal. lia. }
    rewrite <- !Z.mul_assoc, E. destruct sa, sz; cbn [xorb]; lia. }
  apply (Z.mul_le_mono_pos_r _ _ (2 ^ scale)); [lia|]. rewrite !Hp by done. by apply Z.mul_le_mono_nonneg_l.
Qed.

Lemma sf_trunc_val x : match x with S754_zero _ => True | S754_finite _ _ e => - scale ≤ e | _ => False end →
  sf_trunc x = Some (Z.quot (sval x) (2 ^ scale)).
Proof.
  assert (scale = 2200) as Hsc by done. intros He. destruct x as [s| | |s p e]; [|done|done|].
  - cbn [sf_trunc sval]. by rewrite Z.quot_0_l by lia.
  - cbn [sf_trunc]. rewrite sval_finite. f_equal.
    assert ((if bool_decide (0 ≤ e) then Zpos p * 2 ^ e else Zpos p / 2 ^ (- e)) = Zpos p * 2 ^ (e + scale) ÷ 2 ^ scale) as E.
    { rewrite Z.quot_div_nonneg by lia. case_bool_decide as H0.
      - rewrite Z.pow_add_r, Z.mul_assoc, Z.div_mul by lia. done.
      - replace scale with (- e + (e + scale)) at 2 by lia. rewrite (Z.pow_add_r 2 (- e)), Z.div_mul_cancel_r by lia. reflexivity. }
    rewrite E. unfold signed. destruct s; [|by rewrite Z.mul_1_l]. rewrite <- Z.quot_opp_l by lia. reflexivity.
Qed.
End values.

(** ** The order of positive normal doubles *)
Section order.
Implicit Types (x y : double).

Lemma normal_compare x y lx ly : - scale ≤ lx - 52 → - scale ≤ ly - 52 → normal x lx → normal y ly →
  SFcompare x y = Some (sval x ?= sval y).
Proof.
  assert (scale = 2200) as Hsc by done. intros Hx Hy (mx & -> & Ex) (my & -> & Ey). rewrite !sval_finite. unfold signed. rewrite !Z.mul_1_l.
  assert (∀ m, Z.log2 (Zpos m) = 52 → 2 ^ 52 ≤ Zpos m < 2 ^ 53) as Hb by (intros m E; pose proof (Z.log2_spec (Zpos m) ltac:(lia)); rewrite E in *; done).
  assert (∀ m m' e e', Z.log2 (Zpos m) = 52 → Z.log2 (Zpos m') = 52 → 0 ≤ e + scale → e < e' → Zpos m * 2 ^ (e + scale) < Zpos m' * 2 ^ (e' + scale)) as Hlt.
  { intros m m' e e' E E' H0 He. apply Hb in E, E'. assert (0 < 2 ^ (e + scale)) as H1 by lia.
    assert (2 ^ (e' + scale) = 2 ^ (e' - e) * 2 ^ (e + scale)) as -> by (rewrite <- Z.pow_add_r by lia; f_equal; lia).
    assert (2 ^ 1 ≤ 2 ^ (e' - e)) by (apply Z.pow_le_mono_r; lia).
    set (a := 2 ^ (e + scale)) in *. set (b := 2 ^ (e' - e)) in *. clearbody a b. rewrite Z.mul_assoc.
    apply Z.mul_lt_mono_pos_r; [done|]. change (2 ^ 1) with 2 in *. nia. }
  cbn [SFcompare]. destruct (Z.compare_spec (lx - 52) (ly - 52)) as [E|E|E].
  - rewrite E. f_equal. change (Pos.compare_cont Eq mx my) with (Zpos mx ?= Zpos my). assert (0 < 2 ^ (ly - 52 + scale)) as H0 by lia.
    destruct (Z.compare_spec (Zpos mx) (Zpos my)) as [->|L|L]; symmetry; [apply Z.compare_refl|apply Z.compare_lt_iff|apply Z.compare_gt_iff];
      by apply Z.mul_lt_mono_pos_r.
  - f_equal. symmetry. apply Z.compare_lt_iff. apply Hlt; [done|done|lia|done].
  - f_equal. symmetry. apply Z.compare_gt_iff. apply Hlt; [done|done|lia|done].
Qed.

Lemma normal_order x y lx ly : - 100 ≤ lx → - 100 ≤ ly → normal x lx → normal y ly →
  d_le x y = (sval x <=? sval y) ∧ d_lt x y = (sval x <? sval y).
Proof.
  intros ????. unfold d_le, d_lt, SFleb, SFltb. rewrite (normal_compare x y lx ly) by (done || (change scale with 2200; lia)).
  unfold Z.leb, Z.ltb. by destruct (_ ?= _).
Qed.

Lemma d_of_Z_sval z : 0 < z < 2 ^ 53 → normal (d_of_Z z) (Z.log2 z) ∧ sval (d_of_Z z) = z * 2 ^ scale.
Proof.
  intros Hz. pose proof (d_of_Z_exact z Hz) as Hn. split; [done|]. destruct (d_of_Z_val z) as [-> _].
  { destruct Hn as (m & -> & _). done. }
  rewrite rne_signed_pos by lia. apply (rne_exact _ scale z); [done|]. unfold shift_of. rewrite Z.log2_mul_pow2 by (done || lia).
  assert (Z.log2 z < 53) by (apply Z.log2_lt_pow2; lia). unfold lowest_shift. lia.
Qed.
End order.
