(* ===== verification/IeeeLimit.v ===== *)
(** * Floating-point numbers: overflow and scaling

    An operation on [double]s returns the rounded value of its exact result, or
    an infinity when that is too large; both are monotone in the exact result.
    Multiplying by a power of two is exact, and so are the predictions of a
    model whose factors are multiplied by one, short of overflow and underflow. *)
From S2P Require Import Prelude Ieee IeeeMono.

(** [double]s that are finite and in canonical form. *)
Definition binary64 (x : double) : Prop :=
  match x with
  | S754_zero _ => True
  | S754_finite _ m e => -1074 ≤ e ≤ 971 ∧ Zpos m < 2 ^ 53 ∧ (-1074 < e → 2 ^ 52 ≤ Zpos m)
  | _ => False
  end.
#[export] Instance binary64_dec x : Decision (binary64 x).
Proof. destruct x; cbn; apply _. Defined.

Definition limit : Z := 2 ^ (1024 + scale).
(** What an operation with the exact result [v] returns. *)
Definition holds (x : double) (v : Z) : Prop :=
  match x with
  | S754_infinity s => limit ≤ signed s (rne_signed v)
  | S754_nan => False
  | _ => sval x = rne_signed v ∧ rounded x ∧ Z.abs (sval x) < limit
  end.

Lemma scale_eq : scale = 2200.
Proof. reflexivity. Qed.

Section limit.
Implicit Types (m e v w t : Z) (x y : double) (s : bool).

Lemma signed_twice s v : signed s (signed s v) = v.
Proof. unfold signed. destruct s; lia. Qed.
Lemma abs_signed s v : Z.abs (signed s v) = Z.abs v.
Proof. unfold signed. destruct s; lia. Qed.

Lemma below_limit m e : 0 ≤ m < 2 ^ 53 → - 1074 ≤ e ≤ 971 → m * 2 ^ (e + scale) < limit.
Proof.
  intros Hm He. pose proof scale_eq. unfold limit. replace (1024 + scale) with (53 + (971 + scale)) by lia.
  rewrite (Z.pow_add_r 2 53) by lia. assert (2 ^ (e + scale) ≤ 2 ^ (971 + scale)) by (apply Z.pow_le_mono_r; lia).
  assert (0 < 2 ^ (e + scale)) by lia. set (a := 2 ^ (e + scale)) in *. set (b := 2 ^ (971 + scale)) in *. clearbody a b. nia.
Qed.
Lemma above_limit m e k : 0 ≤ k → 2 ^ k ≤ m → 1024 - k ≤ e → 0 ≤ e + scale → limit ≤ m * 2 ^ (e + scale).
Proof.
  intros Hk Hm He Hs. pose proof scale_eq. unfold limit.
  transitivity (2 ^ k * 2 ^ (e + scale)); [|apply Z.mul_le_mono_nonneg_r; lia].
  rewrite <- Z.pow_add_r by lia. apply Z.pow_le_mono_r; lia.
Qed.

Lemma binary64_rounded x : binary64 x → rounded x.
Proof.
  pose proof scale_eq. destruct x as [s| | |s p e]; [|done|done|]; intros Hx.
  - split; [|done]. change (rne_signed 0 = 0). by rewrite rne_signed_pos, rne_0.
  - destruct Hx as (He & Hm & _). split; [|done]. rewrite sval_finite, signed_rne by lia. f_equal.
    apply (rne_exact _ (e + scale) (Zpos p)); [done|]. unfold shift_of, lowest_shift.
    rewrite Z.log2_mul_pow2 by lia. assert (Z.log2 (Zpos p) < 53) by (apply Z.log2_lt_pow2; lia). lia.
Qed.
Lemma binary64_small x : binary64 x → Z.abs (sval x) < limit.
Proof.
  assert (0 < limit) by (unfold limit; pose proof scale_eq; lia).
  destruct x as [s| | |s p e]; [|done|done|]; intros Hx; [done|].
  destruct Hx as (He & Hm & _). rewrite sval_finite, abs_signed. pose proof scale_eq.
  rewrite Z.abs_eq by lia. apply below_limit; lia.
Qed.

(** ** Rounding *)
(** Only a mantissa with all its bits may overflow. *)
Lemma finish_holds s m t v :
  0 ≤ m ≤ 2 ^ 53 → -1074 ≤ t → 0 ≤ v → m * 2 ^ (t + scale) = rne v → (971 < t → 2 ^ 52 ≤ m) →
  holds (let '(r, e) := shr_fexp 53 1024 m t loc_Exact in
         match shr_m r with
         | Z0 => S754_zero s
         | Zpos p => if e <=? 1024 - 53 then S754_finite s p e else S754_infinity s
         | Zneg _ => S754_nan
         end) (signed s v).
Proof.
  intros Hm Ht Hv E Hfull. pose proof (finish_val s m t v Hm Ht Hv E) as Hfin. cbn zeta in Hfin. revert Hfin.
  pose proof scale_eq. assert (0 < limit) by (unfold limit; lia).
  unfold shr_fexp. fold (exact_record m). set (n := fexp 53 1024 (Zdigits2 m + t) - t).
  assert (m ≠ 2 ^ 53 → n ≤ 0) as Hn.
  { intros Hne. unfold n, fexp, emin. destruct (decide (m = 0)) as [->|]; [cbn; lia|].
    rewrite Zdigits2_log2 by lia. assert (Z.log2 m < 53) by (apply Z.log2_lt_pow2; lia). lia. }
  assert (∀ x, (finite x → sval x = signed s (rne v) ∧ rounded x) → finite x → rne v < limit → holds x (signed s v)) as Hok.
  { intros x Hx Hf Hlt. destruct (Hx Hf) as [Hx1 Hx2]. destruct x; [|done|done|];
      (split; [by rewrite signed_rne|]; split; [done|]; rewrite Hx1, abs_signed; pose proof (rne_nonneg v Hv); lia). }
  destruct (decide (m = 2 ^ 53)) as [->|Hne].
  - assert (n = 1) as -> by (unfold n, fexp, emin; rewrite Zdigits2_log2 by lia; change (Z.log2 (2 ^ 53)) with 53; lia).
    cbn [shr iter_pos]. unfold exact_record. cbn [shr_record_of_loc]. rewrite shr_1_eq by lia. cbn [shr_m].
    change (2 ^ 53 / 2) with (Zpos (2 ^ 52)). cbn zeta. destruct (t + 1 <=? 1024 - 53) eqn:El; intros Hfin.
    + apply Hok; [done|done|]. rewrite <- E. change (2 ^ 53) with (2 ^ 52 * 2 ^ 1). rewrite <- Z.mul_assoc, <- Z.pow_add_r by lia.
      replace (1 + (t + scale)) with ((t + 1) + scale) by lia. apply below_limit; lia.
    + cbn [holds]. rewrite signed_rne, signed_twice, <- E by done. apply (above_limit _ _ 53); lia.
  - assert (shr (exact_record m) t n = (exact_record m, t)) as -> by (apply shr_none; by apply Hn).
    change (shr_m (exact_record m)) with m. cbn zeta. destruct m as [|p|p]; [| |lia]; intros Hfin.
    + apply Hok; [done|done|]. rewrite <- E. lia.
    + destruct (t <=? 1024 - 53) eqn:El.
      * apply Hok; [done|done|]. rewrite <- E. apply below_limit; lia.
      * cbn [holds]. rewrite signed_rne, signed_twice, <- E by done. apply (above_limit _ _ 52); lia.
Qed.

Lemma round_aux_holds s m e :
  0 < m → - scale ≤ e → (971 < e → 2 ^ 52 ≤ m) →
  holds (binary_round_aux 53 1024 s m e loc_Exact) (signed s (m * 2 ^ (e + scale))).
Proof.
  intros Hm He Hfull. set (v := m * 2 ^ (e + scale)). assert (0 ≤ v) as Hv by (unfold v; lia). pose proof scale_eq as Hsc.
  assert (Z.log2 v = Z.log2 m + (e + scale)) as Hlog by (unfold v; rewrite Z.log2_mul_pow2 by lia; lia).
  unfold binary_round_aux, shr_fexp at 1.
  rewrite Zdigits2_log2 by done. set (n := fexp 53 1024 (Z.log2 m + 1 + e) - e).
  assert (shift_of v = e + n + scale) as Hs by (unfold shift_of, lowest_shift, n, fexp, emin; rewrite Hlog; lia).
  fold (exact_record m). assert (-1074 ≤ e + n) by (unfold n, fexp, emin; lia).
  assert (∀ k, k ≤ 0 ∨ ∃ p, k = Zpos p) as Hcase by (intros [|p|p]; [by left|right; by exists p|left; lia]).
  destruct (Hcase n) as [Hn|[p Hn]]; clear Hcase.
  - rewrite (shr_none (exact_record m) e n Hn). change (shr_m (exact_record m)) with m.
    change (loc_of_shr_record (exact_record m)) with loc_Exact. cbn [round_nearest_even].
    assert (rne v = v) as Ev by (apply (rne_exact v (e + scale) m); [done|lia]).
    assert (Z.log2 m ≤ 52) by (unfold n, fexp, emin in Hn; lia).
    assert (m < 2 ^ 53) by (eapply Z.lt_le_trans; [apply Z.log2_spec; lia|apply Z.pow_le_mono_r; lia]).
    apply finish_holds; [lia| |done|by rewrite Ev|done].
    unfold n, fexp, emin in *. lia.
  - rewrite Hn. cbn [shr]. rewrite <- Hn, iter_pos_nat. destruct (Pos.to_nat p) as [|k] eqn:Ek; [lia|].
    pose proof (round_iter k m ltac:(lia)) as Hr. cbn zeta in Hr. replace (Z.of_nat (S k)) with n in Hr by lia.
    set (r := Nat.iter (S k) shr_1 (exact_record m)) in *. set (m1 := round_nearest_even (shr_m r) (loc_of_shr_record r)) in *.
    clearbody r m1. assert (m1 * 2 ^ (e + n + scale) = rne v) as E.
    { unfold rne. rewrite Hs. unfold v. replace (e + n + scale) with (n + (e + scale)) by lia.
      rewrite rq_scale, <- Hr by lia. rewrite (Z.pow_add_r 2 n) by lia. set (a := 2 ^ n). set (b := 2 ^ (e + scale)). lia. }
    pose proof (rne_nonneg v Hv) as H0. assert (0 < 2 ^ (e + n + scale)) as Hw by lia.
    apply finish_holds; [|done|done|done|].
    + assert (rne v ≤ 2 ^ (53 + (e + n + scale))) as H1.
      { unfold rne. rewrite <- Hs. pose proof (shift_of_pos v). apply rq_below; [lia|].
        destruct (decide (v = 0)) as [->|]; [lia|]. eapply Z.lt_le_trans; [apply Z.log2_spec; lia|].
        apply Z.pow_le_mono_r; [lia|]. unfold shift_of; lia. }
      rewrite <- E in H0, H1. rewrite (Z.pow_add_r 2 53) in H1 by lia.
      set (w := 2 ^ (e + n + scale)) in *. clearbody w. nia.
    + intros Ht. assert (Z.log2 m = 52 + n) as Hl by (unfold n, fexp, emin in *; lia).
      assert (2 ^ (52 + n) ≤ m) as Hlo by (rewrite <- Hl; apply Z.log2_spec; lia).
      pose proof (rq_above m n (52 + n) ltac:(lia) Hlo) as Hq. rewrite <- Hr, (Z.pow_add_r 2 52) in Hq by lia.
      assert (0 < 2 ^ n) by lia. set (w := 2 ^ n) in *. clearbody w. nia.
Qed.

Lemma binary_round_holds s p e :
  - 1074 ≤ e → holds (binary_round 53 1024 s p e) (signed s (Zpos p * 2 ^ (e + scale))).
Proof.
  intros He. pose proof scale_eq. unfold binary_round. rewrite digits2_log2. set (e' := fexp _ _ _).
  assert (-1074 ≤ e') by (unfold e', fexp, emin; lia).
  destruct (shl_align_val p e e') as [E1 E2]; [lia|]. destruct (shl_align p e e') as [mz ez]. cbn [fst snd] in E1, E2. subst ez.
  rewrite <- E2. apply round_aux_holds; [lia|lia|]. intros Hbig.
  assert (Z.log2 (Zpos mz * 2 ^ (Z.min e e' + scale)) = Z.log2 (Zpos p * 2 ^ (e + scale))) as E by (by rewrite E2).
  rewrite !Z.log2_mul_pow2 in E by lia. assert (52 ≤ Z.log2 (Zpos mz)) as Hl by (unfold e', fexp, emin in *; lia).
  transitivity (2 ^ Z.log2 (Zpos mz)); [apply Z.pow_le_mono_r; lia|apply Z.log2_spec; lia].
Qed.

Lemma holds_zero s : holds (S754_zero s) 0.
Proof.
  assert (0 < limit) by (unfold limit; pose proof scale_eq; lia).
  assert (rne_signed 0 = 0) as E by (by rewrite rne_signed_pos, rne_0).
  cbn [holds]. by rewrite E.
Qed.

Lemma binary_normalize_holds m e sz : - 1074 ≤ e → holds (binary_normalize 53 1024 m e sz) (m * 2 ^ (e + scale)).
Proof.
  intros He. destruct m as [|p|p]; cbn [binary_normalize].
  - apply holds_zero.
  - pose proof (binary_round_holds false p e He) as Hh. unfold signed in Hh. by rewrite Z.mul_1_l in Hh.
  - pose proof (binary_round_holds true p e He) as Hh. unfold signed in Hh.
    replace (Zneg p * 2 ^ (e + scale)) with (-1 * (Zpos p * 2 ^ (e + scale))) by lia. done.
Qed.

(** ** The operations *)
Lemma d_of_Z_holds z : holds (d_of_Z z) (z * 2 ^ scale).
Proof. apply (binary_normalize_holds z 0 false). done. Qed.

Lemma d_add_holds x y :
  finite x → rounded x → Z.abs (sval x) < limit → binary64 y → holds (d_add x y) (sval x + sval y).
Proof.
  intros Fx Rx Lx By. pose proof (binary64_rounded y By) as Ry. pose proof (binary64_small y By) as Ly.
  pose proof scale_eq. unfold d_add, SFadd. destruct x as [sx| | |sx mx ex]; [|done|done|].
  - change (sval (S754_zero sx)) with 0. rewrite Z.add_0_l. destruct y as [sy| | |sy my ey]; [|done|done|].
    + destruct sx, sy; apply holds_zero.
    + cbn [holds]. destruct Ry as [Hy ?]. by rewrite Hy.
  - destruct y as [sy| | |sy my ey]; [|done|done|].
    + change (sval (S754_zero sy)) with 0. rewrite Z.add_0_r. cbn [holds]. destruct Rx as [Hx ?]. by rewrite Hx.
    + destruct Rx as [_ Ex], Ry as [_ Ey]. cbn beta iota in Ex, Ey.
      destruct (shl_align_val mx ex (Z.min ex ey)) as [_ E1]; [lia|]. destruct (shl_align_val my ey (Z.min ex ey)) as [_ E2]; [lia|].
      replace (Z.min ex (Z.min ex ey)) with (Z.min ex ey) in E1 by lia.
      replace (Z.min ey (Z.min ex ey)) with (Z.min ex ey) in E2 by lia.
      pose proof (binary_normalize_holds
        (cond_Zopp sx (Zpos (shl_align mx ex (Z.min ex ey)).1) + cond_Zopp sy (Zpos (shl_align my ey (Z.min ex ey)).1))
        (Z.min ex ey) false ltac:(lia)) as Hh.
      assert (sval (S754_finite sx mx ex) + sval (S754_finite sy my ey) =
        (cond_Zopp sx (Zpos (shl_align mx ex (Z.min ex ey)).1) + cond_Zopp sy (Zpos (shl_align my ey (Z.min ex ey)).1)) *
          2 ^ (Z.min ex ey + scale)) as ->; [|exact Hh].
      rewrite !sval_finite, <- E1, <- E2, Z.mul_add_distr_r. unfold signed, cond_Zopp. destruct sx, sy; lia.
Qed.

(** A product with a factor below [2 ^ 65]. *)
Lemma d_mul_holds x y :
  binary64 x → finite y → rounded y → Z.abs (sval y) < 2 ^ (65 + scale) → holds (d_mul x y) (product x y).
Proof.
  intros Bx Fy [_ Ey] Ly. pose proof scale_eq. unfold d_mul, SFmul. destruct x as [sx| | |sx mx ex]; [|done|done|].
  - destruct y; [|done|done|]; apply holds_zero.
  - destruct y as [sy| | |sy my ey]; [apply holds_zero|done|done|]. destruct Bx as (Hex & Hmx & Hfull).
    assert (ey < 65) as Hey.
    { rewrite sval_finite, abs_signed, Z.abs_eq in Ly by lia. apply Z.nle_gt. intros Hge.
      assert (2 ^ (65 + scale) ≤ 2 ^ (ey + scale)) by (apply Z.pow_le_mono_r; lia).
      assert (0 < 2 ^ (65 + scale)) by lia. set (a := 2 ^ (65 + scale)) in *. set (b := 2 ^ (ey + scale)) in *. clearbody a b. nia. }
    unfold product. rewrite <- Pos2Z.inj_mul. apply round_aux_holds; [lia|lia|]. intros Hbig. rewrite Pos2Z.inj_mul.
    specialize (Hfull ltac:(lia)). nia.
Qed.

(** ** The order *)
(** An infinity is behind all finite values. *)
Definition dle (x y : double) : Prop :=
  match x, y with
  | S754_nan, _ | _, S754_nan => False
  | S754_infinity true, _ | _, S754_infinity false => True
  | S754_infinity false, _ | _, S754_infinity true => False
  | _, _ => sval x ≤ sval y
  end.

Lemma dle_mono x y v w : holds x v → holds y w → v ≤ w → dle x y.
Proof.
  intros Hx Hy Hvw. pose proof (rne_signed_mono v w Hvw) as Hm. pose proof scale_eq.
  assert (0 < limit) by (unfold limit; lia).
  destruct x as [sx|[]| |sx mx ex], y as [sy|[]| |sy my ey]; cbn [holds dle] in *; unfold signed in *; lia || done.
Qed.
End limit.

Section scaling.
Implicit Types (v w k : Z) (x y : double).

(** What is not so small that it loses bits is scaled with its rounding. *)
Definition no_underflow v : Prop := lowest_shift + 52 ≤ Z.log2 v ∨ v mod 2 ^ lowest_shift = 0.

Lemma rne_scale v k : 0 ≤ v → 0 ≤ k → no_underflow v → rne (v * 2 ^ k) = rne v * 2 ^ k.
Proof.
  intros Hv Hk Hu. destruct (decide (v = 0)) as [->|Hne]; [by rewrite Z.mul_0_l, rne_0|].
  assert (Z.log2 (v * 2 ^ k) = Z.log2 v + k) as El by (rewrite Z.log2_mul_pow2 by lia; lia).
  destruct (decide (lowest_shift + 52 ≤ Z.log2 v)) as [Hbig|Hsmall].
  - assert (shift_of v = Z.log2 v - 52 ∧ shift_of (v * 2 ^ k) = Z.log2 v - 52 + k) as [E1 E2] by (unfold shift_of; lia).
    unfold rne. rewrite E1, E2. apply rq_scale; [unfold lowest_shift, scale in *; lia|lia].
  - destruct Hu as [?|Hm]; [lia|]. assert (0 < 2 ^ lowest_shift) by (unfold lowest_shift, scale; lia).
    apply Z.mod_divide in Hm as [q Eq]; [|lia].
    rewrite (rne_exact v lowest_shift q) by (done || unfold shift_of; lia).
    apply (rne_exact _ (lowest_shift + k) q); [|unfold shift_of; lia].
    rewrite Eq, Z.pow_add_r by (unfold lowest_shift, scale; lia). lia.
Qed.

Lemma rne_signed_scale v k : 0 ≤ k → no_underflow (Z.abs v) → rne_signed (v * 2 ^ k) = rne_signed v * 2 ^ k.
Proof.
  intros Hk Hu. unfold rne_signed. destruct (decide (v < 0)).
  - rewrite !bool_decide_eq_true_2 by nia. rewrite Z.abs_neq in Hu by lia. rewrite <- Z.mul_opp_l, rne_scale by (done || lia). lia.
  - rewrite !bool_decide_eq_false_2 by nia. rewrite Z.abs_eq in Hu by lia. by apply rne_scale; [lia|..].
Qed.

(** Doubles are multiples of the least one. *)
Lemma sval_unit x : rounded x → sval x mod 2 ^ lowest_shift = 0.
Proof.
  intros [_ Hx]. destruct x as [| | |s p e]; try (by rewrite Z.mod_0_l). rewrite sval_finite. unfold signed.
  apply Z.mod_divide; [unfold lowest_shift, scale; lia|]. exists ((if s then -1 else 1) * (Zpos p * 2 ^ (e + 1074))).
  rewrite <- !Z.mul_assoc. do 2 f_equal. rewrite <- Z.pow_add_r by (unfold lowest_shift, scale; lia). f_equal. unfold lowest_shift. lia.
Qed.
Lemma unit_sum v w : v mod 2 ^ lowest_shift = 0 → w mod 2 ^ lowest_shift = 0 → no_underflow (Z.abs (v + w)).
Proof.
  assert (0 < 2 ^ lowest_shift) by (unfold lowest_shift, scale; lia). intros [a ->]%Z.mod_divide [b ->]%Z.mod_divide; [|lia..].
  right. apply Z.mod_divide; [lia|]. exists (Z.abs (a + b)). rewrite <- Z.mul_add_distr_r, Z.abs_mul. by rewrite (Z.abs_eq (2 ^ _)) by lia.
Qed.

Lemma d_of_pow2 k : 0 ≤ k < 64 → finite (d_of_Z (2 ^ k)) ∧ rounded (d_of_Z (2 ^ k)) ∧ sval (d_of_Z (2 ^ k)) = 2 ^ (k + scale).
Proof.
  intros Hk. pose proof scale_eq. pose proof (d_of_Z_holds (2 ^ k)) as Hh. rewrite <- Z.pow_add_r in Hh by lia.
  assert (rne_signed (2 ^ (k + scale)) = 2 ^ (k + scale)) as E.
  { rewrite rne_signed_pos by lia. apply (rne_exact _ (k + scale) 1); [lia|]. unfold shift_of, lowest_shift. rewrite Z.log2_pow2; lia. }
  assert (2 ^ (k + scale) < limit) by (unfold limit; apply Z.pow_lt_mono_r; lia). assert (0 < 2 ^ (k + scale)) by lia.
  destruct (d_of_Z (2 ^ k)) as [s|s| |s p e]; cbn [holds] in Hh; rewrite ?E in Hh.
  - destruct Hh as (E0 & ? & _). done.
  - unfold signed in Hh. destruct s; lia.
  - done.
  - destruct Hh as (E0 & ? & _). done.
Qed.

Lemma product_val x y : rounded x → rounded y → product x y * 2 ^ scale = sval x * sval y.
Proof.
  intros [_ Ex] [_ Ey]. pose proof scale_eq. destruct x as [|?| |sx mx ex]; [cbn; lia|done|done|]. destruct y as [sy| | |sy my ey]; [cbn; lia|done|done|].
  cbn [product]. rewrite !sval_finite. unfold signed.
  assert (2 ^ (ex + ey + scale) * 2 ^ scale = 2 ^ (ex + scale) * 2 ^ (ey + scale)) as E by (rewrite <- !Z.pow_add_r by lia; f_equal; lia).
  rewrite <- !Z.mul_assoc, E. destruct sx, sy; cbn [xorb]; lia.
Qed.

(** Multiplied by a power of two, a double is exact or overflows. *)
Lemma d_mul_pow2 x k : binary64 x → 0 ≤ k < 64 → finite (d_mul x (d_of_Z (2 ^ k))) → sval (d_mul x (d_of_Z (2 ^ k))) = sval x * 2 ^ k.
Proof.
  intros Hx Hk Hf. pose proof scale_eq. destruct (d_of_pow2 k Hk) as (Fk & Rk & Vk). pose proof (binary64_rounded x Hx) as Rx.
  assert (product x (d_of_Z (2 ^ k)) = sval x * 2 ^ k) as Hp.
  { apply (Z.mul_cancel_r _ _ (2 ^ scale)); [lia|]. rewrite product_val, Vk, Z.pow_add_r by (done || lia). lia. }
  pose proof (unit_sum (sval x) 0 (sval_unit x Rx) eq_refl) as Hu. rewrite Z.add_0_r in Hu.
  destruct (d_mul_val x (d_of_Z (2 ^ k)) Rx Rk Hf) as [-> _]. rewrite Hp, rne_signed_scale by (done || lia). f_equal. apply Rx.
Qed.
End scaling.
