(* ===== verification/Clht.v ===== *)
(** * The CLHT hash table of the SW-Table ([src/clht_lb_res.cc],
      [include/clht/clht_lb_res.h])

    A table is an array of buckets of three key/value slots; a bucket chain
    grows by linking further buckets.  Key 0 marks a free slot.  The functions
    are given as one thread runs them: a compare-and-swap or a test-and-set is
    one step, and spinning on a lock that only another thread could release is
    [Diverge].  Hash tables live in a heap and are named by [nat]; a bucket is
    reachable from its chain only, so a chain is a list. *)
From S2P Require Import Prelude Ieee.

Definition ENTRIES_PER_BUCKET : nat := 3.
Definition LOCK_FREE : Z := 0.
Definition LOCK_UPDATE : Z := 1.
Definition LOCK_RESIZE : Z := 2.
Definition MAX_BUCKET_SIZE : Z := 1024 * 1024.
Definition MAX_ACTIVE_ELIMINATION_TIME : Z := 512.
Definition CLHT_PERC_EXPANSIONS : Z := 1.
Definition CLHT_MAX_EXPANSIONS : Z := 12.
Definition CLHT_PERC_FULL_DOUBLE : Z := 50.
Definition CLHT_OCCUP_AFTER_RES : Z := 40.
Definition CLHT_PERC_FULL_HALVE : Z := 5.
Definition CLHT_RATIO_HALVE : Z := 8.
Definition sizeof_bucket_t : Z := 64.

(** ** Bit helpers *)
Definition is_power_of_two (x : Z) : bool :=
  bool_decide (x ≠ 0) && bool_decide (Z.land x (u32 (x - 1)) = 0).
Definition is_odd (x : Z) : Z := Z.land x 1.

Definition lnot64 (x : Z) : Z := Z.lxor x UINT64_MAX.
Definition shl64 (x n : Z) : Z := u64 (Z.shiftl x n).

(** [__ac_Jenkins_hash_64] *)
Definition ac_Jenkins_hash_64 (key : Z) : Z :=
  let key := u64 (key + lnot64 (shl64 key 32)) in
  let key := Z.lxor key (Z.shiftr key 22) in
  let key := u64 (key + lnot64 (shl64 key 13)) in
  let key := Z.lxor key (Z.shiftr key 8) in
  let key := u64 (key + shl64 key 3) in
  let key := Z.lxor key (Z.shiftr key 15) in
  let key := u64 (key + lnot64 (shl64 key 27)) in
  let key := Z.lxor key (Z.shiftr key 31) in
  key.

(** [pow2roundup] of [include/clht/utils.h]. *)
Definition pow2roundup (x : Z) : Z :=
  if bool_decide (x = 0) then 1 else
  let x := x - 1 in
  let x := Z.lor x (Z.shiftr x 1) in
  let x := Z.lor x (Z.shiftr x 2) in
  let x := Z.lor x (Z.shiftr x 4) in
  let x := Z.lor x (Z.shiftr x 8) in
  let x := Z.lor x (Z.shiftr x 16) in
  let x := Z.lor x (Z.shiftr x 32) in
  u64 (x + 1).

(** ** The three-byte logical time *)
Definition UInt24_t : Type := (Z * Z * Z)%type.

Definition unpack_uint24 (x : UInt24_t) : Z :=
  let '(b0, b1, b2) := x in
  let val := b0 in
  let val := Z.lor (u32 (Z.shiftl val 8)) b1 in
  let val := Z.lor (u32 (Z.shiftl val 8)) b2 in
  val.

Definition pack_uint24 (x : Z) : UInt24_t :=
  (Z.land (Z.shiftr x 16) 255, Z.land (Z.shiftr x 8) 255, Z.land x 255).

(** ** Buckets, tables and the handle *)
Record bucket : Type := mkBucket {
  lock : Z;
  t : UInt24_t;
  hops : Z;
  slots : list (Z * Z)   (* [key[j]] and [val[j]] *)
}.

Record hashtable : Type := mkHashtable {
  num_buckets : Z;
  table : list (list bucket);
  hash : Z;
  version : Z;
  table_tmp : option nat;
  table_prev : option nat;
  table_new : option nat;
  num_expands : Z;
  num_expands_threshold : Z;
  is_helper : Z;
  helper_done : Z
}.

Record clht : Type := mkClht {
  ht : nat;
  ht_oldest : nat;
  version_list : list (Z * Z);   (* version and id of each thread's record *)
  version_min : Z;
  resize_lock : Z;
  gc_lock : Z;
  status_lock : Z;
  heap : gmap nat hashtable;     (* all tables, by name *)
  released : list nat            (* handed to [ssmem_release], oldest last *)
}.

Definition with_lock (l : Z) (b : bucket) : bucket := mkBucket l (t b) (hops b) (slots b).
Definition with_slots (s : list (Z * Z)) (b : bucket) : bucket :=
  mkBucket (lock b) (t b) (hops b) s.
Definition with_hops (n : Z) (b : bucket) : bucket := mkBucket (lock b) (t b) n (slots b).
Definition with_table (tb : list (list bucket)) (h : hashtable) : hashtable :=
  mkHashtable (num_buckets h) tb (hash h) (version h) (table_tmp h) (table_prev h)
    (table_new h) (num_expands h) (num_expands_threshold h) (is_helper h) (helper_done h).
Definition with_expands (n : Z) (h : hashtable) : hashtable :=
  mkHashtable (num_buckets h) (table h) (hash h) (version h) (table_tmp h) (table_prev h)
    (table_new h) n (num_expands_threshold h) (is_helper h) (helper_done h).
Definition with_version (v : Z) (h : hashtable) : hashtable :=
  mkHashtable (num_buckets h) (table h) (hash h) v (table_tmp h) (table_prev h)
    (table_new h) (num_expands h) (num_expands_threshold h) (is_helper h) (helper_done h).
Definition with_prev (p : option nat) (h : hashtable) : hashtable :=
  mkHashtable (num_buckets h) (table h) (hash h) (version h) (table_tmp h) p
    (table_new h) (num_expands h) (num_expands_threshold h) (is_helper h) (helper_done h).
Definition with_new (p : option nat) (h : hashtable) : hashtable :=
  mkHashtable (num_buckets h) (table h) (hash h) (version h) (table_tmp h) (table_prev h)
    p (num_expands h) (num_expands_threshold h) (is_helper h) (helper_done h).

(** [set_time] *)
Definition set_time (x : Z) (b : bucket) : bucket :=
  mkBucket (lock b) (Z.land (Z.shiftr x 16) 255, Z.land (Z.shiftr x 8) 255, Z.land x 255)
    (hops b) (slots b).

Section clht.
(** What [memalign] leaves in the fields [clht_bucket_create] does not set
    (time, hops and the three values), for the [n]-th bucket linked to the
    table of version [v]. *)
Context (uninit : Z → Z → UInt24_t * Z * (Z * Z * Z)).

Definition clht_bucket_create (v n : Z) : bucket :=
  let '(t0, hops0, (v0, v1, v2)) := uninit v n in
  mkBucket 0 t0 hops0 [(0, v0); (0, v1); (0, v2)].

(** The bucket, the [*resize] flag and the table with its counter bumped. *)
Definition clht_bucket_create_stats (h : hashtable) : bucket * bool * hashtable :=
  let n := u32 (num_expands h + 1) in
  (clht_bucket_create (version h) n, bool_decide (n = num_expands_threshold h),
   with_expands n h).

(** [clht_hashtable_create]; [None] is [NULL]. *)
Definition clht_hashtable_create (n : Z) : option hashtable :=
  if bool_decide (n = 0) then None else
  let thr := u32 (CLHT_PERC_EXPANSIONS * n) in
  Some {| num_buckets := n;
          table := replicate (Z.to_nat n)
                     [mkBucket LOCK_FREE (0, 0, 0) 0 (replicate ENTRIES_PER_BUCKET (0, 0))];
          hash := u64 (n - 1); version := 0;
          table_tmp := None; table_prev := None; table_new := None;
          num_expands := 0;
          num_expands_threshold := if bool_decide (thr = 0) then 1 else thr;
          is_helper := 1; helper_done := 0 |}.

Definition clht_create (n : Z) : option clht :=
  match clht_hashtable_create n with
  | None => None
  | Some h => Some {| ht := 0; ht_oldest := 0; version_list := []; version_min := 0;
                      resize_lock := LOCK_FREE; gc_lock := LOCK_FREE;
                      status_lock := LOCK_FREE; heap := {[0%nat := h]}; released := [] |}
  end.

Definition clht_hash (h : hashtable) (key : Z) : Z := Z.land key (hash h).

(** ** Walking a chain *)
Definition find_key (key : Z) (b : bucket) : option (nat * (Z * Z)) :=
  list_find (λ kv : Z * Z, kv.1 = key) (slots b).

(** [clht_get] on the chain of the key's bucket. *)
Fixpoint chain_get (key lt : Z) (c : list bucket) : Z * list bucket :=
  match c with
  | [] => (0, [])
  | b :: c =>
      match find_key key b with
      | Some (_, kv) => (kv.2, set_time lt (with_hops (u32 (hops b + 1)) b) :: c)
      | None => let '(val, c) := chain_get key lt c in (val, b :: c)
      end
  end.

Fixpoint bucket_exists (c : list bucket) (key : Z) : bool :=
  match c with
  | [] => false
  | b :: c => if find_key key b is Some _ then true else bucket_exists c key
  end.

Fixpoint chain_update (key val : Z) (c : list bucket) : bool * list bucket :=
  match c with
  | [] => (false, [])
  | b :: c =>
      match find_key key b with
      | Some (j, _) =>
          (true, with_slots (alter (λ kv : Z * Z, (kv.1, val)) j (slots b)) b :: c)
      | None => let '(r, c) := chain_update key val c in (r, b :: c)
      end
  end.

Fixpoint chain_remove (key : Z) (c : list bucket) : option Z * list bucket :=
  match c with
  | [] => (None, [])
  | b :: c =>
      match find_key key b with
      | Some (j, kv) =>
          (Some kv.2, with_slots (alter (λ kv : Z * Z, (0, kv.2)) j (slots b)) b :: c)
      | None => let '(r, c) := chain_remove key c in (r, b :: c)
      end
  end.

(** The slot loop of [clht_put]: [None] when the key is found, otherwise the
    first free slot seen so far, as bucket and slot numbers. *)
Fixpoint put_slots (key : Z) (i j : nat) (empty : option (nat * nat)) (s : list (Z * Z))
  : option (option (nat * nat)) :=
  match s with
  | [] => Some empty
  | kv :: s =>
      if bool_decide (kv.1 = key) then None
      else put_slots key i (S j)
             (if bool_decide (empty = None ∧ kv.1 = 0) then Some (i, j) else empty) s
  end.
Fixpoint put_scan (key : Z) (i : nat) (empty : option (nat * nat)) (c : list bucket)
  : option (option (nat * nat)) :=
  match c with
  | [] => Some empty
  | b :: c => match put_slots key i 0 empty (slots b) with
              | None => None
              | Some empty => put_scan key (S i) empty c
              end
  end.

(** [*empty_v = val; *empty = key] *)
Definition chain_write (i j : nat) (key val : Z) (c : list bucket) : list bucket :=
  alter (λ b, with_slots (alter (λ _ : Z * Z, (key, val)) j (slots b)) b) i c.

(** The new bucket with the pair in its first slot. *)
Definition bucket_with (key val : Z) (b : bucket) : bucket :=
  with_slots (alter (λ _ : Z * Z, (key, val)) 0%nat (slots b)) b.

(** [clht_put_seq] walks to the first free slot, or links a new bucket. *)
Fixpoint chain_put_seq (key val : Z) (c : list bucket) : option (list bucket) :=
  match c with
  | [] => None
  | b :: c =>
      match list_find (λ kv : Z * Z, kv.1 = 0) (slots b) with
      | Some (j, _) => Some (with_slots (alter (λ _ : Z * Z, (key, val)) j (slots b)) b :: c)
      | None => match chain_put_seq key val c with
                | Some c => Some (b :: c)
                | None => None
                end
      end
  end.

Definition clht_put_seq (h : hashtable) (key val bin : Z) : res hashtable :=
  let* c := of_option (table h !! Z.to_nat bin) in
  match chain_put_seq key val c with
  | Some c => Ret (with_table (<[Z.to_nat bin := c]> (table h)) h)
  | None =>
      let '(b, _, h) := clht_bucket_create_stats h in
      Ret (with_table (<[Z.to_nat bin := c ++ [bucket_with key val b]]> (table h)) h)
  end.

(** ** Locks *)
(** [lock_acq_chk_resize]: the result and the lock afterwards. *)
Definition lock_acq_chk_resize (l : Z) (tnew : option nat) : res (bool * Z) :=
  if bool_decide (l = LOCK_UPDATE) then Diverge
  else if bool_decide (l = LOCK_FREE) then Ret (true, LOCK_UPDATE)
  else if bool_decide (l = LOCK_RESIZE) then
    match tnew with None => Diverge | Some _ => Ret (false, l) end
  else Ret (true, l).

Definition lock_acq_resize (l : Z) : res (bool * Z) :=
  if bool_decide (l = LOCK_UPDATE) then Diverge
  else if bool_decide (l = LOCK_FREE) then Ret (true, LOCK_RESIZE)
  else Ret (negb (bool_decide (l = LOCK_RESIZE)), l).

Definition head_lock (c : list bucket) : option Z := lock <$> head c.
Definition set_head_lock (l : Z) (c : list bucket) : list bucket := alter (with_lock l) 0%nat c.

(** ** The handle *)
Definition get_ht (n : nat) (h : clht) : res hashtable := of_option (heap h !! n).
Definition set_ht (n : nat) (hst : hashtable) (h : clht) : clht :=
  mkClht (ht h) (ht_oldest h) (version_list h) (version_min h) (resize_lock h)
    (gc_lock h) (status_lock h) (<[n := hst]> (heap h)) (released h).
Definition with_resize_lock (l : Z) (h : clht) : clht :=
  mkClht (ht h) (ht_oldest h) (version_list h) (version_min h) l
    (gc_lock h) (status_lock h) (heap h) (released h).
Definition with_status_lock (l : Z) (h : clht) : clht :=
  mkClht (ht h) (ht_oldest h) (version_list h) (version_min h) (resize_lock h)
    (gc_lock h) l (heap h) (released h).
Definition with_ht (n : nat) (h : clht) : clht :=
  mkClht n (ht_oldest h) (version_list h) (version_min h) (resize_lock h)
    (gc_lock h) (status_lock h) (heap h) (released h).

Definition get_chain (bin : Z) (hst : hashtable) : res (list bucket) :=
  of_option (table hst !! Z.to_nat bin).
Definition put_chain (bin : Z) (c : list bucket) (hst : hashtable) : hashtable :=
  with_table (<[Z.to_nat bin := c]> (table hst)) hst.

(** [while (!LOCK_ACQ(lock, hashtable)) { hashtable = h->ht; ... }] from the
    table named [n]: the table and bin whose bucket is now locked. *)
Fixpoint acquire (fuel : nat) (key : Z) (n : nat) (h : clht) : res (nat * Z * clht) :=
  let* hst := get_ht n h in
  let bin := clht_hash hst key in
  let* c := get_chain bin hst in
  let* l := of_option (head_lock c) in
  let* '(ok, l) := lock_acq_chk_resize l (table_new hst) in
  if ok : bool
  then Ret (n, bin, set_ht n (put_chain bin (set_head_lock l c) hst) h)
  else match fuel with
       | O => Diverge
       | S fuel => acquire fuel key (ht h) h
       end.

(** Runs [f] on the locked chain and releases its lock. *)
Definition locked {A} (n : nat) (bin : Z) (f : list bucket → A * list bucket) (h : clht)
  : res (A * clht) :=
  let* hst := get_ht n h in
  let* c := get_chain bin hst in
  let '(r, c) := f c in
  Ret (r, set_ht n (put_chain bin (set_head_lock LOCK_FREE c) hst) h).

(** ** Operations *)
Definition clht_get (n : nat) (key lt : Z) (h : clht) : res (Z * clht) :=
  let* hst := get_ht n h in
  let bin := clht_hash hst key in
  let* c := get_chain bin hst in
  let '(val, c) := chain_get key lt c in
  Ret (val, set_ht n (put_chain bin c hst) h).

Definition clht_update (fuel : nat) (key val : Z) (h : clht) : res (bool * clht) :=
  let* '(n, bin, h) := acquire fuel key (ht h) h in
  locked n bin (chain_update key val) h.

Definition clht_remove (fuel : nat) (key : Z) (h : clht) : res (Z * clht) :=
  let* hst := get_ht (ht h) h in
  let* c := get_chain (clht_hash hst key) hst in
  if bucket_exists c key then
    let* '(n, bin, h) := acquire fuel key (ht h) h in
    let* '(r, h) := locked n bin (chain_remove key) h in
    Ret (default 0 r, h)
  else Ret (0, h).

(** ** Resizing *)
(** The slot loop of [bucket_cpy]: every used slot goes to the new table. *)
Fixpoint copy_slots (s : list (Z * Z)) (ht_new : hashtable) : res hashtable :=
  match s with
  | [] => Ret ht_new
  | kv :: s =>
      if bool_decide (kv.1 ≠ 0)
      then let* ht_new := clht_put_seq ht_new kv.1 kv.2 (clht_hash ht_new kv.1) in
           copy_slots s ht_new
      else copy_slots s ht_new
  end.

(** Active elimination keeps a bucket when it was used recently or holds
    fewer than two pairs. *)
Definition kv_cnt (b : bucket) : nat := length (filter (λ kv : Z * Z, kv.1 ≠ 0) (slots b)).
Definition keep_bucket (lt : Z) (b : bucket) : bool :=
  bool_decide (lt < u32 (unpack_uint24 (t b) + MAX_ACTIVE_ELIMINATION_TIME)
               ∨ (kv_cnt b < 2)%nat).

(** The [do] loops of the two [bucket_cpy]; [filter_lt] is the logical time of
    the one that filters. *)
Fixpoint copy_chain (filter_lt : option Z) (c : list bucket) (ht_new : hashtable)
  : res hashtable :=
  match c with
  | [] => Ret ht_new
  | b :: c =>
      let* ht_new := (if match filter_lt with Some lt => keep_bucket lt b | None => true end
                      then copy_slots (slots b) ht_new else Ret ht_new) in
      copy_chain filter_lt c ht_new
  end.

Definition bucket_cpy (filter_lt : option Z) (c : list bucket) (ht_new : hashtable)
  : res (bool * list bucket * hashtable) :=
  let* l := of_option (head_lock c) in
  let* '(ok, l) := lock_acq_resize l in
  if ok : bool then
    let* ht_new := copy_chain filter_lt c ht_new in
    Ret (true, set_head_lock l c, ht_new)
  else Ret (false, c, ht_new).

(** [for (b = 0; b < ht_old->num_buckets; b++) bucket_cpy(...)] *)
Fixpoint copy_table (filter_lt : option Z) (tb : list (list bucket)) (ht_new : hashtable)
  : res (list (list bucket) * hashtable) :=
  match tb with
  | [] => Ret ([], ht_new)
  | c :: tb =>
      let* '(_, c, ht_new) := bucket_cpy filter_lt c ht_new in
      let* '(tb, ht_new) := copy_table filter_lt tb ht_new in
      Ret (c :: tb, ht_new)
  end.

(** [ht_resize_help]: chains [b], [b - 1], ..., 0 of the table, until the resizer's
    lock is met; the filtering [bucket_cpy] is called with time 0.  The chains
    with their locks, and the table they are copied to, which must exist. *)
Fixpoint help_table (tb_rev : list (list bucket)) (ht_new : hashtable)
  : res (list (list bucket) * hashtable) :=
  match tb_rev with
  | [] => Ret ([], ht_new)
  | c :: tb =>
      let* '(ok, c, ht_new) := bucket_cpy (Some 0) c ht_new in
      if ok : bool then
        let* '(tb, ht_new) := help_table tb ht_new in Ret (c :: tb, ht_new)
      else Ret (c :: tb, ht_new)
  end.

Definition ht_resize_help (n : nat) (h : clht) : res clht :=
  let* hst := get_ht n h in
  let old := s32 (is_helper hst) in
  let hst := mkHashtable (num_buckets hst) (table hst) (hash hst) (version hst) (table_tmp hst)
    (table_prev hst) (table_new hst) (num_expands hst) (num_expands_threshold hst)
    (s32 (is_helper hst - 1)) (helper_done hst) in
  if bool_decide (old ≤ 0) then Ret (set_ht n hst h) else
  let* tmp := of_option (table_tmp hst) in
  let* ht_new := get_ht tmp h in
  let n := Z.to_nat (s32 (hash hst) + 1) in
  let* '(tb, ht_new) := help_table (rev (take n (table hst))) ht_new in
  let hst := mkHashtable (num_buckets hst) (rev tb ++ drop n (table hst)) (hash hst) (version hst) (table_tmp hst)
    (table_prev hst) (table_new hst) (num_expands hst) (num_expands_threshold hst)
    (is_helper hst) 1 in
  Ret (set_ht n hst (set_ht tmp ht_new h)).

(** The scan of [ht_status]: pairs stored and the longest chain's extra
    buckets. *)
Fixpoint count_table (tb : list (list bucket)) (size expands_max : Z) : Z * Z :=
  match tb with
  | [] => (size, expands_max)
  | c :: tb =>
      let size := u64 (size + Z.of_nat (length (filter (λ kv : Z * Z, 0 < kv.1)
                                                 (concat (slots <$> c))))) in
      let expands_cont := Z.of_nat (length c) - 1 in
      count_table tb size (Z.max expands_cont expands_max)
  end.

Definition full_ratio (size nb : Z) : double :=
  d_div (d_mul (d_of_Z 100) (d_of_Z size))
        (d_of_Z (u64 (nb * Z.of_nat ENTRIES_PER_BUCKET))).

(** The factor a growing table is multiplied by. *)
Definition grow_by (ratio : double) : Z :=
  let inc_by := d_to_int (d_div ratio (d_of_Z CLHT_OCCUP_AFTER_RES)) in
  let inc_by_pow2 := s32 (pow2roundup (u64 inc_by)) in
  if bool_decide (inc_by_pow2 = 1) then 2 else inc_by_pow2.

(** The least recently, then least often used bucket of a chain. *)
Fixpoint least_hot (i : nat) (c : list bucket) (cur : option nat) (cur_time cur_hops : Z)
  : option nat :=
  match c with
  | [] => cur
  | b :: c =>
      let time := unpack_uint24 (t b) in
      if bool_decide (time < cur_time ∨ time = cur_time ∧ hops b < cur_hops)
      then least_hot (S i) c (Some i) time (hops b)
      else least_hot (S i) c cur cur_time cur_hops
  end.

(** Passive elimination: the keys of that bucket are cleared. *)
Definition clear_keys (b : bucket) : bucket :=
  with_slots ((λ kv : Z * Z, (0, kv.2)) <$> slots b) b.
Definition eliminate (c : list bucket) : unit * list bucket :=
  (tt, match least_hot 0 c None UINT32_MAX UINT32_MAX with
       | Some i => alter clear_keys i c
       | None => c
       end).

(** The lock loop of the elimination, on a bin rather than a key. *)
Fixpoint acquire_bin (fuel : nat) (bin : Z) (n : nat) (h : clht) : res (nat * clht) :=
  let* hst := get_ht n h in
  let* c := get_chain bin hst in
  let* l := of_option (head_lock c) in
  let* '(ok, l) := lock_acq_chk_resize l (table_new hst) in
  if ok : bool
  then Ret (n, set_ht n (put_chain bin (set_head_lock l c) hst) h)
  else match fuel with
       | O => Diverge
       | S fuel => acquire_bin fuel bin (ht h) h
       end.

(** [ht_status], over the resize function it calls.  [put_bin] is the extra
    argument of the five-argument overload, which eliminates where the other
    one only stops expanding. *)
Definition ht_status_with (resize : clht → bool → Z → Z → res (Z * clht))
    (fuel : nat) (h : clht) (resize_increase just_print : bool)
    (put_bin : option Z) (lt : Z) : res (Z * clht) :=
  let was := status_lock h in
  let h := with_status_lock 255 h in
  if bool_decide (was ≠ 0) && negb resize_increase then Ret (0, h) else
  let* hst := get_ht (ht h) h in
  let '(size, expands_max) := count_table (table hst) 0 0 in
  let ratio := full_ratio size (num_buckets hst) in
  let zero := d_of_Z 0 in
  let* h :=
    if just_print then Ret h
    else if d_lt zero ratio && d_lt ratio (d_of_Z CLHT_PERC_FULL_HALVE) then
      let* '(_, h) := resize h false 33 lt in Ret h
    else if d_lt zero ratio && d_lt (d_of_Z CLHT_PERC_FULL_DOUBLE) ratio
            || bool_decide (CLHT_MAX_EXPANSIONS < expands_max) || resize_increase then
      if bool_decide (MAX_BUCKET_SIZE ≤ size) then
        match put_bin with
        | None => Ret h
        | Some bin => let* '(n, h) := acquire_bin fuel bin (ht h) h in
                      let* '(_, h) := locked n bin eliminate h in Ret h
        end
      else let* '(_, h) := resize h true (grow_by ratio) 0 in Ret h
    else Ret h in
  Ret (size, with_status_lock LOCK_FREE h).

(** [ht_resize_pes]; the re-run through [ht_status] costs fuel. *)
Fixpoint ht_resize_pes (fuel : nat) (h : clht) (is_increase : bool) (by_ lt : Z)
  : res (Z * clht) :=
  let was := resize_lock h in
  let h := with_resize_lock 255 h in
  if bool_decide (was ≠ 0) then Ret (0, h) else
  let old := ht h in
  let* ht_old := get_ht old h in
  let num_buckets_new := if is_increase then u64 (by_ * num_buckets ht_old)
                         else num_buckets ht_old / CLHT_RATIO_HALVE in
  let* ht_new := of_option (clht_hashtable_create num_buckets_new) in
  let ht_new := with_version (u64 (version ht_old + 1)) ht_new in
  let* '(tb, ht_new) := copy_table (if is_increase then None else Some lt) (table ht_old) ht_new in
  let ht_old := with_table tb ht_old in
  let ht_new := with_prev (Some old) ht_new in
  let again := bool_decide (num_expands_threshold ht_new ≤ num_expands ht_new) in
  let new := fresh (dom (heap h)) in
  let h := with_ht new (set_ht new ht_new h) in
  let h := set_ht old (with_new (Some new) ht_old) h in
  let h := with_resize_lock LOCK_FREE h in
  let h := mkClht (ht h) (ht_oldest h) (version_list h) (version_min h) (resize_lock h)
             (gc_lock h) (status_lock h) (heap h) (old :: released h) in
  if again then
    match fuel with
    | O => Diverge
    | S fuel =>
        let* '(_, h) := ht_status_with (ht_resize_pes fuel) fuel h true false None 0 in
        Ret (1, h)
    end
  else Ret (1, h).

Definition ht_status (fuel : nat) := ht_status_with (ht_resize_pes fuel) fuel.

(** [clht_put] *)
Definition clht_put (fuel : nat) (key val lt : Z) (h : clht) : res (bool * clht) :=
  let* hst := get_ht (ht h) h in
  let bin0 := clht_hash hst key in
  let* c := get_chain bin0 hst in
  if bucket_exists c key then Ret (false, h) else
  let* '(n, bin, h) := acquire fuel key (ht h) h in
  let* hst := get_ht n h in
  let* c := get_chain bin hst in
  match put_scan key 0 None c with
  | None => let* '(_, h) := locked n bin (λ c, (tt, c)) h in Ret (false, h)
  | Some (Some (i, j)) =>
      let* '(_, h) := locked n bin (λ c, (tt, chain_write i j key val c)) h in
      Ret (true, h)
  | Some None =>
      let '(b, resize, hst) := clht_bucket_create_stats hst in
      let h := set_ht n hst h in
      let* '(_, h) := locked n bin (λ c, (tt, c ++ [bucket_with key val b])) h in
      if resize then
        let* '(_, h) := ht_status fuel h true false (Some bin0) lt in Ret (true, h)
      else Ret (true, h)
  end.

(** ** Sizes *)
Fixpoint clht_size_loop (tb : list (list bucket)) (size : Z) : Z :=
  match tb with
  | [] => size
  | c :: tb => clht_size_loop tb
      (u64 (size + Z.of_nat (length (filter (λ kv : Z * Z, 0 < kv.1) (concat (slots <$> c))))))
  end.
Definition clht_size (hst : hashtable) : Z := clht_size_loop (table hst) 0.

Definition clht_size_mem (hst : option hashtable) : Z :=
  match hst with
  | None => 0
  | Some hst => u64 (8 + u64 ((num_buckets hst + num_expands hst) * sizeof_bucket_t))
  end.

Fixpoint size_mem_prev (fuel : nat) (cur : option nat) (size_tot : Z) (h : clht) : res Z :=
  match cur with
  | None => Ret size_tot
  | Some n =>
      match fuel with
      | O => Diverge
      | S fuel => let* hst := get_ht n h in
                  size_mem_prev fuel (table_prev hst) (u64 (size_tot + clht_size_mem (Some hst))) h
      end
  end.
Definition clht_size_mem_garbage (fuel : nat) (hst : option hashtable) (h : clht) : res Z :=
  match hst with
  | None => Ret 0
  | Some hst => size_mem_prev fuel (table_prev hst) 0 h
  end.
End clht.
