(* ===== verification/ClhtInv.v ===== *)
(** * Invariant of the CLHT table and correctness of the chain operations

    [flat c] is the list of all slots of a chain.  A table is well formed
    ([ht_wf]) when its size is a power of two, every chain has its bucket,
    the lock of each chain is free, and each key is stored once, in the chain
    its hash names.  [ht_lookup] is the map a table stands for. *)
From S2P Require Import Prelude Ieee Clht.

Definition flat (c : list bucket) : list (Z * Z) := concat (slots <$> c).
(** What the operations on pairs leave alone. *)
Definition shape (c : list bucket) : list (Z * nat) := (λ b, (lock b, length (slots b))) <$> c.

(** ** Chains *)
Section chains.
Implicit Types (c : list bucket) (b : bucket) (key val : Z).

Lemma flat_cons b c : flat (b :: c) = slots b ++ flat c.
Proof. done. Qed.

Lemma flat_app c1 c2 : flat (c1 ++ c2) = flat c1 ++ flat c2.
Proof. unfold flat. by rewrite fmap_app, concat_app. Qed.

Lemma shape_cons b c c' : shape c = shape c' → shape (b :: c) = shape (b :: c').
Proof. intros E. unfold shape in *. cbn. by rewrite E. Qed.

Lemma chain_get_spec key lt c v c' :
  chain_get key lt c = (v, c') →
  shape c' = shape c ∧ flat c' = flat c ∧
  match list_find (λ kv : Z * Z, kv.1 = key) (flat c) with
  | Some (_, kv) => v = kv.2 | None => v = 0 end.
Proof.
  revert v c'. induction c as [|b c IH]; intros v c' E; cbn in E; [by simplify_eq|].
  unfold find_key in E. rewrite flat_cons.
  destruct (list_find _ (slots b)) as [[j kv]|] eqn:Ef.
  - simplify_eq. by erewrite list_find_app_l by exact Ef.
  - destruct (chain_get key lt c) as [v1 c1] eqn:Eg. simplify_eq.
    destruct (IH _ _ eq_refl) as (Hs & Hf & Hv).
    rewrite (list_find_app_r _ _ _ Ef), flat_cons, Hf.
    split_and!; [by apply shape_cons|done|]. by destruct (list_find _ (flat c)) as [[]|].
Qed.

Lemma bucket_exists_spec c key : bucket_exists c key = true ↔ key ∈ (flat c).*1.
Proof.
  induction c as [|b c IH]; cbn; [by rewrite elem_of_nil|].
  rewrite fmap_app, elem_of_app. unfold find_key.
  destruct (list_find _ (slots b)) as [[j kv]|] eqn:Ef.
  - split; [|done]. intros _. left.
    apply slot_find_Some in Ef as (l1 & l2 & v & _ & -> & _).
    rewrite fmap_app. apply elem_of_app. right. left.
  - apply slot_find_None in Ef. rewrite IH. tauto.
Qed.

(** One slot of a bucket rewritten. *)
Lemma edit_slot b c j f l1 x l2 :
  slots b = l1 ++ x :: l2 → length l1 = j →
  shape (with_slots (alter f j (slots b)) b :: c) = shape (b :: c) ∧
  flat (b :: c) = l1 ++ x :: (l2 ++ flat c) ∧
  flat (with_slots (alter f j (slots b)) b :: c) = l1 ++ f x :: (l2 ++ flat c).
Proof.
  intros E <-. rewrite E, alter_middle, !flat_cons. cbn [slots with_slots].
  rewrite E, <- !app_assoc. split_and!; [|done..].
  unfold shape. cbn. by rewrite E, !length_app.
Qed.

Lemma chain_update_spec key val c r c' :
  chain_update key val c = (r, c') →
  shape c' = shape c ∧
  if r : bool then ∃ l1 w l2, flat c = l1 ++ (key, w) :: l2 ∧ flat c' = l1 ++ (key, val) :: l2
  else key ∉ (flat c).*1 ∧ c' = c.
Proof.
  revert r c'. induction c as [|b c IH]; intros r c' E; cbn in E.
  { simplify_eq. split_and!; [done|apply not_elem_of_nil|done]. }
  unfold find_key in E. destruct (list_find _ (slots b)) as [[j kv]|] eqn:Ef.
  - apply slot_find_Some in Ef as (l1 & l2 & w & -> & Es & Hj & _ & _). simplify_eq.
    destruct (edit_slot b c _ (λ kv : Z * Z, (kv.1, val)) _ _ _ Es eq_refl) as (? & ? & ?).
    split; [done|]. by exists l1, w, (l2 ++ flat c).
  - apply slot_find_None in Ef.
    destruct (chain_update key val c) as [r1 c1] eqn:Eg. simplify_eq.
    destruct (IH _ _ eq_refl) as (Hs & Hr). split; [by apply shape_cons|].
    destruct r.
    + destruct Hr as (l1 & w & l2 & E1 & E2). exists (slots b ++ l1), w, l2.
      rewrite !flat_cons, E1, E2, <- !app_assoc. done.
    + destruct Hr as [Hn ->]. split; [|done]. rewrite flat_cons, fmap_app, elem_of_app. tauto.
Qed.

Lemma chain_remove_spec key c r c' :
  chain_remove key c = (r, c') →
  shape c' = shape c ∧
  match r with
  | Some w => ∃ l1 l2, flat c = l1 ++ (key, w) :: l2 ∧ flat c' = l1 ++ (0, w) :: l2
  | None => key ∉ (flat c).*1 ∧ c' = c
  end.
Proof.
  revert r c'. induction c as [|b c IH]; intros r c' E; cbn in E.
  { simplify_eq. split_and!; [done|apply not_elem_of_nil|done]. }
  unfold find_key in E. destruct (list_find _ (slots b)) as [[j kv]|] eqn:Ef.
  - apply slot_find_Some in Ef as (l1 & l2 & w & -> & Es & Hj & _ & _). simplify_eq.
    destruct (edit_slot b c _ (λ kv : Z * Z, (0, kv.2)) _ _ _ Es eq_refl) as (? & ? & ?).
    split; [done|]. by exists l1, (l2 ++ flat c).
  - apply slot_find_None in Ef.
    destruct (chain_remove key c) as [r1 c1] eqn:Eg. simplify_eq.
    destruct (IH _ _ eq_refl) as (Hs & Hr). split; [by apply shape_cons|].
    destruct r as [w|].
    + destruct Hr as (l1 & l2 & E1 & E2). exists (slots b ++ l1), l2.
      rewrite !flat_cons, E1, E2, <- !app_assoc. done.
    + destruct Hr as [Hn ->]. split; [|done]. rewrite flat_cons, fmap_app, elem_of_app. tauto.
Qed.

Lemma chain_put_seq_spec key val c :
  match chain_put_seq key val c with
  | Some c' => shape c' = shape c ∧
      ∃ l1 w l2, flat c = l1 ++ (0, w) :: l2 ∧ flat c' = l1 ++ (key, val) :: l2
  | None => 0 ∉ (flat c).*1
  end.
Proof.
  induction c as [|b c IH]; cbn [chain_put_seq]; [apply not_elem_of_nil|].
  destruct (list_find _ (slots b)) as [[j kv]|] eqn:Ef.
  - apply slot_find_Some in Ef as (l1 & l2 & w & -> & Es & Hj & _ & _).
    destruct (edit_slot b c j (λ _ : Z * Z, (key, val)) _ _ _ Es Hj) as (? & ? & ?).
    split; [done|]. by exists l1, w, (l2 ++ flat c).
  - apply slot_find_None in Ef. destruct (chain_put_seq key val c) as [c1|].
    + destruct IH as (Hs & l1 & w & l2 & E1 & E2). split; [by apply shape_cons|].
      exists (slots b ++ l1), w, l2. rewrite !flat_cons, E1, E2, <- !app_assoc. done.
    + rewrite flat_cons, fmap_app, elem_of_app. tauto.
Qed.

(** The scan of [clht_put] over one bucket, then over the chain. *)
Lemma put_slots_spec key i j empty s :
  put_slots key i j empty s =
    if decide (key ∈ s.*1) then None
    else Some match empty with
              | Some p => Some p
              | None => (λ p : nat * (Z * Z), (i, j + p.1)%nat) <$>
                          list_find (λ kv : Z * Z, kv.1 = 0) s
              end.
Proof.
  revert j empty. induction s as [|kv s IH]; intros j empty; cbn.
  { by destruct empty. }
  case_bool_decide as Hk.
  - rewrite decide_True; [done|]. rewrite Hk. left.
  - rewrite IH. destruct (decide (key ∈ s.*1)) as [Hin|Hn].
    + rewrite decide_True; [done|]. by right.
    + rewrite decide_False by (rewrite elem_of_cons; naive_solver). f_equal.
      destruct empty as [p|].
      * by rewrite bool_decide_eq_false_2 by (by intros [? _]).
      * destruct (decide (kv.1 = 0)).
        -- rewrite bool_decide_eq_true_2 by done. cbn. by rewrite Nat.add_0_r.
        -- rewrite bool_decide_eq_false_2 by (by intros [_ ?]).
           destruct (list_find _ s) as [[m y]|]; cbn; [|done].
           by rewrite <- Nat.add_succ_comm.
Qed.

Lemma put_scan_found key i p c :
  put_scan key i (Some p) c = if decide (key ∈ (flat c).*1) then None else Some (Some p).
Proof.
  revert i. induction c as [|b c IH]; intros i; cbn [put_scan]; [done|].
  rewrite put_slots_spec, flat_cons, fmap_app. destruct (decide (key ∈ (slots b).*1)) as [Hin|Hn].
  - rewrite decide_True; [done|]. apply elem_of_app. by left.
  - rewrite IH. apply decide_ext. rewrite elem_of_app. tauto.
Qed.

Lemma chain_write_S i j key val b c :
  chain_write (S i) j key val (b :: c) = b :: chain_write i j key val c.
Proof. done. Qed.

Lemma put_scan_spec key val i c :
  match put_scan key i None c with
  | None => key ∈ (flat c).*1
  | Some None => key ∉ (flat c).*1 ∧ 0 ∉ (flat c).*1
  | Some (Some (i', j)) => key ∉ (flat c).*1 ∧ (i ≤ i')%nat ∧
      let c' := chain_write (i' - i) j key val c in
      shape c' = shape c ∧
      ∃ l1 w l2, flat c = l1 ++ (0, w) :: l2 ∧ flat c' = l1 ++ (key, val) :: l2
  end.
Proof.
  revert i. induction c as [|b c IH]; intros i; cbn [put_scan].
  { split; apply not_elem_of_nil. }
  rewrite put_slots_spec. destruct (decide (key ∈ (slots b).*1)) as [Hin|Hn].
  { rewrite flat_cons, fmap_app. apply elem_of_app. by left. }
  destruct (list_find _ (slots b)) as [[j kv]|] eqn:Ef.
  - cbn [fmap option_fmap option_map fst]. rewrite put_scan_found, flat_cons, fmap_app.
    destruct (decide (key ∈ (flat c).*1)) as [Hin|Hn']; rewrite elem_of_app; [by right|].
    split; [tauto|]. split; [done|]. rewrite Nat.sub_diag. unfold chain_write.
    apply slot_find_Some in Ef as (l1 & l2 & w & -> & Es & Hj & _ & _).
    destruct (edit_slot b c j (λ _ : Z * Z, (key, val)) _ _ _ Es Hj) as (? & ? & ?).
    split; [done|]. by exists l1, w, (l2 ++ flat c).
  - cbn [fmap option_fmap option_map]. apply slot_find_None in Ef. specialize (IH (S i)).
    destruct (put_scan key (S i) None c) as [[[i' j]|]|].
    + destruct IH as (Hn' & Hle & Hs & l1 & w & l2 & E1 & E2).
      rewrite flat_cons, fmap_app. split; [rewrite elem_of_app; tauto|]. split; [lia|].
      replace (i' - i)%nat with (S (i' - S i)) by lia. rewrite chain_write_S.
      split; [by apply shape_cons|]. exists (slots b ++ l1), w, l2.
      rewrite !flat_cons, E1, E2, <- !app_assoc. done.
    + rewrite !flat_cons, !fmap_app, !elem_of_app. tauto.
    + rewrite flat_cons, fmap_app. apply elem_of_app. by right.
Qed.
End chains.

(** ** Well-formed chains *)
Definition chain_ok (m : Z) (b : nat) (c : list bucket) : Prop :=
  head_lock c = Some LOCK_FREE ∧
  Forall (λ s : Z * nat, s.2 = ENTRIES_PER_BUCKET) (shape c) ∧
  NoDup (live (flat c)).*1 ∧
  ∀ k v, slot_map (flat c) !! k = Some v → 0 < k ∧ Z.to_nat (Z.land k m) = b.

Section chain_ok.
Implicit Types (c : list bucket) (b : nat) (m k v : Z).

Lemma head_lock_shape c : head_lock c = fst <$> head (shape c).
Proof. by destruct c. Qed.

Lemma flat_set_head_lock l c : flat (set_head_lock l c) = flat c.
Proof. by destruct c. Qed.

Lemma shape_set_head_lock l c :
  shape (set_head_lock l c) = alter (λ p : Z * nat, (l, p.2)) 0%nat (shape c).
Proof. by destruct c. Qed.

(** Releasing a lock that was taken gives the old shape back. *)
Lemma chain_unlock c c2 l ext :
  head_lock c = Some LOCK_FREE → shape c2 = shape (set_head_lock l c) ++ ext →
  shape (set_head_lock LOCK_FREE c2) = shape c ++ ext.
Proof.
  intros Hl Hs. rewrite shape_set_head_lock, Hs, shape_set_head_lock.
  destruct c as [|b c]; [done|]. unfold shape. cbn in *. injection Hl as Hl. by rewrite Hl.
Qed.

Lemma chain_ok_edit m b c c' ext :
  chain_ok m b c → shape c' = shape c ++ ext →
  Forall (λ s : Z * nat, s.2 = ENTRIES_PER_BUCKET) ext →
  NoDup (live (flat c')).*1 →
  (∀ k, is_Some (slot_map (flat c') !! k) →
     is_Some (slot_map (flat c) !! k) ∨ 0 < k ∧ Z.to_nat (Z.land k m) = b) →
  chain_ok m b c'.
Proof.
  intros (Hl & Hf & _ & Hb) Hs Hext Hnd' Hk. split_and!; [| |done|].
  - rewrite head_lock_shape, Hs. rewrite head_lock_shape in Hl.
    by destruct (shape c).
  - rewrite Hs. by apply Forall_app.
  - intros k v Hv. destruct (Hk k) as [[w Hw]|?]; [by eexists|by apply Hb with w|done].
Qed.

Lemma chain_ok_new m b c c' l1 w l2 k v :
  chain_ok m b c → shape c' = shape c → flat c = l1 ++ (0, w) :: l2 →
  flat c' = l1 ++ (k, v) :: l2 → 0 < k → Z.to_nat (Z.land k m) = b →
  slot_map (flat c) !! k = None →
  chain_ok m b c' ∧ slot_map (flat c') = <[k := v]> (slot_map (flat c)).
Proof.
  intros Hok Hs E1 E2 Hk Hb Hn. pose proof Hok as (_ & _ & Hnd & _).
  rewrite E1 in Hn, Hnd. destruct (slots_new l1 l2 w k v ltac:(lia) Hn Hnd) as [Hnd' Hm].
  rewrite <- E1, <- E2 in Hm. split; [|done].
  apply (chain_ok_edit m b c c' []); [done|by rewrite app_nil_r|done|by rewrite E2|].
  intros k' Hk'. rewrite Hm in Hk'. apply lookup_insert_is_Some' in Hk' as [<-|?]; auto.
Qed.

Lemma chain_ok_update m b c c' l1 w l2 k v :
  chain_ok m b c → shape c' = shape c → flat c = l1 ++ (k, w) :: l2 →
  flat c' = l1 ++ (k, v) :: l2 → 0 < k →
  chain_ok m b c' ∧ slot_map (flat c') = <[k := v]> (slot_map (flat c)) ∧
  is_Some (slot_map (flat c) !! k).
Proof.
  intros Hok Hs E1 E2 Hk. pose proof Hok as (_ & _ & Hnd & _).
  assert (is_Some (slot_map (flat c) !! k)) as Hks.
  { exists w. apply elem_of_list_to_map_1; [done|]. rewrite E1. apply elem_of_live.
    split; [lia|]. apply elem_of_app. right; left. }
  rewrite E1 in Hnd. destruct (slots_update l1 l2 w k v ltac:(lia) Hnd) as [Hnd' Hm].
  rewrite <- E1, <- E2 in Hm. split; [|done].
  apply (chain_ok_edit m b c c' []); [done|by rewrite app_nil_r|done|by rewrite E2|].
  intros k' Hk'. rewrite Hm in Hk'. apply lookup_insert_is_Some' in Hk' as [<-|?]; auto.
Qed.

Lemma chain_ok_remove m b c c' l1 w l2 k :
  chain_ok m b c → shape c' = shape c → flat c = l1 ++ (k, w) :: l2 →
  flat c' = l1 ++ (0, w) :: l2 → 0 < k →
  chain_ok m b c' ∧ slot_map (flat c') = delete k (slot_map (flat c)) ∧
  slot_map (flat c) !! k = Some w.
Proof.
  intros Hok Hs E1 E2 Hk. pose proof Hok as (_ & _ & Hnd & _).
  assert (slot_map (flat c) !! k = Some w) as Hks.
  { apply elem_of_list_to_map_1; [done|]. rewrite E1. apply elem_of_live.
    split; [lia|]. apply elem_of_app. right; left. }
  rewrite E1 in Hnd. destruct (slots_remove l1 l2 w k ltac:(lia) Hnd) as [Hnd' Hm].
  rewrite <- E1, <- E2 in Hm. split; [|done].
  apply (chain_ok_edit m b c c' []); [done|by rewrite app_nil_r|done|by rewrite E2|].
  intros k' [v' Hk']. rewrite Hm in Hk'. apply lookup_delete_Some in Hk' as [_ ?]. eauto.
Qed.

(** A further bucket linked to the chain. *)
Lemma chain_ok_extend m b c c' nb v0 v1 v2 k v :
  chain_ok m b c → slots nb = [(0, v0); (0, v1); (0, v2)] →
  shape c' = shape c ++ shape [nb] → flat c' = flat c ++ [(k, v); (0, v1); (0, v2)] →
  0 < k → Z.to_nat (Z.land k m) = b → slot_map (flat c) !! k = None →
  chain_ok m b c' ∧ slot_map (flat c') = <[k := v]> (slot_map (flat c)).
Proof.
  intros Hok Hnb Hs Hf Hk Hb Hn. pose proof Hok as (_ & _ & Hnd & _).
  assert (live (flat c') = live (flat c) ++ [(k, v)]) as Hlv.
  { rewrite Hf, live_app. f_equal. rewrite live_cons, decide_False by lia. done. }
  assert (slot_map (flat c') = <[k := v]> (slot_map (flat c))) as Hm.
  { unfold slot_map in *. rewrite Hlv, list_to_map_snoc; [done|].
    by apply not_elem_of_list_to_map. }
  split; [|done]. apply (chain_ok_edit m b c c' (shape [nb])); [done|done| | |].
  - constructor; [cbn; by rewrite Hnb|done].
  - rewrite Hlv, fmap_app. apply NoDup_app. split_and!; [done| |repeat constructor; set_solver].
    intros x Hx ->%list_elem_of_singleton. by apply slot_map_None in Hn.
  - intros k' Hk'. rewrite Hm in Hk'. apply lookup_insert_is_Some' in Hk' as [<-|?]; auto.
Qed.
End chain_ok.

(** ** Well-formed tables *)
Record ht_wf (h : hashtable) : Prop := {
  wf_pow : ∃ n, 0 ≤ n < 64 ∧ num_buckets h = 2 ^ n;
  wf_hash : hash h = num_buckets h - 1;
  wf_len : length (table h) = Z.to_nat (num_buckets h);
  wf_chains : ∀ b c, table h !! b = Some c → chain_ok (hash h) b c
}.

Definition ht_lookup (h : hashtable) (k : Z) : option Z :=
  match table h !! Z.to_nat (clht_hash h k) with
  | Some c => slot_map (flat c) !! k
  | None => None
  end.

(** Everything but the chains and the expansion counter. *)
Definition same_params (h h' : hashtable) : Prop :=
  num_buckets h' = num_buckets h ∧ hash h' = hash h ∧ version h' = version h ∧
  table_new h' = table_new h ∧ num_expands_threshold h' = num_expands_threshold h.

Section tables.
Implicit Types (h : hashtable) (k v : Z) (c : list bucket).

Lemma same_params_trans h1 h2 h3 : same_params h1 h2 → same_params h2 h3 → same_params h1 h3.
Proof. unfold same_params. intuition congruence. Qed.

Lemma wf_hash_range h k : ht_wf h → 0 ≤ clht_hash h k < num_buckets h.
Proof.
  intros [(n & Hn & E) Hh _ _]. unfold clht_hash. rewrite Hh, E.
  replace (2 ^ n - 1) with (Z.ones n) by (rewrite Z.ones_equiv; lia).
  rewrite Z.land_ones by lia. apply Z.mod_pos_bound. lia.
Qed.

Lemma wf_chain h k :
  ht_wf h → ∃ c, table h !! Z.to_nat (clht_hash h k) = Some c ∧
    get_chain (clht_hash h k) h = Ret c ∧ chain_ok (hash h) (Z.to_nat (clht_hash h k)) c ∧
    ht_lookup h k = slot_map (flat c) !! k.
Proof.
  intros Hwf. pose proof (wf_hash_range h k Hwf).
  destruct (lookup_lt_is_Some_2 (table h) (Z.to_nat (clht_hash h k))) as [c Hc].
  { rewrite (wf_len _ Hwf). lia. }
  exists c. unfold get_chain, ht_lookup. rewrite Hc. split_and!; [done|done| |done].
  by apply Hwf.
Qed.

Lemma put_chain_wf h b c c' :
  ht_wf h → table h !! Z.to_nat b = Some c → chain_ok (hash h) (Z.to_nat b) c' →
  ht_wf (put_chain b c' h) ∧
  ∀ k, ht_lookup (put_chain b c' h) k =
    if decide (Z.to_nat (clht_hash h k) = Z.to_nat b)
    then slot_map (flat c') !! k else ht_lookup h k.
Proof.
  intros [] Hc Hok. pose proof (lookup_lt_Some _ _ _ Hc). split; [split|].
  - done.
  - done.
  - cbn. by rewrite length_insert.
  - cbn. intros b' c1 [[<- [<- _]]|[? ?]]%list_lookup_insert_Some; auto.
  - intros k. unfold ht_lookup. cbn. change (clht_hash (put_chain b c' h) k) with (clht_hash h k).
    case_decide as E; [rewrite E|].
    + by rewrite list_lookup_insert_eq.
    + by rewrite list_lookup_insert_ne by done.
Qed.

(** A chain that changed at one key changes the table at that key. *)
Lemma put_chain_insert h c c' k v :
  ht_wf h → table h !! Z.to_nat (clht_hash h k) = Some c →
  chain_ok (hash h) (Z.to_nat (clht_hash h k)) c' →
  slot_map (flat c') = <[k := v]> (slot_map (flat c)) →
  ht_wf (put_chain (clht_hash h k) c' h) ∧
  ∀ k', ht_lookup (put_chain (clht_hash h k) c' h) k' = if decide (k' = k) then Some v else ht_lookup h k'.
Proof.
  intros Hwf Hc Hok Hm. destruct (put_chain_wf h _ c c' Hwf Hc Hok) as [Hwf' Hl].
  split; [done|]. intros k'. rewrite Hl, Hm. destruct (decide (k' = k)) as [->|Hne].
  - rewrite decide_True by done. by rewrite lookup_insert_eq.
  - rewrite lookup_insert_ne by done. case_decide as E; [|done].
    unfold ht_lookup. by rewrite E, Hc.
Qed.

Lemma put_chain_delete h c c' k :
  ht_wf h → table h !! Z.to_nat (clht_hash h k) = Some c →
  chain_ok (hash h) (Z.to_nat (clht_hash h k)) c' →
  slot_map (flat c') = delete k (slot_map (flat c)) →
  ht_wf (put_chain (clht_hash h k) c' h) ∧
  ∀ k', ht_lookup (put_chain (clht_hash h k) c' h) k' = if decide (k' = k) then None else ht_lookup h k'.
Proof.
  intros Hwf Hc Hok Hm. destruct (put_chain_wf h _ c c' Hwf Hc Hok) as [Hwf' Hl].
  split; [done|]. intros k'. rewrite Hl, Hm. destruct (decide (k' = k)) as [->|Hne].
  - rewrite decide_True by done. by rewrite lookup_delete_eq.
  - rewrite lookup_delete_ne by done. case_decide as E; [|done].
    unfold ht_lookup. by rewrite E, Hc.
Qed.

(** Changes of the other fields. *)
Lemma with_expands_wf n h :
  ht_wf h → ht_wf (with_expands n h) ∧ ∀ k, ht_lookup (with_expands n h) k = ht_lookup h k.
Proof. intros []. by split. Qed.
End tables.
