(* ===== verification/ClhtSpec.v ===== *)
(** * Functional correctness of the CLHT operations

    [clht_ok h hst]: the current table of the handle [h] is [hst], it is well
    formed, and nobody is resizing.  Every operation run by one
    thread returns, keeps this, and changes [ht_lookup] as its name says. *)
From S2P Require Import Prelude Ieee Clht ClhtInv.

Record clht_ok (h : clht) (hst : hashtable) : Prop := {
  ok_cur : heap h !! ht h = Some hst;
  ok_wf : ht_wf hst;
  ok_resize : resize_lock h = LOCK_FREE
}.

(** The table changed, the rest of the handle did not. *)
Definition set_cur (hst : hashtable) (h : clht) : clht := set_ht (ht h) hst h.

Section ops.
Context (uninit : Z → Z → UInt24_t * Z * (Z * Z * Z)).
Implicit Types (h : clht) (hst : hashtable) (k v key val : Z) (c : list bucket).

Lemma set_cur_ok h hst hst' : clht_ok h hst → ht_wf hst' → clht_ok (set_cur hst' h) hst'.
Proof. intros [] ?. split; try done. cbn. by rewrite lookup_insert_eq. Qed.

Lemma get_cur h hst : clht_ok h hst → get_ht (ht h) h = Ret hst.
Proof. intros []. unfold get_ht. by rewrite ok_cur0. Qed.

Lemma put_chain_twice b c c' hst : put_chain b c' (put_chain b c hst) = put_chain b c' hst.
Proof. unfold put_chain. cbn. by rewrite list_insert_insert_eq. Qed.

Lemma set_cur_twice hst hst' h : set_cur hst' (set_cur hst h) = set_cur hst' h.
Proof. unfold set_cur, set_ht. cbn. by rewrite insert_insert_eq. Qed.

Lemma get_chain_put b c hst :
  (Z.to_nat b < length (table hst))%nat → get_chain b (put_chain b c hst) = Ret c.
Proof. intros. unfold get_chain, put_chain. cbn. by rewrite list_lookup_insert_eq. Qed.

(** The lock is taken at the first attempt. *)
Lemma acquire_run fuel key h hst c :
  clht_ok h hst → table hst !! Z.to_nat (clht_hash hst key) = Some c →
  head_lock c = Some LOCK_FREE →
  acquire fuel key (ht h) h
    = Ret (ht h, clht_hash hst key,
           set_cur (put_chain (clht_hash hst key) (set_head_lock LOCK_UPDATE c) hst) h).
Proof.
  intros Hok Hc Hl. destruct fuel; cbn [acquire];
    rewrite (get_cur _ _ Hok), res_bind_ret; unfold get_chain at 1; rewrite Hc;
    cbn [of_option]; rewrite res_bind_ret, Hl; cbn [of_option]; rewrite res_bind_ret; done.
Qed.

(** A locked step and the release that ends it. *)
Lemma locked_run {A} bin h hst c (f : list bucket → A * list bucket) r c' :
  clht_ok h hst → table hst !! Z.to_nat bin = Some c →
  f (set_head_lock LOCK_UPDATE c) = (r, c') →
  locked (ht h) bin f
    (set_cur (put_chain bin (set_head_lock LOCK_UPDATE c) hst) h)
  = Ret (r, set_cur (put_chain bin (set_head_lock LOCK_FREE c') hst) h).
Proof.
  intros Hok Hc Hf. unfold locked, get_ht. cbn. rewrite lookup_insert_eq. cbn [of_option].
  rewrite res_bind_ret, get_chain_put by (by eapply lookup_lt_Some).
  rewrite res_bind_ret, Hf. rewrite put_chain_twice.
  unfold set_cur, set_ht. cbn. by rewrite insert_insert_eq.
Qed.

(** Membership in a well-formed chain. *)
Lemma chain_key_iff m b c key :
  chain_ok m b c → key ≠ 0 → key ∈ (flat c).*1 ↔ is_Some (slot_map (flat c) !! key).
Proof.
  intros (_ & _ & Hnd & _) Hk. split.
  - intros [v Hv]%elem_of_fst_inv. exists v. apply elem_of_list_to_map_1; [done|].
    by apply elem_of_live.
  - intros [v [_ Hv]%elem_of_list_to_map_2%elem_of_live]. by apply elem_of_fst with v.
Qed.

Lemma chain_None m b c key :
  chain_ok m b c → key ≠ 0 → key ∉ (flat c).*1 ↔ slot_map (flat c) !! key = None.
Proof.
  intros Hc Hk. rewrite (chain_key_iff _ _ _ _ Hc Hk), eq_None_not_Some. done.
Qed.

(** ** Lookup *)
Lemma clht_get_spec h hst key lt :
  clht_ok h hst → key ≠ 0 →
  ∃ h' hst', clht_get (ht h) key lt h = Ret (default 0 (ht_lookup hst key), h') ∧
    clht_ok h' hst' ∧ same_params hst hst' ∧ num_expands hst' = num_expands hst ∧
    h' = set_cur hst' h ∧ ∀ k, ht_lookup hst' k = ht_lookup hst k.
Proof.
  intros Hok Hk. destruct (wf_chain hst key (ok_wf _ _ Hok)) as (c & Hc & Hg & Hcok & Hl).
  unfold clht_get. rewrite (get_cur _ _ Hok), res_bind_ret, Hg, res_bind_ret.
  destruct (chain_get key lt c) as [v c'] eqn:E.
  destruct (chain_get_spec _ _ _ _ _ E) as (Hs & Hf & Hv).
  assert (chain_ok (hash hst) (Z.to_nat (clht_hash hst key)) c') as Hcok'.
  { apply (chain_ok_edit _ _ c c' []); [done|by rewrite app_nil_r|done| |].
    - rewrite Hf. apply Hcok.
    - intros k ?. rewrite Hf in *. auto. }
  destruct (put_chain_wf hst _ c c' (ok_wf _ _ Hok) Hc Hcok') as [Hwf' Hl'].
  eexists (set_cur _ h), _. split; [|split_and!; [by eapply set_cur_ok| | | |]].
  - do 2 f_equal. rewrite Hl. unfold slot_map. rewrite live_lookup by done.
    destruct (list_find _ (flat c)) as [[i kv]|]; cbn; congruence.
  - done.
  - done.
  - done.
  - intros k. rewrite Hl', Hf. case_decide as E'; [|done]. unfold ht_lookup. by rewrite E', Hc.
Qed.

(** ** Update *)
Lemma clht_update_spec fuel h hst key val :
  clht_ok h hst → 0 < key →
  ∃ h' hst', clht_update fuel key val h
      = Ret (if ht_lookup hst key is Some _ then true else false, h') ∧
    clht_ok h' hst' ∧ same_params hst hst' ∧ num_expands hst' = num_expands hst ∧
    h' = set_cur hst' h ∧
    ∀ k, ht_lookup hst' k =
      if decide (k = key) then (if ht_lookup hst key is Some _ then Some val else None)
      else ht_lookup hst k.
Proof.
  intros Hok Hk. destruct (wf_chain hst key (ok_wf _ _ Hok)) as (c & Hc & Hg & Hcok & Hl).
  pose proof Hcok as [Hfree _].
  unfold clht_update. rewrite (acquire_run _ _ _ _ _ Hok Hc Hfree), res_bind_ret.
  destruct (chain_update key val (set_head_lock LOCK_UPDATE c)) as [r c2] eqn:E.
  rewrite (locked_run _ _ _ _ _ _ _ Hok Hc E).
  destruct (chain_update_spec _ _ _ _ _ E) as [Hs Hr]. rewrite !flat_set_head_lock in Hr.
  assert (shape (set_head_lock LOCK_FREE c2) = shape c) as Hs'.
  { rewrite <- (app_nil_r (shape c)). apply (chain_unlock _ _ LOCK_UPDATE); [done|].
    by rewrite app_nil_r. }
  destruct r.
  - destruct Hr as (l1 & w & l2 & E1 & E2).
    destruct (chain_ok_update _ _ c (set_head_lock LOCK_FREE c2) l1 w l2 key val Hcok Hs' E1)
      as (Hok' & Hm & [u Hu]); [by rewrite flat_set_head_lock|done|].
    destruct (put_chain_insert hst c _ key val (ok_wf _ _ Hok) Hc Hok' Hm) as [Hwf' Hl'].
    rewrite Hl, Hu. eexists _, _. split; [done|].
    split_and!; [by eapply set_cur_ok|done..].
  - destruct Hr as [Hn ->].
    rewrite (chain_None _ _ _ _ Hcok) in Hn by lia.
    assert (chain_ok (hash hst) (Z.to_nat (clht_hash hst key))
      (set_head_lock LOCK_FREE (set_head_lock LOCK_UPDATE c))) as Hcok'.
    { apply (chain_ok_edit _ _ c _ []); [done|by rewrite app_nil_r|done| |];
        rewrite !flat_set_head_lock; [apply Hcok|auto]. }
    destruct (put_chain_wf hst _ c _ (ok_wf _ _ Hok) Hc Hcok') as [Hwf' Hl'].
    rewrite Hl, Hn. eexists _, _. split; [done|].
    split_and!; [by eapply set_cur_ok|done..|].
    intros k. rewrite Hl', !flat_set_head_lock.
    destruct (decide (k = key)) as [->|]; [by rewrite decide_True|].
    case_decide as E'; [|done]. unfold ht_lookup. by rewrite E', Hc.
Qed.

(** ** Removal *)
Lemma clht_remove_spec fuel h hst key :
  clht_ok h hst → 0 < key →
  ∃ h' hst', clht_remove fuel key h = Ret (default 0 (ht_lookup hst key), h') ∧
    clht_ok h' hst' ∧ same_params hst hst' ∧ num_expands hst' = num_expands hst ∧
    h' = set_cur hst' h ∧
    ∀ k, ht_lookup hst' k = if decide (k = key) then None else ht_lookup hst k.
Proof.
  intros Hok Hk. destruct (wf_chain hst key (ok_wf _ _ Hok)) as (c & Hc & Hg & Hcok & Hl).
  pose proof Hcok as [Hfree _].
  unfold clht_remove. rewrite (get_cur _ _ Hok), res_bind_ret, Hg, res_bind_ret.
  pose proof (bucket_exists_spec c key) as Hex.
  rewrite (chain_key_iff _ _ _ _ Hcok), <- Hl in Hex by lia.
  destruct (bucket_exists c key).
  - rewrite (acquire_run _ _ _ _ _ Hok Hc Hfree), res_bind_ret.
    destruct (chain_remove key (set_head_lock LOCK_UPDATE c)) as [r c2] eqn:E.
    rewrite (locked_run _ _ _ _ _ _ _ Hok Hc E), res_bind_ret.
    destruct (chain_remove_spec _ _ _ _ E) as [Hs Hr]. rewrite !flat_set_head_lock in Hr.
    assert (shape (set_head_lock LOCK_FREE c2) = shape c) as Hs'.
    { rewrite <- (app_nil_r (shape c)). apply (chain_unlock _ _ LOCK_UPDATE); [done|].
      by rewrite app_nil_r. }
    destruct r as [w|].
    + destruct Hr as (l1 & l2 & E1 & E2).
      destruct (chain_ok_remove _ _ c (set_head_lock LOCK_FREE c2) l1 w l2 key Hcok Hs' E1)
        as (Hok' & Hm & Hw); [by rewrite flat_set_head_lock|done|].
      destruct (put_chain_delete hst c _ key (ok_wf _ _ Hok) Hc Hok' Hm) as [Hwf' Hl'].
      rewrite Hl, Hw. eexists _, _. split; [done|].
      split_and!; [by eapply set_cur_ok|done..].
    + destruct Hr as [Hn _]. rewrite (chain_None _ _ _ _ Hcok), <- Hl in Hn by lia.
      destruct Hex as [[v Hv] _]; [done|congruence].
  - assert (ht_lookup hst key = None) as Hn.
    { apply eq_None_not_Some. intros ?. by assert (false = true) by (by apply Hex). }
    rewrite Hn. exists h, hst. split_and!; [done|done|done|done| |].
    + unfold set_cur, set_ht. destruct h; cbn. by rewrite insert_id by apply Hok.
    + intros k. case_decide; [by subst|done].
Qed.

(** ** Copying into a new table *)
(** The slots [clht_bucket_create] makes. *)
Lemma bucket_create_slots v n :
  ∃ v0 v1 v2, slots (clht_bucket_create uninit v n) = [(0, v0); (0, v1); (0, v2)].
Proof.
  unfold clht_bucket_create. destruct (uninit v n) as [[t0 h0] [[v0 v1] v2]]. eauto.
Qed.

Lemma bucket_with_chain m b c nb v0 v1 v2 key val :
  chain_ok m b c → slots nb = [(0, v0); (0, v1); (0, v2)] → 0 < key →
  Z.to_nat (Z.land key m) = b → slot_map (flat c) !! key = None →
  chain_ok m b (c ++ [bucket_with key val nb]) ∧
  slot_map (flat (c ++ [bucket_with key val nb])) = <[key := val]> (slot_map (flat c)).
Proof.
  intros Hc Hnb Hk Hb Hn.
  apply (chain_ok_extend m b c _ nb v0 v1 v2); [done|done| | |done|done|done].
  - unfold shape. rewrite fmap_app. f_equal. cbn. by rewrite Hnb.
  - rewrite flat_app. f_equal. unfold flat, bucket_with. cbn. by rewrite Hnb.
Qed.

Lemma clht_put_seq_spec hst key val :
  ht_wf hst → 0 < key → ht_lookup hst key = None →
  ∃ hst', clht_put_seq uninit hst key val (clht_hash hst key) = Ret hst' ∧ ht_wf hst' ∧
    same_params hst hst' ∧
    ∀ k, ht_lookup hst' k = if decide (k = key) then Some val else ht_lookup hst k.
Proof.
  intros Hwf Hk Hn. destruct (wf_chain hst key Hwf) as (c & Hc & Hg & Hcok & Hl).
  rewrite Hl in Hn. unfold clht_put_seq. rewrite Hc. cbn [of_option]. rewrite res_bind_ret.
  pose proof (chain_put_seq_spec key val c) as Hp.
  destruct (chain_put_seq key val c) as [c'|].
  - destruct Hp as (Hs & l1 & w & l2 & E1 & E2).
    destruct (chain_ok_new _ _ c c' l1 w l2 key val Hcok Hs E1 E2 Hk eq_refl Hn) as [Hcok' Hm].
    destruct (put_chain_insert hst c c' key val Hwf Hc Hcok' Hm) as [Hwf' Hl'].
    eexists. split; [done|]. done.
  - unfold clht_bucket_create_stats.
    destruct (bucket_create_slots (version hst) (u32 (num_expands hst + 1))) as (v0 & v1 & v2 & Hb).
    destruct (bucket_with_chain _ _ c _ v0 v1 v2 key val Hcok Hb Hk eq_refl Hn) as [Hcok' Hm].
    destruct (with_expands_wf (u32 (num_expands hst + 1)) hst Hwf) as [Hwf1 _].
    destruct (put_chain_insert (with_expands (u32 (num_expands hst + 1)) hst) c _ key val
      Hwf1 Hc Hcok' Hm) as [Hwf' Hl'].
    eexists. split; [done|]. split; [exact Hwf'|]. split; [done|]. exact Hl'.
Qed.

Lemma copy_slots_spec s hst :
  ht_wf hst → NoDup (live s).*1 →
  (∀ k, is_Some (slot_map s !! k) → 0 < k ∧ ht_lookup hst k = None) →
  ∃ hst', copy_slots uninit s hst = Ret hst' ∧ ht_wf hst' ∧ same_params hst hst' ∧
    ∀ k, ht_lookup hst' k = match slot_map s !! k with Some v => Some v | None => ht_lookup hst k end.
Proof.
  revert hst. induction s as [|[k0 v0] s IH]; intros hst Hwf Hnd Hs.
  { exists hst. by split_and!. }
  unfold slot_map in *. rewrite live_cons in *. cbn [copy_slots fst snd].
  destruct (decide (k0 = 0)) as [->|Hk0].
  { rewrite bool_decide_eq_false_2 by (intros []; done). by apply IH. }
  rewrite bool_decide_eq_true_2 by done. cbn in Hnd, Hs.
  apply NoDup_cons in Hnd as [Hni Hnd].
  destruct (Hs k0) as [Hpos Hn0]; [by rewrite lookup_insert_eq|].
  destruct (clht_put_seq_spec hst k0 v0 Hwf Hpos Hn0) as (h1 & -> & Hwf1 & Hp1 & Hl1).
  rewrite res_bind_ret.
  destruct (IH h1) as (h2 & -> & Hwf2 & Hp2 & Hl2); [done|done| |].
  - intros k Hk. destruct (Hs k) as [? Hn]; [by apply lookup_insert_is_Some'; right|].
    split; [done|]. rewrite Hl1. case_decide as E; [|done]. subst.
    exfalso. apply Hni. destruct Hk as [v Hk%elem_of_list_to_map_2]. by apply elem_of_fst with v.
  - exists h2. split; [done|]. split; [done|]. split; [by eapply same_params_trans|].
    intros k. rewrite Hl2, Hl1. cbn. destruct (decide (k = k0)) as [->|Hne].
    + rewrite lookup_insert_eq.
      apply not_elem_of_list_to_map_1 in Hni. by rewrite Hni.
    + by rewrite lookup_insert_ne by done.
Qed.
End ops.
