(* ===== verification/ClhtResize.v ===== *)
(** * Resizing of the CLHT table

    [all_slots] is what a resize copies.  Growing a table keeps every pair;
    shrinking may drop buckets (active elimination) but adds nothing.  The
    load factor is a [double]: the bounds of [Ieee] decide the branches of
    [ht_status] that matter for termination. *)
From S2P Require Import Prelude Ieee Clht ClhtInv ClhtSpec.

(** ** [pow2roundup] *)
Section pow2.
(** [y] holds every bit of [x] moved down by less than [s]. *)
Definition smeared (s x y : Z) : Prop :=
  ∀ i, 0 ≤ i → Z.testbit y i = true ↔ ∃ j, 0 ≤ j < s ∧ Z.testbit x (i + j) = true.

Lemma smear_step s x y :
  0 < s → smeared s x y → smeared (s + s) x (Z.lor y (Z.shiftr y s)).
Proof.
  intros Hs Hy i Hi. rewrite Z.lor_spec, Z.shiftr_spec, orb_true_iff by lia.
  rewrite (Hy i), (Hy (i + s)) by lia. split.
  - intros [(j & ? & ?)|(j & ? & Hj)]; [exists j; split; [lia|done]|].
    exists (s + j). split; [lia|]. by replace (i + (s + j)) with (i + s + j) by lia.
  - intros (j & ? & Hj). destruct (decide (j < s)); [left; exists j; split; [lia|done]|].
    right. exists (j - s). split; [lia|]. by replace (i + s + (j - s)) with (i + j) by lia.
Qed.

Lemma smeared_ones x y : 0 < x < 2 ^ 64 → 0 ≤ y → smeared 64 x y → y = Z.ones (Z.log2 x + 1).
Proof.
  intros Hx Hy Hs. assert (0 ≤ Z.log2 x < 64) as Hl.
  { split; [apply Z.log2_nonneg|apply Z.log2_lt_pow2; lia]. }
  apply Z.bits_inj'. intros i Hi. rewrite Z.testbit_ones_nonneg by lia.
  destruct (Z.ltb_spec i (Z.log2 x + 1)).
  - apply Hs; [done|]. exists (Z.log2 x - i). split; [lia|].
    replace (i + (Z.log2 x - i)) with (Z.log2 x) by lia. apply Z.bit_log2. lia.
  - apply not_true_is_false. intros (j & ? & Hj)%Hs; [|done].
    rewrite Z.bits_above_log2 in Hj by lia. done.
Qed.

Lemma pow2roundup_log2 x : 0 < x < 2 ^ 64 → pow2roundup x = u64 (2 ^ Z.log2_up x).
Proof.
  intros Hx. unfold pow2roundup. rewrite bool_decide_eq_false_2 by lia.
  destruct (decide (x = 1)) as [->|Hne]; [done|].
  rewrite Z.log2_up_eqn by lia. rewrite <- Z.sub_1_r. cbv zeta.
  set (y := x - 1).
  match goal with |- u64 (?z + 1) = _ => set (w := z) end.
  assert (smeared 1 y y) as H1.
  { intros i Hi. split; [|intros (j & ? & Hj); by replace j with 0 in Hj by lia; rewrite Z.add_0_r in Hj].
    intros. exists 0. rewrite Z.add_0_r. by split; [lia|]. }
  do 6 (apply smear_step in H1; [|lia]).
  assert (w = Z.ones (Z.log2 y + 1)) as ->.
  { apply smeared_ones; [unfold y; lia| |exact H1].
    unfold w. repeat (apply Z.lor_nonneg; split);
      repeat (apply Z.shiftr_nonneg || (apply Z.lor_nonneg; split)); unfold y; lia. }
  rewrite Z.ones_equiv. f_equal. unfold Z.succ. lia.
Qed.

Lemma pow2roundup_pow x :
  0 < x ≤ 2 ^ 63 → pow2roundup x = 2 ^ Z.log2_up x.
Proof.
  intros Hx. rewrite pow2roundup_log2 by lia. pose proof (Z.log2_up_nonneg x).
  assert (Z.log2_up x ≤ 63) by (apply Z.log2_up_le_pow2; lia).
  apply wrap_small. split; [lia|]. apply Z.pow_lt_mono_r; lia.
Qed.
End pow2.

(** ** The load factor *)
Section ratio.
Implicit Types size nb : Z.

Lemma full_ratio_within size nb :
  0 < size < 2 ^ 50 → 0 < nb < 2 ^ 51 →
  within (full_ratio size nb)
    (Z.log2 size + 5 - Z.log2 (nb * 3)) (Z.log2 size + 9 - Z.log2 (nb * 3)).
Proof.
  intros Hs Hn. unfold full_ratio, ENTRIES_PER_BUCKET.
  change (Z.of_nat 3) with 3. rewrite (wrap_small 64) by lia.
  pose proof (Z.log2_nonneg size). pose proof (Z.log2_nonneg (nb * 3)).
  assert (Z.log2 size < 50) by (apply Z.log2_lt_pow2; lia).
  assert (Z.log2 (nb * 3) < 53) by (apply Z.log2_lt_pow2; lia).
  pose proof (d_mul_within (d_of_Z 100) (d_of_Z size) 6 6 (Z.log2 size) (Z.log2 size)) as Hm.
  pose proof (d_div_within (d_mul (d_of_Z 100) (d_of_Z size)) (d_of_Z (nb * 3))
    (6 + Z.log2 size) (6 + Z.log2 size + 2) (Z.log2 (nb * 3)) (Z.log2 (nb * 3))) as Hd.
  destruct Hd as (l & Hl & ?); [| |lia|lia|].
  - apply Hm; [|apply d_of_Z_exact_within; lia|lia|lia].
    change 6 with (Z.log2 100). by apply d_of_Z_exact_within.
  - apply d_of_Z_exact_within. lia.
  - exists l. split; [done|lia].
Qed.

Lemma full_ratio_zero nb : 0 < nb < 2 ^ 51 → full_ratio 0 nb = S754_zero false.
Proof.
  intros Hn. unfold full_ratio. change (Z.of_nat ENTRIES_PER_BUCKET) with 3.
  rewrite (wrap_small 64) by lia.
  destruct (d_of_Z_exact (nb * 3)) as (m & -> & _); [lia|]. done.
Qed.

(** A table as full as its buckets is never halved. *)
Lemma full_ratio_not_low size nb :
  0 < size < 2 ^ 50 → 0 < nb < 2 ^ 51 → nb * 3 ≤ size →
  d_lt (full_ratio size nb) (d_of_Z CLHT_PERC_FULL_HALVE) = false.
Proof.
  intros Hs Hn Hle. pose proof (full_ratio_within size nb Hs Hn) as Hw.
  pose proof (Z.log2_le_mono _ _ Hle).
  apply (d_lt_within_false _ _ _ _ 2 2 Hw); [|lia].
  change 2 with (Z.log2 5). by apply d_of_Z_exact_within.
Qed.

(** A table of less than eight buckets that holds a pair is not halved. *)
Lemma full_ratio_small_table size nb :
  0 < size < 2 ^ 50 → nb = 1 ∨ nb = 2 ∨ nb = 4 →
  d_lt (full_ratio size nb) (d_of_Z CLHT_PERC_FULL_HALVE) = false.
Proof.
  intros Hs Hn. destruct (decide (size = 1)) as [->|Hne].
  { destruct Hn as [-> |[-> | ->]]; by vm_compute. }
  pose proof (full_ratio_within size nb Hs ltac:(lia)) as Hw.
  assert (1 ≤ Z.log2 size) by (apply Z.log2_le_pow2; lia).
  assert (Z.log2 (nb * 3) ≤ 3) by (destruct Hn as [-> |[-> | ->]]; by vm_compute).
  apply (d_lt_within_false _ _ _ _ 2 2 Hw); [|lia].
  change 2 with (Z.log2 5). by apply d_of_Z_exact_within.
Qed.

(** The growth factor is a power of two, at least 2: no overflow; and beyond 2
    it is bounded by the load. *)
Lemma grow_by_pow size nb :
  0 ≤ size < MAX_BUCKET_SIZE → 0 < nb < 2 ^ 51 →
  ∃ j, 1 ≤ j ∧ grow_by (full_ratio size nb) = 2 ^ j ∧
       (j = 1 ∨ j ≤ Z.log2 size + 6 - Z.log2 (nb * 3)).
Proof.
  unfold MAX_BUCKET_SIZE. intros Hs Hn. unfold grow_by.
  destruct (decide (size = 0)) as [->|Hne].
  { rewrite full_ratio_zero by done. exists 1. split; [lia|]. split; [by vm_compute|by left]. }
  pose proof (full_ratio_within size nb ltac:(lia) Hn) as Hw.
  assert (0 ≤ Z.log2 size < 20) by (split; [apply Z.log2_nonneg|apply Z.log2_lt_pow2; lia]).
  assert (0 ≤ Z.log2 (nb * 3) < 53) by (split; [apply Z.log2_nonneg|apply Z.log2_lt_pow2; lia]).
  set (b := Z.max 0 (Z.log2 size + 6 - Z.log2 (nb * 3))).
  assert (∃ z, d_to_int (d_div (full_ratio size nb) (d_of_Z CLHT_OCCUP_AFTER_RES)) = z ∧
    0 ≤ z < 2 ^ b) as (z & -> & Hz).
  { destruct (d_div_within _ (d_of_Z CLHT_OCCUP_AFTER_RES) _ _ 5 5 Hw) as (l & Hl & Hlr);
      [change 5 with (Z.log2 40); by apply d_of_Z_exact_within|lia|lia|].
    destruct (decide (b = 0)) as [Eb|].
    - pose proof (sf_trunc_neg (d_div (full_ratio size nb) (d_of_Z CLHT_OCCUP_AFTER_RES)) l Hl
        ltac:(lia)) as Hz. exists 0. unfold d_to_int. by rewrite Hz, Eb.
    - destruct (sf_trunc_within (d_div (full_ratio size nb) (d_of_Z CLHT_OCCUP_AFTER_RES)) l (b - 1))
        as (z & Hz & Hzr); [exists l; split; [done|lia]|lia|].
      replace (b - 1 + 1) with b in Hzr by lia.
      assert (2 ^ b ≤ 2 ^ 26) by (apply Z.pow_le_mono_r; lia).
      exists z. unfold d_to_int. rewrite Hz, bool_decide_eq_true_2 by lia. done. }
  assert (2 ^ b ≤ 2 ^ 26) by (apply Z.pow_le_mono_r; lia).
  rewrite (wrap_small 64) by lia.
  destruct (decide (z = 0)) as [->|]; [exists 1; split; [lia|]; split; [by vm_compute|by left]|].
  rewrite pow2roundup_pow by lia.
  assert (0 ≤ Z.log2_up z ≤ b) as Hu.
  { split; [apply Z.log2_up_nonneg|]. apply Z.log2_up_le_pow2; lia. }
  pose proof (Z.pow_le_mono_r 2 (Z.log2_up z) 26 ltac:(lia) ltac:(lia)).
  pose proof (Z.pow_pos_nonneg 2 (Z.log2_up z) ltac:(lia) ltac:(lia)).
  rewrite s32_small by lia. case_bool_decide as Hone.
  - exists 1. split; [lia|]. split; [done|by left].
  - exists (Z.log2_up z).
    destruct (decide (Z.log2_up z = 0)) as [E|]; [by rewrite E in Hone|].
    split; [lia|]. split; [done|right; lia].
Qed.
End ratio.

(** ** What a resize copies *)
Definition kept (flt : option Z) (c : list bucket) : list bucket :=
  match flt with Some lt => filter (λ b, keep_bucket lt b = true) c | None => c end.
Definition all_slots (flt : option Z) (tb : list (list bucket)) : list (Z * Z) :=
  concat ((λ c, flat (kept flt c)) <$> tb).

(** The number of pairs of a table. *)
Definition ht_count (h : hashtable) : nat := length (live (all_slots None (table h))).

Section copy.
Context (uninit : Z → Z → UInt24_t * Z * (Z * Z * Z)).
Implicit Types (h : clht) (hst hn : hashtable) (k v : Z) (c : list bucket)
  (tb : list (list bucket)) (flt : option Z).

Lemma copy_slots_app s1 s2 hn :
  copy_slots uninit (s1 ++ s2) hn
    = let* hn := copy_slots uninit s1 hn in copy_slots uninit s2 hn.
Proof.
  revert hn. induction s1 as [|kv s1 IH]; intros hn; [done|]. cbn [copy_slots app].
  case_bool_decide; [|apply IH].
  destruct (clht_put_seq _ _ _ _ _) as [h1| |]; cbn; [apply IH|done|done].
Qed.

Lemma copy_chain_slots flt c hn :
  copy_chain uninit flt c hn = copy_slots uninit (flat (kept flt c)) hn.
Proof.
  revert hn. induction c as [|b c IH]; intros hn; [by destruct flt|].
  cbn [copy_chain kept]. destruct flt as [lt|]; cbn [kept] in *.
  - destruct (keep_bucket lt b) eqn:E.
    + rewrite filter_cons_True by done. rewrite flat_cons, copy_slots_app.
      destruct (copy_slots uninit (slots b) hn) as [h1| |]; cbn; [apply IH|done|done].
    + rewrite filter_cons_False by congruence. rewrite res_bind_ret. apply IH.
  - rewrite flat_cons, copy_slots_app.
    destruct (copy_slots uninit (slots b) hn) as [h1| |]; cbn; [apply IH|done|done].
Qed.

Lemma copy_table_slots flt tb hn :
  Forall (λ c, head_lock c = Some LOCK_FREE) tb →
  copy_table uninit flt tb hn =
    let* hn := copy_slots uninit (all_slots flt tb) hn in
    Ret (set_head_lock LOCK_RESIZE <$> tb, hn).
Proof.
  intros Hf. revert hn. induction Hf as [|c tb Hl Hf IH]; intros hn; [done|].
  cbn [copy_table]. unfold bucket_cpy. rewrite Hl. cbn [of_option]. rewrite res_bind_ret.
  change (all_slots flt (c :: tb)) with (flat (kept flt c) ++ all_slots flt tb).
  rewrite copy_slots_app. change (lock_acq_resize LOCK_FREE) with (Ret (true, LOCK_RESIZE)).
  rewrite res_bind_ret, copy_chain_slots.
  destruct (copy_slots uninit (flat (kept flt c)) hn) as [h1| |]; [|done..].
  rewrite !res_bind_ret, IH. by destruct (copy_slots uninit (all_slots flt tb) h1) as [h2| |].
Qed.

Lemma kept_sublist flt c : sublist (live (flat (kept flt c))) (live (flat c)).
Proof.
  destruct flt as [lt|]; [|done]. cbn [kept].
  induction c as [|b c IH]; [done|]. rewrite filter_cons. case_decide.
  - rewrite !flat_cons, !live_app. by apply sublist_app.
  - rewrite flat_cons, live_app. by apply sublist_inserts_l.
Qed.

Lemma chain_ok_elem m b c k v :
  chain_ok m b c → (k, v) ∈ live (flat c) ↔ slot_map (flat c) !! k = Some v.
Proof. intros (_ & _ & Hnd & _). by apply elem_of_list_to_map. Qed.

(** The copied pairs are distinct pairs of the table, and without a filter all
    of them. *)
Lemma all_slots_spec flt m tb i :
  (∀ j c, tb !! j = Some c → chain_ok m (i + j)%nat c) →
  NoDup (live (all_slots flt tb)).*1 ∧
  (∀ k v, (k, v) ∈ live (all_slots flt tb) → 0 < k ∧
     ∃ j c, tb !! j = Some c ∧ Z.to_nat (Z.land k m) = (i + j)%nat ∧
            slot_map (flat c) !! k = Some v) ∧
  (flt = None → ∀ j c k v, tb !! j = Some c → slot_map (flat c) !! k = Some v →
     (k, v) ∈ live (all_slots flt tb)).
Proof.
  revert i. induction tb as [|c tb IH]; intros i Hok.
  { split_and!; [constructor| |done]. by intros k v ?%not_elem_of_nil. }
  change (all_slots flt (c :: tb)) with (flat (kept flt c) ++ all_slots flt tb).
  rewrite live_app. pose proof (Hok 0%nat c eq_refl) as Hc. rewrite Nat.add_0_r in Hc.
  destruct (IH (S i)) as (Hnd & Hin & Hall).
  { intros j c' Hj. rewrite Nat.add_succ_comm. by apply Hok. }
  assert (∀ k v, (k, v) ∈ live (flat (kept flt c)) → slot_map (flat c) !! k = Some v) as Hk.
  { intros k v Hkv. rewrite <- (chain_ok_elem _ _ _ _ _ Hc).
    by eapply elem_of_submseteq; [|apply sublist_submseteq, kept_sublist]. }
  split_and!.
  - rewrite fmap_app. apply NoDup_app. split_and!; [| |done].
    + eapply sublist_NoDup; [apply Hc|apply fmap_sublist, kept_sublist].
    + intros k [v Hv%Hk]%elem_of_fst_inv [w Hw]%elem_of_fst_inv.
      destruct Hc as (_ & _ & _ & Hb). apply Hb in Hv as [_ Hv].
      apply Hin in Hw as (_ & j & c' & _ & Hj & _). lia.
  - intros k v [Hv%Hk|Hv]%elem_of_app.
    + split; [by apply Hc with v|]. exists 0%nat, c. split_and!; [done| |done].
      rewrite Nat.add_0_r. by apply Hc with v.
    + destruct (Hin k v Hv) as (? & j & c' & ? & ? & ?). split; [done|].
      exists (S j), c'. split_and!; [done|lia|done].
  - intros -> [|j] c' k v Hj Hv; cbn in Hj; apply elem_of_app.
    + simplify_eq. left. by apply (chain_ok_elem _ _ _ _ _ Hc).
    + right. by eapply Hall.
Qed.

Lemma all_slots_lookup flt hst :
  ht_wf hst →
  NoDup (live (all_slots flt (table hst))).*1 ∧
  (∀ k v, slot_map (all_slots flt (table hst)) !! k = Some v →
     0 < k ∧ ht_lookup hst k = Some v) ∧
  (flt = None → ∀ k, slot_map (all_slots flt (table hst)) !! k = ht_lookup hst k).
Proof.
  intros Hwf. destruct (all_slots_spec flt (hash hst) (table hst) 0 (wf_chains _ Hwf))
    as (Hnd & Hin & Hall).
  assert (∀ k v, slot_map (all_slots flt (table hst)) !! k = Some v →
     0 < k ∧ ht_lookup hst k = Some v) as Hsub.
  { intros k v Hk%elem_of_list_to_map_2. destruct (Hin k v Hk) as (? & j & c & Hj & Hb & Hv).
    split; [done|]. unfold ht_lookup, clht_hash. rewrite Hb. cbn. by rewrite Hj. }
  split_and!; [done|done|]. intros Hf k. apply option_eq. intros v. split; [by intros [_ ?]%Hsub|].
  intros Hk. destruct (wf_chain hst k Hwf) as (c & Hc & _ & _ & Hl).
  rewrite Hl in Hk. apply elem_of_list_to_map_1; [done|]. by eapply Hall.
Qed.

(** ** The new table *)
Lemma hashtable_create_spec n :
  (∃ j, 0 ≤ j < 64 ∧ n = 2 ^ j) →
  ∃ hn, clht_hashtable_create n = Some hn ∧ ht_wf hn ∧ num_buckets hn = n ∧
    (∀ k, ht_lookup hn k = None) ∧ version hn = 0 ∧ num_expands hn = 0 ∧
    table hn = replicate (Z.to_nat n)
      [mkBucket LOCK_FREE (0, 0, 0) 0 (replicate ENTRIES_PER_BUCKET (0, 0))] ∧
    (n < 2 ^ 32 → num_expands_threshold hn = n).
Proof.
  intros (j & Hj & ->). pose proof (Z.pow_pos_nonneg 2 j ltac:(lia) ltac:(lia)).
  pose proof (Z.pow_lt_mono_r 2 j 64 ltac:(lia) ltac:(lia) ltac:(lia)).
  unfold clht_hashtable_create. rewrite bool_decide_eq_false_2 by lia.
  eexists; split; [done|].
  assert (∀ b c, replicate (Z.to_nat (2 ^ j))
     [mkBucket LOCK_FREE (0, 0, 0) 0 (replicate ENTRIES_PER_BUCKET (0, 0))] !! b = Some c →
     c = [mkBucket LOCK_FREE (0, 0, 0) 0 (replicate ENTRIES_PER_BUCKET (0, 0))]) as Hrep.
  { intros b c [-> _]%lookup_replicate. done. }
  split_and!; try done.
  - split; cbn [num_buckets hash table].
    + by exists j.
    + rewrite (wrap_small 64) by lia. done.
    + by rewrite length_replicate.
    + intros b c ->%Hrep. split_and!; [done|by repeat constructor|constructor|].
      intros k v. done.
  - intros k. unfold ht_lookup. cbn [table]. destruct (_ !! _) as [c|] eqn:E; [|done].
    apply Hrep in E. by subst.
  - cbn. intros Hlt. unfold CLHT_PERC_EXPANSIONS. rewrite Z.mul_1_l, (wrap_small 32) by lia.
    by rewrite bool_decide_eq_false_2 by lia.
Qed.
End copy.

(** ** Counting *)
(** The map a table stands for. *)
Definition ht_map (h : hashtable) : gmap Z Z := slot_map (all_slots None (table h)).

(** Every overflow bucket was linked to a full chain. *)
Definition extra (tb : list (list bucket)) : nat := sum_list_with (λ c, length c - 1)%nat tb.
Definition tight (h : hashtable) : Prop :=
  Forall (λ c, 3 * (length c - 1) ≤ length (live (flat c)))%nat (table h) ∧
  num_expands h = Z.of_nat (extra (table h)).

Section counting.
Implicit Types (hst : hashtable) (k v : Z) (c : list bucket) (tb : list (list bucket)).

Lemma ht_map_lookup hst k : ht_wf hst → ht_map hst !! k = ht_lookup hst k.
Proof. intros Hwf. destruct (all_slots_lookup None hst Hwf) as (_ & _ & H). by apply H. Qed.

Lemma ht_map_size hst : ht_wf hst → size (ht_map hst) = ht_count hst.
Proof.
  intros Hwf. destruct (all_slots_lookup None hst Hwf) as (Hnd & _).
  unfold ht_map, slot_map, ht_count. rewrite map_size_list_to_map by done. done.
Qed.

Lemma ht_count_mono hst hst' :
  ht_wf hst → ht_wf hst' →
  (∀ k v, ht_lookup hst' k = Some v → ht_lookup hst k = Some v) →
  (ht_count hst' ≤ ht_count hst)%nat.
Proof.
  intros Hwf Hwf' Hs. rewrite <- !ht_map_size by done. apply map_subseteq_size.
  apply map_subseteq_spec. intros k v. rewrite !ht_map_lookup by done. apply Hs.
Qed.

Lemma ht_count_insert hst hst' key val :
  ht_wf hst → ht_wf hst' → ht_lookup hst key = None →
  (∀ k, ht_lookup hst' k = if decide (k = key) then Some val else ht_lookup hst k) →
  ht_count hst' = S (ht_count hst).
Proof.
  intros Hwf Hwf' Hn Hl. rewrite <- !ht_map_size by done.
  rewrite <- (map_size_insert_None key val) by (by rewrite ht_map_lookup).
  f_equal. apply map_eq. intros k. rewrite ht_map_lookup, Hl by done. case_decide as E.
  - subst. by rewrite lookup_insert_eq.
  - by rewrite lookup_insert_ne, ht_map_lookup by done.
Qed.

Lemma ht_count_pos hst k v : ht_wf hst → ht_lookup hst k = Some v → (0 < ht_count hst)%nat.
Proof.
  intros Hwf Hk. rewrite <- ht_map_size by done. rewrite <- ht_map_lookup in Hk by done.
  destruct (decide (size (ht_map hst) = 0%nat)) as [E|]; [|lia].
  apply map_size_empty_inv in E. rewrite E in Hk. done.
Qed.

(** The scan of [ht_status] and [clht_size] count the stored pairs. *)
Lemma filter_pos m b c :
  chain_ok m b c → filter (λ kv : Z * Z, 0 < kv.1) (flat c) = live (flat c).
Proof.
  intros Hc. assert (Forall (λ kv : Z * Z, kv.1 ≠ 0 → 0 < kv.1) (flat c)) as Hf.
  { apply list.Forall_forall. intros [k v] Hin Hk. cbn in *.
    destruct Hc as (_ & _ & Hnd & Hb). apply (Hb k v), elem_of_list_to_map_1; [done|].
    by apply elem_of_live. }
  unfold live. induction Hf as [|kv l Hkv Hf IH]; [done|]. rewrite !filter_cons.
  rewrite IH. repeat case_decide; [done|lia|tauto|done].
Qed.

Lemma all_slots_cons c tb :
  live (all_slots None (c :: tb)) = live (flat c) ++ live (all_slots None tb).
Proof. change (all_slots None (c :: tb)) with (flat c ++ all_slots None tb). apply live_app. Qed.

Lemma count_table_spec m i tb n e :
  (∀ j c, tb !! j = Some c → chain_ok m (i + j)%nat c) →
  0 ≤ n → n + Z.of_nat (length (live (all_slots None tb))) < 2 ^ 64 →
  (count_table tb n e).1 = n + Z.of_nat (length (live (all_slots None tb))) ∧
  clht_size_loop tb n = n + Z.of_nat (length (live (all_slots None tb))).
Proof.
  revert i n e. induction tb as [|c tb IH]; intros i n e Hok Hn Hb; cbn [count_table clht_size_loop].
  { cbn. lia. }
  rewrite all_slots_cons, length_app in *.
  fold (flat c). rewrite (filter_pos m (i + 0)%nat) by (by apply Hok). rewrite wrap_small by lia.
  destruct (IH (S i) (n + Z.of_nat (length (live (flat c)))) (Z.max (Z.of_nat (length c) - 1) e))
    as [E1 E2]; [|lia|lia|].
  - intros j c' Hj. rewrite Nat.add_succ_comm. by apply Hok.
  - rewrite E1, E2. lia.
Qed.

Lemma ht_size_spec hst :
  ht_wf hst → Z.of_nat (ht_count hst) < 2 ^ 64 →
  (count_table (table hst) 0 0).1 = Z.of_nat (ht_count hst) ∧ clht_size hst = Z.of_nat (ht_count hst).
Proof.
  intros Hwf Hb. apply (count_table_spec (hash hst) 0); [apply Hwf|done|done].
Qed.

Lemma tight_expands hst : tight hst → 3 * num_expands hst ≤ Z.of_nat (ht_count hst).
Proof.
  intros [Hf ->]. unfold ht_count, extra. induction Hf as [|c tb Hc Hf IH]; [done|].
  rewrite all_slots_cons, length_app. cbn [sum_list_with]. lia.
Qed.

(** Putting into a tight table keeps it tight. *)
Lemma sum_list_with_insert {A} (f : A → nat) (l : list A) i x y :
  l !! i = Some x → (sum_list_with f (<[i:=y]> l) + f x = sum_list_with f l + f y)%nat.
Proof.
  revert i. induction l as [|z l IH]; intros [|i] Hi; cbn in Hi; simplify_eq.
  - change (<[0%nat:=y]> (x :: l)) with (y :: l). cbn [sum_list_with]. lia.
  - change (<[S i:=y]> (z :: l)) with (z :: <[i:=y]> l). cbn [sum_list_with].
    specialize (IH _ Hi). lia.
Qed.

Lemma flat_length m b c : chain_ok m b c → length (flat c) = (3 * length c)%nat.
Proof.
  intros (_ & Hf & _). induction c as [|x c IH]; [done|].
  rewrite flat_cons, length_app. unfold shape in Hf. cbn in Hf.
  apply Forall_cons in Hf as [Hx Hf]. cbn in Hx. rewrite (IH Hf), Hx. cbn. lia.
Qed.

Lemma live_length_split l1 l2 k w v :
  k ≠ 0 → length (live (l1 ++ (k, v) :: l2)) = S (length (live (l1 ++ (0, w) :: l2))).
Proof.
  intros Hk. rewrite !live_app, !length_app, !live_cons, decide_False, decide_True by done. cbn. lia.
Qed.

Lemma shape_length c c' : shape c = shape c' → length c = length c'.
Proof. intros E. apply (f_equal length) in E. unfold shape in E. by rewrite !length_fmap in E. Qed.

Context (uninit : Z → Z → UInt24_t * Z * (Z * Z * Z)).

Lemma clht_put_seq_tight hst key val hst' :
  ht_wf hst → key ≠ 0 → tight hst → num_expands hst < 2 ^ 32 - 1 →
  clht_put_seq uninit hst key val (clht_hash hst key) = Ret hst' → tight hst'.
Proof.
  intros Hwf Hk [Hf He] Hlt. destruct (wf_chain hst key Hwf) as (c & Hc & _ & Hcok & _).
  unfold clht_put_seq. rewrite Hc. cbn [of_option]. rewrite res_bind_ret.
  pose proof (chain_put_seq_spec key val c) as Hp.
  pose proof (list.Forall_forall (λ c, 3 * (length c - 1) ≤ length (live (flat c)))%nat (table hst)) as [Hall _].
  specialize (Hall Hf c (list_elem_of_lookup_2 _ _ _ Hc)).
  destruct (chain_put_seq key val c) as [c'|].
  - intros [= <-]. destruct Hp as (Hs%shape_length & l1 & w & l2 & E1 & E2). split; cbn [table put_chain with_table with_expands num_expands].
    + apply Forall_insert; [done|]. rewrite Hs, E2, (live_length_split _ _ _ w) by done.
      rewrite E1 in Hall. lia.
    + rewrite He. pose proof (sum_list_with_insert (λ c, length c - 1)%nat _ _ _ c' Hc) as E.
      cbv beta in E. unfold extra. lia.
  - unfold clht_bucket_create_stats. intros [= <-].
    destruct (bucket_create_slots uninit (version hst) (u32 (num_expands hst + 1))) as (v0 & v1 & v2 & Hb).
    assert (length c ≠ 0%nat) as Hne by (destruct Hcok as [Hl _]; by destruct c).
    assert (live (flat c) = flat c) as Elv.
    { apply live_all, list.Forall_forall. intros [k' v'] Hin Ek. cbn in Ek. subst k'. apply Hp.
      by apply elem_of_fst with v'. }
    split; cbn [table put_chain with_table with_expands num_expands].
    + apply Forall_insert; [done|]. rewrite length_app, flat_app, live_app, length_app, Elv.
      rewrite (flat_length _ _ _ Hcok). cbn [length]. lia.
    + generalize (bucket_with key val
        (clht_bucket_create uninit (version hst) (u32 (num_expands hst + 1)))) as nb.
      intros nb. rewrite wrap_small, He by lia.
      pose proof (sum_list_with_insert (λ c, length c - 1)%nat _ _ _ (c ++ [nb]) Hc) as E.
      cbv beta in E. rewrite length_app in E. cbn [length] in E. unfold extra. lia.
Qed.

Lemma copy_slots_tight s hst :
  ht_wf hst → NoDup (live s).*1 →
  (∀ k, is_Some (slot_map s !! k) → 0 < k ∧ ht_lookup hst k = None) →
  tight hst → Z.of_nat (ht_count hst) + Z.of_nat (length (live s)) < 2 ^ 33 →
  ∃ hst', copy_slots uninit s hst = Ret hst' ∧ ht_wf hst' ∧ same_params hst hst' ∧ tight hst' ∧
    ∀ k, ht_lookup hst' k = match slot_map s !! k with Some v => Some v | None => ht_lookup hst k end.
Proof.
  intros Hwf Hnd Hs Ht Hb.
  destruct (copy_slots_spec uninit s hst Hwf Hnd Hs) as (hst' & E & Hwf' & Hp & Hl).
  exists hst'. split_and!; [done..| |done]. clear Hwf' Hp Hl.
  revert hst Hwf Hs Ht Hb E. induction s as [|[k0 v0] s IH]; intros hst Hwf Hs Ht Hb E.
  { cbn in E. by simplify_eq. }
  unfold slot_map in *. cbn [copy_slots fst snd] in E. rewrite live_cons in *.
  destruct (decide (k0 = 0)) as [->|Hk0].
  { rewrite bool_decide_eq_false_2 in E by (intros []; done). by apply (IH Hnd hst). }
  rewrite bool_decide_eq_true_2 in E by done. cbn in Hnd, Hs, Hb.
  apply NoDup_cons in Hnd as [Hni Hnd].
  destruct (Hs k0) as [Hpos Hn0]; [by rewrite lookup_insert_eq|].
  destruct (clht_put_seq_spec uninit hst k0 v0 Hwf Hpos Hn0) as (h1 & E1 & Hwf1 & Hp1 & Hl1).
  rewrite E1, res_bind_ret in E. pose proof (tight_expands _ Ht).
  apply (IH Hnd h1); [done| | | |done].
  - intros k Hk. destruct (Hs k) as [? Hn]; [by apply lookup_insert_is_Some'; right|].
    split; [done|]. rewrite Hl1. case_decide as E'; [|done]. subst.
    exfalso. apply Hni. destruct Hk as [v Hk%elem_of_list_to_map_2]. by apply elem_of_fst with v.
  - apply (clht_put_seq_tight hst k0 v0); [done|done|done|lia|done].
  - rewrite (ht_count_insert _ _ _ _ Hwf Hwf1 Hn0 Hl1). lia.
Qed.
End counting.
