(* ===== verification/ClhtStatus.v ===== *)
(** * Resizing the CLHT table, and insertion

    [ht_resize_pes], [ht_status] and [clht_put] run by one thread.  Growing
    the table keeps its map; halving and elimination only remove pairs.  The
    recursion between [ht_resize_pes] and [ht_status] ends because a table is
    resized again only when it is full, and each round at least doubles it. *)
From S2P Require Import Prelude Ieee Clht ClhtInv ClhtSpec ClhtResize.

(** Sizes for which the counters of the table do not overflow: [grow_by] is
    applied to tables of at most [2 ^ 25] buckets, and the number of pairs is
    bounded by the memory. *)
Record wide (hst : hashtable) : Prop := {
  wide_buckets : num_buckets hst ≤ 2 ^ 26;
  wide_count : Z.of_nat (ht_count hst) < 2 ^ 32;
  wide_threshold : num_expands_threshold hst = num_buckets hst
}.

(** [hst'] stores no pair that [hst] does not. *)
Definition submap (hst' hst : hashtable) : Prop :=
  ∀ k v, ht_lookup hst' k = Some v → ht_lookup hst k = Some v.
Definition same_map (hst' hst : hashtable) : Prop := ∀ k, ht_lookup hst' k = ht_lookup hst k.

Section status.
Context (uninit : Z → Z → UInt24_t * Z * (Z * Z * Z)).
Implicit Types (h : clht) (hst : hashtable) (k v key val lt : Z) (c : list bucket).

Lemma same_submap hst hst' : same_map hst' hst → submap hst' hst.
Proof. intros H k v. by rewrite H. Qed.

Lemma submap_trans (h1 h2 h3 : hashtable) : submap h3 h2 → submap h2 h1 → submap h3 h1.
Proof. intros H1 H2 k v ?. by apply H2, H1. Qed.

Lemma same_map_count hst hst' :
  ht_wf hst → ht_wf hst' → same_map hst' hst → ht_count hst' = ht_count hst.
Proof.
  intros Hwf Hwf' Hs. apply Nat.le_antisymm; apply ht_count_mono; try done; intros k v; by rewrite Hs.
Qed.

(** Changes of the fields the map does not depend on. *)
Lemma reparam_wf hst hst' :
  ht_wf hst → num_buckets hst' = num_buckets hst → hash hst' = hash hst → table hst' = table hst →
  ht_wf hst' ∧ same_map hst' hst.
Proof.
  intros [] E1 E2 E3. split; [split|].
  - by rewrite E1.
  - by rewrite E1, E2.
  - by rewrite E1, E3.
  - by rewrite E2, E3.
  - intros k. unfold ht_lookup, clht_hash. by rewrite E2, E3.
Qed.

Lemma all_slots_length flt hst :
  ht_wf hst → (length (live (all_slots flt (table hst))) ≤ ht_count hst)%nat.
Proof.
  intros Hwf. destruct (all_slots_lookup flt hst Hwf) as (Hnd & Hsub & _).
  rewrite <- ht_map_size by done.
  transitivity (size (slot_map (all_slots flt (table hst)))).
  - unfold slot_map. rewrite map_size_list_to_map by done. done.
  - apply map_subseteq_size, map_subseteq_spec. intros k v Hk.
    rewrite ht_map_lookup by done. by apply Hsub.
Qed.

Lemma empty_table_tight n hn :
  ht_wf hn → (∀ k, ht_lookup hn k = None) → num_expands hn = 0 →
  table hn = replicate (Z.to_nat n)
    [mkBucket LOCK_FREE (0, 0, 0) 0 (replicate ENTRIES_PER_BUCKET (0, 0))] →
  tight hn ∧ ht_count hn = 0%nat.
Proof.
  intros Hwf Hn He Ht. split; [split|].
  - rewrite Ht. apply Forall_replicate. cbn. lia.
  - rewrite He, Ht. clear. unfold extra. induction (Z.to_nat n) as [|m IH]; [done|]. exact IH.
  - rewrite <- ht_map_size by done. apply map_size_empty_iff, map_empty.
    intros k. by rewrite ht_map_lookup.
Qed.

(** Filling a fresh table with the pairs of another. *)
Lemma fill_new hst n flt ver :
  ht_wf hst → Z.of_nat (ht_count hst) < 2 ^ 32 → (∃ j, 0 ≤ j < 32 ∧ n = 2 ^ j) →
  ∃ hn0 hn, clht_hashtable_create n = Some hn0 ∧
    copy_table uninit flt (table hst) (with_version ver hn0)
      = Ret (set_head_lock LOCK_RESIZE <$> table hst, hn) ∧
    ht_wf hn ∧ num_buckets hn = n ∧ num_expands_threshold hn = n ∧ tight hn ∧
    submap hn hst ∧ (flt = None → same_map hn hst).
Proof.
  intros Hwf Hb (j & Hj & ->).
  pose proof (Z.pow_lt_mono_r 2 j 32 ltac:(lia) ltac:(lia) ltac:(lia)) as Hjb.
  destruct (hashtable_create_spec (2 ^ j)) as (hn0 & E0 & Hwf0 & Hn0 & Hl0 & _ & He0 & Ht0 & Hth);
    [by exists j; split; [lia|]|].
  destruct (reparam_wf hn0 (with_version ver hn0) Hwf0) as [Hwf1 Hl1]; [done..|].
  assert (∀ k, ht_lookup (with_version ver hn0) k = None) as Hnone.
  { intros k. rewrite Hl1. apply Hl0. }
  destruct (empty_table_tight _ (with_version ver hn0) Hwf1 Hnone He0 Ht0) as [Hti Hc0].
  destruct (all_slots_lookup flt hst Hwf) as (Hnd & Hsub & Hall).
  pose proof (all_slots_length flt hst Hwf) as Hlen.
  destruct (copy_slots_tight uninit (all_slots flt (table hst)) (with_version ver hn0))
    as (hn & E & Hwf' & (P1 & _ & _ & _ & P5) & Hti' & Hl'); [done|done| |done|lia|].
  { intros k [v Hk]. split; [by apply (Hsub k v)|apply Hnone]. }
  exists hn0, hn. split; [done|]. split; [|split_and!].
  - rewrite copy_table_slots, E; [done|].
    apply Forall_lookup_2. intros i c Hc. by apply (wf_chains _ Hwf) in Hc as [? _].
  - done.
  - by rewrite P1.
  - rewrite P5. by apply Hth.
  - done.
  - intros k v. rewrite Hl', Hnone. destruct (_ !! k) as [w|] eqn:Ek; [|done].
    intros [= ->]. by apply Hsub.
  - intros Hf k. rewrite Hl', Hnone, Hall by done. by destruct (ht_lookup hst k).
Qed.

(** Tables are added to the heap, never removed, and those handed over for
    release are among them. *)
Definition grows h h' : Prop :=
  dom (heap h) ⊆ dom (heap h') ∧
  ∃ l, released h' = l ++ released h ∧ Forall (λ n, n ∈ dom (heap h')) l.

Lemma grows_trans h1 h2 (h3 : clht) : grows h1 h2 → grows h2 h3 → grows h1 h3.
Proof.
  intros (D1 & l1 & R1 & F1) (D2 & l2 & R2 & F2). split; [set_solver|].
  exists (l2 ++ l1). split; [by rewrite R2, R1, app_assoc|].
  apply Forall_app. split; [done|]. eapply Forall_impl; [exact F1|]. cbn. set_solver.
Qed.

Lemma grows_same h1 h2 : heap h2 = heap h1 → released h2 = released h1 → grows h1 h2.
Proof. intros E1 E2. split; [by rewrite E1|]. exists []. by split; [|constructor]. Qed.

Lemma grows_set_ht n hst h : grows h (set_ht n hst h).
Proof. split; [cbn; set_solver|]. exists []. by split; [|constructor]. Qed.

(** What [ht_resize_pes] leaves behind. *)
Definition resized h hn h' : Prop :=
  clht_ok h' hn ∧ ht_oldest h' = ht_oldest h ∧ version_min h' = version_min h ∧
  status_lock h' = status_lock h ∧ released h' = ht h :: released h ∧ grows h h'.

(** One resize: the fresh table is installed, and the re-run through
    [ht_status] happens when that table has as many overflow buckets as
    buckets. *)
Lemma ht_resize_run h hst (is_increase : bool) by_ lt :
  clht_ok h hst → Z.of_nat (ht_count hst) < 2 ^ 32 →
  (∃ j, 0 ≤ j < 32 ∧ 2 ^ j = if is_increase then u64 (by_ * num_buckets hst)
                             else num_buckets hst / CLHT_RATIO_HALVE) →
  ∃ h' hn, resized h hn h' ∧
    num_buckets hn = (if is_increase then u64 (by_ * num_buckets hst)
                      else num_buckets hst / CLHT_RATIO_HALVE) ∧
    num_expands_threshold hn = num_buckets hn ∧ tight hn ∧
    submap hn hst ∧ (is_increase = true → same_map hn hst) ∧
    ∀ fuel, ht_resize_pes uninit fuel h is_increase by_ lt =
      if bool_decide (num_buckets hn ≤ num_expands hn) then
        match fuel with
        | O => Diverge
        | S fuel => let* '(_, h) := ht_status uninit fuel h' true false None 0 in Ret (1, h)
        end
      else Ret (1, h').
Proof.
  intros Hok Hb (j & Hj & En).
  destruct (fill_new hst (2 ^ j) (if is_increase then None else Some lt) (u64 (version hst + 1))
    (ok_wf _ _ Hok) Hb) as (hn0 & hn & E0 & E & Hwf & Hn & Hth & Hti & Hsub & Hsame).
  { by exists j. }
  set (old := ht h). set (new := fresh (dom (heap h))).
  set (h1 := set_ht old (with_new (Some new)
    (with_table (set_head_lock LOCK_RESIZE <$> table hst) hst))
    (with_ht new (set_ht new (with_prev (Some old) hn) (with_resize_lock 255 h)))).
  exists (mkClht (ht h1) (ht_oldest h1) (version_list h1) (version_min h1) LOCK_FREE
    (gc_lock h1) (status_lock h1) (heap h1) (old :: released h1)), (with_prev (Some old) hn).
  destruct (reparam_wf hn (with_prev (Some old) hn) Hwf) as [Hwf' Hl']; [done..|].
  assert (new ≠ old) as Hne.
  { intros Heq. apply (is_fresh (dom (heap h))). change (new ∈ dom (heap h)). rewrite Heq.
    apply elem_of_dom. eexists. apply Hok. }
  split; [|split_and!].
  - split; [|split_and!; try done].
    + split; [|done|done]. cbn. rewrite lookup_insert_ne by done. by rewrite lookup_insert_eq.
    + cbn. split; [set_solver|]. exists [old]. split; [done|]. constructor; [set_solver|constructor].
  - cbn. by rewrite Hn.
  - cbn. by rewrite Hth, Hn.
  - done.
  - done.
  - intros ->. by apply Hsame.
  - intros fuel. destruct fuel; cbn [ht_resize_pes];
      rewrite bool_decide_eq_false_2 by (rewrite (ok_resize _ _ Hok); intros []; done);
      change (get_ht (ht (with_resize_lock 255 h)) (with_resize_lock 255 h)) with (get_ht (ht h) h);
      rewrite (get_cur _ _ Hok), res_bind_ret, <- En, E0; cbn [of_option];
      rewrite res_bind_ret, E, res_bind_ret; cbn [num_expands_threshold num_expands with_prev];
      rewrite Hth; change (num_buckets (with_prev (Some old) hn)) with (num_buckets hn);
      rewrite Hn; done.
Qed.
(** ** Growing *)
Lemma log2_times_3 n : 0 ≤ n → Z.log2 (2 ^ n * 3) = n + 1.
Proof. intros. rewrite Z.mul_comm, Z.log2_mul_pow2 by lia. change (Z.log2 3) with 1. lia. Qed.

(** A table that is not nearly empty has few buckets, and its growth stays
    within [wide]. *)
Lemma grow_size size n :
  0 < size < MAX_BUCKET_SIZE → 0 ≤ n ≤ 26 →
  d_lt (full_ratio size (2 ^ n)) (d_of_Z CLHT_PERC_FULL_HALVE) = false →
  ∃ j, n < j ≤ 26 ∧ 2 ^ j = u64 (grow_by (full_ratio size (2 ^ n)) * 2 ^ n).
Proof.
  unfold MAX_BUCKET_SIZE. intros Hs Hn Hr.
  pose proof (Z.pow_pos_nonneg 2 n ltac:(lia) ltac:(lia)).
  pose proof (Z.pow_le_mono_r 2 n 26 ltac:(lia) ltac:(lia)).
  assert (0 ≤ Z.log2 size < 20) as Hl by (split; [apply Z.log2_nonneg|apply Z.log2_lt_pow2; lia]).
  assert (n ≤ 25) as Hn25.
  { destruct (decide (n = 26)) as [->|]; [|lia]. exfalso.
    pose proof (full_ratio_within size (2 ^ 26) ltac:(lia) ltac:(lia)) as Hw.
    rewrite log2_times_3 in Hw by lia.
    rewrite (d_lt_within _ _ _ _ 2 2 Hw) in Hr; [done| |lia].
    change 2 with (Z.log2 5). by apply d_of_Z_exact_within. }
  destruct (grow_by_pow size (2 ^ n)) as (j & Hj & -> & Hjb); [unfold MAX_BUCKET_SIZE; lia|lia|].
  rewrite log2_times_3 in Hjb by lia.
  exists (j + n). split; [lia|]. rewrite <- Z.pow_add_r by lia.
  pose proof (Z.pow_le_mono_r 2 (j + n) 26 ltac:(lia) ltac:(lia)).
  rewrite wrap_small; [done|]. split; [apply Z.pow_nonneg|]; lia.
Qed.

Lemma wide_pow hst : ht_wf hst → wide hst → ∃ n, 0 ≤ n ≤ 26 ∧ num_buckets hst = 2 ^ n.
Proof.
  intros [(n & Hn & E) _ _ _] [Hb _ _]. exists n. split; [|done].
  rewrite E in Hb. apply Z.pow_le_mono_r_iff in Hb; lia.
Qed.

Lemma status_lock_ok l h hst : clht_ok h hst → clht_ok (with_status_lock l h) hst.
Proof. by intros []. Qed.

(** [ht_status] called to grow a table that it does not halve. *)
Lemma status_grow fuel h hst pb lt :
  clht_ok h hst → 0 < Z.of_nat (ht_count hst) < MAX_BUCKET_SIZE →
  d_lt (full_ratio (Z.of_nat (ht_count hst)) (num_buckets hst)) (d_of_Z CLHT_PERC_FULL_HALVE) = false →
  ht_status uninit fuel h true false pb lt =
    let* '(_, h) := ht_resize_pes uninit fuel (with_status_lock 255 h) true
                      (grow_by (full_ratio (Z.of_nat (ht_count hst)) (num_buckets hst))) 0 in
    Ret (Z.of_nat (ht_count hst), with_status_lock LOCK_FREE h).
Proof.
  unfold MAX_BUCKET_SIZE. intros Hok Hc Hr. unfold ht_status, ht_status_with.
  rewrite andb_false_r. rewrite (get_cur (with_status_lock 255 h) hst) by by apply status_lock_ok.
  rewrite res_bind_ret. destruct (ht_size_spec hst (ok_wf _ _ Hok)) as [E _]; [lia|].
  destruct (count_table (table hst) 0 0) as [size em]. cbn [fst] in E. subst size.
  rewrite Hr, andb_false_r, orb_true_r, bool_decide_eq_false_2 by (unfold MAX_BUCKET_SIZE; lia).
  by destruct (ht_resize_pes _ _ _ _ _ _) as [[? ?]| |].
Qed.

(** One growing resize. *)
Lemma grow_step h hst :
  clht_ok h hst → wide hst → 0 < Z.of_nat (ht_count hst) < MAX_BUCKET_SIZE →
  d_lt (full_ratio (Z.of_nat (ht_count hst)) (num_buckets hst)) (d_of_Z CLHT_PERC_FULL_HALVE) = false →
  ∃ h' hn, clht_ok h' hn ∧ wide hn ∧ same_map hn hst ∧ ht_count hn = ht_count hst ∧
    0 < 2 * num_buckets hst ≤ num_buckets hn ∧ 3 * num_expands hn ≤ Z.of_nat (ht_count hst) ∧
    grows h h' ∧
    ∀ fuel, ht_resize_pes uninit fuel h true
        (grow_by (full_ratio (Z.of_nat (ht_count hst)) (num_buckets hst))) 0 =
      if bool_decide (num_buckets hn ≤ num_expands hn) then
        match fuel with
        | O => Diverge
        | S fuel => let* '(_, h) := ht_status uninit fuel h' true false None 0 in Ret (1, h)
        end
      else Ret (1, h').
Proof.
  intros Hok Hw Hc Hr. destruct (wide_pow hst (ok_wf _ _ Hok) Hw) as (n & Hn & En).
  rewrite En in Hr. destruct (grow_size _ _ Hc Hn Hr) as (j & Hj & Ej). rewrite <- En in Ej.
  destruct (ht_resize_run h hst true
    (grow_by (full_ratio (Z.of_nat (ht_count hst)) (num_buckets hst))) 0 Hok (wide_count _ Hw))
    as (h' & hn & (Hok' & _ & _ & _ & _ & Hgr) & Hnb & Hth & Hti & _ & Hsame & E);
    [exists j; split; [lia|exact Ej]|].
  specialize (Hsame eq_refl). rewrite <- Ej in Hnb.
  pose proof (same_map_count _ _ (ok_wf _ _ Hok) (ok_wf _ _ Hok') Hsame) as Hcn.
  pose proof (tight_expands _ Hti) as Hte.
  pose proof (Z.pow_le_mono_r 2 (n + 1) j ltac:(lia) ltac:(lia)) as Hdbl.
  rewrite Z.pow_add_r in Hdbl by lia.
  pose proof (Z.pow_le_mono_r 2 j 26 ltac:(lia) ltac:(lia)).
  pose proof (Z.pow_pos_nonneg 2 n ltac:(lia) ltac:(lia)).
  exists h', hn. split_and!; [done| |done|done|lia|lia|lia|done..|exact E].
  split; [lia| |done]. rewrite Hcn. apply Hw.
Qed.

(** Growing returns, with enough fuel for the doublings that are left. *)
Lemma grow_returns fuel h hst :
  clht_ok h hst → wide hst → 0 < Z.of_nat (ht_count hst) < MAX_BUCKET_SIZE →
  d_lt (full_ratio (Z.of_nat (ht_count hst)) (num_buckets hst)) (d_of_Z CLHT_PERC_FULL_HALVE) = false →
  Z.of_nat (ht_count hst) < 2 ^ Z.of_nat fuel * num_buckets hst →
  ∃ h' hst', ht_resize_pes uninit fuel h true
      (grow_by (full_ratio (Z.of_nat (ht_count hst)) (num_buckets hst))) 0 = Ret (1, h') ∧
    clht_ok h' hst' ∧ wide hst' ∧ same_map hst' hst ∧ grows h h'.
Proof.
  revert h hst. induction fuel as [|fuel IH]; intros h hst Hok Hw Hc Hr Hf;
    destruct (grow_step h hst Hok Hw Hc Hr) as (h' & hn & Hok' & Hw' & Hs & Hcn & Hnb & Hne & Hgr & E);
    rewrite E; clear E; (case_bool_decide as Hag; [|by exists h', hn]).
  - change (Z.of_nat 0) with 0 in Hf. lia.
  - assert (d_lt (full_ratio (Z.of_nat (ht_count hn)) (num_buckets hn))
      (d_of_Z CLHT_PERC_FULL_HALVE) = false) as Hr'.
    { unfold MAX_BUCKET_SIZE in Hc. apply full_ratio_not_low; lia. }
    rewrite (status_grow fuel h' hn None 0 Hok') by (done || by rewrite Hcn).
    destruct (IH (with_status_lock 255 h') hn) as (h2 & hst2 & -> & Hok2 & Hw2 & Hs2 & Hg2);
      [by apply status_lock_ok|done|by rewrite Hcn|done| |].
    { rewrite Hcn. rewrite Nat2Z.inj_succ, Z.pow_succ_r in Hf by lia.
      pose proof (Z.pow_pos_nonneg 2 (Z.of_nat fuel) ltac:(lia) ltac:(lia)). nia. }
    rewrite res_bind_ret. cbn. eexists _, hst2. split; [done|].
    split_and!; [by apply status_lock_ok|done|intros k; by rewrite Hs2, Hs|].
    by do 2 (eapply grows_trans; [|by apply grows_same]); eapply grows_trans.
Qed.
(** ** Passive elimination *)
Lemma chain_sub m b c c' :
  chain_ok m b c → shape c' = shape c → sublist (live (flat c')) (live (flat c)) →
  chain_ok m b c' ∧ slot_map (flat c') ⊆ slot_map (flat c).
Proof.
  intros Hok Hs Hsub. pose proof Hok as (_ & _ & Hnd & _).
  assert (NoDup (live (flat c')).*1) as Hnd'.
  { eapply sublist_NoDup; [done|by apply fmap_sublist]. }
  assert (slot_map (flat c') ⊆ slot_map (flat c)) as Hm.
  { apply map_subseteq_spec. intros k v Hk%elem_of_list_to_map_2.
    apply elem_of_list_to_map_1; [done|].
    by eapply elem_of_submseteq; [|apply sublist_submseteq]. }
  split; [|done]. apply (chain_ok_edit m b c c' []); [done|by rewrite app_nil_r|done|done|].
  intros k [v Hk]. left. exists v. by eapply lookup_weaken.
Qed.

Lemma live_clear_keys (s : list (Z * Z)) : live ((λ kv : Z * Z, (0, kv.2)) <$> s) = [].
Proof. induction s as [|kv s IH]; [done|]. rewrite fmap_cons, live_cons, decide_True by done. exact IH. Qed.

Lemma eliminate_spec c c' :
  eliminate c = (tt, c') → shape c' = shape c ∧ sublist (live (flat c')) (live (flat c)).
Proof.
  unfold eliminate. intros [= <-]. destruct (least_hot _ _ _ _ _) as [i|]; [|done].
  clear. revert i. induction c as [|b c IH]; intros [|i]; [done|done| |].
  - change (alter clear_keys 0%nat (b :: c)) with (clear_keys b :: c).
    rewrite !flat_cons, !live_app. cbn [slots clear_keys with_slots]. rewrite live_clear_keys.
    split; [unfold shape; cbn; by rewrite length_fmap|]. by apply sublist_inserts_l.
  - change (alter clear_keys (S i) (b :: c)) with (b :: alter clear_keys i c).
    destruct (IH i) as [E Hs]. split; [by apply shape_cons|].
    rewrite !flat_cons, !live_app. by apply sublist_app.
Qed.

Lemma acquire_bin_run fuel bin h hst c :
  clht_ok h hst → table hst !! Z.to_nat bin = Some c → head_lock c = Some LOCK_FREE →
  acquire_bin fuel bin (ht h) h
    = Ret (ht h, set_cur (put_chain bin (set_head_lock LOCK_UPDATE c) hst) h).
Proof.
  intros Hok Hc Hl. destruct fuel; cbn [acquire_bin];
    rewrite (get_cur _ _ Hok), res_bind_ret; unfold get_chain at 1; rewrite Hc;
    cbn [of_option]; rewrite res_bind_ret, Hl; cbn [of_option]; rewrite res_bind_ret; done.
Qed.

(** Clearing one bucket of the bin. *)
Lemma eliminate_run fuel bin h hst :
  clht_ok h hst → 0 ≤ bin < num_buckets hst →
  ∃ h1 h2 hst', acquire_bin fuel bin (ht h) h = Ret (ht h, h1) ∧
    locked (ht h) bin eliminate h1 = Ret (tt, h2) ∧ clht_ok h2 hst' ∧
    same_params hst hst' ∧ submap hst' hst ∧ grows h h2.
Proof.
  intros Hok Hb. destruct (lookup_lt_is_Some_2 (table hst) (Z.to_nat bin)) as [c Hc].
  { rewrite (wf_len _ (ok_wf _ _ Hok)). lia. }
  pose proof (wf_chains _ (ok_wf _ _ Hok) _ _ Hc) as Hcok. pose proof Hcok as [Hl _].
  destruct (eliminate (set_head_lock LOCK_UPDATE c)) as [[] c2] eqn:E.
  pose proof (eliminate_spec _ _ E) as [Hs Hsub]. rewrite flat_set_head_lock in Hsub.
  assert (shape (set_head_lock LOCK_FREE c2) = shape c) as Hs'.
  { rewrite <- (app_nil_r (shape c)). apply (chain_unlock _ _ LOCK_UPDATE); [done|].
    by rewrite app_nil_r. }
  destruct (chain_sub _ _ c (set_head_lock LOCK_FREE c2) Hcok Hs') as [Hcok' Hm];
    [by rewrite flat_set_head_lock|].
  destruct (put_chain_wf hst bin c _ (ok_wf _ _ Hok) Hc Hcok') as [Hwf' Hl'].
  eexists _, _, _. split; [by eapply acquire_bin_run|]. split; [by eapply locked_run|].
  split; [by eapply set_cur_ok|]. split; [done|]. split; [|apply grows_set_ht].
  intros k v. rewrite Hl'. case_decide as Ek; [|done].
  intros Hk. unfold ht_lookup. rewrite Ek, Hc. by eapply lookup_weaken.
Qed.
(** ** [ht_status] *)
(** A table this size and this full loses nothing when it is resized. *)
Definition lossless hst : Prop :=
  Z.of_nat (ht_count hst) < MAX_BUCKET_SIZE ∧
  d_lt (full_ratio (Z.of_nat (ht_count hst)) (num_buckets hst)) (d_of_Z CLHT_PERC_FULL_HALVE) = false.

(** The two branches that do not grow the table. *)
Lemma status_halve fuel h hst pb lt :
  clht_ok h hst → 0 < Z.of_nat (ht_count hst) < 2 ^ 50 → 0 < num_buckets hst < 2 ^ 51 →
  d_lt (full_ratio (Z.of_nat (ht_count hst)) (num_buckets hst)) (d_of_Z CLHT_PERC_FULL_HALVE) = true →
  ht_status uninit fuel h true false pb lt =
    let* '(_, h) := ht_resize_pes uninit fuel (with_status_lock 255 h) false 33 lt in
    Ret (Z.of_nat (ht_count hst), with_status_lock LOCK_FREE h).
Proof.
  intros Hok Hc Hn Hr. unfold ht_status, ht_status_with.
  rewrite andb_false_r. rewrite (get_cur (with_status_lock 255 h) hst) by by apply status_lock_ok.
  rewrite res_bind_ret. destruct (ht_size_spec hst (ok_wf _ _ Hok)) as [E _]; [lia|].
  destruct (count_table (table hst) 0 0) as [size em]. cbn [fst] in E. subst size.
  rewrite Hr, (d_lt_zero _ _ _ (full_ratio_within _ _ Hc Hn)).
  by destruct (ht_resize_pes _ _ _ _ _ _) as [[? ?]| |].
Qed.

Lemma status_stop fuel h hst pb lt :
  clht_ok h hst → MAX_BUCKET_SIZE ≤ Z.of_nat (ht_count hst) < 2 ^ 64 →
  d_lt (full_ratio (Z.of_nat (ht_count hst)) (num_buckets hst)) (d_of_Z CLHT_PERC_FULL_HALVE) = false →
  ht_status uninit fuel h true false pb lt =
    let* h := match pb with
              | None => Ret (with_status_lock 255 h)
              | Some bin => let* '(n, h) := acquire_bin fuel bin (ht h) (with_status_lock 255 h) in
                            let* '(_, h) := locked n bin eliminate h in Ret h
              end in
    Ret (Z.of_nat (ht_count hst), with_status_lock LOCK_FREE h).
Proof.
  intros Hok Hc Hr. unfold ht_status, ht_status_with.
  rewrite andb_false_r. rewrite (get_cur (with_status_lock 255 h) hst) by by apply status_lock_ok.
  rewrite res_bind_ret. destruct (ht_size_spec hst (ok_wf _ _ Hok)) as [E _]; [lia|].
  destruct (count_table (table hst) 0 0) as [size em]. cbn [fst] in E. subst size.
  rewrite Hr, andb_false_r, orb_true_r, bool_decide_eq_true_2 by lia. done.
Qed.

(** A table as full as its buckets is grown or left alone. *)
Lemma status_full fuel h hst lt :
  clht_ok h hst → wide hst → num_buckets hst * 3 ≤ Z.of_nat (ht_count hst) →
  Z.of_nat (ht_count hst) < 2 ^ Z.of_nat fuel →
  ∃ h' hst', ht_status uninit fuel h true false None lt = Ret (Z.of_nat (ht_count hst), h') ∧
    clht_ok h' hst' ∧ wide hst' ∧ same_map hst' hst ∧ grows h h'.
Proof.
  intros Hok Hw Hfull Hf. pose proof (wide_count _ Hw) as Hb.
  destruct (wide_pow hst (ok_wf _ _ Hok) Hw) as (n & Hn & En).
  pose proof (Z.pow_pos_nonneg 2 n ltac:(lia) ltac:(lia)).
  pose proof (full_ratio_not_low (Z.of_nat (ht_count hst)) (num_buckets hst)
    ltac:(lia) ltac:(lia) Hfull) as Hr.
  destruct (decide (MAX_BUCKET_SIZE ≤ Z.of_nat (ht_count hst))) as [Hmax|Hmax].
  - rewrite (status_stop _ _ _ _ _ Hok) by (done || lia). rewrite res_bind_ret.
    eexists _, hst. split; [done|]. split; [by do 2 apply status_lock_ok|]. split; [done|].
    by split; [intros k|apply grows_same].
  - rewrite (status_grow _ _ _ _ _ Hok) by (done || lia).
    destruct (grow_returns fuel (with_status_lock 255 h) hst) as (h1 & hst1 & -> & Hok1 & Hw1 & Hs1 & Hg1);
      [by apply status_lock_ok|done|lia|done|nia|].
    rewrite res_bind_ret. cbn. eexists _, hst1. split; [done|].
    split_and!; [by apply status_lock_ok|done|done|exact Hg1].
Qed.

(** [ht_status] as [clht_put] calls it: it returns, and the table may only
    lose pairs, none when it is [lossless]. *)
Lemma ht_status_spec fuel h hst bin lt :
  clht_ok h hst → wide hst → 0 < Z.of_nat (ht_count hst) < 2 ^ Z.of_nat fuel →
  0 ≤ bin < num_buckets hst →
  ∃ h' hst', ht_status uninit (S fuel) h true false (Some bin) lt = Ret (Z.of_nat (ht_count hst), h') ∧
    clht_ok h' hst' ∧ wide hst' ∧ submap hst' hst ∧ (lossless hst → same_map hst' hst) ∧ grows h h'.
Proof.
  intros Hok Hw Hf Hbin. pose proof (wide_count _ Hw) as Hb.
  destruct (wide_pow hst (ok_wf _ _ Hok) Hw) as (n & Hn & En).
  pose proof (Z.pow_pos_nonneg 2 n ltac:(lia) ltac:(lia)).
  pose proof (Z.pow_le_mono_r 2 n 26 ltac:(lia) ltac:(lia)).
  pose proof (status_lock_ok 255 _ _ Hok) as Hok1.
  destruct (d_lt (full_ratio (Z.of_nat (ht_count hst)) (num_buckets hst))
    (d_of_Z CLHT_PERC_FULL_HALVE)) eqn:Hr.
  - rewrite (status_halve _ _ _ _ _ Hok) by (done || lia).
    assert (3 ≤ n) as Hn3.
    { destruct (decide (n < 3)); [|lia]. rewrite full_ratio_small_table in Hr; [done|lia|].
      rewrite En. assert (n = 0 ∨ n = 1 ∨ n = 2) as [-> |[-> | ->]] by lia; auto. }
    assert (2 ^ (n - 3) = num_buckets hst / CLHT_RATIO_HALVE) as Enew.
    { rewrite En. unfold CLHT_RATIO_HALVE. change 8 with (2 ^ 3). by rewrite Z.pow_sub_r by lia. }
    pose proof (Z.pow_le_mono_r 2 (n - 3) 26 ltac:(lia) ltac:(lia)).
    pose proof (Z.pow_pos_nonneg 2 (n - 3) ltac:(lia) ltac:(lia)).
    destruct (ht_resize_run (with_status_lock 255 h) hst false 33 lt Hok1 Hb)
      as (h' & hn & (Hok' & _ & _ & _ & _ & Hgr) & Hnb & Hth & Hti & Hsub & _ & E);
      [exists (n - 3); split; [lia|exact Enew]|].
    rewrite <- Enew in Hnb. rewrite E. clear E.
    pose proof (ht_count_mono _ _ (ok_wf _ _ Hok) (ok_wf _ _ Hok') Hsub) as Hcn.
    pose proof (tight_expands _ Hti) as Hte.
    assert (wide hn) as Hw' by (split; [lia|lia|done]).
    assert (∀ hs h1, submap hs hst → grows h' h1 →
      submap hs hst ∧ (lossless hst → same_map hs hst) ∧ grows h (with_status_lock LOCK_FREE h1)) as Hfin.
    { intros hs h1 Hs Hg. split; [done|]. split; [intros [_ Hl]; congruence|]. by eapply grows_trans. }
    case_bool_decide as Hag.
    + destruct (status_full fuel h' hn 0 Hok' Hw') as (h2 & hst2 & -> & Hok2 & Hw2 & Hs2 & Hg2); [lia|lia|].
      rewrite !res_bind_ret. eexists _, hst2. split; [done|].
      split; [by apply status_lock_ok|]. split; [done|]. apply Hfin; [|done].
      eapply submap_trans; [by apply same_submap|done].
    + rewrite res_bind_ret. eexists _, hn. split; [done|].
      split; [by apply status_lock_ok|]. split; [done|].
      apply Hfin; [done|by apply grows_same].
  - destruct (decide (MAX_BUCKET_SIZE ≤ Z.of_nat (ht_count hst))) as [Hmax|Hmax].
    + rewrite (status_stop _ _ _ _ _ Hok) by (done || lia).
      destruct (eliminate_run (S fuel) bin _ hst Hok1 Hbin)
        as (h1 & h2 & hst2 & E1 & E2 & Hok2 & (P1 & _ & _ & _ & P5) & Hsub & Hg).
      change (ht (with_status_lock 255 h)) with (ht h) in E1, E2.
      rewrite E1, res_bind_ret, E2, !res_bind_ret. eexists _, hst2. split; [done|].
      split; [by apply status_lock_ok|].
      pose proof (ht_count_mono _ _ (ok_wf _ _ Hok) (ok_wf _ _ Hok2) Hsub).
      split; [split; [rewrite P1; apply Hw|lia|rewrite P1, P5; apply Hw]|].
      split; [done|]. split; [intros [Hl _]; lia|exact Hg].
    + rewrite (status_grow _ _ _ _ _ Hok) by (done || lia).
      destruct (grow_returns (S fuel) (with_status_lock 255 h) hst)
        as (h1 & hst1 & -> & Hok2 & Hw2 & Hs2 & Hg2); [done|done|lia|done| |].
      { rewrite Nat2Z.inj_succ, Z.pow_succ_r by lia.
        pose proof (Z.pow_pos_nonneg 2 (Z.of_nat fuel) ltac:(lia) ltac:(lia)). nia. }
      rewrite res_bind_ret. eexists _, hst1. split; [done|]. split; [by apply status_lock_ok|].
      split; [done|]. split_and!; [by apply same_submap|done|exact Hg2].
Qed.
(** ** Insertion *)
(** The chain [clht_put] writes back, and what it does to the map. *)
Definition put_effect (key val : Z) hst hst' : Prop :=
  ∀ k, ht_lookup hst' k = if decide (k = key) then Some val else ht_lookup hst k.

(** The critical section of [clht_put]: a free slot is taken, *)
Lemma put_slot h hst key val c i j :
  clht_ok h hst → 0 < key → table hst !! Z.to_nat (clht_hash hst key) = Some c →
  ht_lookup hst key = None → put_scan key 0 None (set_head_lock LOCK_UPDATE c) = Some (Some (i, j)) →
  ∃ h' hst', locked (ht h) (clht_hash hst key) (λ c, (tt, chain_write i j key val c))
      (set_cur (put_chain (clht_hash hst key) (set_head_lock LOCK_UPDATE c) hst) h) = Ret (tt, h') ∧
    clht_ok h' hst' ∧ put_effect key val hst hst' ∧ same_params hst hst' ∧ grows h h'.
Proof.
  intros Hok Hk Hc Hn Hp. pose proof (wf_chains _ (ok_wf _ _ Hok) _ _ Hc) as Hcok.
  pose proof Hcok as [Hfree _]. unfold ht_lookup in Hn. rewrite Hc in Hn.
  pose proof (put_scan_spec key val 0 (set_head_lock LOCK_UPDATE c)) as Hs. rewrite Hp in Hs.
  cbn zeta in Hs. rewrite Nat.sub_0_r, flat_set_head_lock in Hs.
  destruct Hs as (_ & _ & Hs & l1 & w & l2 & E1 & E2).
  eexists _, _. split; [by eapply locked_run|].
  destruct (chain_ok_new _ _ c (set_head_lock LOCK_FREE
    (chain_write i j key val (set_head_lock LOCK_UPDATE c))) l1 w l2 key val Hcok)
    as [Hcok' Hm]; [|done|by rewrite flat_set_head_lock|done|done|done|].
  { rewrite <- (app_nil_r (shape c)). apply (chain_unlock _ _ LOCK_UPDATE); [done|].
    by rewrite app_nil_r. }
  destruct (put_chain_insert hst c _ key val (ok_wf _ _ Hok) Hc Hcok' Hm) as [Hwf' Hl'].
  split; [by eapply set_cur_ok|]. split_and!; [done..|apply grows_set_ht].
Qed.

(** or a bucket [nb] with free slots is linked. *)
Lemma put_link h hst key val c n nb v0 v1 v2 :
  clht_ok h hst → 0 < key → table hst !! Z.to_nat (clht_hash hst key) = Some c →
  ht_lookup hst key = None → slots nb = [(0, v0); (0, v1); (0, v2)] →
  ∃ h' hst', locked (ht h) (clht_hash hst key) (λ c, (tt, c ++ [bucket_with key val nb]))
      (set_ht (ht h) (with_expands n (put_chain (clht_hash hst key) (set_head_lock LOCK_UPDATE c) hst))
        (set_cur (put_chain (clht_hash hst key) (set_head_lock LOCK_UPDATE c) hst) h)) = Ret (tt, h') ∧
    clht_ok h' hst' ∧ put_effect key val hst hst' ∧ same_params hst hst' ∧ grows h h'.
Proof.
  intros Hok Hk Hc Hn Hb. pose proof (wf_chains _ (ok_wf _ _ Hok) _ _ Hc) as Hcok.
  pose proof Hcok as [Hfree _]. unfold ht_lookup in Hn. rewrite Hc in Hn.
  destruct (with_expands_wf n hst (ok_wf _ _ Hok)) as [Hwf1 _].
  pose proof (set_cur_ok _ _ (with_expands n hst) Hok Hwf1) as Hok1.
  assert (set_ht (ht h) (with_expands n (put_chain (clht_hash hst key) (set_head_lock LOCK_UPDATE c) hst))
      (set_cur (put_chain (clht_hash hst key) (set_head_lock LOCK_UPDATE c) hst) h)
    = set_cur (put_chain (clht_hash hst key) (set_head_lock LOCK_UPDATE c) (with_expands n hst))
        (set_cur (with_expands n hst) h)) as ->.
  { unfold set_cur, set_ht. cbn. by rewrite !insert_insert_eq. }
  eexists _, _. split.
  { change (ht h) with (ht (set_cur (with_expands n hst) h)).
    eapply (locked_run (clht_hash hst key) (set_cur (with_expands n hst) h) (with_expands n hst) c);
      [exact Hok1|exact Hc|reflexivity]. }
  destruct (bucket_with_chain _ _ c nb v0 v1 v2 key val Hcok Hb Hk eq_refl Hn) as [Hcok' Hm].
  assert (set_head_lock LOCK_FREE (set_head_lock LOCK_UPDATE c ++ [bucket_with key val nb])
    = c ++ [bucket_with key val nb]) as ->.
  { destruct c as [|[] c0]; [done|]. cbn in *. injection Hfree as ->. done. }
  destruct (put_chain_insert (with_expands n hst) c _ key val Hwf1 Hc Hcok' Hm) as [Hwf' Hl'].
  split; [eapply (set_cur_ok (set_cur (with_expands n hst) h)); [done|exact Hwf']|].
  split_and!; [done..|]. eapply grows_trans; apply grows_set_ht.
Qed.

(** [clht_put] on an absent key: the pair is stored, then the table may be
    resized. *)
Lemma put_absent fuel h hst key val lt :
  clht_ok h hst → 0 < key → ht_lookup hst key = None →
  ∃ h' hst' (resize : bool), clht_ok h' hst' ∧ put_effect key val hst hst' ∧
    same_params hst hst' ∧ grows h h' ∧
    (resize = true → u32 (num_expands hst + 1) = num_expands_threshold hst) ∧
    clht_put uninit fuel key val lt h =
      if resize then let* '(_, h) := ht_status uninit fuel h' true false (Some (clht_hash hst key)) lt in
                     Ret (true, h)
      else Ret (true, h').
Proof.
  intros Hok Hk Hn. destruct (wf_chain hst key (ok_wf _ _ Hok)) as (c & Hc & Hg & Hcok & Hl).
  pose proof Hcok as [Hfree _].
  assert (key ∉ (flat c).*1) as Hni.
  { apply (chain_None _ _ _ _ Hcok); [lia|congruence]. }
  unfold clht_put. rewrite (get_cur _ _ Hok), res_bind_ret, Hg, res_bind_ret.
  destruct (bucket_exists c key) eqn:Ex; [by apply bucket_exists_spec in Ex|].
  rewrite (acquire_run _ _ _ _ _ Hok Hc Hfree), res_bind_ret.
  set (hst1 := put_chain (clht_hash hst key) (set_head_lock LOCK_UPDATE c) hst).
  assert (get_ht (ht h) (set_cur hst1 h) = Ret hst1) as ->.
  { unfold get_ht. cbn. by rewrite lookup_insert_eq. }
  rewrite res_bind_ret.
  assert (get_chain (clht_hash hst key) hst1 = Ret (set_head_lock LOCK_UPDATE c)) as ->.
  { apply get_chain_put. by eapply lookup_lt_Some. }
  rewrite res_bind_ret.
  destruct (put_scan key 0 None (set_head_lock LOCK_UPDATE c)) as [[[i j]|]|] eqn:Hp.
  - destruct (put_slot h hst key val c i j Hok Hk Hc Hn Hp) as (h' & hst' & E & ? & ? & ? & ?).
    unfold hst1. rewrite E, res_bind_ret. exists h', hst', false. by split_and!.
  - unfold clht_bucket_create_stats.
    destruct (bucket_create_slots uninit (version hst1) (u32 (num_expands hst1 + 1))) as (v0 & v1 & v2 & Hb).
    destruct (put_link h hst key val c (u32 (num_expands hst1 + 1)) _ v0 v1 v2 Hok Hk Hc Hn Hb)
      as (h' & hst' & E & ? & ? & ? & ?).
    unfold hst1 in *. rewrite E, res_bind_ret. eexists h', hst', _.
    split_and!; [done..| |reflexivity]. by intros ?%bool_decide_eq_true.
  - exfalso. pose proof (put_scan_spec key val 0 (set_head_lock LOCK_UPDATE c)) as Hs.
    rewrite Hp, flat_set_head_lock in Hs. done.
Qed.

(** [clht_put] on a key that is stored. *)
Lemma put_present fuel h hst key val lt :
  clht_ok h hst → 0 < key → is_Some (ht_lookup hst key) → clht_put uninit fuel key val lt h = Ret (false, h).
Proof.
  intros Hok Hk Hs. destruct (wf_chain hst key (ok_wf _ _ Hok)) as (c & Hc & Hg & Hcok & Hl).
  unfold clht_put. rewrite (get_cur _ _ Hok), res_bind_ret, Hg, res_bind_ret.
  rewrite Hl, <- (chain_key_iff _ _ _ _ Hcok) in Hs by lia.
  apply bucket_exists_spec in Hs. by rewrite Hs.
Qed.

(** Insertion returns; it stores the pair and drops none unless the table had
    to be resized and was not [lossless]. *)
Lemma clht_put_absent fuel h hst key val lt :
  clht_ok h hst → wide hst → 0 < key → ht_lookup hst key = None →
  Z.of_nat (ht_count hst) + 1 < 2 ^ 32 → Z.of_nat (ht_count hst) + 1 < 2 ^ Z.of_nat fuel →
  ∃ h' hst1 hst', clht_put uninit (S fuel) key val lt h = Ret (true, h') ∧
    clht_ok h' hst' ∧ wide hst' ∧ put_effect key val hst hst1 ∧ submap hst' hst1 ∧ grows h h' ∧
    (u32 (num_expands hst + 1) ≠ num_expands_threshold hst ∨ lossless hst1 → same_map hst' hst1).
Proof.
  intros Hok Hw Hk Hn Hc Hf.
  destruct (put_absent (S fuel) h hst key val lt Hok Hk Hn)
    as (h1 & hst1 & resize & Hok1 & Hput & (P1 & P2 & _ & _ & P5) & Hgr & Hre & ->).
  pose proof (ht_count_insert _ _ _ _ (ok_wf _ _ Hok) (ok_wf _ _ Hok1) Hn Hput) as Hcn.
  assert (wide hst1) as Hw1.
  { split; [rewrite P1; apply Hw|lia|rewrite P1, P5; apply Hw]. }
  destruct resize.
  - destruct (ht_status_spec fuel h1 hst1 (clht_hash hst key) lt Hok1 Hw1)
      as (h2 & hst2 & -> & Hok2 & Hw2 & Hsub & Hsame & Hg2); [lia| |].
    { rewrite P1. apply wf_hash_range, Hok. }
    rewrite res_bind_ret. exists h2, hst1, hst2. split_and!; [done..|by eapply grows_trans|].
    intros [Hne|?]; [|by apply Hsame]. destruct Hne. by apply Hre.
  - exists h1, hst1, hst1. split_and!; [done..|by intros ? ?|done|by intros _ ?].
Qed.
End status.
