(* ===== verification/ClhtThm.v ===== *)
(** * What the CLHT table promises

    The operations of the table, run in sequence by one thread, implement a
    finite map that may forget pairs when it inserts: the map of a cache. *)
From S2P Require Import Prelude Ieee Clht ClhtInv ClhtSpec ClhtResize ClhtStatus.

(** ** Sequences of operations *)
Inductive op : Type :=
  | OGet (key lt : Z) | OPut (key val lt : Z) | OUpdate (key val : Z) | ORemove (key : Z).

Definition op_key (o : op) : Z :=
  match o with OGet k _ | OPut k _ _ | OUpdate k _ | ORemove k => k end.
Definition is_put (o : op) : nat := match o with OPut _ _ _ => 1 | _ => 0 end.

(** One operation of the abstract cache: the value or flag returned, and the
    map afterwards. *)
Inductive cache_step : gmap Z Z → op → Z → gmap Z Z → Prop :=
  | step_get m k lt : cache_step m (OGet k lt) (default 0 (m !! k)) m
  | step_put m m' k v lt :
      m !! k = None → m' ⊆ <[k := v]> m → cache_step m (OPut k v lt) 1 m'
  | step_put_present m k v lt w :
      m !! k = Some w → cache_step m (OPut k v lt) 0 m
  | step_update m k v w :
      m !! k = Some w → cache_step m (OUpdate k v) 1 (<[k := v]> m)
  | step_update_absent m k v :
      m !! k = None → cache_step m (OUpdate k v) 0 m
  | step_remove m k : cache_step m (ORemove k) (default 0 (m !! k)) (delete k m).

Inductive cache_run : gmap Z Z → list op → list Z → gmap Z Z → Prop :=
  | run_nil m : cache_run m [] [] m
  | run_cons m1 m2 m3 o os r rs :
      cache_step m1 o r m2 → cache_run m2 os rs m3 → cache_run m1 (o :: os) (r :: rs) m3.

Section run.
Context (uninit : Z → Z → UInt24_t * Z * (Z * Z * Z)) (fuel : nat).
Implicit Types (h : clht) (hst : hashtable) (o : op) (m : gmap Z Z).

Definition exec o h : res (Z * clht) :=
  match o with
  | OGet k lt => clht_get (ht h) k lt h
  | OPut k v lt => let* '(b, h) := clht_put uninit fuel k v lt h in Ret (Z.b2z b, h)
  | OUpdate k v => let* '(b, h) := clht_update fuel k v h in Ret (Z.b2z b, h)
  | ORemove k => clht_remove fuel k h
  end.

Fixpoint exec_all (os : list op) h : res (list Z * clht) :=
  match os with
  | [] => Ret ([], h)
  | o :: os => let* '(r, h) := exec o h in
               let* '(rs, h) := exec_all os h in Ret (r :: rs, h)
  end.
End run.

Section refine.
Context (uninit : Z → Z → UInt24_t * Z * (Z * Z * Z)).
Implicit Types (h : clht) (hst : hashtable) (o : op) (m : gmap Z Z).

(** The handle stands for a map. *)
Record reps h hst m : Prop := {
  reps_ok : clht_ok h hst;
  reps_wide : wide hst;
  reps_map : ∀ k, ht_lookup hst k = m !! k
}.

Lemma reps_count h hst m : reps h hst m → ht_count hst = size m.
Proof.
  intros [Hok _ Hm]. rewrite <- ht_map_size by apply Hok. f_equal. apply map_eq. intros k.
  by rewrite ht_map_lookup by apply Hok.
Qed.

Lemma wide_same hst hst' :
  wide hst → same_params hst hst' → (ht_count hst' ≤ ht_count hst)%nat → wide hst'.
Proof.
  intros [] (P1 & _ & _ & _ & P5) Hc. split; [by rewrite P1|lia|by rewrite P1, P5].
Qed.

(** A result that keeps the parameters and whose map is known. *)
Lemma reps_step h hst h' hst' m m' :
  reps h hst m → clht_ok h' hst' → same_params hst hst' →
  (∀ k, ht_lookup hst' k = m' !! k) → (size m' ≤ size m)%nat → reps h' hst' m'.
Proof.
  intros Hr Hok Hp Hl Hs. pose proof (reps_count _ _ _ Hr) as Hc. destruct Hr as [Hok0 Hw Hm].
  split; [done| |done]. eapply wide_same; [done|done|].
  rewrite <- (ht_map_size hst') by apply Hok. rewrite Hc.
  transitivity (size m'); [|done]. apply map_subseteq_size, reflexive_eq, map_eq. intros k.
  by rewrite ht_map_lookup by apply Hok.
Qed.

Lemma exec_refines fuel h hst m o :
  reps h hst m → 0 < op_key o →
  Z.of_nat (size m) + 1 < 2 ^ 32 → Z.of_nat (size m) + 1 < 2 ^ Z.of_nat fuel →
  ∃ r h' hst' m', exec uninit (S fuel) o h = Ret (r, h') ∧ cache_step m o r m' ∧
    reps h' hst' m' ∧ grows h h' ∧ (size m' ≤ size m + is_put o)%nat.
Proof.
  intros Hr Hk H32 Hf. assert (∀ hs, grows h (set_cur hs h)) as Hset by (intros; apply grows_set_ht). pose proof (reps_count _ _ _ Hr) as Hc. pose proof Hr as [Hok Hw Hm].
  destruct o as [k lt|k v lt|k v|k]; cbn [op_key exec is_put] in *.
  - destruct (clht_get_spec h hst k lt Hok) as (h' & hst' & -> & Hok' & Hp & _ & Eh & Hl); [lia|].
    rewrite Hm. eexists _, h', hst', m. split; [done|]. split; [constructor|]. split; [|by rewrite Eh; split; [|lia]].
    eapply reps_step; [done..| |lia]. intros k'. by rewrite Hl.
  - destruct (m !! k) as [w|] eqn:Ek.
    + rewrite (put_present uninit _ _ _ _ _ _ Hok Hk), res_bind_ret by (rewrite Hm; by eexists).
      exists 0, h, hst, m. split_and!; [done|by econstructor|done|by apply grows_same|lia].
    + destruct (clht_put_absent uninit fuel h hst k v lt Hok Hw Hk)
        as (h' & hst1 & hst' & -> & Hok' & Hw' & Hput & Hsub & Hgr & _); [by rewrite Hm|lia|lia|].
      rewrite res_bind_ret. exists 1, h', hst', (ht_map hst'). split; [done|].
      assert (ht_map hst' ⊆ <[k := v]> m) as Hsm.
      { apply map_subseteq_spec. intros k' v'. rewrite ht_map_lookup by apply Hok'.
        intros Hk'%Hsub. rewrite Hput in Hk'. case_decide.
        - subst. by rewrite lookup_insert_eq.
        - rewrite lookup_insert_ne by done. by rewrite <- Hm. }
      split; [by constructor|]. split.
      * split; [done|done|]. intros k'. by rewrite ht_map_lookup by apply Hok'.
      * split; [done|]. apply map_subseteq_size in Hsm. rewrite map_size_insert_None in Hsm by done. lia.
  - destruct (clht_update_spec (S fuel) h hst k v Hok Hk) as (h' & hst' & -> & Hok' & Hp & _ & Eh & Hl).
    rewrite res_bind_ret. rewrite Hm in *. destruct (m !! k) as [w|] eqn:Ek.
    + exists 1, h', hst', (<[k := v]> m). split; [done|]. split; [by econstructor|].
      assert (size (<[k := v]> m) = size m) as Es by (apply map_size_insert_Some; by eexists).
      split; [|by rewrite Eh; split; [|lia]]. eapply reps_step; [done..| |lia]. intros k'. rewrite Hl, Hm.
      case_decide; [subst; by rewrite lookup_insert_eq|by rewrite lookup_insert_ne by done].
    + exists 0, h', hst', m. split; [done|]. split; [by constructor|]. split; [|by rewrite Eh; split; [|lia]].
      eapply reps_step; [done..| |lia]. intros k'. rewrite Hl, Hm. case_decide; [by subst|done].
  - destruct (clht_remove_spec (S fuel) h hst k Hok Hk) as (h' & hst' & -> & Hok' & Hp & _ & Eh & Hl).
    rewrite Hm. exists (default 0 (m !! k)), h', hst', (delete k m). split; [done|].
    split; [constructor|].
    assert (size (delete k m) ≤ size m)%nat by (apply map_subseteq_size, delete_subseteq).
    split; [|by rewrite Eh; split; [|lia]]. eapply reps_step; [done..| |lia]. intros k'. rewrite Hl, Hm.
    case_decide; [subst; by rewrite lookup_delete_eq|by rewrite lookup_delete_ne by done].
Qed.

Lemma exec_all_refines fuel os h hst m :
  reps h hst m → Forall (λ o, 0 < op_key o) os →
  Z.of_nat (size m + length os) < 2 ^ 32 → Z.of_nat (size m + length os) < 2 ^ Z.of_nat fuel →
  ∃ rs h' hst' m', exec_all uninit (S fuel) os h = Ret (rs, h') ∧ cache_run m os rs m' ∧
    reps h' hst' m'.
Proof.
  revert h hst m. induction os as [|o os IH]; intros h hst m Hr Hk H32 Hf; cbn [exec_all].
  { exists [], h, hst, m. split_and!; [done|constructor|done]. }
  apply Forall_cons in Hk as [Hk Hks]. cbn [length] in *.
  destruct (exec_refines fuel h hst m o Hr Hk) as (r & h1 & hst1 & m1 & -> & Hst & Hr1 & _ & Hs1); [lia|lia|].
  rewrite res_bind_ret. assert (is_put o ≤ 1)%nat by (by destruct o; cbn; lia).
  destruct (IH h1 hst1 m1 Hr1 Hks) as (rs & h2 & hst2 & m2 & -> & Hrun & Hr2); [lia|lia|].
  rewrite res_bind_ret. exists (r :: rs), h2, hst2, m2. split; [done|]. split; [|done].
  by econstructor.
Qed.

(** A fresh table is the empty cache. *)
Lemma create_reps n :
  (∃ j, 0 ≤ j ≤ 26 ∧ n = 2 ^ j) → ∃ h hst, clht_create n = Some h ∧ reps h hst ∅.
Proof.
  intros (j & Hj & ->). destruct (hashtable_create_spec (2 ^ j)) as (hn & E & Hwf & Hn & Hl & _ & He & Ht & Hth);
    [by exists j; split; [lia|]|].
  unfold clht_create. rewrite E. eexists _, hn. split; [done|].
  destruct (empty_table_tight _ hn Hwf Hl He Ht) as [_ Hc].
  pose proof (Z.pow_le_mono_r 2 j 26 ltac:(lia) ltac:(lia)).
  split; [split; [apply lookup_singleton_eq|done|done]| |by intros k; rewrite Hl].
  split; [lia|lia|rewrite Hn; apply Hth; lia].
Qed.
End refine.

(** ** The promises *)
Definition uninit0 : Z → Z → UInt24_t * Z * (Z * Z * Z) := λ _ _, ((0, 0, 0), 0, (0, 0, 0)).

(** C4: the hash table run by one thread is a cache: from [clht_create], any
    sequence of lookups, insertions, updates and removals of non-zero keys
    returns (locks are released, resizes end), each lookup gives the value the
    map holds or 0, an insertion reports whether the key was new, and the map
    afterwards holds no pair that was not written. *)
Theorem clht_implements_cache uninit fuel os j :
  0 ≤ j ≤ 26 → Forall (λ o, 0 < op_key o) os →
  Z.of_nat (length os) < 2 ^ 32 → Z.of_nat (length os) < 2 ^ Z.of_nat fuel →
  ∃ h rs h' hst' m, clht_create (2 ^ j) = Some h ∧
    exec_all uninit (S fuel) os h = Ret (rs, h') ∧ cache_run ∅ os rs m ∧ reps h' hst' m.
Proof.
  intros Hj Hk H32 Hf. destruct (create_reps (2 ^ j)) as (h & hst & E & Hr); [by exists j|].
  destruct (exec_all_refines uninit fuel os h hst ∅ Hr Hk) as (rs & h' & hst' & m & ? & ? & ?);
    [by rewrite map_size_empty|by rewrite map_size_empty|].
  by exists h, rs, h', hst', m.
Qed.

Lemma clht_implements_cache_witness :
  let os := [OPut 1 11 5; OPut 2 22 5; OPut 3 33 6; OPut 4 44 6; OGet 4 7; OUpdate 2 23;
             OPut 2 99 8; OGet 2 8; ORemove 1; OGet 1 9] in
  (∃ h', exec_all uninit0 5 os (default (mkClht 0 0 [] 0 0 0 0 ∅ []) (clht_create 1))
           = Ret ([1; 1; 1; 1; 44; 1; 0; 23; 11; 0], h')) ∧
  ∃ h rs h' hst' m, clht_create (2 ^ 0) = Some h ∧
    exec_all uninit0 5 os h = Ret (rs, h') ∧ cache_run ∅ os rs m ∧ reps h' hst' m.
Proof.
  intros os. split; [eexists; vm_compute; reflexivity|].
  apply (clht_implements_cache uninit0 4 os 0); [lia| |by vm_compute|by vm_compute].
  repeat (apply Forall_cons_2; [done|]). apply Forall_nil_2.
Defined.

(** A concrete handle: a fresh table of four buckets. *)
Definition ht4 : hashtable :=
  mkHashtable 4 (replicate 4 [mkBucket LOCK_FREE (0, 0, 0) 0 (replicate ENTRIES_PER_BUCKET (0, 0))])
    3 0 None None None 0 4 1 0.
Definition h4 : clht := mkClht 0 0 [] 0 0 0 0 {[0%nat := ht4]} [].

Lemma h4_reps : reps h4 ht4 ∅.
Proof.
  destruct (create_reps 4) as (h & hst & E & Hr); [by exists 2|].
  assert (h = h4) as -> by (change (Some h4 = Some h) in E; congruence).
  pose proof (ok_cur _ _ (reps_ok _ _ _ Hr)) as Eh. change (Some ht4 = Some hst) in Eh.
  by simplify_eq.
Qed.



(** C36: [ht_resize_pes] with a new size that is a power of two and at most
    [2 ^ 26] buckets returns, and frees its locks: growing keeps exactly the
    pairs, shrinking drops pairs at most, and the old table is handed over for
    release. With fewer pairs than three per new bucket it resizes once: the new
    table has the size asked for and at most a third as many overflow buckets as
    pairs. With more it may resize again through [ht_status], which loses
    nothing. *)
Theorem ht_resize_pes_correct uninit fuel h hst (is_increase : bool) by_ lt :
  clht_ok h hst → Z.of_nat (ht_count hst) < 2 ^ 32 → Z.of_nat (ht_count hst) < 2 ^ Z.of_nat fuel →
  let num_buckets_new := if is_increase then u64 (by_ * num_buckets hst) else num_buckets hst / CLHT_RATIO_HALVE in
  (∃ j, 0 ≤ j ≤ 26 ∧ 2 ^ j = num_buckets_new) →
  ∃ h' hst', ht_resize_pes uninit (S fuel) h is_increase by_ lt = Ret (1, h') ∧ clht_ok h' hst' ∧
    (∃ l, released h' = l ++ ht h :: released h) ∧
    ht_map hst' ⊆ ht_map hst ∧ (is_increase = true → ht_map hst' = ht_map hst) ∧
    (Z.of_nat (ht_count hst) < 3 * num_buckets_new →
       num_buckets hst' = num_buckets_new ∧ released h' = ht h :: released h ∧ 3 * num_expands hst' ≤ Z.of_nat (ht_count hst')).
Proof.
  intros Hok Hb Hf nb (j & Hj & En).
  destruct (ht_resize_run uninit h hst is_increase by_ lt Hok Hb)
    as (h1 & hn & (Hok1 & _ & _ & _ & Hrel & _) & Hnb & Hth & Hti & Hsub & Hsame & E); [exists j; split; [lia|exact En]|].
  fold nb in Hnb. pose proof (tight_expands _ Hti) as Hte. pose proof (ht_count_mono _ _ (ok_wf _ _ Hok) (ok_wf _ _ Hok1) Hsub) as Hcn.
  pose proof (Z.pow_le_mono_r 2 j 26 ltac:(lia) ltac:(lia)). pose proof (Z.pow_pos_nonneg 2 j ltac:(lia) ltac:(lia)).
  assert (∀ h' hst', clht_ok h' hst' → same_map hst' hn → ht_map hst' ⊆ ht_map hst ∧ (is_increase = true → ht_map hst' = ht_map hst)) as Hmaps.
  { intros h' hst' Hok' Hs. split.
    - apply map_subseteq_spec. intros k v. rewrite !ht_map_lookup by (by apply Hok || apply Hok'). rewrite Hs. apply Hsub.
    - intros Hi. apply map_eq. intros k. rewrite !ht_map_lookup by (by apply Hok || apply Hok'). rewrite Hs. by apply Hsame. }
  rewrite E. clear E. case_bool_decide as Hag.
  - assert (wide hn) as Hw by (split; lia).
    destruct (status_full uninit fuel h1 hn 0 Hok1 Hw) as (h2 & hst2 & -> & Hok2 & _ & Hs2 & _ & l & Hl & _); [lia|lia|].
    rewrite res_bind_ret. destruct (Hmaps h2 hst2 Hok2 Hs2) as [Hm1 Hm2]. exists h2, hst2.
    split; [done|]. split; [done|]. split; [exists l; by rewrite Hl, Hrel|]. split; [done|]. split; [done|lia].
  - destruct (Hmaps h1 hn Hok1) as [Hm1 Hm2]; [done|]. exists h1, hn.
    split; [done|]. split; [done|]. split; [by exists []|]. split; [done|]. split; [done|]. intros _. by split; [|split].
Qed.

Lemma ht_resize_pes_correct_witness :
  (∃ j, 0 ≤ j ≤ 26 ∧ 2 ^ j = u64 (2 * num_buckets ht4)) ∧
  ∃ h' hst', ht_resize_pes uninit0 1 h4 true 2 0 = Ret (1, h') ∧ clht_ok h' hst' ∧
    released h' = [0%nat] ∧ num_buckets hst' = 8 ∧ ht_map hst' = ht_map ht4.
Proof.
  assert (∃ j, 0 ≤ j ≤ 26 ∧ 2 ^ j = u64 (2 * num_buckets ht4)) as Hj by by exists 3.
  split; [done|]. pose proof h4_reps as Hr. destruct Hr as [Hok Hw Hm].
  destruct (ht_resize_pes_correct uninit0 0 h4 ht4 true 2 0 Hok) as (h' & hst' & E & ? & _ & _ & Hs & Hn);
    [by vm_compute|by vm_compute|done|].
  exists h', hst'. destruct Hn as (? & ? & _); [by vm_compute|]. split_and!; [exact E|done|done|done|by apply Hs].
Defined.

(** [clht_size] is the number of pairs stored. *)
Theorem clht_size_correct hst :
  ht_wf hst → Z.of_nat (ht_count hst) < 2 ^ 64 → clht_size hst = Z.of_nat (size (ht_map hst)).
Proof. intros Hwf Hb. rewrite ht_map_size by done. by apply ht_size_spec. Qed.

Lemma clht_size_correct_witness :
  Z.of_nat (ht_count ht4) < 2 ^ 64 ∧ clht_size ht4 = Z.of_nat (size (ht_map ht4)).
Proof.
  split; [by vm_compute|]. pose proof h4_reps as Hr. destruct Hr as [Hok _ _].
  apply (clht_size_correct ht4); [apply Hok|by vm_compute].
Defined.

(** [pow2roundup] gives the least power of two that is at least its
    argument, and 0 when that is [2 ^ 64]. *)
Theorem pow2roundup_correct x :
  0 ≤ x < 2 ^ 64 → pow2roundup x = if decide (x ≤ 2 ^ 63) then 2 ^ Z.log2_up x else 0.
Proof.
  intros Hx. case_decide as Hb.
  - destruct (decide (x = 0)) as [->|]; [done|]. apply pow2roundup_pow. lia.
  - rewrite pow2roundup_log2, (Z.log2_up_unique x 64) by lia. by vm_compute.
Qed.

Lemma pow2roundup_correct_witness : 0 ≤ 37 < 2 ^ 64 ∧ pow2roundup 37 = 64.
Proof. split; [lia|]. rewrite (pow2roundup_correct 37) by lia. by vm_compute. Defined.

(** Appending eight bits. *)
Lemma lor_low8 x b : 0 ≤ b < 256 → Z.lor (Z.shiftl x 8) b = x * 256 + b.
Proof.
  intros Hb. assert (Z.land (Z.shiftl x 8) b = 0) as E.
  { apply Z.bits_inj'. intros i Hi. rewrite Z.land_spec, Z.bits_0, Z.shiftl_spec by lia.
    destruct (decide (i < 8)); [by rewrite Z.testbit_neg_r by lia|].
    replace b with (b mod 2 ^ 8) by (apply Z.mod_small; lia).
    by rewrite Z.mod_pow2_bits_high, andb_false_r by lia. }
  rewrite <- Z.lxor_lor, <- Z.add_nocarry_lxor, Z.shiftl_mul_pow2 by done. done.
Qed.

Lemma unpack_pack lt : 0 ≤ lt < 2 ^ 32 → unpack_uint24 (pack_uint24 lt) = lt mod 2 ^ 24.
Proof.
  intros Hlt. unfold unpack_uint24, pack_uint24. change 255 with (Z.ones 8).
  rewrite !Z.land_ones, !Z.shiftr_div_pow2 by lia.
  change (2 ^ 8) with 256. change (2 ^ 16) with (256 * 256). change (2 ^ 24) with (256 * 256 * 256).
  assert (0 ≤ (lt / (256 * 256)) mod 256 < 256 ∧ 0 ≤ (lt / 256) mod 256 < 256 ∧ 0 ≤ lt mod 256 < 256)
    as (H1 & H2 & H3) by (split_and!; apply Z.mod_pos_bound; lia).
  rewrite (wrap_small 32 (Z.shiftl ((lt / (256 * 256)) mod 256) 8))
    by (rewrite Z.shiftl_mul_pow2 by lia; lia).
  rewrite lor_low8 by done. rewrite wrap_small by (rewrite Z.shiftl_mul_pow2 by lia; lia).
  rewrite lor_low8 by done. rewrite <- !Z.div_div by lia.
  Z.to_euclidean_division_equations. lia.
Qed.

(** The time stamp of a bucket is the low 24 bits of the time, so a bucket
    with two pairs or more that was used at a time from [2 ^ 24 + 512] on is
    eliminated by the next shrink, even at that same time. *)
Theorem bucket_time_wraps lt b :
  0 ≤ lt < 2 ^ 32 →
  unpack_uint24 (t (set_time lt b)) = lt mod 2 ^ 24 ∧
  (2 ^ 24 + MAX_ACTIVE_ELIMINATION_TIME ≤ lt → (2 ≤ kv_cnt b)%nat →
   keep_bucket lt (set_time lt b) = false).
Proof.
  intros Hlt. change (t (set_time lt b)) with (pack_uint24 lt).
  pose proof (unpack_pack lt Hlt) as E. split; [exact E|]. intros Hl Hc. unfold keep_bucket.
  change (t (set_time lt b)) with (pack_uint24 lt). rewrite E.
  change (kv_cnt (set_time lt b)) with (kv_cnt b).
  unfold MAX_ACTIVE_ELIMINATION_TIME in *.
  pose proof (Z.mod_pos_bound lt (2 ^ 24) ltac:(lia)).
  rewrite wrap_small by lia. apply bool_decide_eq_false_2. lia.
Qed.

Lemma bucket_time_wraps_witness :
  let b := mkBucket 0 (0, 0, 0) 1 [(3, 30); (4, 40); (0, 0)] in
  0 ≤ 16777728 < 2 ^ 32 ∧ unpack_uint24 (t (set_time 16777728 b)) = 512 ∧
  keep_bucket 16777728 (set_time 16777728 b) = false.
Proof.
  intros b. destruct (bucket_time_wraps 16777728 b) as [E1 E2]; [lia|].
  split; [lia|]. split; [by rewrite E1|]. apply E2; [by vm_compute|vm_compute; lia].
Defined.
