(* ===== verification/Ssmem.v ===== *)
(** * The SSMEM allocator of the SW-Table ([src/ssmem.cc], [include/clht/ssmem.h])

    An allocator cuts objects from chunks of memory, collects freed objects in
    free sets until every thread has moved on, and keeps the memory handed to
    [ssmem_release] until it may go back to the system.  The state of one
    thread is given with the list of time stamps it shares with the others.
    A block is named by a number and is never reused after [free]: freeing it
    twice, or reading a freed node, is a [Fault]. *)
From S2P Require Import Prelude.

Definition SSMEM_GC_FREE_SET_SIZE : Z := 507.
Definition SSMEM_GC_RLSE_SET_SIZE : Z := 3.
Definition SSMEM_DEFAULT_MEM_SIZE : Z := 32 * 1024 * 1024.
Definition SSMEM_MEM_SIZE_MAX : Z := 4 * 1024 * 1024 * 1024.

(** ** Pointers *)
(** [PBlock b off] points into the block [b] that [malloc] or [memalign]
    returned; the others are parts of the hash table [table]: an overflow
    bucket of a chain, the bucket array, and the table header. *)
Inductive ptr : Type :=
  | PBlock (b : nat) (off : Z)
  | PBucket (table bin i : nat)
  | PTable (table : nat)
  | PHashtable (table : nat).
#[export] Instance ptr_eq_dec : EqDecision ptr.
Proof. solve_decision. Defined.

(** ** Data *)
Record ssmem_ts : Type := mkTs { ts_node : nat; ts_version : Z; ts_id : Z }.

(** An array of [size_t]; [None] is an element that was never written. *)
Definition ts_array : Type := list (option Z).

Record ssmem_free_set : Type := mkFreeSet {
  fs_node : nat;
  fs_ts_set : option (nat * ts_array);
  fs_size : Z;
  fs_curr : Z;
  fs_set : list (option ptr)
}.

Record ssmem_released : Type := mkReleased { rel_node : nat; rel_ts_set : ts_array; rel_mem : ptr }.

(** A node of a generic list: its block and the object it names. *)
Definition ssmem_list (A : Type) : Type := list (nat * A).

Record ssmem_allocator : Type := mkAllocator {
  mem : nat;
  mem_curr : Z;
  mem_size : Z;
  tot_size : Z;
  fs_size_of : Z;                      (* [fs_size] *)
  mem_chunks : ssmem_list nat;
  ts_of : option nat;                  (* [ts] *)
  free_set_list : list ssmem_free_set;
  free_set_num : Z;
  collected_set_list : list ssmem_free_set;
  collected_set_num : Z;
  available_set_list : list ssmem_free_set;
  released_num : Z;
  released_mem_list : list ssmem_released
}.

Record world : Type := mkWorld {
  next_block : nat;                    (* blocks from here on are unused *)
  freed : list ptr;
  ssmem_ts_list : list ssmem_ts;
  ssmem_ts_list_len : Z;
  ssmem_ts_local : option nat;
  ssmem_num_allocators : Z;
  ssmem_allocator_list : ssmem_list nat;
  allocators : gmap nat ssmem_allocator
}.

(** Field updates. *)
Definition with_next_block n w : world :=
  mkWorld n (freed w) (ssmem_ts_list w) (ssmem_ts_list_len w) (ssmem_ts_local w)
    (ssmem_num_allocators w) (ssmem_allocator_list w) (allocators w).
Definition with_freed l w : world :=
  mkWorld (next_block w) l (ssmem_ts_list w) (ssmem_ts_list_len w) (ssmem_ts_local w)
    (ssmem_num_allocators w) (ssmem_allocator_list w) (allocators w).
Definition with_ts l len loc w : world :=
  mkWorld (next_block w) (freed w) l len loc
    (ssmem_num_allocators w) (ssmem_allocator_list w) (allocators w).
Definition with_allocator_list n l w : world :=
  mkWorld (next_block w) (freed w) (ssmem_ts_list w) (ssmem_ts_list_len w) (ssmem_ts_local w)
    n l (allocators w).
Definition set_allocator (p : nat) (a : ssmem_allocator) w : world :=
  mkWorld (next_block w) (freed w) (ssmem_ts_list w) (ssmem_ts_list_len w) (ssmem_ts_local w)
    (ssmem_num_allocators w) (ssmem_allocator_list w) (<[p := a]> (allocators w)).

Definition with_chunk (m : nat) (cur size tot : Z) (chunks : ssmem_list nat) a : ssmem_allocator :=
  mkAllocator m cur size tot (fs_size_of a) chunks (ts_of a) (free_set_list a) (free_set_num a)
    (collected_set_list a) (collected_set_num a) (available_set_list a) (released_num a)
    (released_mem_list a).
Definition with_free_sets l n a : ssmem_allocator :=
  mkAllocator (mem a) (mem_curr a) (mem_size a) (tot_size a) (fs_size_of a) (mem_chunks a) (ts_of a)
    l n (collected_set_list a) (collected_set_num a) (available_set_list a) (released_num a)
    (released_mem_list a).
Definition with_collected l n a : ssmem_allocator :=
  mkAllocator (mem a) (mem_curr a) (mem_size a) (tot_size a) (fs_size_of a) (mem_chunks a) (ts_of a)
    (free_set_list a) (free_set_num a) l n (available_set_list a) (released_num a)
    (released_mem_list a).
Definition with_available l a : ssmem_allocator :=
  mkAllocator (mem a) (mem_curr a) (mem_size a) (tot_size a) (fs_size_of a) (mem_chunks a) (ts_of a)
    (free_set_list a) (free_set_num a) (collected_set_list a) (collected_set_num a) l
    (released_num a) (released_mem_list a).
Definition with_released l n a : ssmem_allocator :=
  mkAllocator (mem a) (mem_curr a) (mem_size a) (tot_size a) (fs_size_of a) (mem_chunks a) (ts_of a)
    (free_set_list a) (free_set_num a) (collected_set_list a) (collected_set_num a)
    (available_set_list a) n l.
Definition with_ts_set (ts : option (nat * ts_array)) (fs : ssmem_free_set) : ssmem_free_set :=
  mkFreeSet (fs_node fs) ts (fs_size fs) (fs_curr fs) (fs_set fs).
Definition with_curr (c : Z) (fs : ssmem_free_set) : ssmem_free_set :=
  mkFreeSet (fs_node fs) (fs_ts_set fs) (fs_size fs) c (fs_set fs).

(** ** [malloc] and [free] *)
Definition malloc (w : world) : nat * world := (next_block w, with_next_block (S (next_block w)) w).

Definition free (p : ptr) (w : world) : res world :=
  if bool_decide (p ∈ freed w) then Fault else Ret (with_freed (p :: freed w) w).
Definition free_node (b : nat) : world → res world := free (PBlock b 0).

(** Reading a field of a node. *)
Definition deref (b : nat) (w : world) : res () :=
  if bool_decide (PBlock b 0 ∈ freed w) then Fault else Ret ().

(** An array element written. *)
Definition store {A} (i : Z) (x : A) (l : list (option A)) : res (list (option A)) :=
  if bool_decide (0 ≤ i < Z.of_nat (length l)) then Ret (<[Z.to_nat i := Some x]> l) else Fault.
(** An array element read: outside the array, or never written, is undefined. *)
Definition load {A} (i : Z) (l : list (option A)) : res A :=
  if bool_decide (0 ≤ i) then of_option (mjoin (l !! Z.to_nat i)) else Fault.

(** ** Threads and their time stamps *)
Definition ssmem_get_id (w : world) : res Z :=
  match ssmem_ts_local w with
  | Some n => of_option ((λ ts, s32 (ts_id ts)) <$>
                head (filter (λ ts, ts_node ts = n ∧ PBlock n 0 ∉ freed w) (ssmem_ts_list w)))
  | None => Ret (-1)
  end.

(** [ssmem_gc_thread_init], which sets [a->ts]. *)
Definition ssmem_gc_thread_init (id : Z) (w : world) : nat * world :=
  match ssmem_ts_local w with
  | Some n => (n, w)
  | None =>
      let '(n, w) := malloc w in
      (n, with_ts (mkTs n 0 id :: ssmem_ts_list w) (u32 (ssmem_ts_list_len w + 1)) (Some n) w)
  end.

(** [ssmem_ts_next] *)
Definition ssmem_ts_next (w : world) : res world :=
  let* n := of_option (ssmem_ts_local w) in
  let* _ := deref n w in
  Ret (with_ts ((λ ts, if bool_decide (ts_node ts = n)
                       then mkTs n (u64 (ts_version ts + 1)) (ts_id ts) else ts) <$> ssmem_ts_list w)
         (ssmem_ts_list_len w) (ssmem_ts_local w) w).

(** The loop of [ssmem_ts_set_collect]. *)
Fixpoint collect_loop (cur : list ssmem_ts) (ts_set : ts_array) (w : world) : res ts_array :=
  match cur with
  | [] => Ret ts_set
  | ts :: cur => let* _ := deref (ts_node ts) w in
                 let* ts_set := store (ts_id ts) (ts_version ts) ts_set in
                 collect_loop cur ts_set w
  end.

Definition ssmem_ts_set_collect (ts_set : option (nat * ts_array)) (w : world)
  : res (nat * ts_array * world) :=
  let '(n, arr, w) := match ts_set with
                      | Some (n, arr) => (n, arr, w)
                      | None => let '(n, w) := malloc w in
                                (n, replicate (Z.to_nat (ssmem_ts_list_len w)) None, w)
                      end in
  let* arr := collect_loop (ssmem_ts_list w) arr w in
  Ret (n, arr, w).

(** [ssmem_ts_compare], from index [i] on: every stamp of [s_new] is greater. *)
Fixpoint ts_compare_from (n : nat) (i : Z) (s_new s_old : ts_array) : res bool :=
  match n with
  | O => Ret true
  | S n => let* x := load i s_new in
           let* y := load i s_old in
           if bool_decide (x ≤ y) then Ret false else ts_compare_from n (i + 1) s_new s_old
  end.
Definition ssmem_ts_compare (w : world) : ts_array → ts_array → res bool :=
  ts_compare_from (Z.to_nat (ssmem_ts_list_len w)) 0.

Fixpoint ts_compare_3_from (n : nat) (i : Z) (s_1 s_2 s_3 : ts_array) : res bool :=
  match n with
  | O => Ret true
  | S n => let* x := load i s_1 in
           let* y := load i s_2 in
           if bool_decide (x ≤ y) then Ret false else
           let* z := load i s_3 in
           if bool_decide (y ≤ z) then Ret false else ts_compare_3_from n (i + 1) s_1 s_2 s_3
  end.
Definition ssmem_ts_compare_3 (w : world) : ts_array → ts_array → ts_array → res bool :=
  ts_compare_3_from (Z.to_nat (ssmem_ts_list_len w)) 0.

(** ** Allocators *)
Definition ssmem_list_node_new {A} (obj : A) (next : ssmem_list A) (w : world) : ssmem_list A * world :=
  let '(n, w) := malloc w in ((n, obj) :: next, w).

Definition ssmem_free_set_new (size : Z) (w : world) : ssmem_free_set * world :=
  let '(n, w) := malloc w in (mkFreeSet n None size 0 (replicate (Z.to_nat size) None), w).

(** [ssmem_free_set_get_avail]: the set, and the sets still available. *)
Definition ssmem_free_set_get_avail (a : ssmem_allocator) (size : Z) (w : world)
  : ssmem_free_set * ssmem_allocator * world :=
  match available_set_list a with
  | fs :: l => (with_curr 0 fs, with_available l a, w)
  | [] => let '(fs, w) := ssmem_free_set_new size w in (fs, a, w)
  end.

Definition ssmem_free_set_free (fs : ssmem_free_set) (w : world) : res world :=
  let* w := match fs_ts_set fs with Some (n, _) => free_node n w | None => Ret w end in
  free_node (fs_node fs) w.

Definition ssmem_free_set_make_avail (fs : ssmem_free_set) (a : ssmem_allocator) : ssmem_allocator :=
  with_available (with_curr 0 fs :: available_set_list a) a.

(** [ssmem_alloc_init_fs_size] on the allocator structure at [p]. *)
Definition ssmem_alloc_init_fs_size (p : nat) (size free_set_size id : Z) (w : world) : world :=
  let '(l, w) := ssmem_list_node_new p (ssmem_allocator_list w) w in
  let w := with_allocator_list (u64 (ssmem_num_allocators w + 1)) l w in
  let '(m, w) := malloc w in
  let '(chunks, w) := ssmem_list_node_new m [] w in
  let '(ts, w) := ssmem_gc_thread_init id w in
  let '(fs, w) := ssmem_free_set_new free_set_size w in
  set_allocator p
    {| mem := m; mem_curr := 0; mem_size := size; tot_size := size; fs_size_of := free_set_size;
       mem_chunks := chunks; ts_of := Some ts; free_set_list := [fs]; free_set_num := 1;
       collected_set_list := []; collected_set_num := 0; available_set_list := [];
       released_num := 0; released_mem_list := [] |} w.
Definition ssmem_alloc_init (p : nat) (size id : Z) : world → world :=
  ssmem_alloc_init_fs_size p size SSMEM_GC_FREE_SET_SIZE id.

Definition get_allocator (p : nat) (w : world) : res ssmem_allocator := of_option (allocators w !! p).

(** The loop that doubles [mem_size] for a large object; the assertion in it is
    compiled out. *)
Fixpoint grow_mem_size (fuel : nat) (msize size : Z) : res Z :=
  if bool_decide (msize < size) then
    match fuel with
    | O => Diverge
    | S fuel => grow_mem_size fuel (u64 (Z.shiftl msize 1)) size
    end
  else Ret msize.

(** A new chunk for an allocator that is out of memory. *)
Definition ssmem_new_chunk (a : ssmem_allocator) (size : Z) (w : world)
  : res (ssmem_allocator * world) :=
  let msize := u64 (Z.shiftl (mem_size a) 1) in
  let msize := if bool_decide (SSMEM_MEM_SIZE_MAX < msize) then SSMEM_MEM_SIZE_MAX else msize in
  let* msize := if bool_decide (msize < size) then grow_mem_size 64 msize size else Ret msize in
  let '(m, w) := malloc w in
  let '(chunks, w) := ssmem_list_node_new m (mem_chunks a) w in
  Ret (with_chunk m 0 msize (u64 (tot_size a + msize)) chunks a, w).

Definition ssmem_alloc (p : nat) (size : Z) (w : world) : res (ptr * world) :=
  let* a := get_allocator p w in
  match collected_set_list a with
  | cs :: rest =>
      let curr := fs_curr cs - 1 in
      let* m := load curr (fs_set cs) in
      let cs := with_curr curr cs in
      let a := if bool_decide (curr ≤ 0)
               then ssmem_free_set_make_avail cs
                      (with_collected rest (u64 (collected_set_num a - 1)) a)
               else with_collected (cs :: rest) (collected_set_num a) a in
      Ret (m, set_allocator p a w)
  | [] =>
      let* '(a, w) := (if bool_decide (mem_size a ≤ u64 (mem_curr a + size))
                       then ssmem_new_chunk a size w else Ret (a, w)) in
      let m := PBlock (mem a) (mem_curr a) in
      let a := with_chunk (mem a) (u64 (mem_curr a + size)) (mem_size a) (tot_size a) (mem_chunks a) a in
      Ret (m, set_allocator p a w)
  end.

(** ** Reclaiming *)
(** The [do] loop over the released nodes: the node is freed, and then its
    [next] field is read. *)
Fixpoint reclaim_released (rel : ssmem_released) (rest : list ssmem_released) (w : world) : res world :=
  let* w := free (rel_mem rel) w in
  let* w := free_node (rel_node rel) w in
  let* _ := deref (rel_node rel) w in
  match rest with
  | [] => Ret w
  | rel :: rest => reclaim_released rel rest w
  end.

(** Its first half: the released objects behind the newest one, when every
    thread has moved on between the two newest. *)
Definition reclaim_list (a : ssmem_allocator) (w : world) : res (ssmem_allocator * world) :=
  if bool_decide (0 < released_num a) then
    match released_mem_list a with
    | [] => Fault
    | [rel_cur] => Ret (a, w)
    | rel_cur :: rel_nxt :: rest =>
        let* newer := ssmem_ts_compare w (rel_ts_set rel_cur) (rel_ts_set rel_nxt) in
        if newer : bool then
          let* w := reclaim_released rel_nxt rest w in Ret (with_released [rel_cur] 1 a, w)
        else Ret (a, w)
    end
  else Ret (a, w).

(** Its second half: the free sets behind the newest one. *)
Definition reclaim_sets (a : ssmem_allocator) (w : world) : res (Z * ssmem_allocator) :=
  match free_set_list a with
  | [] => Fault
  | fs_cur :: rest =>
      match fs_ts_set fs_cur, rest with
      | Some (_, ts_cur), fs_nxt :: _ =>
          match fs_ts_set fs_nxt with
          | Some (_, ts_nxt) =>
              let* newer := ssmem_ts_compare w ts_cur ts_nxt in
              if newer : bool then
                let gced_num := s32 (free_set_num a - 1) in
                let a := with_free_sets [fs_cur] 1 a in
                Ret (gced_num, with_collected (collected_set_list a ++ rest)
                                 (u64 (collected_set_num a + gced_num)) a)
              else Ret (0, a)
          | None => Ret (0, a)
          end
      | _, _ => Ret (0, a)
      end
  end.

Definition ssmem_mem_reclaim (p : nat) (w : world) : res (Z * world) :=
  let* a := get_allocator p w in
  let* '(a, w) := reclaim_list a w in
  let* '(gced_num, a) := reclaim_sets a w in
  Ret (gced_num, set_allocator p a w).

Definition ssmem_free (p : nat) (obj : ptr) (w : world) : res world :=
  let* a := get_allocator p w in
  let* fs := of_option (head (free_set_list a)) in
  let* w :=
    if bool_decide (fs_curr fs = fs_size fs) then
      let* '(n, arr, w) := ssmem_ts_set_collect (fs_ts_set fs) w in
      let a := with_free_sets (with_ts_set (Some (n, arr)) fs :: tail (free_set_list a)) (free_set_num a) a in
      let* '(_, w) := ssmem_mem_reclaim p (set_allocator p a w) in
      let* a := get_allocator p w in
      let '(fs_new, a, w) := ssmem_free_set_get_avail a (fs_size_of a) w in
      Ret (set_allocator p
             (with_free_sets (fs_new :: free_set_list a) (u64 (free_set_num a + 1)) a) w)
    else Ret w in
  let* a := get_allocator p w in
  let* fs := of_option (head (free_set_list a)) in
  let* set := store (fs_curr fs) obj (fs_set fs) in
  let fs := mkFreeSet (fs_node fs) (fs_ts_set fs) (fs_size fs) (fs_curr fs + 1) set in
  ssmem_ts_next (set_allocator p (with_free_sets (fs :: tail (free_set_list a)) (free_set_num a) a) w).

(** [ssmem_released_node_new]; the node and its stamps are one block. *)
Definition ssmem_released_node_new (m : ptr) (w : world) : ssmem_released * world :=
  let '(n, w) := malloc w in
  (mkReleased n (replicate (Z.to_nat (ssmem_ts_list_len w)) None) m, w).

Definition ssmem_release (p : nat) (obj : ptr) (w : world) : res world :=
  let* a := get_allocator p w in
  let '(rel, w) := ssmem_released_node_new obj w in
  let* arr := collect_loop (ssmem_ts_list w) (rel_ts_set rel) w in
  let rel := mkReleased (rel_node rel) arr obj in
  let rn := u64 (released_num a + 1) in
  let w := set_allocator p (with_released (rel :: released_mem_list a) rn a) w in
  if bool_decide (SSMEM_GC_RLSE_SET_SIZE ≤ s32 rn)
  then let* '(_, w) := ssmem_mem_reclaim p w in Ret w
  else Ret w.

(** ** Termination of an allocator *)
Fixpoint free_chunks (l : ssmem_list nat) (w : world) : res world :=
  match l with
  | [] => Ret w
  | (n, obj) :: l => let* w := free_node obj w in
                     let* w := free_node n w in free_chunks l w
  end.
(** Unlinks the node of the allocator [p], if there is one. *)
Fixpoint unlink (p : nat) (l : ssmem_list nat) : ssmem_list nat :=
  match l with
  | [] => []
  | (n, obj) :: l => if bool_decide (obj = p) then l else (n, obj) :: unlink p l
  end.
Fixpoint free_sets (l : list ssmem_free_set) (w : world) : res world :=
  match l with
  | [] => Ret w
  | fs :: l => let* w := ssmem_free_set_free fs w in free_sets l w
  end.
Fixpoint free_released (l : list ssmem_released) (w : world) : res world :=
  match l with
  | [] => Ret w
  | rel :: l => let* w := free (rel_mem rel) w in
                let* w := free_node (rel_node rel) w in free_released l w
  end.

Definition ssmem_alloc_term (p : nat) (w : world) : res world :=
  let* a := get_allocator p w in
  let* w := match mem_chunks a with [] => Fault | l => free_chunks l w end in
  let w := with_allocator_list (u64 (ssmem_num_allocators w - 1)) (unlink p (ssmem_allocator_list w)) w in
  let* w := if bool_decide (ssmem_num_allocators w = 0)
            then match ts_of a with Some n => free_node n w | None => Ret w end else Ret w in
  let* w := free_sets (free_set_list a) w in
  let* w := free_sets (collected_set_list a) w in
  let* w := free_sets (available_set_list a) w in
  free_released (released_mem_list a) w.

Fixpoint ssmem_term (fuel : nat) (w : world) : res world :=
  match ssmem_allocator_list w with
  | [] => Ret w
  | (_, p) :: _ => match fuel with
                   | O => Diverge
                   | S fuel => let* w := ssmem_alloc_term p w in ssmem_term fuel w
                   end
  end.
