(* ===== verification/SsmemThm.v ===== *)
(** * What the SSMEM allocator promises, and where it does not deliver

    Objects cut from chunks do not overlap.  The release of memory to the
    system depends on time stamps that the program never advances, on thread
    ids that index arrays, and on a loop that reads a node it just freed. *)
From S2P Require Import Prelude Ssmem.

(** ** Allocation *)
(** An object: where it is, its size and the size of its chunk. *)
Record object : Type := mkObject { obj_block : nat; obj_off : Z; obj_size : Z; obj_chunk : Z }.

Definition inside (o : object) : Prop :=
  0 ≤ obj_off o ∧ obj_off o + obj_size o ≤ obj_chunk o.
Definition apart (o1 o2 : object) : Prop :=
  obj_block o1 ≠ obj_block o2 ∨ obj_off o1 + obj_size o1 ≤ obj_off o2
  ∨ obj_off o2 + obj_size o2 ≤ obj_off o1.

(** Allocating objects of the given sizes, in order. *)
Fixpoint alloc_all (p : nat) (sizes : list Z) (w : world) : res (list object * world) :=
  match sizes with
  | [] => Ret ([], w)
  | size :: sizes =>
      let* '(m, w) := ssmem_alloc p size w in
      let* a := get_allocator p w in
      let* '(os, w) := alloc_all p sizes w in
      match m with
      | PBlock b off => Ret (mkObject b off size (mem_size a) :: os, w)
      | _ => Fault
      end
  end.

Section alloc.
Implicit Types (w : world) (a : ssmem_allocator) (p : nat) (size : Z) (o : object).

(** The allocator at [p] has handed out the objects [os]. *)
Record handed p w (os : list object) : Prop := {
  ha_alloc : ∃ a, allocators w !! p = Some a ∧ collected_set_list a = [] ∧
    (mem a < next_block w)%nat ∧ 0 ≤ mem_curr a ≤ mem_size a ∧ 0 < mem_size a ≤ 2 ^ 33 ∧
    Forall (λ o, obj_block o = mem a → obj_off o + obj_size o ≤ mem_curr a) os;
  ha_old : Forall (λ o, (obj_block o < next_block w)%nat) os;
  ha_inside : Forall inside os;
  ha_apart : ForallOrdPairs apart os
}.

Lemma grow_mem_size_spec fuel msize size :
  0 < msize ≤ SSMEM_MEM_SIZE_MAX → size ≤ SSMEM_MEM_SIZE_MAX → size ≤ msize * 2 ^ Z.of_nat fuel →
  ∃ m, grow_mem_size fuel msize size = Ret m ∧ size ≤ m ≤ 2 ^ 33 ∧ msize ≤ m.
Proof.
  unfold SSMEM_MEM_SIZE_MAX. revert msize. induction fuel as [|fuel IH]; intros msize Hm Hs Hf;
    cbn [grow_mem_size]; (case_bool_decide as Hlt; [|exists msize; split; [done|lia]]).
  - change (Z.of_nat 0) with 0 in Hf. lia.
  - rewrite Z.shiftl_mul_pow2, (wrap_small 64) by lia. change (2 ^ 1) with 2.
    destruct (decide (msize * 2 ≤ 4 * 1024 * 1024 * 1024)).
    + destruct (IH (msize * 2)) as (m & -> & ? & ?); [lia|done| |].
      { rewrite Nat2Z.inj_succ, Z.pow_succ_r in Hf by lia. lia. }
      exists m. split; [done|lia].
    + destruct fuel; cbn [grow_mem_size]; rewrite bool_decide_eq_false_2 by lia;
        (exists (msize * 2); split; [done|lia]).
Qed.

(** A new chunk is fresh and large enough. *)
Lemma ssmem_new_chunk_spec a size w :
  0 < mem_size a ≤ 2 ^ 33 → 0 < size ≤ SSMEM_MEM_SIZE_MAX →
  ∃ a' w', ssmem_new_chunk a size w = Ret (a', w') ∧ mem a' = next_block w ∧
    next_block w' = S (S (next_block w)) ∧ mem_curr a' = 0 ∧ size ≤ mem_size a' ≤ 2 ^ 33 ∧
    collected_set_list a' = collected_set_list a ∧ freed w' = freed w ∧ allocators w' = allocators w.
Proof.
  intros Hm Hs. unfold ssmem_new_chunk. rewrite Z.shiftl_mul_pow2, (wrap_small 64) by lia.
  change (2 ^ 1) with 2.
  set (ms := if bool_decide (SSMEM_MEM_SIZE_MAX < mem_size a * 2) then SSMEM_MEM_SIZE_MAX else mem_size a * 2).
  assert (0 < ms ≤ SSMEM_MEM_SIZE_MAX) as Hms.
  { unfold ms, SSMEM_MEM_SIZE_MAX. case_bool_decide; lia. }
  assert (∃ m, (if bool_decide (ms < size) then grow_mem_size 64 ms size else Ret ms) = Ret m ∧
    size ≤ m ≤ 2 ^ 33) as (m & -> & Hmb).
  { case_bool_decide; [|exists ms; unfold SSMEM_MEM_SIZE_MAX in *; split; [done|lia]].
    destruct (grow_mem_size_spec 64 ms size) as (m & E & ? & _); [done|lia| |eauto].
    unfold SSMEM_MEM_SIZE_MAX in *. change (Z.of_nat 64) with 64. lia. }
  rewrite res_bind_ret. cbn. eexists _, _. split; [done|]. split_and!; done || (cbn; lia).
Qed.

Lemma ssmem_alloc_spec p size w os :
  handed p w os → 0 < size ≤ SSMEM_MEM_SIZE_MAX →
  ∃ b off w' a', ssmem_alloc p size w = Ret (PBlock b off, w') ∧ get_allocator p w' = Ret a' ∧
    handed p w' (mkObject b off size (mem_size a') :: os) ∧ freed w' = freed w.
Proof.
  intros [(a & Ha & Hc & Hb & Hcur & Hms & Hin) Hold Hins Hap] Hs. unfold ssmem_alloc, get_allocator.
  rewrite Ha. cbn [of_option]. rewrite res_bind_ret, Hc.
  assert (SSMEM_MEM_SIZE_MAX = 2 ^ 32) as EM by done.
  rewrite (wrap_small 64 (mem_curr a + size)) by lia. case_bool_decide as Hfull.
  - destruct (ssmem_new_chunk_spec a size w) as (a1 & w1 & -> & Em & En & Ec & Hsz & Hc1 & Hfr & Hal);
      [lia|lia|]. rewrite res_bind_ret, Ec. rewrite (wrap_small 64) by lia.
    eexists _, _, _, _. split; [done|]. cbn. rewrite lookup_insert_eq. split; [done|].
    split; [|done]. split; cbn.
    + eexists. rewrite lookup_insert_eq. split; [done|]. cbn. rewrite Hc1.
      split_and!; [done|lia|lia|lia|lia|lia|].
      constructor; [cbn; lia|]. eapply Forall_impl; [exact Hold|]. cbn. intros o Ho Eo. lia.
    + constructor; [cbn; lia|]. eapply Forall_impl; [exact Hold|]. cbn. lia.
    + constructor; [split; cbn; lia|done].
    + constructor; [|done]. eapply Forall_impl; [exact Hold|]. intros o Ho. left. cbn in *. lia.
  - rewrite res_bind_ret. eexists _, _, _, _. split; [done|]. cbn. rewrite lookup_insert_eq.
    split; [done|]. split; [|done].
    rewrite (wrap_small 64) by lia. split; cbn.
    + eexists. rewrite lookup_insert_eq. split; [done|]. cbn. split_and!; [done|lia|lia|lia|lia|lia|].
      constructor; [cbn; lia|]. eapply Forall_impl; [exact Hin|]. cbn. intros o Ho Eo.
      specialize (Ho Eo). lia.
    + constructor; [done|done].
    + constructor; [split; cbn; lia|done].
    + constructor; [|done]. eapply Forall_impl; [exact Hin|]. intros o Ho. unfold apart. cbn.
      destruct (decide (obj_block o = mem a)) as [E|]; [specialize (Ho E); lia|by left].
Qed.

Lemma alloc_all_spec p sizes w os :
  handed p w os → Forall (λ s, 0 < s ≤ SSMEM_MEM_SIZE_MAX) sizes →
  ∃ os' w', alloc_all p sizes w = Ret (os', w') ∧ length os' = length sizes ∧
    handed p w' (rev os' ++ os) ∧ freed w' = freed w.
Proof.
  intros Hh Hs. revert w os Hh. induction Hs as [|size sizes Hsz Hs IH]; intros w os Hh; cbn [alloc_all].
  { exists [], w. by split_and!. }
  destruct (ssmem_alloc_spec p size w os Hh Hsz) as (b & off & w1 & a1 & -> & Ea & Hh1 & Hf1).
  rewrite res_bind_ret, Ea, res_bind_ret.
  destruct (IH _ _ Hh1) as (os' & w2 & -> & Hl & Hh2 & Hf2). rewrite res_bind_ret.
  eexists _, w2. split; [done|]. split; [cbn; lia|]. split; [|congruence].
  cbn [rev]. by rewrite <- app_assoc.
Qed.

(** A fresh allocator. *)
Lemma alloc_init_handed p size fss id w :
  0 < size ≤ 2 ^ 33 → handed p (ssmem_alloc_init_fs_size p size fss id w) [].
Proof.
  intros Hs. unfold ssmem_alloc_init_fs_size, ssmem_list_node_new, ssmem_gc_thread_init, ssmem_free_set_new.
  cbn. destruct (ssmem_ts_local w) as [n|]; cbn;
    (split; [|constructor..]; eexists; cbn; rewrite lookup_insert_eq; split; [done|]; cbn;
     split_and!; try done; try lia).
Qed.
End alloc.

(** ** Release *)
Section release.
Implicit Types (w : world) (a : ssmem_allocator) (p : nat) (ts : ssmem_ts) (arr : list (option Z)).

Lemma store_length {A} i (x : A) l l' : store i x l = Ret l' → length l' = length l.
Proof.
  unfold store. case_bool_decide; [|done]. intros [= <-]. apply length_insert.
Qed.

(** The loop depends on the world through the freed blocks only. *)
Lemma collect_loop_freed cur arr w1 w2 :
  freed w1 = freed w2 → collect_loop cur arr w1 = collect_loop cur arr w2.
Proof.
  intros Hf. revert arr. induction cur as [|ts cur IH]; intros arr; [done|]. cbn [collect_loop].
  unfold deref. rewrite Hf. case_bool_decide; [done|]. rewrite !res_bind_ret.
  destruct (store (ts_id ts) (ts_version ts) arr); [|done..]. rewrite !res_bind_ret. apply IH.
Qed.

(** An id that is not an index of the array is written outside it. *)
Lemma collect_loop_overflow cur arr w ts :
  ts ∈ cur → Z.of_nat (length arr) ≤ ts_id ts → collect_loop cur arr w = Fault.
Proof.
  intros Hin Hid. revert arr Hid. induction cur as [|t cur IH]; intros arr Hid.
  { by apply elem_of_nil in Hin. }
  cbn [collect_loop]. destruct (deref (ts_node t) w) as [[]| |] eqn:Ed; [|done|].
  2: { unfold deref in Ed. by case_bool_decide. }
  rewrite res_bind_ret. apply elem_of_cons in Hin as [<-|Hin].
  - unfold store. by rewrite bool_decide_eq_false_2 by lia.
  - destruct (store (ts_id t) (ts_version t) arr) as [arr'| |] eqn:Es; [|done|].
    + rewrite res_bind_ret. apply IH; [done|]. by rewrite (store_length _ _ _ _ Es).
    + unfold store in Es. by case_bool_decide.
Qed.

Lemma ssmem_release_overflow p obj w a ts :
  allocators w !! p = Some a → ts ∈ ssmem_ts_list w →
  0 ≤ ssmem_ts_list_len w ≤ ts_id ts → ssmem_release p obj w = Fault.
Proof.
  intros Ha Hin Hid. unfold ssmem_release, get_allocator. rewrite Ha. cbn [of_option].
  rewrite res_bind_ret. cbn -[collect_loop].
  rewrite (collect_loop_overflow _ _ _ ts); [done|done|]. rewrite length_replicate. lia.
Qed.

(** Threads whose ids index the arrays, one of them 0. *)
Record threads_ok w : Prop := {
  th_len : 0 < ssmem_ts_list_len w;
  th_ids : Forall (λ ts, 0 ≤ ts_id ts < ssmem_ts_list_len w) (ssmem_ts_list w);
  th_live : Forall (λ ts, PBlock (ts_node ts) 0 ∉ freed w) (ssmem_ts_list w);
  th_zero : Exists (λ ts, ts_id ts = 0) (ssmem_ts_list w)
}.

Lemma collect_loop_spec cur arr w :
  Forall (λ ts, 0 ≤ ts_id ts < Z.of_nat (length arr)) cur →
  Forall (λ ts, PBlock (ts_node ts) 0 ∉ freed w) cur →
  ∃ arr', collect_loop cur arr w = Ret arr' ∧ length arr' = length arr ∧
    ((∃ v, arr !! 0%nat = Some (Some v)) ∨ Exists (λ ts, ts_id ts = 0) cur →
     ∃ v, arr' !! 0%nat = Some (Some v)).
Proof.
  intros Hid Hl. revert arr Hid. induction Hl as [|ts cur Hts Hl IH]; intros arr Hid.
  { exists arr. split_and!; [done|done|]. intros [?|Hz]; [done|by apply Exists_nil in Hz]. }
  apply Forall_cons in Hid as [Hi Hid]. cbn [collect_loop]. unfold deref.
  rewrite bool_decide_eq_false_2, res_bind_ret by done. unfold store at 1.
  rewrite bool_decide_eq_true_2, res_bind_ret by lia.
  destruct (IH (<[Z.to_nat (ts_id ts) := Some (ts_version ts)]> arr)) as (arr' & E & Hlen & Hz);
    [by rewrite length_insert|]. rewrite length_insert in Hlen.
  exists arr'. split_and!; [exact E|done|]. intros H. apply Hz.
  destruct (decide (ts_id ts = 0)) as [E0|Hne].
  - left. rewrite E0. exists (ts_version ts). apply list_lookup_insert_eq. lia.
  - destruct H as [[v Hv]|[?|?]%Exists_cons]; [|done|by right].
    left. exists v. by rewrite list_lookup_insert_ne by lia.
Qed.

(** Nothing to reclaim: all stamps are the same. *)
Record idle p w arr : Prop := {
  id_alloc : ∃ a fs, allocators w !! p = Some a ∧ free_set_list a = [fs] ∧ fs_ts_set fs = None ∧
    Forall (λ r, rel_ts_set r = arr) (released_mem_list a);
  id_threads : threads_ok w;
  id_stamp : collect_loop (ssmem_ts_list w)
    (replicate (Z.to_nat (ssmem_ts_list_len w)) None) w = Ret arr ∧ ∃ v, arr !! 0%nat = Some (Some v)
}.

Definition released_objs p w : list ptr :=
  match allocators w !! p with Some a => rel_mem <$> released_mem_list a | None => [] end.

Lemma compare_same w arr v :
  0 < ssmem_ts_list_len w → arr !! 0%nat = Some (Some v) → ssmem_ts_compare w arr arr = Ret false.
Proof.
  intros Hl Hv. unfold ssmem_ts_compare. destruct (Z.to_nat (ssmem_ts_list_len w)) eqn:E; [lia|].
  cbn [ts_compare_from]. unfold load. rewrite bool_decide_eq_true_2 by lia.
  change (Z.to_nat 0) with 0%nat. rewrite Hv. cbn. by rewrite bool_decide_eq_true_2 by lia.
Qed.

Lemma set_allocator_id p a w : allocators w !! p = Some a → set_allocator p a w = w.
Proof. intros Ha. unfold set_allocator. destruct w; cbn in *. by rewrite insert_id. Qed.

Lemma reclaim_idle p w arr :
  idle p w arr → released_objs p w ≠ [] → ssmem_mem_reclaim p w = Ret (0, w).
Proof.
  intros [(a & fs & Ha & Hfs & Hts & Hr) [Hlen _ _ _] (_ & v & Hv)] Hne.
  unfold released_objs in Hne. rewrite Ha in Hne.
  unfold ssmem_mem_reclaim, get_allocator. rewrite Ha. cbn [of_option]. rewrite res_bind_ret.
  assert (reclaim_list a w = Ret (a, w)) as ->.
  { unfold reclaim_list. case_bool_decide; [|done].
    destruct (released_mem_list a) as [|r1 [|r2 rs]]; [done|done|].
    apply Forall_cons in Hr as [E1 [E2 _]%Forall_cons]. rewrite E1, E2.
    by rewrite (compare_same w arr v) by done. }
  rewrite res_bind_ret. unfold reclaim_sets. rewrite Hfs, Hts, res_bind_ret.
  by rewrite set_allocator_id by done.
Qed.

(** Releasing an object when no thread has moved on: it is queued, and nothing
    is given back. *)
Lemma ssmem_release_idle p obj w arr :
  idle p w arr → ∃ w', ssmem_release p obj w = Ret w' ∧ idle p w' arr ∧
    freed w' = freed w ∧ released_objs p w' = obj :: released_objs p w.
Proof.
  intros Hidle. pose proof Hidle as [(a & fs & Ha & Hfs & Hts & Hr) Hth (Hc & Hv)].
  unfold ssmem_release, get_allocator. rewrite Ha. cbn [of_option]. rewrite res_bind_ret.
  cbn -[collect_loop set_allocator with_released ssmem_mem_reclaim mbind].
  rewrite (collect_loop_freed _ _ _ w), Hc, res_bind_ret by done.
  set (w1 := set_allocator p _ _).
  assert (idle p w1 arr ∧ freed w1 = freed w ∧ released_objs p w1 = obj :: released_objs p w)
    as (Hidle1 & Hf1 & Ho1).
  { unfold w1, released_objs, set_allocator. cbn. rewrite lookup_insert_eq, Ha. cbn.
    split_and!; [|done|done]. split; [|by destruct Hth|].
    - eexists _, fs. cbn. rewrite lookup_insert_eq. split_and!; [done|done|done|]. by constructor.
    - split; [|done]. cbn. by rewrite (collect_loop_freed _ _ _ w). }
  exists w1. split; [|done]. case_bool_decide; [|done].
  rewrite (reclaim_idle _ _ arr Hidle1) by (by rewrite Ho1). done.
Qed.
End release.

(** Releasing several objects. *)
Fixpoint release_all (p : nat) (objs : list ptr) (w : world) : res world :=
  match objs with
  | [] => Ret w
  | o :: objs => let* w := ssmem_release p o w in release_all p objs w
  end.

Lemma release_all_idle p objs w arr :
  idle p w arr → ∃ w', release_all p objs w = Ret w' ∧ idle p w' arr ∧
    freed w' = freed w ∧ released_objs p w' = rev objs ++ released_objs p w.
Proof.
  revert w. induction objs as [|o objs IH]; intros w Hi; cbn [release_all]; [by eauto|].
  destruct (ssmem_release_idle p o w arr Hi) as (w1 & -> & Hi1 & Hf1 & Ho1). rewrite res_bind_ret.
  destruct (IH w1 Hi1) as (w2 & -> & Hi2 & Hf2 & Ho2).
  exists w2. split_and!; [done|done|congruence|]. rewrite Ho2, Ho1. cbn [rev]. by rewrite <- app_assoc.
Qed.

(** A world in which nothing happened, and one thread of id [id] in it. *)
Definition world0 : world := mkWorld 0 [] [] 0 None 0 [] ∅.
Definition world1 (id : Z) : world := ssmem_alloc_init 7 SSMEM_DEFAULT_MEM_SIZE id world0.

Lemma world1_idle : idle 7 (world1 0) [Some 0].
Proof.
  split.
  - eexists _, _. split; [reflexivity|]. split; [reflexivity|]. split; [reflexivity|].
    apply Forall_nil_2.
  - split; [done|constructor; [by cbn|constructor]|constructor; [apply not_elem_of_nil|constructor]|by constructor].
  - split; [reflexivity|by eexists].
Qed.



(** [ssmem_release] gives nothing back while no time stamp moves (only
    [ssmem_free] advances them): every object released stays in the list. *)
Theorem ssmem_release_never_frees p objs w arr :
  idle p w arr →
  ∃ w', release_all p objs w = Ret w' ∧ freed w' = freed w ∧
    released_objs p w' = rev objs ++ released_objs p w.
Proof.
  intros Hi. destruct (release_all_idle p objs w arr Hi) as (w' & ? & _ & ? & ?). by exists w'.
Qed.

Lemma ssmem_release_never_frees_witness :
  idle 7 (world1 0) [Some 0] ∧
  ∃ w', release_all 7 (PTable <$> seq 0 5) (world1 0) = Ret w' ∧ freed w' = [] ∧
    released_objs 7 w' = rev (PTable <$> seq 0 5) ++ [].
Proof.
  split; [apply world1_idle|]. apply (ssmem_release_never_frees 7 (PTable <$> seq 0 5) (world1 0) _ world1_idle).
Defined.

(** when the stamps of the two newest released objects say that every
    thread has moved on, [ssmem_mem_reclaim] frees the older node and then
    reads the link stored in it. *)
Theorem ssmem_mem_reclaim_reads_freed p w a rel_cur rel_nxt rest :
  allocators w !! p = Some a → released_mem_list a = rel_cur :: rel_nxt :: rest → 0 < released_num a →
  ssmem_ts_compare w (rel_ts_set rel_cur) (rel_ts_set rel_nxt) = Ret true →
  ssmem_mem_reclaim p w = Fault.
Proof.
  intros Ha Hr Hn Hc. unfold ssmem_mem_reclaim, get_allocator. rewrite Ha. cbn [of_option].
  rewrite res_bind_ret. unfold reclaim_list. rewrite bool_decide_eq_true_2, Hr, Hc, res_bind_ret by done.
  assert (reclaim_released rel_nxt rest w = Fault) as ->; [|done].
  assert (∀ w1, (let* w := free_node (rel_node rel_nxt) w1 in
                 let* _ := deref (rel_node rel_nxt) w in
                 match rest with [] => Ret w | rel :: rest => reclaim_released rel rest w end) = Fault) as Hf.
  { intros w1. unfold free_node, free. case_bool_decide; [done|]. rewrite res_bind_ret.
    unfold deref. rewrite bool_decide_eq_true_2 by left. done. }
  destruct rest; cbn [reclaim_released];
    (destruct (free (rel_mem rel_nxt) w) as [w1| |] eqn:E; [apply Hf|done|];
     unfold free in E; by case_bool_decide).
Qed.

(** Two objects released before and after the thread moved on. *)
Definition world_moved : world :=
  match (let* w := ssmem_release 7 (PTable 0) (world1 0) in
         let* w := ssmem_ts_next w in ssmem_release 7 (PTable 1) w) with Ret w => w | _ => world0 end.

Lemma ssmem_mem_reclaim_reads_freed_witness :
  ssmem_mem_reclaim 7 world_moved = Fault ∧
  (∃ a rel_cur rel_nxt, allocators world_moved !! 7%nat = Some a ∧
     released_mem_list a = [rel_cur; rel_nxt]).
Proof.
  split; [|by eexists _, _, _].
  by eapply (ssmem_mem_reclaim_reads_freed 7 world_moved).
Defined.
