(* ===== verification/ClhtGc.v ===== *)
(** * Old versions of the CLHT table ([src/clht_gc.cc])

    A resize leaves the old table behind.  Threads announce the version they
    use in a list of records; [clht_gc_collect] frees the versions nobody uses,
    [clht_gc_release] hands one table to SSMEM, [clht_gc_destroy] frees
    everything.  The variables of the calling thread are part of the state. *)
From S2P Require Import Prelude Ieee Clht Ssmem SsmemThm.

(** The hash table handle, the world of the allocator, and the two variables of
    the thread: [clht_alloc], and [clht_ts_thread] as a position counted from
    the end of [version_list], which grows at its front. *)
Record gc_state : Type := mkGc {
  gc_h : clht;
  gc_w : world;
  clht_alloc : option nat;
  clht_ts_thread : option nat
}.

Definition with_versions (l : list (Z * Z)) (h : clht) : clht :=
  mkClht (ht h) (ht_oldest h) l (version_min h) (resize_lock h) (gc_lock h) (status_lock h)
    (heap h) (released h).
Definition with_gc_lock (l : Z) (h : clht) : clht :=
  mkClht (ht h) (ht_oldest h) (version_list h) (version_min h) (resize_lock h) l (status_lock h)
    (heap h) (released h).
Definition with_oldest (n : nat) (v : Z) (h : clht) : clht :=
  mkClht (ht h) n (version_list h) v (resize_lock h) (gc_lock h) (status_lock h)
    (heap h) (released h).
Definition with_heap (m : gmap nat hashtable) (h : clht) : clht :=
  mkClht (ht h) (ht_oldest h) (version_list h) (version_min h) (resize_lock h) (gc_lock h)
    (status_lock h) m (released h).

(** ** Threads *)
Definition clht_gc_thread_init (id : Z) (g : gc_state) : res gc_state :=
  let '(p, w) := malloc (gc_w g) in
  let w := ssmem_alloc_init_fs_size p SSMEM_DEFAULT_MEM_SIZE SSMEM_GC_FREE_SET_SIZE id w in
  let* hst := get_ht (ht (gc_h g)) (gc_h g) in
  let l := version_list (gc_h g) in
  Ret (mkGc (with_versions ((version hst, id) :: l) (gc_h g)) w (Some p) (Some (length l))).

(** The thread's record in the list, and an update of it. *)
Definition own_index (g : gc_state) : res nat :=
  let* n := of_option (clht_ts_thread g) in
  if bool_decide (n < length (version_list (gc_h g)))%nat
  then Ret (length (version_list (gc_h g)) - S n)%nat else Fault.
Definition set_own_version (v : Z) (g : gc_state) : res gc_state :=
  let* i := own_index g in
  Ret (mkGc (with_versions (alter (λ r : Z * Z, (v, r.2)) i (version_list (gc_h g))) (gc_h g))
         (gc_w g) (clht_alloc g) (clht_ts_thread g)).

Definition clht_gc_thread_version (n : nat) (g : gc_state) : res gc_state :=
  let* hst := get_ht n (gc_h g) in set_own_version (version hst) g.
Definition clht_gc_thread_version_max (g : gc_state) : res gc_state := set_own_version UINT64_MAX g.
Definition clht_gc_get_id (g : gc_state) : res Z :=
  let* i := own_index g in
  let* r := of_option (version_list (gc_h g) !! i) in Ret (s32 r.2).

(** [clht_gc_min_version_used] *)
Fixpoint min_version_loop (cur : list (Z * Z)) (min : Z) : Z :=
  match cur with
  | [] => min
  | (v, _) :: cur => min_version_loop cur (if bool_decide (v < min) then v else min)
  end.
Definition clht_gc_min_version_used (h : clht) : res Z :=
  let* hst := get_ht (ht h) h in Ret (min_version_loop (version_list h) (version hst)).

(** ** The memory of a table *)
(** The overflow buckets in the order the loops visit them, then the bucket
    array and the header. *)
Fixpoint chain_ptrs (n bin : nat) (tb : list (list bucket)) : list ptr :=
  match tb with
  | [] => []
  | c :: tb => (PBucket n bin <$> seq 1 (length c - 1)) ++ chain_ptrs n (S bin) tb
  end.
Definition table_ptrs (n : nat) (hst : hashtable) : list ptr :=
  chain_ptrs n 0 (table hst) ++ [PTable n; PHashtable n].

Fixpoint free_all (l : list ptr) (w : world) : res world :=
  match l with
  | [] => Ret w
  | p :: l => let* w := free p w in free_all l w
  end.

(** [clht_gc_free]: the table is gone from the heap. *)
Definition clht_gc_free (n : nat) (h : clht) (w : world) : res (clht * world) :=
  let* hst := get_ht n h in
  let* w := free_all (table_ptrs n hst) w in
  Ret (with_heap (delete n (heap h)) h, w).

Definition clht_gc_release (n : nat) (g : gc_state) : res gc_state :=
  let* hst := get_ht n (gc_h g) in
  let* p := of_option (clht_alloc g) in
  let* w := release_all p (table_ptrs n hst) (gc_w g) in
  Ret (mkGc (gc_h g) w (clht_alloc g) (clht_ts_thread g)).

(** ** Collection *)
(** The loop over the versions from the oldest on; the number freed so far. *)
Fixpoint collect_versions (fuel : nat) (cur : nat) (version_min gced_num : Z) (h : clht) (w : world)
  : res (nat * Z * clht * world) :=
  let* hst := get_ht cur h in
  if bool_decide (version hst < version_min) then
    match fuel with
    | O => Diverge
    | S fuel =>
        let* nxt := of_option (table_new hst) in
        let* hn := get_ht nxt h in
        let h := set_ht nxt (with_prev None hn) h in
        let* '(h, w) := clht_gc_free cur h w in
        collect_versions fuel nxt version_min (s32 (gced_num + 1)) h w
    end
  else Ret (cur, gced_num, h, w).

(** [clht_gc_collect_cond] *)
Definition clht_gc_collect_cond (fuel : nat) (collect_not_referenced_only : bool) (h : clht) (w : world)
  : res (Z * clht * world) :=
  let* hst := get_ht (ht h) h in
  if bool_decide (version hst ≤ version_min h) then Ret (0, h, w) else
  let was := gc_lock h in
  let h := with_gc_lock 255 h in
  if bool_decide (was ≠ 0) then Ret (0, h, w) else
  let* vmin := if collect_not_referenced_only then clht_gc_min_version_used h else Ret (version hst) in
  if bool_decide (vmin ≤ version_min h) then Ret (0, with_gc_lock LOCK_FREE h, w)
  else
    let* '(cur, gced_num, h, w) := collect_versions fuel (ht_oldest h) vmin 0 h w in
    let* hc := get_ht cur h in
    Ret (gced_num, with_gc_lock LOCK_FREE (with_oldest cur (version hc) h), w).

(** [clht_gc_collect] as it is compiled, with [CLHT_DO_GC] 0. *)
Definition clht_gc_collect (h : clht) : Z := 0.
Definition clht_gc_collect_all (fuel : nat) : clht → world → res (Z * clht * world) :=
  clht_gc_collect_cond fuel false.

(** [clht_gc_destroy]; the structure [clht_alloc] is freed, not terminated. *)
Definition clht_gc_destroy (fuel : nat) (g : gc_state) : res gc_state :=
  let* '(_, h, w) := clht_gc_collect_all fuel (gc_h g) (gc_w g) in
  let* '(h, w) := clht_gc_free (ht h) h w in
  let* w := match clht_alloc g with Some p => free_node p w | None => Ret w end in
  Ret (mkGc h w None (clht_ts_thread g)).
