(* ===== verification/ClhtGcThm.v ===== *)
(** * Which versions are collected

    [links]: the versions from the oldest to the current one, linked by
    [table_new] with growing version numbers.  Collecting frees exactly those
    older than every version announced.  Destroying a table after a resize
    frees memory that was handed to SSMEM as well. *)
From S2P Require Import Prelude Ieee Clht Ssmem SsmemThm ClhtGc.

Fixpoint links (m : gmap nat hashtable) (l : list nat) : Prop :=
  match l with
  | [] => False
  | n :: l =>
      ∃ hst, m !! n = Some hst ∧
        match l with
        | [] => True
        | n' :: _ => (∃ hst', m !! n' = Some hst' ∧ table_new hst = Some n' ∧ version hst < version hst')
                     ∧ links m l
        end
  end.

(** The table a pointer is part of. *)
Definition ptr_table (p : ptr) : option nat :=
  match p with PBucket n _ _ | PTable n | PHashtable n => Some n | PBlock _ _ => None end.

Section collect.
Implicit Types (h : clht) (w : world) (n : nat) (m : gmap nat hashtable) (l : list nat) (p : ptr).

(** ** Freeing one table *)
Lemma elem_of_chain_ptrs p n bin tb :
  p ∈ chain_ptrs n bin tb → ∃ bin' i, p = PBucket n bin' i ∧ (bin ≤ bin')%nat.
Proof.
  revert bin. induction tb as [|c tb IH]; intros bin; cbn [chain_ptrs]; [by rewrite elem_of_nil|].
  rewrite elem_of_app. intros [(i & -> & _)%list_elem_of_fmap|(b & i & -> & ?)%IH].
  - by exists bin, i.
  - exists b, i. split; [done|lia].
Qed.

Lemma chain_ptrs_NoDup n bin tb : NoDup (chain_ptrs n bin tb).
Proof.
  revert bin. induction tb as [|c tb IH]; intros bin; cbn [chain_ptrs]; [constructor|].
  apply NoDup_app. split_and!; [apply NoDup_fmap_2; [intros ? ? [=]; done|apply NoDup_seq]| |done].
  intros p (i & -> & _)%list_elem_of_fmap (b & j & E & ?)%elem_of_chain_ptrs.
  injection E as E _. lia.
Qed.

Lemma table_ptrs_NoDup n hst : NoDup (table_ptrs n hst).
Proof.
  unfold table_ptrs. apply NoDup_app. split_and!; [apply chain_ptrs_NoDup| |].
  - intros p (b & i & -> & _)%elem_of_chain_ptrs. rewrite !elem_of_cons, elem_of_nil. naive_solver.
  - repeat constructor; set_solver.
Qed.

Lemma table_ptrs_tag p n hst : p ∈ table_ptrs n hst → ptr_table p = Some n.
Proof.
  unfold table_ptrs. rewrite elem_of_app. intros [(b & i & -> & _)%elem_of_chain_ptrs|Hp]; [done|].
  rewrite !elem_of_cons, elem_of_nil in Hp. by destruct Hp as [->|[->|[]]].
Qed.

Lemma free_all_spec ps w :
  NoDup ps → (∀ p, p ∈ ps → p ∉ freed w) →
  ∃ w', free_all ps w = Ret w' ∧ freed w' = rev ps ++ freed w ∧ allocators w' = allocators w.
Proof.
  revert w. induction ps as [|p ps IH]; intros w Hnd Hf; cbn [free_all]; [by exists w|].
  apply NoDup_cons in Hnd as [Hp Hnd]. unfold free.
  rewrite bool_decide_eq_false_2, res_bind_ret by (apply Hf; left).
  destruct (IH (with_freed (p :: freed w) w) Hnd) as (w' & -> & Hw' & Ha).
  { intros q Hq. cbn. rewrite elem_of_cons. intros [->|?]; [done|]. by apply (Hf q); [right|]. }
  exists w'. split; [done|]. split; [|done]. rewrite Hw'. cbn. by rewrite <- app_assoc.
Qed.

Lemma get_ht_some n h hst : heap h !! n = Some hst → get_ht n h = Ret hst.
Proof. intros E. unfold get_ht. by rewrite E. Qed.

(** No part of the tables [l] has been freed. *)
Definition alive w l : Prop := ∀ p n, p ∈ freed w → ptr_table p = Some n → n ∉ l.

Lemma clht_gc_free_spec n h w hst l :
  heap h !! n = Some hst → alive w (n :: l) → n ∉ l →
  ∃ w', clht_gc_free n h w = Ret (with_heap (delete n (heap h)) h, w') ∧
    freed w' = rev (table_ptrs n hst) ++ freed w ∧ alive w' l ∧ allocators w' = allocators w.
Proof.
  intros Hn Hal Hnl. unfold clht_gc_free. rewrite (get_ht_some _ _ _ Hn), res_bind_ret.
  destruct (free_all_spec (table_ptrs n hst) w) as (w' & -> & Hf & Ha); [apply table_ptrs_NoDup| |].
  { intros p Hp Hpf. apply (Hal p n Hpf); [by eapply table_ptrs_tag|left]. }
  exists w'. split_and!; [done|done| |done]. intros p n' Hp Ht Hin. rewrite Hf in Hp.
  apply elem_of_app in Hp as [Hp%list_elem_of_In%in_rev%list_elem_of_In%table_ptrs_tag|Hp].
  - congruence.
  - apply (Hal p n' Hp Ht). by right.
Qed.

(** ** The chain of versions *)
Lemma links_frame m m' l :
  links m l →
  (∀ n hst, n ∈ l → m !! n = Some hst →
     ∃ hst', m' !! n = Some hst' ∧ version hst' = version hst ∧ table_new hst' = table_new hst) →
  links m' l.
Proof.
  induction l as [|n l IH]; [done|]. cbn [links]. intros (hst & Hn & Hl) Hm.
  destruct (Hm n hst) as (hst' & Hn' & Hv & Ht); [left|done|]. exists hst'. split; [done|].
  destruct l as [|n1 l]; [done|]. destruct Hl as [(h1 & H1 & Hl1 & Hlt) Hl].
  destruct (Hm n1 h1) as (h1' & H1' & Hv1 & _); [right; left|done|].
  split; [exists h1'; split_and!; [done|congruence|lia]|].
  apply IH; [done|]. intros n0 hst0 Hin. apply Hm. by right.
Qed.

Lemma links_versions m n l hst :
  links m (n :: l) → m !! n = Some hst →
  ∀ n', n' ∈ l → ∃ hst', m !! n' = Some hst' ∧ version hst < version hst'.
Proof.
  revert n hst. induction l as [|n1 l IH]; intros n hst Hl Hn n' Hin; [by apply elem_of_nil in Hin|].
  destruct Hl as (hst0 & Hn0 & (h1 & H1 & _ & Hlt) & Hl). simplify_eq.
  apply elem_of_cons in Hin as [->|Hin]; [by exists h1|].
  destruct (IH n1 h1 Hl H1 n' Hin) as (h' & ? & ?). exists h'. split; [done|lia].
Qed.

Lemma links_elem m n l n' : links m (n :: l) → n' ∈ n :: l → ∃ hst, m !! n' = Some hst.
Proof.
  intros Hl [->|Hin]%elem_of_cons; pose proof Hl as (hst & Hn & _); [by exists hst|].
  destruct (links_versions _ _ _ _ Hl Hn n' Hin) as (hs & ? & _). by exists hs.
Qed.

(** The last version is the newest. *)
Lemma links_before_last m n l e n' hn he :
  links m (n :: l) → last (n :: l) = Some e → n' ∈ n :: l → n' ≠ e →
  m !! n' = Some hn → m !! e = Some he → version hn < version he.
Proof.
  revert n. induction l as [|n1 l IH]; intros n Hl Hlast Hin Hne Hn' He.
  { cbn in Hlast. apply list_elem_of_singleton in Hin. congruence. }
  apply elem_of_cons in Hin as [->|Hin].
  - destruct (links_versions _ _ _ _ Hl Hn' e) as (hs & ? & ?); [|by simplify_eq].
    apply last_Some_elem_of. exact Hlast.
  - destruct Hl as (? & _ & _ & Hl). by apply (IH n1).
Qed.

Lemma links_fresh m n l : links m (n :: l) → n ∉ l.
Proof.
  intros Hl Hin. pose proof Hl as (hst & Hn & _).
  destruct (links_versions m n l hst Hl Hn n Hin) as (hst' & ? & ?). simplify_eq. lia.
Qed.

(** What freeing tables does to the allocator's world. *)
Definition freed_tables l w w' : Prop :=
  allocators w' = allocators w ∧ (∀ p, p ∈ freed w → p ∈ freed w') ∧
  (∀ n, n ∈ l → PHashtable n ∈ freed w') ∧
  (∀ p, p ∈ freed w' → ptr_table p = None → p ∈ freed w).

Lemma freed_tables_nil w : freed_tables [] w w.
Proof. split_and!; [done|done|by intros n' ?%elem_of_nil|done]. Qed.

Lemma freed_tables_cons n l w w1 w' :
  freed_tables [n] w w1 → freed_tables l w1 w' → freed_tables (n :: l) w w'.
Proof.
  intros (A1 & F1 & P1 & Q1) (A2 & F2 & P2 & Q2). split_and!; [congruence|auto| |auto].
  intros n' [->|?]%elem_of_cons; [apply F2, P1; left|auto].
Qed.

Lemma free_freed_tables n hst w w' :
  freed w' = rev (table_ptrs n hst) ++ freed w → allocators w' = allocators w → freed_tables [n] w w'.
Proof.
  intros Hf Ha. split; [done|]. rewrite Hf. split_and!.
  - intros p Hp. apply elem_of_app. by right.
  - intros n' ->%list_elem_of_singleton. apply elem_of_app. left.
    apply list_elem_of_In. rewrite <- in_rev. apply list_elem_of_In. unfold table_ptrs.
    apply elem_of_app. right. right. left.
  - intros p [Hp%list_elem_of_In%in_rev%list_elem_of_In%table_ptrs_tag|?]%elem_of_app Ht; congruence.
Qed.

(** One step of the collection: the oldest version is freed and unlinked. *)
Definition drop_oldest (n n1 : nat) (h1 : hashtable) h : clht :=
  let h' := set_ht n1 (with_prev None h1) h in with_heap (delete n (heap h')) h'.

Lemma drop_oldest_heap n n1 (h1 : hashtable) h n' hs :
  n' ≠ n → heap h !! n1 = Some h1 → heap h !! n' = Some hs →
  ∃ hs', heap (drop_oldest n n1 h1 h) !! n' = Some hs' ∧ version hs' = version hs ∧
         table_new hs' = table_new hs.
Proof.
  intros Hne H1 Hs. cbn. rewrite lookup_delete_ne by done.
  destruct (decide (n' = n1)) as [->|]; [rewrite lookup_insert_eq|rewrite lookup_insert_ne by done].
  - simplify_eq. by eexists.
  - by exists hs.
Qed.

Lemma collect_step l n n1 vmin num h w fuel hst :
  links (heap h) (n :: n1 :: l) → alive w (n :: n1 :: l) → heap h !! n = Some hst →
  version hst < vmin → - 2 ^ 31 ≤ num + 1 < 2 ^ 31 →
  ∃ (h1 : hashtable) w1, heap h !! n1 = Some h1 ∧ alive w1 (n1 :: l) ∧ freed_tables [n] w w1 ∧
    links (heap (drop_oldest n n1 h1 h)) (n1 :: l) ∧
    collect_versions (S fuel) n vmin num h w
      = collect_versions fuel n1 vmin (num + 1) (drop_oldest n n1 h1 h) w1.
Proof.
  intros Hl Hal Hn Hd Hnum. pose proof (links_fresh _ _ _ Hl) as Hfr.
  destruct Hl as (hst0 & Hn0 & (h1 & H1 & Ht & Hlt) & Hl1). simplify_eq.
  assert (n ≠ n1) as Hne by (intros ->; apply Hfr; left).
  destruct (clht_gc_free_spec n (set_ht n1 (with_prev None h1) h) w hst0 (n1 :: l)) as (w1 & E & Hfw & Hal1 & Haw);
    [cbn; by rewrite lookup_insert_ne|done|done|].
  exists h1, w1. split_and!; [done|done| | |].
  - by eapply free_freed_tables.
  - eapply links_frame; [exact Hl1|]. intros n' hs Hin. apply drop_oldest_heap; [|done].
    intros ->. by apply Hfr.
  - cbn [collect_versions]. rewrite (get_ht_some _ _ _ Hn0).
    rewrite res_bind_ret, bool_decide_eq_true_2, Ht by done. cbn [of_option]. rewrite res_bind_ret.
    rewrite (get_ht_some _ _ _ H1), res_bind_ret, E, res_bind_ret.
    rewrite s32_small by lia. done.
Qed.

(** The versions below [vmin] are freed, and the others stay linked. *)
Lemma collect_versions_spec l n vmin num h w fuel e he :
  links (heap h) (n :: l) → alive w (n :: l) → (length l < fuel)%nat →
  last (n :: l) = Some e → heap h !! e = Some he → vmin ≤ version he →
  - 2 ^ 31 ≤ num → num + Z.of_nat (length l) < 2 ^ 31 →
  ∃ l1 c l2 h' w', n :: l = l1 ++ c :: l2 ∧
    collect_versions fuel n vmin num h w = Ret (c, num + Z.of_nat (length l1), h', w') ∧
    links (heap h') (c :: l2) ∧ alive w' (c :: l2) ∧
    (∀ n', n' ∈ l1 → heap h' !! n' = None ∧ ∃ hst, heap h !! n' = Some hst ∧ version hst < vmin) ∧
    (∀ n' hs, n' ∈ c :: l2 → heap h !! n' = Some hs →
       vmin ≤ version hs ∧ ∃ hs', heap h' !! n' = Some hs' ∧ version hs' = version hs) ∧
    (∀ n', n' ∉ n :: l → heap h' !! n' = heap h !! n') ∧ freed_tables l1 w w' ∧
    h' = with_heap (heap h') h.
Proof.
  revert n num h w fuel he. induction l as [|n1 l IH]; intros n num h w fuel he Hl Hal Hf Hlast He Hv Hlo Hnum;
    pose proof Hl as (hst & Hn & Hl'); destruct (decide (version hst < vmin)) as [Hd|Hd].
  - cbn in Hlast. simplify_eq. lia.
  - exists [], n, [], h, w. destruct fuel; [cbn in Hf; lia|]. cbn [collect_versions].
    rewrite (get_ht_some _ _ _ Hn), res_bind_ret, bool_decide_eq_false_2 by lia.
    split_and!; [done|by rewrite Z.add_0_r|done|done|by intros n' ?%elem_of_nil| |done| |by destruct h];
      [|apply freed_tables_nil].
    intros n' hs ->%list_elem_of_singleton ?. simplify_eq. split; [lia|by exists hst].
  - destruct fuel as [|fuel]; [cbn in Hf; lia|]. cbn [length] in Hnum, Hf.
    destruct (collect_step l n n1 vmin num h w fuel hst Hl Hal Hn Hd) as (h1 & w1 & H1 & Hal1 & Hft & Hl1 & ->); [lia|].
    pose proof (links_fresh _ _ _ Hl) as Hfr.
    assert (last (n1 :: l) = Some e) as Hlast1 by exact Hlast.
    assert (e ∈ n1 :: l) as Hein by (by apply last_Some_elem_of).
    destruct (drop_oldest_heap n n1 h1 h e he) as (he' & He' & Hve & _);
      [by intros ->; apply Hfr|done|done|].
    destruct (IH n1 (num + 1) _ w1 fuel he' Hl1 Hal1) as
      (l1 & c & l2 & h' & w' & E & -> & Hl2 & Hal2 & Hdel & Hkeep & Hout & Hft2 & Eh); [lia|done|done|lia|lia|lia|].
    exists (n :: l1), c, l2, h', w'. split; [cbn; by rewrite E|].
    split; [cbn [length]; by replace (num + Z.of_nat (S (length l1))) with (num + 1 + Z.of_nat (length l1)) by lia|]. split; [done|]. split; [done|].
    assert (∀ n', n' ∈ n1 :: l → n' ≠ n) as Hneq by (intros n' Hin ->; by apply Hfr).
    split_and!.
    + intros n' [->|Hin]%elem_of_cons.
      * split; [|by exists hst]. rewrite Hout by done. apply lookup_delete_eq.
      * destruct (Hdel n' Hin) as (? & hd & Hd1 & ?). split; [done|].
        assert (n' ∈ n1 :: l) as Hin' by (rewrite E; apply elem_of_app; by left).
        destruct (links_elem _ _ _ n' Hl) as (hs & Hs); [by right|].
        destruct (drop_oldest_heap n n1 h1 h n' hs) as (hs' & ? & ? & _); [by apply Hneq|done|done|].
        simplify_eq. exists hs. split; [done|lia].
    + intros n' hs Hin Hs.
      destruct (drop_oldest_heap n n1 h1 h n' hs) as (hs1 & Hs1 & Hv1 & _); [|done|done|].
      { apply Hneq. rewrite E. apply elem_of_app. by right. }
      destruct (Hkeep n' hs1 Hin Hs1) as (? & hs2 & ? & ?). split; [lia|].
      exists hs2. split; [done|lia].
    + intros n' Hn'. rewrite elem_of_cons in Hn'. rewrite Hout by tauto.
      cbn. rewrite lookup_delete_ne by (intros ->; tauto).
      rewrite lookup_insert_ne; [done|]. intros ->. apply Hn'. right. left.
    + by eapply freed_tables_cons.
    + rewrite Eh. done.
  - exists [], n, (n1 :: l), h, w. destruct fuel; [cbn in Hf; lia|]. cbn [collect_versions].
    rewrite (get_ht_some _ _ _ Hn), res_bind_ret, bool_decide_eq_false_2 by lia.
    split_and!; [done|by rewrite Z.add_0_r|done|done|by intros n' ?%elem_of_nil| |done| |by destruct h];
      [|apply freed_tables_nil].
    intros n' hs [->|Hin]%elem_of_cons Hs; [simplify_eq; split; [lia|by exists hst]|].
    destruct (links_versions _ _ _ _ Hl Hn n' Hin) as (hs' & ? & ?). simplify_eq.
    split; [lia|by exists hs].
Qed.
(** ** The versions in use *)
Lemma min_version_loop_spec cur v :
  min_version_loop cur v ≤ v ∧ Forall (λ r : Z * Z, min_version_loop cur v ≤ r.1) cur.
Proof.
  revert v. induction cur as [|[x i] cur IH]; intros v; cbn [min_version_loop]; [by split|].
  case_bool_decide; destruct (IH x) as [H1 H2], (IH v) as [H3 H4]; (split; [lia|]);
    constructor; try done; cbn; lia.
Qed.

(** A version is older than what the loop returns if it is older than each. *)
Lemma min_version_loop_lt x cur v : x < min_version_loop cur v ↔ x < v ∧ Forall (λ r : Z * Z, x < r.1) cur.
Proof.
  revert v. induction cur as [|[y i] cur IH]; intros v; cbn [min_version_loop]; [rewrite Forall_nil; tauto|].
  rewrite IH, Forall_cons. cbn [fst]. case_bool_decide; intuition lia.
Qed.

(** The handle before a collection: its versions are linked from the oldest to
    the current one, and [version_min] is that of the oldest. *)
Record gc_ok h w l : Prop := {
  gc_links : links (heap h) (ht_oldest h :: l);
  gc_last : last (ht_oldest h :: l) = Some (ht h);
  gc_alive : alive w (ht_oldest h :: l);
  gc_min : version <$> heap h !! ht_oldest h = Some (version_min h);
  gc_free : gc_lock h = LOCK_FREE;
  gc_short : Z.of_nat (length l) < 2 ^ 31
}.

Lemma gc_current h w l : gc_ok h w l → ∃ hst, heap h !! ht h = Some hst.
Proof.
  intros [Hl Hlast _ _ _ _]. apply (links_elem _ _ _ (ht h) Hl). by apply last_Some_elem_of.
Qed.

(** No version of the chain is older than [version_min]. *)
Lemma gc_version_min h w l n hst :
  gc_ok h w l → n ∈ ht_oldest h :: l → heap h !! n = Some hst → version_min h ≤ version hst.
Proof.
  intros [Hl _ _ Hm _ _] Hin Hn. pose proof Hl as (ho & Ho & _). rewrite Ho in Hm. injection Hm as Hm.
  apply elem_of_cons in Hin as [->|Hin]; [simplify_eq; lia|].
  destruct (links_versions _ _ _ _ Hl Ho n Hin) as (hs & ? & ?). simplify_eq. lia.
Qed.

Lemma collect_cond_spec fuel (unused_only : bool) h w l hst vmin :
  gc_ok h w l → (length l < fuel)%nat → heap h !! ht h = Some hst →
  vmin = (if unused_only then min_version_loop (version_list h) (version hst) else version hst) →
  ∃ l1 l2 h' w', ht_oldest h :: l = l1 ++ l2 ∧
    clht_gc_collect_cond fuel unused_only h w = Ret (Z.of_nat (length l1), h', w') ∧
    links (heap h') l2 ∧ last l2 = Some (ht h) ∧ alive w' l2 ∧ ht h' = ht h ∧
    (∀ n, n ∈ l1 → heap h' !! n = None ∧ ∃ hs, heap h !! n = Some hs ∧ version hs < vmin) ∧
    (∀ n hs, n ∈ l2 → heap h !! n = Some hs → vmin ≤ version hs) ∧ freed_tables l1 w w'.
Proof.
  intros Hok Hf Hn Evm. pose proof Hok as [Hl Hlast Hal Hm Hg Hsh].
  assert (vmin ≤ version hst) as Hvm.
  { rewrite Evm. destruct unused_only; [apply min_version_loop_spec|done]. }
  assert (vmin ≤ version_min h →
    ∃ l1 l2, ht_oldest h :: l = l1 ++ l2 ∧ length l1 = 0%nat ∧
      links (heap h) l2 ∧ last l2 = Some (ht h) ∧ alive w l2 ∧
      (∀ n, n ∈ l1 → heap h !! n = None ∧ ∃ hs, heap h !! n = Some hs ∧ version hs < vmin) ∧
      (∀ n hs, n ∈ l2 → heap h !! n = Some hs → vmin ≤ version hs) ∧ freed_tables l1 w w) as Hnone.
  { intros Hle. exists [], (ht_oldest h :: l). split_and!; [done..|by intros n ?%elem_of_nil| |].
    - intros n hs Hin Hs. pose proof (gc_version_min h w l n hs Hok Hin Hs). lia.
    - apply freed_tables_nil. }
  unfold clht_gc_collect_cond. rewrite (get_ht_some _ _ _ Hn), res_bind_ret.
  case_bool_decide as Hcur.
  { destruct Hnone as (l1 & l2 & ? & E & ? & ? & ? & ? & ? & ?); [lia|].
    exists l1, l2, h, w. rewrite E. by split_and!. }
  rewrite Hg, bool_decide_eq_false_2 by (intros []; done).
  assert ((if unused_only then clht_gc_min_version_used (with_gc_lock 255 h) else Ret (version hst))
    = Ret vmin) as ->.
  { rewrite Evm. destruct unused_only; [|done]. unfold clht_gc_min_version_used.
    change (get_ht (ht (with_gc_lock 255 h)) (with_gc_lock 255 h)) with (get_ht (ht h) h).
    by rewrite (get_ht_some _ _ _ Hn), res_bind_ret. }
  rewrite res_bind_ret. change (version_min (with_gc_lock 255 h)) with (version_min h).
  case_bool_decide as Hle.
  { destruct (Hnone Hle) as (l1 & l2 & ? & E & ? & ? & ? & ? & ? & ?).
    exists l1, l2, (with_gc_lock LOCK_FREE (with_gc_lock 255 h)), w. rewrite E. by split_and!. }
  change (ht_oldest (with_gc_lock 255 h)) with (ht_oldest h).
  destruct (collect_versions_spec l (ht_oldest h) vmin 0 (with_gc_lock 255 h) w fuel (ht h) hst)
    as (l1 & c & l2 & h' & w' & E & -> & Hl2 & Hal2 & Hdel & Hkeep & _ & Hft & Eh);
    [done|done|done|done|done|done|lia|lia|].
  pose proof Hl2 as (hc & Hc & _). rewrite res_bind_ret, (get_ht_some _ _ _ Hc), res_bind_ret.
  rewrite Z.add_0_l. eexists l1, (c :: l2), _, w'.
  split; [done|]. split; [done|]. split; [done|].
  split; [by rewrite E, last_app in Hlast; destruct (last (c :: l2)) eqn:El; [|by apply last_None in El]|].
  split; [done|]. split; [by rewrite Eh|]. split; [done|]. split; [|done].
  intros n hs Hin Hs. by apply (Hkeep n hs).
Qed.
End collect.

(** ** The properties *)
(** C26: On a handle whose versions are linked from the oldest to the current
    one, none of them freed yet, and whose collector is not running,
    [clht_gc_collect_cond] for unused versions terminates and frees a table if
    and only if its version is older than that of the current table and than
    every version a thread has announced; it returns how many it freed. The rest
    stay linked up to the current table, which is never freed. *)
Theorem clht_gc_collects_unused fuel h w l hst :
  gc_ok h w l → (length l < fuel)%nat → heap h !! ht h = Some hst →
  ∃ l1 l2 h' w', ht_oldest h :: l = l1 ++ l2 ∧
    clht_gc_collect_cond fuel true h w = Ret (Z.of_nat (length l1), h', w') ∧
    (∀ n hs, n ∈ ht_oldest h :: l → heap h !! n = Some hs →
       n ∈ l1 ↔ version hs < version hst ∧ Forall (λ r : Z * Z, version hs < r.1) (version_list h)) ∧
    (∀ n, n ∈ l1 → heap h' !! n = None ∧ PHashtable n ∈ freed w') ∧
    links (heap h') l2 ∧ last l2 = Some (ht h') ∧ ht h' = ht h.
Proof.
  intros Hok Hf Hn. destruct (collect_cond_spec fuel true h w l hst _ Hok Hf Hn eq_refl)
    as (l1 & l2 & h' & w' & E & Ec & Hl & Hlast & _ & Hht & Hdel & Hkeep & _ & _ & Hfr & _).
  exists l1, l2, h', w'. rewrite Hht. split; [done|]. split; [done|]. split; [|split_and!; [|done..]].
  - intros n hs Hin Hs. rewrite <- min_version_loop_lt. split.
    + intros Hin1. destruct (Hdel n Hin1) as (_ & hs' & Hs' & ?). by simplify_eq.
    + intros Hlt. rewrite E, elem_of_app in Hin. destruct Hin as [?|Hin]; [done|]. specialize (Hkeep n hs Hin Hs). lia.
  - intros n Hin. split; [by apply Hdel|by apply Hfr].
Qed.

(** C40: [clht_gc_destroy] frees the old tables that the resizes had already
    handed to [ssmem_release]: they stay in that list, and freeing them from
    there is a double free. *)
Theorem clht_gc_destroy_double_free fuel g l p old :
  gc_ok (gc_h g) (gc_w g) l → (length l < fuel)%nat →
  clht_alloc g = Some p → PBlock p 0 ∉ freed (gc_w g) →
  old ∈ ht_oldest (gc_h g) :: l → old ≠ ht (gc_h g) → PHashtable old ∈ released_objs p (gc_w g) →
  ∃ g', clht_gc_destroy fuel g = Ret g' ∧ PHashtable old ∈ released_objs p (gc_w g') ∧
    free (PHashtable old) (gc_w g') = Fault.
Proof.
  intros Hok Hf Hp Hpl Hin Hne Hrel. destruct g as [h w ca ct]. cbn in *. subst ca.
  destruct (gc_current _ _ _ Hok) as (hst & Hn).
  destruct (collect_cond_spec fuel false h w l hst _ Hok Hf Hn eq_refl)
    as (l1 & l2 & h' & w' & E & Ec & Hl2 & Hlast & Hal & Hht & Hdel & Hkeep & Hft).
  unfold clht_gc_destroy, clht_gc_collect_all. cbn. rewrite Ec, res_bind_ret, Hht.
  assert (old ∈ l1) as Hold.
  { rewrite E in Hin. apply elem_of_app in Hin as [?|Hin]; [done|].
    assert (old ∈ ht_oldest h :: l) as Hin' by (rewrite E; apply elem_of_app; by right).
    destruct (links_elem _ _ _ old (gc_links _ _ _ Hok) Hin') as (ho & Ho).
    pose proof (Hkeep old ho Hin Ho).
    pose proof (links_before_last _ _ _ _ old ho hst (gc_links _ _ _ Hok) (gc_last _ _ _ Hok) Hin' Hne Ho Hn).
    lia. }
  destruct l2 as [|c l2]; [done|].
  pose proof (last_Some_elem_of _ _ Hlast) as Hht2.
  destruct (links_elem _ _ _ _ Hl2 Hht2) as (hc & Hc).
  destruct (clht_gc_free_spec (ht h) h' w' hc [] Hc) as (w2 & -> & Hf2 & _ & Ha2);
    [|apply not_elem_of_nil|].
  { intros q n Hq Ht ->%list_elem_of_singleton. by apply (Hal q (ht h)). }
  pose proof (free_freed_tables _ _ _ _ Hf2 Ha2) as Hft2.
  destruct (freed_tables_cons _ _ _ _ _ Hft2 (freed_tables_nil _)) as (Ha3 & Hin3 & _ & Hblk3).
  destruct Hft as (Ha1 & Hin1 & Hp1 & Hblk1).
  rewrite res_bind_ret. unfold free_node, free at 1. rewrite bool_decide_eq_false_2, res_bind_ret by auto.
  eexists. split; [done|]. cbn. split.
  - unfold released_objs. cbn. by rewrite Ha3, Ha1.
  - unfold free. rewrite bool_decide_eq_true_2; [done|]. cbn. right. auto.
Qed.

(** A table that was resized once, its old version handed to SSMEM by a thread
    of id 0. *)
Definition uninit0 : Z → Z → UInt24_t * Z * (Z * Z * Z) := λ _ _, ((0, 0, 0), 0, (0, 0, 0)).
Definition gc_resized : res gc_state :=
  let* h := of_option (clht_create 1) in
  let* g := clht_gc_thread_init 0 (mkGc h world0 None None) in
  let* '(_, h) := clht_put uninit0 5 1 11 0 (gc_h g) in
  let* '(_, h) := clht_put uninit0 5 2 22 0 h in
  let* '(_, h) := clht_put uninit0 5 3 33 0 h in
  let* '(_, h) := clht_put uninit0 5 4 44 0 h in
  clht_gc_release 0 (mkGc h (gc_w g) (clht_alloc g) (clht_ts_thread g)).
Definition gc0 : gc_state :=
  match gc_resized with Ret g => g | _ => mkGc (mkClht 0 0 [] 0 0 0 0 ∅ []) world0 None None end.
Definition gc1 : gc_state :=
  match clht_gc_thread_version 1 gc0 with Ret g => g | _ => gc0 end.

Lemma gc0_ok : gc_ok (gc_h gc0) (gc_w gc0) [1%nat].
Proof.
  split; [|reflexivity| |reflexivity|reflexivity|done].
  - eexists. split; [vm_compute; reflexivity|]. split; [|eexists; split; [vm_compute; reflexivity|done]].
    eexists. split; [vm_compute; reflexivity|]. by split.
  - intros p n Hp. vm_compute in Hp. by apply elem_of_nil in Hp.
Qed.

Lemma gc1_ok : gc_ok (gc_h gc1) (gc_w gc1) [1%nat].
Proof.
  split; [|reflexivity| |reflexivity|reflexivity|done].
  - eexists. split; [vm_compute; reflexivity|]. split; [|eexists; split; [vm_compute; reflexivity|done]].
    eexists. split; [vm_compute; reflexivity|]. by split.
  - intros p n Hp. vm_compute in Hp. by apply elem_of_nil in Hp.
Qed.

Lemma clht_gc_collects_unused_witness :
  (∃ h' w', clht_gc_collect_cond 3 true (gc_h gc1) (gc_w gc1) = Ret (1, h', w')) ∧
  ∃ hst, heap (gc_h gc1) !! ht (gc_h gc1) = Some hst ∧
  ∃ l1 l2 h' w', ht_oldest (gc_h gc1) :: [1%nat] = l1 ++ l2 ∧
    clht_gc_collect_cond 3 true (gc_h gc1) (gc_w gc1) = Ret (Z.of_nat (length l1), h', w') ∧
    (∀ n hs, n ∈ ht_oldest (gc_h gc1) :: [1%nat] → heap (gc_h gc1) !! n = Some hs →
       n ∈ l1 ↔ version hs < version hst ∧ Forall (λ r : Z * Z, version hs < r.1) (version_list (gc_h gc1))) ∧
    (∀ n, n ∈ l1 → heap h' !! n = None ∧ PHashtable n ∈ freed w') ∧
    links (heap h') l2 ∧ last l2 = Some (ht h') ∧ ht h' = ht (gc_h gc1).
Proof.
  split; [eexists _, _; vm_compute; reflexivity|].
  eexists. split; [vm_compute; reflexivity|].
  eapply (clht_gc_collects_unused 3 (gc_h gc1) (gc_w gc1) [1%nat]); [apply gc1_ok|cbn; lia|].
  vm_compute. reflexivity.
Defined.

Lemma clht_gc_destroy_double_free_witness :
  released_objs 0 (gc_w gc0) = [PHashtable 0; PTable 0; PBucket 0 0 1] ∧
  ∃ g', clht_gc_destroy 3 gc0 = Ret g' ∧ PHashtable 0 ∈ released_objs 0 (gc_w g') ∧
    free (PHashtable 0) (gc_w g') = Fault.
Proof.
  split; [vm_compute; reflexivity|].
  apply (clht_gc_destroy_double_free 3 gc0 [1%nat] 0 0); [apply gc0_ok|cbn; lia|reflexivity|..].
  - vm_compute. apply not_elem_of_nil.
  - left.
  - vm_compute. discriminate.
  - vm_compute. left.
Defined.
