(* ===== verification/SwTable.v ===== *)
(** * The SW-Table ([src/swtable.h])

    The wrapper that EPLI caches with: one CLHT table, the SSMEM allocator its
    resizes release old tables to, and a logical clock.  A resize inside
    [clht_put] queues the old table in the field [released] of the handle; the
    table is handed to [clht_gc_release] when the call returns. *)
From S2P Require Import Prelude Ieee Clht ClhtInv ClhtSpec ClhtResize ClhtStatus ClhtThm Ssmem SsmemThm ClhtGc ClhtGcThm.

Definition num_buckets0 : Z := 16384.

Record SWTable : Type := mkSWTable { num_threads : Z; hashtable : gc_state; lt : Z }.

(** Each round of resizing doubles the table, which holds less than [2 ^ 32]
    pairs: 33 rounds are enough. *)
Definition put_fuel : nat := 33.

Section swtable.
Context (uninit : Z → Z → UInt24_t * Z * (Z * Z * Z)).
Implicit Types (tb : SWTable) (g : gc_state) (key val : Z).

Definition with_h (h : clht) g : gc_state := mkGc h (gc_w g) (clht_alloc g) (clht_ts_thread g).
Definition with_g g tb : SWTable := mkSWTable (num_threads tb) g (lt tb).

(** [Init], in the process state [w]; [id] is what [SYS_getgid] returns and
    [lt0] what the constructor leaves in [lt]. *)
Definition SWTable_Init (id lt0 : Z) (w : world) : res SWTable :=
  let* h := of_option (clht_create num_buckets0) in
  let id := u32 id in
  let* g := clht_gc_thread_init (s32 id) (mkGc h w None None) in
  let '(alloc, w) := malloc (gc_w g) in
  let w := ssmem_alloc_init_fs_size alloc SSMEM_DEFAULT_MEM_SIZE SSMEM_GC_FREE_SET_SIZE (s32 id) w in
  Ret (mkSWTable 1 (mkGc (gc_h g) w (clht_alloc g) (clht_ts_thread g)) lt0).

(** Hands the tables over in the order in which they were replaced. *)
Fixpoint release_tables (l : list nat) g : res gc_state :=
  match l with
  | [] => Ret g
  | n :: l => let* g := clht_gc_release n g in release_tables l g
  end.
Definition new_released (h h' : clht) : list nat :=
  rev (take (length (released h') - length (released h)) (released h')).

Definition Put key val tb : res SWTable :=
  let g := hashtable tb in
  let* '(_, h) := clht_put uninit put_fuel key val (lt tb) (gc_h g) in
  let* g := release_tables (new_released (gc_h g) h) (with_h h g) in
  Ret (with_g g tb).

Definition Update key val tb : res SWTable :=
  let g := hashtable tb in
  let* '(_, h) := clht_update put_fuel key val (gc_h g) in
  Ret (with_g (with_h h g) tb).

Definition Get key tb : res (Z * SWTable) :=
  let tb := mkSWTable (num_threads tb) (hashtable tb) (u32 (lt tb + 1)) in
  let g := hashtable tb in
  let* '(v, h) := clht_get (ht (gc_h g)) key (lt tb) (gc_h g) in
  Ret (v, with_g (with_h h g) tb).

Definition Remove key tb : res (Z * SWTable) :=
  let g := hashtable tb in
  let* '(v, h) := clht_remove put_fuel key (gc_h g) in
  Ret (v, with_g (with_h h g) tb).

(** The size in bytes, before its conversion to [double]. *)
Definition get_size tb : res Z :=
  let* hst := get_ht (ht (gc_h (hashtable tb))) (gc_h (hashtable tb)) in
  Ret (clht_size_mem (Some hst)).

(** The destructor. *)
Definition SWTable_free (fuel : nat) tb : res gc_state := clht_gc_destroy fuel (hashtable tb).
End swtable.

(** ** What EPLI needs of a cache

    [c_rep n c m]: the cache [c] holds the map [m] and accepts [n] more
    operations.  A cache may forget pairs when it inserts, and never returns
    one it does not hold. *)
Class CacheOps (C : Type) : Type := {
  c_get : Z → C → res (Z * C);
  c_put : Z → Z → C → res C;
  c_update : Z → Z → C → res C;
  c_remove : Z → C → res C
}.

Class CacheLaws (C : Type) `{CacheOps C} : Type := {
  c_rep : nat → C → gmap Z Z → Prop;
  c_rep_weaken n c m : c_rep (S n) c m → c_rep n c m;
  c_get_law n c m k : c_rep (S n) c m → 0 < k →
    ∃ c', c_get k c = Ret (default 0 (m !! k), c') ∧ c_rep n c' m;
  c_put_law n c m k v : c_rep (S n) c m → 0 < k →
    ∃ c' m', c_put k v c = Ret c' ∧ c_rep n c' m' ∧
      (m' = m ∨ m !! k = None ∧ m' ⊆ <[k := v]> m);
  c_update_law n c m k v : c_rep (S n) c m → 0 < k →
    ∃ c', c_update k v c = Ret c' ∧ c_rep n c' (if m !! k is Some _ then <[k := v]> m else m);
  c_remove_law n c m k : c_rep (S n) c m → 0 < k →
    ∃ c', c_remove k c = Ret c' ∧ c_rep n c' (delete k m)
}.

(** ** The SW-Table is such a cache *)
Section cache.
Context (uninit : Z → Z → UInt24_t * Z * (Z * Z * Z)).
Implicit Types (tb : SWTable) (g : gc_state) (key val : Z) (m : gmap Z Z).

Definition SWTable_ops : CacheOps SWTable := {|
  c_get := Get; c_put := Put uninit; c_update := Update;
  c_remove key tb := let* '(_, tb) := Remove key tb in Ret tb
|}.

(** The table of a thread of id 0, whose releases are queued. *)
Record sw_rep (n : nat) tb m : Prop := {
  sw_reps : ∃ hst, reps (gc_h (hashtable tb)) hst m;
  sw_idle : ∃ p arr, clht_alloc (hashtable tb) = Some p ∧ idle p (gc_w (hashtable tb)) arr;
  sw_room : Z.of_nat (size m + n) < 2 ^ 32
}.

Lemma release_tables_idle l g p arr :
  clht_alloc g = Some p → idle p (gc_w g) arr → Forall (λ n, n ∈ dom (heap (gc_h g))) l →
  ∃ g', release_tables l g = Ret g' ∧ gc_h g' = gc_h g ∧ clht_alloc g' = Some p ∧ idle p (gc_w g') arr.
Proof.
  intros Hp Hi Hl. revert g Hp Hi Hl. induction l as [|n l IH]; intros g Hp Hi Hl; cbn [release_tables].
  { by exists g. }
  apply Forall_cons in Hl as [Hn Hl]. apply elem_of_dom in Hn as [hst Hn].
  unfold clht_gc_release. rewrite (get_ht_some _ _ _ Hn), res_bind_ret, Hp. cbn [of_option].
  rewrite res_bind_ret.
  destruct (release_all_idle p (table_ptrs n hst) (gc_w g) arr Hi) as (w' & -> & Hi' & _ & _).
  rewrite !res_bind_ret.
  destruct (IH (mkGc (gc_h g) w' (Some p) (clht_ts_thread g))) as (g' & -> & ? & ? & ?); [done..|].
  by exists g'.
Qed.

Lemma new_released_grows h h' : grows h h' → Forall (λ n, n ∈ dom (heap h')) (new_released h h').
Proof.
  intros (_ & l & E & Hl). unfold new_released. rewrite E, length_app, take_app_length'; [|lia].
  by apply Forall_rev.
Qed.

(** An operation of the table, as [ClhtThm] describes it. *)
Lemma sw_exec n tb m o :
  sw_rep (S n) tb m → 0 < op_key o →
  ∃ r h' hst' m', exec uninit put_fuel o (gc_h (hashtable tb)) = Ret (r, h') ∧
    cache_step m o r m' ∧ reps h' hst' m' ∧ grows (gc_h (hashtable tb)) h' ∧ Z.of_nat (size m' + n) < 2 ^ 32.
Proof.
  intros [(hst & Hr) _ Hn] Hk.
  destruct (exec_refines uninit 32 _ hst m o Hr Hk) as (r & h' & hst' & m' & ? & ? & ? & ? & ?);
    [lia|change (Z.of_nat 32) with 32; lia|].
  exists r, h', hst', m'. split_and!; [done..|].
  assert (is_put o ≤ 1)%nat by (by destruct o; cbn; lia). lia.
Qed.

(** A step that releases nothing. *)
Lemma sw_step n tb h' hst' m' lt' :
  (∃ p arr, clht_alloc (hashtable tb) = Some p ∧ idle p (gc_w (hashtable tb)) arr) →
  reps h' hst' m' → Z.of_nat (size m' + n) < 2 ^ 32 →
  sw_rep n (mkSWTable (num_threads tb) (with_h h' (hashtable tb)) lt') m'.
Proof. intros Hi Hr Hn. split; [by exists hst'|done|done]. Qed.

Lemma Get_law n tb m k :
  sw_rep (S n) tb m → 0 < k → ∃ tb', Get k tb = Ret (default 0 (m !! k), tb') ∧ sw_rep n tb' m.
Proof.
  intros Hr Hk. destruct (sw_exec n tb m (OGet k (u32 (lt tb + 1))) Hr Hk)
    as (r & h' & hst' & m' & E & Hs & Hr' & _ & Hn). cbn [exec] in E.
  inversion Hs; subst. unfold Get. cbn [lt hashtable]. rewrite E, res_bind_ret.
  eexists. split; [done|]. exact (sw_step n tb h' hst' _ _ (sw_idle _ _ _ Hr) Hr' Hn).
Qed.

Lemma Put_law n tb m k v :
  sw_rep (S n) tb m → 0 < k →
  ∃ tb' m', Put uninit k v tb = Ret tb' ∧ sw_rep n tb' m' ∧
    (m' = m ∨ m !! k = None ∧ m' ⊆ <[k := v]> m).
Proof.
  intros Hr Hk. destruct (sw_exec n tb m (OPut k v (lt tb)) Hr Hk)
    as (r & h' & hst' & m' & E & Hs & Hr' & Hg & Hn). cbn [exec] in E.
  pose proof (sw_idle _ _ _ Hr) as (p & arr & Hp & Hi). apply res_bind_Ret_inv in E as ([b h1] & E & E1).
  injection E1 as _ ->. unfold Put. rewrite E, res_bind_ret.
  destruct (release_tables_idle (new_released (gc_h (hashtable tb)) h') (with_h h' (hashtable tb)) p arr)
    as (g' & -> & Eh & Hp' & Hi'); [done|done|by apply new_released_grows|].
  rewrite res_bind_ret. eexists _, m'. split; [done|]. split.
  - split; [exists hst'; cbn; rewrite Eh; exact Hr'|by exists p, arr|done].
  - inversion Hs; subst; [right; done|by left].
Qed.

Lemma Update_law n tb m k v :
  sw_rep (S n) tb m → 0 < k →
  ∃ tb', Update k v tb = Ret tb' ∧ sw_rep n tb' (if m !! k is Some _ then <[k := v]> m else m).
Proof.
  intros Hr Hk. destruct (sw_exec n tb m (OUpdate k v) Hr Hk)
    as (r & h' & hst' & m' & E & Hs & Hr' & Hg & Hn). cbn [exec] in E.
  apply res_bind_Ret_inv in E as ([b h1] & E & E1). injection E1 as _ ->.
  unfold Update. rewrite E, res_bind_ret. eexists. split; [done|].
  assert (m' = if m !! k is Some _ then <[k := v]> m else m) as <-.
  { inversion Hs; subst; match goal with H : _ !! _ = _ |- _ => by rewrite H end. }
  exact (sw_step n tb h' hst' _ _ (sw_idle _ _ _ Hr) Hr' Hn).
Qed.

Lemma Remove_law n tb m k :
  sw_rep (S n) tb m → 0 < k →
  ∃ tb', (let* '(_, tb) := Remove k tb in Ret tb) = Ret tb' ∧ sw_rep n tb' (delete k m).
Proof.
  intros Hr Hk. destruct (sw_exec n tb m (ORemove k) Hr Hk)
    as (r & h' & hst' & m' & E & Hs & Hr' & Hg & Hn). cbn [exec] in E.
  inversion Hs; subst. unfold Remove. rewrite E, !res_bind_ret. eexists. split; [done|].
  exact (sw_step n tb h' hst' _ _ (sw_idle _ _ _ Hr) Hr' Hn).
Qed.

#[export] Instance SWTable_laws : @CacheLaws SWTable SWTable_ops.
Proof.
  refine (@Build_CacheLaws SWTable SWTable_ops sw_rep _ _ _ _ _).
  - intros n tb m [Hr Hi Hn]. split; [done|done|lia].
  - exact Get_law.
  - exact Put_law.
  - exact Update_law.
  - exact Remove_law.
Defined.

(** A new table, in a process that has no thread subscribed yet. *)
(** Construction succeeds whatever the group. *)
Lemma SWTable_Init_total group lt0 : ∃ tb, SWTable_Init group lt0 world0 = Ret tb.
Proof.
  destruct (create_reps num_buckets0) as (h & hst & E & Hr); [by exists 14|].
  unfold SWTable_Init. rewrite E. cbn [of_option]. rewrite res_bind_ret. pose proof Hr as [Hok Hw Hm]. unfold clht_gc_thread_init.
  change (malloc (gc_w (mkGc h world0 None None))) with (0%nat, with_next_block 1 world0).
  cbn [gc_h]. rewrite (get_ht_some (ht h) h hst) by apply Hok. rewrite !res_bind_ret. by eexists.
Qed.
Lemma SWTable_Init_rep n lt0 :
  Z.of_nat n < 2 ^ 32 → ∃ tb, SWTable_Init 0 lt0 world0 = Ret tb ∧ sw_rep n tb ∅.
Proof.
  intros Hn. destruct (create_reps num_buckets0) as (h & hst & E & Hr); [by exists 14|].
  unfold SWTable_Init. rewrite E. cbn [of_option]. rewrite res_bind_ret.
  pose proof Hr as [Hok Hw Hm]. unfold clht_gc_thread_init.
  change (malloc (gc_w (mkGc h world0 None None))) with (0%nat, with_next_block 1 world0).
  cbn [gc_h]. rewrite (get_ht_some (ht h) h hst) by apply Hok. rewrite !res_bind_ret. cbn -[ssmem_alloc_init_fs_size].
  eexists. split; [done|]. split.
  - exists hst. cbn. split; [|done|done]. destruct Hok. by split.
  - exists 0%nat, [Some 0]. split; [done|]. split.
    + eexists _, _. split; [vm_compute; reflexivity|]. split; [reflexivity|]. split; [reflexivity|].
      apply Forall_nil_2.
    + split; [done|constructor; [by cbn|constructor]|constructor; [apply not_elem_of_nil|constructor]|by constructor].
    + split; [reflexivity|by eexists].
  - by rewrite map_size_empty.
Qed.
End cache.

(** ** The id of the thread *)
Lemma clht_gc_release_overflow n g p a ts :
  clht_alloc g = Some p → allocators (gc_w g) !! p = Some a → ts ∈ ssmem_ts_list (gc_w g) →
  0 ≤ ssmem_ts_list_len (gc_w g) ≤ ts_id ts → clht_gc_release n g = Fault.
Proof.
  intros Hp Ha Hin Hid. unfold clht_gc_release, get_ht.
  destruct (heap (gc_h g) !! n) as [hst|]; [|done]. cbn [of_option].
  rewrite res_bind_ret, Hp. cbn [of_option]. rewrite res_bind_ret.
  assert (∃ o l, table_ptrs n hst = o :: l) as (o & l & ->).
  { unfold table_ptrs. destruct (chain_ptrs n 0 (table hst)) as [|o l]; by eexists _, _. }
  cbn [release_all]. by rewrite (ssmem_release_overflow p o (gc_w g) a ts).
Qed.

(** [Init] subscribes the thread with its group id, and the release of an
    old table writes the time stamp at that index of an array with one element
    per subscribed thread: with one thread and a group id other than 0, every
    [Put] that resizes the table writes outside that array. *)
Theorem SWTable_Put_resize_overflow uninit key val tb p a ts b h' n l :
  clht_alloc (hashtable tb) = Some p → allocators (gc_w (hashtable tb)) !! p = Some a →
  ssmem_ts_list (gc_w (hashtable tb)) = [ts] → ssmem_ts_list_len (gc_w (hashtable tb)) = 1 →
  1 ≤ ts_id ts →
  clht_put uninit put_fuel key val (lt tb) (gc_h (hashtable tb)) = Ret (b, h') →
  released h' = l ++ n :: released (gc_h (hashtable tb)) →
  Put uninit key val tb = Fault.
Proof.
  intros Hp Ha Hts Hlen Hid E Hrel. unfold Put. rewrite E, res_bind_ret.
  unfold new_released. rewrite Hrel, length_app. cbn [length].
  replace (length l + S (length (released (gc_h (hashtable tb)))) - length (released (gc_h (hashtable tb))))%nat
    with (length (l ++ [n])) by (rewrite length_app; cbn; lia).
  rewrite (cons_middle n l (released (gc_h (hashtable tb)))), (app_assoc l [n]), take_app_length, rev_app_distr. cbn [rev app release_tables].
  rewrite (clht_gc_release_overflow n _ p a ts); [done|done|done|cbn; rewrite Hts; left|cbn; lia].
Qed.

(** A table of one bucket, for a thread of group 1000. *)
Definition tb1000 : SWTable :=
  match (let* h := of_option (clht_create 1) in
         let* g := clht_gc_thread_init 1000 (mkGc h world0 None None) in
         let* tb := Put uninit0 1 11 (mkSWTable 1 g 0) in
         let* tb := Put uninit0 2 22 tb in Put uninit0 3 33 tb) with
  | Ret tb => tb | _ => mkSWTable 1 gc0 0 end.

Lemma SWTable_Put_resize_overflow_witness :
  Put uninit0 4 44 tb1000 = Fault ∧
  ∃ b h', clht_put uninit0 put_fuel 4 44 (lt tb1000) (gc_h (hashtable tb1000)) = Ret (b, h') ∧
    released h' = [0%nat].
Proof.
  assert (∃ b h', clht_put uninit0 put_fuel 4 44 (lt tb1000) (gc_h (hashtable tb1000)) = Ret (b, h') ∧
    released h' = [0%nat]) as (b & h' & E & Hr).
  { eexists _, _. split; [vm_compute; reflexivity|vm_compute; reflexivity]. }
  split; [|exists b, h'; exact (conj E Hr)].
  eapply (SWTable_Put_resize_overflow uninit0 4 44 tb1000 0 _ _ b h' 0 []);
    [vm_compute; reflexivity..| |exact E|].
  - vm_compute. discriminate.
  - rewrite Hr. vm_compute. reflexivity.
Defined.
