(* ===== verification/Epli.v ===== *)
(** * EPLI: the EPL-Tree behind the SW-Table ([src/epli.h])

    The index of the repository.  With [USE_SWTABLE] a lookup asks the cache
    first, every [SAMPLE_M]-th miss is cached, writes go to both, and the cache
    is closed when its hit rate is too low; without it the tree is used alone.
    The cache is any type with [CacheOps]; the index inside the tree any ordered
    index. *)
From S2P Require Import Prelude Ieee NvmAlloc Entry Index EplTree EplTreeInv EplTreeSpec SwTable.

Definition SAMPLE_M : Z := 20.
(** The literal [0.002]: the double nearest to 2/1000. *)
Definition MIN_HIT_RATE : double := d_div (d_of_Z 2) (d_of_Z 1000).

Record EPLI (idx C : Type) : Type := mkEPLI {
  tree : EPLTree idx;
  table : C;
  table_on : bool;
  hit_cnt : double;
  tot_get : Z
}.
Arguments mkEPLI {idx C}.
Arguments tree {idx C}.
Arguments table {idx C}.
Arguments table_on {idx C}.
Arguments hit_cnt {idx C}.
Arguments tot_get {idx C}.

Section epli.
Context `{OrderedIndex idx} {C : Type} `{CacheOps C} (use_swtable : bool).
Implicit Types (e : EPLI idx C) (key val : Z).

Definition with_tree (t : EPLTree idx) e : EPLI idx C :=
  mkEPLI t (table e) (table_on e) (hit_cnt e) (tot_get e).
Definition with_cache (c : C) e : EPLI idx C :=
  mkEPLI (tree e) c (table_on e) (hit_cnt e) (tot_get e).

(** [Init], given the tree and the table its constructors make. *)
Definition Init (t : res (EPLTree idx)) (c : res C) : res (EPLI idx C) :=
  let* t := t in let* c := c in Ret (mkEPLI t c true (d_of_Z 0) 0).

Definition Recover (fuel : nat) (load_size : Z) e : res (EPLI idx C) :=
  let* t := EplTree.Recover fuel load_size (tree e) in Ret (with_tree t e).
Definition BulkLoad (bulk_kvs : list (Z * Z)) (num_keys : nat) e : res (EPLI idx C) :=
  let* t := EplTree.BulkLoad bulk_kvs num_keys (tree e) in Ret (with_tree t e).

Definition Put (fuel : nat) key val e : res (EPLI idx C) :=
  let* '(_, t) := EplTree.Insert fuel key val (tree e) in Ret (with_tree t e).

Definition Update key val e : res (EPLI idx C) :=
  let* e := (if use_swtable then let* c := c_update key val (table e) in Ret (with_cache c e)
             else Ret e) in
  let* '(_, t) := EplTree.Update key val (tree e) in Ret (with_tree t e).

(** [SWTABLE_AUTO_CLOSE] *)
Definition auto_close e : EPLI idx C :=
  if d_lt (d_of_Z 0) (hit_cnt e) && d_lt (hit_cnt e) (d_mul MIN_HIT_RATE (d_of_Z (tot_get e)))
  then mkEPLI (tree e) (table e) false (hit_cnt e) (tot_get e) else e.

(** [Get] returns what it leaves in [val]. *)
Definition Get key val e : res (Z * EPLI idx C) :=
  if negb use_swtable || negb (table_on e)
  then let* '(_, val) := EplTree.Get key val (tree e) in Ret (val, e)
  else
    let* '(val, c) := c_get key (table e) in
    let e := with_cache c e in
    let* '(val, e) :=
      (if bool_decide (val ≠ 0)
       then Ret (val, mkEPLI (tree e) (table e) (table_on e) (d_add (hit_cnt e) (d_of_Z 1)) (tot_get e))
       else
         let* '(_, val) := EplTree.Get key val (tree e) in
         if bool_decide (tot_get e mod SAMPLE_M = 0)
         then let* c := c_put key val (table e) in Ret (val, with_cache c e)
         else Ret (val, e)) in
    let e := mkEPLI (tree e) (table e) (table_on e) (hit_cnt e) (u64 (tot_get e + 1)) in
    Ret (val, auto_close e).

Definition Scan (fuel : nat) (start_key len : Z) (results : list (Z * Z)) e : res (Z * list (Z * Z)) :=
  EplTree.Scan fuel start_key len results (tree e).
Definition RangeScan (fuel : nat) (start_key end_key : Z) (results : list (Z * Z)) e
  : res (Z * list (Z * Z)) :=
  EplTree.RangeScan fuel start_key end_key results (tree e).

Definition Remove key e : res (EPLI idx C) :=
  let* e := (if use_swtable then let* c := c_remove key (table e) in Ret (with_cache c e)
             else Ret e) in
  let* '(_, t) := EplTree.Remove key (tree e) in Ret (with_tree t e).

Definition Reset e : EPLI idx C :=
  if use_swtable then mkEPLI (tree e) (table e) true (d_of_Z 0) 0 else e.
End epli.
