(* ===== verification/EpliThm.v ===== *)
(** * What EPLI promises

    With and without the cache, EPLI is the finite map that its tree is: the
    invariant is that a cached value is 0 or the tree's.  Updating an absent
    key breaks it. *)
From S2P Require Import Prelude Ieee Clht ClhtInv ClhtSpec ClhtThm Ssmem SsmemThm ClhtGc ClhtGcThm SwTable NvmAlloc Entry Index EplTree EplTreeInv EplTreeSpec Epli.

(** A cached value is that of the tree, or the 0 of a miss. *)
Definition coherent (mc mt : gmap Z Z) : Prop :=
  ∀ k v, mc !! k = Some v → v = 0 ∨ mt !! k = Some v.

Section epli.
Context `{OrderedIndexLaws idx} {C : Type} `{!CacheOps C, !CacheLaws C} (use_swtable : bool).
Implicit Types (e : EPLI idx C) (o : EplTreeSpec.op) (m mc mt : gmap Z Z).

(** The calls of a client; what [Get] leaves in a variable that was 0. *)
Definition run_op o e : res (Z * EPLI idx C) :=
  match o with
  | OpInsert k v => let* e := Epli.Put 1 k v e in Ret (0, e)
  | OpUpdate k v => let* e := Epli.Update use_swtable k v e in Ret (0, e)
  | OpRemove k => let* e := Epli.Remove use_swtable k e in Ret (0, e)
  | OpGet k => Epli.Get use_swtable k 0 e
  end.
Fixpoint run_ops (os : list EplTreeSpec.op) e : res (list Z * EPLI idx C) :=
  match os with
  | [] => Ret ([], e)
  | o :: os => let* '(r, e) := run_op o e in
               let* '(rs, e) := run_ops os e in Ret (r :: rs, e)
  end.

(** Operations are those of the tree, and only present keys are updated. *)
Definition epli_valid m o : Prop :=
  valid_op m o ∧ match o with OpUpdate k _ => is_Some (m !! k) | _ => True end.
Fixpoint epli_valids m (os : list EplTreeSpec.op) : Prop :=
  match os with
  | [] => True
  | o :: os => epli_valid m o ∧ epli_valids (spec_op o m).2 os
  end.

(** The state stands for the map [m] and accepts [n] more operations. *)
Definition epli_rep (n : nat) e m : Prop :=
  simulates n (tree e) m ∧
  (use_swtable = true → ∃ mc, c_rep (2 * n) (table e) mc ∧ coherent mc m).

(** ** Coherence *)
Lemma coherent_insert mc m k v : coherent mc m → m !! k = None → coherent mc (<[k := v]> m).
Proof.
  intros Hc Hn k' w Hw. destruct (Hc k' w Hw) as [?|Hm]; [by left|right].
  rewrite lookup_insert_ne; [done|]. intros ->. congruence.
Qed.

Lemma coherent_update mc m k v :
  coherent mc m →
  coherent (if mc !! k is Some _ then <[k := v]> mc else mc) (<[k := v]> m).
Proof.
  intros Hc k' w. destruct (decide (k' = k)) as [->|Hne].
  - rewrite lookup_insert_eq. destruct (mc !! k) eqn:E; [rewrite lookup_insert_eq; by right|congruence].
  - rewrite lookup_insert_ne by done. destruct (mc !! k); [rewrite lookup_insert_ne by done|]; apply Hc.
Qed.

Lemma coherent_delete mc m k : coherent mc m → coherent (delete k mc) (delete k m).
Proof.
  intros Hc k' v [Hne Hv]%lookup_delete_Some. destruct (Hc k' v Hv) as [?|Hm]; [by left|right].
  by rewrite lookup_delete_ne.
Qed.

(** A result of the tree put into the cache. *)
Lemma coherent_put mc mc' m k v :
  coherent mc m → v = default 0 (m !! k) →
  mc' = mc ∨ mc !! k = None ∧ mc' ⊆ <[k := v]> mc → coherent mc' m.
Proof.
  intros Hc -> [->|[Hn Hs]]; [done|]. intros k' w Hw. pose proof (lookup_weaken _ _ _ _ Hw Hs) as Hw'.
  destruct (decide (k' = k)) as [->|Hne].
  - rewrite lookup_insert_eq in Hw'. injection Hw' as <-. destruct (m !! k); [by right|by left].
  - rewrite lookup_insert_ne in Hw' by done. by apply Hc.
Qed.

(** ** One operation *)
(** The tree's half of an operation. *)
Lemma tree_op n t m o :
  simulates (S n) t m → valid_op m o →
  ∃ t', EplTreeSpec.run_op o t = Ret ((spec_op o m).1, t') ∧ simulates n t' (spec_op o m).2.
Proof. apply run_op_simulation. Qed.

Lemma tree_get n t m k :
  simulates (S n) t m → valid_key k →
  EplTree.Get k 0 t = Ret match m !! k with Some v => (STATUS_OK, v) | None => (STATUS_FAIL, 0) end
  ∧ simulates n t m.
Proof.
  intros Hs Hk. destruct (tree_op n t m (OpGet k) Hs Hk) as (t' & E & Hs').
  cbn in E. apply res_bind_Ret_inv in E as (r & E & E'). injection E' as -> ->. by split.
Qed.

Lemma valid_pos k : valid_key k → 0 < k.
Proof. unfold valid_key, INVALID_KEY. lia. Qed.

(** Closing the cache does not change what the state stands for. *)
Lemma auto_close_rep n e m : epli_rep n e m → epli_rep n (auto_close e) m.
Proof. unfold auto_close. by destruct (_ && _). Qed.

Lemma Get_rep n e m k :
  epli_rep (S n) e m → valid_key k →
  ∃ e', Epli.Get use_swtable k 0 e = Ret (default 0 (m !! k), e') ∧ epli_rep n e' m.
Proof.
  intros [Ht Hcache] Hk. pose proof (valid_pos k Hk).
  destruct (tree_get n _ m k Ht Hk) as [Eg Ht'].
  assert (use_swtable = true → ∃ mc, c_rep (S (S (2 * n))) (table e) mc ∧ coherent mc m) as Hcache'.
  { by replace (S (S (2 * n))) with (2 * S n)%nat by lia. }
  unfold Epli.Get. destruct (negb use_swtable || negb (table_on e)) eqn:Eoff.
  { rewrite Eg, res_bind_ret. exists e. split; [by destruct (m !! k)|]. split; [done|].
    intros Hon. destruct (Hcache' Hon) as (mc & ? & ?). exists mc. split; [by do 2 apply c_rep_weaken|done]. }
  destruct Hcache' as (mc & Hc & Hco); [by destruct use_swtable|].
  destruct (c_get_law _ _ _ k Hc) as (c1 & E1 & Hc1); [done|].
  rewrite E1, res_bind_ret. cbn [tree table table_on hit_cnt tot_get with_cache].
  assert (∀ c mc' hc, c_rep (2 * n) c mc' → coherent mc' m →
    epli_rep n (auto_close (mkEPLI (tree e) c (table_on e) hc (u64 (tot_get e + 1)))) m) as Hfin.
  { intros c mc' hc Hc' Hco'. apply auto_close_rep. split; [done|]. intros _. by exists mc'. }
  case_bool_decide as Hv.
  - rewrite res_bind_ret. eexists. split; [|eapply Hfin; [by apply c_rep_weaken|done]].
    do 2 f_equal. destruct (mc !! k) as [v|] eqn:Ek; [|done]. cbn in *.
    destruct (Hco k v Ek) as [->|Hm]; [done|by rewrite Hm].
  - assert (default 0 (mc !! k) = 0) as -> by lia. rewrite Eg, res_bind_ret.
    assert ((match m !! k with Some v => (STATUS_OK, v) | None => (STATUS_FAIL, 0) end).2 = default 0 (m !! k))
      as Ed by (by destruct (m !! k)).
    destruct (match m !! k with Some v => (STATUS_OK, v) | None => (STATUS_FAIL, 0) end) as [st val].
    cbn [snd] in Ed. case_bool_decide.
    + destruct (c_put_law _ _ _ k val Hc1) as (c2 & mc2 & E2 & Hc2 & Hput); [done|].
      rewrite E2, !res_bind_ret. eexists. split; [by rewrite Ed|]. eapply Hfin; [done|].
      by eapply coherent_put.
    + rewrite res_bind_ret. eexists. split; [by rewrite Ed|]. eapply Hfin; [by apply c_rep_weaken|done].
Qed.

(** A write to the tree, and to the cache when there is one. *)
Lemma write_rep n e m o (f : C → res C) (g : gmap Z Z → gmap Z Z) :
  epli_rep (S n) e m → valid_op m o →
  (∀ c mc, c_rep (S (2 * n)) c mc → ∃ c', f c = Ret c' ∧ c_rep (2 * n) c' (g mc)) →
  (∀ mc, coherent mc m → coherent (g mc) (spec_op o m).2) →
  ∃ t' e', EplTreeSpec.run_op o (tree e) = Ret ((spec_op o m).1, t') ∧
    (if use_swtable then let* c := f (table e) in Ret (with_cache c e) else Ret e) = Ret e' ∧
    tree e' = tree e ∧ epli_rep n (with_tree t' e') (spec_op o m).2.
Proof.
  intros [Ht Hcache] Hv Hf Hg. destruct (tree_op n _ m _ Ht Hv) as (t' & E & Ht'). exists t'.
  destruct use_swtable eqn:Eu.
  - destruct Hcache as (mc & Hc & Hco); [done|].
    replace (2 * S n)%nat with (S (S (2 * n))) in Hc by lia.
    destruct (Hf _ _ (c_rep_weaken _ _ _ Hc)) as (c' & Ec & Hc'). rewrite Ec, res_bind_ret.
    eexists. do 4 (split; [done|]). intros _. exists (g mc). by split; [|apply Hg].
  - exists e. do 4 (split; [done|]). congruence.
Qed.

Lemma run_op_rep n e m o :
  epli_rep (S n) e m → epli_valid m o →
  ∃ e', run_op o e = Ret ((spec_op o m).1.2, e') ∧ epli_rep n e' (spec_op o m).2.
Proof.
  intros Hrep [Hv Hu]. destruct o as [k v|k v|k|k]; cbn [run_op].
  - destruct (write_rep n e m _ Ret (λ mc, mc) Hrep Hv) as (t' & e' & E & E2 & Et & Hrep').
    { intros c mc Hc. exists c. by split; [|apply c_rep_weaken]. }
    { intros mc Hco. apply coherent_insert; [done|apply Hv]. }
    cbn [EplTreeSpec.run_op] in E. apply res_bind_Ret_inv in E as ([st t1] & E & E').
    injection E' as -> <-. unfold Epli.Put. rewrite E, !res_bind_ret. eexists. split; [done|].
    assert (e' = e) as -> by (destruct use_swtable; injection E2 as <-; by destruct e). done.
  - destruct Hu as [w Hw].
    destruct (write_rep n e m _ (c_update k v) (λ mc, if mc !! k is Some _ then <[k := v]> mc else mc) Hrep Hv)
      as (t' & e' & E & E2 & Et & Hrep').
    { intros c mc Hc. apply c_update_law; [done|by apply valid_pos]. }
    { intros mc Hco. cbn [spec_op]. rewrite Hw. by apply coherent_update. }
    cbn [EplTreeSpec.run_op] in E. apply res_bind_Ret_inv in E as ([st t1] & E & E').
    unfold Epli.Update. rewrite E2, res_bind_ret, Et, E, !res_bind_ret.
    cbn [spec_op] in *. rewrite Hw in *. injection E' as _ <-. eexists. by split.
  - destruct (write_rep n e m _ (c_remove k) (delete k) Hrep Hv) as (t' & e' & E & E2 & Et & Hrep').
    { intros c mc Hc. apply c_remove_law; [done|by apply valid_pos]. }
    { intros mc Hco. cbn [spec_op]. destruct (m !! k) eqn:Em; [by apply coherent_delete|].
      rewrite <- (delete_id m k) by done. by apply coherent_delete. }
    cbn [EplTreeSpec.run_op] in E. apply res_bind_Ret_inv in E as ([st t1] & E & E').
    unfold Epli.Remove. rewrite E2, res_bind_ret, Et, E, !res_bind_ret.
    cbn [spec_op] in *. destruct (m !! k); injection E' as _ <-; eexists; by split.
  - destruct (Get_rep n e m k Hrep Hv) as (e' & -> & Hrep'). exists e'.
    split; [by cbn; destruct (m !! k)|done].
Qed.

Lemma run_ops_rep os e m n :
  epli_rep (length os + n) e m → epli_valids m os →
  ∃ e', run_ops os e = Ret ((spec_ops os m).1.*2, e') ∧ epli_rep n e' (spec_ops os m).2.
Proof.
  revert e m. induction os as [|o os IH]; intros e m Hrep; cbn [run_ops epli_valids spec_ops]; [by eauto|].
  intros [Hv Hvs]. destruct (run_op_rep _ e m o Hrep Hv) as (e1 & -> & Hrep1). rewrite res_bind_ret.
  destruct (spec_op o m) as [r m1]. cbn [fst snd] in *.
  destruct (IH e1 m1 Hrep1 Hvs) as (e2 & -> & Hrep2). rewrite res_bind_ret.
  destruct (spec_ops os m1) as [rs m2]. cbn [fst snd] in *. by exists e2.
Qed.
End epli.

(** ** The properties *)
Section props.
Context `{OrderedIndexLaws idx} (uninit : Z → Z → UInt24_t * Z * (Z * Z * Z)).
#[local] Existing Instance SWTable_ops.
#[local] Existing Instance SWTable_laws.

(** C1: EPLI, with the SW-Table or without, refines a finite map over any index
    that keeps the laws of [Index]: from a fresh tree with room for one leaf per
    call and a fresh SW-Table, any run of fewer than [2 ^ 31] valid calls (keys
    other than 0 and the maximum, inserts of new keys, updates of present ones)
    returns (cache inserts, resizes, eliminations and closing of the cache
    included), and every [Get] leaves the value the map holds, or 0. With the
    SW-Table this is for a process of group id 0, which the table takes for a
    thread id: any other faults when the table is resized. *)
Theorem EPLI_refines_map (use_swtable : bool) group lt0 file a os :
  (use_swtable = true → group = 0) →
  Alloc.wf 256 a → Alloc.mapped_len_ a < 2 ^ 64 →
  Alloc.current_addr a + Z.of_nat (S (length os)) * sizeof_Entry
    ≤ Alloc.pmem_addr_ a + Alloc.mapped_len_ a →
  Z.of_nat (2 * length os) < 2 ^ 32 → epli_valids ∅ os →
  ∃ e e', Init (EPLTree_new false file a) (SWTable_Init group lt0 world0) = Ret e ∧
    @run_ops idx _ SWTable (SWTable_ops uninit) use_swtable os e = Ret ((spec_ops os ∅).1.*2, e').
Proof.
  intros Hg Hwf Hml Hroom Hn Hv.
  destruct (EPLTree_new_spec file a) as (s & Es & Hok & Hm & Hr);
    [done|done|unfold sizeof_Entry in *; lia|].
  destruct (SWTable_Init_total group lt0) as (tb & Et).
  assert (use_swtable = true → sw_rep (2 * length os) tb ∅) as Htb.
  { intros ->. rewrite Hg in Et by done. destruct (SWTable_Init_rep (2 * length os) lt0 Hn) as (tb' & Et' & Hrep). congruence. }
  unfold Init. rewrite Es, Et, !res_bind_ret. eexists.
  destruct (run_ops_rep (CacheLaws0 := SWTable_laws uninit) use_swtable os
    (mkEPLI s tb true (d_of_Z 0) 0) ∅ 0) as (e' & -> & _).
  - rewrite Nat.add_0_r. split; [eexists; split_and!; [done|done|done|by apply Hr]|].
    intros Hu. exists ∅. split; [exact (Htb Hu)|done].
  - done.
  - by exists e'.
Qed.

(** updating a key that the tree does not hold, when the cache holds the 0
    of an earlier miss, stores the value in the cache only: later lookups
    return it although the tree does not have the key. *)
Theorem EPLI_update_absent_phantom n (e : EPLI idx SWTable) m mc k v w :
  simulates (S (S n)) (tree e) m → c_rep (CacheLaws := SWTable_laws uninit) (S (S n)) (table e) mc →
  valid_key k → table_on e = true → m !! k = None → mc !! k = Some w → v ≠ 0 →
  ∃ e' e'', @Epli.Update idx _ SWTable (SWTable_ops uninit) true k v e = Ret e' ∧
    @Epli.Get idx _ SWTable (SWTable_ops uninit) true k 0 e' = Ret (v, e'') ∧
    EplTree.Get k 0 (tree e') = Ret (STATUS_FAIL, 0).
Proof.
  intros Ht Hc Hk Hon Hm Hmc Hv. pose proof (valid_pos k Hk) as Hpos.
  destruct (c_update_law _ _ _ k v Hc Hpos) as (c1 & E1 & Hc1). rewrite Hmc in Hc1.
  destruct (c_get_law _ _ _ k Hc1 Hpos) as (c2 & E2 & _). rewrite lookup_insert_eq in E2. cbn in E2.
  destruct (tree_op (S n) (tree e) m (OpUpdate k v) Ht Hk) as (t1 & Eu & Ht1).
  cbn [EplTreeSpec.run_op spec_op] in *. rewrite Hm in *.
  apply res_bind_Ret_inv in Eu as ([st t2] & Eu & E'). injection E' as _ <-.
  destruct (tree_get n t2 m k Ht1 Hk) as [Eg _]. rewrite Hm in Eg.
  eexists (with_tree t2 (with_cache c1 e)), _.
  split; [|split; [|exact Eg]].
  - unfold Epli.Update. cbn [c_update SWTable_ops] in *. rewrite E1, !res_bind_ret. cbn [tree with_cache].
    by rewrite Eu, res_bind_ret.
  - unfold Epli.Get. cbn [table_on with_tree with_cache tree table negb orb c_get SWTable_ops] in *.
    rewrite Hon. cbn [negb]. rewrite E2, res_bind_ret, bool_decide_eq_true_2 by done.
    by rewrite res_bind_ret.
Qed.
End props.

(** ** Witnesses *)
Module EpliWitness.
Export MapIndex EplTreeSpec.Witness.
Definition ops : list EplTreeSpec.op :=
  [OpInsert 10 1; OpInsert 20 2; OpGet 10; OpGet 10; OpUpdate 10 5; OpGet 10; OpGet 30; OpRemove 10; OpGet 10].
Definition fresh_epli : EPLI (gmap Z Z) SWTable :=
  match Init (EPLTree_new false ∅ alloc0) (SWTable_Init 0 3 world0) with
  | Ret e => e | _ => mkEPLI tree0 tb1000 true (d_of_Z 0) 0 end.
(** After one lookup of a key that is not there. *)
Definition missed : EPLI (gmap Z Z) SWTable :=
  match Epli.Get (H0 := SWTable_ops uninit0) true 50 0 fresh_epli with
  | Ret (_, e) => e | _ => fresh_epli end.
End EpliWitness.
Import EpliWitness.

Lemma EPLI_refines_map_witness :
  epli_valids ∅ EpliWitness.ops ∧
  ∃ e e', Init (EPLTree_new (idx := gmap Z Z) false ∅ alloc0) (SWTable_Init 0 3 world0) = Ret e ∧
    @run_ops (gmap Z Z) _ SWTable (SWTable_ops uninit0) true EpliWitness.ops e
      = Ret ([0; 0; 1; 1; 0; 5; 0; 0; 0], e').
Proof.
  assert (epli_valids ∅ EpliWitness.ops) as Hv.
  { cbn. unfold epli_valid, valid_op, valid_key. repeat split; try (vm_compute; done); by eexists. }
  split; [exact Hv|].
  destruct (EPLI_refines_map (idx := gmap Z Z) uninit0 true 0 3 ∅ alloc0 EpliWitness.ops) as (e & e' & E & Er);
    [done|apply alloc0_wf|by vm_compute|by vm_compute|by vm_compute|exact Hv|].
  exists e, e'. split; [exact E|exact Er].
Defined.

(** After the miss the tree is empty and the cache holds the pair (50, 0). *)
Lemma missed_rep :
  simulates 2 (tree missed) ∅ ∧ ∃ mc, sw_rep 2 (table missed) mc ∧ mc !! 50 = Some 0.
Proof.
  destruct (SWTable_Init_rep 6 3) as (tb & Et & Htb); [done|].
  assert (epli_rep (idx := gmap Z Z) (CacheLaws0 := SWTable_laws uninit0) true 3 fresh_epli ∅) as Hrep.
  { unfold fresh_epli, Init. rewrite Et.
    change (EPLTree_new false ∅ alloc0) with (Ret tree0). rewrite !res_bind_ret.
    split; [by apply tree0_simulates; lia|]. intros _. exists ∅. by split. }
  destruct (Get_rep (CacheLaws0 := SWTable_laws uninit0) true 2 fresh_epli ∅ 50 Hrep)
    as (e' & E & [Ht Hc]); [by unfold valid_key|].
  assert (missed = e') as <- by (unfold missed; by rewrite E).
  split; [done|]. destruct Hc as (mc & [(hst & Hr) Hi Hn] & _); [done|].
  pose proof Hr as [Hok _ Hm]. exists mc. split; [split; [exact (ex_intro _ hst Hr)|exact Hi|lia]|]. rewrite <- Hm.
  assert ((λ hs, ht_lookup hs 50) <$> heap (gc_h (hashtable (table missed)))
    !! ht (gc_h (hashtable (table missed))) = Some (Some 0)) as Eh by (vm_compute; reflexivity).
  rewrite (ok_cur _ _ Hok) in Eh. by injection Eh.
Qed.

Lemma EPLI_update_absent_phantom_witness :
  ∃ e' e'', @Epli.Update (gmap Z Z) _ SWTable (SWTable_ops uninit0) true 50 7 missed = Ret e' ∧
    @Epli.Get (gmap Z Z) _ SWTable (SWTable_ops uninit0) true 50 0 e' = Ret (7, e'') ∧
    EplTree.Get 50 0 (tree e') = Ret (STATUS_FAIL, 0).
Proof.
  pose proof missed_rep as Hm. destruct Hm as [Ht (mc & Hc & Hmc)].
  apply (EPLI_update_absent_phantom uninit0 0 missed ∅ mc 50 7 0);
    [exact Ht|exact Hc|by unfold valid_key|vm_compute; reflexivity|reflexivity|exact Hmc|discriminate].
Defined.
