(* ===== verification/AlexBase.v ===== *)
(** * ALEX: models and bit tricks ([include/alex/alex_base.h])

    The linear model that predicts a slot, its builder (a least-squares fit in
    [long double]), the helpers on the words of a bitmap and on [int], and the
    arrays the data nodes are made of. *)
From S2P Require Import Prelude Ieee.

(** ** Arrays: an access outside the bounds is a fault *)
Definition rd {A} (l : list A) (i : Z) : res A :=
  if bool_decide (0 ≤ i) then of_option (l !! Z.to_nat i) else Fault.
Definition wr {A} (l : list A) (i : Z) (x : A) : res (list A) :=
  if bool_decide (0 ≤ i < Z.of_nat (length l)) then Ret (<[Z.to_nat i := x]> l) else Fault.

(** [for (int i = a; i < b; i++) s = f(i, s)]. *)
Fixpoint for_n {S} (n : nat) (i : Z) (f : Z → S → res S) (s : S) : res S :=
  match n with O => Ret s | S n => let* s := f i s in for_n n (i + 1) f s end.
Definition for_up {S} (a b : Z) (f : Z → S → res S) (s : S) : res S := for_n (Z.to_nat (b - a)) a f s.

(** ** The C++ library on [double]: [std::min] and [std::max] keep their first
    argument when neither is smaller. *)
Definition d_min (a b : double) : double := if d_lt b a then b else a.
Definition d_max (a b : double) : double := if d_lt a b then b else a.
Definition DBL_MAX : double := d_of_Z (2 ^ 1024 - 2 ^ 971).

(** ** The linear model *)
Record LinearModel : Type := mkModel { a_ : double; b_ : double }.
Definition model0 : LinearModel := mkModel (d_of_Z 0) (d_of_Z 0).

Definition expand (expansion_factor : double) (m : LinearModel) : LinearModel :=
  mkModel (d_mul (a_ m) expansion_factor) (d_mul (b_ m) expansion_factor).

Definition predict_double (key : Z) (m : LinearModel) : double :=
  d_add (d_mul (a_ m) (d_of_Z key)) (b_ m).

Definition predict (key : Z) (m : LinearModel) : Z := d_to_int (predict_double key m).

Record LinearModelBuilder : Type := mkBuilder {
  model_ : LinearModel;
  count_ : Z;
  x_sum_ : long_double;
  y_sum_ : long_double;
  xx_sum_ : long_double;
  xy_sum_ : long_double;
  x_min_ : Z;
  x_max_ : Z;
  y_min_ : double;
  y_max_ : double
}.

Definition builder_new (m : LinearModel) : LinearModelBuilder :=
  mkBuilder m 0 (ld_of_Z 0) (ld_of_Z 0) (ld_of_Z 0) (ld_of_Z 0) UINT64_MAX 0 DBL_MAX (SFopp DBL_MAX).

Definition add (x y : Z) (b : LinearModelBuilder) : LinearModelBuilder :=
  mkBuilder (model_ b) (count_ b + 1)
    (ld_add (x_sum_ b) (ld_of_Z x))
    (ld_add (y_sum_ b) (ld_of_Z y))
    (ld_add (xx_sum_ b) (ld_mul (ld_of_Z x) (ld_of_Z x)))
    (ld_add (xy_sum_ b) (ld_mul (ld_of_Z x) (ld_of_Z y)))
    (Z.min x (x_min_ b)) (Z.max x (x_max_ b))
    (d_min (d_of_Z y) (y_min_ b)) (d_max (d_of_Z y) (y_max_ b)).

(** The fitted model; the builder keeps its sums, since the sampling fit goes
    on adding to it. *)
Definition with_model (m : LinearModel) (b : LinearModelBuilder) : LinearModelBuilder :=
  mkBuilder m (count_ b) (x_sum_ b) (y_sum_ b) (xx_sum_ b) (xy_sum_ b)
    (x_min_ b) (x_max_ b) (y_min_ b) (y_max_ b).

Definition build (b : LinearModelBuilder) : LinearModelBuilder :=
  let count := ld_of_Z (count_ b) in
  let den := ld_sub (ld_mul count (xx_sum_ b)) (ld_mul (x_sum_ b) (x_sum_ b)) in
  if bool_decide (count_ b ≤ 1) then with_model (mkModel (d_of_Z 0) (d_of_ld (y_sum_ b))) b
  else if SFeqb den (ld_of_Z 0) then
    with_model (mkModel (d_of_Z 0) (d_div (d_of_ld (y_sum_ b)) (d_of_Z (count_ b)))) b
  else
    let slope := d_of_ld (ld_div
      (ld_sub (ld_mul count (xy_sum_ b)) (ld_mul (x_sum_ b) (y_sum_ b))) den) in
    let intercept := d_of_ld (ld_div
      (ld_sub (y_sum_ b) (ld_mul (ld_of_d slope) (x_sum_ b))) count) in
    if d_le slope (d_of_Z 0) then
      let a := d_div (d_sub (y_max_ b) (y_min_ b)) (d_of_Z (u64 (x_max_ b - x_min_ b))) in
      with_model (mkModel a (d_mul (SFopp (d_of_Z (x_min_ b))) a)) b
    else with_model (mkModel slope intercept) b.

(** ** Words of a bitmap

    The positions of the ones of a 64-bit word, and the instructions
    [popcnt], [tzcnt] and [lzcnt]. *)
Definition ones_of (w : Z) : list Z := filter (λ i, Z.testbit w i = true) (seqZ 0 64).
Definition popcnt (w : Z) : Z := Z.of_nat (length (ones_of w)).
Definition tzcnt (w : Z) : Z := default 64 (head (ones_of w)).
Definition lzcnt (w : Z) : Z := match last (ones_of w) with Some i => 63 - i | None => 64 end.
Definition not64 (w : Z) : Z := Z.lxor w UINT64_MAX.

Definition extract_rightmost_one (value : Z) : Z := Z.land value (u64 (- value)).
Definition remove_rightmost_one (value : Z) : Z := Z.land value (u64 (value - 1)).
Definition count_ones (value : Z) : Z := popcnt value.
Definition get_offset (word_id bit : Z) : Z := Z.shiftl word_id 6 + count_ones (u64 (bit - 1)).

(** ** Helpers on [int] *)
Definition pow_2_round_up (x : Z) : Z :=
  let x := s32 (x - 1) in
  let x := Z.lor x (Z.shiftr x 1) in
  let x := Z.lor x (Z.shiftr x 2) in
  let x := Z.lor x (Z.shiftr x 4) in
  let x := Z.lor x (Z.shiftr x 8) in
  let x := Z.lor x (Z.shiftr x 16) in
  s32 (x + 1).

(** [while (x >>= 1) ++res]: a negative number never reaches 0. *)
Fixpoint log_2_loop (fuel : nat) (x res : Z) : Prelude.res Z :=
  match fuel with
  | O => Diverge
  | S fuel => let x := Z.shiftr x 1 in
              if bool_decide (x ≠ 0) then log_2_loop fuel x (res + 1) else Ret res
  end.
Definition log_2_round_down (x : Z) : res Z := log_2_loop 32 x 0.

(** ** Arrays: lemmas *)
Section arrays.
Context {A : Type}.
Implicit Types (l : list A) (i j : Z).

Lemma rd_Some l i x : 0 ≤ i → l !! Z.to_nat i = Some x → rd l i = Ret x.
Proof. intros Hi E. unfold rd. by rewrite bool_decide_eq_true_2, E by lia. Qed.

Lemma rd_total `{!Inhabited A} l i :
  0 ≤ i < Z.of_nat (length l) → rd l i = Ret (l !!! Z.to_nat i).
Proof. intros Hi. apply rd_Some; [lia|]. apply list_lookup_lookup_total_lt. lia. Qed.

Lemma wr_in l i x : 0 ≤ i < Z.of_nat (length l) → wr l i x = Ret (<[Z.to_nat i := x]> l).
Proof. intros Hi. unfold wr. by rewrite bool_decide_eq_true_2 by lia. Qed.

Lemma insert_at_eq `{!Inhabited A} l i x :
  0 ≤ i < Z.of_nat (length l) → <[Z.to_nat i := x]> l !!! Z.to_nat i = x.
Proof. intros. apply list_lookup_total_insert_eq. lia. Qed.

Lemma insert_at_ne `{!Inhabited A} l i j x :
  0 ≤ i → 0 ≤ j → i ≠ j → <[Z.to_nat i := x]> l !!! Z.to_nat j = l !!! Z.to_nat j.
Proof. intros. apply list_lookup_total_insert_ne. lia. Qed.
End arrays.

(** An upward loop with an invariant indexed by the counter. *)
Lemma for_up_ind {S} (P : Z → S → Prop) (f : Z → S → res S) a b s :
  a ≤ b → P a s → (∀ i s, a ≤ i < b → P i s → ∃ s', f i s = Ret s' ∧ P (i + 1) s') →
  ∃ s', for_up a b f s = Ret s' ∧ P b s'.
Proof.
  intros Hab Hs Hf. unfold for_up.
  assert (∀ n i s, Z.of_nat n = b - i → a ≤ i → P i s → ∃ s', for_n n i f s = Ret s' ∧ P b s') as Hn.
  { clear s Hs. induction n as [|n IH]; intros i s En Hi Hp; cbn [for_n].
    - exists s. split; [done|]. by replace b with i by lia.
    - destruct (Hf i s) as (s' & -> & Hs'); [rewrite Nat2Z.inj_succ in En; lia|done|]. rewrite res_bind_ret. apply IH; [rewrite Nat2Z.inj_succ in En; lia|lia|done]. }
  by apply Hn; [lia|lia|].
Qed.

(** ** Words: lemmas *)
Section bits.
Implicit Types (w v i : Z).

Lemma elem_of_ones w i : i ∈ ones_of w ↔ Z.testbit w i = true ∧ 0 ≤ i < 64.
Proof. unfold ones_of. rewrite list_elem_of_filter, elem_of_seqZ. split; intros [? ?]; (split; [done|lia]). Qed.

Lemma ones_of_ext v w : (∀ i, 0 ≤ i < 64 → Z.testbit v i = Z.testbit w i) → ones_of v = ones_of w.
Proof.
  intros H. apply filter_ext_in. intros i Hi%elem_of_seqZ. by rewrite H by lia.
Qed.

Lemma word_eq v w :
  0 ≤ v < 2 ^ 64 → 0 ≤ w < 2 ^ 64 → (∀ i, 0 ≤ i < 64 → Z.testbit v i = Z.testbit w i) → v = w.
Proof.
  intros Hv Hw H. apply Z.bits_inj'. intros i Hi. destruct (decide (i < 64)); [apply H; lia|].
  assert (∀ x, 0 ≤ x < 2 ^ 64 → Z.testbit x i = false) as Hx.
  { intros x [? Hx]. destruct (decide (x = 0)) as [->|]; [by rewrite Z.testbit_0_l|].
    apply Z.bits_above_log2; [lia|]. apply Z.log2_lt_pow2 in Hx; lia. }
  by rewrite !Hx.
Qed.

Lemma testbit_high w i : 0 ≤ w < 2 ^ 64 → 64 ≤ i → Z.testbit w i = false.
Proof.
  intros [? Hw] Hi. destruct (Z.eq_dec w 0) as [->|]; [by rewrite Z.testbit_0_l|].
  apply Z.bits_above_log2; [lia|]. apply Z.log2_lt_pow2 in Hw; lia.
Qed.

Lemma not64_spec w i : 0 ≤ i < 64 → Z.testbit (not64 w) i = negb (Z.testbit w i).
Proof.
  intros Hi. unfold not64, UINT64_MAX. rewrite Z.lxor_spec.
  replace (2 ^ 64 - 1) with (Z.ones 64) by done. by rewrite Z.ones_spec_low by lia.
Qed.

Lemma mask_spec b i : 0 ≤ b → 0 ≤ i → Z.testbit (Z.shiftl 1 b - 1) i = bool_decide (i < b).
Proof.
  intros Hb Hi. replace (Z.shiftl 1 b - 1) with (Z.ones b)
    by (rewrite Z.ones_equiv, Z.shiftl_1_l; lia).
  case_bool_decide; [by apply Z.ones_spec_low|apply Z.ones_spec_high; lia].
Qed.

Lemma u64_testbit w i : 0 ≤ i < 64 → Z.testbit (u64 w) i = Z.testbit w i.
Proof. intros. unfold wrap. apply Z.mod_pow2_bits_low; lia. Qed.

Lemma land_range v w : 0 ≤ v < 2 ^ 64 → 0 ≤ Z.land v w < 2 ^ 64.
Proof.
  intros Hv. assert (Z.land v w = u64 (Z.land v w)) as ->; [|apply wrap_range; lia].
  unfold wrap. apply Z.bits_inj'. intros i Hi. destruct (decide (i < 64)).
  - by rewrite Z.mod_pow2_bits_low by lia.
  - rewrite Z.mod_pow2_bits_high by lia. by rewrite Z.land_spec, testbit_high by lia.
Qed.

Lemma lor_range v w : 0 ≤ v < 2 ^ 64 → 0 ≤ w < 2 ^ 64 → 0 ≤ Z.lor v w < 2 ^ 64.
Proof.
  intros Hv Hw. assert (Z.lor v w = u64 (Z.lor v w)) as ->; [|apply wrap_range; lia].
  unfold wrap. apply Z.bits_inj'. intros i Hi. destruct (decide (i < 64)).
  - by rewrite Z.mod_pow2_bits_low by lia.
  - rewrite Z.mod_pow2_bits_high by lia. by rewrite Z.lor_spec, !testbit_high by lia.
Qed.

(** The ones come in increasing order. *)
Lemma ones_sorted w : StronglySorted Z.lt (ones_of w).
Proof.
  apply filter_sorted, seqZ_sorted.
Qed.

Lemma tzcnt_spec w :
  (∃ i, 0 ≤ i < 64 ∧ Z.testbit w i = true) →
  0 ≤ tzcnt w < 64 ∧ Z.testbit w (tzcnt w) = true ∧
  ∀ i, 0 ≤ i < tzcnt w → Z.testbit w i = false.
Proof.
  intros (i0 & Hi0 & Hb). unfold tzcnt. pose proof (ones_sorted w) as Hs.
  assert (i0 ∈ ones_of w) as Hin by (by apply elem_of_ones).
  destruct (ones_of w) as [|x l] eqn:E; [by apply elem_of_nil in Hin|]. cbn.
  assert (x ∈ ones_of w) as [Hx ?]%elem_of_ones by (rewrite E; left).
  split; [done|]. split; [done|]. intros i Hi. destruct (Z.testbit w i) eqn:Hw; [|done].
  assert (i ∈ ones_of w) as Hl by (apply elem_of_ones; split; [done|lia]). rewrite E in Hl.
  apply StronglySorted_inv in Hs as [_ Hs]. rewrite list.Forall_forall in Hs.
  apply elem_of_cons in Hl as [->|Hl%Hs]; lia.
Qed.

Lemma tzcnt_none w : (∀ i, 0 ≤ i < 64 → Z.testbit w i = false) → tzcnt w = 64.
Proof.
  intros H. unfold tzcnt. destruct (ones_of w) as [|x l] eqn:E; [done|].
  assert (x ∈ ones_of w) as [Hx ?]%elem_of_ones by (rewrite E; left). by rewrite H in Hx.
Qed.

Lemma lzcnt_spec w :
  (∃ i, 0 ≤ i < 64 ∧ Z.testbit w i = true) →
  0 ≤ lzcnt w < 64 ∧ Z.testbit w (63 - lzcnt w) = true ∧
  ∀ i, 63 - lzcnt w < i < 64 → Z.testbit w i = false.
Proof.
  intros (i0 & Hi0 & Hb). unfold lzcnt. pose proof (ones_sorted w) as Hs.
  assert (i0 ∈ ones_of w) as Hin by (by apply elem_of_ones).
  destruct (last (ones_of w)) as [x|] eqn:E; [|apply last_None in E; rewrite E in Hin; by apply elem_of_nil in Hin].
  apply last_Some in E as (l & E).
  assert (x ∈ ones_of w) as [Hx ?]%elem_of_ones by (rewrite E; apply elem_of_app; right; left).
  replace (63 - (63 - x)) with x by lia. split; [lia|]. split; [done|].
  intros i Hi. destruct (Z.testbit w i) eqn:Hw; [|done].
  assert (i ∈ ones_of w) as Hl by (apply elem_of_ones; split; [done|lia]). rewrite E in Hl, Hs.
  apply elem_of_app in Hl as [Hl|Hl%list_elem_of_singleton]; [|lia].
  assert (i < x); [|lia]. apply (StronglySorted_app_1_elem_of _ l [x] i x Hs Hl). left.
Qed.

Lemma lzcnt_none w : (∀ i, 0 ≤ i < 64 → Z.testbit w i = false) → lzcnt w = 64.
Proof.
  intros H. unfold lzcnt. destruct (last (ones_of w)) as [x|] eqn:E; [|done].
  apply last_Some in E as (l & E).
  assert (x ∈ ones_of w) as [Hx ?]%elem_of_ones by (rewrite E; apply elem_of_app; right; left).
  by rewrite H in Hx.
Qed.

(** The rightmost one, isolated and counted off. *)
Lemma word_zero_bits w : 0 ≤ w < 2 ^ 64 → w ≠ 0 → ∃ i, 0 ≤ i < 64 ∧ Z.testbit w i = true.
Proof.
  intros Hw Hne. exists (Z.log2 w). split; [|apply Z.bit_log2; lia].
  split; [apply Z.log2_nonneg|]. apply Z.log2_lt_pow2; lia.
Qed.

Lemma word_split w t :
  0 ≤ t → Z.testbit w t = true → (∀ i, 0 ≤ i < t → Z.testbit w i = false) →
  w = (w / 2 ^ (t + 1) * 2 + 1) * 2 ^ t.
Proof.
  intros Ht Hb Hlow.
  assert (w mod 2 ^ t = 0) as Hm.
  { apply Z.bits_inj'. intros i Hi. rewrite Z.testbit_0_l.
    destruct (decide (i < t)); [rewrite Z.mod_pow2_bits_low by lia; by apply Hlow|
      apply Z.mod_pow2_bits_high; lia]. }
  pose proof (Z.div_mod w (2 ^ t) ltac:(lia)) as E. rewrite Hm in E.
  pose proof (Z.testbit_true w t Ht) as [H1 _]. specialize (H1 Hb).
  pose proof (Z.div_mod (w / 2 ^ t) 2 ltac:(lia)) as E2. rewrite H1 in E2.
  rewrite Z.div_div in E2 by lia. rewrite Z.pow_add_r by lia.
  change (2 ^ 1) with 2. lia.
Qed.

(** Below the rightmost one [w - 1] is all ones, above it agrees with [w]. *)
Lemma testbit_pred w t i :
  0 ≤ t → Z.testbit w t = true → (∀ j, 0 ≤ j < t → Z.testbit w j = false) → 0 ≤ i →
  Z.testbit (w - 1) i = if decide (i = t) then false else if decide (i < t) then true else Z.testbit w i.
Proof.
  intros Ht Hb Hlow Hi. pose proof (word_split w t Ht Hb Hlow) as E.
  set (q := w / 2 ^ (t + 1)) in *. clearbody q. assert (0 < 2 ^ t) by lia.
  assert (w - 1 = q * 2 ^ (t + 1) + (2 ^ t - 1)) as E1 by (rewrite Z.pow_add_r by lia; change (2 ^ 1) with 2; lia).
  assert (w = q * 2 ^ (t + 1) + 2 ^ t) as E0 by (rewrite Z.pow_add_r by lia; change (2 ^ 1) with 2; lia).
  assert (0 ≤ 2 ^ t < 2 ^ (t + 1)) by (rewrite Z.pow_add_r by lia; change (2 ^ 1) with 2; lia).
  assert (∀ r, 0 ≤ r < 2 ^ (t + 1) → Z.testbit (q * 2 ^ (t + 1) + r) i
    = if decide (i < t + 1) then Z.testbit r i else Z.testbit q (i - (t + 1))) as Hbit.
  { intros r Hr. destruct (decide _).
    - rewrite <- (Z.mod_pow2_bits_low _ (t + 1)) by lia. rewrite Z.add_comm, Z.mod_add by lia.
      by rewrite Z.mod_small by lia.
    - replace i with (i - (t + 1) + (t + 1)) at 1 by lia. rewrite <- Z.div_pow2_bits by lia.
      rewrite Z.div_add_l by lia. rewrite (Z.div_small r) by lia. by rewrite Z.add_0_r. }
  rewrite E1. rewrite E0. rewrite !Hbit by lia.
  replace (2 ^ t - 1) with (Z.ones t) by (rewrite Z.ones_equiv; lia).
  destruct (decide (i < t + 1)); [|by rewrite !decide_False by lia].
  destruct (decide (i = t)) as [->|]; [apply Z.ones_spec_high; lia|].
  rewrite decide_True by lia. apply Z.ones_spec_low; lia.
Qed.

Lemma testbit_extract w i :
  0 ≤ w < 2 ^ 64 → w ≠ 0 → 0 ≤ i < 64 → Z.testbit (extract_rightmost_one w) i = bool_decide (i = tzcnt w).
Proof.
  intros Hw Hne Hi. destruct (tzcnt_spec w (word_zero_bits w Hw Hne)) as (Ht & Hb & Hlow).
  unfold extract_rightmost_one. rewrite Z.land_spec, u64_testbit by lia.
  replace (- w) with (Z.lnot (w - 1)) by (unfold Z.lnot; lia).
  rewrite Z.lnot_spec by lia. rewrite (testbit_pred w (tzcnt w)) by (done || lia).
  repeat destruct (decide _); subst; rewrite ?bool_decide_eq_true_2, ?bool_decide_eq_false_2 by (lia || done).
  - by rewrite Hb.
  - by rewrite andb_false_r.
  - by destruct (Z.testbit w i).
Qed.

Lemma extract_pow w : 0 ≤ w < 2 ^ 64 → w ≠ 0 → extract_rightmost_one w = 2 ^ tzcnt w.
Proof.
  intros Hw Hne. destruct (tzcnt_spec w (word_zero_bits w Hw Hne)) as (Ht & Hb & Hlow).
  apply word_eq; [by apply land_range|split; [lia|apply Z.pow_lt_mono_r; lia]|].
  intros i Hi. rewrite testbit_extract by done. rewrite Z.pow2_bits_eqb by lia.
  case_bool_decide; symmetry; [apply Z.eqb_eq; lia|apply Z.eqb_neq; lia].
Qed.

Lemma get_offset_spec word w :
  0 ≤ w < 2 ^ 64 → w ≠ 0 → get_offset word (extract_rightmost_one w) = word * 64 + tzcnt w.
Proof.
  intros Hw Hne. destruct (tzcnt_spec w (word_zero_bits w Hw Hne)) as (Ht & Hb & Hlow).
  unfold get_offset, count_ones. rewrite extract_pow, Z.shiftl_mul_pow2 by (done || lia).
  f_equal. set (t := tzcnt w) in *. clearbody t.
  assert (2 ^ t < 2 ^ 64) by (apply Z.pow_lt_mono_r; lia). assert (0 < 2 ^ t) by lia.
  rewrite wrap_small by lia. unfold popcnt.
  assert (ones_of (2 ^ t - 1) = seqZ 0 t) as ->.
  { rewrite (ones_of_ext _ (Z.shiftl 1 t - 1)) by (by rewrite Z.shiftl_1_l). unfold ones_of.
    replace 64 with (t + (64 - t)) by lia. rewrite seqZ_app, filter_app by lia.
    rewrite filter_all, filter_none, app_nil_r; [done| |].
    - apply Forall_seqZ. intros i Hi. rewrite mask_spec, bool_decide_eq_false_2 by lia. done.
    - apply Forall_seqZ. intros i Hi. by rewrite mask_spec, bool_decide_eq_true_2 by lia. }
  rewrite length_seqZ. lia.
Qed.

Lemma remove_range w : 0 ≤ w < 2 ^ 64 → 0 ≤ remove_rightmost_one w < 2 ^ 64.
Proof. apply land_range. Qed.

Lemma testbit_remove w i :
  0 ≤ w < 2 ^ 64 → w ≠ 0 → 0 ≤ i < 64 →
  Z.testbit (remove_rightmost_one w) i = Z.testbit w i && bool_decide (i ≠ tzcnt w).
Proof.
  intros Hw Hne Hi. destruct (tzcnt_spec w (word_zero_bits w Hw Hne)) as (Ht & Hb & Hlow).
  unfold remove_rightmost_one. rewrite Z.land_spec, u64_testbit by lia.
  rewrite (testbit_pred w (tzcnt w)) by (done || lia).
  repeat destruct (decide _); subst; rewrite ?bool_decide_eq_true_2, ?bool_decide_eq_false_2 by (lia || done || auto).
  - done.
  - by rewrite Hlow by lia.
  - by destruct (Z.testbit w i).
Qed.
End bits.
