(* ===== verification/AlexNode.v ===== *)
(** * ALEX data nodes ([include/alex/alex_nodes.h])

    The leaf of the EPL-Tree's index: a gapped array.  A data node keeps its
    keys in order in an array with gaps; a bitmap tells keys from gaps, and a
    gap holds the key of the next key slot (the sentinel after the last one),
    so that a search need not look at the bitmap.  A linear model predicts the
    slot a key is searched from.

    The class template is instantiated as the EPL-Tree does: keys of type
    [uint64_t] compared by [<], payloads that are pointers, keys and payloads
    in separate arrays.  The links between leaves belong to the tree above.
    Positions are [int]s between -1 and the capacity; the counters that only
    grow wrap at 32 bits. *)
From S2P Require Import Prelude Ieee AlexBase.

Definition kEndSentinel_ : Z := UINT64_MAX.
Definition kMaxDensity_ : double := d_div (d_of_Z 8) (d_of_Z 10).
Definition kInitDensity_ : double := d_div (d_of_Z 7) (d_of_Z 10).
Definition kMinDensity_ : double := d_div (d_of_Z 6) (d_of_Z 10).
Definition kAppendMostlyThreshold : double := d_div (d_of_Z 9) (d_of_Z 10).
Definition kExpSearchIterationsWeight : double := d_of_Z 20.
Definition kShiftsWeight : double := d_div (d_of_Z 1) (d_of_Z 2).
Definition kNodeLookupsWeight : double := d_of_Z 20.

(** The three arrays of a node. *)
Record slots : Type := mkSlots {
  key_slots_ : list Z;
  payload_slots_ : list Z;
  bitmap_ : list Z
}.

Record counters : Type := mkCounters {
  num_shifts_ : double;
  num_exp_search_iterations_ : double;
  num_lookups_ : Z;
  num_inserts_ : Z;
  num_resizes_ : Z
}.

Record extremes : Type := mkExtremes {
  max_key_ : Z;
  min_key_ : Z;
  num_right_out_of_bounds_inserts_ : Z;
  num_left_out_of_bounds_inserts_ : Z
}.

Record AlexDataNode : Type := mkNode {
  slots_ : slots;
  data_capacity_ : Z;
  num_keys_ : Z;
  bitmap_size_ : Z;
  node_model : LinearModel;
  cost_ : double;
  expansion_threshold_ : double;
  contraction_threshold_ : double;
  max_slots_ : Z;
  counters_ : counters;
  extremes_ : extremes;
  expected_avg_exp_search_iterations_ : double;
  expected_avg_shifts_ : double
}.

Section node.
Implicit Types (n : AlexDataNode) (t : slots) (key payload pos cap : Z).

Definition with_slots t n : AlexDataNode :=
  mkNode t (data_capacity_ n) (num_keys_ n) (bitmap_size_ n) (node_model n) (cost_ n)
    (expansion_threshold_ n) (contraction_threshold_ n) (max_slots_ n) (counters_ n) (extremes_ n)
    (expected_avg_exp_search_iterations_ n) (expected_avg_shifts_ n).
Definition with_num_keys k n : AlexDataNode :=
  mkNode (slots_ n) (data_capacity_ n) k (bitmap_size_ n) (node_model n) (cost_ n)
    (expansion_threshold_ n) (contraction_threshold_ n) (max_slots_ n) (counters_ n) (extremes_ n)
    (expected_avg_exp_search_iterations_ n) (expected_avg_shifts_ n).
Definition with_counters c n : AlexDataNode :=
  mkNode (slots_ n) (data_capacity_ n) (num_keys_ n) (bitmap_size_ n) (node_model n) (cost_ n)
    (expansion_threshold_ n) (contraction_threshold_ n) (max_slots_ n) c (extremes_ n)
    (expected_avg_exp_search_iterations_ n) (expected_avg_shifts_ n).
Definition with_extremes e n : AlexDataNode :=
  mkNode (slots_ n) (data_capacity_ n) (num_keys_ n) (bitmap_size_ n) (node_model n) (cost_ n)
    (expansion_threshold_ n) (contraction_threshold_ n) (max_slots_ n) (counters_ n) e
    (expected_avg_exp_search_iterations_ n) (expected_avg_shifts_ n).
Definition with_node_model m n : AlexDataNode :=
  mkNode (slots_ n) (data_capacity_ n) (num_keys_ n) (bitmap_size_ n) m (cost_ n)
    (expansion_threshold_ n) (contraction_threshold_ n) (max_slots_ n) (counters_ n) (extremes_ n)
    (expected_avg_exp_search_iterations_ n) (expected_avg_shifts_ n).
Definition with_thresholds x y n : AlexDataNode :=
  mkNode (slots_ n) (data_capacity_ n) (num_keys_ n) (bitmap_size_ n) (node_model n) (cost_ n)
    x y (max_slots_ n) (counters_ n) (extremes_ n)
    (expected_avg_exp_search_iterations_ n) (expected_avg_shifts_ n).
Definition with_arrays t cap bsize n : AlexDataNode :=
  mkNode t cap (num_keys_ n) bsize (node_model n) (cost_ n)
    (expansion_threshold_ n) (contraction_threshold_ n) (max_slots_ n) (counters_ n) (extremes_ n)
    (expected_avg_exp_search_iterations_ n) (expected_avg_shifts_ n).

Definition add_lookup n : AlexDataNode :=
  let c := counters_ n in
  with_counters (mkCounters (num_shifts_ c) (num_exp_search_iterations_ c)
    (s32 (num_lookups_ c + 1)) (num_inserts_ c) (num_resizes_ c)) n.
Definition add_resize n : AlexDataNode :=
  let c := counters_ n in
  with_counters (mkCounters (num_shifts_ c) (num_exp_search_iterations_ c)
    (num_lookups_ c) (num_inserts_ c) (s32 (num_resizes_ c + 1))) n.
Definition add_insert n : AlexDataNode :=
  let c := counters_ n in
  with_counters (mkCounters (num_shifts_ c) (num_exp_search_iterations_ c)
    (num_lookups_ c) (s32 (num_inserts_ c + 1)) (num_resizes_ c)) n.
Definition add_shifts s n : AlexDataNode :=
  let c := counters_ n in
  with_counters (mkCounters (d_add (num_shifts_ c) (d_of_Z s)) (num_exp_search_iterations_ c)
    (num_lookups_ c) (num_inserts_ c) (num_resizes_ c)) n.
Definition with_iterations x n : AlexDataNode :=
  let c := counters_ n in
  with_counters (mkCounters (num_shifts_ c) x (num_lookups_ c) (num_inserts_ c) (num_resizes_ c)) n.

(** The constructor [AlexDataNode(level, max_data_node_slots)]: no arrays yet. *)
Definition node_new (max_data_node_slots : Z) : AlexDataNode :=
  mkNode (mkSlots [] [] []) 0 0 0 model0 (d_of_Z 0) (d_of_Z 1) (d_of_Z 0) max_data_node_slots
    (mkCounters (d_of_Z 0) (d_of_Z 0) 0 0 0) (mkExtremes 0 UINT64_MAX 0 0) (d_of_Z 0) (d_of_Z 0).

(** ** The bitmap *)
Definition word_of pos : Z := Z.shiftr pos 6.
Definition bit_of pos : Z := pos - Z.shiftl (word_of pos) 6.

Definition check_exists cap t pos : res bool :=
  if negb (bool_decide (0 ≤ pos) && bool_decide (pos < cap)) then Fault
  else let* w := rd (bitmap_ t) (word_of pos) in
       Ret (bool_decide (Z.land w (Z.shiftl 1 (bit_of pos)) ≠ 0)).

Definition set_bit_in (bitmap : list Z) pos : res (list Z) :=
  let* w := rd bitmap (word_of pos) in
  wr bitmap (word_of pos) (Z.lor w (Z.shiftl 1 (bit_of pos))).

Definition set_bit cap t pos : res slots :=
  if negb (bool_decide (0 ≤ pos) && bool_decide (pos < cap)) then Fault
  else let* bm := set_bit_in (bitmap_ t) pos in Ret (mkSlots (key_slots_ t) (payload_slots_ t) bm).

Definition unset_bit cap t pos : res slots :=
  if negb (bool_decide (0 ≤ pos) && bool_decide (pos < cap)) then Fault
  else let* w := rd (bitmap_ t) (word_of pos) in
       let* bm := wr (bitmap_ t) (word_of pos) (Z.land w (not64 (Z.shiftl 1 (bit_of pos)))) in
       Ret (mkSlots (key_slots_ t) (payload_slots_ t) bm).

(** Stores into the arrays. *)
Definition set_key pos key t : res slots :=
  let* ks := wr (key_slots_ t) pos key in Ret (mkSlots ks (payload_slots_ t) (bitmap_ t)).
Definition set_payload pos payload t : res slots :=
  let* ps := wr (payload_slots_ t) pos payload in Ret (mkSlots (key_slots_ t) ps (bitmap_ t)).

(** The first position with a key going up from [i], and going down. *)
Fixpoint exists_up (fuel : nat) cap t (i : Z) : res (option Z) :=
  match fuel with
  | O => Ret None
  | S fuel => let* b := check_exists cap t i in
              if b : bool then Ret (Some i) else exists_up fuel cap t (i + 1)
  end.
Fixpoint exists_down (fuel : nat) cap t (i : Z) : res (option Z) :=
  match fuel with
  | O => Ret None
  | S fuel => let* b := check_exists cap t i in
              if b : bool then Ret (Some i) else exists_down fuel cap t (i - 1)
  end.

Definition first_pos n : res Z :=
  let cap := data_capacity_ n in
  let* o := exists_up (Z.to_nat cap) cap (slots_ n) 0 in Ret (default 0 o).
Definition last_pos n : res Z :=
  let cap := data_capacity_ n in
  let* o := exists_down (Z.to_nat cap) cap (slots_ n) (cap - 1) in Ret (default 0 o).
Definition first_key n : res Z :=
  let cap := data_capacity_ n in
  let* o := exists_up (Z.to_nat cap) cap (slots_ n) 0 in
  match o with Some i => rd (key_slots_ (slots_ n)) i | None => Ret UINT64_MAX end.
Definition last_key n : res Z :=
  let cap := data_capacity_ n in
  let* o := exists_down (Z.to_nat cap) cap (slots_ n) (cap - 1) in
  match o with Some i => rd (key_slots_ (slots_ n)) i | None => Ret 0 end.

Definition low_mask (b : Z) : Z := Z.shiftl 1 b - 1.

Definition num_keys_in_range (left right : Z) n : res Z :=
  let bm := bitmap_ (slots_ n) in
  if negb (bool_decide (0 ≤ left ≤ right ∧ right ≤ data_capacity_ n)) then Fault
  else
    let li := word_of left in let ri := word_of right in
    if bool_decide (li = ri) then
      let* w := rd bm li in
      Ret (popcnt (Z.land (Z.land w (not64 (low_mask (bit_of left)))) (low_mask (bit_of right))))
    else
      let* w := rd bm li in
      let num_keys := popcnt (Z.land w (not64 (low_mask (bit_of left)))) in
      let* num_keys := for_up (li + 1) ri (λ i c, let* w := rd bm i in Ret (c + popcnt w)) num_keys in
      if bool_decide (ri ≠ bitmap_size_ n) then
        let* w := rd bm ri in Ret (num_keys + popcnt (Z.land w (low_mask (bit_of right))))
      else Ret num_keys.

(** ** The iterator over the keys of a node *)
Record Iterator : Type := mkIterator {
  cur_idx_ : Z;
  cur_bitmap_idx_ : Z;
  cur_bitmap_data_ : Z
}.

(** [while (data == 0) data = bitmap_[++idx]]: a word that is not 0 and its
    index, or 0 and the end of the bitmap. *)
Fixpoint scan_words (fuel : nat) (bsize : Z) (bitmap : list Z) (idx data : Z) : res (Z * Z) :=
  match fuel with
  | O => Diverge
  | S fuel =>
      if bool_decide (data = 0) then
        let idx := idx + 1 in
        if bool_decide (bsize ≤ idx) then Ret (idx, 0)
        else let* data := rd bitmap idx in scan_words fuel bsize bitmap idx data
      else Ret (idx, data)
  end.
Definition scan_fuel n : nat := S (Z.to_nat (bitmap_size_ n)).

Definition it_next n (it : Iterator) : res Iterator :=
  let* (idx, data) := scan_words (scan_fuel n) (bitmap_size_ n) (bitmap_ (slots_ n))
                        (cur_bitmap_idx_ it) (cur_bitmap_data_ it) in
  if bool_decide (data = 0) then Ret (mkIterator (-1) idx 0)
  else let bit := extract_rightmost_one data in
       Ret (mkIterator (get_offset idx bit) idx (remove_rightmost_one data)).

Definition it_initialize n (idx : Z) : res Iterator :=
  let* w := rd (bitmap_ (slots_ n)) (word_of idx) in
  it_next n (mkIterator idx (word_of idx) (Z.land w (not64 (low_mask (bit_of idx))))).

Definition is_end (it : Iterator) : bool := bool_decide (cur_idx_ it = -1).
Definition it_key n (it : Iterator) : res Z := rd (key_slots_ (slots_ n)) (cur_idx_ it).
Definition it_payload n (it : Iterator) : res Z := rd (payload_slots_ (slots_ n)) (cur_idx_ it).
Definition it_in n (right : Z) (it : Iterator) : bool := bool_decide (cur_idx_ it < right) && negb (is_end it).

(** ** Building the arrays *)
Definition thresholds (num_keys : Z) n : AlexDataNode :=
  let cap := d_of_Z (data_capacity_ n) in
  with_thresholds (d_min (d_max (d_mul cap kMaxDensity_) (d_of_Z (num_keys + 1))) cap)
    (d_mul cap kMinDensity_) n.

Definition capacity_for (num_keys : Z) (density : double) : Z :=
  Z.max (d_to_int (d_div (d_of_Z num_keys) density)) (num_keys + 1).
(** [ceil(capacity / 64.)], exact in [double]. *)
Definition words_for cap : Z := (cap + 63) / 64.

Definition fill_keys (a b : Z) key t : res slots := for_up a b (λ j, set_key j key) t.
Definition put_slot pos key payload t : res slots :=
  let* t := set_key pos key t in
  let* t := set_payload pos payload t in
  let* bm := set_bit_in (bitmap_ t) pos in
  Ret (mkSlots (key_slots_ t) (payload_slots_ t) bm).

(** The tail of the input laid out without gaps. *)
Fixpoint put_rest (vs : list (Z * Z)) pos t : res (slots * Z) :=
  match vs with
  | [] => Ret (t, pos)
  | (k, p) :: vs => let* t := put_slot pos k p t in put_rest vs (pos + 1) t
  end.

Fixpoint bulk_loop (m : LinearModel) cap (vs : list (Z * Z)) (last_position keys_remaining : Z) t
    : res (slots * Z) :=
  match vs with
  | [] => Ret (t, last_position)
  | (k, p) :: vs' =>
      let position := Z.max (predict k m) (last_position + 1) in
      let positions_remaining := cap - position in
      if bool_decide (positions_remaining < keys_remaining) then
        let pos := cap - keys_remaining in
        let* t := fill_keys (last_position + 1) pos k t in
        let* (t, pos) := put_rest vs pos t in
        Ret (t, pos - 1)
      else
        let* t := fill_keys (last_position + 1) position k t in
        let* t := put_slot position k p t in
        bulk_loop m cap vs' position (keys_remaining - 1) t
  end.

(** The same with the input read through an iterator. *)
Fixpoint copy_rest (fuel : nat) (src : AlexDataNode) (it : Iterator) pos cap t : res slots :=
  match fuel with
  | O => Diverge
  | S fuel =>
      if bool_decide (pos < cap) then
        let* k := it_key src it in
        let* p := it_payload src it in
        let* t := put_slot pos k p t in
        let* it := it_next src it in
        copy_rest fuel src it (pos + 1) cap t
      else Ret t
  end.

Fixpoint copy_loop (fuel : nat) (m : LinearModel) cap (src : AlexDataNode) (right : Z) (it : Iterator)
    (last_position keys_remaining : Z) t : res (slots * Z) :=
  match fuel with
  | O => Diverge
  | S fuel' =>
      if it_in src right it then
        let* k := it_key src it in
        let position := Z.max (predict k m) (last_position + 1) in
        let positions_remaining := cap - position in
        if bool_decide (positions_remaining < keys_remaining) then
          let pos := cap - keys_remaining in
          let* t := fill_keys (last_position + 1) pos k t in
          let* t := copy_rest fuel src it pos cap t in
          Ret (t, Z.max pos cap - 1)
        else
          let* t := fill_keys (last_position + 1) position k t in
          let* p := it_payload src it in
          let* t := put_slot position k p t in
          let* it := it_next src it in
          copy_loop fuel' m cap src right it position (keys_remaining - 1) t
      else Ret (t, last_position)
  end.

(** ** The model of a node *)
Fixpoint add_all (vs : list (Z * Z)) (i : Z) (b : LinearModelBuilder) : LinearModelBuilder :=
  match vs with [] => b | (k, _) :: vs => add_all vs (i + 1) (add k i b) end.

(** [for (i = from; i < num_keys; i += step) builder.add(values[i].first, i)]. *)
Fixpoint add_every (fuel : nat) (vs : list (Z * Z)) (i step num_keys : Z) (b : LinearModelBuilder)
    : res LinearModelBuilder :=
  match fuel with
  | O => Diverge
  | S fuel =>
      if bool_decide (i < num_keys) then
        let* v := rd vs i in add_every fuel vs (i + step) step num_keys (add v.1 i b)
      else Ret b
  end.

Fixpoint initial_step (fuel : nat) (sample_size : double) (step_size : Z) : Z :=
  match fuel with
  | O => step_size
  | S fuel => if d_le (d_of_Z 10) sample_size
              then initial_step fuel (d_div sample_size (d_of_Z 2)) (step_size * 2) else step_size
  end.

Fixpoint refine_model (fuel : nat) (vs : list (Z * Z)) (step_size num_keys : Z) (prev_a prev_b : double)
    (b : LinearModelBuilder) : res LinearModel :=
  match fuel with
  | O => Diverge
  | S fuel' =>
      if bool_decide (1 < step_size) then
        let step_size := step_size / 2 in
        let* b := add_every (Z.to_nat num_keys + 1) vs step_size (2 * step_size) num_keys b in
        let b := build b in
        let m := model_ b in
        let rel_change_in_a := SFabs (d_div (d_sub (a_ m) prev_a) prev_a) in
        let abs_change_in_b := SFabs (d_sub (b_ m) prev_b) in
        let rel_change_in_b := SFabs (d_div abs_change_in_b prev_b) in
        let threshold := d_div (d_of_Z 1) (d_of_Z 100) in
        if d_lt rel_change_in_a threshold &&
           (d_lt rel_change_in_b threshold || d_lt abs_change_in_b (d_div (d_of_Z 1) (d_of_Z 2)))
        then Ret m
        else refine_model fuel' vs step_size num_keys (a_ m) (b_ m) b
      else Ret (model_ b)
  end.

Definition build_model_sampling (vs : list (Z * Z)) (num_keys : Z) (m : LinearModel) : res LinearModel :=
  if bool_decide (num_keys ≤ 10 * 2) then Ret (model_ (build (add_all vs 0 (builder_new m))))
  else
    let step_size := initial_step 32 (d_of_Z num_keys) 1 / 2 in
    let* b := add_every (Z.to_nat num_keys + 1) vs 0 step_size num_keys (builder_new m) in
    let b := build b in
    refine_model 32 vs step_size num_keys (a_ (model_ b)) (b_ (model_ b)) b.

Definition build_model (vs : list (Z * Z)) (num_keys : Z) (m : LinearModel) (use_sampling : bool)
    : res LinearModel :=
  if use_sampling then build_model_sampling vs num_keys m
  else Ret (model_ (build (add_all vs 0 (builder_new m)))).

(** The fit over the keys of an existing node, and how many there are. *)
Fixpoint fit_existing (fuel : nat) (src : AlexDataNode) (right : Z) (it : Iterator) (i : Z)
    (b : LinearModelBuilder) : res (LinearModelBuilder * Z) :=
  match fuel with
  | O => Diverge
  | S fuel =>
      if it_in src right it then
        let* k := it_key src it in
        let* it := it_next src it in
        fit_existing fuel src right it (i + 1) (add k i b)
      else Ret (b, i)
  end.
End node.

(** The loops over the keys of a node end with its slots. *)
Definition keys_fuel (src : AlexDataNode) : nat := S (S (Z.to_nat (data_capacity_ src))).
