(* ===== verification/AlexOps.v ===== *)
(** * ALEX data nodes: the operations ([include/alex/alex_nodes.h])

    Bulk loading, lookups, inserts with resizing and shifting, deletes and the
    structure check of [AlexNode.v]'s node.  [junk] is what [new T[]] leaves in
    fresh arrays; [allow_duplicates] the class's template argument. *)
From S2P Require Import Prelude Ieee AlexBase AlexNode.

Section ops.
Context (junk : Z → Z) (allow_duplicates : bool).
Implicit Types (n : AlexDataNode) (t : slots) (key payload pos cap : Z).

(** ** Bulk loading *)
Definition fresh_slots cap : slots :=
  mkSlots (junk <$> seqZ 0 cap) (junk <$> seqZ 0 cap) (replicate (Z.to_nat (words_for cap)) 0).

Definition initialize (num_keys : Z) (density : double) n : AlexDataNode :=
  let cap := capacity_for num_keys density in
  with_arrays (fresh_slots cap) cap (words_for cap) (with_num_keys num_keys n).

Definition load_empty n : res AlexDataNode :=
  let cap := data_capacity_ n in
  let* t := fill_keys 0 cap kEndSentinel_ (slots_ n) in
  Ret (with_thresholds (d_of_Z cap) (d_of_Z 0) (with_slots t n)).

Definition set_extremes (max_key min_key : Z) n : AlexDataNode :=
  let e := extremes_ n in
  with_extremes (mkExtremes max_key min_key (num_right_out_of_bounds_inserts_ e)
    (num_left_out_of_bounds_inserts_ e)) n.

Definition bulk_load (values : list (Z * Z)) (num_keys : Z) (pretrained_model : option LinearModel)
    (train_with_sample : bool) n : res AlexDataNode :=
  let n := initialize num_keys kInitDensity_ n in
  let cap := data_capacity_ n in
  if bool_decide (num_keys = 0) then load_empty n
  else
    let* m := match pretrained_model with
              | Some m => Ret m
              | None => build_model values num_keys (node_model n) train_with_sample
              end in
    let m := expand (d_div (d_of_Z cap) (d_of_Z num_keys)) m in
    let* (t, last_position) := bulk_loop m cap values (-1) num_keys (slots_ n) in
    let* t := fill_keys (last_position + 1) cap kEndSentinel_ t in
    let* first := rd values 0 in
    let* final := rd values (num_keys - 1) in
    Ret (set_extremes final.1 first.1 (thresholds num_keys (with_node_model m (with_slots t n)))).

Definition bulk_load_from_existing (node : AlexDataNode) (left right : Z) (keep_left keep_right : bool)
    (precomputed_model : option LinearModel) (precomputed_num_actual_keys : Z) n : res AlexDataNode :=
  if negb (bool_decide (0 ≤ left ∧ right ≤ data_capacity_ node)) then Fault
  else
    let* (m, num_actual_keys) :=
      match precomputed_model with
      | Some m => if bool_decide (precomputed_num_actual_keys = -1) then
            let* it := it_initialize node left in
            let* (b, c) := fit_existing (keys_fuel node) node right it 0 (builder_new (node_model n)) in
            Ret (model_ (build b), c)
          else Ret (m, precomputed_num_actual_keys)
      | None =>
          let* it := it_initialize node left in
          let* (b, c) := fit_existing (keys_fuel node) node right it 0 (builder_new (node_model n)) in
          Ret (model_ (build b), c)
      end in
    let n := with_node_model m (initialize num_actual_keys kMinDensity_ n) in
    let cap := data_capacity_ n in
    if bool_decide (num_actual_keys = 0) then load_empty n
    else
      let packed := d_div (d_of_Z num_actual_keys) kMaxDensity_ in
      let num_keys := d_of_Z (num_keys_ n) in
      let m :=
        if keep_left then expand (d_div packed num_keys) m
        else if keep_right then
          let m := expand (d_div packed num_keys) m in
          mkModel (a_ m) (d_add (b_ m) (d_sub (d_of_Z cap) packed))
        else expand (d_div (d_of_Z cap) num_keys) m in
      let* it := it_initialize node left in
      let* min_key := it_key node it in
      let* (t, last_position) :=
        copy_loop (keys_fuel node) m cap node right it (-1) (num_keys_ n) (slots_ n) in
      let* t := fill_keys (last_position + 1) cap kEndSentinel_ t in
      let* max_key := rd (key_slots_ t) last_position in
      Ret (thresholds (num_keys_ n) (set_extremes max_key min_key (with_node_model m (with_slots t n)))).

(** ** Searching *)
Definition predict_position key n : Z :=
  Z.max (Z.min (predict key (node_model n)) (data_capacity_ n - 1)) 0.

(** The doubling loop; [holds] tells whether the slot at a distance is still
    on the wrong side. *)
Fixpoint exp_loop (fuel : nat) (holds : Z → res bool) (size bound : Z) (iterations : double)
    : res (Z * double) :=
  match fuel with
  | O => Diverge
  | S fuel =>
      if bool_decide (bound < size) then
        let* h := holds bound in
        if h : bool then exp_loop fuel holds size (bound * 2) (d_add iterations (d_of_Z 1))
        else Ret (bound, iterations)
      else Ret (bound, iterations)
  end.

Fixpoint binary_loop (fuel : nat) (goes_right : Z → res bool) (l r : Z) : res Z :=
  match fuel with
  | O => Diverge
  | S fuel =>
      if bool_decide (l < r) then
        let mid := l + (r - l) / 2 in
        let* g := goes_right mid in
        if g : bool then binary_loop fuel goes_right (mid + 1) r else binary_loop fuel goes_right l mid
      else Ret l
  end.
(** Enough for any [int] range. *)
Definition search_fuel : nat := 33.

Definition binary_search_upper_bound (l r key : Z) n : res Z :=
  binary_loop search_fuel (λ mid, let* k := rd (key_slots_ (slots_ n)) mid in Ret (bool_decide (k ≤ key))) l r.
Definition binary_search_lower_bound (l r key : Z) n : res Z :=
  binary_loop search_fuel (λ mid, let* k := rd (key_slots_ (slots_ n)) mid in Ret (bool_decide (k < key))) l r.

Definition exponential_search_upper_bound (m key : Z) n : res (Z * AlexDataNode) :=
  let ks := key_slots_ (slots_ n) in
  let iterations := num_exp_search_iterations_ (counters_ n) in
  let* k := rd ks m in
  if bool_decide (key < k) then
    let size := m in
    let* (bound, iterations) :=
      exp_loop search_fuel (λ b, let* k := rd ks (m - b) in Ret (bool_decide (key < k))) size 1 iterations in
    let* pos := binary_search_upper_bound (m - Z.min bound size) (m - bound / 2) key n in
    Ret (pos, with_iterations iterations n)
  else
    let size := data_capacity_ n - m in
    let* (bound, iterations) :=
      exp_loop search_fuel (λ b, let* k := rd ks (m + b) in Ret (bool_decide (k ≤ key))) size 1 iterations in
    let* pos := binary_search_upper_bound (m + bound / 2) (m + Z.min bound size) key n in
    Ret (pos, with_iterations iterations n).

Definition exponential_search_lower_bound (m key : Z) n : res (Z * AlexDataNode) :=
  let ks := key_slots_ (slots_ n) in
  let iterations := num_exp_search_iterations_ (counters_ n) in
  let* k := rd ks m in
  if bool_decide (key ≤ k) then
    let size := m in
    let* (bound, iterations) :=
      exp_loop search_fuel (λ b, let* k := rd ks (m - b) in Ret (bool_decide (key ≤ k))) size 1 iterations in
    let* pos := binary_search_lower_bound (m - Z.min bound size) (m - bound / 2) key n in
    Ret (pos, with_iterations iterations n)
  else
    let size := data_capacity_ n - m in
    let* (bound, iterations) :=
      exp_loop search_fuel (λ b, let* k := rd ks (m + b) in Ret (bool_decide (k < key))) size 1 iterations in
    let* pos := binary_search_lower_bound (m + bound / 2) (m + Z.min bound size) key n in
    Ret (pos, with_iterations iterations n).

Definition upper_bound key n : res (Z * AlexDataNode) :=
  let n := add_lookup n in exponential_search_upper_bound (predict_position key n) key n.
Definition lower_bound key n : res (Z * AlexDataNode) :=
  let n := add_lookup n in exponential_search_lower_bound (predict_position key n) key n.

Definition get_next_filled_position pos (exclusive : bool) n : res Z :=
  let pos := if exclusive then pos + 1 else pos in
  if exclusive && bool_decide (pos = data_capacity_ n) then Ret (data_capacity_ n)
  else
    let bm := bitmap_ (slots_ n) in
    let* w := rd bm (word_of pos) in
    let* (idx, data) := scan_words (scan_fuel n) (bitmap_size_ n) bm (word_of pos)
                          (Z.land w (not64 (low_mask (bit_of pos)))) in
    if bool_decide (data = 0) then Ret (data_capacity_ n)
    else Ret (get_offset idx (extract_rightmost_one data)).

Definition find_key key n : res (Z * AlexDataNode) :=
  let n := add_lookup n in
  let predicted_pos := predict_position key n in
  let* (pos, n) := exponential_search_upper_bound predicted_pos key n in
  let pos := pos - 1 in
  if bool_decide (pos < 0) then Ret (-1, n)
  else let* k := rd (key_slots_ (slots_ n)) pos in
       if negb (bool_decide (k = key)) then Ret (-1, n) else Ret (pos, n).

Definition find_lower key n : res (Z * AlexDataNode) :=
  let n := add_lookup n in
  let predicted_pos := predict_position key n in
  let* (pos, n) := exponential_search_lower_bound predicted_pos key n in
  let* pos := get_next_filled_position pos false n in Ret (pos, n).

Definition find_upper key n : res (Z * AlexDataNode) :=
  let n := add_lookup n in
  let predicted_pos := predict_position key n in
  let* (pos, n) := exponential_search_upper_bound predicted_pos key n in
  let* pos := get_next_filled_position pos false n in Ret (pos, n).

Definition find_insert_position key n : res (Z * Z * AlexDataNode) :=
  let predicted_pos := predict_position key n in
  let* (pos, n) := exponential_search_upper_bound predicted_pos key n in
  let* b := if bool_decide (predicted_pos ≤ pos) then Ret true
            else check_exists (data_capacity_ n) (slots_ n) pos in
  if b : bool then Ret (pos, pos, n)
  else let* next := get_next_filled_position pos true n in
       Ret (Z.min predicted_pos (next - 1), pos, n).

(** ** The empirical cost *)
Definition shifts_per_insert n : double :=
  let c := counters_ n in
  if bool_decide (num_inserts_ c = 0) then d_of_Z 0
  else d_div (num_shifts_ c) (d_of_Z (num_inserts_ c)).

Definition exp_search_iterations_per_operation n : double :=
  let c := counters_ n in
  let num_ops := s32 (num_inserts_ c + num_lookups_ c) in
  if bool_decide (num_ops = 0) then d_of_Z 0
  else d_div (num_exp_search_iterations_ c) (d_of_Z num_ops).

Definition frac_inserts n : double :=
  let c := counters_ n in
  let num_ops := s32 (num_inserts_ c + num_lookups_ c) in
  if bool_decide (num_ops = 0) then d_of_Z 0
  else d_div (d_of_Z (num_inserts_ c)) (d_of_Z num_ops).

Definition empirical_cost n : double :=
  let c := counters_ n in
  let num_ops := s32 (num_inserts_ c + num_lookups_ c) in
  if bool_decide (num_ops = 0) then d_of_Z 0
  else d_add (d_mul kExpSearchIterationsWeight (exp_search_iterations_per_operation n))
             (d_mul (d_mul kShiftsWeight (shifts_per_insert n))
                    (d_div (d_of_Z (num_inserts_ c)) (d_of_Z num_ops))).

Definition reset_stats n : AlexDataNode := with_counters (mkCounters (d_of_Z 0) (d_of_Z 0) 0 0 0) n.

Definition significant_cost_deviation n : bool :=
  let emp_cost := empirical_cost n in
  d_lt kNodeLookupsWeight emp_cost && d_lt (d_mul (d_div (d_of_Z 3) (d_of_Z 2)) (cost_ n)) emp_cost.

Definition catastrophic_cost n : bool :=
  d_lt (d_of_Z 100) (shifts_per_insert n) || d_lt (d_of_Z 100) (expected_avg_shifts_ n).

Definition is_append_mostly_right n : bool :=
  d_lt kAppendMostlyThreshold
    (d_div (d_of_Z (num_right_out_of_bounds_inserts_ (extremes_ n))) (d_of_Z (num_inserts_ (counters_ n)))).
Definition is_append_mostly_left n : bool :=
  d_lt kAppendMostlyThreshold
    (d_div (d_of_Z (num_left_out_of_bounds_inserts_ (extremes_ n))) (d_of_Z (num_inserts_ (counters_ n)))).

(** ** Resizing *)
Definition resize_model (new_data_capacity : Z) (force_retrain keep_left keep_right : bool) n
    : res LinearModel :=
  let cap := data_capacity_ n in
  let num_keys := d_of_Z (num_keys_ n) in
  let shift m := mkModel (a_ m) (d_add (b_ m) (d_of_Z (new_data_capacity - cap))) in
  if bool_decide (num_keys_ n < 50) || force_retrain then
    let* it := it_initialize n 0 in
    let* (b, _) := fit_existing (keys_fuel n) n cap it 0 (builder_new (node_model n)) in
    let m := model_ (build b) in
    Ret (if keep_left then expand (d_div (d_of_Z cap) num_keys) m
         else if keep_right then shift (expand (d_div (d_of_Z cap) num_keys) m)
         else expand (d_div (d_of_Z new_data_capacity) num_keys) m)
  else
    let m := node_model n in
    Ret (if keep_right then shift m
         else if negb keep_left then expand (d_div (d_of_Z new_data_capacity) (d_of_Z cap)) m
         else m).

Definition resize (target_density : double) (force_retrain keep_left keep_right : bool) n
    : res AlexDataNode :=
  if bool_decide (num_keys_ n = 0) then Ret n
  else
    let new_data_capacity := capacity_for (num_keys_ n) target_density in
    let* m := resize_model new_data_capacity force_retrain keep_left keep_right n in
    let* it := it_initialize n 0 in
    let* (t, last_position) :=
      copy_loop (keys_fuel n) m new_data_capacity n (data_capacity_ n) it (-1) (num_keys_ n)
        (fresh_slots new_data_capacity) in
    let* t := fill_keys (last_position + 1) new_data_capacity kEndSentinel_ t in
    Ret (thresholds (num_keys_ n)
      (with_arrays t new_data_capacity (words_for new_data_capacity) (with_node_model m n))).

(** ** Inserting *)
(** Overwrites the gaps from [pos] downwards. *)
Fixpoint fill_back (fuel : nat) cap key pos t : res slots :=
  match fuel with
  | O => Ret t
  | S fuel =>
      let* b := check_exists cap t pos in
      if b : bool then Ret t
      else let* t := set_key pos key t in fill_back fuel cap key (pos - 1) t
  end.

Definition insert_element_at key payload pos cap t : res slots :=
  let* t := set_key pos key t in
  let* t := set_payload pos payload t in
  let* t := set_bit cap t pos in
  fill_back (Z.to_nat pos) cap key (pos - 1) t.

Definition copy_slot (from to : Z) t : res slots :=
  let* k := rd (key_slots_ t) from in
  let* t := set_key to k t in
  let* p := rd (payload_slots_ t) from in
  set_payload to p t.

(** [for (i = b; i > a; i--) slot[i] = slot[i - 1]]. *)
Fixpoint shift_right (k : nat) (b : Z) t : res slots :=
  match k with
  | O => Ret t
  | S k => let* t := copy_slot (b - 1) b t in shift_right k (b - 1) t
  end.

(** [tzcnt] and [lzcnt] of a word of gaps give the gaps nearest to its ends. *)
Definition left_gap (word w : Z) : Z := Z.shiftl (word + 1) 6 - lzcnt (not64 w) - 1.
Definition right_gap (word w : Z) : Z := Z.shiftl word 6 + tzcnt (not64 w).
Definition full_word (w : Z) : bool := bool_decide (w = UINT64_MAX).

Fixpoint gap_left_loop (k : nat) (bm : list Z) (i : Z) : res Z :=
  match k with
  | O => Ret (-1)
  | S k => let* w := rd bm i in
           if negb (full_word w) then Ret (left_gap i w) else gap_left_loop k bm (i - 1)
  end.
Fixpoint gap_right_loop (k : nat) (bm : list Z) cap (i : Z) : res Z :=
  match k with
  | O => Ret (-1)
  | S k => let* w := rd bm i in
           if negb (full_word w) then
             let right_gap_pos := right_gap i w in
             Ret (if bool_decide (cap ≤ right_gap_pos) then -1 else right_gap_pos)
           else gap_right_loop k bm cap (i + 1)
  end.

(** The nearer of two gaps, the left one on a tie or when the right one lies
    behind the slots. *)
Definition nearer cap pos (left_gap_pos right_gap_pos : Z) : Z :=
  if bool_decide (pos - left_gap_pos ≤ right_gap_pos - pos) || bool_decide (cap ≤ right_gap_pos)
  then left_gap_pos else right_gap_pos.

(** The blocks at distances [d], [d + 1], ... on both sides, [k] of them; a
    result, or the distance reached. *)
Fixpoint gap_both_loop (k : nat) (bm : list Z) (bsize : Z) cap pos (bp bit d : Z) : res (Z + Z) :=
  match k with
  | O => Ret (inr d)
  | S k =>
      let* lw := rd bm (bp - d) in
      let* rw := rd bm (bp + d) in
      if negb (full_word lw) && negb (full_word rw) then
        Ret (inl (nearer cap pos (left_gap (bp - d) lw) (right_gap (bp + d) rw)))
      else if negb (full_word lw) then
        let left_gap_pos := left_gap (bp - d) lw in
        if bool_decide (32 < bit) && bool_decide (bp + d + 1 < bsize) then
          let* rw := rd bm (bp + d + 1) in
          if negb (full_word rw) then Ret (inl (nearer cap pos left_gap_pos (right_gap (bp + d + 1) rw)))
          else Ret (inl left_gap_pos)
        else Ret (inl left_gap_pos)
      else if negb (full_word rw) then
        let right_gap_pos := right_gap (bp + d) rw in
        if bool_decide (right_gap_pos < cap) then
          if bool_decide (bit < 32) && bool_decide (0 < bp - d) then
            let* lw := rd bm (bp - d - 1) in
            if negb (full_word lw) then
              Ret (inl (nearer cap pos (left_gap (bp - d - 1) lw) right_gap_pos))
            else Ret (inl right_gap_pos)
          else Ret (inl right_gap_pos)
        else gap_both_loop k bm bsize cap pos bp bit (d + 1)
      else gap_both_loop k bm bsize cap pos bp bit (d + 1)
  end.

(** The gap nearest to [pos] when its own block has none. *)
Definition closest_gap_outside pos n : res Z :=
  let cap := data_capacity_ n in
  let bm := bitmap_ (slots_ n) in
  let bp := word_of pos in
  let right_bitmap_pos := word_of (cap - 1) in
  let max_left_bitmap_offset := bp in
  let max_right_bitmap_offset := right_bitmap_pos - bp in
  let* r := gap_both_loop (Z.to_nat (Z.min max_left_bitmap_offset max_right_bitmap_offset))
              bm (bitmap_size_ n) cap pos bp (bit_of pos) 1 in
  match r with
  | inl gap => Ret gap
  | inr d =>
      if bool_decide (max_right_bitmap_offset < max_left_bitmap_offset) then
        gap_left_loop (Z.to_nat (bp - d + 1)) bm (bp - d)
      else gap_right_loop (Z.to_nat (right_bitmap_pos - (bp + d) + 1)) bm cap (bp + d)
  end.

(** The gap nearest to [pos] when its block has one. *)
Definition closest_gap_inside pos (bitmap_data : Z) n : res Z :=
  let cap := data_capacity_ n in
  let bm := bitmap_ (slots_ n) in
  let bp := word_of pos in
  let bit := bit_of pos in
  let bitmap_right_gaps := not64 (Z.lor bitmap_data (low_mask bit)) in
  let* right_distance :=
    if bool_decide (bitmap_right_gaps ≠ 0) then Ret (tzcnt bitmap_right_gaps - bit)
    else if bool_decide (bp + 1 < bitmap_size_ n) then
      let* w := rd bm (bp + 1) in Ret (64 + tzcnt (not64 w) - bit)
    else Ret 64 in
  let bitmap_left_gaps := Z.land (not64 bitmap_data) (low_mask bit) in
  let* left_distance :=
    if bool_decide (bitmap_left_gaps ≠ 0) then Ret (bit - (63 - lzcnt bitmap_left_gaps))
    else if bool_decide (0 < bp) then
      let* w := rd bm (bp - 1) in Ret (bit + lzcnt (not64 w) + 1)
    else Ret 64 in
  if bool_decide (right_distance < left_distance) && bool_decide (pos + right_distance < cap)
  then Ret (pos + right_distance) else Ret (pos - left_distance).

Definition closest_gap pos n : res Z :=
  let cap := data_capacity_ n in
  let pos := Z.min pos (cap - 1) in
  let* w := rd (bitmap_ (slots_ n)) (word_of pos) in
  if full_word w ||
     (bool_decide (word_of pos = bitmap_size_ n - 1) &&
      bool_decide (popcnt w = cap - Z.shiftl (bitmap_size_ n - 1) 6))
  then closest_gap_outside pos n
  else closest_gap_inside pos w n.

(** The version for machines without [lzcnt]: slot by slot. *)
Fixpoint gap_both_slow (k : nat) cap t pos (distance : Z) : res (Z + Z) :=
  match k with
  | O => Ret (inr distance)
  | S k =>
      let* l := check_exists cap t (pos - distance) in
      if negb l then Ret (inl (pos - distance))
      else let* r := check_exists cap t (pos + distance) in
           if negb r then Ret (inl (pos + distance)) else gap_both_slow k cap t pos (distance + 1)
  end.
Fixpoint gap_down_slow (k : nat) cap t (i : Z) : res Z :=
  match k with
  | O => Ret (-1)
  | S k => let* b := check_exists cap t i in if negb b then Ret i else gap_down_slow k cap t (i - 1)
  end.
Fixpoint gap_up_slow (k : nat) cap t (i : Z) : res Z :=
  match k with
  | O => Ret (-1)
  | S k => let* b := check_exists cap t i in if negb b then Ret i else gap_up_slow k cap t (i + 1)
  end.
Definition closest_gap_slow pos n : res Z :=
  let cap := data_capacity_ n in
  let t := slots_ n in
  let max_left_offset := pos in
  let max_right_offset := cap - pos - 1 in
  let* r := gap_both_slow (Z.to_nat (Z.min max_left_offset max_right_offset)) cap t pos 1 in
  match r with
  | inl gap => Ret gap
  | inr distance =>
      if bool_decide (max_right_offset < max_left_offset) then
        gap_down_slow (Z.to_nat (pos - distance + 1)) cap t (pos - distance)
      else gap_up_slow (Z.to_nat (cap - (pos + distance))) cap t (pos + distance)
  end.

Definition insert_using_shifts key payload pos n : res (Z * AlexDataNode) :=
  let cap := data_capacity_ n in
  let* gap_pos := closest_gap pos n in
  let* t := set_bit cap (slots_ n) gap_pos in
  if bool_decide (pos ≤ gap_pos) then
    let* t := shift_right (Z.to_nat (gap_pos - pos)) gap_pos t in
    let* t := insert_element_at key payload pos cap t in
    Ret (pos, add_shifts (gap_pos - pos) (with_slots t n))
  else
    let* t := for_up gap_pos (pos - 1) (λ i, copy_slot (i + 1) i) t in
    let* t := insert_element_at key payload (pos - 1) cap t in
    Ret (pos - 1, add_shifts (pos - gap_pos - 1) (with_slots t n)).

Definition count_insert key n : AlexDataNode :=
  let n := add_insert (with_num_keys (num_keys_ n + 1) n) in
  let e := extremes_ n in
  let e := if bool_decide (max_key_ e < key)
           then mkExtremes key (min_key_ e) (s32 (num_right_out_of_bounds_inserts_ e + 1))
                  (num_left_out_of_bounds_inserts_ e) else e in
  let e := if bool_decide (key < min_key_ e)
           then mkExtremes (max_key_ e) key (num_right_out_of_bounds_inserts_ e)
                  (s32 (num_left_out_of_bounds_inserts_ e + 1)) else e in
  with_extremes e n.

(** [Some flag]: the insert is refused before the node changes. *)
Definition refuse n : option Z :=
  if bool_decide (Z.rem (num_inserts_ (counters_ n)) 64 = 0) && catastrophic_cost n then Some 2
  else if d_le (expansion_threshold_ n) (d_of_Z (num_keys_ n)) then
    if significant_cost_deviation n then Some 1
    else if catastrophic_cost n then Some 2
    else if d_lt (d_mul (d_of_Z (max_slots_ n)) kMinDensity_) (d_of_Z (num_keys_ n)) then Some 3
    else None
  else None.

Definition insert key payload n : res (Z * Z * AlexDataNode) :=
  match refuse n with
  | Some flag => Ret (flag, -1, n)
  | None =>
      let* n :=
        if d_le (expansion_threshold_ n) (d_of_Z (num_keys_ n)) then
          let* n := resize kMinDensity_ false (is_append_mostly_right n) (is_append_mostly_left n) n in
          Ret (add_resize n)
        else Ret n in
      let* (insertion_position, upper_bound_pos, n) := find_insert_position key n in
      let* duplicate :=
        if negb allow_duplicates && bool_decide (0 < upper_bound_pos) then
          let* k := rd (key_slots_ (slots_ n)) (upper_bound_pos - 1) in Ret (bool_decide (k = key))
        else Ret false in
      if duplicate : bool then Ret (-1, upper_bound_pos - 1, n)
      else
        let cap := data_capacity_ n in
        let* is_gap := if bool_decide (insertion_position < cap)
                       then let* b := check_exists cap (slots_ n) insertion_position in Ret (negb b)
                       else Ret false in
        let* (pos, n) :=
          if is_gap : bool then
            let* t := insert_element_at key payload insertion_position cap (slots_ n) in
            Ret (insertion_position, with_slots t n)
          else insert_using_shifts key payload insertion_position n in
        Ret (0, pos, count_insert key n)
  end.

(** ** Erasing *)
Definition contract n : res AlexDataNode :=
  if d_lt (d_of_Z (num_keys_ n)) (contraction_threshold_ n) then
    let* n := resize kMaxDensity_ false false false n in Ret (add_resize n)
  else Ret n.

Definition erase_one_at pos n : res AlexDataNode :=
  let cap := data_capacity_ n in
  let* next_key := if bool_decide (pos = cap - 1) then Ret kEndSentinel_
                   else rd (key_slots_ (slots_ n)) (pos + 1) in
  let* t := set_key pos next_key (slots_ n) in
  let* t := unset_bit cap t pos in
  let* t := fill_back (Z.to_nat pos) cap next_key (pos - 1) t in
  contract (with_num_keys (num_keys_ n - 1) (with_slots t n)).

Definition erase_one key n : res (Z * AlexDataNode) :=
  let* (pos, n) := find_lower key n in
  if bool_decide (pos = data_capacity_ n) then Ret (0, n)
  else let* k := rd (key_slots_ (slots_ n)) pos in
       if negb (bool_decide (k = key)) then Ret (0, n)
       else let* n := erase_one_at pos n in Ret (1, n).

(** Erases from [pos] downwards while [holds] of the key. *)
Fixpoint erase_back (fuel : nat) (holds : Z → bool) cap (next_key pos num_erased : Z) t : res (slots * Z) :=
  match fuel with
  | O => Ret (t, num_erased)
  | S fuel =>
      let* k := rd (key_slots_ t) pos in
      if holds k then
        let* t := set_key pos next_key t in
        let* b := check_exists cap t pos in
        let* t := unset_bit cap t pos in
        erase_back fuel holds cap next_key (pos - 1) (num_erased + Z.b2z b) t
      else Ret (t, num_erased)
  end.

Definition erase_below (holds : Z → bool) pos n : res (Z * AlexDataNode) :=
  let cap := data_capacity_ n in
  let* next_key := if bool_decide (pos = cap) then Ret kEndSentinel_
                   else rd (key_slots_ (slots_ n)) pos in
  let* (t, num_erased) := erase_back (Z.to_nat pos) holds cap next_key (pos - 1) 0 (slots_ n) in
  let* n := contract (with_num_keys (num_keys_ n - num_erased) (with_slots t n)) in
  Ret (num_erased, n).

Definition erase key n : res (Z * AlexDataNode) :=
  let* (pos, n) := upper_bound key n in
  if bool_decide (pos = 0) then Ret (0, n)
  else let* k := rd (key_slots_ (slots_ n)) (pos - 1) in
       if negb (bool_decide (k = key)) then Ret (0, n)
       else erase_below (λ k, bool_decide (k = key)) pos n.

Definition erase_range (start_key end_key : Z) (end_key_inclusive : bool) n : res (Z * AlexDataNode) :=
  let* (pos, n) := if end_key_inclusive then upper_bound end_key n else lower_bound end_key n in
  if bool_decide (pos = 0) then Ret (0, n)
  else erase_below (λ k, bool_decide (start_key ≤ k)) pos n.

(** ** Statistics and the structure check *)
Definition data_size n : double :=
  d_of_Z (data_capacity_ n * 8 + data_capacity_ n * 8 + bitmap_size_ n * 8).

Fixpoint packed_loop (k : nat) cap t (i num_packed : Z) (is_packed : bool) : res Z :=
  match k with
  | O => Ret (if is_packed then num_packed + 1 else num_packed)
  | S k => let* b := check_exists cap t i in
           if negb (eqb b is_packed)
           then packed_loop k cap t (i + 1) (if is_packed then num_packed + 1 else num_packed) (negb is_packed)
           else packed_loop k cap t (i + 1) num_packed is_packed
  end.
Definition num_packed_regions n : res Z :=
  let cap := data_capacity_ n in
  let* b := check_exists cap (slots_ n) 0 in
  packed_loop (Z.to_nat (cap - 1)) cap (slots_ n) 1 0 b.

Fixpoint validate_loop (k : nat) cap t (i : Z) : res bool :=
  match k with
  | O => Ret true
  | S k =>
      let* x := rd (key_slots_ t) i in
      let* y := rd (key_slots_ t) (i + 1) in
      if bool_decide (y < x) then Ret false
      else if bool_decide (x < y) then
        let* b := check_exists cap t i in
        if b : bool then validate_loop k cap t (i + 1) else Ret false
      else validate_loop k cap t (i + 1)
  end.

Definition validate_structure n : res bool :=
  let cap := data_capacity_ n in
  let t := slots_ n in
  if d_lt (cost_ n) (d_of_Z 0) || (match cost_ n with S754_nan => true | _ => false end) then Ret false
  else
    let* ordered := validate_loop (Z.to_nat (cap - 1)) cap t 0 in
    if negb ordered then Ret false
    else
      let* final := rd (key_slots_ t) (cap - 1) in
      let* b := check_exists cap t (cap - 1) in
      if bool_decide (final = kEndSentinel_) && b then Ret false
      else if negb (bool_decide (final = kEndSentinel_)) && negb b then Ret false
      else
        let* num_bitmap_ones :=
          for_up 0 (bitmap_size_ n) (λ i c, let* w := rd (bitmap_ t) i in Ret (c + count_ones w)) 0 in
        Ret (bool_decide (num_bitmap_ones = num_keys_ n)).

Fixpoint key_exists_loop (k : nat) cap t key (validate_bitmap : bool) (i : Z) : res bool :=
  match k with
  | O => Ret false
  | S k =>
      let* x := rd (key_slots_ t) i in
      if bool_decide (x = key) then
        let* b := if validate_bitmap then check_exists cap t i else Ret true in
        if b : bool then Ret true else key_exists_loop k cap t key validate_bitmap (i + 1)
      else key_exists_loop k cap t key validate_bitmap (i + 1)
  end.
Definition key_exists key (validate_bitmap : bool) n : res bool :=
  key_exists_loop (Z.to_nat (data_capacity_ n - 1)) (data_capacity_ n) (slots_ n) key validate_bitmap 0.
End ops.
