(* ===== verification/AlexInv.v ===== *)
(** * ALEX data nodes: arrays seen as functions, and the node invariant

    The operations touch three arrays.  A [view] gives their contents as
    functions of the slot (key, payload, occupied), with the bounds of the
    arrays; each store is a function update.  [listing] reads off the pairs in
    order.  [node_ok] is what every operation keeps. *)
From S2P Require Import Prelude Ieee AlexBase AlexNode AlexOps.

(** ** Functions updated at a point *)
Definition upd {A} (f : Z → A) (i : Z) (x : A) : Z → A := λ j, if decide (j = i) then x else f j.

Lemma upd_eq {A} (f : Z → A) i x : upd f i x i = x.
Proof. unfold upd. by rewrite decide_True. Qed.
Lemma upd_ne {A} (f : Z → A) i j x : j ≠ i → upd f i x j = f j.
Proof. intros. unfold upd. by rewrite decide_False. Qed.

(** ** Bits of the bitmap *)
Definition ex (bm : list Z) (i : Z) : bool := Z.testbit (bm !!! Z.to_nat (i / 64)) (i mod 64).
Definition key_at (t : slots) (i : Z) : Z := key_slots_ t !!! Z.to_nat i.
Definition pay_at (t : slots) (i : Z) : Z := payload_slots_ t !!! Z.to_nat i.

Lemma word_of_div pos : word_of pos = pos / 64.
Proof. unfold word_of. by rewrite Z.shiftr_div_pow2. Qed.
Lemma bit_of_mod pos : bit_of pos = pos mod 64.
Proof.
  unfold bit_of. rewrite word_of_div, Z.shiftl_mul_pow2 by lia. change (2 ^ 6) with 64.
  rewrite Z.mod_eq by lia. lia.
Qed.
Lemma div64_lt i c : 0 ≤ i < c → 0 ≤ i / 64 < (c + 63) / 64.
Proof. intros. Z.to_euclidean_division_equations. lia. Qed.

Lemma div_mod_64 i j : i / 64 = j / 64 → i mod 64 = j mod 64 → i = j.
Proof. intros. Z.to_euclidean_division_equations. lia. Qed.

Lemma bit_mask_spec w b : 0 ≤ b → bool_decide (Z.land w (Z.shiftl 1 b) ≠ 0) = Z.testbit w b.
Proof.
  intros Hb. rewrite Z.shiftl_1_l. destruct (Z.testbit w b) eqn:E.
  - apply bool_decide_eq_true_2. intros E0.
    assert (Z.testbit (Z.land w (2 ^ b)) b = false) as H by (by rewrite E0, Z.testbit_0_l).
    rewrite Z.land_spec, Z.pow2_bits_true, E in H by done. done.
  - apply bool_decide_eq_false_2. intros []. apply Z.bits_inj'. intros i Hi.
    rewrite Z.land_spec, Z.testbit_0_l, Z.pow2_bits_eqb by lia.
    destruct (Z.eqb_spec b i) as [->|]; [by rewrite E|by rewrite andb_false_r].
Qed.

(** Arrays of [cap] slots and their bitmap; the bits behind the last slot are 0. *)
Record shape (cap : Z) (t : slots) : Prop := {
  shape_keys : Z.of_nat (length (key_slots_ t)) = cap;
  shape_pays : Z.of_nat (length (payload_slots_ t)) = cap;
  shape_words : Z.of_nat (length (bitmap_ t)) = words_for cap;
  shape_range : Forall (λ w, 0 ≤ w < 2 ^ 64) (bitmap_ t);
  shape_tail i : cap ≤ i → i / 64 < words_for cap → ex (bitmap_ t) i = false
}.

Definition view (cap : Z) (t : slots) (K P : Z → Z) (E : Z → bool) : Prop :=
  shape cap t ∧ ∀ i, 0 ≤ i < cap → key_at t i = K i ∧ pay_at t i = P i ∧ ex (bitmap_ t) i = E i.

Section view.
Implicit Types (t : slots) (cap i j a b : Z) (K P : Z → Z) (E : Z → bool) (bm : list Z).

Lemma view_self cap t : shape cap t → view cap t (key_at t) (pay_at t) (ex (bitmap_ t)).
Proof. by split. Qed.

Lemma view_ext cap t K P E K' P' E' :
  view cap t K P E → (∀ i, 0 ≤ i < cap → K i = K' i ∧ P i = P' i ∧ E i = E' i) → view cap t K' P' E'.
Proof.
  intros [Hs Hv] H. split; [done|]. intros i Hi. destruct (Hv i Hi) as (-> & -> & ->). by apply H.
Qed.

(** The words of a bitmap, and one of them replaced. *)
Lemma bitmap_rd cap t i :
  shape cap t → 0 ≤ i < words_for cap → rd (bitmap_ t) i = Ret (bitmap_ t !!! Z.to_nat i) ∧
    0 ≤ bitmap_ t !!! Z.to_nat i < 2 ^ 64.
Proof.
  intros Hs Hi. pose proof (shape_words _ _ Hs). split; [apply rd_total; lia|].
  apply (Forall_lookup_1 _ _ (Z.to_nat i) _ (shape_range _ _ Hs)), list_lookup_lookup_total_lt. lia.
Qed.

Lemma check_exists_view cap t K P E i :
  view cap t K P E → 0 ≤ i < cap → check_exists cap t i = Ret (E i).
Proof.
  intros [Hs Hv] Hi. destruct (Hv i Hi) as (_ & _ & <-). unfold check_exists.
  rewrite !bool_decide_eq_true_2 by lia. cbn [andb negb]. rewrite word_of_div, bit_of_mod.
  destruct (bitmap_rd cap t (i / 64) Hs) as [-> _]; [by apply div64_lt|]. rewrite res_bind_ret.
  by rewrite bit_mask_spec by (apply Z.mod_pos_bound; lia).
Qed.

Lemma set_key_view cap t K P E i k :
  view cap t K P E → 0 ≤ i < cap → ∃ t', set_key i k t = Ret t' ∧ view cap t' (upd K i k) P E.
Proof.
  intros [Hs Hv] Hi. pose proof (shape_keys _ _ Hs) as Hl. unfold set_key.
  rewrite wr_in, res_bind_ret by lia. eexists. split; [done|]. split.
  - destruct Hs. constructor; cbn; rewrite ?length_insert; done.
  - intros j Hj. destruct (Hv j Hj) as (HK & HP & HE). split; [|split; [exact HP|exact HE]].
    unfold key_at, upd in *. cbn. case_decide as Hd; [rewrite Hd; apply insert_at_eq; lia|].
    rewrite insert_at_ne by lia. done.
Qed.

Lemma set_payload_view cap t K P E i p :
  view cap t K P E → 0 ≤ i < cap → ∃ t', set_payload i p t = Ret t' ∧ view cap t' K (upd P i p) E.
Proof.
  intros [Hs Hv] Hi. pose proof (shape_pays _ _ Hs) as Hl. unfold set_payload.
  rewrite wr_in, res_bind_ret by lia. eexists. split; [done|]. split.
  - destruct Hs. constructor; cbn; rewrite ?length_insert; done.
  - intros j Hj. destruct (Hv j Hj) as (HK & HP & HE). split; [exact HK|]. split; [|exact HE].
    unfold pay_at, upd in *. cbn. case_decide as Hd; [rewrite Hd; apply insert_at_eq; lia|].
    rewrite insert_at_ne by lia. done.
Qed.

(** One word [w] of the bitmap replaced by [v], which differs at bit [i mod 64]. *)
Lemma bitmap_wr_view cap t K P E i v x :
  view cap t K P E → 0 ≤ i < cap → 0 ≤ v < 2 ^ 64 →
  (∀ b, 0 ≤ b < 64 → Z.testbit v b =
     if decide (b = i mod 64) then x else Z.testbit (bitmap_ t !!! Z.to_nat (i / 64)) b) →
  ∃ bm, wr (bitmap_ t) (i / 64) v = Ret bm ∧
    view cap (mkSlots (key_slots_ t) (payload_slots_ t) bm) K P (upd E i x).
Proof.
  intros [Hs Hv] Hi Hr Hb. pose proof (shape_words _ _ Hs) as Hw. pose proof (div64_lt i cap Hi) as Hd.
  rewrite wr_in by (unfold words_for in *; lia). eexists. split; [done|].
  assert (∀ j, 0 ≤ j → ex (<[Z.to_nat (i / 64) := v]> (bitmap_ t)) j
    = if decide (j = i) then x else ex (bitmap_ t) j) as Hex.
  { intros j Hj. unfold ex. pose proof (Z.mod_pos_bound j 64 ltac:(lia)).
    assert (0 ≤ j / 64) by (apply Z.div_pos; lia).
    destruct (decide (j / 64 = i / 64)) as [Ej|Ej].
    - rewrite Ej, insert_at_eq, Hb by (unfold words_for in *; lia).
      destruct (decide (j = i)) as [->|Hne]; [by rewrite decide_True by done|].
      rewrite decide_False; [done|]. intros Em. apply Hne, div_mod_64; done.
    - rewrite insert_at_ne by lia. rewrite decide_False by congruence. done. }
  split.
  - destruct Hs. constructor; cbn; rewrite ?length_insert; try done.
    + apply Forall_insert; done.
    + intros j Hj Hjw. rewrite Hex, decide_False by lia. by apply shape_tail0.
  - intros j Hj. destruct (Hv j Hj) as (HK & HP & HE). split; [exact HK|]. split; [exact HP|].
    cbn. rewrite Hex by lia. unfold upd. by rewrite HE.
Qed.

Lemma set_bit_in_view cap t K P E i :
  view cap t K P E → 0 ≤ i < cap → ∃ bm, set_bit_in (bitmap_ t) i = Ret bm ∧
    view cap (mkSlots (key_slots_ t) (payload_slots_ t) bm) K P (upd E i true).
Proof.
  intros Hv Hi. pose proof (div64_lt i cap Hi) as Hd. pose proof (Z.mod_pos_bound i 64 ltac:(lia)).
  destruct (bitmap_rd cap t (i / 64) (proj1 Hv)) as [Hrd Hw]; [done|].
  unfold set_bit_in. rewrite word_of_div, bit_of_mod, Hrd, res_bind_ret, Z.shiftl_1_l.
  apply bitmap_wr_view; [done|done| |].
  - apply lor_range; [done|]. split; [lia|apply Z.pow_lt_mono_r; lia].
  - intros b Hb. rewrite Z.lor_spec, Z.pow2_bits_eqb by lia.
    case_decide as Hbi; [subst b; by rewrite Z.eqb_refl, orb_true_r|].
    destruct (Z.eqb_spec (i mod 64) b); [lia|by rewrite orb_false_r].
Qed.

Lemma set_bit_view cap t K P E i :
  view cap t K P E → 0 ≤ i < cap → ∃ t', set_bit cap t i = Ret t' ∧ view cap t' K P (upd E i true).
Proof.
  intros Hv Hi. unfold set_bit. rewrite !bool_decide_eq_true_2 by lia. cbn [andb negb].
  destruct (set_bit_in_view cap t K P E i Hv Hi) as (bm & -> & Hv'). rewrite res_bind_ret. by eexists.
Qed.

Lemma unset_bit_view cap t K P E i :
  view cap t K P E → 0 ≤ i < cap → ∃ t', unset_bit cap t i = Ret t' ∧ view cap t' K P (upd E i false).
Proof.
  intros Hv Hi. pose proof (div64_lt i cap Hi) as Hd. pose proof (Z.mod_pos_bound i 64 ltac:(lia)).
  destruct (bitmap_rd cap t (i / 64) (proj1 Hv)) as [Hrd Hw]; [done|].
  unfold unset_bit. rewrite !bool_decide_eq_true_2 by lia. cbn [andb negb].
  rewrite word_of_div, bit_of_mod, Hrd, res_bind_ret, Z.shiftl_1_l.
  destruct (bitmap_wr_view cap t K P E i
    (Z.land (bitmap_ t !!! Z.to_nat (i / 64)) (not64 (2 ^ (i mod 64)))) false) as (bm & -> & Hv'); [done|done| | |].
  - by apply land_range.
  - intros b Hb. rewrite Z.land_spec, not64_spec, Z.pow2_bits_eqb by lia.
    case_decide as Hbi; [subst b; by rewrite Z.eqb_refl, andb_false_r|].
    destruct (Z.eqb_spec (i mod 64) b); [lia|by rewrite andb_true_r].
  - rewrite res_bind_ret. by eexists.
Qed.

Lemma rd_key_view cap t K P E i : view cap t K P E → 0 ≤ i < cap → rd (key_slots_ t) i = Ret (K i).
Proof.
  intros [Hs Hv] Hi. destruct (Hv i Hi) as (<- & _). apply rd_total. by rewrite (shape_keys _ _ Hs).
Qed.
Lemma rd_payload_view cap t K P E i : view cap t K P E → 0 ≤ i < cap → rd (payload_slots_ t) i = Ret (P i).
Proof.
  intros [Hs Hv] Hi. destruct (Hv i Hi) as (_ & <- & _). apply rd_total. by rewrite (shape_pays _ _ Hs).
Qed.

Lemma put_slot_view cap t K P E i k p :
  view cap t K P E → 0 ≤ i < cap →
  ∃ t', put_slot i k p t = Ret t' ∧ view cap t' (upd K i k) (upd P i p) (upd E i true).
Proof.
  intros Hv Hi. unfold put_slot.
  destruct (set_key_view _ _ _ _ _ i k Hv Hi) as (t1 & -> & Hv1). rewrite res_bind_ret.
  destruct (set_payload_view _ _ _ _ _ i p Hv1 Hi) as (t2 & -> & Hv2). rewrite res_bind_ret.
  destruct (set_bit_in_view _ _ _ _ _ i Hv2 Hi) as (bm & -> & Hv3). rewrite res_bind_ret. by eexists.
Qed.

Lemma copy_slot_view cap t K P E i j :
  view cap t K P E → 0 ≤ i < cap → 0 ≤ j < cap →
  ∃ t', copy_slot i j t = Ret t' ∧ view cap t' (upd K j (K i)) (upd P j (P i)) E.
Proof.
  intros Hv Hi Hj. unfold copy_slot. rewrite (rd_key_view _ _ _ _ _ i Hv Hi), res_bind_ret.
  destruct (set_key_view _ _ _ _ _ j (K i) Hv Hj) as (t1 & -> & Hv1). rewrite res_bind_ret.
  rewrite (rd_payload_view _ _ _ _ _ i Hv1 Hi), res_bind_ret.
  by destruct (set_payload_view _ _ _ _ _ j (P i) Hv1 Hj) as (t2 & -> & Hv2); exists t2.
Qed.

Lemma fill_keys_view cap t K P E a b k :
  view cap t K P E → 0 ≤ a → a ≤ b → b ≤ cap →
  ∃ t', fill_keys a b k t = Ret t' ∧
    view cap t' (λ j, if decide (a ≤ j < b) then k else K j) P E.
Proof.
  intros Hv Ha Hab Hb. unfold fill_keys.
  pose (I := λ (i : Z) t, view cap t (λ j, if decide (a ≤ j < i) then k else K j) P E).
  apply (for_up_ind I); [done| |]; unfold I.
  - apply (view_ext _ _ _ _ _ _ _ _ Hv). intros j Hj. by rewrite decide_False by lia.
  - intros i s Hi Hs. destruct (set_key_view _ _ _ _ _ i k Hs) as (s' & -> & Hv'); [lia|].
    exists s'. split; [done|]. apply (view_ext _ _ _ _ _ _ _ _ Hv'). intros j Hj. split; [|done].
    unfold upd. repeat case_decide; lia || done.
Qed.

(** The pass over the gaps below a slot. *)
Lemma fill_back_view cap k : ∀ fuel t K P E pos,
  view cap t K P E → Z.of_nat fuel = pos + 1 → pos < cap →
  ∃ t' low, fill_back fuel cap k pos t = Ret t' ∧ -1 ≤ low ≤ pos ∧
    (∀ j, low < j ≤ pos → E j = false) ∧ (0 ≤ low → E low = true) ∧
    view cap t' (λ j, if decide (low < j ≤ pos) then k else K j) P E.
Proof.
  induction fuel as [|fuel IH]; intros t K P E pos Hv Ef Hpos; cbn [fill_back].
  - exists t, pos. split; [done|]. split; [lia|]. split; [lia|]. split; [lia|].
    apply (view_ext _ _ _ _ _ _ _ _ Hv). intros j Hj. by rewrite decide_False by lia.
  - rewrite Nat2Z.inj_succ in Ef. rewrite (check_exists_view cap t K P E pos Hv), res_bind_ret by lia.
    destruct (E pos) eqn:Ep.
    + exists t, pos. split; [done|]. split; [lia|]. split; [lia|]. split; [done|].
      apply (view_ext _ _ _ _ _ _ _ _ Hv). intros j Hj. by rewrite decide_False by lia.
    + destruct (set_key_view _ _ _ _ _ pos k Hv) as (t1 & -> & Hv1); [lia|]. rewrite res_bind_ret.
      destruct (IH t1 _ P E (pos - 1) Hv1) as (t' & low & -> & Hlow & Hgap & Hl & Hv'); [lia|lia|].
      exists t', low. split; [done|]. split; [lia|]. split.
      { intros j Hj. destruct (decide (j = pos)) as [->|]; [done|apply Hgap; lia]. }
      split; [done|]. apply (view_ext _ _ _ _ _ _ _ _ Hv'). intros j Hj. split; [|done].
      unfold upd. repeat case_decide; lia || done.
Qed.
End view.

(** ** The pairs of a node, in order *)
Definition pair_at (K P : Z → Z) (E : Z → bool) (i : Z) : option (Z * Z) :=
  if E i then Some (K i, P i) else None.
Definition listing (K P : Z → Z) (E : Z → bool) (a b : Z) : list (Z * Z) :=
  omap (pair_at K P E) (seqZ a (b - a)).

Section listing.
Implicit Types (K P : Z → Z) (E : Z → bool) (a b c i j : Z).

Lemma listing_nil K P E a b : b ≤ a → listing K P E a b = [].
Proof. intros. unfold listing. by rewrite seqZ_nil by lia. Qed.

Lemma listing_app K P E a b c :
  a ≤ b → b ≤ c → listing K P E a c = listing K P E a b ++ listing K P E b c.
Proof.
  intros. unfold listing. replace (c - a) with ((b - a) + (c - b)) by lia.
  rewrite seqZ_app, omap_app by lia. by replace (a + (b - a)) with b by lia.
Qed.

Lemma listing_one K P E i : listing K P E i (i + 1) = if E i then [(K i, P i)] else [].
Proof.
  unfold listing. replace (i + 1 - i) with 1 by lia. change (seqZ i 1) with [i]. csimpl.
  unfold pair_at. by destruct (E i).
Qed.

Lemma listing_cons K P E a b :
  a < b → listing K P E a b = (if E a then [(K a, P a)] else []) ++ listing K P E (a + 1) b.
Proof. intros. rewrite (listing_app K P E a (a + 1) b), listing_one by lia. done. Qed.

Lemma listing_ext K P E K' P' E' a b :
  (∀ i, a ≤ i < b → E i = E' i ∧ (E i = true → K i = K' i ∧ P i = P' i)) →
  listing K P E a b = listing K' P' E' a b.
Proof.
  intros H. unfold listing. apply list_omap_ext, Forall_Forall2_diag, Forall_seqZ. intros i Hi.
  unfold pair_at. destruct (H i) as [<- Hp]; [lia|]. destruct (E i); [|done].
  by destruct Hp as [-> ->].
Qed.

Lemma listing_shift K P E K' P' E' a b d :
  (∀ i, a ≤ i < b → E i = E' (i + d) ∧ (E i = true → K i = K' (i + d) ∧ P i = P' (i + d))) →
  listing K P E a b = listing K' P' E' (a + d) (b + d).
Proof.
  intros H. unfold listing. replace (b + d - (a + d)) with (b - a) by lia.
  rewrite (Z.add_comm a d), <- fmap_add_seqZ.
  apply list_omap_ext, Forall2_fmap_r, Forall_Forall2_diag, Forall_seqZ. intros i Hi. cbn.
  destruct (H i) as [He Hp]; [lia|]. unfold pair_at. rewrite Z.add_comm, <- He.
  destruct (E i); [|done]. by destruct Hp as [-> ->].
Qed.

Lemma listing_gaps K P E a b : (∀ i, a ≤ i < b → E i = false) → listing K P E a b = [].
Proof.
  intros H. destruct (decide (a ≤ b)); [|apply listing_nil; lia].
  replace b with (a + Z.of_nat (Z.to_nat (b - a))) in * by lia.
  set (k := Z.to_nat (b - a)) in *. clearbody k. clear -H. revert a H.
  induction k as [|k IH]; intros a H; [apply listing_nil; lia|].
  rewrite listing_cons by lia. rewrite H by lia. cbn [app].
  replace (a + Z.of_nat (S k)) with (a + 1 + Z.of_nat k) by lia. apply IH. intros i Hi. apply H. lia.
Qed.

Lemma elem_of_listing K P E a b kp :
  kp ∈ listing K P E a b ↔ ∃ i, a ≤ i < b ∧ E i = true ∧ kp = (K i, P i).
Proof.
  unfold listing. rewrite list_elem_of_omap. setoid_rewrite elem_of_seqZ. unfold pair_at. split.
  - intros (i & Hi & He). exists i. destruct (E i); [|done]. simplify_eq. split; [lia|done].
  - intros (i & Hi & He & ->). exists i. rewrite He. split; [lia|done].
Qed.

Lemma listing_length K P E a b : Z.of_nat (length (listing K P E a b)) ≤ Z.max 0 (b - a).
Proof.
  unfold listing. rewrite <- (Z2Nat.id (Z.max 0 (b - a))) by lia. apply inj_le.
  replace (Z.to_nat (Z.max 0 (b - a))) with (length (seqZ a (b - a))) by (rewrite length_seqZ; lia).
  induction (seqZ a (b - a)) as [|x l IH]; [done|]. cbn. destruct (pair_at K P E x); cbn; lia.
Qed.

(** A full listing has no gap. *)
Lemma listing_length_gap K P E a b i :
  a ≤ i < b → E i = false → Z.of_nat (length (listing K P E a b)) < b - a.
Proof.
  intros Hi He. rewrite (listing_app K P E a i b), (listing_cons K P E i b), He by lia. cbn [app].
  rewrite length_app. pose proof (listing_length K P E a i). pose proof (listing_length K P E (i + 1) b). lia.
Qed.
End listing.

(** ** The invariant *)
(** A gap holds the key of the slot behind it. *)
Definition gaps_ok (cap : Z) (K : Z → Z) (E : Z → bool) : Prop :=
  ∀ i, 0 ≤ i < cap → E i = false → K i = if decide (i + 1 < cap) then K (i + 1) else kEndSentinel_.

Definition keys_ok (l : list (Z * Z)) : Prop :=
  StronglySorted Z.le l.*1 ∧ Forall (λ k, 0 ≤ k < kEndSentinel_) l.*1.

Definition arrays_ok (cap : Z) (K P : Z → Z) (E : Z → bool) : Prop :=
  gaps_ok cap K E ∧ keys_ok (listing K P E 0 cap).

Definition contents (n : AlexDataNode) : list (Z * Z) :=
  listing (key_at (slots_ n)) (pay_at (slots_ n)) (ex (bitmap_ (slots_ n))) 0 (data_capacity_ n).

Record node_ok (n : AlexDataNode) : Prop := {
  ok_capacity : 0 < data_capacity_ n ≤ 2 ^ 30;
  ok_bitmap_size : bitmap_size_ n = words_for (data_capacity_ n);
  ok_shape : shape (data_capacity_ n) (slots_ n);
  ok_gaps : gaps_ok (data_capacity_ n) (key_at (slots_ n)) (ex (bitmap_ (slots_ n)));
  ok_keys : keys_ok (contents n);
  ok_count : num_keys_ n = Z.of_nat (length (contents n))
}.

Section invariant.
Implicit Types (n : AlexDataNode) (t : slots) (K P : Z → Z) (E : Z → bool) (cap i j : Z).

Lemma view_listing cap t K P E a b :
  view cap t K P E → 0 ≤ a → b ≤ cap →
  listing (key_at t) (pay_at t) (ex (bitmap_ t)) a b = listing K P E a b.
Proof.
  intros [_ Hv] Ha Hb. apply listing_ext. intros i Hi. by destruct (Hv i ltac:(lia)) as (-> & -> & ->).
Qed.

Lemma view_gaps cap t K P E :
  view cap t K P E → gaps_ok cap K E → gaps_ok cap (key_at t) (ex (bitmap_ t)).
Proof.
  intros [_ Hv] Hg i Hi. destruct (Hv i Hi) as (-> & _ & ->). intros He. rewrite Hg by done.
  case_decide; [|done]. by destruct (Hv (i + 1) ltac:(lia)) as (-> & _).
Qed.

(** The invariant of a node whose arrays are seen as functions. *)
Lemma node_ok_view n K P E :
  0 < data_capacity_ n ≤ 2 ^ 30 → bitmap_size_ n = words_for (data_capacity_ n) →
  view (data_capacity_ n) (slots_ n) K P E → arrays_ok (data_capacity_ n) K P E →
  num_keys_ n = Z.of_nat (length (listing K P E 0 (data_capacity_ n))) →
  node_ok n ∧ contents n = listing K P E 0 (data_capacity_ n).
Proof.
  intros Hcap Hb Hv [Hg Hk] Hn.
  assert (contents n = listing K P E 0 (data_capacity_ n)) as Hc by (eapply view_listing; [done|lia|lia]).
  split; [|done]. constructor; rewrite ?Hc; try done; [apply Hv|by eapply view_gaps].
Qed.

Lemma node_ok_self n : node_ok n →
  view (data_capacity_ n) (slots_ n) (key_at (slots_ n)) (pay_at (slots_ n)) (ex (bitmap_ (slots_ n))) ∧
  arrays_ok (data_capacity_ n) (key_at (slots_ n)) (pay_at (slots_ n)) (ex (bitmap_ (slots_ n))).
Proof. intros []. by split; [apply view_self|split]. Qed.

(** What a slot's key says about the slots behind it. *)
Lemma gap_next cap K E i : gaps_ok cap K E → 0 ≤ i < cap →
  (∃ j, i ≤ j < cap ∧ E j = true ∧ ∀ x, i ≤ x ≤ j → K x = K j ∧ (x < j → E x = false)) ∨
  (∀ x, i ≤ x < cap → E x = false ∧ K x = kEndSentinel_).
Proof.
  intros Hg. remember (Z.to_nat (cap - i)) as d eqn:Ed. revert i Ed.
  induction d as [|d IH]; intros i Ed Hi; [lia|]. destruct (E i) eqn:He.
  { left. exists i. split; [lia|]. split; [done|]. intros x Hx. replace x with i by lia. split; [done|lia]. }
  specialize (Hg i Hi He). case_decide as Hd.
  - destruct (IH (i + 1)) as [(j & Hj & Hej & Hx)|Hx]; [lia|lia| |].
    + left. exists j. split; [lia|]. split; [done|]. intros x Hxj.
      destruct (decide (x = i)) as [->|]; [|apply Hx; lia].
      split; [|done]. rewrite Hg. apply Hx. lia.
    + right. intros x Hxc. destruct (decide (x = i)) as [->|]; [|apply Hx; lia].
      split; [done|]. rewrite Hg. apply Hx. lia.
  - right. intros x Hxc. replace x with i by lia. done.
Qed.

Lemma listing_sorted K P E a b i j :
  StronglySorted Z.le (listing K P E a b).*1 → a ≤ i → i < j → j < b → E i = true → E j = true → K i ≤ K j.
Proof.
  intros Hs Hai Hij Hj Ei Ej. rewrite (listing_app K P E a j b), fmap_app in Hs by lia.
  apply (StronglySorted_app_1_elem_of _ _ _ _ _ Hs); apply list_elem_of_fmap.
  - exists (K i, P i). split; [done|]. apply elem_of_listing. exists i. split; [lia|done].
  - exists (K j, P j). split; [done|]. apply elem_of_listing. exists j. split; [lia|done].
Qed.

Lemma listing_key_range K P E cap i :
  keys_ok (listing K P E 0 cap) → 0 ≤ i < cap → E i = true → 0 ≤ K i < kEndSentinel_.
Proof.
  intros [_ Hk] Hi Ei. rewrite list.Forall_forall in Hk. apply Hk, list_elem_of_fmap.
  exists (K i, P i). split; [done|]. apply elem_of_listing. exists i. split; [lia|done].
Qed.

(** The keys increase along all the slots, gaps included. *)
Lemma keys_monotone cap K P E i j : arrays_ok cap K P E → 0 ≤ i → i ≤ j → j < cap → K i ≤ K j.
Proof.
  intros [Hg Hk] Hi Hij Hj.
  destruct (gap_next cap K E i Hg) as [(x & Hx & Ex & Hgi)|Hend]; [lia| |].
  - rewrite (proj1 (Hgi i ltac:(lia))). destruct (decide (j ≤ x)); [by rewrite (proj1 (Hgi j ltac:(lia)))|].
    destruct (gap_next cap K E j Hg) as [(y & Hy & Ey & Hgj)|Hend]; [lia| |].
    + rewrite (proj1 (Hgj j ltac:(lia))). by apply (listing_sorted K P E 0 cap x y (proj1 Hk)); try lia.
    + rewrite (proj2 (Hend j ltac:(lia))). pose proof (listing_key_range K P E cap x Hk ltac:(lia) Ex). lia.
  - rewrite (proj2 (Hend i ltac:(lia))), (proj2 (Hend j ltac:(lia))). done.
Qed.

(** The pairs of a node with keys at most [k], and above it. *)
Lemma listing_split cap K P E k pos :
  0 ≤ pos ≤ cap → (∀ i, 0 ≤ i < pos → K i ≤ k) → (∀ i, pos ≤ i < cap → k < K i) →
  listing K P E 0 pos = filter (λ kp, kp.1 ≤ k) (listing K P E 0 cap) ∧
  listing K P E pos cap = filter (λ kp, k < kp.1) (listing K P E 0 cap).
Proof.
  intros Hpos Hlo Hhi. rewrite (listing_app K P E 0 pos cap), !filter_app by lia.
  rewrite (filter_all (λ kp, kp.1 ≤ k) (listing K P E 0 pos)),
    (filter_none (λ kp, kp.1 ≤ k) (listing K P E pos cap)),
    (filter_none (λ kp, k < kp.1) (listing K P E 0 pos)),
    (filter_all (λ kp, k < kp.1) (listing K P E pos cap)), app_nil_r; [done|..];
    apply list.Forall_forall; intros kp (i & Hi & _ & ->)%elem_of_listing; cbn.
  - by apply Hhi.
  - specialize (Hlo i Hi). lia.
  - specialize (Hhi i Hi). lia.
  - by apply Hlo.
Qed.
End invariant.
