(* ===== verification/AlexSearch.v ===== *)
(** * ALEX data nodes: searching

    The doubling and binary searches find the boundary of a predicate that is
    monotone along the slots, wherever they start; the bitmap scans find the
    next key slot; the iterator lists the pairs of the node. *)
From S2P Require Import Prelude Ieee AlexBase AlexNode AlexOps AlexInv.

(** ** The boundary of a monotone predicate *)
Definition boundary (p : Z → bool) (cap pos : Z) : Prop :=
  0 ≤ pos ≤ cap ∧ (∀ i, 0 ≤ i < pos → p i = true) ∧ (∀ i, pos ≤ i < cap → p i = false).

Section boundary.
Implicit Types (p h : Z → bool) (l r m bound size cap : Z).

Lemma boundary_unique p cap x y : boundary p cap x → boundary p cap y → x = y.
Proof.
  intros (Hx & Hxt & Hxf) (Hy & Hyt & Hyf). destruct (Z.lt_trichotomy x y) as [H|[H|H]]; [|done|].
  - specialize (Hyt x ltac:(lia)). rewrite Hxf in Hyt by lia. done.
  - specialize (Hxt y ltac:(lia)). rewrite Hyf in Hxt by lia. done.
Qed.

Lemma binary_loop_S f goes l r :
  binary_loop (S f) goes l r =
    if bool_decide (l < r) then
      let* g := goes (l + (r - l) / 2) in
      if g : bool then binary_loop f goes (l + (r - l) / 2 + 1) r else binary_loop f goes l (l + (r - l) / 2)
    else Ret l.
Proof. done. Qed.

Lemma exp_loop_S f holds size bound it :
  exp_loop (S f) holds size bound it =
    if bool_decide (bound < size) then
      let* c := holds bound in
      if c : bool then exp_loop f holds size (bound * 2) (d_add it (d_of_Z 1)) else Ret (bound, it)
    else Ret (bound, it).
Proof. done. Qed.

Lemma binary_loop_spec p goes : ∀ (f : nat) l r,
  l ≤ r → r - l < 2 ^ Z.of_nat f → (∀ i, l ≤ i < r → goes i = Ret (p i)) →
  (∀ i j, l ≤ i → i ≤ j → j < r → p j = true → p i = true) →
  ∃ x, binary_loop (S f) goes l r = Ret x ∧ l ≤ x ≤ r ∧
    (∀ i, l ≤ i < x → p i = true) ∧ (∀ i, x ≤ i < r → p i = false).
Proof.
  induction f as [|f IH]; intros l r Hlr Hf Hg Hm; rewrite binary_loop_S.
  - change (2 ^ Z.of_nat 0) with 1 in Hf. case_bool_decide; [lia|].
    exists l. split; [done|]. split; [lia|]. split; intros; lia.
  - case_bool_decide as Hd; [|exists l; split; [done|]; split; [lia|]; split; intros; lia].
    rewrite Nat2Z.inj_succ, Z.pow_succ_r in Hf by lia.
    set (mid := l + (r - l) / 2).
    assert (l ≤ mid < r ∧ r - mid - 1 < 2 ^ Z.of_nat f ∧ mid - l < 2 ^ Z.of_nat f) as (Hmid & Hr & Hl)
      by (unfold mid; Z.to_euclidean_division_equations; lia).
    clearbody mid. rewrite (Hg mid) by done. rewrite res_bind_ret. destruct (p mid) eqn:Ep.
    + destruct (IH (mid + 1) r) as (x & -> & Hx & Ht & Hfa); [lia|lia|intros; apply Hg; lia| |].
      { intros i j ???. apply Hm; lia. }
      exists x. split; [done|]. split; [lia|]. split; [|done].
      intros i Hi. destruct (decide (i ≤ mid)); [apply (Hm i mid); lia || done|apply Ht; lia].
    + destruct (IH l mid) as (x & -> & Hx & Ht & Hfa); [lia|lia|intros; apply Hg; lia| |].
      { intros i j ???. apply Hm; lia. }
      exists x. split; [done|]. split; [lia|]. split; [done|].
      intros i Hi. destruct (decide (i < mid)); [apply Hfa; lia|].
      destruct (p i) eqn:Epi; [|done]. rewrite (Hm mid i) in Ep by (lia || done). done.
Qed.

Definition reached h size bound : Prop := bound / 2 = 0 ∨ (0 < bound / 2 < size ∧ h (bound / 2) = true).

Lemma exp_loop_spec h holds size : ∀ (f : nat) bound it,
  0 < bound → size ≤ bound * 2 ^ Z.of_nat f → (∀ b, 1 ≤ b < size → holds b = Ret (h b)) →
  reached h size bound →
  ∃ b it', exp_loop (S f) holds size bound it = Ret (b, it') ∧ 0 < b ∧ reached h size b ∧
    (size ≤ b ∨ (b < size ∧ h b = false)).
Proof.
  induction f as [|f IH]; intros bound it Hb Hf Hh Hr; rewrite exp_loop_S.
  - change (2 ^ Z.of_nat 0) with 1 in Hf. case_bool_decide; [lia|].
    exists bound, it. split; [done|]. split; [done|]. split; [done|]. lia.
  - case_bool_decide as Hd; [|exists bound, it; split; [done|]; split; [done|]; split; [done|lia]].
    rewrite (Hh bound) by lia. rewrite res_bind_ret. destruct (h bound) eqn:Eh.
    + apply IH; [lia| |done|].
      * rewrite Nat2Z.inj_succ, Z.pow_succ_r in Hf by lia. lia.
      * right. rewrite Z.div_mul by lia. split; [lia|done].
    + exists bound, it. split; [done|]. split; [done|]. split; [done|]. right. by split.
Qed.

(** From a slot above the boundary the search goes left, from one below it
    goes right. *)
Lemma search_left p holds goes cap m it :
  0 ≤ m < cap → cap ≤ 2 ^ 31 →
  (∀ i j, 0 ≤ i → i ≤ j → j < cap → p j = true → p i = true) →
  (∀ b, 1 ≤ b < m → holds b = Ret (negb (p (m - b)))) → (∀ i, 0 ≤ i < cap → goes i = Ret (p i)) →
  p m = false →
  ∃ bound it' pos, exp_loop search_fuel holds m 1 it = Ret (bound, it') ∧
    binary_loop search_fuel goes (m - Z.min bound m) (m - bound / 2) = Ret pos ∧ boundary p cap pos.
Proof.
  intros Hm Hcap Hmono Hh Hg Hpm.
  destruct (exp_loop_spec (λ b, negb (p (m - b))) holds m 32 1 it) as (b & it' & E & Hb & Hr & Hstop);
    [lia|lia|done|by left|].
  assert (p (m - b / 2) = false ∧ 0 ≤ b / 2 ≤ m) as [Hpr Hb2].
  { destruct Hr as [->|[Hr Hp]]; [rewrite Z.sub_0_r; split; [done|lia]|].
    split; [by apply negb_true_iff|lia]. }
  assert (m - Z.min b m = 0 ∨ p (m - Z.min b m) = true ∧ b < m) as Hlow.
  { destruct Hstop as [?|[? Hp]]; [left; lia|right]. rewrite Z.min_l by lia.
    split; [by apply negb_false_iff|lia]. }
  assert (m - Z.min b m ≤ m - b / 2) by (Z.to_euclidean_division_equations; lia).
  destruct (binary_loop_spec p goes 32 (m - Z.min b m) (m - b / 2)) as (pos & E2 & Hpos & Ht & Hf);
    [lia|lia|intros; apply Hg; lia|intros i j ???; apply Hmono; lia|].
  exists b, it', pos. split; [done|]. split; [done|]. split; [lia|]. split.
  - intros i Hi. destruct (decide (i < m - Z.min b m)); [|apply Ht; lia].
    destruct Hlow as [?|[Hl ?]]; [lia|]. apply (Hmono i (m - Z.min b m)); lia || done.
  - intros i Hi. destruct (decide (i < m - b / 2)); [apply Hf; lia|].
    destruct (p i) eqn:Epi; [|done]. rewrite (Hmono (m - b / 2) i) in Hpr by (lia || done). done.
Qed.

Lemma search_right p holds goes cap m it :
  0 ≤ m < cap → cap ≤ 2 ^ 31 →
  (∀ i j, 0 ≤ i → i ≤ j → j < cap → p j = true → p i = true) →
  (∀ b, 1 ≤ b < cap - m → holds b = Ret (p (m + b))) → (∀ i, 0 ≤ i < cap → goes i = Ret (p i)) →
  p m = true →
  ∃ bound it' pos, exp_loop search_fuel holds (cap - m) 1 it = Ret (bound, it') ∧
    binary_loop search_fuel goes (m + bound / 2) (m + Z.min bound (cap - m)) = Ret pos ∧ boundary p cap pos.
Proof.
  intros Hm Hcap Hmono Hh Hg Hpm.
  destruct (exp_loop_spec (λ b, p (m + b)) holds (cap - m) 32 1 it) as (b & it' & E & Hb & Hr & Hstop);
    [lia|lia|done|by left|].
  assert (p (m + b / 2) = true ∧ 0 ≤ b / 2 < cap - m) as [Hpl Hb2].
  { destruct Hr as [->|[Hr Hp]]; [rewrite Z.add_0_r; split; [done|lia]|]. split; [done|lia]. }
  assert (m + Z.min b (cap - m) = cap ∨ p (m + Z.min b (cap - m)) = false ∧ b < cap - m) as Hhigh.
  { destruct Hstop as [?|[? Hp]]; [left; lia|right]. rewrite Z.min_l by lia. split; [done|lia]. }
  assert (m + b / 2 ≤ m + Z.min b (cap - m)) by (Z.to_euclidean_division_equations; lia).
  destruct (binary_loop_spec p goes 32 (m + b / 2) (m + Z.min b (cap - m))) as (pos & E2 & Hpos & Ht & Hf);
    [lia|lia|intros; apply Hg; lia|intros i j ???; apply Hmono; lia|].
  exists b, it', pos. split; [done|]. split; [done|]. split; [lia|]. split.
  - intros i Hi. destruct (decide (i < m + b / 2)); [|apply Ht; lia].
    apply (Hmono i (m + b / 2)); lia || done.
  - intros i Hi. destruct (decide (i < m + Z.min b (cap - m))); [apply Hf; lia|].
    destruct Hhigh as [?|[Hl ?]]; [lia|].
    destruct (p i) eqn:Epi; [|done]. rewrite (Hmono (m + Z.min b (cap - m)) i) in Hl by (lia || done). done.
Qed.
End boundary.

(** ** Scanning the bitmap *)
(** [data] holds the bits of word [idx] from position [pos] on. *)
Definition masked (bm : list Z) (idx pos data : Z) : Prop :=
  0 ≤ data < 2 ^ 64 ∧
  ∀ b, 0 ≤ b < 64 → Z.testbit data b = bool_decide (pos ≤ idx * 64 + b) && ex bm (idx * 64 + b).

Section scan.
Implicit Types (t : slots) (cap pos idx data i j : Z) (bm : list Z).

Lemma ex_word bm idx b : 0 ≤ b < 64 → ex bm (idx * 64 + b) = Z.testbit (bm !!! Z.to_nat idx) b.
Proof.
  intros Hb. unfold ex. rewrite Z.div_add_l by lia. rewrite (Z.div_small b), Z.add_0_r by lia.
  by rewrite (Z.add_comm (idx * 64) b), Z.mod_add, Z.mod_small by lia.
Qed.

Lemma masked_word cap t idx pos :
  shape cap t → 0 ≤ idx < words_for cap → pos ≤ idx * 64 →
  masked (bitmap_ t) idx pos (bitmap_ t !!! Z.to_nat idx).
Proof.
  intros Hs Hi Hp. split; [by eapply bitmap_rd|]. intros b Hb.
  by rewrite bool_decide_eq_true_2, ex_word by lia.
Qed.

Lemma masked_low cap t pos :
  shape cap t → 0 ≤ pos / 64 < words_for cap →
  masked (bitmap_ t) (pos / 64) pos
    (Z.land (bitmap_ t !!! Z.to_nat (pos / 64)) (not64 (low_mask (pos mod 64)))).
Proof.
  intros Hs Hi. destruct (bitmap_rd cap t (pos / 64) Hs Hi) as [_ Hw]. split; [by apply land_range|].
  intros b Hb. pose proof (Z.mod_pos_bound pos 64 ltac:(lia)). pose proof (Z.div_mod pos 64 ltac:(lia)).
  rewrite Z.land_spec, not64_spec by lia. unfold low_mask. rewrite mask_spec, ex_word, andb_comm by lia.
  f_equal. rewrite <- bool_decide_not. apply bool_decide_ext. lia.
Qed.

Lemma masked_zero bm idx pos i :
  masked bm idx pos 0 → pos ≤ i → idx * 64 ≤ i < (idx + 1) * 64 → ex bm i = false.
Proof.
  intros [_ H] Hp Hi. specialize (H (i - idx * 64) ltac:(lia)). rewrite Z.testbit_0_l in H.
  replace (idx * 64 + (i - idx * 64)) with i in H by lia. by rewrite bool_decide_eq_true_2 in H by lia.
Qed.

(** The lowest bit of a scanned word, and the word without it. *)
Lemma masked_first cap t idx pos data :
  shape cap t → 0 ≤ idx < words_for cap → masked (bitmap_ t) idx pos data → data ≠ 0 →
  idx * 64 ≤ pos → ∃ j, j = get_offset idx (extract_rightmost_one data) ∧
    pos ≤ j < cap ∧ idx * 64 ≤ j < (idx + 1) * 64 ∧ ex (bitmap_ t) j = true ∧
    (∀ i, pos ≤ i < j → ex (bitmap_ t) i = false) ∧
    masked (bitmap_ t) idx (j + 1) (remove_rightmost_one data).
Proof.
  intros Hs Hi [Hd Hb] Hne Hpos.
  destruct (tzcnt_spec data (word_zero_bits data Hd Hne)) as (Ht & Htb & Hlow).
  eexists. split; [done|]. rewrite get_offset_spec by done. set (j := idx * 64 + tzcnt data).
  pose proof Htb as Hj. rewrite Hb in Hj by done. apply andb_true_iff in Hj as [Hpj Hej].
  apply bool_decide_eq_true in Hpj.
  assert (j < cap).
  { destruct (decide (j < cap)); [done|]. rewrite (shape_tail _ _ Hs) in Hej; [done|unfold j in *; lia|].
    rewrite Z.div_add_l, (Z.div_small (tzcnt data)) by lia. lia. }
  split; [unfold j in *; lia|]. split; [unfold j; lia|]. split; [done|]. split.
  - intros i Hij. specialize (Hlow (i - idx * 64) ltac:(unfold j in *; lia)).
    rewrite Hb in Hlow by (unfold j in *; lia). replace (idx * 64 + (i - idx * 64)) with i in Hlow by lia.
    by rewrite bool_decide_eq_true_2 in Hlow by lia.
  - split; [by apply remove_range|]. intros b Hb64. rewrite testbit_remove by done. rewrite Hb by done.
    rewrite (andb_comm (bool_decide _)), <- andb_assoc, (andb_comm _ (ex _ _)).
    destruct (ex (bitmap_ t) (idx * 64 + b)) eqn:Eb; [|done]. cbn [andb].
    rewrite <- bool_decide_and. apply bool_decide_ext. split.
    + intros [Hnb Hpb]. destruct (decide (tzcnt data < b)); [unfold j; lia|].
      specialize (Hlow b ltac:(lia)). rewrite Hb, Eb, bool_decide_eq_true_2 in Hlow by (done || lia). done.
    + unfold j in *. lia.
Qed.

Lemma scan_words_spec cap t : ∀ fuel idx pos data,
  shape cap t → 0 ≤ idx < words_for cap → masked (bitmap_ t) idx pos data →
  idx * 64 ≤ pos ≤ (idx + 1) * 64 → words_for cap - idx ≤ Z.of_nat fuel →
  ∃ idx' data', scan_words fuel (words_for cap) (bitmap_ t) idx data = Ret (idx', data') ∧
    ((data' = 0 ∧ ∀ i, pos ≤ i < cap → ex (bitmap_ t) i = false) ∨
     (data' ≠ 0 ∧ ∃ pos', pos ≤ pos' ∧ (∀ i, pos ≤ i < pos' → ex (bitmap_ t) i = false) ∧
        idx ≤ idx' < words_for cap ∧ idx' * 64 ≤ pos' ∧ masked (bitmap_ t) idx' pos' data')).
Proof.
  induction fuel as [|fuel IH]; intros idx pos data Hs Hi Hm Hp Hf; [lia|]. cbn [scan_words].
  case_bool_decide as Hd.
  - subst data. case_bool_decide as He.
    + exists (idx + 1), 0. split; [done|]. left. split; [done|]. intros i Hic.
      apply (masked_zero _ idx pos); [done|lia|]. unfold words_for in *. Z.to_euclidean_division_equations. lia.
    + destruct (bitmap_rd cap t (idx + 1) Hs) as [-> _]; [lia|]. rewrite res_bind_ret.
      destruct (IH (idx + 1) ((idx + 1) * 64) (bitmap_ t !!! Z.to_nat (idx + 1)) Hs) as (idx' & data' & -> & H);
        [lia|apply (masked_word cap); [done|lia|lia]|lia|lia|].
      exists idx', data'. split; [done|].
      assert (∀ i, pos ≤ i < (idx + 1) * 64 → ex (bitmap_ t) i = false) as Hz.
      { intros i Hic. apply (masked_zero _ idx pos); [done|lia|lia]. }
      destruct H as [[-> H]|(Hne & pos' & Hpp & H & Hi' & Hp' & Hm')]; [left|right].
      * split; [done|]. intros i Hic. destruct (decide (i < (idx + 1) * 64)); [apply Hz; lia|apply H; lia].
      * split; [done|]. exists pos'. split; [lia|]. split; [|split; [lia|done]].
        intros i Hic. destruct (decide (i < (idx + 1) * 64)); [apply Hz; lia|apply H; lia].
  - exists idx, data. split; [done|]. right. split; [done|]. exists pos. split; [done|].
    split; [lia|]. split; [lia|]. split; [lia|done].
Qed.

(** The first occupied slot from [pos] on, or the capacity. *)
Definition is_next (E : Z → bool) cap pos j : Prop :=
  pos ≤ j ≤ cap ∧ (∀ i, pos ≤ i < j → E i = false) ∧ (j < cap → E j = true).

(** Asked from behind the last slot, the function still reads the word there. *)
Lemma next_filled_spec n pos (exclusive : bool) :
  node_ok n → 0 ≤ pos → (if exclusive then pos + 1 else pos) ≤ data_capacity_ n →
  (if exclusive then pos + 1 else pos) < data_capacity_ n ∨ exclusive = true ∨ data_capacity_ n mod 64 ≠ 0 →
  ∃ j, get_next_filled_position pos exclusive n = Ret j ∧
    is_next (ex (bitmap_ (slots_ n))) (data_capacity_ n) (if exclusive then pos + 1 else pos) j.
Proof.
  intros [Hcap Hb Hs _ _ _] Hpos Hle Hlt. unfold get_next_filled_position, scan_fuel. rewrite Hb.
  set (q := if exclusive then pos + 1 else pos) in *.
  assert (0 ≤ q) as Hq0 by (unfold q; destruct exclusive; lia). clearbody q.
  destruct (exclusive && bool_decide (q = data_capacity_ n)) eqn:Ex.
  { apply andb_true_iff in Ex as [_ ->%bool_decide_eq_true]. exists (data_capacity_ n). split; [done|].
    split; [lia|]. split; lia. }
  assert (0 ≤ q / 64 < words_for (data_capacity_ n)) as Hq.
  { assert (q < data_capacity_ n ∨ data_capacity_ n mod 64 ≠ 0) as Hc.
    { destruct Hlt as [?|[->|?]]; [by left| |by right]. cbn in Ex. apply bool_decide_eq_false in Ex. left. lia. }
    unfold words_for. Z.to_euclidean_division_equations. lia. }
  rewrite !word_of_div, bit_of_mod. destruct (bitmap_rd _ _ (q / 64) Hs Hq) as [-> Hw]. rewrite res_bind_ret.
  destruct (scan_words_spec _ (slots_ n) (S (Z.to_nat (words_for (data_capacity_ n)))) (q / 64) q _ Hs Hq
    (masked_low _ _ q Hs Hq)) as (idx & data & -> & H);
    [Z.to_euclidean_division_equations; lia|unfold words_for in *; lia|].
  rewrite res_bind_ret. destruct H as [[-> H]|(Hne & pos' & Hpp & H & Hi & Hp' & Hm)].
  - exists (data_capacity_ n). split; [done|]. split; [lia|]. split; [done|lia].
  - rewrite bool_decide_eq_false_2 by done.
    destruct (masked_first _ _ idx pos' data Hs) as (j & -> & Hj & _ & Hej & Hgap & _); [lia|done|done|done|].
    eexists. split; [done|]. split; [lia|]. split; [|done].
    intros i Hij. destruct (decide (i < pos')); [apply H; lia|apply Hgap; lia].
Qed.

(** A capacity that fills the last word: there is no word behind it. *)
Lemma next_filled_outside n :
  node_ok n → data_capacity_ n mod 64 = 0 → get_next_filled_position (data_capacity_ n) false n = Fault.
Proof.
  intros [Hcap Hb Hs _ _ _] Hm. unfold get_next_filled_position. cbn [andb]. rewrite word_of_div.
  pose proof (shape_words _ _ Hs) as Hw. unfold rd.
  rewrite bool_decide_eq_true_2 by (apply Z.div_pos; lia). rewrite lookup_ge_None_2; [done|].
  unfold words_for in Hw. Z.to_euclidean_division_equations. lia.
Qed.
End scan.

(** ** Searches of a node *)
(** Only the counters differ. *)
Definition same_node (n n' : AlexDataNode) : Prop := ∃ c, n' = with_counters c n.

Section search.
Implicit Types (n : AlexDataNode) (key m pos : Z).

Lemma same_node_refl n : same_node n n.
Proof. exists (counters_ n). by destruct n. Qed.
Lemma same_node_lookup n : same_node n (add_lookup n).
Proof. by eexists. Qed.
Lemma same_node_iterations n x : same_node n (with_iterations x n).
Proof. by eexists. Qed.
Lemma same_node_trans n1 n2 n3 : same_node n1 n2 → same_node n2 n3 → same_node n1 n3.
Proof. intros [c ->] [c' ->]. by eexists. Qed.

Lemma same_node_ok n n' : same_node n n' → node_ok n → node_ok n' ∧ contents n' = contents n.
Proof. intros [c ->] []. by split; [constructor|]. Qed.

Lemma predict_position_range key n : 0 < data_capacity_ n → 0 ≤ predict_position key n < data_capacity_ n.
Proof. unfold predict_position. lia. Qed.

Lemma exponential_search_upper_bound_spec m key n :
  node_ok n → 0 ≤ m < data_capacity_ n → ∃ pos it,
    exponential_search_upper_bound m key n = Ret (pos, with_iterations it n) ∧
    boundary (λ i, bool_decide (key_at (slots_ n) i ≤ key)) (data_capacity_ n) pos.
Proof.
  intros Hok Hm. destruct (node_ok_self n Hok) as [Hv Ha]. pose proof (ok_capacity n Hok) as Hc.
  set (p := λ i, bool_decide (key_at (slots_ n) i ≤ key)).
  assert (∀ i j, 0 ≤ i → i ≤ j → j < data_capacity_ n → p j = true → p i = true) as Hmono.
  { unfold p. intros i j ???. rewrite !bool_decide_eq_true. etrans; [|done]. by eapply keys_monotone. }
  assert (∀ i, 0 ≤ i < data_capacity_ n →
    (let* k := rd (key_slots_ (slots_ n)) i in Ret (bool_decide (k ≤ key))) = Ret (p i)) as Hg.
  { intros i Hi. by rewrite (rd_key_view _ _ _ _ _ i Hv Hi), res_bind_ret. }
  unfold exponential_search_upper_bound, binary_search_upper_bound.
  rewrite (rd_key_view _ _ _ _ _ m Hv Hm), res_bind_ret. case_bool_decide as Hk.
  - destruct (search_left p (λ b, let* k := rd (key_slots_ (slots_ n)) (m - b) in Ret (bool_decide (key < k)))
      (λ mid, let* k := rd (key_slots_ (slots_ n)) mid in Ret (bool_decide (k ≤ key)))
      (data_capacity_ n) m (num_exp_search_iterations_ (counters_ n))) as (b & it & pos & E1 & E2 & Hb);
      [done|lia|done| |done|unfold p; apply bool_decide_eq_false_2; lia|].
    + intros b Hb. rewrite (rd_key_view _ _ _ _ _ (m - b) Hv ltac:(lia)), res_bind_ret. f_equal. unfold p.
      rewrite <- bool_decide_not. apply bool_decide_ext. lia.
    + exists pos, it. split; [|done]. by rewrite E1, res_bind_ret, E2.
  - destruct (search_right p (λ b, let* k := rd (key_slots_ (slots_ n)) (m + b) in Ret (bool_decide (k ≤ key)))
      (λ mid, let* k := rd (key_slots_ (slots_ n)) mid in Ret (bool_decide (k ≤ key)))
      (data_capacity_ n) m (num_exp_search_iterations_ (counters_ n))) as (b & it & pos & E1 & E2 & Hb);
      [done|lia|done| |done|unfold p; apply bool_decide_eq_true_2; lia|].
    + intros b Hb. apply Hg. lia.
    + exists pos, it. split; [|done]. by rewrite E1, res_bind_ret, E2.
Qed.

Lemma exponential_search_lower_bound_spec m key n :
  node_ok n → 0 ≤ m < data_capacity_ n → ∃ pos it,
    exponential_search_lower_bound m key n = Ret (pos, with_iterations it n) ∧
    boundary (λ i, bool_decide (key_at (slots_ n) i < key)) (data_capacity_ n) pos.
Proof.
  intros Hok Hm. destruct (node_ok_self n Hok) as [Hv Ha]. pose proof (ok_capacity n Hok) as Hc.
  set (p := λ i, bool_decide (key_at (slots_ n) i < key)).
  assert (∀ i j, 0 ≤ i → i ≤ j → j < data_capacity_ n → p j = true → p i = true) as Hmono.
  { unfold p. intros i j ???. rewrite !bool_decide_eq_true. apply Z.le_lt_trans. by eapply keys_monotone. }
  assert (∀ i, 0 ≤ i < data_capacity_ n →
    (let* k := rd (key_slots_ (slots_ n)) i in Ret (bool_decide (k < key))) = Ret (p i)) as Hg.
  { intros i Hi. by rewrite (rd_key_view _ _ _ _ _ i Hv Hi), res_bind_ret. }
  assert (∀ i, 0 ≤ i < data_capacity_ n →
    (let* k := rd (key_slots_ (slots_ n)) i in Ret (bool_decide (key ≤ k))) = Ret (negb (p i))) as Hge.
  { intros i Hi. rewrite (rd_key_view _ _ _ _ _ i Hv Hi), res_bind_ret. f_equal. unfold p.
    rewrite <- bool_decide_not. apply bool_decide_ext. lia. }
  unfold exponential_search_lower_bound, binary_search_lower_bound.
  rewrite (rd_key_view _ _ _ _ _ m Hv Hm), res_bind_ret. case_bool_decide as Hk.
  - destruct (search_left p (λ b, let* k := rd (key_slots_ (slots_ n)) (m - b) in Ret (bool_decide (key ≤ k)))
      (λ mid, let* k := rd (key_slots_ (slots_ n)) mid in Ret (bool_decide (k < key)))
      (data_capacity_ n) m (num_exp_search_iterations_ (counters_ n))) as (b & it & pos & E1 & E2 & Hb);
      [done|lia|done|intros; apply Hge; lia|done|unfold p; apply bool_decide_eq_false_2; lia|].
    exists pos, it. split; [|done]. by rewrite E1, res_bind_ret, E2.
  - destruct (search_right p (λ b, let* k := rd (key_slots_ (slots_ n)) (m + b) in Ret (bool_decide (k < key)))
      (λ mid, let* k := rd (key_slots_ (slots_ n)) mid in Ret (bool_decide (k < key)))
      (data_capacity_ n) m (num_exp_search_iterations_ (counters_ n))) as (b & it & pos & E1 & E2 & Hb);
      [done|lia|done|intros; apply Hg; lia|done|unfold p; apply bool_decide_eq_true_2; lia|].
    exists pos, it. split; [|done]. by rewrite E1, res_bind_ret, E2.
Qed.

(** [upper_bound] and [lower_bound] of a node. *)
Definition is_upper n key pos : Prop :=
  0 ≤ pos ≤ data_capacity_ n ∧ (∀ i, 0 ≤ i < pos → key_at (slots_ n) i ≤ key) ∧
  (∀ i, pos ≤ i < data_capacity_ n → key < key_at (slots_ n) i).
Definition is_lower n key pos : Prop :=
  0 ≤ pos ≤ data_capacity_ n ∧ (∀ i, 0 ≤ i < pos → key_at (slots_ n) i < key) ∧
  (∀ i, pos ≤ i < data_capacity_ n → key ≤ key_at (slots_ n) i).

Lemma search_upper m key n :
  node_ok n → 0 ≤ m < data_capacity_ n → ∃ pos n',
    exponential_search_upper_bound m key n = Ret (pos, n') ∧ same_node n n' ∧ is_upper n key pos.
Proof.
  intros Hok Hm. destruct (exponential_search_upper_bound_spec m key n Hok Hm) as (pos & it & E & Hp & Ht & Hf).
  eexists _, _. split; [exact E|]. split; [apply same_node_iterations|]. split; [done|]. split; intros i Hi.
  - by apply (bool_decide_eq_true_1 (key_at (slots_ n) i ≤ key)), Ht.
  - pose proof (bool_decide_eq_false_1 _ (Hf i Hi)). lia.
Qed.

Lemma search_lower m key n :
  node_ok n → 0 ≤ m < data_capacity_ n → ∃ pos n',
    exponential_search_lower_bound m key n = Ret (pos, n') ∧ same_node n n' ∧ is_lower n key pos.
Proof.
  intros Hok Hm. destruct (exponential_search_lower_bound_spec m key n Hok Hm) as (pos & it & E & Hp & Ht & Hf).
  eexists _, _. split; [exact E|]. split; [apply same_node_iterations|]. split; [done|]. split; intros i Hi.
  - by apply (bool_decide_eq_true_1 (key_at (slots_ n) i < key)), Ht.
  - pose proof (bool_decide_eq_false_1 _ (Hf i Hi)). lia.
Qed.

(** The pairs of a node from a slot on. *)
Definition suffix n pos : list (Z * Z) :=
  listing (key_at (slots_ n)) (pay_at (slots_ n)) (ex (bitmap_ (slots_ n))) pos (data_capacity_ n).

Lemma suffix_next n pos j :
  0 ≤ pos → is_next (ex (bitmap_ (slots_ n))) (data_capacity_ n) pos j → suffix n j = suffix n pos.
Proof.
  intros Hp (Hj & Hgap & _). unfold suffix. rewrite (listing_app _ _ _ pos j) by lia.
  by rewrite (listing_gaps _ _ _ pos j) by done.
Qed.

(** The last slot with a key at most [key] that holds [key] is a key slot. *)
Lemma upper_filled n key pos :
  node_ok n → key < kEndSentinel_ → is_upper n key pos → 0 < pos → key_at (slots_ n) (pos - 1) = key →
  ex (bitmap_ (slots_ n)) (pos - 1) = true.
Proof.
  intros Hok Hkey (Hp & _ & Hhi) Hpos Hk. destruct (ex (bitmap_ (slots_ n)) (pos - 1)) eqn:He; [done|].
  pose proof (ok_gaps n Hok (pos - 1) ltac:(lia) He) as Hg. rewrite Hk in Hg. case_decide; [|lia].
  specialize (Hhi pos ltac:(lia)). replace (pos - 1 + 1) with pos in Hg by lia. lia.
Qed.

Lemma next_of n n' pos :
  same_node n n' → node_ok n → 0 ≤ pos ≤ data_capacity_ n →
  pos < data_capacity_ n ∨ data_capacity_ n mod 64 ≠ 0 →
  ∃ j, get_next_filled_position pos false n' = Ret j ∧
    is_next (ex (bitmap_ (slots_ n))) (data_capacity_ n) pos j.
Proof.
  intros [c ->] Hok Hpos Hlt. apply (next_filled_spec (with_counters c n) pos false); [|lia|cbn; lia|].
  - apply (same_node_ok n); [by eexists|done].
  - destruct Hlt; [by left|by right; right].
Qed.
End search.

(** ** The iterator *)
(** [it] stands on the first key slot from [pos] on, or at the end. *)
Definition it_on (n : AlexDataNode) (it : Iterator) (pos : Z) : Prop :=
  ((∀ i, pos ≤ i < data_capacity_ n → ex (bitmap_ (slots_ n)) i = false) ∧ cur_idx_ it = -1) ∨
  (pos ≤ cur_idx_ it < data_capacity_ n ∧ ex (bitmap_ (slots_ n)) (cur_idx_ it) = true ∧
   (∀ i, pos ≤ i < cur_idx_ it → ex (bitmap_ (slots_ n)) i = false) ∧
   0 ≤ cur_bitmap_idx_ it < words_for (data_capacity_ n) ∧
   cur_bitmap_idx_ it * 64 ≤ cur_idx_ it < (cur_bitmap_idx_ it + 1) * 64 ∧
   masked (bitmap_ (slots_ n)) (cur_bitmap_idx_ it) (cur_idx_ it + 1) (cur_bitmap_data_ it)).

Section iterator.
Implicit Types (n : AlexDataNode) (it : Iterator) (pos : Z).

(** A node whose arrays are in shape: what the iterator needs. *)
Record iterable n : Prop := {
  it_shape : shape (data_capacity_ n) (slots_ n);
  it_bsize : bitmap_size_ n = words_for (data_capacity_ n)
}.
Lemma node_ok_iterable n : node_ok n → iterable n.
Proof. intros []. by constructor. Qed.

Lemma it_scan n idx cur pos data :
  iterable n → 0 ≤ idx < words_for (data_capacity_ n) → 0 ≤ pos →
  masked (bitmap_ (slots_ n)) idx pos data → idx * 64 ≤ pos ≤ (idx + 1) * 64 →
  ∃ it', it_next n (mkIterator cur idx data) = Ret it' ∧ it_on n it' pos.
Proof.
  intros [Hs Hb] Hi Hp0 Hm Hp. unfold it_next, scan_fuel.
  cbn [cur_bitmap_idx_ cur_bitmap_data_]. rewrite Hb.
  destruct (scan_words_spec _ (slots_ n) (S (Z.to_nat (words_for (data_capacity_ n)))) idx pos data Hs Hi Hm Hp)
    as (idx' & data' & -> & H); [lia|].
  rewrite res_bind_ret. destruct H as [[-> H]|(Hne & pos' & Hpp & H & Hi' & Hp' & Hm')].
  - rewrite bool_decide_eq_true_2 by done. eexists. split; [done|]. left. by split.
  - rewrite bool_decide_eq_false_2 by done. eexists. split; [done|]. right. cbn.
    destruct (masked_first _ _ idx' pos' data' Hs) as (j & <- & Hj & Hjw & Hej & Hgap & Hm2);
      [lia|done|done|done|].
    split; [lia|]. split; [done|]. split; [|split; [lia|done]].
    intros i Hij. destruct (decide (i < pos')); [apply H; lia|apply Hgap; lia].
Qed.

Lemma it_next_on n it pos :
  iterable n → 0 ≤ pos → it_on n it pos → cur_idx_ it ≠ -1 →
  ∃ it', it_next n it = Ret it' ∧ it_on n it' (cur_idx_ it + 1).
Proof.
  intros Hn Hp [[_ ?]|(Hc & _ & _ & Hi & Hw & Hm)] Hne; [done|].
  destruct it as [cur idx data]. cbn in *. apply (it_scan n idx cur); [done|done|lia|done|lia].
Qed.

Lemma it_initialize_on n pos :
  iterable n → 0 ≤ pos < data_capacity_ n → ∃ it, it_initialize n pos = Ret it ∧ it_on n it pos.
Proof.
  intros Hn Hp. pose proof (div64_lt pos (data_capacity_ n) Hp) as Hq. unfold it_initialize.
  rewrite !word_of_div, bit_of_mod. destruct (bitmap_rd _ _ (pos / 64) (it_shape n Hn) Hq) as [-> Hw].
  rewrite res_bind_ret.
  apply it_scan; [done|done|lia|by apply (masked_low (data_capacity_ n)); [apply it_shape|]|].
  Z.to_euclidean_division_equations. lia.
Qed.

(** What is left of the listing up to [right]. *)
Definition between n (a b : Z) : list (Z * Z) :=
  listing (key_at (slots_ n)) (pay_at (slots_ n)) (ex (bitmap_ (slots_ n))) a b.

Lemma it_on_between n it pos right :
  it_on n it pos → 0 ≤ pos → right ≤ data_capacity_ n →
  if it_in n right it
  then pos ≤ cur_idx_ it < right ∧ between n pos right =
    (key_at (slots_ n) (cur_idx_ it), pay_at (slots_ n) (cur_idx_ it)) :: between n (cur_idx_ it + 1) right
  else between n pos right = [].
Proof.
  intros [[Hg Hc]|(Hc & Ec & Hg & _)] Hp Hr; unfold it_in, is_end.
  - rewrite (bool_decide_eq_true_2 (cur_idx_ it = -1)), andb_false_r by done.
    apply listing_gaps. intros i Hi. apply Hg. lia.
  - rewrite (bool_decide_eq_false_2 (cur_idx_ it = -1)), andb_true_r by lia. case_bool_decide.
    + split; [lia|]. unfold between. rewrite (listing_app _ _ _ pos (cur_idx_ it) right) by lia.
      rewrite (listing_gaps _ _ _ pos (cur_idx_ it)) by done. by rewrite listing_cons, Ec by lia.
    + apply listing_gaps. intros i Hi. apply Hg. lia.
Qed.

Lemma it_on_read n it pos :
  iterable n → it_on n it pos → 0 ≤ pos → cur_idx_ it ≠ -1 →
  it_key n it = Ret (key_at (slots_ n) (cur_idx_ it)) ∧
  it_payload n it = Ret (pay_at (slots_ n) (cur_idx_ it)).
Proof.
  intros [Hs _] [[_ ?]|(Hc & _)] Hp Hne; [done|]. pose proof (view_self _ _ Hs) as Hv.
  split; [apply (rd_key_view _ _ _ _ _ _ Hv); lia|apply (rd_payload_view _ _ _ _ _ _ Hv); lia].
Qed.
End iterator.
