(* ===== verification/AlexLookup.v ===== *)
(** * ALEX data nodes: counts and lookups

    The bits of a word count the pairs of its 64 slots, and
    [num_keys_in_range] the pairs between two positions; [find_key],
    [find_lower] and [find_upper] are functions of the pairs of the node. *)
From S2P Require Import Prelude Ieee AlexBase AlexNode AlexOps AlexInv AlexSearch.

Section count.
Implicit Types (n : AlexDataNode) (t : slots) (cap i w : Z).

Lemma popcnt_range w lo hi :
  0 ≤ lo → lo ≤ hi → hi ≤ 64 → (∀ b, 0 ≤ b < 64 → Z.testbit w b = true → lo ≤ b < hi) →
  popcnt w = Z.of_nat (length (filter (λ b, Z.testbit w b = true) (seqZ lo (hi - lo)))).
Proof.
  intros Hlo Hle Hhi Hw. unfold popcnt, ones_of. replace (seqZ 0 64) with (seqZ 0 (lo + ((hi - lo) + (64 - hi)))) by (f_equal; lia).
  rewrite !seqZ_app, !filter_app, !length_app by lia.
  rewrite (filter_none _ (seqZ 0 lo)), (filter_none _ (seqZ (0 + lo + (hi - lo)) _)).
  - cbn. rewrite Z.add_0_l. lia.
  - apply Forall_seqZ. intros b Hb Ht. specialize (Hw b ltac:(lia) Ht). lia.
  - apply Forall_seqZ. intros b Hb Ht. specialize (Hw b ltac:(lia) Ht). lia.
Qed.

(** The bits from [lo] to [hi] of a word of the bitmap. *)
Lemma popcnt_part cap t K P idx w lo hi :
  shape cap t → 0 ≤ idx < words_for cap → 0 ≤ lo → lo ≤ hi → hi ≤ 64 →
  (∀ b, 0 ≤ b < 64 → Z.testbit w b = bool_decide (lo ≤ b < hi) && Z.testbit (bitmap_ t !!! Z.to_nat idx) b) →
  popcnt w = Z.of_nat (length (listing K P (ex (bitmap_ t)) (idx * 64 + lo) (idx * 64 + hi))).
Proof.
  intros Hs Hi Hlo Hle Hhi Hw. rewrite (popcnt_range w lo hi) by (done || intros b Hb; rewrite Hw by done; by intros [?%bool_decide_eq_true _]%andb_true_iff).
  unfold listing. f_equal. replace (idx * 64 + hi - (idx * 64 + lo)) with (hi - lo) by lia.
  rewrite <- fmap_add_seqZ. assert (Forall (λ b, lo ≤ b < hi) (seqZ lo (hi - lo))) as Hb by (apply Forall_seqZ; lia).
  induction Hb as [|b l Hb Hl IH]; [done|]. rewrite fmap_cons, filter_cons. cbn. unfold pair_at at 1.
  rewrite ex_word by lia. rewrite Hw, bool_decide_eq_true_2 by lia. cbn [andb].
  case_decide as Hd; [rewrite Hd; cbn; by rewrite IH|]. apply not_true_is_false in Hd. by rewrite Hd.
Qed.

Lemma popcnt_listing cap t K P idx :
  shape cap t → 0 ≤ idx < words_for cap →
  popcnt (bitmap_ t !!! Z.to_nat idx) =
    Z.of_nat (length (listing K P (ex (bitmap_ t)) (idx * 64) ((idx + 1) * 64))).
Proof.
  intros Hs Hi. rewrite (popcnt_part cap t K P idx _ 0 64) by (done || intros b Hb; by rewrite bool_decide_eq_true_2 by lia).
  do 3 f_equal; lia.
Qed.

Lemma low_mask_spec b i : 0 ≤ b → 0 ≤ i < 64 → Z.testbit (low_mask b) i = bool_decide (i < b).
Proof. intros Hb Hi. unfold low_mask. rewrite mask_spec by lia. done. Qed.

Lemma num_keys_in_range_spec n left right :
  node_ok n → 0 ≤ left → left ≤ right → left < data_capacity_ n → right ≤ data_capacity_ n →
  num_keys_in_range left right n = Ret (Z.of_nat (length (between n left right))).
Proof.
  intros Hok Hl Hle Hlc Hr. pose proof Hok as [Hcap Hbs Hs _ _ _]. unfold num_keys_in_range, between.
  set (K := key_at (slots_ n)). set (P := pay_at (slots_ n)). set (E := ex (bitmap_ (slots_ n))).
  rewrite bool_decide_eq_true_2 by lia. cbn [negb]. rewrite !word_of_div, !bit_of_mod.
  pose proof (Z.mod_pos_bound left 64 ltac:(lia)) as Hml. pose proof (Z.mod_pos_bound right 64 ltac:(lia)) as Hmr.
  pose proof (Z.div_mod left 64 ltac:(lia)) as El. pose proof (Z.div_mod right 64 ltac:(lia)) as Er.
  assert (words_for (data_capacity_ n) * 64 - 64 < data_capacity_ n ≤ words_for (data_capacity_ n) * 64) as Hwc
    by (unfold words_for; Z.to_euclidean_division_equations; lia).
  set (li := left / 64) in *. set (ri := right / 64) in *. set (lb := left mod 64) in *. set (rb := right mod 64) in *.
  assert (0 ≤ li < words_for (data_capacity_ n) ∧ li ≤ ri) as [Hli Hlr] by lia.
  assert (∀ i, 0 ≤ i < words_for (data_capacity_ n) → rd (bitmap_ (slots_ n)) i = Ret (bitmap_ (slots_ n) !!! Z.to_nat i)) as Hrd
    by (intros i Hi; by destruct (bitmap_rd _ _ i Hs Hi) as [-> _]).
  case_bool_decide as Heq.
  - rewrite Hrd, res_bind_ret by lia. f_equal. rewrite (popcnt_part (data_capacity_ n) (slots_ n) K P li _ lb rb); [do 3 f_equal; lia|done|lia..|].
    intros b Hb. rewrite !Z.land_spec, not64_spec, !low_mask_spec by lia. by repeat case_bool_decide; try lia; destruct (Z.testbit _ _).
  - rewrite (Hrd li), res_bind_ret by lia.
    set (first := Z.land _ _). assert (popcnt first = Z.of_nat (length (listing K P E left ((li + 1) * 64)))) as Ef.
    { rewrite (popcnt_part (data_capacity_ n) (slots_ n) K P li _ lb 64); [do 3 f_equal; lia|done|lia..|].
      intros b Hb. unfold first. rewrite Z.land_spec, not64_spec, low_mask_spec by lia. by repeat case_bool_decide; try lia; destruct (Z.testbit _ _). }
    destruct (for_up_ind (λ i c, c = Z.of_nat (length (listing K P E left (i * 64))))
      (λ i c, let* w := rd (bitmap_ (slots_ n)) i in Ret (c + popcnt w)) (li + 1) ri (popcnt first)) as (c & -> & ->); [lia|done| |].
    { intros i c Hi ->. rewrite Hrd, res_bind_ret by lia. eexists. split; [done|].
      rewrite (popcnt_listing (data_capacity_ n) (slots_ n) K P i Hs) by lia. fold E.
      rewrite (listing_app K P E left (i * 64) ((i + 1) * 64)), length_app by lia. lia. }
    rewrite res_bind_ret, Hbs. case_bool_decide as Hri.
    + rewrite Hrd, res_bind_ret by lia. f_equal. rewrite (popcnt_part (data_capacity_ n) (slots_ n) K P ri _ 0 rb); [|done|lia..|].
      * fold E. rewrite (listing_app K P E left (ri * 64) right), length_app by lia. rewrite Z.add_0_r. replace (ri * 64 + rb) with right by lia. lia.
      * intros b Hb. rewrite Z.land_spec, low_mask_spec by lia. by repeat case_bool_decide; try lia; destruct (Z.testbit _ _).
    + do 2 f_equal. replace right with (ri * 64) by lia. done.
Qed.
End count.

Section lookup.
Implicit Types (n : AlexDataNode) (key pos : Z).

(** The boundary of the keys less than (at most) [key], taken to the next key
    slot; unless every slot is before it and the bitmap is used up. *)
Lemma room_or_next n key pos (Q : Z → Prop) :
  node_ok n → 0 ≤ pos ≤ data_capacity_ n →
  (∀ i, 0 ≤ i < pos → ¬ Q (key_at (slots_ n) i)) →
  data_capacity_ n mod 64 ≠ 0 ∨ (∃ k, k ∈ (contents n).*1 ∧ Q k) →
  pos < data_capacity_ n ∨ data_capacity_ n mod 64 ≠ 0.
Proof.
  intros Hok Hp Hlo [?|(k & (kp & -> & (i & Hi & _ & ->)%elem_of_listing)%list_elem_of_fmap & HQ)]; [by right|].
  left. destruct (decide (pos < data_capacity_ n)); [done|]. exfalso. exact (Hlo i ltac:(lia) HQ).
Qed.

Lemma boundary_filter n (Q : Z → Prop) `{!∀ k, Decision (Q k)} pos j :
  0 ≤ pos → is_next (ex (bitmap_ (slots_ n))) (data_capacity_ n) pos j →
  (∀ i, 0 ≤ i < pos → ¬ Q (key_at (slots_ n) i)) → (∀ i, pos ≤ i < data_capacity_ n → Q (key_at (slots_ n) i)) →
  between n 0 j = filter (λ kp, ¬ Q kp.1) (contents n) ∧ suffix n j = filter (λ kp, Q kp.1) (contents n).
Proof.
  intros Hp Hj Hlo Hhi. rewrite (suffix_next n pos j Hp Hj). pose proof Hj as (Hpj & Hgap & _).
  assert (between n 0 j = between n 0 pos) as ->.
  { unfold between. rewrite (listing_app _ _ _ 0 pos j) by lia.
    by rewrite (listing_gaps _ _ _ pos j), app_nil_r by done. }
  unfold contents, between, suffix. rewrite (listing_app _ _ _ 0 pos (data_capacity_ n)), !filter_app by lia.
  rewrite (filter_all _ (listing _ _ _ 0 pos)), (filter_none _ (listing _ _ _ pos (data_capacity_ n))),
    (filter_none (λ kp, Q kp.1) (listing _ _ _ 0 pos)), (filter_all (λ kp, Q kp.1) (listing _ _ _ pos _)), app_nil_r;
    [done|..]; apply list.Forall_forall; intros kp (i & Hi & _ & ->)%elem_of_listing; cbn.
  - apply Hhi. lia.
  - apply Hlo. lia.
  - intros Hn. apply Hn, Hhi. lia.
  - apply Hlo. lia.
Qed.

Lemma find_lower_spec n key :
  node_ok n → data_capacity_ n mod 64 ≠ 0 ∨ (∃ k, k ∈ (contents n).*1 ∧ key ≤ k) →
  ∃ pos n', find_lower key n = Ret (pos, n') ∧ same_node n n' ∧ 0 ≤ pos ≤ data_capacity_ n ∧
    (pos < data_capacity_ n → ex (bitmap_ (slots_ n)) pos = true ∧ key ≤ key_at (slots_ n) pos) ∧
    between n 0 pos = filter (λ kp, kp.1 < key) (contents n) ∧
    suffix n pos = filter (λ kp, key ≤ kp.1) (contents n).
Proof.
  intros Hok Hroom. pose proof (ok_capacity n Hok) as Hcap. unfold find_lower.
  destruct (same_node_ok n (add_lookup n) (same_node_lookup n) Hok) as [Hok1 _].
  destruct (search_lower (predict_position key (add_lookup n)) key (add_lookup n) Hok1) as (pos & n1 & -> & Hsame & Hlw);
    [apply predict_position_range; cbn; lia|]. rewrite res_bind_ret.
  assert (same_node n n1) as Hs1 by (eapply same_node_trans; [apply same_node_lookup|done]).
  change (is_lower n key pos) in Hlw. destruct Hlw as (Hp & Hlo & Hhi).
  destruct (next_of n n1 pos Hs1 Hok Hp) as (j & -> & Hj).
  { apply (room_or_next n key pos (λ k, key ≤ k)); [done|done| |done]. intros i Hi Hle. specialize (Hlo i Hi). lia. }
  rewrite res_bind_ret. exists j, n1. split; [done|]. split; [done|]. pose proof Hj as (Hpj & _ & Hej).
  split; [lia|]. split; [intros Hlt; split; [by apply Hej|apply Hhi; lia]|].
  destruct (boundary_filter n (λ k, key ≤ k) pos j ltac:(lia) Hj) as [H1 H2].
  - intros i Hi Hle. specialize (Hlo i Hi). lia.
  - done.
  - split; [|done]. rewrite H1. apply filter_ext_in. intros kp _. lia.
Qed.

Lemma find_upper_spec n key :
  node_ok n → data_capacity_ n mod 64 ≠ 0 ∨ (∃ k, k ∈ (contents n).*1 ∧ key < k) →
  ∃ pos n', find_upper key n = Ret (pos, n') ∧ same_node n n' ∧ 0 ≤ pos ≤ data_capacity_ n ∧
    (pos < data_capacity_ n → ex (bitmap_ (slots_ n)) pos = true) ∧
    between n 0 pos = filter (λ kp, kp.1 ≤ key) (contents n) ∧
    suffix n pos = filter (λ kp, key < kp.1) (contents n).
Proof.
  intros Hok Hroom. pose proof (ok_capacity n Hok) as Hcap. unfold find_upper.
  destruct (same_node_ok n (add_lookup n) (same_node_lookup n) Hok) as [Hok1 _].
  destruct (search_upper (predict_position key (add_lookup n)) key (add_lookup n) Hok1) as (pos & n1 & -> & Hsame & Hup);
    [apply predict_position_range; cbn; lia|]. rewrite res_bind_ret.
  assert (same_node n n1) as Hs1 by (eapply same_node_trans; [apply same_node_lookup|done]).
  change (is_upper n key pos) in Hup. destruct Hup as (Hp & Hlo & Hhi).
  destruct (next_of n n1 pos Hs1 Hok Hp) as (j & -> & Hj).
  { apply (room_or_next n key pos (λ k, key < k)); [done|done| |done]. intros i Hi Hle. specialize (Hlo i Hi). lia. }
  rewrite res_bind_ret. exists j, n1. split; [done|]. split; [done|]. pose proof Hj as (Hpj & _ & Hej).
  split; [lia|]. split; [done|].
  destruct (boundary_filter n (λ k, key < k) pos j ltac:(lia) Hj) as [H1 H2].
  - intros i Hi Hle. specialize (Hlo i Hi). lia.
  - done.
  - split; [|done]. rewrite H1. apply filter_ext_in. intros kp _. lia.
Qed.

(** [find_key]: the last slot with the key, or -1. *)
Lemma find_key_spec n key :
  node_ok n → 0 ≤ key < kEndSentinel_ →
  ∃ pos n', find_key key n = Ret (pos, n') ∧ same_node n n' ∧
    ((pos = -1 ∧ key ∉ (contents n).*1) ∨
     (0 ≤ pos < data_capacity_ n ∧ ex (bitmap_ (slots_ n)) pos = true ∧ key_at (slots_ n) pos = key ∧
      suffix n (pos + 1) = filter (λ kp, key < kp.1) (contents n))).
Proof.
  intros Hok Hkey. pose proof (ok_capacity n Hok) as Hcap. unfold find_key.
  destruct (same_node_ok n (add_lookup n) (same_node_lookup n) Hok) as [Hok1 _].
  destruct (search_upper (predict_position key (add_lookup n)) key (add_lookup n) Hok1) as (pos & n1 & -> & Hsame & Hup);
    [apply predict_position_range; cbn; lia|]. rewrite res_bind_ret.
  assert (same_node n n1) as Hs1 by (eapply same_node_trans; [apply same_node_lookup|done]).
  change (is_upper n key pos) in Hup. pose proof Hup as (Hp & Hlo & Hhi).
  destruct (node_ok_self n Hok) as [Hv Ha].
  assert ((∀ i, 0 ≤ i < pos → key_at (slots_ n) i ≠ key) → key ∉ (contents n).*1) as Hnone.
  { intros Hne (kp & -> & (i & Hi & _ & ->)%elem_of_listing)%list_elem_of_fmap. cbn in *.
    destruct (decide (i < pos)); [apply (Hne i); [lia|done]|specialize (Hhi i ltac:(lia)); lia]. }
  case_bool_decide as Hz.
  - exists (-1), n1. split; [done|]. split; [done|]. left. split; [done|]. apply Hnone. lia.
  - assert (slots_ n1 = slots_ n) as -> by (by destruct Hs1 as [c ->]).
    rewrite (rd_key_view _ _ _ _ _ (pos - 1) Hv), res_bind_ret by lia. case_bool_decide as Heq; cbn [negb].
    + exists (pos - 1), n1. split; [done|]. split; [done|]. right. split; [lia|].
      split; [apply (upper_filled n key pos); [done|lia|done|lia|done]|]. split; [done|].
      replace (pos - 1 + 1) with pos by lia.
      by destruct (listing_split (data_capacity_ n) (key_at (slots_ n)) (pay_at (slots_ n)) (ex (bitmap_ (slots_ n)))
        key pos Hp Hlo Hhi) as [_ ?].
    + exists (-1), n1. split; [done|]. split; [done|]. left. split; [done|]. apply Hnone. intros i Hi Hik.
      pose proof (keys_monotone _ _ _ _ i (pos - 1) Ha ltac:(lia) ltac:(lia) ltac:(lia)).
      specialize (Hlo (pos - 1) ltac:(lia)). lia.
Qed.
End lookup.
