(* ===== verification/AlexBuild.v ===== *)
(** * ALEX data nodes: building the arrays

    Bulk loading and resizing lay sorted pairs out in fresh arrays.  Wherever
    the model puts a pair, the loop keeps the pairs in order, fills the gaps
    before each with its key, and falls back to a dense tail when room runs
    out; what [new T[]] left in the arrays does not matter. *)
From S2P Require Import Prelude Ieee IeeeMono AlexBase AlexNode AlexOps AlexInv AlexSearch.

(** The slots up to [last] hold [l]; the rest are gaps. *)
Definition built (cap : Z) (t : slots) (last : Z) (l : list (Z * Z)) : Prop :=
  ∃ K P E, view cap t K P E ∧ -1 ≤ last < cap ∧ listing K P E 0 (last + 1) = l ∧
    (∀ i, last < i < cap → E i = false) ∧
    (∀ i, 0 ≤ i ≤ last → E i = false → i < last ∧ K i = K (i + 1)).

Section build.
Implicit Types (t : slots) (cap last pos : Z) (l vs : list (Z * Z)).

(** One pair placed at [pos], the gaps before it filled with its key. *)
Lemma place_built cap t last l pos k p :
  built cap t last l → last + 1 ≤ pos < cap →
  ∃ t1 t', fill_keys (last + 1) pos k t = Ret t1 ∧ put_slot pos k p t1 = Ret t' ∧
    built cap t' pos (l ++ [(k, p)]).
Proof.
  intros (K & P & E & Hv & Hl & <- & He & Hg) Hp.
  destruct (fill_keys_view cap t K P E (last + 1) pos k Hv) as (t1 & E1 & Hv1); [lia|lia|lia|].
  destruct (put_slot_view _ _ _ _ _ pos k p Hv1) as (t' & E2 & Hv'); [lia|].
  exists t1, t'. split; [done|]. split; [done|]. eexists _, _, _. split; [exact Hv'|]. split; [lia|].
  unfold upd. split; [|split].
  - rewrite (listing_app _ _ _ 0 (last + 1) (pos + 1)), (listing_app _ _ _ (last + 1) pos (pos + 1)) by lia.
    rewrite listing_one, (listing_gaps _ _ _ (last + 1) pos), decide_True, app_nil_l by
      (done || (intros i Hi; rewrite decide_False by lia; apply He; lia)).
    rewrite !decide_True by done. f_equal. apply listing_ext. intros i Hi.
    rewrite !decide_False by lia. done.
  - intros i Hi. rewrite decide_False by lia. apply He. lia.
  - intros i Hi Hei. case_decide as Hip; [done|]. split; [lia|].
    destruct (decide (i + 1 = pos)) as [Hn|Hn]; destruct (decide (last + 1 ≤ i < pos)) as [Hlp|Hlp];
      rewrite ?(decide_True _ _ Hn), ?(decide_False _ _ Hn); try done.
    + destruct (Hg i); [lia|done|lia].
    + by rewrite decide_True by lia.
    + destruct (Hg i) as [? ->]; [lia|done|]. by rewrite decide_False by lia.
Qed.

Lemma fill_keys_empty a k t : fill_keys a a k t = Ret t.
Proof. unfold fill_keys, for_up. by rewrite Z.sub_diag. Qed.

Lemma put_rest_built cap : ∀ vs t last l,
  built cap t last l → last + 1 + Z.of_nat (length vs) ≤ cap →
  ∃ t', put_rest vs (last + 1) t = Ret (t', last + 1 + Z.of_nat (length vs)) ∧
    built cap t' (last + Z.of_nat (length vs)) (l ++ vs).
Proof.
  induction vs as [|[k p] vs IH]; intros t last l Hb Hr; cbn [put_rest length] in *.
  - exists t. rewrite !Z.add_0_r, app_nil_r. done.
  - rewrite Nat2Z.inj_succ in *.
    destruct (place_built cap t last l (last + 1) k p Hb) as (t1 & t2 & E1 & E2 & Hb2); [lia|].
    rewrite fill_keys_empty in E1. injection E1 as <-. rewrite E2, res_bind_ret.
    destruct (IH t2 (last + 1) _ Hb2) as (t' & -> & Hb'); [lia|]. exists t'.
    rewrite <- app_assoc in Hb'. split; [do 2 f_equal; lia|].
    by replace (last + Z.succ (Z.of_nat (length vs))) with (last + 1 + Z.of_nat (length vs)) by lia.
Qed.

Lemma bulk_loop_built m cap : ∀ vs t last l,
  built cap t last l → last + 1 + Z.of_nat (length vs) ≤ cap →
  ∃ t' last', bulk_loop m cap vs last (Z.of_nat (length vs)) t = Ret (t', last') ∧
    built cap t' last' (l ++ vs).
Proof.
  induction vs as [|[k p] vs IH]; intros t last l Hb Hr; cbn [bulk_loop length] in *.
  - exists t, last. by rewrite app_nil_r.
  - rewrite Nat2Z.inj_succ in *. set (position := Z.max (predict k m) (last + 1)).
    assert (last + 1 ≤ position) as Hpos by (unfold position; lia). clearbody position. case_bool_decide as Hd.
    + set (pos := cap - Z.succ (Z.of_nat (length vs))).
      destruct (place_built cap t last l pos k p Hb) as (t1 & t2 & E1 & E2 & Hb2); [unfold pos; lia|].
      rewrite E1, res_bind_ret. cbn [put_rest]. rewrite E2, res_bind_ret.
      destruct (put_rest_built cap vs t2 pos _ Hb2) as (t' & E3 & Hb'); [unfold pos; lia|].
      rewrite E3, res_bind_ret. eexists _, _. split; [done|]. rewrite <- app_assoc in Hb'.
      by replace (pos + 1 + Z.of_nat (length vs) - 1) with (pos + Z.of_nat (length vs)) by lia.
    + destruct (place_built cap t last l position k p Hb) as (t1 & t2 & -> & E2 & Hb2); [lia|].
      rewrite res_bind_ret, E2, res_bind_ret.
      replace (Z.succ (Z.of_nat (length vs)) - 1) with (Z.of_nat (length vs)) by lia.
      destruct (IH t2 position _ Hb2) as (t' & last' & E3 & Hb'); [lia|].
      exists t', last'. split; [exact E3|]. by rewrite <- app_assoc in Hb'.
Qed.

(** The sentinel behind the last key. *)
Lemma finish_built cap t last l :
  built cap t last l → ∃ t' K P E, fill_keys (last + 1) cap kEndSentinel_ t = Ret t' ∧ view cap t' K P E ∧
    gaps_ok cap K E ∧ listing K P E 0 cap = l ∧
    (0 ≤ last → key_at t' last = key_at t last).
Proof.
  intros (K & P & E & Hv & Hl & <- & He & Hg).
  destruct (fill_keys_view cap t K P E (last + 1) cap kEndSentinel_ Hv) as (t' & -> & Hv'); [lia|lia|lia|].
  exists t'. eexists _, _, _. split; [done|]. split; [exact Hv'|]. split; [|split].
  - intros i Hi Hei. destruct (decide (i ≤ last)).
    + destruct (Hg i) as [? Hk]; [lia|done|]. rewrite (decide_True (P := i + 1 < cap)) by lia.
      by rewrite !decide_False by lia.
    + rewrite (decide_True (P := last + 1 ≤ i < cap)) by lia. case_decide; [|done].
      by rewrite decide_True by lia.
  - rewrite (listing_app _ _ _ 0 (last + 1) cap), (listing_gaps _ _ _ (last + 1) cap), app_nil_r by
      (lia || (intros i Hi; apply He; lia)).
    apply listing_ext. intros i Hi. rewrite decide_False by lia. done.
  - intros Hl0. destruct Hv as [_ Hv], Hv' as [_ Hv'].
    rewrite (proj1 (Hv last ltac:(lia))), (proj1 (Hv' last ltac:(lia))). by rewrite decide_False by lia.
Qed.

(** Fresh arrays are empty. *)
Lemma fresh_built junk cap : 0 < cap → built cap (fresh_slots junk cap) (-1) [].
Proof.
  intros Hc.
  assert (∀ i, 0 ≤ i → i / 64 < words_for cap → ex (bitmap_ (fresh_slots junk cap)) i = false) as He.
  { intros i Hi Hw. assert (0 ≤ i / 64) by (apply Z.div_pos; lia). unfold ex, fresh_slots. cbn.
    by rewrite lookup_total_replicate_2, Z.testbit_0_l by lia. }
  assert (0 ≤ words_for cap) by (apply Z.div_pos; lia).
  eexists _, _, _. split; [apply view_self|split; [lia|]; split; [by apply listing_nil|]].
  - constructor; cbn; rewrite ?length_fmap, ?length_seqZ, ?length_replicate; try lia; [|intros; apply He; lia].
    apply Forall_replicate. lia.
  - split; [|intros; lia]. intros i Hi. apply He; [lia|]. unfold words_for. apply div64_lt. lia.
Qed.

Lemma capacity_for_gt num density : 0 ≤ num → num < capacity_for num density.
Proof. unfold capacity_for. lia. Qed.
End build.

(** ** Reading the pairs from an existing node *)
Section copy.
Context (m : LinearModel) (cap : Z) (src : AlexDataNode) (right : Z).
Context (Hsrc : iterable src) (Hright : right ≤ data_capacity_ src).
Implicit Types (t : slots) (it : Iterator) (pos : Z).

Lemma copy_rest_put : ∀ fuel it pos t dst,
  it_on src it pos → 0 ≤ pos → (length (between src pos right) < fuel)%nat →
  dst + Z.of_nat (length (between src pos right)) = cap →
  copy_rest fuel src it dst cap t = (let* (t, _) := put_rest (between src pos right) dst t in Ret t).
Proof using Hsrc Hright.
  induction fuel as [|fuel IH]; intros it pos t dst Hon Hpos Hf Hd; [lia|]. cbn [copy_rest].
  pose proof (it_on_between src it pos right Hon Hpos Hright) as Hb. destruct (it_in src right it) eqn:Ein.
  - destruct Hb as [Hc Hb]. rewrite Hb in *. cbn [length put_rest] in *.
    rewrite bool_decide_eq_true_2 by lia.
    destruct (it_on_read src it pos Hsrc Hon Hpos) as [-> ->]; [lia|]. rewrite !res_bind_ret.
    destruct (put_slot dst _ _ t) as [t1| |]; [|done|done]. rewrite !res_bind_ret.
    destruct (it_next_on src it pos Hsrc Hpos Hon) as (it' & -> & Hon'); [lia|]. rewrite res_bind_ret.
    apply IH; [done|lia|lia|lia].
  - rewrite Hb in *. cbn in *. by rewrite bool_decide_eq_false_2 by lia.
Qed.

Lemma copy_loop_bulk : ∀ fuel it pos last t,
  it_on src it pos → 0 ≤ pos → (length (between src pos right) < fuel)%nat →
  copy_loop fuel m cap src right it last (Z.of_nat (length (between src pos right))) t =
  bulk_loop m cap (between src pos right) last (Z.of_nat (length (between src pos right))) t.
Proof using Hsrc Hright.
  induction fuel as [|fuel IH]; intros it pos last t Hon Hpos Hf; [lia|].
  pose proof (it_on_between src it pos right Hon Hpos Hright) as Hb.
  cbn [copy_loop]. destruct (it_in src right it) eqn:Ein; [|by rewrite Hb].
  destruct Hb as [Hc Hb].
  destruct (it_on_read src it pos Hsrc Hon Hpos) as [Hk Hp]; [lia|]. rewrite Hk, res_bind_ret.
  destruct (it_next_on src it pos Hsrc Hpos Hon) as (it' & Hnext & Hon'); [lia|].
  pose proof (copy_rest_put (S fuel) it pos) as Hrest. rewrite Hb in *. cbn [bulk_loop length] in *.
  set (k := key_at (slots_ src) (cur_idx_ it)) in *. set (p := pay_at (slots_ src) (cur_idx_ it)) in *.
  set (rem := Z.of_nat (S _)) in *. case_bool_decide as Hd.
  - destruct (fill_keys (last + 1) (cap - rem) k t) as [t1| |]; [|done|done]. rewrite !res_bind_ret.
    rewrite (Hrest t1 (cap - rem)) by (done || lia).
    assert (∀ vs pos t, put_rest vs pos t = let* (t', _) := put_rest vs pos t in
      Ret (t', pos + Z.of_nat (length vs))) as Hlen.
    { clear. induction vs as [|[k p] vs IH]; intros pos t; cbn [put_rest length].
      - by rewrite Z.add_0_r.
      - destruct (put_slot pos k p t) as [t1| |]; [|done|done]. rewrite !res_bind_ret, IH.
        destruct (put_rest vs (pos + 1) t1) as [[t2 q]| |]; [|done|done]. rewrite !res_bind_ret.
        do 2 f_equal. lia. }
    rewrite (Hlen _ _ t1). destruct (put_rest _ (cap - rem) t1) as [[t2 q]| |]; [|done|done].
    rewrite !res_bind_ret. do 2 f_equal. cbn [length]. fold rem. lia.
  - destruct (fill_keys (last + 1) _ k t) as [t1| |]; [|done|done]. rewrite !res_bind_ret, Hp, res_bind_ret.
    destruct (put_slot _ k p t1) as [t2| |]; [|done|done]. rewrite !res_bind_ret, Hnext, res_bind_ret.
    replace (rem - 1) with (Z.of_nat (length (between src (cur_idx_ it + 1) right))) by lia.
    apply IH; [done|lia|lia].
Qed.

(** The fit counts the keys. *)
Lemma fit_existing_count : ∀ fuel it pos i b,
  it_on src it pos → 0 ≤ pos → (length (between src pos right) < fuel)%nat →
  ∃ b', fit_existing fuel src right it i b = Ret (b', i + Z.of_nat (length (between src pos right))).
Proof using Hsrc Hright.
  induction fuel as [|fuel IH]; intros it pos i b Hon Hpos Hf; [lia|].
  pose proof (it_on_between src it pos right Hon Hpos Hright) as Hb.
  cbn [fit_existing]. destruct (it_in src right it) eqn:Ein; [|rewrite Hb; exists b; by rewrite Z.add_0_r].
  destruct Hb as [Hc Hb].
  destruct (it_on_read src it pos Hsrc Hon Hpos) as [-> _]; [lia|]. rewrite res_bind_ret.
  destruct (it_next_on src it pos Hsrc Hpos Hon) as (it' & -> & Hon'); [lia|]. rewrite res_bind_ret.
  rewrite Hb in *. cbn [length] in *.
  destruct (IH it' (cur_idx_ it + 1) (i + 1) (add (key_at (slots_ src) (cur_idx_ it)) i b) Hon') as (b' & ->);
    [lia|lia|]. exists b'. do 2 f_equal. lia.
Qed.
End copy.

Lemma between_fuel src a right : 0 ≤ a → right ≤ data_capacity_ src → (length (between src a right) < keys_fuel src)%nat.
Proof.
  intros Ha Hr. unfold keys_fuel. pose proof (listing_length (key_at (slots_ src)) (pay_at (slots_ src))
    (ex (bitmap_ (slots_ src))) a right) as H. unfold between. lia.
Qed.

(** ** Thresholds *)
Section thresholds.
Implicit Types (x y : double).

Lemma d_le_within x y l1 h1 l2 h2 : within x l1 h1 → within y l2 h2 → d_lt y x = false → d_le x y = true.
Proof.
  intros (l & (m & -> & _) & _) (l' & (m' & -> & _) & _). unfold d_lt, d_le, SFltb, SFleb, SFcompare.
  rewrite (Z.compare_antisym (l - 52) (l' - 52)). destruct (l - 52 ?= l' - 52); cbn; [|done|done].
  change (Pos.compare_cont Eq m' m) with (m' ?= m)%positive.
  change (Pos.compare_cont Eq m m') with (m ?= m')%positive. rewrite (Pos.compare_antisym m m').
  by destruct (m ?= m')%positive.
Qed.

Lemma d_le_refl x l h : within x l h → d_le x x = true.
Proof.
  intros (k & (m & -> & _) & _). unfold d_le, SFleb, SFcompare. rewrite Z.compare_refl.
  change (Pos.compare_cont Eq m m) with (m ?= m)%positive. by rewrite Pos.compare_refl.
Qed.

Lemma d_of_Z_le_refl c : 0 < c < 2 ^ 900 → d_le (d_of_Z c) (d_of_Z c) = true.
Proof. intros Hc. by eapply d_le_refl, d_of_Z_within. Qed.

Lemma density_within : within kMaxDensity_ (-1) 0.
Proof. exists (-1). split; [|lia]. eexists. split; [vm_compute; reflexivity|done]. Qed.

(** The expansion threshold never exceeds the capacity. *)
Lemma expansion_threshold_le num n :
  0 ≤ num → 0 < data_capacity_ n ≤ 2 ^ 30 → num + 1 ≤ 2 ^ 31 →
  d_le (expansion_threshold_ (thresholds num n)) (d_of_Z (data_capacity_ n)) = true.
Proof.
  intros Hn Hc Hn2. unfold thresholds. cbn [expansion_threshold_ with_thresholds].
  set (cap := data_capacity_ n) in *. clearbody cap.
  assert (0 < cap < 2 ^ 900 ∧ 0 < num + 1 < 2 ^ 900) as [Hcb Hnb].
  { assert (2 ^ 31 < 2 ^ 900) by (apply Z.pow_lt_mono_r; lia). lia. }
  pose proof (d_of_Z_within cap Hcb) as Hcw. pose proof (d_of_Z_within (num + 1) Hnb) as Hnw.
  assert (0 ≤ Z.log2 cap ≤ 30) as Hlog.
  { split; [apply Z.log2_nonneg|]. destruct Hc as [_ Hc%Z.log2_le_mono]. exact Hc. }
  pose proof (d_mul_within _ _ _ _ _ _ Hcw density_within ltac:(lia) ltac:(lia)) as Hmw.
  unfold d_min. case_match eqn:Elt; [by apply d_of_Z_le_refl|].
  unfold d_max in *. case_match; eapply d_le_within; eauto.
Qed.

(** Nor is it reached by the keys it was computed for. *)
Lemma expansion_threshold_gt num n :
  0 ≤ num < data_capacity_ n → data_capacity_ n ≤ 2 ^ 30 → d_le (expansion_threshold_ (thresholds num n)) (d_of_Z num) = false.
Proof.
  intros Hn Hc. unfold thresholds. cbn [expansion_threshold_ with_thresholds].
  set (cap := data_capacity_ n) in *. clearbody cap.
  assert (∀ t l, -100 ≤ l → normal t l → (num + 1) * 2 ^ scale ≤ sval t → d_le t (d_of_Z num) = false) as Hle.
  { intros t l Hl Ht Hv. destruct (decide (num = 0)) as [->|Hne]; [by destruct Ht as (m & -> & _)|].
    destruct (d_of_Z_sval num ltac:(lia)) as [Hnn En].
    destruct (normal_order t (d_of_Z num) l (Z.log2 num)) as [-> _]; [done|pose proof (Z.log2_nonneg num); lia|done|done|].
    apply Z.leb_gt. rewrite En. assert (0 < 2 ^ scale) by done. nia. }
  assert (∀ z, num < z ≤ 2 ^ 30 → d_le (d_of_Z z) (d_of_Z num) = false) as Hz.
  { intros z Hz. destruct (d_of_Z_sval z ltac:(lia)) as [Hnz Ez]. apply (Hle _ (Z.log2 z)); [pose proof (Z.log2_nonneg z); lia|done|].
    rewrite Ez. apply Z.mul_le_mono_nonneg_r; [done|lia]. }
  unfold d_min. case_match; [apply Hz; lia|]. unfold d_max. case_match eqn:Elt; [apply Hz; lia|].
  assert (0 < cap < 2 ^ 900) as Hcb by (assert (2 ^ 30 < 2 ^ 900) by (apply Z.pow_lt_mono_r; lia); lia).
  assert (0 ≤ Z.log2 cap ≤ 30) as Hlog.
  { split; [apply Z.log2_nonneg|]. apply Z.log2_le_mono in Hc. exact Hc. }
  destruct (d_mul_within _ _ _ _ _ _ (d_of_Z_within cap Hcb) density_within ltac:(lia) ltac:(lia)) as (l & Hl & Hlb).
  destruct (d_of_Z_sval (num + 1) ltac:(lia)) as [Hn1 En1]. apply (Hle _ l); [lia|done|]. rewrite <- En1. apply Z.ltb_ge.
  destruct (normal_order (d_mul (d_of_Z cap) kMaxDensity_) (d_of_Z (num + 1)) l (Z.log2 (num + 1))) as [_ <-]; [lia|pose proof (Z.log2_nonneg (num + 1)); lia|done..].
Qed.
End thresholds.

(** The capacity for up to [2 ^ 26] keys (the configured maximum is [2 ^ 20]
    slots) stays in the range of the positions. *)
Lemma capacity_for_bound num density :
  0 ≤ num ≤ 2 ^ 26 → within density (-1) 0 → capacity_for num density ≤ 2 ^ 30.
Proof.
  intros Hn Hd. unfold capacity_for.
  assert (d_to_int (d_div (d_of_Z num) density) ≤ 2 ^ 30); [|lia].
  destruct (decide (num = 0)) as [->|Hne].
  { destruct Hd as (l & (m & -> & _) & _). done. }
  assert (0 < num < 2 ^ 900) as Hb by (assert (2 ^ 26 < 2 ^ 900) by (apply Z.pow_lt_mono_r; lia); lia).
  assert (0 ≤ Z.log2 num ≤ 26) as Hlog.
  { split; [apply Z.log2_nonneg|]. destruct Hn as [_ Hn%Z.log2_le_mono]. exact Hn. }
  pose proof (d_of_Z_exact_within num ltac:(lia)) as Hw.
  pose proof (d_div_within _ _ _ _ _ _ Hw Hd ltac:(lia) ltac:(lia)) as Hq.
  destruct (sf_trunc_within _ _ _ Hq ltac:(lia)) as (z & Ez & Hz).
  unfold d_to_int. rewrite Ez. case_bool_decide; [|lia].
  assert (2 ^ (Z.log2 num - -1 + 1 + 1) ≤ 2 ^ 30) by (apply Z.pow_le_mono_r; lia). lia.
Qed.

Lemma init_density_within : within kInitDensity_ (-1) 0.
Proof. exists (-1). split; [|lia]. eexists. split; [vm_compute; reflexivity|done]. Qed.
Lemma min_density_within : within kMinDensity_ (-1) 0.
Proof. exists (-1). split; [|lia]. eexists. split; [vm_compute; reflexivity|done]. Qed.

(** A node that is well-formed and expands before it is full. *)
Definition node_wf (n : AlexDataNode) : Prop :=
  node_ok n ∧ d_le (expansion_threshold_ n) (d_of_Z (data_capacity_ n)) = true.
(** One that does not expand at the next insert. *)
Definition roomy (n : AlexDataNode) : Prop := d_le (expansion_threshold_ n) (d_of_Z (num_keys_ n)) = false.

(** ** Fitting the model terminates *)
Section model.
Implicit Types (vs : list (Z * Z)) (b : LinearModelBuilder).

Lemma add_every_total vs step : ∀ (fuel : nat) i b,
  0 < step → 0 ≤ i → Z.max 0 (Z.of_nat (length vs) - i) < Z.of_nat fuel →
  ∃ b', add_every fuel vs i step (Z.of_nat (length vs)) b = Ret b'.
Proof.
  induction fuel as [|fuel IH]; intros i b Hs Hi Hf; cbn [add_every].
  - lia.
  - case_bool_decide; [|by eexists]. rewrite rd_total, res_bind_ret by lia. apply IH; lia.
Qed.

Lemma initial_step_S fuel x s :
  initial_step (S fuel) x s =
    if d_le (d_of_Z 10) x then initial_step fuel (d_div x (d_of_Z 2)) (s * 2) else s.
Proof. done. Qed.

Lemma initial_step_pow : ∀ (fuel : nat) x s,
  ∃ k, 0 ≤ k ≤ Z.of_nat fuel ∧ initial_step fuel x s = s * 2 ^ k.
Proof.
  induction fuel as [|fuel IH]; intros x s; cbn [initial_step].
  - exists 0. split; [lia|]. by rewrite Z.mul_1_r.
  - case_match.
    + destruct (IH (d_div x (d_of_Z 2)) (s * 2)) as (k & Hk & ->). exists (k + 1). split; [lia|].
      rewrite Z.pow_add_r by lia. lia.
    + exists 0. split; [lia|]. by rewrite Z.mul_1_r.
Qed.

Lemma refine_total vs : ∀ (fuel : nat) k a c b,
  0 ≤ k < Z.of_nat fuel → ∃ m, refine_model fuel vs (2 ^ k) (Z.of_nat (length vs)) a c b = Ret m.
Proof.
  induction fuel as [|fuel IH]; intros k a c b Hk; [lia|]. cbn [refine_model]. case_bool_decide as Hs.
  - assert (1 ≤ k) by (destruct (decide (k = 0)) as [->|]; [done|lia]).
    replace (2 ^ k / 2) with (2 ^ (k - 1)) by (rewrite Z.pow_sub_r, Z.pow_1_r by lia; done).
    destruct (add_every_total vs (2 * 2 ^ (k - 1)) (Z.to_nat (Z.of_nat (length vs)) + 1) (2 ^ (k - 1)) b)
      as (b' & ->); [lia|lia|lia|]. rewrite res_bind_ret. case_match; [by eexists|]. apply IH. lia.
  - by eexists.
Qed.

Lemma build_model_total vs m use_sampling :
  Z.of_nat (length vs) ≤ 2 ^ 31 → ∃ m', build_model vs (Z.of_nat (length vs)) m use_sampling = Ret m'.
Proof.
  intros Hl. unfold build_model. destruct use_sampling; [|by eexists]. unfold build_model_sampling.
  case_bool_decide as Hn; [by eexists|].
  assert (d_le (d_of_Z 10) (d_of_Z (Z.of_nat (length vs))) = true) as H10.
  { set (n := Z.of_nat (length vs)) in *. clearbody n.
    assert (0 < n < 2 ^ 900) as Hn9 by (assert (2 ^ 31 < 2 ^ 900) by (apply Z.pow_lt_mono_r; lia); lia).
    assert (4 ≤ Z.log2 n) by (apply Z.log2_le_pow2; lia).
    pose proof (d_of_Z_within n Hn9) as Hw.
    pose proof (d_of_Z_exact_within 10 ltac:(lia)) as H10. change (Z.log2 10) with 3 in H10.
    eapply d_le_within; [exact H10|exact Hw|]. by eapply d_lt_within_false; [exact Hw|exact H10|lia]. }
  rewrite initial_step_S, H10.
  destruct (initial_step_pow 31 (d_div (d_of_Z (Z.of_nat (length vs))) (d_of_Z 2)) (1 * 2)) as (k & Hk & ->).
  replace (1 * 2 * 2 ^ k / 2) with (2 ^ k) by (replace (1 * 2 * 2 ^ k) with (2 ^ k * 2) by lia; by rewrite Z.div_mul).
  destruct (add_every_total vs (2 ^ k) (Z.to_nat (Z.of_nat (length vs)) + 1) 0 (builder_new m)) as (b & ->);
    [lia|lia|lia|]. rewrite res_bind_ret. apply refine_total. lia.
Qed.
End model.

(** ** The whole operations *)
Section whole.
Context (junk : Z → Z).
Implicit Types (n : AlexDataNode) (vs l : list (Z * Z)) (density : double).

(** Finished arrays installed in a node. *)
Lemma installed_wf n t cap last l num m t0 :
  built cap t0 last l → keys_ok l → num = Z.of_nat (length l) → 0 < cap ≤ 2 ^ 30 →
  num_keys_ n = num → fill_keys (last + 1) cap kEndSentinel_ t0 = Ret t →
  let n' := thresholds num (with_arrays t cap (words_for cap) (with_node_model m n)) in
  node_wf n' ∧ contents n' = l.
Proof.
  intros Hb Hk Hl Hcap Hn E n'. destruct (finish_built cap t0 last l Hb) as (t' & K & P & Ex & E' & Hv & Hg & Hls & _).
  rewrite E in E'. injection E' as <-.
  destruct (node_ok_view n' K P Ex) as [Hok Hc]; change (data_capacity_ n') with cap;
    [done|done|exact Hv|split; [done|by rewrite Hls]|change (num_keys_ n') with (num_keys_ n); by rewrite Hls, Hn|].
  change (data_capacity_ n') with cap in Hc. split; [split; [done|]|by rewrite Hc].
  apply (expansion_threshold_le num (with_arrays t cap (words_for cap) (with_node_model m n))); [lia|done|].
  pose proof (listing_length K P Ex 0 cap) as Hlen. rewrite Hls in Hlen. lia.
Qed.

Lemma load_empty_wf n :
  0 < data_capacity_ n ≤ 2 ^ 30 → bitmap_size_ n = words_for (data_capacity_ n) → num_keys_ n = 0 →
  slots_ n = fresh_slots junk (data_capacity_ n) →
  ∃ n', load_empty n = Ret n' ∧ node_wf n' ∧ contents n' = [] ∧ data_capacity_ n' = data_capacity_ n ∧
    roomy n' ∧ counters_ n' = counters_ n.
Proof.
  intros Hcap Hbs Hn Ht. unfold load_empty. rewrite Ht.
  destruct (finish_built (data_capacity_ n) _ (-1) [] (fresh_built junk (data_capacity_ n) ltac:(lia)))
    as (t & K & P & E & Hf & Hv & Hg & Hl & _).
  change (-1 + 1) with 0 in Hf. rewrite Hf, res_bind_ret. eexists. split; [done|].
  set (n' := with_thresholds _ _ _).
  destruct (node_ok_view n' K P E) as [Hok Hc]; change (data_capacity_ n') with (data_capacity_ n);
    [done|done|exact Hv| |change (num_keys_ n') with (num_keys_ n); by rewrite Hl, Hn|].
  { split; [done|]. rewrite Hl. by split; constructor. }
  change (data_capacity_ n') with (data_capacity_ n) in Hc.
  assert (0 < data_capacity_ n < 2 ^ 900) as Hc9 by (assert (2 ^ 30 < 2 ^ 900) by (apply Z.pow_lt_mono_r; lia); lia).
  split; [split; [done|by apply d_of_Z_le_refl]|]. split; [by rewrite Hc|]. split; [done|]. split; [|done].
  unfold roomy. change (d_le (d_of_Z (data_capacity_ n)) (d_of_Z (num_keys_ n)) = false). rewrite Hn. by destruct (d_of_Z_within _ Hc9) as (l & (m & -> & _) & _).
Qed.

Lemma bulk_load_spec vs pretrained train n :
  keys_ok vs → capacity_for (Z.of_nat (length vs)) kInitDensity_ ≤ 2 ^ 30 →
  ∃ n', bulk_load junk vs (Z.of_nat (length vs)) pretrained train n = Ret n' ∧ node_wf n' ∧
    contents n' = vs ∧ data_capacity_ n' = capacity_for (Z.of_nat (length vs)) kInitDensity_.
Proof.
  intros Hk Hcap. set (num := Z.of_nat (length vs)) in *.
  pose proof (capacity_for_gt num kInitDensity_ ltac:(lia)) as Hgt.
  unfold bulk_load. set (n0 := initialize junk num kInitDensity_ n). set (cap := capacity_for num kInitDensity_) in *.
  case_bool_decide as Hz.
  - destruct (load_empty_wf n0) as (n' & E & Hwf & Hc & Hcap' & _); [cbn; fold cap; lia|done|done|done|].
    exists n'. split; [done|]. split; [done|]. split; [|done].
    rewrite Hc. symmetry. apply nil_length_inv. lia.
  - assert (∃ m, match pretrained with Some m => Ret m | None => build_model vs num (node_model n0) train end = Ret m)
      as (m & ->).
    { destruct pretrained; [by eexists|]. apply build_model_total. lia. }
    rewrite res_bind_ret. set (m' := expand _ m).
    destruct (bulk_loop_built m' cap vs (fresh_slots junk cap) (-1) [] (fresh_built junk cap ltac:(lia)))
      as (t & last & E & Hb); [lia|].
    change (data_capacity_ n0) with cap. change (slots_ n0) with (fresh_slots junk cap).
    fold num in E. rewrite E, res_bind_ret.
    destruct (finish_built cap t last _ Hb) as (t' & _ & _ & _ & Ef & _). rewrite Ef, res_bind_ret.
    rewrite !rd_total, !res_bind_ret by lia. eexists. split; [done|].
    destruct (installed_wf n0 t' cap last ([] ++ vs) num m' t Hb Hk eq_refl ltac:(lia) eq_refl Ef) as [[Hok Hthr] Hc].
    split; [split; [|exact Hthr]|split; [exact Hc|done]]. destruct Hok. by constructor.
Qed.

(** Resizing keeps the pairs and re-establishes the thresholds. *)
Lemma resize_spec density retrain keep_left keep_right n :
  node_ok n → num_keys_ n ≠ 0 → capacity_for (num_keys_ n) density ≤ 2 ^ 30 →
  ∃ n', resize junk density retrain keep_left keep_right n = Ret n' ∧ node_wf n' ∧
    contents n' = contents n ∧ data_capacity_ n' = capacity_for (num_keys_ n) density ∧
    counters_ n' = counters_ n ∧ extremes_ n' = extremes_ n ∧ roomy n'.
Proof.
  intros Hok Hne Hcap. unfold resize. rewrite bool_decide_eq_false_2 by done.
  pose proof (ok_count n Hok) as Hnum. pose proof (ok_capacity n Hok) as Hc0.
  pose proof (capacity_for_gt (num_keys_ n) density ltac:(lia)) as Hgt.
  set (cap := capacity_for (num_keys_ n) density) in *.
  pose proof (node_ok_iterable n Hok) as Hit.
  destruct (it_initialize_on n 0 Hit ltac:(lia)) as (it & Ei & Hon).
  assert (contents n = between n 0 (data_capacity_ n)) as Hbt by done.
  pose proof (between_fuel n 0 (data_capacity_ n) ltac:(lia) ltac:(lia)) as Hfuel.
  assert (∃ m, resize_model cap retrain keep_left keep_right n = Ret m) as (m & ->).
  { unfold resize_model. case_match; [|by eexists]. rewrite Ei, res_bind_ret.
    destruct (fit_existing_count n (data_capacity_ n) Hit ltac:(lia) (keys_fuel n) it 0 0
      (builder_new (node_model n)) Hon) as (b & ->); [lia|done|]. by eexists. }
  rewrite res_bind_ret, Ei, res_bind_ret. rewrite Hnum, Hbt.
  rewrite (copy_loop_bulk m cap n (data_capacity_ n) Hit ltac:(lia) (keys_fuel n) it 0 (-1) _ Hon) by (lia || done).
  destruct (bulk_loop_built m cap (between n 0 (data_capacity_ n)) (fresh_slots junk cap) (-1) []
    (fresh_built junk cap ltac:(lia))) as (t & last & -> & Hb); [rewrite <- Hbt; lia|].
  rewrite res_bind_ret.
  destruct (finish_built cap t last _ Hb) as (t' & _ & _ & _ & Ef & _). rewrite Ef, res_bind_ret.
  eexists. split; [done|].
  destruct (installed_wf n t' cap last _ _ m t Hb (ok_keys n Hok) eq_refl ltac:(lia)
    ltac:(rewrite Hnum; done) Ef) as [Hwf Hc].
  split; [exact Hwf|]. split; [exact Hc|]. do 3 (split; [done|]). unfold roomy. cbn [num_keys_ thresholds with_thresholds with_arrays with_node_model].
  rewrite <- Hbt, <- Hnum. apply expansion_threshold_gt; cbn; lia.
Qed.

(** Loading from part of another node, with a model of its own or a given one
    and the number of keys. *)
Definition counted (node : AlexDataNode) (left right : Z) (pm : option LinearModel) (pc : Z) : Prop :=
  match pm with Some _ => pc = Z.of_nat (length (between node left right)) | None => pc = -1 end.
Lemma bulk_load_from_existing_spec node left right keep_left keep_right pm pc n :
  node_ok node → counted node left right pm pc → 0 ≤ left < data_capacity_ node → right ≤ data_capacity_ node →
  capacity_for (Z.of_nat (length (between node left right))) kMinDensity_ ≤ 2 ^ 30 →
  ∃ n', bulk_load_from_existing junk node left right keep_left keep_right pm pc n = Ret n' ∧ node_wf n' ∧
    contents n' = between node left right ∧ roomy n' ∧ counters_ n' = counters_ n.
Proof.
  intros Hok Hpm Hl Hr Hcap. pose proof (node_ok_iterable node Hok) as Hit.
  set (num := Z.of_nat (length (between node left right))) in *.
  pose proof (capacity_for_gt num kMinDensity_ ltac:(lia)) as Hgt.
  pose proof (between_fuel node left right ltac:(lia) Hr) as Hfuel.
  destruct (it_initialize_on node left Hit Hl) as (it & Ei & Hon).
  destruct (fit_existing_count node right Hit Hr (keys_fuel node) it left 0 (builder_new (node_model n)) Hon)
    as (b & Efit); [lia|done|]. fold num in Efit. rewrite Z.add_0_l in Efit.
  unfold bulk_load_from_existing. rewrite bool_decide_eq_true_2 by lia. cbn [negb].
  match goal with |- context [mbind (M := res) ?k ?x] => assert (∃ m, x = Ret (m, num)) as (m0 & ->) end.
  { destruct pm as [pm|]; cbn in Hpm; [fold num in Hpm; rewrite Hpm, bool_decide_eq_false_2 by lia; by exists pm|].
    rewrite Ei, !res_bind_ret, Efit, !res_bind_ret. by eexists. }
  rewrite !res_bind_ret. set (n0 := with_node_model _ _). set (cap := capacity_for num kMinDensity_) in *.
  change (data_capacity_ n0) with cap. case_bool_decide as Hz.
  - destruct (load_empty_wf n0) as (n' & E & Hwf & Hc & _ & Hroom & Hcnt); [cbn; fold cap; lia|done|done|done|].
    exists n'. split; [done|]. split; [done|]. split; [rewrite Hc; symmetry; apply nil_length_inv; lia|done].
  - set (m := if keep_left then _ else _). rewrite ?Ei, ?res_bind_ret.
    pose proof (it_on_between node it left right Hon ltac:(lia) Hr) as Hin.
    destruct (it_in node right it) eqn:Ein; [|unfold num in Hz; rewrite Hin in Hz; done].
    destruct Hin as [Hcur _]. destruct (it_on_read node it left Hit Hon) as [-> _]; [lia|lia|].
    rewrite res_bind_ret. change (num_keys_ n0) with num. change (slots_ n0) with (fresh_slots junk cap).
    rewrite (copy_loop_bulk m cap node right Hit Hr (keys_fuel node) it left (-1) _ Hon) by (lia || done).
    destruct (bulk_loop_built m cap (between node left right) (fresh_slots junk cap) (-1) []
      (fresh_built junk cap ltac:(lia))) as (t & last & -> & Hb); [lia|].
    rewrite res_bind_ret.
    destruct (finish_built cap t last _ Hb) as (t' & K & P & E & Ef & Hv & _). rewrite Ef, res_bind_ret.
    assert (0 ≤ last < cap) as Hlast.
    { destruct Hb as (K' & P' & E' & _ & Hlast & Hls & _). destruct (decide (last = -1)) as [->|]; [|lia].
      rewrite listing_nil in Hls by done. apply (f_equal length) in Hls. cbn in Hls. unfold num in Hz. lia. }
    rewrite (rd_key_view _ _ _ _ _ last Hv Hlast), res_bind_ret. eexists. split; [done|].
    assert (keys_ok ([] ++ between node left right)) as Hk.
    { pose proof (ok_keys node Hok) as [Hs Hf]. unfold contents in Hs, Hf. cbn [app].
      rewrite (listing_app _ _ _ 0 left), fmap_app in Hs, Hf by lia.
      destruct (decide (left ≤ right)); [|unfold between; rewrite listing_nil by lia; by split; constructor].
      rewrite (listing_app _ _ _ left right), fmap_app in Hs, Hf by lia.
      apply StronglySorted_app in Hs as (_ & _ & Hs). apply StronglySorted_app in Hs as (_ & Hs & _).
      apply Forall_app in Hf as [_ Hf]. apply Forall_app in Hf as [Hf _]. by split. }
    destruct (installed_wf n0 t' cap last _ num m t Hb Hk eq_refl ltac:(lia) eq_refl Ef) as [[Hok' Hthr] Hc].
    split; [split; [destruct Hok'; by constructor|exact Hthr]|]. split; [exact Hc|]. split; [|done].
    apply (expansion_threshold_gt num (with_arrays t' cap (words_for cap) (with_node_model m n0))); [cbn; lia|done].
Qed.
End whole.
