(* ===== verification/AlexGap.v ===== *)
(** * ALEX data nodes: the closest gap

    [closest_gap] works on whole words with [tzcnt] and [lzcnt], looking at
    blocks in order of distance and at one block further where its gap could
    be nearer.  It finds the gap nearest to a slot, the left one on a tie;
    the slot-by-slot version finds the same. *)
From S2P Require Import Prelude Ieee AlexBase AlexNode AlexOps AlexInv AlexSearch.

(** [g] is the gap nearest to [pos], or -1 when there is none. *)
Definition nearest (E : Z → bool) (cap pos g : Z) : Prop :=
  (g = -1 ∧ ∀ i, 0 ≤ i < cap → E i = true) ∨
  (0 ≤ g < cap ∧ E g = false ∧
   ∀ i, 0 ≤ i < cap → E i = false → Z.abs (g - pos) < Z.abs (i - pos) ∨ (Z.abs (g - pos) = Z.abs (i - pos) ∧ g ≤ i)).

Section nearest.
Implicit Types (E : Z → bool) (cap pos g l r i : Z).

Lemma nearest_unique E cap pos g g' : nearest E cap pos g → nearest E cap pos g' → g = g'.
Proof.
  intros [[-> Ha]|(Hg & He & Hn)] [[-> Ha']|(Hg' & He' & Hn')]; [done|..].
  - rewrite Ha in He'; [done|lia].
  - rewrite Ha' in He; [done|lia].
  - specialize (Hn g' Hg' He'). specialize (Hn' g Hg He). lia.
Qed.

Lemma nearest_left E cap pos l :
  0 ≤ l < cap → l ≤ pos → E l = false → (∀ i, 0 ≤ i < cap → E i = false → i ≤ l ∨ 2 * pos - l ≤ i) →
  nearest E cap pos l.
Proof. intros Hl Hp He H. right. split; [done|]. split; [done|]. intros i Hi Hei. specialize (H i Hi Hei). lia. Qed.

Lemma nearest_right E cap pos r :
  0 ≤ r < cap → pos ≤ r → E r = false → (∀ i, 0 ≤ i < cap → E i = false → r ≤ i ∨ i < 2 * pos - r) →
  nearest E cap pos r.
Proof. intros Hl Hp He H. right. split; [done|]. split; [done|]. intros i Hi Hei. specialize (H i Hi Hei). lia. Qed.

Lemma nearer_nearest E cap pos l r :
  0 ≤ l < cap → l ≤ pos → E l = false → pos ≤ r → (r < cap → E r = false) →
  (∀ i, 0 ≤ i < cap → E i = false → i ≤ l ∨ r ≤ i) → nearest E cap pos (nearer cap pos l r).
Proof.
  intros Hl Hlp He Hr Her H. unfold nearer.
  destruct (decide (cap ≤ r)) as [Hc|Hc].
  - rewrite (bool_decide_eq_true_2 (cap ≤ r)), orb_true_r by done. apply nearest_left; [done|done|done|].
    intros i Hi Hei. specialize (H i Hi Hei). lia.
  - rewrite (bool_decide_eq_false_2 (cap ≤ r)), orb_false_r by done. case_bool_decide.
    + apply nearest_left; [done|done|done|]. intros i Hi Hei. specialize (H i Hi Hei). lia.
    + apply nearest_right; [lia|done|apply Her; lia|]. intros i Hi Hei. specialize (H i Hi Hei). lia.
Qed.
End nearest.

(** ** Gaps of one word *)
Section word.
Context (cap : Z) (t : slots) (Hs : shape cap t).
Abbreviation E := (ex (bitmap_ t)).
Abbreviation word i := (bitmap_ t !!! Z.to_nat i).
Implicit Types (idx i b : Z).

Lemma word_range idx : 0 ≤ idx < words_for cap → 0 ≤ word idx < 2 ^ 64.
Proof using Hs. intros. by eapply bitmap_rd. Qed.

Lemma full_word_spec idx :
  0 ≤ idx < words_for cap → full_word (word idx) = true → ∀ i, idx * 64 ≤ i < (idx + 1) * 64 → E i = true.
Proof.
  intros Hi Hf i Hw. apply bool_decide_eq_true in Hf. replace i with (idx * 64 + (i - idx * 64)) by lia.
  rewrite ex_word, Hf by lia. unfold UINT64_MAX. replace (2 ^ 64 - 1) with (Z.ones 64) by done.
  apply Z.ones_spec_low. lia.
Qed.

Lemma not64_range w : 0 ≤ w < 2 ^ 64 → 0 ≤ not64 w < 2 ^ 64.
Proof.
  intros Hw. assert (not64 w = u64 (not64 w)) as ->; [|apply wrap_range; lia].
  apply Z.bits_inj'. intros b Hb. destruct (decide (b < 64)); [by rewrite u64_testbit by lia|].
  unfold wrap. rewrite Z.mod_pow2_bits_high by lia. unfold not64.
  rewrite Z.lxor_spec, !testbit_high by (lia || (unfold UINT64_MAX; lia)). done.
Qed.

Lemma not_full_word idx :
  0 ≤ idx < words_for cap → full_word (word idx) = false → ∃ b, 0 ≤ b < 64 ∧ Z.testbit (not64 (word idx)) b = true.
Proof using Hs.
  intros Hi Hf. apply bool_decide_eq_false in Hf. pose proof (word_range idx Hi) as Hw.
  apply word_zero_bits; [by apply not64_range|]. intros E0. apply Hf. by apply Z.lxor_eq in E0.
Qed.

Lemma left_gap_spec idx :
  0 ≤ idx < words_for cap → full_word (word idx) = false →
  idx * 64 ≤ left_gap idx (word idx) < (idx + 1) * 64 ∧ E (left_gap idx (word idx)) = false ∧
  ∀ i, left_gap idx (word idx) < i < (idx + 1) * 64 → E i = true.
Proof using Hs.
  intros Hi Hf. destruct (lzcnt_spec _ (not_full_word idx Hi Hf)) as (Hl & Hb & Hhi).
  unfold left_gap. rewrite Z.shiftl_mul_pow2 by lia. change (2 ^ 6) with 64.
  set (z := lzcnt _) in *. clearbody z. split; [lia|]. split.
  - replace ((idx + 1) * 64 - z - 1) with (idx * 64 + (63 - z)) by lia. rewrite ex_word by lia.
    rewrite not64_spec in Hb by lia. by apply negb_true_iff in Hb.
  - intros i Hw. replace i with (idx * 64 + (i - idx * 64)) by lia. rewrite ex_word by lia.
    specialize (Hhi (i - idx * 64) ltac:(lia)). rewrite not64_spec in Hhi by lia. by apply negb_false_iff in Hhi.
Qed.

Lemma right_gap_spec idx :
  0 ≤ idx < words_for cap → full_word (word idx) = false →
  idx * 64 ≤ right_gap idx (word idx) < (idx + 1) * 64 ∧ E (right_gap idx (word idx)) = false ∧
  ∀ i, idx * 64 ≤ i < right_gap idx (word idx) → E i = true.
Proof using Hs.
  intros Hi Hf. destruct (tzcnt_spec _ (not_full_word idx Hi Hf)) as (Hl & Hb & Hlo).
  unfold right_gap. rewrite Z.shiftl_mul_pow2 by lia. change (2 ^ 6) with 64.
  set (z := tzcnt _) in *. clearbody z. split; [lia|]. split.
  - rewrite ex_word by lia. rewrite not64_spec in Hb by lia. by apply negb_true_iff in Hb.
  - intros i Hw. replace i with (idx * 64 + (i - idx * 64)) by lia. rewrite ex_word by lia.
    specialize (Hlo (i - idx * 64) ltac:(lia)). rewrite not64_spec in Hlo by lia. by apply negb_false_iff in Hlo.
Qed.

(** ** The block loops *)
Lemma gap_left_loop_spec : ∀ k idx, Z.of_nat k = idx + 1 → idx < words_for cap →
  ∃ g, gap_left_loop k (bitmap_ t) idx = Ret g ∧
    ((g = -1 ∧ ∀ i, 0 ≤ i < (idx + 1) * 64 → E i = true) ∨
     (0 ≤ g < (idx + 1) * 64 ∧ E g = false ∧ ∀ i, g < i < (idx + 1) * 64 → E i = true)).
Proof using Hs.
  induction k as [|k IH]; intros idx Hk Hi; cbn [gap_left_loop].
  - exists (-1). split; [done|]. left. split; [done|lia].
  - rewrite Nat2Z.inj_succ in Hk. destruct (bitmap_rd cap t idx Hs) as [-> _]; [lia|]. rewrite res_bind_ret.
    destruct (full_word (word idx)) eqn:Ef; cbn [negb].
    + pose proof (full_word_spec idx ltac:(lia) Ef) as Hf.
      destruct (IH (idx - 1)) as (g & -> & Hg); [lia|lia|]. exists g. split; [done|].
      replace (idx - 1 + 1) with idx in Hg by lia.
      destruct Hg as [[-> Hg]|(Hg & Heg & Hgi)]; [left|right].
      * split; [done|]. intros i Hw. destruct (decide (i < idx * 64)); [apply Hg; lia|apply Hf; lia].
      * split; [lia|]. split; [done|]. intros i Hw.
        destruct (decide (i < idx * 64)); [apply Hgi; lia|apply Hf; lia].
    + destruct (left_gap_spec idx ltac:(lia) Ef) as (Hg & Heg & Hgi). eexists. split; [done|]. right.
      split; [lia|done].
Qed.

Lemma gap_right_loop_spec : ∀ k idx, Z.of_nat k = words_for cap - idx → 0 ≤ idx →
  ∃ g, gap_right_loop k (bitmap_ t) cap idx = Ret g ∧
    ((g = -1 ∧ ∀ i, idx * 64 ≤ i < cap → E i = true) ∨
     (idx * 64 ≤ g < cap ∧ E g = false ∧ ∀ i, idx * 64 ≤ i < g → E i = true)).
Proof using Hs.
  assert (cap ≤ words_for cap * 64) as Hw by (unfold words_for; Z.to_euclidean_division_equations; lia).
  induction k as [|k IH]; intros idx Hk Hi; cbn [gap_right_loop].
  - exists (-1). split; [done|]. left. split; [done|lia].
  - rewrite Nat2Z.inj_succ in Hk. destruct (bitmap_rd cap t idx Hs) as [-> _]; [lia|]. rewrite res_bind_ret.
    destruct (full_word (word idx)) eqn:Ef; cbn [negb].
    + pose proof (full_word_spec idx ltac:(lia) Ef) as Hf.
      destruct (IH (idx + 1)) as (g & -> & Hg); [lia|lia|]. exists g. split; [done|].
      destruct Hg as [[-> Hg]|(Hg & Heg & Hgi)]; [left|right].
      * split; [done|]. intros i Hiw. destruct (decide (i < (idx + 1) * 64)); [apply Hf; lia|apply Hg; lia].
      * split; [lia|]. split; [done|]. intros i Hiw.
        destruct (decide (i < (idx + 1) * 64)); [apply Hf; lia|apply Hgi; lia].
    + destruct (right_gap_spec idx ltac:(lia) Ef) as (Hg & Heg & Hgi). eexists. split; [done|].
      case_bool_decide; [left|right].
      * split; [done|]. intros i Hiw. apply Hgi. lia.
      * split; [lia|done].
Qed.

(** The last word is full of keys when it has as many ones as slots. *)
Lemma popcnt_last idx :
  0 ≤ idx → idx + 1 = words_for cap → 0 < cap →
  (popcnt (word idx) = cap - idx * 64 ↔ ∀ i, idx * 64 ≤ i < cap → E i = true).
Proof using Hs.
  intros Hi Hw Hc. assert (0 < cap - idx * 64 ≤ 64) as Hcw by
    (unfold words_for in *; Z.to_euclidean_division_equations; lia).
  set (c := cap - idx * 64) in *.
  assert (popcnt (word idx) = Z.of_nat (length (filter (λ b, Z.testbit (word idx) b = true) (seqZ 0 c)))) as ->.
  { unfold popcnt, ones_of. replace (seqZ 0 64) with (seqZ 0 (c + (64 - c))) by (f_equal; lia). rewrite seqZ_app, filter_app by lia.
    rewrite (filter_none _ (seqZ (0 + c) _)), app_nil_r; [done|]. apply Forall_seqZ. intros b Hb.
    rewrite <- ex_word by lia. rewrite (shape_tail _ _ Hs); [done|unfold c in *; lia|].
    rewrite Z.div_add_l, (Z.div_small b) by lia. lia. }
  assert (∀ b, 0 ≤ b < c → Z.testbit (word idx) b = E (idx * 64 + b)) as Hbit by (intros; rewrite ex_word by lia; done).
  assert (c = cap - idx * 64) as Hcd by done. clearbody c. split.
  - intros Hl i Hiw. destruct (E i) eqn:Ei; [done|].
    assert (i - idx * 64 ∈ seqZ 0 c) as Hin by (apply elem_of_seqZ; lia).
    pose proof (length_filter_lt (λ b, Z.testbit (word idx) b = true) (seqZ 0 c) _ Hin) as Hlt.
    rewrite length_seqZ in Hlt. rewrite Hbit in Hlt by lia.
    replace (idx * 64 + (i - idx * 64)) with i in Hlt by lia. rewrite Ei in Hlt. specialize (Hlt ltac:(done)). lia.
  - intros Hall. rewrite filter_all, length_seqZ; [lia|]. apply Forall_seqZ. intros b Hb.
    rewrite Hbit by lia. apply Hall. lia.
Qed.

(** The search over both sides: all the slots nearer than the blocks at
    distance [d] are occupied. *)
Context (pos : Z) (Hpos : 0 ≤ pos < cap).
Abbreviation bp := (pos / 64).
Abbreviation bit := (pos mod 64).

Lemma pos_split : pos = bp * 64 + bit ∧ 0 ≤ bit < 64 ∧ 0 ≤ bp < words_for cap ∧ cap ≤ words_for cap * 64.
Proof using Hpos. unfold words_for. Z.to_euclidean_division_equations. lia. Qed.

Definition occupied (d : Z) : Prop := ∀ i, 0 ≤ i < cap → (bp - d + 1) * 64 ≤ i < (bp + d) * 64 → E i = true.

Lemma occupied_gap d i : occupied d → 0 ≤ i < cap → E i = false → i < (bp - d + 1) * 64 ∨ (bp + d) * 64 ≤ i.
Proof.
  intros Ho Hi He. destruct (decide ((bp - d + 1) * 64 ≤ i < (bp + d) * 64)) as [Hw|Hw]; [|lia].
  by rewrite Ho in He.
Qed.

(** A gap in the left block at distance [d], none in the right one. *)
Lemma gap_left_only d :
  1 ≤ d → d ≤ bp → bp + d < words_for cap → occupied d →
  full_word (word (bp - d)) = false → full_word (word (bp + d)) = true →
  ∃ g, (if bool_decide (32 < bit) && bool_decide (bp + d + 1 < words_for cap) then
          let* rw := rd (bitmap_ t) (bp + d + 1) in
          if negb (full_word rw)
          then Ret (inl (nearer cap pos (left_gap (bp - d) (word (bp - d))) (right_gap (bp + d + 1) rw)))
          else Ret (inl (left_gap (bp - d) (word (bp - d))))
        else Ret (inl (left_gap (bp - d) (word (bp - d))))) = Ret (inl g : Z + Z) ∧ nearest E cap pos g.
Proof using Hs Hpos.
  intros Hd Hdl Hdr Ho Hl Hr. destruct pos_split as (Ep & Hbit & Hbp & Hcw).
  destruct (left_gap_spec (bp - d) ltac:(lia) Hl) as (Hg & Heg & Hgi).
  pose proof (λ i, occupied_gap d i Ho) as Hocc.
  set (l := left_gap _ _) in *. clearbody l. set (b := bit) in *. set (q := bp) in *. clearbody b q.
  pose proof (full_word_spec (q + d) ltac:(lia) Hr) as Hfr.
  assert (∀ i, 0 ≤ i < cap → E i = false → i ≤ l ∨ (q + d + 1) * 64 ≤ i) as Hgaps.
  { intros i Hi Hei. destruct (Hocc i Hi Hei) as [Hlo|Hhi].
    - left. destruct (decide (i ≤ l)); [done|]. rewrite Hgi in Hei by lia. done.
    - right. destruct (decide ((q + d + 1) * 64 ≤ i)); [done|]. rewrite Hfr in Hei by lia. done. }
  destruct (bool_decide (32 < b) && bool_decide (q + d + 1 < words_for cap)) eqn:Eb.
  - apply andb_true_iff in Eb as [Hb1%bool_decide_eq_true Hb2%bool_decide_eq_true].
    destruct (bitmap_rd cap t (q + d + 1) Hs) as [-> _]; [lia|]. rewrite res_bind_ret.
    destruct (full_word (word (q + d + 1))) eqn:Ef; cbn [negb]; (eexists; split; [done|]).
    + pose proof (full_word_spec (q + d + 1) ltac:(lia) Ef) as Hfr2.
      apply nearest_left; [lia|lia|done|]. intros i Hi Hei. destruct (Hgaps i Hi Hei); [lia|].
      right. destruct (decide ((q + d + 2) * 64 ≤ i)); [lia|]. rewrite Hfr2 in Hei by lia. done.
    + destruct (right_gap_spec (q + d + 1) ltac:(lia) Ef) as (Hr1 & Her & Hri).
      apply nearer_nearest; [lia|lia|done|lia|done|]. intros i Hi Hei. destruct (Hgaps i Hi Hei); [lia|].
      right. destruct (decide (right_gap (q + d + 1) (word (q + d + 1)) ≤ i)); [done|].
      rewrite Hri in Hei by lia. done.
  - eexists. split; [done|]. apply andb_false_iff in Eb as [Hb%bool_decide_eq_false|Hb%bool_decide_eq_false];
      (apply nearest_left; [lia|lia|done|]; intros i Hi Hei; destruct (Hgaps i Hi Hei); lia).
Qed.

(** A gap in the right block at distance [d], none in the left one. *)
Lemma gap_right_only d :
  1 ≤ d → d ≤ bp → bp + d < words_for cap → occupied d →
  full_word (word (bp - d)) = true → full_word (word (bp + d)) = false →
  right_gap (bp + d) (word (bp + d)) < cap →
  ∃ g, (if bool_decide (bit < 32) && bool_decide (0 < bp - d) then
          let* lw := rd (bitmap_ t) (bp - d - 1) in
          if negb (full_word lw)
          then Ret (inl (nearer cap pos (left_gap (bp - d - 1) lw) (right_gap (bp + d) (word (bp + d)))))
          else Ret (inl (right_gap (bp + d) (word (bp + d))))
        else Ret (inl (right_gap (bp + d) (word (bp + d))))) = Ret (inl g : Z + Z) ∧ nearest E cap pos g.
Proof using Hs Hpos.
  intros Hd Hdl Hdr Ho Hl Hr Hrc. destruct pos_split as (Ep & Hbit & Hbp & Hcw).
  destruct (right_gap_spec (bp + d) ltac:(lia) Hr) as (Hg & Heg & Hgi).
  pose proof (λ i, occupied_gap d i Ho) as Hocc.
  set (r := right_gap _ _) in *. clearbody r. set (b := bit) in *. set (q := bp) in *. clearbody b q.
  pose proof (full_word_spec (q - d) ltac:(lia) Hl) as Hfl.
  assert (∀ i, 0 ≤ i < cap → E i = false → i < (q - d) * 64 ∨ r ≤ i) as Hgaps.
  { intros i Hi Hei. destruct (Hocc i Hi Hei) as [Hlo|Hhi].
    - left. destruct (decide (i < (q - d) * 64)); [done|]. rewrite Hfl in Hei by lia. done.
    - right. destruct (decide (r ≤ i)); [done|]. rewrite Hgi in Hei by lia. done. }
  destruct (bool_decide (b < 32) && bool_decide (0 < q - d)) eqn:Eb.
  - apply andb_true_iff in Eb as [Hb1%bool_decide_eq_true Hb2%bool_decide_eq_true].
    destruct (bitmap_rd cap t (q - d - 1) Hs) as [-> _]; [lia|]. rewrite res_bind_ret.
    destruct (full_word (word (q - d - 1))) eqn:Ef; cbn [negb]; (eexists; split; [done|]).
    + pose proof (full_word_spec (q - d - 1) ltac:(lia) Ef) as Hfl2.
      apply nearest_right; [lia|lia|done|]. intros i Hi Hei. destruct (Hgaps i Hi Hei); [|lia].
      right. destruct (decide (i < (q - d - 1) * 64)); [lia|]. rewrite Hfl2 in Hei by lia. done.
    + destruct (left_gap_spec (q - d - 1) ltac:(lia) Ef) as (Hl1 & Hel & Hli).
      apply nearer_nearest; [lia|lia|done|lia|done|]. intros i Hi Hei. destruct (Hgaps i Hi Hei); [|lia].
      left. destruct (decide (i ≤ left_gap (q - d - 1) (word (q - d - 1)))); [done|].
      rewrite Hli in Hei by lia. done.
  - eexists. split; [done|]. apply andb_false_iff in Eb as [Hb%bool_decide_eq_false|Hb%bool_decide_eq_false];
      (apply nearest_right; [lia|lia|done|]; intros i Hi Hei; destruct (Hgaps i Hi Hei); lia).
Qed.

Lemma gap_both_loop_spec : ∀ k d,
  1 ≤ d → d + Z.of_nat k ≤ bp + 1 → bp + d + Z.of_nat k ≤ words_for cap → occupied d →
  ∃ r, gap_both_loop k (bitmap_ t) (words_for cap) cap pos bp bit d = Ret r ∧
    match r with inl g => nearest E cap pos g | inr d' => d' = d + Z.of_nat k ∧ occupied d' end.
Proof using Hs Hpos.
  induction k as [|k IH]; intros d Hd Hl Hr Ho; cbn [gap_both_loop].
  - exists (inr d). split; [done|]. by rewrite Z.add_0_r.
  - rewrite Nat2Z.inj_succ in *. destruct pos_split as (Ep & Hbit & Hbp & Hcw).
    destruct (bitmap_rd cap t (bp - d) Hs) as [-> _]; [lia|].
    destruct (bitmap_rd cap t (bp + d) Hs) as [-> _]; [lia|]. rewrite !res_bind_ret.
    assert (occupied (d + 1) → ∃ r, gap_both_loop k (bitmap_ t) (words_for cap) cap pos bp bit (d + 1) = Ret r ∧
      match r with inl g => nearest E cap pos g | inr d' => d' = d + Z.succ (Z.of_nat k) ∧ occupied d' end) as Hnext.
    { intros Ho'. destruct (IH (d + 1)) as (r & -> & Hr'); [lia|lia|lia|done|]. exists r. split; [done|].
      destruct r; [done|]. split; [lia|]. apply Hr'. }
    clear IH. destruct (full_word (word (bp - d))) eqn:El, (full_word (word (bp + d))) eqn:Er; cbn [negb andb].
    + apply Hnext. intros i Hi Hw.
      destruct (decide (i < (bp - d + 1) * 64)); [apply (full_word_spec (bp - d)); [lia|done|lia]|].
      destruct (decide ((bp + d) * 64 ≤ i)); [apply (full_word_spec (bp + d)); [lia|done|lia]|]. apply Ho; lia.
    + case_bool_decide as Hc.
      * destruct (gap_right_only d) as (g & -> & Hg); try (done || lia). by eexists.
      * apply Hnext. destruct (right_gap_spec (bp + d) ltac:(lia) Er) as (Hg & _ & Hgi). intros i Hi Hw.
        destruct (decide (i < (bp - d + 1) * 64)); [apply (full_word_spec (bp - d)); [lia|done|lia]|].
        destruct (decide ((bp + d) * 64 ≤ i)); [apply Hgi; lia|]. apply Ho; lia.
    + destruct (gap_left_only d) as (g & -> & Hg); try (done || lia). by eexists.
    + eexists. split; [done|]. destruct (left_gap_spec (bp - d) ltac:(lia) El) as (Hlg & Hel & Hli).
      destruct (right_gap_spec (bp + d) ltac:(lia) Er) as (Hrg & Her & Hri).
      apply nearer_nearest; [lia|lia|done|lia|done|]. intros i Hi Hei.
      destruct (occupied_gap d i Ho Hi Hei) as [Hlo|Hhi].
      * left. destruct (decide (i ≤ left_gap (bp - d) (word (bp - d)))); [done|]. rewrite Hli in Hei by lia. done.
      * right. destruct (decide (right_gap (bp + d) (word (bp + d)) ≤ i)); [done|].
        rewrite Hri in Hei by lia. done.
Qed.

(** ** The two cases *)
Lemma closest_gap_outside_spec n :
  data_capacity_ n = cap → slots_ n = t → bitmap_size_ n = words_for cap → occupied 1 →
  ∃ g, closest_gap_outside pos n = Ret g ∧ nearest E cap pos g.
Proof using Hs Hpos.
  intros Hn Ht Hb Ho. unfold closest_gap_outside. rewrite Hn, Ht, Hb, bit_of_mod, !word_of_div.
  destruct pos_split as (Ep & Hbit & Hbp & Hcw).
  assert ((cap - 1) / 64 = words_for cap - 1) as -> by (unfold words_for; Z.to_euclidean_division_equations; lia).
  destruct (gap_both_loop_spec (Z.to_nat (Z.min bp (words_for cap - 1 - bp))) 1) as (r & -> & Hr);
    [lia|lia|lia|done|]. rewrite res_bind_ret. destruct r as [g|d]; [by eexists|]. destruct Hr as [Hd Ho'].
  case_bool_decide as Hc.
  - destruct (gap_left_loop_spec (Z.to_nat (bp - d + 1)) (bp - d)) as (g & -> & Hg); [lia|lia|].
    exists g. split; [done|]. destruct Hg as [[-> Hg]|(Hg & Heg & Hgi)].
    + left. split; [done|]. intros i Hi. destruct (decide (i < (bp - d + 1) * 64)); [apply Hg; lia|apply Ho'; lia].
    + apply nearest_left; [lia|lia|done|]. intros i Hi Hei. left.
      destruct (occupied_gap d i Ho' Hi Hei); [|lia].
      destruct (decide (i ≤ g)); [done|]. rewrite Hgi in Hei by lia. done.
  - destruct (gap_right_loop_spec (Z.to_nat (words_for cap - 1 - (bp + d) + 1)) (bp + d)) as (g & -> & Hg);
      [lia|lia|]. exists g. split; [done|]. destruct Hg as [[-> Hg]|(Hg & Heg & Hgi)].
    + left. split; [done|]. intros i Hi. destruct (decide ((bp + d) * 64 ≤ i)); [apply Hg; lia|apply Ho'; lia].
    + apply nearest_right; [lia|lia|done|]. intros i Hi Hei. left.
      destruct (occupied_gap d i Ho' Hi Hei); [lia|].
      destruct (decide (g ≤ i)); [done|]. rewrite Hgi in Hei by lia. done.
Qed.

(** The distance to the right: no gap is nearer on that side, and unless the
    next block is full the slot found is one. *)
Lemma inside_right n :
  data_capacity_ n = cap → slots_ n = t → bitmap_size_ n = words_for cap →
  let gaps := not64 (Z.lor (word bp) (low_mask bit)) in
  ∃ d, (if bool_decide (gaps ≠ 0) then Ret (tzcnt gaps - bit)
        else if bool_decide (bp + 1 < bitmap_size_ n) then
          let* w := rd (bitmap_ (slots_ n)) (bp + 1) in Ret (64 + tzcnt (not64 w) - bit)
        else Ret 64) = Ret d ∧ 0 ≤ d ∧
    (∀ i, pos ≤ i < cap → E i = false → pos + d ≤ i) ∧
    (pos + d < cap → E (pos + d) = false ∨ 64 < d).
Proof using Hs Hpos.
  intros Hn Ht Hb gaps. rewrite Ht, Hb. destruct pos_split as (Ep & Hbit & Hbp & Hcw).
  assert (∀ b, 0 ≤ b < 64 → Z.testbit gaps b = bool_decide (bit ≤ b) && negb (E (bp * 64 + b))) as Hg.
  { intros b Hb64. unfold gaps, low_mask. rewrite not64_spec, Z.lor_spec, mask_spec, negb_orb, <- ex_word by lia.
    rewrite andb_comm. f_equal. rewrite <- bool_decide_not. apply bool_decide_ext. lia. }
  assert (0 ≤ gaps < 2 ^ 64) as Hgr.
  { apply not64_range, lor_range; [by apply word_range|]. unfold low_mask. rewrite Z.shiftl_1_l.
    pose proof (Z.pow_lt_mono_r 2 bit 64 ltac:(lia) ltac:(lia) ltac:(lia)). lia. }
  set (b := bit) in *. set (q := bp) in *. clearbody b q gaps. case_bool_decide as Hz.
  - destruct (tzcnt_spec gaps (word_zero_bits gaps Hgr Hz)) as (Hz1 & Hz2 & Hz3).
    eexists. split; [done|]. rewrite Hg in Hz2 by lia. apply andb_true_iff in Hz2 as [Hzb Hze%negb_true_iff].
    apply bool_decide_eq_true in Hzb. replace (pos + (tzcnt gaps - b)) with (q * 64 + tzcnt gaps) by lia.
    split; [lia|]. split; [|by left]. intros i Hi Hei.
    destruct (decide (q * 64 + tzcnt gaps ≤ i)); [done|]. specialize (Hz3 (i - q * 64) ltac:(lia)).
    rewrite Hg, bool_decide_eq_true_2 in Hz3 by lia. replace (q * 64 + (i - q * 64)) with i in Hz3 by lia.
    by rewrite Hei in Hz3.
  - subst gaps.
    assert (∀ i, pos ≤ i < (q + 1) * 64 → E i = true) as Hown.
    { intros i Hi. specialize (Hg (i - q * 64) ltac:(lia)). rewrite Z.testbit_0_l, bool_decide_eq_true_2 in Hg by lia.
      replace (q * 64 + (i - q * 64)) with i in Hg by lia. by destruct (E i). }
    assert (∀ i, pos ≤ i → E i = false → (q + 1) * 64 ≤ i) as Hout.
    { intros i Hi Hei. destruct (decide ((q + 1) * 64 ≤ i)); [done|]. by rewrite Hown in Hei by lia. }
    case_bool_decide as Hlast.
    + destruct (bitmap_rd cap t (q + 1) Hs) as [-> _]; [lia|]. rewrite res_bind_ret. eexists. split; [done|].
      destruct (full_word (word (q + 1))) eqn:Ef.
      * rewrite (tzcnt_none (not64 (word (q + 1)))); cycle 1.
        { intros i Hi. rewrite not64_spec, <- ex_word by lia.
          by rewrite (full_word_spec (q + 1) ltac:(lia) Ef) by lia. }
        split; [lia|]. split; [|right; lia]. intros i Hi Hei. specialize (Hout i ltac:(lia) Hei).
        destruct (decide ((q + 2) * 64 ≤ i)); [lia|].
        rewrite (full_word_spec (q + 1) ltac:(lia) Ef) in Hei by lia. done.
      * destruct (right_gap_spec (q + 1) ltac:(lia) Ef) as (Hrg & Her & Hri).
        unfold right_gap in *. rewrite Z.shiftl_mul_pow2 in * by lia. change (2 ^ 6) with 64 in *.
        replace (pos + (64 + tzcnt (not64 (word (q + 1))) - b)) with ((q + 1) * 64 + tzcnt (not64 (word (q + 1)))) by lia.
        set (z := tzcnt _) in *. clearbody z. split; [lia|]. split; [|by left]. intros i Hi Hei.
        specialize (Hout i ltac:(lia) Hei). destruct (decide ((q + 1) * 64 + z ≤ i)); [done|].
        by rewrite Hri in Hei by lia.
    + exists 64. split; [done|]. split; [lia|]. split; [|lia]. intros i Hi Hei. specialize (Hout i ltac:(lia) Hei). lia.
Qed.

(** The distance to the left, likewise. *)
Lemma inside_left n :
  slots_ n = t →
  let gaps := Z.land (not64 (word bp)) (low_mask bit) in
  ∃ d, (if bool_decide (gaps ≠ 0) then Ret (bit - (63 - lzcnt gaps))
        else if bool_decide (0 < bp) then
          let* w := rd (bitmap_ (slots_ n)) (bp - 1) in Ret (bit + lzcnt (not64 w) + 1)
        else Ret 64) = Ret d ∧ 1 ≤ d ∧
    (∀ i, 0 ≤ i < pos → E i = false → i ≤ pos - d) ∧
    ((0 ≤ pos - d ∧ E (pos - d) = false) ∨ 64 ≤ d) ∧
    (∀ i, bp * 64 ≤ i < pos → E i = false → d ≤ bit ∧ 0 ≤ pos - d ∧ E (pos - d) = false).
Proof using Hs Hpos.
  intros Ht gaps. rewrite Ht. destruct pos_split as (Ep & Hbit & Hbp & Hcw).
  assert (∀ b, 0 ≤ b < 64 → Z.testbit gaps b = bool_decide (b < bit) && negb (E (bp * 64 + b))) as Hg.
  { intros b Hb64. unfold gaps, low_mask. rewrite Z.land_spec, not64_spec, mask_spec, <- ex_word by lia.
    by rewrite andb_comm. }
  assert (0 ≤ gaps < 2 ^ 64) as Hgr by (by apply land_range, not64_range, word_range).
  set (b := bit) in *. set (q := bp) in *. clearbody b q gaps. case_bool_decide as Hz.
  - destruct (lzcnt_spec gaps (word_zero_bits gaps Hgr Hz)) as (Hz1 & Hz2 & Hz3).
    eexists. split; [done|]. rewrite Hg in Hz2 by lia. apply andb_true_iff in Hz2 as [Hzb Hze%negb_true_iff].
    apply bool_decide_eq_true in Hzb.
    replace (pos - (b - (63 - lzcnt gaps))) with (q * 64 + (63 - lzcnt gaps)) by lia.
    split; [lia|]. split; [|split; [left; split; [lia|done]|by intros; split; [lia|split; [lia|done]]]].
    intros i Hi Hei.
    destruct (decide (i ≤ q * 64 + (63 - lzcnt gaps))); [done|]. specialize (Hz3 (i - q * 64) ltac:(lia)).
    rewrite Hg, bool_decide_eq_true_2 in Hz3 by lia. replace (q * 64 + (i - q * 64)) with i in Hz3 by lia.
    by rewrite Hei in Hz3.
  - subst gaps.
    assert (∀ i, q * 64 ≤ i < pos → E i = true) as Hown.
    { intros i Hi. specialize (Hg (i - q * 64) ltac:(lia)). rewrite Z.testbit_0_l, bool_decide_eq_true_2 in Hg by lia.
      replace (q * 64 + (i - q * 64)) with i in Hg by lia. by destruct (E i). }
    assert (∀ i, i < pos → E i = false → i < q * 64) as Hout.
    { intros i Hi Hei. destruct (decide (i < q * 64)); [done|]. by rewrite Hown in Hei by lia. }
    case_bool_decide as Hlast.
    + destruct (bitmap_rd cap t (q - 1) Hs) as [-> _]; [lia|]. rewrite res_bind_ret. eexists. split; [done|].
      destruct (full_word (word (q - 1))) eqn:Ef.
      * rewrite (lzcnt_none (not64 (word (q - 1)))); cycle 1.
        { intros i Hi. rewrite not64_spec, <- ex_word by lia.
          by rewrite (full_word_spec (q - 1) ltac:(lia) Ef) by lia. }
        split; [lia|]. split; [|split; [right; lia|]].
        -- intros i Hi Hei. specialize (Hout i ltac:(lia) Hei).
           destruct (decide (i < (q - 1) * 64)); [lia|].
           rewrite (full_word_spec (q - 1) ltac:(lia) Ef) in Hei by lia. done.
        -- intros i Hi Hei. by rewrite Hown in Hei.
      * destruct (left_gap_spec (q - 1) ltac:(lia) Ef) as (Hlg & Hel & Hli).
        unfold left_gap in *. rewrite Z.shiftl_mul_pow2 in * by lia. change (2 ^ 6) with 64 in *.
        replace (pos - (b + lzcnt (not64 (word (q - 1))) + 1)) with
          ((q - 1 + 1) * 64 - lzcnt (not64 (word (q - 1))) - 1) by lia.
        set (z := lzcnt _) in *. clearbody z. split; [lia|].
        split; [|split; [left; split; [lia|done]|intros i Hi Hei; by rewrite Hown in Hei]]. intros i Hi Hei.
        specialize (Hout i ltac:(lia) Hei). destruct (decide (i ≤ (q - 1 + 1) * 64 - z - 1)); [done|].
        by rewrite Hli in Hei by lia.
    + exists 64. split; [done|]. split; [lia|]. split; [|split; [by right|intros i Hi Hei; by rewrite Hown in Hei]].
      intros i Hi Hei. specialize (Hout i ltac:(lia) Hei). lia.
Qed.

Lemma closest_gap_inside_spec n :
  data_capacity_ n = cap → slots_ n = t → bitmap_size_ n = words_for cap →
  (∃ i, bp * 64 ≤ i < Z.min cap ((bp + 1) * 64) ∧ E i = false) →
  ∃ g, closest_gap_inside pos (word bp) n = Ret g ∧ nearest E cap pos g.
Proof using Hs Hpos.
  intros Hn Ht Hb (i0 & Hi0 & He0). destruct pos_split as (Ep & Hbit & Hbp & Hcw).
  destruct (inside_right n Hn Ht Hb) as (rd & Er & Hrd & Hrn & Hre).
  destruct (inside_left n Ht) as (ld & El & Hld & Hln & Hle & Hlo).
  unfold closest_gap_inside. rewrite bit_of_mod, word_of_div, Hn, Er, res_bind_ret, El, res_bind_ret.
  assert (∀ i, 0 ≤ i < cap → E i = false → i ≤ pos - ld ∨ pos + rd ≤ i) as Hgaps.
  { intros i Hi Hei. destruct (decide (i < pos)); [left; apply Hln; [lia|done]|right; apply Hrn; [lia|done]]. }
  assert (i0 < pos ∧ ld ≤ bit ∧ 0 ≤ pos - ld ∧ E (pos - ld) = false ∨
          pos ≤ i0 ∧ rd < 64 ∧ pos + rd ≤ i0) as Hown.
  { destruct (decide (i0 < pos)); [left|right].
    - split; [done|]. apply (Hlo i0); [lia|done].
    - specialize (Hrn i0 ltac:(lia) He0). lia. }
  destruct (bool_decide (rd < ld) && bool_decide (pos + rd < cap)) eqn:Eb; (eexists; split; [done|]).
  - apply andb_true_iff in Eb as [H1%bool_decide_eq_true H2%bool_decide_eq_true].
    destruct (Hre H2) as [Her|H64]; [|lia].
    apply nearest_right; [lia|lia|done|]. intros i Hi Hei. specialize (Hgaps i Hi Hei). lia.
  - assert (ld ≤ rd ∨ cap ≤ pos + rd) as Hcase.
    { apply andb_false_iff in Eb as [H%bool_decide_eq_false|H%bool_decide_eq_false]; lia. }
    assert (0 ≤ pos - ld ∧ E (pos - ld) = false) as [Hl0 Hel].
    { destruct Hown as [(_ & _ & ?)|(? & ? & ?)]; [done|]. destruct Hle as [?|?]; [done|lia]. }
    apply nearest_left; [lia|lia|done|]. intros i Hi Hei. specialize (Hgaps i Hi Hei). lia.
Qed.
End word.

(** ** [closest_gap] *)
Lemma closest_gap_spec n pos :
  iterable n → 0 < data_capacity_ n → 0 ≤ pos →
  ∃ g, closest_gap pos n = Ret g ∧
    nearest (ex (bitmap_ (slots_ n))) (data_capacity_ n) (Z.min pos (data_capacity_ n - 1)) g.
Proof.
  intros [Hs Hb] Hc Hp. unfold closest_gap. rewrite Hb. set (cap := data_capacity_ n) in *.
  set (p := Z.min pos (cap - 1)). assert (0 ≤ p < cap) as Hpc by (unfold p; lia). clearbody p.
  destruct (pos_split cap p Hpc) as (Ep & Hbit & Hbp & Hcw).
  rewrite word_of_div. destruct (bitmap_rd cap (slots_ n) (p / 64) Hs) as [-> _]; [done|]. rewrite res_bind_ret.
  rewrite Z.shiftl_mul_pow2 by lia. change (2 ^ 6) with 64.
  destruct (_ || _) eqn:Eb.
  - apply (closest_gap_outside_spec cap); [done|done|done|done|done|]. intros i Hi Hw.
    apply orb_true_iff in Eb as [Ef|[H1%bool_decide_eq_true H2%bool_decide_eq_true]%andb_true_iff].
    + apply (full_word_spec cap _ (p / 64) Hbp Ef). lia.
    + apply (popcnt_last cap (slots_ n) Hs (p / 64)); [lia|lia|lia|rewrite H2; lia|lia].
  - apply orb_false_iff in Eb as [Ef El].
    apply (closest_gap_inside_spec cap); [done|done|done|done|done|].
    destruct (right_gap_spec cap (slots_ n) Hs (p / 64) Hbp Ef) as (Hr & Her & _).
    destruct (decide (p / 64 + 1 = words_for cap)) as [Hl|Hl].
    + rewrite bool_decide_eq_true_2 in El by lia. cbn [andb] in El. apply bool_decide_eq_false in El.
      destruct (decide (Exists (λ i, ex (bitmap_ (slots_ n)) i = false) (seqZ (p / 64 * 64) (cap - p / 64 * 64))))
        as [(i & Hi%elem_of_seqZ & Hei)%list.Exists_exists|Hno].
      * exists i. split; [lia|done].
      * exfalso. apply El. replace (words_for cap - 1) with (p / 64) by lia.
        apply (popcnt_last cap (slots_ n) Hs (p / 64)); [lia|lia|lia|]. intros i Hi.
        apply not_Exists_Forall in Hno; [|apply _]. rewrite list.Forall_forall in Hno.
        apply not_false_iff_true, Hno, elem_of_seqZ. lia.
    + exists (right_gap (p / 64) (bitmap_ (slots_ n) !!! Z.to_nat (p / 64))). split; [|done].
      assert ((p / 64 + 1) * 64 ≤ cap - 1 + 1) by (unfold words_for in *; Z.to_euclidean_division_equations; lia).
      lia.
Qed.

(** ** The slot-by-slot version *)
Section slow.
Context (cap : Z) (t : slots) (Hs : shape cap t).
Abbreviation E := (ex (bitmap_ t)).

Lemma check_shape i : 0 ≤ i < cap → check_exists cap t i = Ret (E i).
Proof using Hs. intros Hi. exact (check_exists_view cap t _ _ _ i (view_self cap t Hs) Hi). Qed.

Lemma gap_down_slow_spec : ∀ k i, Z.of_nat k = i + 1 → i < cap →
  ∃ g, gap_down_slow k cap t i = Ret g ∧
    ((g = -1 ∧ ∀ j, 0 ≤ j ≤ i → E j = true) ∨ (0 ≤ g ≤ i ∧ E g = false ∧ ∀ j, g < j ≤ i → E j = true)).
Proof using Hs.
  induction k as [|k IH]; intros i Hk Hi; cbn [gap_down_slow].
  - exists (-1). split; [done|]. left. split; [done|lia].
  - rewrite check_shape, res_bind_ret by lia. destruct (E i) eqn:Ei; cbn [negb].
    + destruct (IH (i - 1)) as (g & -> & Hg); [lia|lia|]. exists g. split; [done|].
      destruct Hg as [[-> Hg]|(Hg & Heg & Hgi)]; [left|right].
      * split; [done|]. intros j Hj. destruct (decide (j = i)) as [->|]; [done|apply Hg; lia].
      * split; [lia|]. split; [done|]. intros j Hj. destruct (decide (j = i)) as [->|]; [done|apply Hgi; lia].
    + exists i. split; [done|]. right. split; [lia|]. split; [done|lia].
Qed.

Lemma gap_up_slow_spec : ∀ k i, Z.of_nat k = cap - i → 0 ≤ i →
  ∃ g, gap_up_slow k cap t i = Ret g ∧
    ((g = -1 ∧ ∀ j, i ≤ j < cap → E j = true) ∨ (i ≤ g < cap ∧ E g = false ∧ ∀ j, i ≤ j < g → E j = true)).
Proof using Hs.
  induction k as [|k IH]; intros i Hk Hi; cbn [gap_up_slow].
  - exists (-1). split; [done|]. left. split; [done|lia].
  - rewrite check_shape, res_bind_ret by lia. destruct (E i) eqn:Ei; cbn [negb].
    + destruct (IH (i + 1)) as (g & -> & Hg); [lia|lia|]. exists g. split; [done|].
      destruct Hg as [[-> Hg]|(Hg & Heg & Hgi)]; [left|right].
      * split; [done|]. intros j Hj. destruct (decide (j = i)) as [->|]; [done|apply Hg; lia].
      * split; [lia|]. split; [done|]. intros j Hj. destruct (decide (j = i)) as [->|]; [done|apply Hgi; lia].
    + exists i. split; [done|]. right. split; [lia|]. split; [done|lia].
Qed.

Lemma gap_both_slow_spec pos : ∀ k d,
  1 ≤ d → d + Z.of_nat k ≤ pos + 1 → pos + d + Z.of_nat k ≤ cap →
  (∀ j, pos - d < j < pos + d → E j = true) →
  ∃ r, gap_both_slow k cap t pos d = Ret r ∧
    match r with
    | inl g => nearest E cap pos g
    | inr d' => d' = d + Z.of_nat k ∧ ∀ j, pos - d' < j < pos + d' → E j = true
    end.
Proof using Hs.
  induction k as [|k IH]; intros d Hd Hl Hr Ho; cbn [gap_both_slow].
  - exists (inr d). split; [done|]. by rewrite Z.add_0_r.
  - rewrite (check_shape (pos - d)), res_bind_ret by lia. destruct (E (pos - d)) eqn:El; cbn [negb].
    + rewrite (check_shape (pos + d)), res_bind_ret by lia. destruct (E (pos + d)) eqn:Er; cbn [negb].
      * destruct (IH (d + 1)) as (r & -> & Hr'); [lia|lia|lia| |exists r; split; [done|]].
        { intros j Hj. destruct (decide (j = pos - d)) as [->|]; [done|].
          destruct (decide (j = pos + d)) as [->|]; [done|]. apply Ho. lia. }
        destruct r; [done|]. split; [lia|apply Hr'].
      * eexists. split; [done|]. apply nearest_right; [lia|lia|done|]. intros j Hj Hej.
        destruct (decide (pos - d < j < pos + d)); [by rewrite Ho in Hej|].
        destruct (decide (j = pos - d)) as [->|]; [by rewrite El in Hej|]. lia.
    + eexists. split; [done|]. apply nearest_left; [lia|lia|done|]. intros j Hj Hej.
      destruct (decide (pos - d < j < pos + d)); [by rewrite Ho in Hej|]. lia.
Qed.
End slow.

Lemma closest_gap_slow_spec n pos :
  iterable n → 0 ≤ pos < data_capacity_ n → ex (bitmap_ (slots_ n)) pos = true →
  ∃ g, closest_gap_slow pos n = Ret g ∧ nearest (ex (bitmap_ (slots_ n))) (data_capacity_ n) pos g.
Proof.
  intros [Hs _] Hp He. unfold closest_gap_slow. set (cap := data_capacity_ n) in *.
  destruct (gap_both_slow_spec cap (slots_ n) Hs pos (Z.to_nat (Z.min pos (cap - pos - 1))) 1) as (r & -> & Hr);
    [lia|lia|lia|intros j Hj; by replace j with pos by lia|]. rewrite res_bind_ret.
  destruct r as [g|d]; [by eexists|]. destruct Hr as [Hd Ho].
  case_bool_decide as Hc.
  - destruct (gap_down_slow_spec cap (slots_ n) Hs (Z.to_nat (pos - d + 1)) (pos - d)) as (g & -> & Hg); [lia|lia|].
    exists g. split; [done|]. destruct Hg as [[-> Hg]|(Hg & Heg & Hgi)].
    + left. split; [done|]. intros j Hj. destruct (decide (j ≤ pos - d)); [apply Hg; lia|apply Ho; lia].
    + apply nearest_left; [lia|lia|done|]. intros j Hj Hej. left. destruct (decide (j ≤ g)); [done|].
      destruct (decide (j ≤ pos - d)); [rewrite Hgi in Hej by lia|rewrite Ho in Hej by lia]; done.
  - destruct (gap_up_slow_spec cap (slots_ n) Hs (Z.to_nat (cap - (pos + d))) (pos + d)) as (g & -> & Hg); [lia|lia|].
    exists g. split; [done|]. destruct Hg as [[-> Hg]|(Hg & Heg & Hgi)].
    + left. split; [done|]. intros j Hj. destruct (decide (pos + d ≤ j)); [apply Hg; lia|apply Ho; lia].
    + apply nearest_right; [lia|lia|done|]. intros j Hj Hej. left. destruct (decide (g ≤ j)); [done|].
      destruct (decide (pos + d ≤ j)); [rewrite Hgi in Hej by lia|rewrite Ho in Hej by lia]; done.
Qed.

(** Behind the last slot, as [insert] may call it. *)
Lemma closest_gap_slow_end n :
  iterable n → 0 < data_capacity_ n →
  ∃ g, closest_gap_slow (data_capacity_ n) n = Ret g ∧ nearest (ex (bitmap_ (slots_ n))) (data_capacity_ n) (data_capacity_ n - 1) g.
Proof.
  intros [Hs _] Hp. unfold closest_gap_slow. set (cap := data_capacity_ n) in *.
  replace (Z.to_nat (Z.min cap (cap - cap - 1))) with 0%nat by lia. cbn [gap_both_slow]. rewrite res_bind_ret, bool_decide_eq_true_2 by lia.
  destruct (gap_down_slow_spec cap (slots_ n) Hs (Z.to_nat (cap - 1 + 1)) (cap - 1)) as (g & -> & Hg); [lia|lia|].
  exists g. split; [done|]. destruct Hg as [[-> Hg]|(Hg & Heg & Hgi)].
  - left. split; [done|]. intros j Hj. apply Hg. lia.
  - apply nearest_left; [lia|lia|done|]. intros j Hj Hej. left. destruct (decide (j ≤ g)); [done|]. by rewrite Hgi in Hej by lia.
Qed.
