(* ===== verification/AlexUpdate.v ===== *)
(** * ALEX data nodes: inserting and erasing

    A pair is inserted behind all the keys at most its own: into the gap the
    model predicts, or by shifting the slots up to the closest gap.  Erasing
    turns slots into gaps of the key behind them.  The gaps below the slot
    touched are overwritten in both cases. *)
From S2P Require Import Prelude Ieee AlexBase AlexNode AlexOps AlexInv AlexSearch AlexBuild AlexGap.

Section element.
Implicit Types (t : slots) (K P : Z → Z) (E : Z → bool) (cap pos i j g : Z).

Lemma insert_element_view cap t K P E pos key payload :
  view cap t K P E → 0 ≤ pos < cap →
  ∃ t' low, insert_element_at key payload pos cap t = Ret t' ∧ -1 ≤ low < pos ∧
    (∀ j, low < j < pos → E j = false) ∧ (0 ≤ low → E low = true) ∧
    view cap t' (λ j, if decide (low < j ≤ pos) then key else K j) (upd P pos payload) (upd E pos true).
Proof.
  intros Hv Hp. unfold insert_element_at.
  destruct (set_key_view _ _ _ _ _ pos key Hv Hp) as (t1 & -> & Hv1). rewrite res_bind_ret.
  destruct (set_payload_view _ _ _ _ _ pos payload Hv1 Hp) as (t2 & -> & Hv2). rewrite res_bind_ret.
  destruct (set_bit_view _ _ _ _ _ pos Hv2 Hp) as (t3 & -> & Hv3). rewrite res_bind_ret.
  destruct (fill_back_view cap key (Z.to_nat pos) t3 _ _ _ (pos - 1) Hv3) as (t' & low & -> & Hl & Hg & He & Hv');
    [lia|lia|]. exists t', low. split; [done|]. split; [lia|]. split; [|split].
  - intros j Hj. specialize (Hg j ltac:(lia)). by rewrite upd_ne in Hg by lia.
  - intros Hl0. specialize (He Hl0). by rewrite upd_ne in He by lia.
  - apply (view_ext _ _ _ _ _ _ _ _ Hv'). intros j Hj. split; [|done]. unfold upd.
    repeat case_decide; lia || done.
Qed.

(** A pair put at [pos], whatever the slot held, over arrays whose other gaps
    are in order. *)
Lemma inserted_ok cap K P E pos key payload low :
  0 ≤ pos < cap → -1 ≤ low < pos → (∀ j, low < j < pos → E j = false) → (0 ≤ low → E low = true) →
  (∀ i, 0 ≤ i < cap → i ≠ pos → i + 1 ≠ pos → E i = false →
     K i = if decide (i + 1 < cap) then K (i + 1) else kEndSentinel_) →
  keys_ok (listing K P E 0 pos ++ (key, payload) :: listing K P E (pos + 1) cap) →
  let K' := λ j, if decide (low < j ≤ pos) then key else K j in
  arrays_ok cap K' (upd P pos payload) (upd E pos true) ∧
  listing K' (upd P pos payload) (upd E pos true) 0 cap =
    listing K P E 0 pos ++ (key, payload) :: listing K P E (pos + 1) cap.
Proof.
  intros Hp Hlow Hgap Hel Hg Hk K'.
  assert (listing K' (upd P pos payload) (upd E pos true) 0 cap =
    listing K P E 0 pos ++ (key, payload) :: listing K P E (pos + 1) cap) as Hl.
  { rewrite (listing_app _ _ _ 0 pos cap), (listing_cons _ _ _ pos cap), upd_eq by lia. cbn [app].
    f_equal; [|f_equal].
    - apply listing_ext. intros i Hi. rewrite !upd_ne by lia. split; [done|]. intros Hei. split; [|done].
      unfold K'. case_decide; [|done]. rewrite Hgap in Hei by lia. done.
    - unfold K'. rewrite decide_True, upd_eq by lia. done.
    - apply listing_ext. intros i Hi. rewrite !upd_ne by lia. split; [done|]. intros _. split; [|done].
      unfold K'. by rewrite decide_False by lia. }
  split; [|done]. split; [|by rewrite Hl]. intros i Hi Hei. unfold upd in Hei. case_decide as Hip; [done|].
  destruct (decide (i < pos)) as [Hlt|Hge].
  - rewrite (decide_True (P := i + 1 < cap)) by lia. unfold K'. destruct (decide (low < i)).
    + by rewrite !decide_True by lia.
    + destruct (decide (i = low)) as [->|]; [rewrite Hel in Hei; [done|lia]|].
      rewrite !decide_False by lia. rewrite Hg by (done || lia). by rewrite decide_True by lia.
  - unfold K'. rewrite decide_False by lia. rewrite Hg by (done || lia).
    case_decide; [|done]. by rewrite decide_False by lia.
Qed.

(** ** Shifting *)
Lemma shift_right_view cap : ∀ k b t K P E,
  view cap t K P E → Z.of_nat k ≤ b → b < cap →
  ∃ t', shift_right k b t = Ret t' ∧
    view cap t' (λ j, if decide (b - Z.of_nat k < j ≤ b) then K (j - 1) else K j)
                (λ j, if decide (b - Z.of_nat k < j ≤ b) then P (j - 1) else P j) E.
Proof.
  induction k as [|k IH]; intros b t K P E Hv Hk Hb; cbn [shift_right].
  - exists t. split; [done|]. apply (view_ext _ _ _ _ _ _ _ _ Hv). intros j Hj. by rewrite !decide_False by lia.
  - rewrite Nat2Z.inj_succ in *.
    destruct (copy_slot_view cap t K P E (b - 1) b Hv) as (t1 & -> & Hv1); [lia|lia|]. rewrite res_bind_ret.
    destruct (IH (b - 1) t1 _ _ _ Hv1) as (t' & -> & Hv'); [lia|lia|]. exists t'. split; [done|].
    apply (view_ext _ _ _ _ _ _ _ _ Hv'). intros j Hj. unfold upd.
    repeat case_decide; subst; (lia || done).
Qed.

Lemma shift_left_view cap t K P E a b :
  view cap t K P E → 0 ≤ a → a ≤ b → b < cap →
  ∃ t', for_up a b (λ i, copy_slot (i + 1) i) t = Ret t' ∧
    view cap t' (λ j, if decide (a ≤ j < b) then K (j + 1) else K j)
                (λ j, if decide (a ≤ j < b) then P (j + 1) else P j) E.
Proof.
  intros Hv Ha Hab Hb.
  pose (I := λ (i : Z) t, view cap t (λ j, if decide (a ≤ j < i) then K (j + 1) else K j)
                                     (λ j, if decide (a ≤ j < i) then P (j + 1) else P j) E).
  apply (for_up_ind I); [done| |]; unfold I.
  - apply (view_ext _ _ _ _ _ _ _ _ Hv). intros j Hj. by rewrite !decide_False by lia.
  - intros i s Hi Hs. destruct (copy_slot_view cap s _ _ _ (i + 1) i Hs) as (s' & -> & Hv'); [lia|lia|].
    exists s'. split; [done|]. apply (view_ext _ _ _ _ _ _ _ _ Hv'). intros j Hj. unfold upd.
    repeat case_decide; subst; (lia || done).
Qed.
(** A pair shifted in before the gap [g] at or behind [pos] ... *)
Lemma inserted_right cap K P E pos g key payload low :
  0 ≤ pos → pos ≤ g → g < cap → E g = false → gaps_ok cap K E → (∀ i, pos ≤ i < g → E i = true) →
  let K1 := λ j, if decide (pos < j ≤ g) then K (j - 1) else K j in
  let P1 := λ j, if decide (pos < j ≤ g) then P (j - 1) else P j in
  let E1 := upd E g true in
  -1 ≤ low < pos → (∀ j, low < j < pos → E1 j = false) → (0 ≤ low → E1 low = true) →
  keys_ok (listing K P E 0 pos ++ (key, payload) :: listing K P E pos cap) →
  let K' := λ j, if decide (low < j ≤ pos) then key else K1 j in
  arrays_ok cap K' (upd P1 pos payload) (upd E1 pos true) ∧
  listing K' (upd P1 pos payload) (upd E1 pos true) 0 cap =
    listing K P E 0 pos ++ (key, payload) :: listing K P E pos cap.
Proof.
  intros Hp Hpg Hgc Heg Hg Hfill K1 P1 E1 Hlow Hgl Hel Hk K'.
  assert (listing K1 P1 E1 0 pos = listing K P E 0 pos) as Hl1.
  { apply listing_ext. intros i Hi. unfold K1, P1, E1. rewrite upd_ne, !decide_False by lia. done. }
  assert (listing K1 P1 E1 (pos + 1) cap = listing K P E pos cap) as Hl2.
  { rewrite (listing_app _ _ _ (pos + 1) (g + 1) cap), (listing_app K P E pos g cap) by lia.
    rewrite (listing_cons K P E g cap), Heg by lia. cbn [app]. f_equal.
    - symmetry. apply listing_shift. intros i Hi. unfold K1, P1, E1. rewrite !decide_True by lia.
      replace (i + 1 - 1) with i by lia. split; [|done]. rewrite Hfill by lia. unfold upd.
      case_decide; [done|]. symmetry. apply Hfill; lia.
    - apply listing_ext. intros i Hi. unfold K1, P1, E1. rewrite upd_ne, !decide_False by lia. done. }
  rewrite <- Hl1, <- Hl2. apply inserted_ok; [lia|done|done|done| |by rewrite Hl1, Hl2].
  intros i Hi Hip Hip1 Hei. unfold E1, upd in Hei. case_decide as Hig; [done|].
  assert (¬ (pos < i < g)) as Hni by (intros Hw; rewrite Hfill in Hei by lia; done).
  unfold K1. rewrite decide_False by lia. rewrite Hg by done. case_decide; [|done].
  by rewrite decide_False by lia.
Qed.

(** ... and behind the gap [g] before [pos]. *)
Lemma inserted_left cap K P E pos g key payload low :
  0 ≤ g → g < pos → pos ≤ cap → E g = false → gaps_ok cap K E → (∀ i, g < i < pos → E i = true) →
  let K1 := λ j, if decide (g ≤ j < pos - 1) then K (j + 1) else K j in
  let P1 := λ j, if decide (g ≤ j < pos - 1) then P (j + 1) else P j in
  let E1 := upd E g true in
  -1 ≤ low < pos - 1 → (∀ j, low < j < pos - 1 → E1 j = false) → (0 ≤ low → E1 low = true) →
  keys_ok (listing K P E 0 pos ++ (key, payload) :: listing K P E pos cap) →
  let K' := λ j, if decide (low < j ≤ pos - 1) then key else K1 j in
  arrays_ok cap K' (upd P1 (pos - 1) payload) (upd E1 (pos - 1) true) ∧
  listing K' (upd P1 (pos - 1) payload) (upd E1 (pos - 1) true) 0 cap =
    listing K P E 0 pos ++ (key, payload) :: listing K P E pos cap.
Proof.
  intros Hg0 Hgp Hpc Heg Hg Hfill K1 P1 E1 Hlow Hgl Hel Hk K'.
  assert (listing K1 P1 E1 0 (pos - 1) = listing K P E 0 pos) as Hl1.
  { rewrite (listing_app _ _ _ 0 g (pos - 1)), (listing_app K P E 0 g pos) by lia.
    rewrite (listing_cons K P E g pos), Heg by lia. cbn [app]. f_equal.
    - apply listing_ext. intros i Hi. unfold K1, P1, E1. rewrite upd_ne, !decide_False by lia. done.
    - replace (listing K P E (g + 1) pos) with (listing K P E (g + 1) (pos - 1 + 1)) by (f_equal; lia).
      apply listing_shift. intros i Hi. unfold K1, P1, E1.
      rewrite !decide_True by lia. split; [|done]. rewrite (Hfill (i + 1)) by lia. unfold upd.
      case_decide; [done|]. apply Hfill; lia. }
  assert (listing K1 P1 E1 (pos - 1 + 1) cap = listing K P E pos cap) as Hl2.
  { replace (pos - 1 + 1) with pos by lia. apply listing_ext. intros i Hi. unfold K1, P1, E1.
    rewrite upd_ne, !decide_False by lia. done. }
  rewrite <- Hl1, <- Hl2. apply inserted_ok; [lia|done|done|done| |by rewrite Hl1, Hl2].
  intros i Hi Hip Hip1 Hei. unfold E1, upd in Hei. case_decide as Hig; [done|].
  assert (¬ (g < i < pos)) as Hni by (intros Hw; rewrite Hfill in Hei by lia; done).
  unfold K1. rewrite decide_False by lia. rewrite Hg by done. case_decide as Hc; [|done].
  destruct (decide (i + 1 = g)) as [->|]; [|by rewrite decide_False by lia].
  case_decide; [|done]. rewrite (Hg g) by (done || lia). by rewrite decide_True by lia.
Qed.
End element.

(** ** The insert of a node *)
(** [pos] is behind the keys at most [key] and before the greater ones. *)
Definition inserted (l : list (Z * Z)) (key payload : Z) : list (Z * Z) :=
  filter (λ kp, kp.1 ≤ key) l ++ (key, payload) :: filter (λ kp, key < kp.1) l.

Lemma inserted_keys_ok l key payload : keys_ok l → 0 ≤ key < kEndSentinel_ → keys_ok (inserted l key payload).
Proof.
  intros [Hs Hf] Hk. unfold inserted.
  assert (∀ Q : Z * Z → Prop, ∀ `{!∀ x, Decision (Q x)}, StronglySorted Z.le (filter Q l).*1 ∧
    Forall (λ k, 0 ≤ k < kEndSentinel_) (filter Q l).*1) as Hsub.
  { intros Q HQ. clear -Hs Hf. induction l as [|x l IH]; [split; constructor|].
    cbn in Hs, Hf. apply StronglySorted_inv in Hs as [Hs Hx]. apply Forall_cons in Hf as [Hx0 Hf].
    destruct (IH Hs Hf) as [Hs' Hf']. rewrite filter_cons. case_decide; [|done]. cbn. split; constructor; try done.
    rewrite list.Forall_forall in *. intros k (y & -> & [_ Hy]%list_elem_of_filter)%list_elem_of_fmap.
    apply Hx, list_elem_of_fmap. by exists y. }
  destruct (Hsub (λ kp, kp.1 ≤ key) _) as [Hs1 Hf1]. destruct (Hsub (λ kp, key < kp.1) _) as [Hs2 Hf2].
  split; rewrite fmap_app; cbn [fmap list_fmap fst].
  - apply StronglySorted_app. split; [|split; [done|]].
    + intros x y (a & -> & [Ha _]%list_elem_of_filter)%list_elem_of_fmap Hy.
      apply elem_of_cons in Hy as [->|(b & -> & [Hb _]%list_elem_of_filter)%list_elem_of_fmap]; lia.
    + constructor; [done|]. rewrite list.Forall_forall.
      intros y (b & -> & [Hb _]%list_elem_of_filter)%list_elem_of_fmap. lia.
  - apply Forall_app. split; [done|]. constructor; done.
Qed.

Section insert.
Context (junk : Z → Z) (allow_duplicates : bool).
Implicit Types (n : AlexDataNode) (key payload pos : Z).

Lemma upper_inserted n key payload pos :
  node_ok n → is_upper n key pos →
  listing (key_at (slots_ n)) (pay_at (slots_ n)) (ex (bitmap_ (slots_ n))) 0 pos ++
    (key, payload) :: suffix n pos = inserted (contents n) key payload.
Proof.
  intros Hok (Hp & Hlo & Hhi). unfold inserted, suffix, contents.
  destruct (listing_split (data_capacity_ n) (key_at (slots_ n)) (pay_at (slots_ n)) (ex (bitmap_ (slots_ n)))
    key pos Hp Hlo Hhi) as [-> ->]. done.
Qed.

(** What an insert leaves in the arrays. *)
Definition holds_pair n (t : slots) (l : list (Z * Z)) key payload pos : Prop :=
  ∃ K P E, view (data_capacity_ n) t K P E ∧ arrays_ok (data_capacity_ n) K P E ∧
    listing K P E 0 (data_capacity_ n) = l ∧ 0 ≤ pos < data_capacity_ n ∧
    E pos = true ∧ K pos = key ∧ P pos = payload.

Lemma insert_at_gap n key payload upper pos :
  node_ok n → 0 ≤ key < kEndSentinel_ → is_upper n key upper → upper ≤ pos < data_capacity_ n →
  (∀ i, upper ≤ i ≤ pos → ex (bitmap_ (slots_ n)) i = false) →
  ∃ t, insert_element_at key payload pos (data_capacity_ n) (slots_ n) = Ret t ∧
    holds_pair n t (inserted (contents n) key payload) key payload pos.
Proof.
  intros Hok Hk Hup Hp Hgap. destruct (node_ok_self n Hok) as [Hv [Hg _]].
  set (K := key_at (slots_ n)) in *. set (P := pay_at (slots_ n)) in *. set (E := ex (bitmap_ (slots_ n))) in *.
  destruct Hup as (Hup0 & Hup). assert (is_upper n key upper) as Hup' by done.
  destruct (insert_element_view _ _ K P E pos key payload Hv) as (t & low & -> & Hlow & Hgl & Hel & Hv'); [lia|].
  assert (listing K P E 0 pos ++ (key, payload) :: listing K P E (pos + 1) (data_capacity_ n) =
    inserted (contents n) key payload) as Hl.
  { rewrite <- (upper_inserted n key payload upper Hok Hup'). unfold suffix. fold K P E.
    rewrite (listing_app K P E 0 upper pos), (listing_gaps K P E upper pos), app_nil_r by
      (lia || (intros i Hi; apply Hgap; lia)).
    rewrite (listing_app K P E upper (pos + 1)), (listing_gaps K P E upper (pos + 1)), app_nil_l by
      (lia || (intros i Hi; apply Hgap; lia)). done. }
  exists t. split; [done|]. eexists _, _, _. split; [exact Hv'|].
  destruct (inserted_ok (data_capacity_ n) K P E pos key payload low) as [Ha Hls];
    [lia|done|done|done|intros i Hi _ _ Hei; by apply Hg|rewrite Hl; apply inserted_keys_ok; [apply Hok|done]|].
  split; [done|]. split; [by rewrite Hls|]. split; [lia|]. rewrite decide_True, !upd_eq by lia. done.
Qed.

Lemma with_slots_counters c t n : with_slots t (with_counters c n) = with_counters c (with_slots t n).
Proof. done. Qed.

(** A node with fewer keys than slots has a gap. *)
Lemma has_gap n : node_ok n → num_keys_ n < data_capacity_ n →
  ¬ ∀ i, 0 ≤ i < data_capacity_ n → ex (bitmap_ (slots_ n)) i = true.
Proof.
  intros Hok Hnum Hall. pose proof (ok_count n Hok) as Hcount. pose proof (ok_capacity n Hok) as Hcap.
  unfold contents in Hcount. set (K := key_at _) in *. set (P := pay_at _) in *.
  rewrite (listing_ext K P _ K P (λ _, true)) in Hcount by (intros i Hi; by rewrite Hall).
  assert (length (listing K P (λ _, true) 0 (data_capacity_ n)) = length (seqZ 0 (data_capacity_ n))) as Hlen.
  { unfold listing, pair_at. rewrite Z.sub_0_r. induction (seqZ 0 _) as [|x l IH]; [done|]. cbn. by rewrite IH. }
  rewrite Hlen, length_seqZ in Hcount. lia.
Qed.

(** The gap that an insert at [pos] shifts to; the slots in between are full. *)
Lemma insertion_gap n key pos :
  node_ok n → 0 ≤ key < kEndSentinel_ → is_upper n key pos →
  (pos < data_capacity_ n → ex (bitmap_ (slots_ n)) pos = true) → num_keys_ n < data_capacity_ n →
  ∃ g, closest_gap pos n = Ret g ∧ 0 ≤ g < data_capacity_ n ∧ ex (bitmap_ (slots_ n)) g = false ∧
    (∀ i, pos ≤ i < g ∨ g < i < pos → ex (bitmap_ (slots_ n)) i = true).
Proof.
  intros Hok Hk Hup Hfull Hnum. pose proof (ok_capacity n Hok) as Hcap. destruct Hup as (Hp & Hlo & _).
  destruct (closest_gap_spec n pos (node_ok_iterable n Hok)) as (g & Eg & Hn); [lia|lia|].
  exists g. split; [done|].
  destruct Hn as [[_ Hall]|(Hgc & Heg & Hnear)]; [by apply has_gap in Hall|].
  split; [done|]. split; [done|].
  assert (ex (bitmap_ (slots_ n)) (Z.min pos (data_capacity_ n - 1)) = true) as Hmin.
  { destruct (decide (pos < data_capacity_ n)); [rewrite Z.min_l by lia; by apply Hfull|].
    rewrite Z.min_r by lia. destruct (ex _ (data_capacity_ n - 1)) eqn:El; [done|].
    pose proof (ok_gaps n Hok (data_capacity_ n - 1) ltac:(lia) El) as Hgl. rewrite decide_False in Hgl by lia.
    exfalso. specialize (Hlo (data_capacity_ n - 1) ltac:(lia)). lia. }
  intros i Hi. destruct (ex _ i) eqn:Ei; [done|].
  destruct (decide (i = Z.min pos (data_capacity_ n - 1))) as [->|]; [by rewrite Hmin in Ei|].
  destruct (decide (g = Z.min pos (data_capacity_ n - 1))) as [->|]; [by rewrite Hmin in Heg|].
  specialize (Hnear i ltac:(lia) Ei). lia.
Qed.

(** [pos] is a key slot, or behind the last slot. *)
Lemma insert_using_shifts_spec n key payload pos :
  node_ok n → 0 ≤ key < kEndSentinel_ → is_upper n key pos →
  (pos < data_capacity_ n → ex (bitmap_ (slots_ n)) pos = true) →
  num_keys_ n < data_capacity_ n →
  ∃ t pos' s, insert_using_shifts key payload pos n = Ret (pos', add_shifts s (with_slots t n)) ∧
    holds_pair n t (inserted (contents n) key payload) key payload pos'.
Proof.
  intros Hok Hk Hup Hfull Hnum. destruct (node_ok_self n Hok) as [Hv [Hg _]].
  pose proof (inserted_keys_ok (contents n) key payload (ok_keys n Hok) Hk) as Hins.
  rewrite <- (upper_inserted n key payload pos Hok Hup) in Hins |- *. unfold suffix in *.
  destruct (insertion_gap n key pos Hok Hk Hup Hfull Hnum) as (g & Eg & Hgc & Heg & Hfill).
  unfold insert_using_shifts. rewrite Eg, res_bind_ret.
  destruct (set_bit_view _ _ _ _ _ g Hv Hgc) as (t1 & -> & Hv1). rewrite res_bind_ret. destruct Hup as (Hp & _).
  case_bool_decide as Hside.
  - destruct (shift_right_view _ (Z.to_nat (g - pos)) g t1 _ _ _ Hv1) as (t2 & -> & Hv2); [lia|lia|].
    rewrite res_bind_ret. rewrite Z2Nat.id in Hv2 by lia. replace (g - (g - pos)) with pos in Hv2 by lia.
    destruct (insert_element_view _ t2 _ _ _ pos key payload Hv2) as (t & low & -> & Hlow & Hgl & Hel & Hv');
      [lia|]. rewrite res_bind_ret. exists t, pos, (g - pos). split; [done|].
    eexists _, _, _. split; [exact Hv'|].
    destruct (inserted_right (data_capacity_ n) _ _ _ pos g key payload low ltac:(lia) Hside ltac:(lia) Heg Hg
      ltac:(intros; apply Hfill; by left) Hlow Hgl Hel Hins) as [Ha Hls].
    split; [exact Ha|]. split; [exact Hls|]. split; [lia|]. rewrite decide_True, !upd_eq by lia. done.
  - destruct (shift_left_view _ t1 _ _ _ g (pos - 1) Hv1) as (t2 & -> & Hv2); [lia|lia|lia|].
    rewrite res_bind_ret.
    destruct (insert_element_view _ t2 _ _ _ (pos - 1) key payload Hv2) as (t & low & -> & Hlow & Hgl & Hel & Hv');
      [lia|]. rewrite res_bind_ret. exists t, (pos - 1), (pos - g - 1). split; [done|].
    eexists _, _, _. split; [exact Hv'|].
    destruct (inserted_left (data_capacity_ n) _ _ _ pos g key payload low ltac:(lia) ltac:(lia) ltac:(lia) Heg Hg
      ltac:(intros; apply Hfill; by right) Hlow Hgl Hel Hins) as [Ha Hls].
    split; [exact Ha|]. split; [exact Hls|]. split; [lia|]. rewrite decide_True, !upd_eq by lia. done.
Qed.
(** Installing the arrays of an insert. *)
Lemma holds_pair_ok n t l key payload pos c e :
  node_ok n → holds_pair n t l key payload pos → num_keys_ n + 1 = Z.of_nat (length l) →
  let n' := with_extremes e (with_counters c (with_num_keys (num_keys_ n + 1) (with_slots t n))) in
  node_ok n' ∧ contents n' = l ∧ 0 ≤ pos < data_capacity_ n ∧ ex (bitmap_ t) pos = true ∧
  key_at t pos = key ∧ pay_at t pos = payload.
Proof.
  intros Hok (K & P & E & Hv & Ha & <- & Hp & He & Hk & Hpay) Hnum n'.
  destruct (node_ok_view n' K P E) as [Hok' Hc]; [apply Hok|apply Hok|exact Hv|exact Ha|exact Hnum|].
  split; [done|]. split; [exact Hc|]. split; [done|]. destruct Hv as [_ Hv].
  destruct (Hv pos Hp) as (-> & -> & ->). done.
Qed.

Lemma inserted_length l key payload :
  Z.of_nat (length (inserted l key payload)) = Z.of_nat (length l) + 1.
Proof.
  unfold inserted. rewrite length_app. cbn [length].
  assert (length l = Nat.add (length (filter (λ kp, kp.1 ≤ key) l)) (length (filter (λ kp, key < kp.1) l))) as ->; [|lia].
  induction l as [|x l IH]; [done|]. rewrite !filter_cons. repeat case_decide; cbn; lia.
Qed.

Lemma find_insert_position_spec n key :
  node_ok n → ∃ ip pos n', find_insert_position key n = Ret (ip, pos, n') ∧ same_node n n' ∧
    is_upper n key pos ∧ pos ≤ ip ≤ data_capacity_ n ∧
    (pos < ip → ip < data_capacity_ n ∧ ∀ i, pos ≤ i ≤ ip → ex (bitmap_ (slots_ n)) i = false).
Proof.
  intros Hok. pose proof (ok_capacity n Hok) as Hcap.
  pose proof (predict_position_range key n ltac:(lia)) as Hpred. unfold find_insert_position.
  destruct (search_upper (predict_position key n) key n Hok Hpred) as (pos & n' & -> & Hsame & Hup).
  rewrite res_bind_ret. pose proof Hup as (Hp & _). case_bool_decide as Hle.
  - rewrite res_bind_ret. exists pos, pos, n'. split; [done|]. split; [done|]. split; [done|]. lia.
  - pose proof Hsame as [c Hn']. assert (data_capacity_ n' = data_capacity_ n ∧ slots_ n' = slots_ n) as [-> ->]
      by (by subst n').
    destruct (node_ok_self n Hok) as [Hv _]. rewrite (check_exists_view _ _ _ _ _ pos Hv), res_bind_ret by lia.
    destruct (ex (bitmap_ (slots_ n)) pos) eqn:Epos.
    + exists pos, pos, n'. split; [done|]. split; [done|]. split; [done|]. lia.
    + destruct (next_filled_spec n' pos true) as (j & -> & Hj & Hgap & _);
        [by apply (same_node_ok n)|lia|subst n'; cbn; lia|by right; left|]. rewrite res_bind_ret.
      assert (data_capacity_ n' = data_capacity_ n ∧ slots_ n' = slots_ n) as [Hc' Hs'] by (by subst n').
      rewrite Hc', Hs' in *. eexists _, pos, n'. split; [done|]. split; [done|]. split; [done|].
      split; [lia|]. intros Hlt. split; [lia|]. intros i Hi.
      destruct (decide (i = pos)) as [->|]; [done|]. apply Hgap. lia.
Qed.

(** The pair goes in behind the keys at most its own. *)
Lemma insert_body n key payload :
  node_ok n → 0 ≤ key < kEndSentinel_ → num_keys_ n < data_capacity_ n →
  ∃ ip pos n', find_insert_position key n = Ret (ip, pos, n') ∧ same_node n n' ∧ is_upper n key pos ∧
  ∃ p n'', (let* is_gap := if bool_decide (ip < data_capacity_ n')
                           then let* b := check_exists (data_capacity_ n') (slots_ n') ip in Ret (negb b)
                           else Ret false in
            if is_gap : bool then
              let* t := insert_element_at key payload ip (data_capacity_ n') (slots_ n') in
              Ret (ip, with_slots t n')
            else insert_using_shifts key payload ip n') = Ret (p, n'') ∧
    ∃ t c, n'' = with_counters c (with_slots t n) ∧ holds_pair n t (inserted (contents n) key payload) key payload p.
Proof.
  intros Hok Hk Hnum. destruct (find_insert_position_spec n key Hok) as (ip & pos & n' & E & Hsame & Hup & Hip & Hgap).
  exists ip, pos, n'. split; [done|]. split; [done|]. split; [done|].
  destruct (same_node_ok n n' Hsame Hok) as [Hok' Hc']. pose proof Hsame as [c Hn'].
  assert (data_capacity_ n' = data_capacity_ n) as Hcap by (by subst n').
  assert (slots_ n' = slots_ n) as Hsl by (by subst n'). rewrite Hcap, Hsl.
  destruct (node_ok_self n Hok) as [Hv _]. assert (0 ≤ ip) as Hip0 by (destruct Hup as [? _]; lia).
  assert (∀ b, (if bool_decide (ip < data_capacity_ n)
    then let* b := check_exists (data_capacity_ n) (slots_ n) ip in Ret (negb b) else Ret false) = Ret b →
    if b : bool then ip < data_capacity_ n ∧ ex (bitmap_ (slots_ n)) ip = false
    else ip < data_capacity_ n → ex (bitmap_ (slots_ n)) ip = true) as Hcase.
  { intros b. case_bool_decide; [|intros [= <-]; lia].
    rewrite (check_exists_view _ _ _ _ _ ip Hv), res_bind_ret by lia. intros [= <-].
    by destruct (ex (bitmap_ (slots_ n)) ip). }
  destruct (if bool_decide (ip < data_capacity_ n) then _ else _) as [b| |] eqn:Eb.
  - specialize (Hcase b eq_refl). rewrite res_bind_ret. destruct b.
    + destruct Hcase as [Hlt He].
      destruct (insert_at_gap n key payload pos ip Hok Hk Hup) as (t & -> & Hh); [lia| |].
      * intros i Hi. destruct (decide (pos < ip)); [by apply Hgap|]. by replace i with ip by lia.
      * rewrite res_bind_ret. eexists _, _. split; [done|]. exists t, c. split; [by subst n'|done].
    + assert (ip = pos) as ->.
      { destruct (decide (pos < ip)) as [Hlt|]; [|lia]. destruct (Hgap Hlt) as [Hi Hg].
        specialize (Hcase Hi). by rewrite Hg in Hcase by lia. }
      assert (is_upper n' key pos) as Hup' by (by subst n').
      destruct (insert_using_shifts_spec n' key payload pos Hok' Hk Hup') as (t & p & s & -> & Hh);
        [by subst n'|by subst n'|].
      eexists _, _. split; [done|]. rewrite Hc' in Hh. exists t. eexists. split; [by subst n'|by subst n'].
  - exfalso. revert Eb. case_bool_decide; [|done]. by rewrite (check_exists_view _ _ _ _ _ ip Hv) by lia.
  - exfalso. revert Eb. case_bool_decide; [|done]. by rewrite (check_exists_view _ _ _ _ _ ip Hv) by lia.
Qed.

Lemma d_le_full n : node_wf n → d_le (expansion_threshold_ n) (d_of_Z (num_keys_ n)) = false →
  num_keys_ n < data_capacity_ n.
Proof.
  intros [Hok Hthr] Hle. pose proof (ok_count n Hok) as Hc. pose proof (ok_capacity n Hok) as Hcap.
  pose proof (listing_length (key_at (slots_ n)) (pay_at (slots_ n)) (ex (bitmap_ (slots_ n))) 0 (data_capacity_ n)) as Hl.
  unfold contents in Hc. destruct (decide (num_keys_ n = data_capacity_ n)) as [E|]; [|lia].
  by rewrite E, Hthr in Hle.
Qed.

(** The node [insert] works on, after it has expanded. *)
Lemma expanded n :
  node_wf n → num_keys_ n ≤ 2 ^ 26 →
  ∃ n', (if d_le (expansion_threshold_ n) (d_of_Z (num_keys_ n)) then
           let* n := resize junk kMinDensity_ false (is_append_mostly_right n) (is_append_mostly_left n) n in
           Ret (add_resize n)
         else Ret n) = Ret n' ∧ node_wf n' ∧ contents n' = contents n ∧ num_keys_ n' < data_capacity_ n'.
Proof.
  intros Hwf Hn. destruct (d_le _ _) eqn:Ele; [|by exists n; split_and!; try done; apply d_le_full].
  pose proof Hwf as [Hok Hthr]. pose proof (ok_count n Hok) as Hc.
  destruct (decide (num_keys_ n = 0)) as [Hz|Hz].
  - unfold resize. rewrite bool_decide_eq_true_2, res_bind_ret by done. eexists. split; [done|].
    destruct (same_node_ok n (add_resize n)) as [Hok' ?]; [by eexists|done|].
    split; [by split|]. split; [done|]. cbn. pose proof (ok_capacity n Hok). lia.
  - pose proof (capacity_for_bound (num_keys_ n) kMinDensity_ ltac:(lia) min_density_within) as Hcap.
    destruct (resize_spec junk kMinDensity_ false (is_append_mostly_right n) (is_append_mostly_left n) n Hok Hz Hcap)
      as (n' & -> & [Hok' Hthr'] & Hcont & Hcap' & _). rewrite res_bind_ret. eexists. split; [done|].
    destruct (same_node_ok n' (add_resize n')) as [Hok'' Hc'']; [by eexists|done|].
    split; [by split|]. split; [by rewrite Hc''|]. cbn.
    rewrite (ok_count n' Hok'), Hcont, <- Hc, Hcap'. apply capacity_for_gt. lia.
Qed.

Lemma insert_spec n key payload :
  node_wf n → 0 ≤ key < kEndSentinel_ → num_keys_ n ≤ 2 ^ 26 → refuse n = None →
  ∃ flag pos n', insert junk allow_duplicates key payload n = Ret (flag, pos, n') ∧ node_wf n' ∧
    if negb allow_duplicates && bool_decide (key ∈ (contents n).*1)
    then flag = -1 ∧ contents n' = contents n
    else flag = 0 ∧ contents n' = inserted (contents n) key payload ∧ 0 ≤ pos < data_capacity_ n' ∧
      ex (bitmap_ (slots_ n')) pos = true ∧ key_at (slots_ n') pos = key ∧ pay_at (slots_ n') pos = payload.
Proof.
  intros Hwf Hk Hn Href. unfold insert. rewrite Href.
  destruct (expanded n Hwf Hn) as (n1 & -> & [Hok Hthr] & Hcont & Hnum). rewrite res_bind_ret, <- Hcont.
  destruct (insert_body n1 key payload Hok Hk Hnum) as (ip & pos & n2 & -> & Hsame & Hup & p & n3 & Ebody & Hfin).
  rewrite res_bind_ret. destruct (same_node_ok n1 n2 Hsame Hok) as [Hok2 Hc2].
  assert (∃ d, (if negb allow_duplicates && bool_decide (0 < pos) then
      let* k := rd (key_slots_ (slots_ n2)) (pos - 1) in Ret (bool_decide (k = key)) else Ret false) = Ret d ∧
    d = negb allow_duplicates && bool_decide (key ∈ (contents n1).*1)) as (d & -> & Ed).
  { destruct (negb allow_duplicates); [|by eexists]. cbn [andb].
    assert (bool_decide (0 < pos) && bool_decide (key_at (slots_ n1) (pos - 1) = key) =
            bool_decide (key ∈ (contents n1).*1)) as Hin.
    { pose proof Hup as (Hp & Hlo & Hhi). rewrite <- bool_decide_and. apply bool_decide_ext. split.
      - intros [Hpos Hkp]. apply list_elem_of_fmap. eexists (key, _). split; [done|]. apply elem_of_listing.
        exists (pos - 1). split; [lia|]. rewrite Hkp. split; [|done].
        by apply (upper_filled n1 key pos); [done|lia|done|done|].
      - intros (kp & -> & (i & Hi & Hei & ->)%elem_of_listing)%list_elem_of_fmap. cbn in *.
        assert (i < pos) by (destruct (decide (i < pos)); [done|]; specialize (Hhi i ltac:(lia)); lia).
        split; [lia|]. specialize (Hlo (pos - 1) ltac:(lia)).
        pose proof (keys_monotone _ _ _ _ i (pos - 1) (proj2 (node_ok_self n1 Hok)) ltac:(lia) ltac:(lia) ltac:(lia)).
        lia. }
    rewrite <- Hin. pose proof Hup as (Hp & _). case_bool_decide as Hpos; cbn [andb]; [|by eexists].
    destruct Hsame as [c ->]. destruct (node_ok_self n1 Hok) as [Hv _]. cbn [slots_ with_counters].
    rewrite (rd_key_view _ _ _ _ _ (pos - 1) Hv), res_bind_ret by lia. by eexists. }
  rewrite res_bind_ret, <- Ed. destruct d.
  - eexists _, _, n2. split; [done|]. split; [|done]. split; [done|]. by destruct Hsame as [c ->].
  - cbv zeta in Ebody |- *. destruct Hfin as (t & c & -> & Hh).
    eexists 0, p, _. split.
    { destruct (if bool_decide (ip < data_capacity_ n2) then _ else _) as [g| |]; [|done|done].
      rewrite res_bind_ret in Ebody. rewrite res_bind_ret, Ebody, res_bind_ret. done. }
    destruct (holds_pair_ok n1 t _ key payload p (counters_ (count_insert key (with_counters c (with_slots t n1))))
      (extremes_ (count_insert key (with_counters c (with_slots t n1)))) Hok Hh) as (Hok' & Hc' & Hrest).
    { rewrite inserted_length, (ok_count n1 Hok). lia. }
    split; [split; [exact Hok'|exact Hthr]|]. split; [done|]. split; [exact Hc'|]. exact Hrest.
Qed.
End insert.
