(* ===== verification/AlexErase.v ===== *)
(** * ALEX data nodes: erasing

    Erased slots become gaps of the key behind them, down to the previous key
    slot; a node with few keys left is rebuilt smaller. *)
From S2P Require Import Prelude Ieee AlexBase AlexNode AlexOps AlexInv AlexSearch AlexLookup AlexBuild AlexUpdate.

Section erased.
Implicit Types (t : slots) (K P : Z → Z) (E : Z → bool) (cap pos low i j : Z).

(** Slots in [(low, pos)] turned into gaps of what is at [pos]. *)
Lemma erased_ok cap K P E low pos next :
  -1 ≤ low < pos → pos ≤ cap → gaps_ok cap K E → keys_ok (listing K P E 0 cap) →
  next = (if decide (pos < cap) then K pos else kEndSentinel_) →
  (0 ≤ low → low + 1 < pos → E low = true) →
  let K' := λ j, if decide (low < j < pos) then next else K j in
  let E' := λ j, if decide (low < j < pos) then false else E j in
  arrays_ok cap K' P E' ∧
  listing K' P E' 0 cap = listing K P E 0 (low + 1) ++ listing K P E pos cap.
Proof.
  intros Hlow Hp Hg Hk Hnext Hel K' E'.
  assert (listing K' P E' 0 cap = listing K P E 0 (low + 1) ++ listing K P E pos cap) as Hl.
  { rewrite (listing_app _ _ _ 0 (low + 1) cap), (listing_app _ _ _ (low + 1) pos cap) by lia.
    rewrite (listing_gaps _ _ _ (low + 1) pos) by (intros i Hi; unfold E'; by rewrite decide_True by lia).
    cbn [app]. f_equal; apply listing_ext; intros i Hi; unfold K', E'; by rewrite !decide_False by lia. }
  split; [|done]. split.
  - intros i Hi. unfold E', K'. destruct (decide (low < i < pos)) as [Hw|Hw]; intros Hei.
    + destruct (decide (i + 1 < pos)); [by rewrite !decide_True by lia|].
      rewrite (decide_False (P := low < i + 1 < pos)) by lia. replace (i + 1) with pos by lia. done.
    + destruct (decide (low < i + 1 < pos)) as [Hw1|Hw1]; [|by apply Hg].
      assert (i = low) as -> by lia. rewrite Hel in Hei by lia. done.
  - rewrite Hl. rewrite (listing_app K P E 0 (low + 1) cap), (listing_app K P E (low + 1) pos cap) in Hk by lia.
    destruct Hk as [Hs Hf]. rewrite !fmap_app in Hs, Hf. split; rewrite fmap_app.
    + apply StronglySorted_app in Hs as (Hx & Hs1 & Hs2). apply StronglySorted_app in Hs2 as (_ & _ & Hs2).
      apply StronglySorted_app. split; [|done]. intros x y Hxx Hy. apply Hx; [done|]. apply elem_of_app. by right.
    + apply Forall_app in Hf as [Hf1 Hf]. apply Forall_app in Hf as [_ Hf2]. by apply Forall_app.
Qed.

Lemma erase_back_view cap holds next : ∀ fuel t K P E pos c,
  view cap t K P E → Z.of_nat fuel = pos + 1 → pos < cap →
  ∃ t' low, erase_back fuel holds cap next pos c t =
      Ret (t', c + Z.of_nat (length (listing K P E (low + 1) (pos + 1)))) ∧ -1 ≤ low ≤ pos ∧
    (∀ j, low < j ≤ pos → holds (K j) = true) ∧ (0 ≤ low → holds (K low) = false) ∧
    view cap t' (λ j, if decide (low < j ≤ pos) then next else K j) P
                (λ j, if decide (low < j ≤ pos) then false else E j).
Proof.
  induction fuel as [|fuel IH]; intros t K P E pos c Hv Ef Hpos; cbn [erase_back].
  - exists t, pos. rewrite listing_nil, Z.add_0_r by lia. split; [done|]. split; [lia|]. split; [lia|]. split; [lia|].
    apply (view_ext _ _ _ _ _ _ _ _ Hv). intros j Hj. by rewrite !decide_False by lia.
  - rewrite Nat2Z.inj_succ in Ef. rewrite (rd_key_view _ _ _ _ _ pos Hv), res_bind_ret by lia.
    destruct (holds (K pos)) eqn:Eh.
    + destruct (set_key_view _ _ _ _ _ pos next Hv) as (t1 & -> & Hv1); [lia|]. rewrite res_bind_ret.
      rewrite (check_exists_view _ _ _ _ _ pos Hv1), res_bind_ret by lia.
      destruct (unset_bit_view _ _ _ _ _ pos Hv1) as (t2 & -> & Hv2); [lia|]. rewrite res_bind_ret.
      destruct (IH t2 _ _ _ (pos - 1) (c + Z.b2z (E pos)) Hv2) as (t' & low & -> & Hlow & Hh & Hl & Hv'); [lia|lia|].
      exists t', low. split; [|split; [lia|split; [|split]]].
      * do 2 f_equal. rewrite (listing_app K P E (low + 1) pos (pos + 1)), listing_one, length_app by lia.
        replace (pos - 1 + 1) with pos by lia.
        rewrite (listing_ext _ P _ K P E (low + 1) pos) by (intros i Hi; rewrite !upd_ne by lia; done).
        destruct (E pos); cbn [length Z.b2z]; lia.
      * intros j Hj. destruct (decide (j = pos)) as [->|]; [done|]. specialize (Hh j ltac:(lia)).
        by rewrite upd_ne in Hh by lia.
      * intros Hl0. specialize (Hl Hl0). by rewrite upd_ne in Hl by lia.
      * apply (view_ext _ _ _ _ _ _ _ _ Hv'). intros j Hj. unfold upd. repeat case_decide; lia || done.
    + exists t, pos. rewrite listing_nil, Z.add_0_r by lia. split; [done|]. split; [lia|]. split; [lia|]. split; [done|].
      apply (view_ext _ _ _ _ _ _ _ _ Hv). intros j Hj. by rewrite !decide_False by lia.
Qed.
End erased.

Section erase.
Context (junk : Z → Z).
Implicit Types (n : AlexDataNode) (key pos : Z).

Lemma contract_spec n :
  node_wf n → num_keys_ n ≤ 2 ^ 26 →
  ∃ n', contract junk n = Ret n' ∧ node_wf n' ∧ contents n' = contents n.
Proof.
  intros [Hok Hthr] Hn. unfold contract. case_match; [|by exists n].
  pose proof (ok_count n Hok) as Hc. destruct (decide (num_keys_ n = 0)) as [Hz|Hz].
  - unfold resize. rewrite bool_decide_eq_true_2, res_bind_ret by done. eexists. split; [done|].
    destruct (same_node_ok n (add_resize n)) as [? ?]; [by eexists|done|]. by split; [split|].
  - pose proof (capacity_for_bound (num_keys_ n) kMaxDensity_ ltac:(lia) density_within) as Hcap.
    destruct (resize_spec junk kMaxDensity_ false false false n Hok Hz Hcap) as (n' & -> & [Hok' Hthr'] & Hcont & _).
    rewrite res_bind_ret. eexists. split; [done|].
    destruct (same_node_ok n' (add_resize n')) as [Hok'' ->]; [by eexists|done|]. by split; [split|].
Qed.

(** The node with its arrays erased, then contracted. *)
Lemma erased_node n t K P E num :
  node_wf n → num_keys_ n ≤ 2 ^ 26 → view (data_capacity_ n) t K P E → arrays_ok (data_capacity_ n) K P E →
  num = Z.of_nat (length (listing K P E 0 (data_capacity_ n))) → num ≤ num_keys_ n →
  ∃ n', contract junk (with_num_keys num (with_slots t n)) = Ret n' ∧ node_wf n' ∧
    contents n' = listing K P E 0 (data_capacity_ n).
Proof.
  intros [Hok Hthr] Hn Hv Ha Hnum Hle.
  destruct (node_ok_view (with_num_keys num (with_slots t n)) K P E) as [Hok' Hc];
    [apply Hok|apply Hok|exact Hv|exact Ha|exact Hnum|].
  destruct (contract_spec (with_num_keys num (with_slots t n))) as (n' & -> & Hwf & Hc'); [by split|cbn; lia|].
  exists n'. split; [done|]. split; [done|]. by rewrite Hc'.
Qed.

Lemma erase_below_spec holds n pos :
  node_wf n → num_keys_ n ≤ 2 ^ 26 → 0 ≤ pos ≤ data_capacity_ n →
  ∃ low n', erase_below junk holds pos n = Ret (Z.of_nat (length (between n (low + 1) pos)), n') ∧ node_wf n' ∧
    contents n' = between n 0 (low + 1) ++ suffix n pos ∧ -1 ≤ low < Z.max pos 1 ∧ low < pos ∧
    (∀ i, low < i < pos → holds (key_at (slots_ n) i) = true) ∧
    (0 ≤ low → holds (key_at (slots_ n) low) = false).
Proof.
  intros Hwf Hn Hp. pose proof Hwf as [Hok Hthr]. destruct (node_ok_self n Hok) as [Hv [Hg Hk]].
  unfold erase_below.
  assert ((if bool_decide (pos = data_capacity_ n) then Ret kEndSentinel_ else rd (key_slots_ (slots_ n)) pos) =
    Ret (if decide (pos < data_capacity_ n) then key_at (slots_ n) pos else kEndSentinel_)) as ->.
  { case_bool_decide; [by rewrite decide_False by lia|]. rewrite decide_True by lia.
    apply (rd_key_view _ _ _ _ _ pos Hv). lia. }
  rewrite res_bind_ret. set (next := if decide _ then _ else _).
  destruct (erase_back_view _ holds next (Z.to_nat pos) _ _ _ _ (pos - 1) 0 Hv) as (t & low & -> & Hlow & Hh & Hl & Hv');
    [lia|lia|]. rewrite res_bind_ret. replace (pos - 1 + 1) with pos by lia. rewrite Z.add_0_l.
  assert (view (data_capacity_ n) t (λ j, if decide (low < j < pos) then next else key_at (slots_ n) j)
    (pay_at (slots_ n)) (λ j, if decide (low < j < pos) then false else ex (bitmap_ (slots_ n)) j)) as Hv2.
  { apply (view_ext _ _ _ _ _ _ _ _ Hv'). intros j Hj. repeat case_decide; lia || done. }
  destruct (erased_ok (data_capacity_ n) _ (pay_at (slots_ n)) _ low pos next ltac:(lia) ltac:(lia) Hg Hk eq_refl)
    as [Ha Hls].
  { intros Hl0 Hlt. destruct (ex _ low) eqn:El; [done|]. specialize (Hg low ltac:(lia) El).
    rewrite decide_True in Hg by lia. specialize (Hl Hl0). rewrite Hg, Hh in Hl by lia. done. }
  assert (Z.of_nat (length (contents n)) = Z.of_nat (length (between n 0 (low + 1) ++ suffix n pos)) +
    Z.of_nat (length (between n (low + 1) pos))) as Hlen.
  { unfold contents, between, suffix. rewrite (listing_app _ _ _ 0 (low + 1) (data_capacity_ n)),
      (listing_app _ _ _ (low + 1) pos (data_capacity_ n)), !length_app by lia. lia. }
  rewrite <- (ok_count n Hok) in Hlen.
  destruct (erased_node n t _ _ _ (num_keys_ n - Z.of_nat (length (between n (low + 1) pos))) Hwf Hn Hv2 Ha)
    as (n' & E & Hwf' & Hc').
  { rewrite Hls. unfold between, suffix in *. lia. }
  { lia. }
  unfold between in *. rewrite E, res_bind_ret. exists low, n'. split; [done|]. split; [done|].
  split; [by rewrite Hc', Hls|]. split; [lia|]. split; [lia|]. split; [|done]. intros i Hi. apply Hh. lia.
Qed.

(** The slots of a node cut in three by a range of its keys. *)
Lemma cut_filter n (Q : Z → Prop) `{!∀ k, Decision (Q k)} low pos :
  -1 ≤ low → low < pos → pos ≤ data_capacity_ n →
  (∀ i, 0 ≤ i ≤ low → ¬ Q (key_at (slots_ n) i)) → (∀ i, low < i < pos → Q (key_at (slots_ n) i)) →
  (∀ i, pos ≤ i < data_capacity_ n → ¬ Q (key_at (slots_ n) i)) →
  between n 0 (low + 1) ++ suffix n pos = filter (λ kp, ¬ Q kp.1) (contents n) ∧
  between n (low + 1) pos = filter (λ kp, Q kp.1) (contents n).
Proof.
  intros Hl Hlp Hp H1 H2 H3. unfold between, suffix, contents.
  rewrite (listing_app _ _ _ 0 (low + 1) (data_capacity_ n)), (listing_app _ _ _ (low + 1) pos (data_capacity_ n)) by lia.
  assert (∀ a b, (∀ i, a ≤ i < b → Q (key_at (slots_ n) i)) →
    Forall (λ kp, Q kp.1) (listing (key_at (slots_ n)) (pay_at (slots_ n)) (ex (bitmap_ (slots_ n))) a b)) as Hf.
  { intros a b Hab. apply list.Forall_forall. intros kp (i & Hi & _ & ->)%elem_of_listing. by apply Hab. }
  assert (∀ a b, (∀ i, a ≤ i < b → ¬ Q (key_at (slots_ n) i)) →
    Forall (λ kp, ¬ Q kp.1) (listing (key_at (slots_ n)) (pay_at (slots_ n)) (ex (bitmap_ (slots_ n))) a b)) as Hnf.
  { intros a b Hab. apply list.Forall_forall. intros kp (i & Hi & _ & ->)%elem_of_listing. by apply Hab. }
  pose proof (Hnf 0 (low + 1) ltac:(intros; apply H1; lia)) as F1.
  pose proof (Hf (low + 1) pos ltac:(intros; apply H2; lia)) as F2. pose proof (Hnf pos _ H3) as F3.
  rewrite !filter_app. split.
  - rewrite (filter_all _ _ F1), (filter_all _ _ F3), (filter_none _ (listing _ _ _ (low + 1) pos)); [done|].
    eapply list.Forall_impl; [exact F2|]. cbn. tauto.
  - rewrite (filter_none _ _ F1), (filter_none _ _ F3), (filter_all _ _ F2). by rewrite app_nil_r.
Qed.

(** [erase]: every pair with the key. *)
Lemma erase_spec n key :
  node_wf n → 0 ≤ key < kEndSentinel_ → num_keys_ n ≤ 2 ^ 26 →
  ∃ n', erase junk key n = Ret (Z.of_nat (length (filter (λ kp, kp.1 = key) (contents n))), n') ∧ node_wf n' ∧
    contents n' = filter (λ kp, kp.1 ≠ key) (contents n).
Proof.
  intros Hwf Hkey Hn. pose proof Hwf as [Hok Hthr]. pose proof (ok_capacity n Hok) as Hcap. unfold erase, upper_bound.
  destruct (same_node_ok n (add_lookup n) (same_node_lookup n) Hok) as [Hok1 _].
  destruct (search_upper (predict_position key (add_lookup n)) key (add_lookup n) Hok1) as (pos & n1 & -> & Hsame & Hup);
    [apply predict_position_range; cbn; lia|]. rewrite res_bind_ret.
  assert (same_node n n1) as [c ->] by (eapply same_node_trans; [apply same_node_lookup|done]).
  change (is_upper n key pos) in Hup. pose proof Hup as (Hp & Hlo & Hhi). destruct (node_ok_self n Hok) as [Hv Ha].
  assert (node_wf (with_counters c n)) as Hwf1.
  { split; [apply (same_node_ok n); [by eexists|done]|done]. }
  assert (∀ i, pos ≤ i < data_capacity_ n → key_at (slots_ n) i ≠ key) as Hout by (intros i Hi; specialize (Hhi i Hi); lia).
  assert ((∀ i, 0 ≤ i < pos → key_at (slots_ n) i ≠ key) → ∃ n', Ret (0, with_counters c n) =
    Ret (Z.of_nat (length (filter (λ kp, kp.1 = key) (contents n))), n') ∧ node_wf n' ∧
    contents n' = filter (λ kp, kp.1 ≠ key) (contents n)) as Habsent.
  { intros Hne. exists (with_counters c n).
    assert (Forall (λ kp, kp.1 ≠ key) (contents n)) as Hf.
    { apply list.Forall_forall. intros kp (i & Hi & _ & ->)%elem_of_listing. cbn.
      destruct (decide (i < pos)); [apply Hne; lia|apply Hout; lia]. }
    rewrite (filter_none _ _ Hf), (filter_all _ _ Hf). done. }
  case_bool_decide as Hz; [apply Habsent; lia|]. cbn [slots_ with_counters].
  rewrite (rd_key_view _ _ _ _ _ (pos - 1) Hv), res_bind_ret by lia. case_bool_decide as Heq; cbn [negb].
  - destruct (erase_below_spec (λ k, bool_decide (k = key)) (with_counters c n) pos Hwf1 Hn Hp)
      as (low & n' & -> & Hwf' & Hc' & Hlow & Hlt & Hh & Hl).
    exists n'. change (contents n' = between n 0 (low + 1) ++ suffix n pos) in Hc'.
    change (between (with_counters c n)) with (between n).
    change (slots_ (with_counters c n)) with (slots_ n) in *.
    destruct (cut_filter n (λ k, k = key) low pos) as [H1 H2]; [lia|done|lia| |
      intros i Hi; by apply (bool_decide_eq_true_1 (key_at (slots_ n) i = key)), Hh|exact Hout|].
    + intros i Hi Hik. specialize (Hl ltac:(lia)). apply bool_decide_eq_false in Hl.
      pose proof (keys_monotone _ _ _ _ i low Ha ltac:(lia) ltac:(lia) ltac:(lia)).
      pose proof (Hlo low ltac:(lia)). lia.
    + split; [by rewrite H2|]. split; [done|]. by rewrite Hc', H1.
  - apply Habsent. intros i Hi Hik.
    pose proof (keys_monotone _ _ _ _ i (pos - 1) Ha ltac:(lia) ltac:(lia) ltac:(lia)).
    pose proof (Hlo (pos - 1) ltac:(lia)). lia.
Qed.
(** [erase_one_at]: the pair of one key slot. *)
Lemma erase_one_at_spec n pos :
  node_wf n → num_keys_ n ≤ 2 ^ 26 → 0 ≤ pos < data_capacity_ n → ex (bitmap_ (slots_ n)) pos = true →
  ∃ n', erase_one_at junk pos n = Ret n' ∧ node_wf n' ∧ contents n' = between n 0 pos ++ suffix n (pos + 1).
Proof.
  intros Hwf Hn Hp He. pose proof Hwf as [Hok Hthr]. destruct (node_ok_self n Hok) as [Hv [Hg Hk]].
  unfold erase_one_at.
  assert ((if bool_decide (pos = data_capacity_ n - 1) then Ret kEndSentinel_ else rd (key_slots_ (slots_ n)) (pos + 1)) =
    Ret (if decide (pos + 1 < data_capacity_ n) then key_at (slots_ n) (pos + 1) else kEndSentinel_)) as ->.
  { case_bool_decide; [by rewrite decide_False by lia|]. rewrite decide_True by lia.
    apply (rd_key_view _ _ _ _ _ (pos + 1) Hv). lia. }
  rewrite res_bind_ret. set (next := if decide _ then _ else _).
  destruct (set_key_view _ _ _ _ _ pos next Hv Hp) as (t1 & -> & Hv1). rewrite res_bind_ret.
  destruct (unset_bit_view _ _ _ _ _ pos Hv1 Hp) as (t2 & -> & Hv2). rewrite res_bind_ret.
  destruct (fill_back_view _ next (Z.to_nat pos) t2 _ _ _ (pos - 1) Hv2) as (t & low & -> & Hlow & Hgap & Hel & Hv');
    [lia|lia|]. rewrite res_bind_ret.
  assert (∀ i, low < i < pos → ex (bitmap_ (slots_ n)) i = false) as Hgap'.
  { intros i Hi. specialize (Hgap i ltac:(lia)). by rewrite upd_ne in Hgap by lia. }
  assert (view (data_capacity_ n) t (λ j, if decide (low < j < pos + 1) then next else key_at (slots_ n) j)
    (pay_at (slots_ n)) (λ j, if decide (low < j < pos + 1) then false else ex (bitmap_ (slots_ n)) j)) as Hv3.
  { apply (view_ext _ _ _ _ _ _ _ _ Hv'). intros j Hj. unfold upd.
    split; [repeat case_decide; lia || done|]. split; [done|].
    repeat case_decide; try (lia || done). apply Hgap'. lia. }
  destruct (erased_ok (data_capacity_ n) _ (pay_at (slots_ n)) _ low (pos + 1) next ltac:(lia) ltac:(lia) Hg Hk eq_refl)
    as [Ha Hls]; [intros Hl0 _; specialize (Hel Hl0); by rewrite upd_ne in Hel by lia|].
  assert (between n 0 (low + 1) = between n 0 pos) as Hpre.
  { unfold between. rewrite (listing_app _ _ _ 0 (low + 1) pos) by lia.
    by rewrite (listing_gaps _ _ _ (low + 1) pos), app_nil_r by (intros i Hi; apply Hgap'; lia). }
  assert (num_keys_ n = Z.of_nat (length (between n 0 pos ++ suffix n (pos + 1))) + 1) as Hlen.
  { rewrite (ok_count n Hok). unfold contents, between, suffix. rewrite (listing_app _ _ _ 0 pos (data_capacity_ n)) by lia.
    rewrite (listing_cons _ _ _ pos (data_capacity_ n)), He, !length_app by lia. cbn [length]. lia. }
  unfold between, suffix in *. rewrite Hpre in Hls.
  destruct (erased_node n t _ _ _ (num_keys_ n - 1) Hwf Hn Hv3 Ha) as (n' & -> & Hwf' & Hc'); [rewrite Hls; lia|lia|].
  exists n'. split; [done|]. split; [done|]. by rewrite Hc', Hls.
Qed.

(** [erase_one]: the first pair with the key.  The search for it must not ask
    for the slot behind a bitmap that has no room left. *)
Lemma erase_one_spec n key :
  node_wf n → 0 ≤ key < kEndSentinel_ → num_keys_ n ≤ 2 ^ 26 →
  data_capacity_ n mod 64 ≠ 0 ∨ (∃ k, k ∈ (contents n).*1 ∧ key ≤ k) →
  ∃ r n', erase_one junk key n = Ret (r, n') ∧ node_wf n' ∧
    ((r = 0 ∧ key ∉ (contents n).*1 ∧ contents n' = contents n) ∨
     (r = 1 ∧ ∃ l1 v l2, contents n = l1 ++ (key, v) :: l2 ∧ key ∉ l1.*1 ∧ contents n' = l1 ++ l2)).
Proof.
  intros Hwf Hkey Hn Hroom. pose proof Hwf as [Hok Hthr]. unfold erase_one.
  destruct (find_lower_spec n key Hok Hroom) as (pos & n1 & -> & [c ->] & Hp & Hpos & Hpre & Hsuf).
  rewrite res_bind_ret. cbn [data_capacity_ slots_ with_counters].
  assert (contents n = between n 0 pos ++ suffix n pos) as Hsplit by (apply listing_app; lia).
  assert (node_wf (with_counters c n)) as Hwf1.
  { split; [apply (same_node_ok n); [by eexists|done]|done]. }
  assert (key ∉ (between n 0 pos).*1) as Hnpre.
  { rewrite Hpre. intros (kp & -> & [? _]%list_elem_of_filter)%list_elem_of_fmap. lia. }
  case_bool_decide as Hc.
  { exists 0, (with_counters c n). split; [done|]. split; [done|]. left. split; [done|]. split; [|done].
    rewrite Hsplit, fmap_app. unfold suffix. rewrite (listing_nil _ _ _ pos) by lia. by rewrite app_nil_r. }
  destruct (Hpos ltac:(lia)) as [Hep Hkp]. destruct (node_ok_self n Hok) as [Hv Ha].
  rewrite (rd_key_view _ _ _ _ _ pos Hv), res_bind_ret by lia. case_bool_decide as Heq; cbn [negb].
  - destruct (erase_one_at_spec (with_counters c n) pos Hwf1 Hn ltac:(cbn; lia) Hep) as (n' & -> & Hwf' & Hc').
    rewrite res_bind_ret. exists 1, n'. split; [done|]. split; [done|]. right. split; [done|].
    eexists (between n 0 pos), _, (suffix n (pos + 1)). split; [|by split].
    rewrite Hsplit. unfold suffix. rewrite (listing_cons _ _ _ pos), Hep, Heq by lia. done.
  - exists 0, (with_counters c n). split; [done|]. split; [done|]. left. split; [done|]. split; [|done].
    rewrite Hsplit, fmap_app. intros [?|(kp & Ek & (i & Hi & _ & ->)%elem_of_listing)%list_elem_of_fmap]%elem_of_app; [done|].
    cbn in Ek. pose proof (keys_monotone _ _ _ _ pos i Ha ltac:(lia) ltac:(lia) ltac:(lia)). lia.
Qed.

(** [erase_range]: every pair with a key in the range. *)
Lemma erase_range_spec n start_key end_key (inclusive : bool) :
  node_wf n → num_keys_ n ≤ 2 ^ 26 →
  let Q k := start_key ≤ k ∧ (if inclusive then k ≤ end_key else k < end_key) in
  ∀ HQ : (∀ k, Decision (Q k)),
  ∃ n', erase_range junk start_key end_key inclusive n =
      Ret (Z.of_nat (length (filter (λ kp, Q kp.1) (contents n))), n') ∧ node_wf n' ∧
    contents n' = filter (λ kp, ¬ Q kp.1) (contents n).
Proof.
  intros Hwf Hn Q HQ. pose proof Hwf as [Hok Hthr]. pose proof (ok_capacity n Hok) as Hcap.
  destruct (node_ok_self n Hok) as [Hv Ha].
  destruct (same_node_ok n (add_lookup n) (same_node_lookup n) Hok) as [Hok1 _].
  assert (0 ≤ predict_position end_key (add_lookup n) < data_capacity_ (add_lookup n)) as Hpred
    by (apply predict_position_range; cbn; lia).
  assert (∃ pos c, (if inclusive then upper_bound end_key n else lower_bound end_key n) = Ret (pos, with_counters c n) ∧
    0 ≤ pos ≤ data_capacity_ n ∧
    (∀ i, 0 ≤ i < pos → if inclusive then key_at (slots_ n) i ≤ end_key else key_at (slots_ n) i < end_key) ∧
    (∀ i, pos ≤ i < data_capacity_ n → ¬ Q (key_at (slots_ n) i))) as (pos & c & E & Hp & Hlo & Hhi).
  { destruct inclusive.
    - destruct (search_upper _ end_key _ Hok1 Hpred) as (pos & n1 & E & Hsame & Hp & Hlo & Hhi).
      assert (same_node n n1) as [c ->] by (eapply same_node_trans; [apply same_node_lookup|done]).
      exists pos, c. split; [exact E|]. split; [done|]. split; [done|]. intros i Hi [_ HQ2]. specialize (Hhi i Hi).
      cbn in *. lia.
    - destruct (search_lower _ end_key _ Hok1 Hpred) as (pos & n1 & E & Hsame & Hp & Hlo & Hhi).
      assert (same_node n n1) as [c ->] by (eapply same_node_trans; [apply same_node_lookup|done]).
      exists pos, c. split; [exact E|]. split; [done|]. split; [done|]. intros i Hi [_ HQ2]. specialize (Hhi i Hi).
      cbn in *. lia. }
  unfold erase_range. rewrite E, res_bind_ret. assert (node_wf (with_counters c n)) as Hwf1.
  { split; [apply (same_node_ok n); [by eexists|done]|done]. }
  case_bool_decide as Hz.
  - subst pos. exists (with_counters c n). assert (Forall (λ kp, ¬ Q kp.1) (contents n)) as Hf.
    { apply list.Forall_forall. intros kp (i & Hi & _ & ->)%elem_of_listing. apply Hhi. lia. }
    rewrite (filter_none _ _ Hf), (filter_all _ _ Hf). done.
  - destruct (erase_below_spec (λ k, bool_decide (start_key ≤ k)) (with_counters c n) pos Hwf1 Hn Hp)
      as (low & n' & -> & Hwf' & Hc' & Hlow & Hlt & Hh & Hl).
    exists n'. change (contents n' = between n 0 (low + 1) ++ suffix n pos) in Hc'.
    change (between (with_counters c n)) with (between n).
    change (slots_ (with_counters c n)) with (slots_ n) in *.
    destruct (cut_filter n Q low pos) as [H1 H2]; [lia|done|lia| | |exact Hhi|].
    + intros i Hi [HQ1 _]. specialize (Hl ltac:(lia)). apply bool_decide_eq_false in Hl.
      pose proof (keys_monotone _ _ _ _ i low Ha ltac:(lia) ltac:(lia) ltac:(lia)). lia.
    + intros i Hi. split; [|apply Hlo; lia]. by apply (bool_decide_eq_true_1 (start_key ≤ key_at (slots_ n) i)), Hh.
    + split; [by rewrite H2|]. split; [done|]. by rewrite Hc', H1.
Qed.
End erase.
