(* ===== verification/AlexThm.v ===== *)
(** * ALEX data nodes: what a node promises

    A node is a sorted list of pairs: loading, lookups, inserts with their
    expansions and erases with their contractions do to [contents] what the
    functions of this file say, whatever the model predicts. *)
From S2P Require Import Prelude Ieee AlexBase AlexNode AlexOps AlexInv AlexSearch AlexLookup AlexBuild AlexGap AlexUpdate AlexErase.

(** ** The structure check *)
Section validate.
Implicit Types (n : AlexDataNode) (t : slots) (cap i : Z).

Lemma count_loop n :
  node_ok n →
  for_up 0 (bitmap_size_ n) (λ i c, let* w := rd (bitmap_ (slots_ n)) i in Ret (c + count_ones w)) 0 =
    Ret (num_keys_ n).
Proof.
  intros Hok. pose proof Hok as [Hcap Hb Hs _ _ Hc]. set (K := key_at (slots_ n)). set (P := pay_at (slots_ n)).
  set (E := ex (bitmap_ (slots_ n))).
  assert (0 ≤ words_for (data_capacity_ n)) by (apply Z.div_pos; lia).
  destruct (for_up_ind (λ i c, c = Z.of_nat (length (listing K P E 0 (i * 64))))
    (λ i c, let* w := rd (bitmap_ (slots_ n)) i in Ret (c + count_ones w)) 0 (bitmap_size_ n) 0) as (c & -> & ->).
  - lia.
  - by rewrite listing_nil.
  - intros i c Hi ->. destruct (bitmap_rd _ _ i Hs) as [-> _]; [lia|]. rewrite res_bind_ret.
    eexists. split; [done|]. unfold count_ones.
    rewrite (popcnt_listing (data_capacity_ n) (slots_ n) K P i Hs) by lia. fold E.
    rewrite (listing_app K P E 0 (i * 64) ((i + 1) * 64)), length_app by lia. lia.
  - f_equal. rewrite Hc, Hb. unfold contents. fold K P E. do 2 f_equal.
    assert (data_capacity_ n ≤ words_for (data_capacity_ n) * 64) as Hle
      by (unfold words_for; Z.to_euclidean_division_equations; lia).
    rewrite (listing_app K P E 0 (data_capacity_ n)), (listing_gaps K P E (data_capacity_ n)), app_nil_r; [done| |lia|done].
    intros i Hi. apply (shape_tail _ _ Hs); [lia|]. Z.to_euclidean_division_equations. lia.
Qed.

Lemma validate_loop_ok n : node_ok n → ∀ k i, 0 ≤ i → i + Z.of_nat k = data_capacity_ n - 1 →
  validate_loop k (data_capacity_ n) (slots_ n) i = Ret true.
Proof.
  intros Hok. destruct (node_ok_self n Hok) as [Hv Ha].
  induction k as [|k IH]; intros i Hi Hk; cbn [validate_loop]; [done|]. rewrite Nat2Z.inj_succ in Hk.
  rewrite (rd_key_view _ _ _ _ _ i Hv), res_bind_ret by lia.
  rewrite (rd_key_view _ _ _ _ _ (i + 1) Hv), res_bind_ret by lia.
  pose proof (keys_monotone _ _ _ _ i (i + 1) Ha ltac:(lia) ltac:(lia) ltac:(lia)).
  rewrite bool_decide_eq_false_2 by lia. case_bool_decide as Hlt; [|apply IH; lia].
  rewrite (check_exists_view _ _ _ _ _ i Hv), res_bind_ret by lia.
  destruct (ex _ i) eqn:Ei; [apply IH; lia|]. pose proof (proj1 Ha i ltac:(lia) Ei) as Hg.
  rewrite decide_True in Hg by lia. lia.
Qed.
End validate.

(** ** A node as a sorted list *)
Inductive op : Type := OpInsert (key payload : Z) | OpErase (key : Z) | OpFind (key : Z).
Inductive result : Type := Flag (f : Z) | Erased (c : Z) | Found (p : option Z).

Section list_spec.
Implicit Types (l : list (Z * Z)) (o : op).

Definition op_key o : Z := match o with OpInsert k _ => k | OpErase k => k | OpFind k => k end.

(** What an operation may answer and leave.  An insert is refused with a flag
    from 1 to 3 when the node should be split. *)
Definition list_step (allow_duplicates : bool) l o (r : result) l' : Prop :=
  match o, r with
  | OpInsert k p, Flag f =>
      (1 ≤ f ≤ 3 ∧ l' = l) ∨
      (f = -1 ∧ allow_duplicates = false ∧ k ∈ l.*1 ∧ l' = l) ∨
      (f = 0 ∧ (allow_duplicates = false → k ∉ l.*1) ∧ l' = inserted l k p)
  | OpErase k, Erased c => c = Z.of_nat (length (filter (λ kp, kp.1 = k) l)) ∧ l' = filter (λ kp, kp.1 ≠ k) l
  | OpFind k, Found None => k ∉ l.*1 ∧ l' = l
  | OpFind k, Found (Some p) => (∃ l1 l2, l = l1 ++ (k, p) :: l2 ∧ k ∉ l2.*1) ∧ l' = l
  | _, _ => False
  end.

Inductive list_steps (allow_duplicates : bool) : list (Z * Z) → list op → list result → list (Z * Z) → Prop :=
| list_nil l : list_steps allow_duplicates l [] [] l
| list_cons l o os r rs l1 l2 :
    list_step allow_duplicates l o r l1 → list_steps allow_duplicates l1 os rs l2 →
    list_steps allow_duplicates l (o :: os) (r :: rs) l2.
End list_spec.

Section run.
Context (junk : Z → Z) (allow_duplicates : bool).
Implicit Types (n : AlexDataNode) (o : op).

(** [find_key], and the payload at the slot found. *)
Definition find_payload key n : res (option Z * AlexDataNode) :=
  let* (pos, n) := find_key key n in
  if bool_decide (pos < 0) then Ret (None, n)
  else let* p := rd (payload_slots_ (slots_ n)) pos in Ret (Some p, n).

Definition run_op o n : res (result * AlexDataNode) :=
  match o with
  | OpInsert k p => let* (f, _, n) := insert junk allow_duplicates k p n in Ret (Flag f, n)
  | OpErase k => let* (c, n) := erase junk k n in Ret (Erased c, n)
  | OpFind k => let* (p, n) := find_payload k n in Ret (Found p, n)
  end.

Fixpoint run_ops (os : list op) n : res (list result * AlexDataNode) :=
  match os with
  | [] => Ret ([], n)
  | o :: os => let* (r, n) := run_op o n in let* (rs, n) := run_ops os n in Ret (r :: rs, n)
  end.

Lemma refuse_flag n f : refuse n = Some f → 1 ≤ f ≤ 3.
Proof. unfold refuse. intros H. repeat case_match; simplify_eq; lia. Qed.

Lemma find_payload_spec n key :
  node_ok n → 0 ≤ key < kEndSentinel_ →
  ∃ p n', find_payload key n = Ret (p, n') ∧ same_node n n' ∧
    list_step allow_duplicates (contents n) (OpFind key) (Found p) (contents n).
Proof.
  intros Hok Hk. destruct (find_key_spec n key Hok Hk) as (pos & n' & E & Hsame & H). unfold find_payload.
  rewrite E, res_bind_ret. destruct H as [[-> Hno]|(Hp & He & Hkey & Hsuf)].
  - rewrite bool_decide_eq_true_2 by done. exists None, n'. by split_and!.
  - rewrite bool_decide_eq_false_2 by lia. assert (slots_ n' = slots_ n) as -> by (by destruct Hsame as [c ->]).
    destruct (node_ok_self n Hok) as [Hv _]. rewrite (rd_payload_view _ _ _ _ _ pos Hv Hp), res_bind_ret.
    eexists _, n'. split; [done|]. split; [done|]. split; [|done].
    exists (between n 0 pos), (suffix n (pos + 1)). split.
    + unfold contents, between, suffix. rewrite (listing_app _ _ _ 0 pos (data_capacity_ n)) by lia.
      by rewrite (listing_cons _ _ _ pos (data_capacity_ n)), He, Hkey by lia.
    + rewrite Hsuf. intros (kp & -> & [? _]%list_elem_of_filter)%list_elem_of_fmap. lia.
Qed.

Lemma run_op_spec o n :
  node_wf n → 0 ≤ op_key o < kEndSentinel_ → num_keys_ n ≤ 2 ^ 26 →
  ∃ r n', run_op o n = Ret (r, n') ∧ node_wf n' ∧ list_step allow_duplicates (contents n) o r (contents n') ∧
    num_keys_ n' ≤ num_keys_ n + 1.
Proof.
  intros Hwf Hk Hn. pose proof Hwf as [Hok Hthr]. pose proof (ok_count n Hok) as Hc.
  assert (∀ n' d, node_wf n' → Z.of_nat (length (contents n')) ≤ Z.of_nat (length (contents n)) + d →
    num_keys_ n' ≤ num_keys_ n + d) as Hcount.
  { intros n' d [Hok' _] Hd. rewrite (ok_count n' Hok'), Hc. lia. }
  destruct o as [k p|k|k]; cbn [run_op op_key] in *.
  - destruct (refuse n) as [f|] eqn:Er.
    + unfold insert. rewrite Er, res_bind_ret. exists (Flag f), n. split; [done|]. split; [done|].
      split; [left; split; [by eapply refuse_flag|done]|lia].
    + destruct (insert_spec junk allow_duplicates n k p Hwf Hk Hn Er) as (f & pos & n' & -> & Hwf' & H).
      rewrite res_bind_ret. exists (Flag f), n'. split; [done|]. split; [done|].
      destruct (negb allow_duplicates && _) eqn:Ed.
      * destruct H as [-> Hc']. apply andb_true_iff in Ed as [Ed%negb_true_iff Hin%bool_decide_eq_true].
        split; [right; left; by rewrite Hc'|]. apply Hcount; [done|]. rewrite Hc'. lia.
      * destruct H as (-> & Hc' & _). split.
        -- right; right. split; [done|]. split; [|by rewrite Hc']. intros ->. cbn in Ed.
           by apply bool_decide_eq_false in Ed.
        -- apply Hcount; [done|]. rewrite Hc', inserted_length. lia.
  - destruct (erase_spec junk n k Hwf Hk Hn) as (n' & -> & Hwf' & Hc'). rewrite res_bind_ret.
    exists (Erased (Z.of_nat (length (filter (λ kp, kp.1 = k) (contents n))))), n'.
    split; [done|]. split; [done|]. split; [split; [done|by rewrite Hc']|].
    apply Hcount; [done|]. rewrite Hc'. pose proof (length_filter (λ kp : Z * Z, kp.1 ≠ k) (contents n)). lia.
  - destruct (find_payload_spec n k Hok Hk) as (p & n' & -> & Hsame & Hstep). rewrite res_bind_ret.
    destruct (same_node_ok n n' Hsame Hok) as [Hok' Hc']. exists (Found p), n'. split; [done|].
    split; [split; [done|by destruct Hsame as [c ->]]|]. rewrite Hc'. split; [done|].
    rewrite (ok_count n' Hok'), Hc', Hc. lia.
Qed.

Lemma run_ops_spec os : ∀ n,
  node_wf n → Forall (λ o, 0 ≤ op_key o < kEndSentinel_) os → num_keys_ n + Z.of_nat (length os) ≤ 2 ^ 26 →
  ∃ rs n', run_ops os n = Ret (rs, n') ∧ node_wf n' ∧ list_steps allow_duplicates (contents n) os rs (contents n').
Proof.
  induction os as [|o os IH]; intros n Hwf Hks Hn; cbn [run_ops length] in *.
  - exists [], n. split; [done|]. split; [done|constructor].
  - apply Forall_cons in Hks as [Hk Hks]. rewrite Nat2Z.inj_succ in Hn.
    destruct (run_op_spec o n Hwf Hk ltac:(lia)) as (r & n1 & -> & Hwf1 & Hstep & Hn1). rewrite res_bind_ret.
    destruct (IH n1 Hwf1 Hks ltac:(lia)) as (rs & n2 & -> & Hwf2 & Hsteps). rewrite res_bind_ret.
    exists (r :: rs), n2. split; [done|]. split; [done|]. by econstructor.
Qed.
End run.

(** ** The properties *)
(** C3: a data node loaded from sorted pairs, with any model, is a sorted list:
    every run of inserts (expansions and refusals included), erases
    (contractions included) and lookups terminates without fault and answers
    what the list does. *)
Theorem data_node_refines_list junk allow_duplicates vs pretrained train max_slots os :
  keys_ok vs → Z.of_nat (length vs + length os) ≤ 2 ^ 26 →
  Forall (λ o, 0 ≤ op_key o < kEndSentinel_) os →
  ∃ n rs n', bulk_load junk vs (Z.of_nat (length vs)) pretrained train (node_new max_slots) = Ret n ∧
    run_ops junk allow_duplicates os n = Ret (rs, n') ∧ node_wf n' ∧
    list_steps allow_duplicates vs os rs (contents n').
Proof.
  intros Hk Hlen Hos. pose proof (capacity_for_bound (Z.of_nat (length vs)) kInitDensity_ ltac:(lia) init_density_within).
  destruct (bulk_load_spec junk vs pretrained train (node_new max_slots) Hk) as (n & En & Hwf & Hc & _); [done|].
  destruct (run_ops_spec junk allow_duplicates os n Hwf Hos) as (rs & n' & Er & Hwf' & Hs).
  { rewrite (ok_count n (proj1 Hwf)), Hc. lia. }
  exists n, rs, n'. rewrite Hc in Hs. by split_and!.
Qed.

(** C21: At any slot of a well-formed node, and behind the last one as [insert]
    may call it: [closest_gap], which reads whole words with [lzcnt] and [tzcnt]
    and skips blocks, finds the gap nearest to that slot, or to the last one
    from behind it, the left one on a tie, -1 when there is none. At a gap that
    is the slot itself; at an occupied slot, the only ones [insert] calls it for,
    the slot-by-slot version finds the same gap. *)
Theorem closest_gap_equivalent n pos :
  node_ok n → 0 ≤ pos ≤ data_capacity_ n →
  let slot := Z.min pos (data_capacity_ n - 1) in
  ∃ g, closest_gap pos n = Ret g ∧ nearest (ex (bitmap_ (slots_ n))) (data_capacity_ n) slot g ∧
    (ex (bitmap_ (slots_ n)) slot = false → g = slot) ∧
    (ex (bitmap_ (slots_ n)) slot = true → closest_gap_slow pos n = Ret g).
Proof.
  intros Hok Hp slot. pose proof (node_ok_iterable n Hok) as Hit. pose proof (ok_capacity n Hok) as Hcap.
  destruct (closest_gap_spec n pos Hit) as (g & Eg & Hg); [lia|lia|]. fold slot in Hg.
  exists g. split; [done|]. split; [done|]. split; intros He.
  - apply (nearest_unique _ _ _ _ _ Hg). right. split; [unfold slot; lia|]. split; [done|]. lia.
  - destruct (decide (pos = data_capacity_ n)) as [->|Hne].
    + destruct (closest_gap_slow_end n Hit) as (g' & Eg' & Hg'); [lia|].
      unfold slot in Hg. rewrite Z.min_r in Hg by lia. by rewrite Eg', (nearest_unique _ _ _ _ _ Hg Hg').
    + unfold slot in Hg, He. rewrite Z.min_l in Hg, He by lia.
      destruct (closest_gap_slow_spec n pos Hit) as (g' & Eg' & Hg'); [lia|done|]. by rewrite Eg', (nearest_unique _ _ _ _ _ Hg Hg').
Qed.

(** C22: every node that the operations reach passes the code's own structure
    check, unless its cost is negative or not a number. *)
Theorem validate_structure_holds junk allow_duplicates n os rs n' :
  node_wf n → Forall (λ o, 0 ≤ op_key o < kEndSentinel_) os → num_keys_ n + Z.of_nat (length os) ≤ 2 ^ 26 →
  run_ops junk allow_duplicates os n = Ret (rs, n') →
  d_le (d_of_Z 0) (cost_ n') = true → validate_structure n' = Ret true.
Proof.
  intros Hwf Hos Hn Er Hcost. destruct (run_ops_spec junk allow_duplicates os n Hwf Hos Hn) as (rs' & n'' & E & [Hok _] & _).
  rewrite Er in E. injection E as <- <-. pose proof (ok_capacity n' Hok) as Hcap.
  destruct (node_ok_self n' Hok) as [Hv [Hg Hk]]. unfold validate_structure.
  assert (d_lt (cost_ n') (d_of_Z 0) || (match cost_ n' with S754_nan => true | _ => false end) = false) as ->.
  { revert Hcost. unfold d_le, d_lt, SFleb, SFltb. by destruct (cost_ n') as [[]|[]| |[] m e]. }
  rewrite (validate_loop_ok n' Hok) by lia. rewrite res_bind_ret. cbn [negb].
  rewrite (rd_key_view _ _ _ _ _ (data_capacity_ n' - 1) Hv), res_bind_ret by lia.
  rewrite (check_exists_view _ _ _ _ _ (data_capacity_ n' - 1) Hv), res_bind_ret by lia.
  rewrite (count_loop n' Hok), res_bind_ret, (bool_decide_eq_true_2 (num_keys_ n' = num_keys_ n')) by done.
  destruct (ex _ (data_capacity_ n' - 1)) eqn:El.
  - pose proof (listing_key_range _ _ _ _ (data_capacity_ n' - 1) Hk ltac:(lia) El).
    rewrite bool_decide_eq_false_2 by lia. done.
  - pose proof (Hg (data_capacity_ n' - 1) ltac:(lia) El) as Hs. rewrite decide_False in Hs by lia.
    rewrite bool_decide_eq_true_2 by done. done.
Qed.

(** C25: [erase], [erase_one] and [erase_range] remove all the pairs of a key,
    its first pair and the pairs of a range, return how many, and keep the node
    well-formed through the contraction. *)
Theorem data_node_erase_correct junk n key start_key end_key :
  node_wf n → 0 ≤ key < kEndSentinel_ → num_keys_ n ≤ 2 ^ 26 →
  (∃ n', erase junk key n = Ret (Z.of_nat (length (filter (λ kp, kp.1 = key) (contents n))), n') ∧ node_wf n' ∧
     contents n' = filter (λ kp, kp.1 ≠ key) (contents n)) ∧
  (key ∈ (contents n).*1 → ∃ n' l1 v l2, erase_one junk key n = Ret (1, n') ∧ node_wf n' ∧
     contents n = l1 ++ (key, v) :: l2 ∧ key ∉ l1.*1 ∧ contents n' = l1 ++ l2) ∧
  (∃ n', erase_range junk start_key end_key false n =
       Ret (Z.of_nat (length (filter (λ kp, start_key ≤ kp.1 ∧ kp.1 < end_key) (contents n))), n') ∧ node_wf n' ∧
     contents n' = filter (λ kp, ¬ (start_key ≤ kp.1 ∧ kp.1 < end_key)) (contents n)).
Proof.
  intros Hwf Hk Hn. split; [by apply erase_spec|]. split.
  - intros Hin. destruct (erase_one_spec junk n key Hwf Hk Hn) as (r & n' & E & Hwf' & [(_ & Hno & _)|(-> & H)]);
      [right; by exists key|done|]. destruct H as (l1 & v & l2 & Hc & Hl & Hc'). by exists n', l1, v, l2.
  - exact (erase_range_spec junk n start_key end_key false Hwf Hn (λ k, decide (start_key ≤ k ∧ k < end_key))).
Qed.

(** C27: [resize] and [bulk_load_from_existing] rebuild the pairs of a node
    (those between two slots) into new arrays, with any density of the code, any
    retraining and whatever the fresh arrays contain; and the new arrays take
    another pair before they have to grow. *)
Theorem data_node_rebuild_correct junk n n0 left right retrain keep_left keep_right :
  node_ok n → num_keys_ n ≠ 0 → num_keys_ n ≤ 2 ^ 26 → 0 ≤ left < data_capacity_ n → right ≤ data_capacity_ n →
  (∃ n', resize junk kMinDensity_ retrain keep_left keep_right n = Ret n' ∧ node_wf n' ∧ contents n' = contents n ∧ roomy n') ∧
  (∃ n', resize junk kMaxDensity_ retrain keep_left keep_right n = Ret n' ∧ node_wf n' ∧ contents n' = contents n ∧ roomy n') ∧
  (∃ n', bulk_load_from_existing junk n left right keep_left keep_right None (-1) n0 = Ret n' ∧ node_wf n' ∧
     contents n' = between n left right ∧ roomy n').
Proof.
  intros Hok Hne Hn Hl Hr. pose proof (ok_count n Hok) as Hc.
  split; [|split].
  - destruct (resize_spec junk kMinDensity_ retrain keep_left keep_right n Hok Hne) as (n' & ? & ? & ? & _ & _ & _ & ?);
      [apply capacity_for_bound; [lia|apply min_density_within]|by exists n'].
  - destruct (resize_spec junk kMaxDensity_ retrain keep_left keep_right n Hok Hne) as (n' & ? & ? & ? & _ & _ & _ & ?);
      [apply capacity_for_bound; [lia|apply density_within]|by exists n'].
  - destruct (bulk_load_from_existing_spec junk n left right keep_left keep_right None (-1) n0) as (n' & ? & ? & ? & ? & _);
      [done..|apply capacity_for_bound; [|apply min_density_within]|by exists n'].
    unfold contents in Hc. fold (between n 0 (data_capacity_ n)) in Hc.
    destruct (decide (left ≤ right)); [|unfold between; rewrite listing_nil by lia; cbn; lia].
    unfold between in *. rewrite (listing_app _ _ _ 0 left), (listing_app _ _ _ left right), !length_app in Hc by lia. lia.
Qed.

(** when the capacity is a multiple of 64 and the last slot holds a key, the
    search for the first key at least a greater one asks the bitmap for the
    word behind its end; [erase_one] does so too. *)
Theorem find_lower_reads_outside junk n key :
  node_ok n → data_capacity_ n mod 64 = 0 → ex (bitmap_ (slots_ n)) (data_capacity_ n - 1) = true →
  key_at (slots_ n) (data_capacity_ n - 1) < key →
  find_lower key n = Fault ∧ erase_one junk key n = Fault.
Proof.
  intros Hok Hm He Hk. pose proof (ok_capacity n Hok) as Hcap.
  assert (find_lower key n = Fault) as Hf; [|split; [done|]; unfold erase_one; by rewrite Hf].
  unfold find_lower. destruct (same_node_ok n (add_lookup n) (same_node_lookup n) Hok) as [Hok1 _].
  destruct (search_lower (predict_position key (add_lookup n)) key (add_lookup n) Hok1) as (pos & n1 & -> & Hsame & Hlw);
    [apply predict_position_range; cbn; lia|]. rewrite res_bind_ret.
  change (is_lower n key pos) in Hlw. destruct Hlw as (Hp & _ & Hhi).
  assert (pos = data_capacity_ n) as ->.
  { destruct (decide (pos = data_capacity_ n)); [done|]. specialize (Hhi (data_capacity_ n - 1) ltac:(lia)). lia. }
  destruct (same_node_trans _ _ _ (same_node_lookup n) Hsame) as [c ->].
  pose proof (next_filled_outside (with_counters c n)) as Hout. cbn [data_capacity_ with_counters] in Hout.
  rewrite Hout; [done| |done]. apply (same_node_ok n); [by eexists|done].
Qed.

(** ** Witnesses *)
Module AlexWitness.
Definition junk0 (i : Z) : Z := 777 + i.
Definition pairs : list (Z * Z) := [(3, 30); (5, 50); (9, 90); (12, 120)].
Definition many : list (Z * Z) := (λ i, (10 * i, i)) <$> seqZ 1 45.
Definition loaded (vs : list (Z * Z)) (m : option LinearModel) : AlexDataNode :=
  match bulk_load junk0 vs (Z.of_nat (length vs)) m false (node_new 1048576) with
  | Ret n => n
  | _ => node_new 0
  end.
(** A model that predicts the slot behind the last: the keys end up dense at
    the right. *)
Definition far : option LinearModel := Some (mkModel (d_of_Z 0) (d_of_Z 100)).

Lemma loaded_wf vs m : keys_ok vs → Z.of_nat (length vs) ≤ 2 ^ 26 →
  node_wf (loaded vs m) ∧ contents (loaded vs m) = vs.
Proof.
  intros Hk Hl.
  destruct (bulk_load_spec junk0 vs m false (node_new 1048576) Hk) as (n & E & Hwf & Hc & _).
  - apply capacity_for_bound; [lia|apply init_density_within].
  - unfold loaded. by rewrite E.
Qed.

(** The invariant of a list, decided. *)
Definition keys_okb (l : list (Z * Z)) : bool :=
  bool_decide (Forall (λ k, 0 ≤ k < kEndSentinel_) l.*1) &&
  (fix go (l : list Z) := match l with x :: (y :: _) as l' => bool_decide (x ≤ y) && go l' | _ => true end) l.*1.
Lemma keys_okb_ok l : keys_okb l = true → keys_ok l.
Proof.
  intros [Hf%bool_decide_eq_true Hs]%andb_true_iff. split; [|done]. apply Sorted_StronglySorted; [intros ???; lia|].
  clear Hf. induction l.*1 as [|x [|y l'] IH]; [constructor|constructor; constructor|].
  apply andb_true_iff in Hs as [Hxy%bool_decide_eq_true Hs]. constructor; [by apply IH|by constructor].
Qed.

Lemma pairs_ok : keys_ok pairs.
Proof. by apply keys_okb_ok. Qed.
Lemma many_ok : keys_ok many.
Proof. by apply keys_okb_ok. Qed.

Definition ops : list op :=
  [OpInsert 7 70; OpFind 9; OpErase 5; OpFind 5; OpInsert 1 10; OpInsert 20 200; OpInsert 9 91; OpFind 9; OpErase 9].
Lemma ops_ok : Forall (λ o, 0 ≤ op_key o < kEndSentinel_) ops.
Proof. repeat (constructor; [split; [discriminate|reflexivity]|]). constructor. Qed.
End AlexWitness.
Import AlexWitness.

Lemma data_node_refines_list_witness :
  (let* n := bulk_load junk0 pairs 4 None false (node_new 1048576) in
   let* (rs, _) := run_ops junk0 true ops n in Ret rs)
    = Ret [Flag 0; Found (Some 90); Erased 1; Found None; Flag 0; Flag 0; Flag 0; Found (Some 91); Erased 2] ∧
  ∃ n rs n', bulk_load junk0 pairs 4 None false (node_new 1048576) = Ret n ∧
    run_ops junk0 true ops n = Ret (rs, n') ∧ node_wf n' ∧ list_steps true pairs ops rs (contents n').
Proof.
  split; [vm_compute; reflexivity|].
  apply (data_node_refines_list junk0 true pairs None false 1048576 ops pairs_ok); [by vm_compute|exact ops_ok].
Defined.

Lemma closest_gap_equivalent_witness :
  closest_gap 20 (loaded many far) = Ret 18 ∧
  let slot := Z.min 20 (data_capacity_ (loaded many far) - 1) in
  ∃ g, closest_gap 20 (loaded many far) = Ret g ∧ nearest (ex (bitmap_ (slots_ (loaded many far)))) (data_capacity_ (loaded many far)) slot g ∧
    (ex (bitmap_ (slots_ (loaded many far))) slot = false → g = slot) ∧
    (ex (bitmap_ (slots_ (loaded many far))) slot = true → closest_gap_slow 20 (loaded many far) = Ret g).
Proof.
  split; [vm_compute; reflexivity|].
  apply (closest_gap_equivalent (loaded many far) 20);
    [apply (loaded_wf many far many_ok); by vm_compute|vm_compute; split; discriminate].
Defined.

Lemma validate_structure_holds_witness :
  ∃ rs n', run_ops junk0 true ops (loaded pairs None) = Ret (rs, n') ∧ validate_structure n' = Ret true.
Proof.
  eexists _, _. split; [vm_compute; reflexivity|].
  eapply (validate_structure_holds junk0 true (loaded pairs None) ops);
    [apply (loaded_wf pairs None pairs_ok); by vm_compute|exact ops_ok|by vm_compute|vm_compute; reflexivity|
     vm_compute; reflexivity].
Defined.

Lemma data_node_erase_correct_witness :
  ∃ n' l1 v l2, erase_one junk0 5 (loaded pairs None) = Ret (1, n') ∧ node_wf n' ∧
    contents (loaded pairs None) = l1 ++ (5, v) :: l2 ∧ 5 ∉ l1.*1 ∧ contents n' = l1 ++ l2.
Proof.
  destruct (loaded_wf pairs None pairs_ok) as [Hwf Hc]; [by vm_compute|].
  apply (data_node_erase_correct junk0 (loaded pairs None) 5 4 10);
    [exact Hwf|split; [discriminate|reflexivity]|by vm_compute|]. rewrite Hc. right; left.
Defined.

Lemma data_node_rebuild_correct_witness :
  ∃ n', bulk_load_from_existing junk0 (loaded many far) 10 40 false true None (-1) (node_new 1048576) = Ret n' ∧
    node_wf n' ∧ contents n' = between (loaded many far) 10 40 ∧ roomy n'.
Proof.
  destruct (data_node_rebuild_correct junk0 (loaded many far) (node_new 1048576) 10 40 true false true) as (_ & _ & H);
    [apply (loaded_wf many far many_ok); by vm_compute|vm_compute; discriminate|by vm_compute|
     vm_compute; split; [discriminate|reflexivity]|by vm_compute|exact H].
Defined.

Lemma find_lower_reads_outside_witness :
  data_capacity_ (loaded many far) = 64 ∧
  find_lower 500 (loaded many far) = Fault ∧ erase_one junk0 500 (loaded many far) = Fault.
Proof.
  split; [vm_compute; reflexivity|].
  apply (find_lower_reads_outside junk0 (loaded many far) 500);
    [apply (loaded_wf many far many_ok); by vm_compute|vm_compute; reflexivity|vm_compute; reflexivity|by vm_compute].
Defined.
