(* ===== verification/AlexCost.v ===== *)
(** * ALEX: expected costs ([include/alex/alex_base.h], [alex_nodes.h])

    The accumulators of the cost model, the cost of a node and the cost a node
    would have if it were built from given keys.  [log2] is the C library's
    function, of which nothing is assumed.  Sampling, which is switched off
    ([approximate_cost_computation]), is left out. *)
From S2P Require Import Prelude Ieee AlexBase AlexNode AlexOps.

Definition kModelSizeWeight : double := d_div (d_of_Z 5) (d_of_Z 10000000).

Record DataNodeStats : Type := mkStats { num_search_iterations : double; num_shifts : double }.
Definition stats0 : DataNodeStats := mkStats (d_of_Z 0) (d_of_Z 0).

(** ** Accumulators *)
Class StatAccumulator (A : Type) : Type := accumulate : Z → Z → A → A.

Record ExpectedSearchIterationsAccumulator : Type := mkSearchAcc {
  si_cumulative_log_error_ : double;
  si_count_ : Z
}.
Record ExpectedShiftsAccumulator : Type := mkShiftsAcc {
  es_last_position_ : Z;
  es_dense_region_start_idx_ : Z;
  es_num_expected_shifts_ : double;
  es_count_ : Z
}.
Record ExpectedIterationsAndShiftsAccumulator : Type := mkBothAcc {
  is_cumulative_log_error_ : double;
  is_last_position_ : Z;
  is_dense_region_start_idx_ : Z;
  is_num_expected_shifts_ : double;
  is_count_ : Z
}.
Definition search_acc0 : ExpectedSearchIterationsAccumulator := mkSearchAcc (d_of_Z 0) 0.
Definition shifts_acc0 : ExpectedShiftsAccumulator := mkShiftsAcc (-1) 0 (d_of_Z 0) 0.
Definition both_acc0 : ExpectedIterationsAndShiftsAccumulator := mkBothAcc (d_of_Z 0) (-1) 0 (d_of_Z 0) 0.

Definition dense_shifts (last_position start_idx : Z) : double :=
  let dense_region_length := d_of_Z (last_position - start_idx + 1) in
  d_div (d_mul dense_region_length dense_region_length) (d_of_Z 4).

Section cost.
Context (log2 : double → double).

Definition log_error (actual_position predicted_position : Z) : double :=
  log2 (d_of_Z (Z.abs (predicted_position - actual_position) + 1)).

#[export] Instance search_accumulate : StatAccumulator ExpectedSearchIterationsAccumulator :=
  λ actual_position predicted_position a,
    mkSearchAcc (d_add (si_cumulative_log_error_ a) (log_error actual_position predicted_position)) (si_count_ a + 1).

#[export] Instance shifts_accumulate : StatAccumulator ExpectedShiftsAccumulator :=
  λ actual_position _ a,
    if bool_decide (es_last_position_ a + 1 < actual_position) then
      mkShiftsAcc actual_position actual_position
        (d_add (es_num_expected_shifts_ a) (dense_shifts (es_last_position_ a) (es_dense_region_start_idx_ a)))
        (es_count_ a + 1)
    else mkShiftsAcc actual_position (es_dense_region_start_idx_ a) (es_num_expected_shifts_ a) (es_count_ a + 1).

#[export] Instance both_accumulate : StatAccumulator ExpectedIterationsAndShiftsAccumulator :=
  λ actual_position predicted_position a,
    let error := d_add (is_cumulative_log_error_ a) (log_error actual_position predicted_position) in
    if bool_decide (is_last_position_ a + 1 < actual_position) then
      mkBothAcc error actual_position actual_position
        (d_add (is_num_expected_shifts_ a) (dense_shifts (is_last_position_ a) (is_dense_region_start_idx_ a)))
        (is_count_ a + 1)
    else mkBothAcc error actual_position (is_dense_region_start_idx_ a) (is_num_expected_shifts_ a) (is_count_ a + 1).

Definition search_stat (a : ExpectedSearchIterationsAccumulator) : double :=
  if bool_decide (si_count_ a = 0) then d_of_Z 0 else d_div (si_cumulative_log_error_ a) (d_of_Z (si_count_ a)).
Definition shifts_stat (a : ExpectedShiftsAccumulator) : double :=
  if bool_decide (es_count_ a = 0) then d_of_Z 0
  else d_div (d_add (es_num_expected_shifts_ a) (dense_shifts (es_last_position_ a) (es_dense_region_start_idx_ a)))
             (d_of_Z (es_count_ a)).
Definition get_expected_num_search_iterations (a : ExpectedIterationsAndShiftsAccumulator) : double :=
  if bool_decide (is_count_ a = 0) then d_of_Z 0 else d_div (is_cumulative_log_error_ a) (d_of_Z (is_count_ a)).
Definition get_expected_num_shifts (a : ExpectedIterationsAndShiftsAccumulator) : double :=
  if bool_decide (is_count_ a = 0) then d_of_Z 0
  else d_div (d_add (is_num_expected_shifts_ a) (dense_shifts (is_last_position_ a) (is_dense_region_start_idx_ a)))
             (d_of_Z (is_count_ a)).

Definition cost_of (iterations shifts insert_frac : double) : double :=
  d_add (d_mul kExpSearchIterationsWeight iterations) (d_mul (d_mul kShiftsWeight shifts) insert_frac).
Definition clamped (key cap : Z) (m : LinearModel) : Z := Z.max 0 (Z.min (cap - 1) (predict key m)).

(** ** The cost of a node *)
Definition with_expected (iterations shifts : double) (n : AlexDataNode) : AlexDataNode :=
  mkNode (slots_ n) (data_capacity_ n) (num_keys_ n) (bitmap_size_ n) (node_model n) (cost_ n)
    (expansion_threshold_ n) (contraction_threshold_ n) (max_slots_ n) (counters_ n) (extremes_ n) iterations shifts.

Fixpoint cost_loop (fuel : nat) (n : AlexDataNode) (it : Iterator)
    (search : ExpectedSearchIterationsAccumulator) (shifts : ExpectedShiftsAccumulator)
    : res (ExpectedSearchIterationsAccumulator * ExpectedShiftsAccumulator) :=
  match fuel with
  | O => Diverge
  | S fuel =>
      if is_end it then Ret (search, shifts)
      else
        let* k := it_key n it in
        let predicted_position := clamped k (data_capacity_ n) (node_model n) in
        let search := accumulate (cur_idx_ it) predicted_position search in
        let shifts := accumulate (cur_idx_ it) predicted_position shifts in
        let* it := it_next n it in
        cost_loop fuel n it search shifts
  end.

Definition compute_expected_cost (frac_inserts : double) (n : AlexDataNode) : res (double * AlexDataNode) :=
  if bool_decide (num_keys_ n = 0) then Ret (d_of_Z 0, n)
  else
    let* it := it_initialize n 0 in
    let* (search, shifts) := cost_loop (keys_fuel n) n it search_acc0 shifts_acc0 in
    let n := with_expected (search_stat search) (shifts_stat shifts) n in
    Ret (cost_of (search_stat search) (shifts_stat shifts) frac_inserts, n).

(** ** The cost of a node that is not built *)
Section implicit.
Context `{StatAccumulator A} (m : LinearModel) (data_capacity : Z).

(** The dense tail, from [actual_position] on. *)
Fixpoint implicit_rest (ks : list Z) (actual_position : Z) (acc : A) : A :=
  match ks with
  | [] => acc
  | k :: ks => implicit_rest ks (actual_position + 1) (accumulate actual_position (clamped k data_capacity m) acc)
  end.

Fixpoint build_node_implicit (ks : list Z) (last_position keys_remaining : Z) (acc : A) : A :=
  match ks with
  | [] => acc
  | k :: ks' =>
      let predicted_position := clamped k data_capacity m in
      let actual_position := Z.max predicted_position (last_position + 1) in
      let positions_remaining := data_capacity - actual_position in
      if bool_decide (positions_remaining < keys_remaining)
      then implicit_rest ks (data_capacity - keys_remaining) acc
      else build_node_implicit ks' actual_position (keys_remaining - 1)
             (accumulate actual_position predicted_position acc)
  end.

(** The same with the keys read through an iterator. *)
Fixpoint implicit_existing_rest (fuel : nat) (src : AlexDataNode) (it : Iterator) (actual_position : Z) (acc : A)
    : res A :=
  match fuel with
  | O => Diverge
  | S fuel =>
      if bool_decide (actual_position < data_capacity) then
        let* k := it_key src it in
        let acc := accumulate actual_position (clamped k data_capacity m) acc in
        let* it := it_next src it in
        implicit_existing_rest fuel src it (actual_position + 1) acc
      else Ret acc
  end.

Fixpoint build_node_implicit_from_existing (fuel : nat) (src : AlexDataNode) (right : Z) (it : Iterator)
    (last_position keys_remaining : Z) (acc : A) : res A :=
  match fuel with
  | O => Diverge
  | S fuel' =>
      if it_in src right it then
        let* k := it_key src it in
        let predicted_position := clamped k data_capacity m in
        let actual_position := Z.max predicted_position (last_position + 1) in
        let positions_remaining := data_capacity - actual_position in
        if bool_decide (positions_remaining < keys_remaining)
        then implicit_existing_rest fuel src it (data_capacity - keys_remaining) acc
        else
          let acc := accumulate actual_position predicted_position acc in
          let* it := it_next src it in
          build_node_implicit_from_existing fuel' src right it actual_position (keys_remaining - 1) acc
      else Ret acc
  end.
End implicit.

Definition finish_cost (iterations shifts insert_frac : double) : double * DataNodeStats :=
  (cost_of iterations shifts insert_frac, mkStats iterations shifts).

Definition compute_expected_cost_of (values : list (Z * Z)) (num_keys : Z) (density expected_insert_frac : double)
    (existing_model : option LinearModel) : res (double * DataNodeStats) :=
  if bool_decide (num_keys = 0) then Ret (d_of_Z 0, stats0)
  else
    let data_capacity := capacity_for num_keys density in
    let* m := match existing_model with
              | Some m => Ret m
              | None => build_model values num_keys model0 false
              end in
    let m := expand (d_div (d_of_Z data_capacity) (d_of_Z num_keys)) m in
    let ks := values.*1 in
    if SFeqb expected_insert_frac (d_of_Z 0) then
      let acc := build_node_implicit m data_capacity ks (-1) num_keys search_acc0 in
      Ret (finish_cost (search_stat acc) (d_of_Z 0) expected_insert_frac)
    else
      let acc := build_node_implicit m data_capacity ks (-1) num_keys both_acc0 in
      Ret (finish_cost (get_expected_num_search_iterations acc) (get_expected_num_shifts acc) expected_insert_frac).

Definition compute_expected_cost_from_existing (node : AlexDataNode) (left right : Z)
    (density expected_insert_frac : double) (existing_model : option LinearModel) : res (double * DataNodeStats) :=
  if negb (bool_decide (0 ≤ left ∧ right ≤ data_capacity_ node)) then Fault
  else
    let* (m, num_actual_keys) :=
      match existing_model with
      | Some m => let* c := num_keys_in_range left right node in Ret (m, c)
      | None =>
          let* it := it_initialize node left in
          let* (b, c) := fit_existing (keys_fuel node) node right it 0 (builder_new model0) in
          Ret (model_ (build b), c)
      end in
    if bool_decide (num_actual_keys = 0) then Ret (d_of_Z 0, stats0)
    else
      let data_capacity := capacity_for num_actual_keys density in
      let m := expand (d_div (d_of_Z data_capacity) (d_of_Z num_actual_keys)) m in
      let* it := it_initialize node left in
      if SFeqb expected_insert_frac (d_of_Z 0) then
        let* acc := build_node_implicit_from_existing m data_capacity (keys_fuel node) node right it (-1)
                      num_actual_keys search_acc0 in
        Ret (finish_cost (search_stat acc) (d_of_Z 0) expected_insert_frac)
      else
        let* acc := build_node_implicit_from_existing m data_capacity (keys_fuel node) node right it (-1)
                      num_actual_keys both_acc0 in
        Ret (finish_cost (get_expected_num_search_iterations acc) (get_expected_num_shifts acc) expected_insert_frac).
End cost.
