(* ===== verification/AlexFanout.v ===== *)
(** * ALEX: fanout trees ([include/alex/alex_fanout_tree.h])

    A fanout tree halves the key range of a node level by level; the nodes
    that are used become its children.  The tree is a list of levels, each with
    all its nodes.  Decisions compare expected costs ([AlexCost]). *)
From S2P Require Import Prelude Ieee AlexBase AlexNode AlexOps AlexCost.

(** [sizeof] on x86-64. *)
Definition sizeof_DataNode : Z := 208.
Definition sizeof_pointer : Z := 8.

Record FTNode : Type := mkFT {
  ft_level : Z;
  ft_node_id : Z;
  ft_cost : double;
  ft_left_boundary : Z;
  ft_right_boundary : Z;
  ft_use : bool;
  ft_expected_avg_search_iterations : double;
  ft_expected_avg_shifts : double;
  ft_a : double;
  ft_b : double;
  ft_num_keys : Z
}.
Definition set_use (b : bool) (t : FTNode) : FTNode :=
  mkFT (ft_level t) (ft_node_id t) (ft_cost t) (ft_left_boundary t) (ft_right_boundary t) b
    (ft_expected_avg_search_iterations t) (ft_expected_avg_shifts t) (ft_a t) (ft_b t) (ft_num_keys t).
Definition set_num_keys (k : Z) (t : FTNode) : FTNode :=
  mkFT (ft_level t) (ft_node_id t) (ft_cost t) (ft_left_boundary t) (ft_right_boundary t) (ft_use t)
    (ft_expected_avg_search_iterations t) (ft_expected_avg_shifts t) (ft_a t) (ft_b t) k.

Abbreviation fanout_tree := (list (list FTNode)).
Definition ft_at (level i : Z) (t : fanout_tree) : res FTNode := let* l := rd t level in rd l i.
Definition ft_set (level i : Z) (f : FTNode → FTNode) (t : fanout_tree) : res fanout_tree :=
  let* l := rd t level in
  let* x := rd l i in
  let* l := wr l i (f x) in
  wr t level l.

(** ** Collecting and merging *)
Definition position_of (max_level : Z) (t : FTNode) : Z := Z.shiftl (ft_node_id t) (max_level - ft_level t).
Definition before (max_level : Z) (x y : FTNode) : Prop := position_of max_level x ≤ position_of max_level y.
#[export] Instance before_dec max_level : RelDecision (before max_level).
Proof. intros x y. unfold before. apply _. Defined.

Definition collect_used_nodes (t : fanout_tree) (max_level : Z) : list FTNode :=
  let max_level := Z.min max_level (Z.of_nat (length t) - 1) in
  merge_sort (before max_level) (filter (λ x, ft_use x = true) (concat (take (Z.to_nat (max_level + 1)) t))).

Definition model_weight (total_keys num_keys : Z) : double :=
  d_div (d_mul (d_mul kModelSizeWeight (d_of_Z sizeof_DataNode)) (d_of_Z total_keys)) (d_of_Z num_keys).

Definition merge_pair (level i : Z) (t : fanout_tree) : res fanout_tree :=
  let* t := ft_set level (2 * i) (set_use false) t in
  let* t := ft_set level (2 * i + 1) (set_use false) t in
  ft_set (level - 1) i (set_use true) t.

(** One pair of siblings: the tree, the cost and whether they were merged. *)
Definition merge_step (level num_keys total_keys i : Z) (s : fanout_tree * double * bool)
    : res (fanout_tree * double * bool) :=
  let '(t, best_cost, at_least_one_merge) := s in
  let* l := ft_at level (2 * i) t in
  let* r := ft_at level (2 * i + 1) t in
  if ft_use l && ft_use r then
    let* p := ft_at (level - 1) i t in
    let num_node_keys := ft_num_keys p in
    if bool_decide (num_node_keys = 0) then
      let* t := merge_pair level i t in
      Ret (t, d_sub best_cost (model_weight total_keys num_keys), true)
    else
      let part x := d_div (d_mul (ft_cost x) (d_of_Z (ft_num_keys x))) (d_of_Z num_node_keys) in
      let merging_cost_saving :=
        d_add (d_sub (d_add (part l) (part r)) (ft_cost p)) (model_weight total_keys num_node_keys) in
      if d_le (d_of_Z 0) merging_cost_saving then
        let* t := merge_pair level i t in
        Ret (t, d_sub best_cost (d_div (d_mul merging_cost_saving (d_of_Z num_node_keys)) (d_of_Z num_keys)), true)
      else Ret s
  else Ret s.

(** [for (level = start_level; level >= 1; level--)] *)
Fixpoint merge_nodes_upwards (start_level : nat) (best_cost : double) (num_keys total_keys : Z) (t : fanout_tree)
    : res (fanout_tree * double) :=
  match start_level with
  | O => Ret (t, best_cost)
  | S lower =>
      let level := Z.of_nat start_level in
      let* (t, best_cost, at_least_one_merge) :=
        for_up 0 (Z.shiftl 1 level / 2) (merge_step level num_keys total_keys) (t, best_cost, false) in
      if at_least_one_merge : bool then merge_nodes_upwards lower best_cost num_keys total_keys t
      else Ret (t, best_cost)
  end.

(** The cost rose twice in a row. *)
Definition rose_twice (costs : list double) : bool :=
  match rev costs with
  | x :: y :: z :: _ => d_lt y x && d_lt z y
  | _ => false
  end.
Definition use_level (level : Z) (t : fanout_tree) : res fanout_tree :=
  let* l := rd t level in wr t level (set_use true <$> l).

Section fanout.
Context (log2 : double → double).

Definition traversal_cost (fanout total_keys num_keys : Z) : double :=
  d_add kNodeLookupsWeight
    (d_div (d_mul (d_mul (d_mul kModelSizeWeight (d_of_Z fanout)) (d_of_Z (sizeof_DataNode + sizeof_pointer)))
              (d_of_Z total_keys)) (d_of_Z num_keys)).

(** ** Bulk loading *)
(** What [std::lower_bound] compares a key with the bound by. [AlexCompare]
    compares as [double]s; [std::less<T>], the default of [compute_level], takes
    the bound as a [uint64_t], which is undefined unless it fits one. *)
Inductive comparator : Type := AlexCompare | StdLess.
Definition d_to_T (x : double) : res Z :=
  match sf_trunc x with
  | Some z => if bool_decide (0 ≤ z < 2 ^ 64) then Ret z else Fault
  | None => Fault
  end.
Definition key_less (c : comparator) (k : Z) (x : double) : res bool :=
  match c with
  | AlexCompare => Ret (d_lt (d_of_Z k) x)
  | StdLess => let* y := d_to_T x in Ret (bool_decide (k < y))
  end.
(** [std::lower_bound] over keys in order. *)
Fixpoint lower_bound_of (c : comparator) (values : list (Z * Z)) (x : double) : res Z :=
  match values with
  | [] => Ret 0
  | kv :: values =>
      let* less := key_less c kv.1 x in
      if (less : bool) then let* i := lower_bound_of c values x in Ret (i + 1) else Ret 0
  end.
Definition values_lower_bound (c : comparator) (values : list (Z * Z)) (num_keys : Z) (x : double) : res Z :=
  lower_bound_of c (take (Z.to_nat num_keys) values) x.

(** [while (rb < num_keys && (int)(a * values[rb].first + b) <= i) rb++] *)
Fixpoint move_boundary (fuel : nat) (values : list (Z * Z)) (num_keys i : Z) (m : LinearModel) (rb : Z) : res Z :=
  match fuel with
  | O => Diverge
  | S fuel =>
      if bool_decide (rb < num_keys) then
        let* kv := rd values rb in
        if bool_decide (predict kv.1 m ≤ i) then move_boundary fuel values num_keys i m (rb + 1) else Ret rb
      else Ret rb
  end.

Definition slice (values : list (Z * Z)) (left right : Z) : list (Z * Z) :=
  take (Z.to_nat (right - left)) (drop (Z.to_nat left) values).

Section level.
Context (c : comparator) (values : list (Z * Z)) (num_keys total_keys level max_data_node_keys : Z) (expected_insert_frac : double)
  (approximate_model_computation : bool) (m : LinearModel) (fanout : Z).

Definition level_step (i : Z) (s : list FTNode * double * Z) : res (list FTNode * double * Z) :=
  let '(nodes, cost, left_boundary) := s in
  let* right_boundary :=
    if bool_decide (i = fanout - 1) then Ret num_keys
    else values_lower_bound c values num_keys (d_div (d_sub (d_of_Z (i + 1)) (b_ m)) (a_ m)) in
  let* right_boundary := move_boundary (S (Z.to_nat num_keys)) values num_keys i m right_boundary in
  if bool_decide (left_boundary = right_boundary) then
    Ret (nodes ++ [mkFT level i (d_of_Z 0) left_boundary right_boundary false (d_of_Z 0) (d_of_Z 0) (d_of_Z 0) (d_of_Z 0) 0],
         cost, right_boundary)
  else
    let n := right_boundary - left_boundary in
    let part := slice values left_boundary right_boundary in
    let* model := build_model part n model0 approximate_model_computation in
    let* (node_cost, stats) :=
      compute_expected_cost_of log2 part n kInitDensity_ expected_insert_frac (Some model) in
    let node_cost := if bool_decide (max_data_node_keys < n) then d_add node_cost kNodeLookupsWeight else node_cost in
    let cost := d_add cost (d_div (d_mul node_cost (d_of_Z n)) (d_of_Z num_keys)) in
    Ret (nodes ++ [mkFT level i node_cost left_boundary right_boundary false (num_search_iterations stats)
                     (num_shifts stats) (a_ model) (b_ model) n], cost, right_boundary).
End level.

(** [node_m] is the node's model, trained to [0, 1). *)
Definition compute_level (c : comparator) (values : list (Z * Z)) (num_keys : Z) (node_m : LinearModel) (total_keys level : Z)
    (max_data_node_keys : Z) (expected_insert_frac : double) (approximate_model_computation : bool)
    : res (list FTNode * double) :=
  let fanout := Z.shiftl 1 level in
  let m := mkModel (d_mul (a_ node_m) (d_of_Z fanout)) (d_mul (b_ node_m) (d_of_Z fanout)) in
  let* (nodes, cost, _) :=
    for_up 0 fanout (level_step c values num_keys level max_data_node_keys expected_insert_frac
                       approximate_model_computation m fanout) ([], d_of_Z 0, 0) in
  Ret (nodes, d_add cost (traversal_cost fanout total_keys num_keys)).

Record search : Type := mkSearch {
  best_level : Z;
  best_cost : double;
  fanout_costs : list double;
  levels : fanout_tree
}.

(** One more level; [inr] when the search stops. *)
Definition add_level (level : Z) (nodes : list FTNode) (cost : double) (s : search) : search + search :=
  let costs := fanout_costs s ++ [cost] in
  if rose_twice costs then inr (mkSearch (best_level s) (best_cost s) costs (levels s))
  else
    let '(bl, bc) := if d_lt cost (best_cost s) then (level, cost) else (best_level s, best_cost s) in
    inl (mkSearch bl bc costs (levels s ++ [nodes])).

Fixpoint grow (fuel : nat) (compute : Z → res (list FTNode * double)) (fanout max_fanout level : Z) (s : search)
    : res search :=
  match fuel with
  | O => Diverge
  | S fuel =>
      if bool_decide (fanout ≤ max_fanout) then
        let* (nodes, cost) := compute level in
        match add_level level nodes cost s with
        | inl s => grow fuel compute (fanout * 2) max_fanout (level + 1) s
        | inr s => Ret s
        end
      else Ret s
  end.

Definition find_best_fanout_bottom_up (values : list (Z * Z)) (num_keys : Z) (node_m : LinearModel) (node_cost : double)
    (total_keys max_fanout max_data_node_keys : Z) (expected_insert_frac : double)
    (approximate_model_computation : bool) : res (list FTNode * Z * double) :=
  let best := d_add node_cost kNodeLookupsWeight in
  let root := mkFT 0 0 best 0 num_keys false (d_of_Z 0) (d_of_Z 0) (d_of_Z 0) (d_of_Z 0) num_keys in
  let* s := grow 32 (λ level, compute_level AlexCompare values num_keys node_m total_keys level max_data_node_keys
                         expected_insert_frac approximate_model_computation)
              2 max_fanout 1 (mkSearch 0 best [best] [[root]]) in
  let* t := use_level (best_level s) (levels s) in
  let* (t, cost) := merge_nodes_upwards (Z.to_nat (best_level s)) (best_cost s) num_keys total_keys t in
  Ret (collect_used_nodes t (best_level s), best_level s, cost).

(** ** Splitting an existing node

    [lower_bound] is called with a [double]: keys are converted to compare, and
    the bound to [uint64_t] to predict a position, which is undefined outside
    its range; only the position the search starts from depends on it. *)
Definition d_to_u64 (x : double) : Z :=
  match sf_trunc x with
  | Some z => if bool_decide (- 2 ^ 63 ≤ z < 2 ^ 64) then u64 z else 2 ^ 63
  | None => 2 ^ 63
  end.

Definition lower_bound_double (x : double) (n : AlexDataNode) : res (Z * AlexDataNode) :=
  let n := add_lookup n in
  let m := predict_position (d_to_u64 x) n in
  let ks := key_slots_ (slots_ n) in
  let less k := d_lt (d_of_Z k) x in
  let iterations := num_exp_search_iterations_ (counters_ n) in
  let search l r := binary_loop search_fuel (λ mid, let* k := rd ks mid in Ret (less k)) l r in
  let* k := rd ks m in
  if negb (less k) then
    let size := m in
    let* (bound, iterations) :=
      exp_loop search_fuel (λ b, let* k := rd ks (m - b) in Ret (negb (less k))) size 1 iterations in
    let* pos := search (m - Z.min bound size) (m - bound / 2) in
    Ret (pos, with_iterations iterations n)
  else
    let size := data_capacity_ n - m in
    let* (bound, iterations) :=
      exp_loop search_fuel (λ b, let* k := rd ks (m + b) in Ret (less k)) size 1 iterations in
    let* pos := search (m + bound / 2) (m + Z.min bound size) in
    Ret (pos, with_iterations iterations n).

Definition bucket_boundary (bucket : Z) (m : LinearModel) : double := d_div (d_sub (d_of_Z bucket) (b_ m)) (a_ m).
Definition start_of (bucketID repeats : Z) : Z := bucketID - Z.rem bucketID repeats.

Section existing.
Context (num_keys total_keys level : Z) (m : LinearModel) (fanout : Z).

Definition existing_step (i : Z) (s : AlexDataNode * list FTNode * double * Z)
    : res (AlexDataNode * list FTNode * double * Z) :=
  let '(node, nodes, cost, left_boundary) := s in
  let* (right_boundary, node) :=
    if bool_decide (i = fanout - 1) then Ret (data_capacity_ node, node)
    else lower_bound_double (d_div (d_sub (d_of_Z (i + 1)) (b_ m)) (a_ m)) node in
  if bool_decide (left_boundary = right_boundary) then
    Ret (node, nodes ++ [mkFT level i (d_of_Z 0) left_boundary right_boundary false (d_of_Z 0) (d_of_Z 0)
                           (d_of_Z 0) (d_of_Z 0) 0], cost, right_boundary)
  else
    let* it := it_initialize node left_boundary in
    let* (b, num_actual_keys) := fit_existing (keys_fuel node) node right_boundary it 0 (builder_new model0) in
    let model := model_ (build b) in
    let* (node_cost, stats) :=
      compute_expected_cost_from_existing log2 node left_boundary right_boundary kInitDensity_ (frac_inserts node)
        (Some model) in
    let cost := d_add cost (d_div (d_mul node_cost (d_of_Z num_actual_keys)) (d_of_Z num_keys)) in
    Ret (node, nodes ++ [mkFT level i node_cost left_boundary right_boundary false (num_search_iterations stats)
                           (num_shifts stats) (a_ model) (b_ model) num_actual_keys], cost, right_boundary).
End existing.

Fixpoint grow_existing (fuel : nat) (num_keys total_keys : Z) (base : LinearModel) (fanout max_fanout level : Z)
    (node : AlexDataNode) (s : search) : res (AlexDataNode * search) :=
  match fuel with
  | O => Diverge
  | S fuel =>
      if bool_decide (fanout ≤ max_fanout) then
        let m := mkModel (d_mul (a_ base) (d_of_Z fanout)) (d_mul (b_ base) (d_of_Z fanout)) in
        let* (node, nodes, cost, _) :=
          for_up 0 fanout (existing_step num_keys level m fanout) (node, [], d_of_Z 0, 0) in
        let cost := d_add cost (traversal_cost fanout total_keys num_keys) in
        match add_level level nodes cost s with
        | inl s => grow_existing fuel num_keys total_keys base (fanout * 2) max_fanout (level + 1) node s
        | inr s => Ret (node, s)
        end
      else Ret (node, s)
  end.

(** [parent_m] is the parent's model, [dup] the node's duplication factor. *)
Definition find_best_fanout_existing_node (parent_m : LinearModel) (bucketID dup total_keys max_fanout : Z)
    (node : AlexDataNode) : res (AlexDataNode * list FTNode * Z) :=
  let num_keys := num_keys_ node in
  let repeats := Z.shiftl 1 dup in
  let start_bucketID := start_of bucketID repeats in
  let end_bucketID := start_bucketID + repeats in
  let left_boundary_value := bucket_boundary start_bucketID parent_m in
  let right_boundary_value := bucket_boundary end_bucketID parent_m in
  let a := d_div (d_of_Z 1) (d_sub right_boundary_value left_boundary_value) in
  let base := mkModel a (d_mul (d_mul (d_of_Z (-1)) a) left_boundary_value) in
  let* (node, s) := grow_existing 32 num_keys total_keys base 1 max_fanout 0 node (mkSearch 0 DBL_MAX [] []) in
  let* t := use_level (best_level s) (levels s) in
  let* (t, _) := merge_nodes_upwards (Z.to_nat (best_level s)) (best_cost s) num_keys total_keys t in
  Ret (node, collect_used_nodes t (best_level s), best_level s).
End fanout.
