(* ===== verification/AlexTree.v ===== *)
(** * ALEX: the tree ([include/alex/alex.h])

    Model nodes route a key to a child by a linear model; data nodes
    ([AlexNode]) are the leaves, linked in key order.  Nodes live in a heap from
    addresses, 0 being the null pointer; a node reached twice is one node.  A
    slot of a pointer array that was never written is [None].

    Counters that are only reported ([num_node_lookups] and the like) are left
    out.  A path from the superroot to a leaf's parent is kept with its last
    element first. *)
From S2P Require Import Prelude Ieee AlexBase AlexNode AlexOps AlexCost AlexFanout.

(** ** Nodes *)
Record Leaf : Type := mkLeaf {
  data : AlexDataNode;
  next_leaf_ : Z;
  prev_leaf_ : Z;
  leaf_level_ : Z;
  leaf_duplication_factor_ : Z
}.
Record ModelNode : Type := mkModelNode {
  mn_model : LinearModel;
  num_children_ : Z;
  children_ : list (option Z);
  mn_level_ : Z;
  mn_duplication_factor_ : Z
}.
Inductive AlexTreeNode : Type :=
  | DataNode (l : Leaf)
  | ModelN (m : ModelNode).

Definition is_leaf_ (n : AlexTreeNode) : bool := match n with DataNode _ => true | ModelN _ => false end.
Definition duplication_factor_ (n : AlexTreeNode) : Z :=
  match n with DataNode l => leaf_duplication_factor_ l | ModelN m => mn_duplication_factor_ m end.
Definition level_ (n : AlexTreeNode) : Z :=
  match n with DataNode l => leaf_level_ l | ModelN m => mn_level_ m end.

Record InternalStats : Type := mkIStats {
  key_domain_min_ : Z;
  key_domain_max_ : Z;
  num_keys_above_key_domain : Z;
  num_keys_below_key_domain : Z;
  num_keys_at_last_right_domain_resize : Z;
  num_keys_at_last_left_domain_resize : Z
}.
Record Stats : Type := mkTStats {
  stat_num_keys : Z;
  stat_num_model_nodes : Z;
  stat_num_data_nodes : Z
}.

Record Alex : Type := mkAlex {
  heap : gmap Z AlexTreeNode;
  next_addr : Z;
  root_node_ : Z;
  superroot_ : Z;
  stats_ : Stats;
  istats_ : InternalStats
}.

Section tree.
Implicit Types (s : Alex) (p : Z) (l : Leaf) (m : ModelNode).

Definition with_data (n : AlexDataNode) l : Leaf :=
  mkLeaf n (next_leaf_ l) (prev_leaf_ l) (leaf_level_ l) (leaf_duplication_factor_ l).
Definition with_next p l : Leaf := mkLeaf (data l) p (prev_leaf_ l) (leaf_level_ l) (leaf_duplication_factor_ l).
Definition with_prev p l : Leaf := mkLeaf (data l) (next_leaf_ l) p (leaf_level_ l) (leaf_duplication_factor_ l).
Definition with_place (level dup : Z) l : Leaf := mkLeaf (data l) (next_leaf_ l) (prev_leaf_ l) level dup.
Definition with_dup (dup : Z) (n : AlexTreeNode) : AlexTreeNode :=
  match n with
  | DataNode l => DataNode (with_place (leaf_level_ l) dup l)
  | ModelN m => ModelN (mkModelNode (mn_model m) (num_children_ m) (children_ m) (mn_level_ m) dup)
  end.
Definition with_children (c : list (option Z)) m : ModelNode :=
  mkModelNode (mn_model m) (num_children_ m) c (mn_level_ m) (mn_duplication_factor_ m).
Definition with_cost (c : double) (n : AlexDataNode) : AlexDataNode :=
  mkNode (slots_ n) (data_capacity_ n) (num_keys_ n) (bitmap_size_ n) (node_model n) c
    (expansion_threshold_ n) (contraction_threshold_ n) (max_slots_ n) (counters_ n) (extremes_ n)
    (expected_avg_exp_search_iterations_ n) (expected_avg_shifts_ n).
Definition with_max_slots (k : Z) (n : AlexDataNode) : AlexDataNode :=
  mkNode (slots_ n) (data_capacity_ n) (num_keys_ n) (bitmap_size_ n) (node_model n) (cost_ n)
    (expansion_threshold_ n) (contraction_threshold_ n) k (counters_ n) (extremes_ n)
    (expected_avg_exp_search_iterations_ n) (expected_avg_shifts_ n).

(** ** The heap *)
Definition with_heap (h : gmap Z AlexTreeNode) s : Alex :=
  mkAlex h (next_addr s) (root_node_ s) (superroot_ s) (stats_ s) (istats_ s).
Definition with_root p s : Alex := mkAlex (heap s) (next_addr s) p (superroot_ s) (stats_ s) (istats_ s).
Definition with_stats (x : Stats) s : Alex := mkAlex (heap s) (next_addr s) (root_node_ s) (superroot_ s) x (istats_ s).
Definition with_istats (x : InternalStats) s : Alex :=
  mkAlex (heap s) (next_addr s) (root_node_ s) (superroot_ s) (stats_ s) x.
Definition add_keys (k : Z) s : Alex :=
  let x := stats_ s in with_stats (mkTStats (stat_num_keys x + k) (stat_num_model_nodes x) (stat_num_data_nodes x)) s.
Definition add_nodes (models datas : Z) s : Alex :=
  let x := stats_ s in
  with_stats (mkTStats (stat_num_keys x) (stat_num_model_nodes x + models) (stat_num_data_nodes x + datas)) s.

Definition get_node p s : res AlexTreeNode := of_option (heap s !! p).
(** A [static_cast] to the wrong kind of node is undefined. *)
Definition get_data p s : res Leaf :=
  let* n := get_node p s in match n with DataNode l => Ret l | ModelN _ => Fault end.
Definition get_model p s : res ModelNode :=
  let* n := get_node p s in match n with ModelN m => Ret m | DataNode _ => Fault end.
Definition set_node p (n : AlexTreeNode) s : Alex := with_heap (<[p := n]> (heap s)) s.
Definition set_data p l s : Alex := set_node p (DataNode l) s.
Definition set_model p m s : Alex := set_node p (ModelN m) s.
Definition modify_leaf p (f : Leaf → Leaf) s : res Alex := let* l := get_data p s in Ret (set_data p (f l) s).
Definition modify_node p (f : AlexTreeNode → AlexTreeNode) s : res Alex :=
  let* n := get_node p s in Ret (set_node p (f n) s).
Definition alloc_node (n : AlexTreeNode) s : Z * Alex :=
  (next_addr s, mkAlex (<[next_addr s := n]> (heap s)) (next_addr s + 1) (root_node_ s) (superroot_ s) (stats_ s) (istats_ s)).
Definition delete_node p s : res Alex :=
  if bool_decide (p = 0) then Ret s else let* _ := get_node p s in Ret (with_heap (base.delete p (heap s)) s).
Definition on_data {A} p (f : AlexDataNode → res (A * AlexDataNode)) s : res (A * Alex) :=
  let* l := get_data p s in let* (r, n) := f (data l) in Ret (r, set_data p (with_data n l) s).

(** ** Children *)
Definition child (i : Z) m : res Z := let* c := rd (children_ m) i in of_option c.
Definition set_child (i p : Z) m : res ModelNode :=
  let* c := wr (children_ m) i (Some p) in Ret (with_children c m).
(** [for (i = a; i < b; i++) children_[i] = p] *)
Definition set_children (a b p : Z) (parent : Z) s : res Alex :=
  let* m := get_model parent s in
  let* m := for_up a b (λ i, set_child i p) m in
  Ret (set_model parent m s).
Definition bucket_of (key : Z) m : Z := Z.min (Z.max (predict key (mn_model m)) 0) (num_children_ m - 1).
Definition get_child_node (key : Z) m : res Z := child (bucket_of key m) m.

(** [expand]: every child pointer repeated; [cur] runs over the children. *)
Fixpoint expand_loop (fuel : nat) (factor log2_expansion_factor cur : Z) m (new_children : list (option Z)) s
    : res (list (option Z) * Alex) :=
  match fuel with
  | O => Diverge
  | S fuel =>
      if bool_decide (cur < num_children_ m) then
        let* cur_child := child cur m in
        let* n := get_node cur_child s in
        let cur_child_repeats := Z.shiftl 1 (duplication_factor_ n) in
        let* new_children := for_up (factor * cur) (factor * (cur + cur_child_repeats))
                               (λ i c, wr c i (Some cur_child)) new_children in
        let s := set_node cur_child (with_dup (u8 (duplication_factor_ n + log2_expansion_factor)) n) s in
        expand_loop fuel factor log2_expansion_factor (cur + cur_child_repeats) m new_children s
      else Ret (new_children, s)
  end.
Definition expand_model (log2_expansion_factor : Z) p s : res (Z * Alex) :=
  let* m := get_model p s in
  let expansion_factor := Z.shiftl 1 log2_expansion_factor in
  let num_new_children := num_children_ m * expansion_factor in
  let* (c, s) := expand_loop (S (Z.to_nat (num_children_ m))) expansion_factor log2_expansion_factor 0 m
                   (replicate (Z.to_nat num_new_children) None) s in
  let* m := get_model p s in
  Ret (expansion_factor,
       set_model p (mkModelNode (expand (d_of_Z expansion_factor) (mn_model m)) num_new_children c
                      (mn_level_ m) (mn_duplication_factor_ m)) s).

(** ** Descending *)
Definition TraversalNode : Type := Z * Z.
Definition depth_fuel s : nat := S (size (heap s)).

(** Down the children chosen by [choose], with the path. *)
Fixpoint descend (fuel : nat) (choose : ModelNode → Z) p (path : list TraversalNode) s
    : res (Z * list TraversalNode) :=
  match fuel with
  | O => Diverge
  | S fuel =>
      let* n := get_node p s in
      match n with
      | DataNode _ => Ret (p, path)
      | ModelN m => let i := choose m in
                    let* c := child i m in descend fuel choose c ((p, i) :: path) s
      end
  end.
Definition leftmost (m : ModelNode) : Z := 0.
Definition rightmost m : Z := num_children_ m - 1.
Definition first_data_node s : res Z :=
  let* (p, _) := descend (depth_fuel s) leftmost (root_node_ s) [] s in Ret p.
Definition last_data_node s : res Z :=
  let* (p, _) := descend (depth_fuel s) rightmost (root_node_ s) [] s in Ret p.
Definition get_min_key s : res Z := let* p := first_data_node s in let* l := get_data p s in first_key (data l).
Definition get_max_key s : res Z := let* p := last_data_node s in let* l := get_data p s in last_key (data l).

(** [correct_traversal_path].  Its reference [tn] to the last element of the
    path survives [pop_back], so that what is assigned through it afterwards no
    longer reaches the path: only when nothing is popped is the bucket of the
    path corrected. *)
Fixpoint pop_left (dup : Z) (path : list TraversalNode) s : res (Z * Z * list TraversalNode) :=
  match path with
  | [] => Fault
  | (p, bucketID) :: rest =>
      let* parent := get_model p s in
      let start_bucketID := start_of bucketID (Z.shiftl 1 dup) in
      if bool_decide (start_bucketID = 0) then pop_left (mn_duplication_factor_ parent) rest s
      else Ret (p, start_bucketID - 1, path)
  end.
Fixpoint pop_right (dup : Z) (path : list TraversalNode) s : res (Z * Z * list TraversalNode) :=
  match path with
  | [] => Fault
  | (p, bucketID) :: rest =>
      let* parent := get_model p s in
      let end_bucketID := start_of bucketID (Z.shiftl 1 dup) + Z.shiftl 1 dup in
      if bool_decide (end_bucketID = num_children_ parent) then pop_right (mn_duplication_factor_ parent) rest s
      else Ret (p, end_bucketID, path)
  end.
Definition correct_traversal_path (leaf : Leaf) (path : list TraversalNode) (left : bool) s : res (list TraversalNode) :=
  let dup := leaf_duplication_factor_ leaf in
  let* (p, correct_bucketID, path') := if left then pop_left dup path s else pop_right dup path s in
  if bool_decide (length path' = length path) then Ret ((p, correct_bucketID) :: tail path)
  else
    let* parent := get_model p s in
    let* cur := child correct_bucketID parent in
    let* (_, path) := descend (depth_fuel s) (if left then rightmost else leftmost) cur path' s in Ret path.

(** [std::numeric_limits<double>::epsilon()] *)
Definition epsilon : double := d_div (d_of_Z 1) (d_of_Z (2 ^ 52)).
Definition near_boundary (prediction : double) (rounded : Z) : bool :=
  d_le (SFabs (d_sub prediction (d_of_Z rounded))) (d_mul (d_mul (d_of_Z 10) epsilon) prediction).

(** [get_leaf] with [ALEX_SAFE_LOOKUP]: a prediction that rounding may have put
    on the wrong side of a bucket boundary is checked against the neighbour. *)
Definition correct_path (leaf : Leaf) (left : bool) (path : option (list TraversalNode)) s
    : res (option (list TraversalNode)) :=
  match path with
  | None => Ret None
  | Some path => let* path := correct_traversal_path leaf path left s in Ret (Some path)
  end.
Definition correct_leaf (key : Z) (prediction : double) p (path : option (list TraversalNode)) s
    : res (Z * option (list TraversalNode)) :=
  let* leaf := get_data p s in
  let rounded := d_to_int (d_add prediction (d_div (d_of_Z 1) (d_of_Z 2))) in
  if near_boundary prediction rounded then
    if d_le (d_of_Z rounded) prediction then
      if bool_decide (prev_leaf_ leaf = 0) then Ret (p, path)
      else
        let* prev := get_data (prev_leaf_ leaf) s in
        let* last := last_key (data prev) in
        if bool_decide (key ≤ last)
        then let* path := correct_path leaf true path s in Ret (prev_leaf_ leaf, path)
        else Ret (p, path)
    else
      if bool_decide (next_leaf_ leaf = 0) then Ret (p, path)
      else
        let* next := get_data (next_leaf_ leaf) s in
        let* first := first_key (data next) in
        if bool_decide (first ≤ key)
        then let* path := correct_path leaf false path s in Ret (next_leaf_ leaf, path)
        else Ret (p, path)
  else Ret (p, path).

Definition push (p i : Z) (path : option (list TraversalNode)) : option (list TraversalNode) := cons (p, i) <$> path.

Fixpoint get_leaf_loop (fuel : nat) (key p : Z) m (path : option (list TraversalNode)) s
    : res (Z * option (list TraversalNode)) :=
  match fuel with
  | O => Diverge
  | S fuel =>
      let bucketID := bucket_of key m in
      let path := push p bucketID path in
      let* cur := child bucketID m in
      let* n := get_node cur s in
      match n with
      | DataNode _ => correct_leaf key (predict_double key (mn_model m)) cur path s
      | ModelN m => get_leaf_loop fuel key cur m path s
      end
  end.
(** With a path when the caller wants one. *)
Definition get_leaf_with (key : Z) (path : option (list TraversalNode)) s : res (Z * option (list TraversalNode)) :=
  let path := push (superroot_ s) 0 path in
  let* n := get_node (root_node_ s) s in
  match n with
  | DataNode _ => Ret (root_node_ s, path)
  | ModelN m => get_leaf_loop (depth_fuel s) key (root_node_ s) m path s
  end.
Definition get_leaf (key : Z) s : res Z := let* (p, _) := get_leaf_with key None s in Ret p.
Definition get_leaf_path (key : Z) s : res (Z * list TraversalNode) :=
  let* (p, path) := get_leaf_with key (Some []) s in let* path := of_option path in Ret (p, path).

(** ** Links between leaves *)
Definition if_not_null p (f : Alex → res Alex) s : res Alex := if bool_decide (p = 0) then Ret s else f s.

Definition link_data_nodes (old_leaf left_leaf right_leaf : Z) s : res Alex :=
  let* old := get_data old_leaf s in
  let* s := if_not_null (prev_leaf_ old) (modify_leaf (prev_leaf_ old) (with_next left_leaf)) s in
  let* s := modify_leaf left_leaf (with_prev (prev_leaf_ old)) s in
  let* s := modify_leaf left_leaf (with_next right_leaf) s in
  let* s := modify_leaf right_leaf (with_prev left_leaf) s in
  let* s := modify_leaf right_leaf (with_next (next_leaf_ old)) s in
  if_not_null (next_leaf_ old) (modify_leaf (next_leaf_ old) (with_prev right_leaf)) s.

(** [NodeIterator]: the node reached and the stack, its top first. *)
Fixpoint distinct_children (c : list (option Z)) : res (list Z) :=
  match c with
  | [] => Ret []
  | x :: c =>
      let* x := of_option x in
      let* rest := distinct_children c in
      Ret (if bool_decide (head rest = Some x) then rest else x :: rest)
  end.
Definition push_children p (stack : list Z) s : res (list Z) :=
  let* n := get_node p s in
  match n with
  | DataNode _ => Ret stack
  | ModelN m => let* c := distinct_children (children_ m) in Ret (c ++ stack)
  end.

Fixpoint link_loop (fuel : nat) (cur : Z) (stack : list Z) (prev_leaf : Z) s : res Alex :=
  match fuel with
  | O => Diverge
  | S fuel =>
      let* n := get_node cur s in
      let* (s, prev_leaf) :=
        match n with
        | DataNode _ =>
            if bool_decide (prev_leaf = 0) then Ret (s, cur)
            else let* s := modify_leaf prev_leaf (with_next cur) s in
                 let* s := modify_leaf cur (with_prev prev_leaf) s in
                 Ret (s, cur)
        | ModelN _ => Ret (s, prev_leaf)
        end in
      match stack with
      | [] => Ret s
      | cur :: stack => let* stack := push_children cur stack s in link_loop fuel cur stack prev_leaf s
      end
  end.
Definition link_all_data_nodes s : res Alex :=
  let* stack := push_children (root_node_ s) [] s in link_loop (depth_fuel s) (root_node_ s) stack 0 s.

(** ** The superroot *)
Definition update_superroot_pointer s : res Alex :=
  let* root := get_node (root_node_ s) s in
  let* m := get_model (superroot_ s) s in
  let* m := set_child 0 (root_node_ s) m in
  Ret (set_model (superroot_ s)
    (mkModelNode (mn_model m) (num_children_ m) (children_ m) (level_ root - 1) (mn_duplication_factor_ m)) s).

Definition create_superroot s : res Alex :=
  if bool_decide (root_node_ s = 0) then Ret s
  else
    let* s := delete_node (superroot_ s) s in
    let* root := get_node (root_node_ s) s in
    let '(p, s) := alloc_node (ModelN (mkModelNode model0 1 [None] (level_ root - 1) 0)) s in
    update_superroot_pointer (mkAlex (heap s) (next_addr s) (root_node_ s) p (stats_ s) (istats_ s)).

(** The model that maps the interval [[min, max]] to [[0, 1]]. *)
Definition unit_model (min max : Z) : LinearModel :=
  let a := d_div (d_of_Z 1) (d_of_Z (u64 (max - min))) in
  mkModel a (d_mul (d_mul (d_of_Z (-1)) (d_of_Z min)) a).

Definition update_superroot_key_domain s : res Alex :=
  let* lo := get_min_key s in
  let* hi := get_max_key s in
  let n := stat_num_keys (stats_ s) in
  let* m := get_model (superroot_ s) s in
  Ret (set_model (superroot_ s)
         (mkModelNode (unit_model lo hi) (num_children_ m) (children_ m) (mn_level_ m) (mn_duplication_factor_ m))
         (with_istats (mkIStats lo hi 0 0 n n) s)).
End tree.
