(* ===== verification/AlexTreeOps.v ===== *)
(** * ALEX: the operations of the tree ([include/alex/alex.h])

    Construction, bulk loading, lookups, inserts with their splits and root
    expansions, erases with merges.  The parameters of the index are those of
    the source ([Params], [DerivedParams]); splitting upwards and the top-down
    fanout search are switched off in it and left out, as are sampled costs. *)
From S2P Require Import Prelude Ieee AlexBase AlexNode AlexOps AlexCost AlexFanout AlexTree.

Section ops.
Context (junk : Z → Z) (log2 : double → double).
Context (max_fanout max_data_node_slots : Z) (expected_insert_frac : double) (approximate_model_computation : bool)
  (splitting_policy_method : Z).
Implicit Types (s : Alex) (p : Z) (l : Leaf) (m : ModelNode).

(** ** New leaves *)
(** [new data_node_type()]: 16 MB of slots by default. *)
Definition new_leaf (n : AlexDataNode) s : Z * Alex := alloc_node (DataNode (mkLeaf n 0 0 0 0)) s.

Definition bulk_load_leaf_node_from_existing (existing : AlexDataNode) (left right : Z) (compute_cost : bool)
    (tree_node : option FTNode) (reuse_model keep_left keep_right : bool) s : res (Z * Alex) :=
  let n := node_new 1048576 in
  let s := add_nodes 0 1 s in
  let* n :=
    match tree_node with
    | Some t => bulk_load_from_existing junk existing left right keep_left keep_right
                  (Some (mkModel (ft_a t) (ft_b t))) (ft_num_keys t) n
    | None =>
        if reuse_model then
          let* num_actual_keys := num_keys_in_range left right existing in
          let m := node_model existing in
          let m := mkModel (a_ m) (d_sub (b_ m) (d_of_Z left)) in
          let m := expand (d_div (d_of_Z num_actual_keys) (d_of_Z (right - left))) m in
          bulk_load_from_existing junk existing left right keep_left keep_right (Some m) num_actual_keys n
        else bulk_load_from_existing junk existing left right keep_left keep_right None (-1) n
    end in
  let n := with_max_slots max_data_node_slots n in
  let* n :=
    if compute_cost then
      let* (c, n) := compute_expected_cost log2 (frac_inserts existing) n in Ret (with_cost c n)
    else Ret n in
  Ret (new_leaf n s).

(** ** Splitting *)
(** Keys the boundary left on the wrong side move to the left node: the
    boundary, and how many moved. *)
Fixpoint move_right (fuel : nat) (pm : LinearModel) (bucket : Z) (n : AlexDataNode) (boundary moved : Z) : res (Z * Z) :=
  match fuel with
  | O => Diverge
  | S fuel =>
      let cap := data_capacity_ n in
      if bool_decide (boundary < cap) then
        let* k := rd (key_slots_ (slots_ n)) boundary in
        if bool_decide (k ≠ kEndSentinel_) && bool_decide (predict k pm < bucket) then
          let* next := get_next_filled_position boundary false n in
          move_right fuel pm bucket n (Z.min (next + 1) cap) (moved + 1)
        else Ret (boundary, moved)
      else Ret (boundary, moved)
  end.

Definition appending (mostly : bool) (bucket from to : Z) : bool :=
  mostly && bool_decide (from ≤ bucket) && bool_decide (bucket < to).

Definition create_two_new_data_nodes (old_node parent : Z) (duplication_factor : Z) (reuse_model : bool)
    (start_bucketID : Z) s : res Alex :=
  let* old := get_data old_node s in
  let* m := get_model parent s in
  let pm := mn_model m in
  let num_buckets := Z.shiftl 1 duplication_factor in
  let end_bucketID := start_bucketID + num_buckets in
  let mid_bucketID := start_bucketID + num_buckets / 2 in
  let n := data old in
  let append_mostly_right := is_append_mostly_right n in
  let appending_right_bucketID := bucket_of (max_key_ (extremes_ n)) m in
  let append_mostly_left := is_append_mostly_left n in
  let appending_left_bucketID := bucket_of (min_key_ (extremes_ n)) m in
  let* (right_boundary, n) := lower_bound_double (bucket_boundary mid_bucketID pm) n in
  let* (right_boundary, _) := move_right (keys_fuel n) pm mid_bucketID n right_boundary 0 in
  let s := set_data old_node (with_data n old) s in
  let* (left_leaf, s) :=
    bulk_load_leaf_node_from_existing n 0 right_boundary true None reuse_model
      (appending append_mostly_right appending_right_bucketID start_bucketID mid_bucketID)
      (appending append_mostly_left appending_left_bucketID start_bucketID mid_bucketID) s in
  let* (right_leaf, s) :=
    bulk_load_leaf_node_from_existing n right_boundary (data_capacity_ n) true None reuse_model
      (appending append_mostly_right appending_right_bucketID mid_bucketID end_bucketID)
      (appending append_mostly_left appending_left_bucketID mid_bucketID end_bucketID) s in
  let place := with_place (mn_level_ m + 1) (u8 (duplication_factor - 1)) in
  let* s := modify_leaf left_leaf place s in
  let* s := modify_leaf right_leaf place s in
  let* s := set_children start_bucketID mid_bucketID left_leaf parent s in
  let* s := set_children mid_bucketID end_bucketID right_leaf parent s in
  link_data_nodes old_node left_leaf right_leaf s.

Definition with_expected_of (t : FTNode) (n : AlexDataNode) : AlexDataNode :=
  with_expected (ft_expected_avg_search_iterations t) (ft_expected_avg_shifts t) n.

(** The children of a fanout tree, from bucket [cur] and slot [left_boundary]
    on; [reassigned] keys of the next node were moved to the previous one. *)
Fixpoint create_loop (nodes : list FTNode) (old : AlexDataNode) (parent fanout_tree_depth extra_duplication_factor : Z)
    (right_append left_append : bool * Z) (cur left_boundary reassigned prev_leaf : Z) s : res (Z * Alex) :=
  match nodes with
  | [] => Ret (prev_leaf, s)
  | t :: nodes =>
      let* m := get_model parent s in
      let duplication_factor := u8 (fanout_tree_depth - ft_level t + extra_duplication_factor) in
      let child_node_repeats := Z.shiftl 1 duplication_factor in
      let keep_left := appending right_append.1 right_append.2 cur (cur + child_node_repeats) in
      let keep_right := appending left_append.1 left_append.2 cur (cur + child_node_repeats) in
      let* (right_boundary, moved) :=
        move_right (keys_fuel old) (mn_model m) (cur + child_node_repeats) old (ft_right_boundary t) 0 in
      let t := set_num_keys (ft_num_keys t - reassigned + moved) t in
      let* (child_node, s) :=
        bulk_load_leaf_node_from_existing old left_boundary right_boundary false (Some t) false keep_left keep_right s in
      let* s := modify_leaf child_node (λ l,
        with_prev prev_leaf (with_place (mn_level_ m + 1) duplication_factor
          (with_data (with_expected_of t (with_cost (ft_cost t) (data l))) l))) s in
      let* s := if_not_null prev_leaf (modify_leaf prev_leaf (with_next child_node)) s in
      let* s := set_children cur (cur + child_node_repeats) child_node parent s in
      create_loop nodes old parent fanout_tree_depth extra_duplication_factor right_append left_append
        (cur + child_node_repeats) right_boundary moved child_node s
  end.

Definition create_new_data_nodes (old_node parent fanout_tree_depth : Z) (nodes : list FTNode)
    (start_bucketID extra_duplication_factor : Z) s : res Alex :=
  let* old := get_data old_node s in
  let* m := get_model parent s in
  let n := data old in
  let* (prev_leaf, s) :=
    create_loop nodes n parent fanout_tree_depth extra_duplication_factor
      (is_append_mostly_right n, bucket_of (max_key_ (extremes_ n)) m)
      (is_append_mostly_left n, bucket_of (min_key_ (extremes_ n)) m)
      start_bucketID 0 0 (prev_leaf_ old) s in
  let* s := modify_leaf prev_leaf (with_next (next_leaf_ old)) s in
  if_not_null (next_leaf_ old) (modify_leaf (next_leaf_ old) (with_prev prev_leaf)) s.

Definition split_downwards (parent bucketID fanout_tree_depth : Z) (nodes : list FTNode) (reuse_model : bool) s
    : res (Z * Alex) :=
  let* pm := get_model parent s in
  let* leaf_p := child bucketID pm in
  let* leaf := get_data leaf_p s in
  let dup := leaf_duplication_factor_ leaf in
  let fanout := Z.shiftl 1 fanout_tree_depth in
  let repeats := Z.shiftl 1 dup in
  let start_bucketID := start_of bucketID repeats in
  let end_bucketID := start_bucketID + repeats in
  let left_boundary_value := bucket_boundary start_bucketID (mn_model pm) in
  let right_boundary_value := bucket_boundary end_bucketID (mn_model pm) in
  let a := d_mul (d_div (d_of_Z 1) (d_sub right_boundary_value left_boundary_value)) (d_of_Z fanout) in
  let nm := mkModel a (d_mul (SFopp a) left_boundary_value) in
  let '(new_node, s) := alloc_node
    (ModelN (mkModelNode nm fanout (replicate (Z.to_nat fanout) None) (leaf_level_ leaf) dup)) s in
  let* s :=
    match nodes with
    | [] => create_two_new_data_nodes leaf_p new_node fanout_tree_depth reuse_model 0 s
    | _ => create_new_data_nodes leaf_p new_node fanout_tree_depth nodes 0 0 s
    end in
  let* s := delete_node leaf_p s in
  let s := add_nodes 1 (-1) s in
  let* s := set_children start_bucketID end_bucketID new_node parent s in
  let* s := if bool_decide (parent = superroot_ s) then update_superroot_pointer (with_root new_node s) else Ret s in
  Ret (new_node, s).

Definition split_sideways (parent bucketID fanout_tree_depth : Z) (nodes : list FTNode) (reuse_model : bool) s
    : res Alex :=
  let* pm := get_model parent s in
  let* leaf_p := child bucketID pm in
  let* leaf := get_data leaf_p s in
  let fanout := Z.shiftl 1 fanout_tree_depth in
  let repeats := Z.shiftl 1 (leaf_duplication_factor_ leaf) in
  let* (repeats, bucketID, s) :=
    if bool_decide (repeats < fanout) then
      let* (expansion_factor, s) := expand_model (fanout_tree_depth - leaf_duplication_factor_ leaf) parent s in
      Ret (repeats * expansion_factor, bucketID * expansion_factor, s)
    else Ret (repeats, bucketID, s) in
  let start_bucketID := start_of bucketID repeats in
  let* leaf := get_data leaf_p s in
  let dup := leaf_duplication_factor_ leaf in
  let* s :=
    match nodes with
    | [] => create_two_new_data_nodes leaf_p parent (Z.max fanout_tree_depth dup) reuse_model start_bucketID s
    | _ => create_new_data_nodes leaf_p parent fanout_tree_depth nodes start_bucketID
             (Z.max 0 (dup - fanout_tree_depth)) s
    end in
  let* s := delete_node leaf_p s in
  Ret (add_nodes 0 (-1) s).

(** ** Construction and bulk loading *)
Definition istats0 : InternalStats := mkIStats UINT64_MAX 0 0 0 0 0.
Definition empty_root s : res Alex :=
  let* n := bulk_load junk [] 0 None false (node_new 1048576) in
  let '(p, s) := new_leaf n s in
  create_superroot (with_root p s).
Definition Alex_new : res Alex :=
  let* s := empty_root (mkAlex ∅ 1 0 0 (mkTStats 0 0 0) istats0) in Ret (add_nodes 0 1 s).

Definition max_data_node_keys : Z := d_to_int (d_mul (d_of_Z max_data_node_slots) kInitDensity_).
(** [num_keys <= max_data_node_slots * kInitDensity_] *)
Definition fits (num_keys : Z) : bool := d_le (d_of_Z num_keys) (d_mul (d_of_Z max_data_node_slots) kInitDensity_).

(** The data node of a part of the input; [dup] is set by the caller. *)
Definition load_leaf (values : list (Z * Z)) (num_keys level : Z) (cost : double) (data_model : option LinearModel) s
    : res (Z * Alex) :=
  let* n := bulk_load junk values num_keys data_model approximate_model_computation (node_new max_data_node_slots) in
  Ret (alloc_node (DataNode (mkLeaf (with_cost cost n) 0 0 level 0)) (add_nodes 0 1 s)).

(** [bulk_load_node]: the node it is called with is a model node with the
    model [nm] and the cost [cost], which it replaces. *)
Fixpoint bulk_load_node (fuel : nat) (values : list (Z * Z)) (num_keys : Z) (nm : LinearModel) (level : Z)
    (cost : double) (total_keys : Z) (data_model : option LinearModel) s : res (Z * Alex) :=
  match fuel with
  | O => Diverge
  | S fuel =>
      if fits num_keys && (d_lt cost kNodeLookupsWeight || SFeqb (a_ nm) (d_of_Z 0)) then
        load_leaf values num_keys level cost data_model s
      else
        let* (used, depth, tree_cost) :=
          find_best_fanout_bottom_up log2 values num_keys nm cost total_keys max_fanout max_data_node_keys
            expected_insert_frac approximate_model_computation in
        if d_lt tree_cost cost || negb (fits num_keys) then
          let s := add_nodes 1 0 s in
          let* (used, depth) :=
            if bool_decide (depth = 0) then
              let depth := d_to_int (log2 (d_div (d_of_Z num_keys) (d_of_Z max_data_node_slots))) + 1 in
              let* (nodes, _) := compute_level log2 StdLess values num_keys nm total_keys depth max_data_node_keys
                                   expected_insert_frac approximate_model_computation in
              Ret (nodes, depth)
            else Ret (used, depth) in
          let fanout := Z.shiftl 1 depth in
          let '(model_node, s) := alloc_node
            (ModelN (mkModelNode (mkModel (d_mul (a_ nm) (d_of_Z fanout)) (d_mul (b_ nm) (d_of_Z fanout)))
                       fanout (replicate (Z.to_nat fanout) None) level 0)) s in
          let* (s, _) :=
            foldl (λ acc t,
              let* (s, cur) := acc in
              let dup := u8 (depth - ft_level t) in
              let repeats := Z.shiftl 1 dup in
              let boundary x := d_div (d_sub (d_div (d_of_Z x) (d_of_Z fanout)) (b_ nm)) (a_ nm) in
              let left_boundary := boundary cur in
              let right_boundary := boundary (cur + repeats) in
              let a := d_div (d_of_Z 1) (d_sub right_boundary left_boundary) in
              let cm := mkModel a (d_mul (SFopp a) left_boundary) in
              let part := slice values (ft_left_boundary t) (ft_right_boundary t) in
              let* (c, s) :=
                bulk_load_node fuel part (ft_right_boundary t - ft_left_boundary t) cm (level + 1) (ft_cost t)
                  total_keys (Some (mkModel (ft_a t) (ft_b t))) s in
              let* s := modify_node c (with_dup dup) s in
              let* n := get_node c s in
              let* s := match n with
                        | DataNode _ => modify_leaf c (λ l, with_data (with_expected_of t (data l)) l) s
                        | ModelN _ => Ret s
                        end in
              let* s := set_children cur (cur + repeats) c model_node s in
              Ret (s, cur + repeats)) (Ret (s, 0)) used in
          Ret (model_node, s)
        else load_leaf values num_keys level cost data_model s
  end.

Definition tree_bulk_load (fuel : nat) (values : list (Z * Z)) (num_keys : Z) s : res Alex :=
  if bool_decide (0 < stat_num_keys (stats_ s)) || bool_decide (num_keys ≤ 0) then Ret s
  else
    let* s := delete_node (root_node_ s) s in
    let s := add_keys (num_keys - stat_num_keys (stats_ s)) s in
    let* first := rd values 0 in
    let* final := rd values (num_keys - 1) in
    let* root_data_node_model := build_model values num_keys model0 approximate_model_computation in
    let* (cost, stats) :=
      compute_expected_cost_of log2 values num_keys kInitDensity_ expected_insert_frac (Some root_data_node_model) in
    let* (root, s) := bulk_load_node fuel values num_keys (unit_model first.1 final.1) 0 cost num_keys
                        (Some root_data_node_model) s in
    let s := with_root root s in
    let* n := get_node root s in
    let* s := match n with
              | DataNode _ => modify_leaf root (λ l,
                  with_data (with_expected (num_search_iterations stats) (AlexCost.num_shifts stats) (data l)) l) s
              | ModelN _ => Ret s
              end in
    let* s := create_superroot s in
    let* s := update_superroot_key_domain s in
    link_all_data_nodes s.

(** ** Lookups *)
Definition leaf_payload (p idx : Z) s : res Z := let* l := get_data p s in rd (payload_slots_ (slots_ (data l))) idx.

Definition tree_find (key : Z) s : res (option (Z * Z) * Alex) :=
  let* leaf := get_leaf key s in
  let* (idx, s) := on_data leaf (find_key key) s in
  Ret (if bool_decide (idx < 0) then None else Some (leaf, idx), s).

Definition get_payload (key : Z) s : res (option Z * Alex) :=
  let* (r, s) := tree_find key s in
  match r with
  | None => Ret (None, s)
  | Some (leaf, idx) => let* v := leaf_payload leaf idx s in Ret (Some v, s)
  end.

(** From an empty leaf, or one whose keys are all greater, back to a leaf with
    keys. *)
Fixpoint last_before (fuel : nat) (leaf : Z) s : res (Z * Z) :=
  match fuel with
  | O => Diverge
  | S fuel =>
      let* l := get_data leaf s in
      if bool_decide (prev_leaf_ l = 0) then let* i := first_pos (data l) in Ret (leaf, i)
      else
        let* prev := get_data (prev_leaf_ l) s in
        if bool_decide (0 < num_keys_ (data prev)) then let* i := last_pos (data prev) in Ret (prev_leaf_ l, i)
        else last_before fuel (prev_leaf_ l) s
  end.

(** The payload the returned pointer points to. *)
Definition tree_get_payload_last_no_greater_than (key : Z) s : res (Z * Alex) :=
  let* leaf := get_leaf key s in
  let* (pos, s) := on_data leaf (upper_bound key) s in
  let idx := pos - 1 in
  let* (leaf, idx) := if bool_decide (0 ≤ idx) then Ret (leaf, idx) else last_before (depth_fuel s) leaf s in
  let* v := leaf_payload leaf idx s in
  Ret (v, s).

(** ** Expanding the root *)
Definition kMinOutOfDomainKeys : Z := 5.
Definition kMaxOutOfDomainKeys : Z := 1000.
Definition kOutOfDomainToleranceFactor : Z := 2.

Definition should_expand (outside at_last_resize : Z) s : res bool :=
  let* root := get_node (root_node_ s) s in
  if is_leaf_ root then Ret false
  else
    let* b :=
      if bool_decide (kMinOutOfDomainKeys ≤ outside) then
        if bool_decide (at_last_resize = 0) then Fault
        else Ret (bool_decide
          (kOutOfDomainToleranceFactor * (Z.quot (stat_num_keys (stats_ s)) at_last_resize - 1) ≤ outside))
      else Ret false in
    Ret (b || bool_decide (kMaxOutOfDomainKeys ≤ outside)).
Definition should_expand_right s : res bool :=
  should_expand (num_keys_above_key_domain (istats_ s)) (num_keys_at_last_right_domain_resize (istats_ s)) s.
Definition should_expand_left s : res bool :=
  should_expand (num_keys_below_key_domain (istats_ s)) (num_keys_at_last_left_domain_resize (istats_ s)) s.

(** [static_cast<int>(std::ceil(x))] *)
Definition d_ceil_to_int (x : double) : Z :=
  match sf_trunc x with
  | Some z => let z := if d_lt (d_of_Z z) x then z + 1 else z in
              if bool_decide (- 2 ^ 31 ≤ z < 2 ^ 31) then z else - 2 ^ 31
  | None => - 2 ^ 31
  end.

Definition expansion_factor_for (difference domain_size : Z) : Z :=
  pow_2_round_up (d_ceil_to_int (d_div (d_add (d_of_Z difference) (d_of_Z domain_size)) (d_of_Z domain_size))).

(** The new bounds of the key domain, with unsigned arithmetic. *)
Definition new_bounds (expand_left : bool) (expansion_factor domain_size : Z) (i : InternalStats) : Z * Z :=
  let half_expanded_domain_size := u64 (u64 (Z.quot expansion_factor 2) * domain_size) in
  if expand_left then
    (if bool_decide (key_domain_max_ i / 2 < half_expanded_domain_size) then 0
     else u64 (u64 (key_domain_max_ i - half_expanded_domain_size) - half_expanded_domain_size),
     key_domain_max_ i)
  else
    (key_domain_min_ i,
     if bool_decide (UINT64_MAX / 2 - key_domain_min_ i / 2 < half_expanded_domain_size) then UINT64_MAX
     else u64 (u64 (key_domain_min_ i + half_expanded_domain_size) + half_expanded_domain_size)).

(** The root with room for the new pointers: its address, and where they are. *)
Definition widen_root (expand_left : bool) (expansion_factor : Z) (root : Z) m s : res (Z * Z * Z * Alex) :=
  let n := num_children_ m in
  if bool_decide (u64 (n * u64 expansion_factor) ≤ max_fanout) then
    let new_num_children := n * expansion_factor in
    let added := replicate (Z.to_nat (new_num_children - n)) None in
    let copied := take (Z.to_nat n) (children_ m) in
    let mm := mn_model m in
    let m' :=
      if expand_left then
        mkModelNode (mkModel (a_ mm) (d_add (b_ mm) (d_of_Z (new_num_children - n)))) new_num_children
          (added ++ copied) (mn_level_ m) (mn_duplication_factor_ m)
      else mkModelNode mm new_num_children (copied ++ added) (mn_level_ m) (mn_duplication_factor_ m) in
    let '(first, final) := if expand_left then (0, new_num_children - n) else (n, new_num_children) in
    Ret (root, first, final, set_model root m' s)
  else
    let mm := mn_model m in
    let b := d_div (b_ mm) (d_of_Z n) in
    let nm := mkModel (d_div (a_ mm) (d_of_Z n))
                (if expand_left then d_add b (d_of_Z (expansion_factor - 1)) else b) in
    let* c := wr (replicate (Z.to_nat expansion_factor) None) (if expand_left then expansion_factor - 1 else 0) (Some root) in
    let '(new_root, s) := alloc_node (ModelN (mkModelNode nm expansion_factor c (mn_level_ m - 1) 0)) s in
    let first := if expand_left then 0 else 1 in
    let* s := update_superroot_pointer (with_root new_root s) in
    Ret (new_root, first, first + expansion_factor - 1, s).

Section fill.
Context (root outermost n dup domain_size : Z).

Definition new_child (left right level : Z) s : res (Z * Alex) :=
  let* o := get_data outermost s in
  let* (c, s) := bulk_load_leaf_node_from_existing (data o) left right true None false false false s in
  let* s := modify_leaf c (with_place level dup) s in
  Ret (c, s).

Fixpoint fill_left (fuel : nat) (first in_bounds level i value left_boundary next : Z) s : res Alex :=
  match fuel with
  | O => Diverge
  | S fuel =>
      if bool_decide (first < i) && negb (bool_decide (i ≤ in_bounds)) then
        let right_boundary := left_boundary in
        let* (left_boundary, value, s) :=
          if bool_decide (i - n ≤ in_bounds) then Ret (0, value, s)
          else let value := u64 (value - domain_size) in
               let* (b, s) := on_data outermost (lower_bound value) s in Ret (b, value, s) in
        let* (c, s) := new_child left_boundary right_boundary level s in
        let* s := if_not_null next (modify_leaf next (with_prev c)) s in
        let* s := modify_leaf c (with_next next) s in
        let* s := set_children (i - n) i c root s in
        fill_left fuel first in_bounds level (i - n) value left_boundary c s
      else Ret s
  end.

Fixpoint fill_right (fuel : nat) (final in_bounds level i value right_boundary prev : Z) s : res Alex :=
  match fuel with
  | O => Diverge
  | S fuel =>
      if bool_decide (i < final) && negb (bool_decide (in_bounds ≤ i)) then
        let left_boundary := right_boundary in
        let* (right_boundary, value, s) :=
          if bool_decide (in_bounds ≤ i + n)
          then let* o := get_data outermost s in Ret (data_capacity_ (data o), value, s)
          else let value := u64 (value + domain_size) in
               let* (b, s) := on_data outermost (lower_bound value) s in Ret (b, value, s) in
        let* (c, s) := new_child left_boundary right_boundary level s in
        let* s := if_not_null prev (modify_leaf prev (with_next c)) s in
        let* s := modify_leaf c (with_prev prev) s in
        let* s := set_children i (i + n) c root s in
        fill_right fuel final in_bounds level (i + n) value right_boundary c s
      else Ret s
  end.
End fill.

Definition expand_root (key : Z) (expand_left : bool) s : res Alex :=
  let root := root_node_ s in
  let* m := get_model root s in
  let i := istats_ s in
  let lo := key_domain_min_ i in
  let hi := key_domain_max_ i in
  let domain_size := u64 (hi - lo) in
  let* bound := if expand_left then get_min_key s else get_max_key s in
  let difference := if expand_left then u64 (lo - Z.min key bound) else u64 (Z.max key bound - hi) in
  let expansion_factor := expansion_factor_for difference domain_size in
  let '(new_lo, new_hi) := new_bounds expand_left expansion_factor domain_size i in
  let nk := stat_num_keys (stats_ s) in
  let i := if expand_left
           then mkIStats lo hi (num_keys_above_key_domain i) 0 (num_keys_at_last_right_domain_resize i) nk
           else mkIStats lo hi 0 (num_keys_below_key_domain i) nk (num_keys_at_last_left_domain_resize i) in
  let s := with_istats i s in
  let* outermost := if expand_left then first_data_node s else last_data_node s in
  let* (root, first, final, s) := widen_root expand_left expansion_factor root m s in
  let* m := get_model root s in
  let n := num_children_ m - (final - first) in
  let* log_n := log_2_round_down n in
  let dup := u8 log_n in
  let level := mn_level_ m + 1 in
  let fuel := S (Z.to_nat (final - first)) in
  let* s :=
    if expand_left then
      let in_bounds := Z.max first (predict new_lo (mn_model m)) in
      let* (b, s) := on_data outermost (lower_bound lo) s in
      fill_left root outermost n dup domain_size fuel first in_bounds level final lo b outermost s
    else
      let in_bounds := Z.min final (predict new_hi (mn_model m) + 1) in
      let* (b, s) := on_data outermost (lower_bound hi) s in
      fill_right root outermost n dup domain_size fuel final in_bounds level first hi b 0 s in
  let* m := get_model root s in
  let* s :=
    if expand_left then
      let* (_, s) := on_data outermost (erase_range junk new_lo lo false) s in
      let* last_new_leaf := child (final - 1) m in
      let* s := modify_leaf outermost (with_prev last_new_leaf) s in
      modify_leaf last_new_leaf (with_next outermost) s
    else
      let* (_, s) := on_data outermost (erase_range junk hi new_hi true) s in
      let* first_new_leaf := child first m in
      let* s := modify_leaf outermost (with_next first_new_leaf) s in
      modify_leaf first_new_leaf (with_prev outermost) s in
  let i := istats_ s in
  Ret (with_istats (mkIStats new_lo new_hi (num_keys_above_key_domain i) (num_keys_below_key_domain i)
         (num_keys_at_last_right_domain_resize i) (num_keys_at_last_left_domain_resize i)) s).

(** ** Inserting *)
Definition try_insert (key payload leaf : Z) s : res (Z * Z * Alex) :=
  let* l := get_data leaf s in
  let* (fail, pos, n) := insert junk true key payload (data l) in
  Ret (fail, pos, set_data leaf (with_data n l) s).

(** [expand existing data node and retrain model] *)
Definition retrain (leaf : Z) (t : FTNode) s : res Alex :=
  let* l := get_data leaf s in
  let n := data l in
  let* n := resize junk kMinDensity_ true (is_append_mostly_right n) (is_append_mostly_left n) n in
  Ret (set_data leaf (with_data (reset_stats (with_expected_of t (with_cost (ft_cost t) n))) l) s).

(** How the children of a full node are chosen: the depth of the fanout tree,
    0 to keep the node, and its used nodes, none for a split in two. *)
Definition split_plan (fail parent bucketID : Z) m s : res (Z * list FTNode * Alex) :=
  if bool_decide (splitting_policy_method = 0) || bool_decide (2 ≤ fail) then Ret (1, [], s)
  else
    let limit := if bool_decide (splitting_policy_method = 1) then 2 else max_fanout in
    let* c := child bucketID m in
    let* l := get_data c s in
    let* (n, nodes, depth) :=
      find_best_fanout_existing_node log2 (mn_model m) bucketID (leaf_duplication_factor_ l)
        (stat_num_keys (stats_ s)) limit (data l) in
    Ret (depth, nodes, set_data c (with_data n l) s).

(** One round of the loop that makes room: the parent and the leaf to try next. *)
Definition make_room (fail key parent leaf : Z) s : res (Z * Z * Alex) :=
  let* s := if bool_decide (parent = superroot_ s) then update_superroot_key_domain s else Ret s in
  let* m := get_model parent s in
  let bucketID := bucket_of key m in
  let* (fanout_tree_depth, nodes, s) := split_plan fail parent bucketID m s in
  if bool_decide (fanout_tree_depth = 0) then
    let* t := of_option (head nodes) in
    let* s := retrain leaf t s in Ret (parent, leaf, s)
  else
    let best_fanout := Z.shiftl 1 fanout_tree_depth in
    let reuse_model := bool_decide (fail = 3) in
    let* m := get_model parent s in
    let* super := get_model (superroot_ s) s in
    let* l := get_data leaf s in
    let should_split_downwards :=
      bool_decide (max_fanout < Z.quot (num_children_ m * best_fanout) (Z.shiftl 1 (leaf_duplication_factor_ l))) ||
      bool_decide (mn_level_ m = mn_level_ super) in
    let* (parent, s) :=
      if should_split_downwards then split_downwards parent bucketID fanout_tree_depth nodes reuse_model s
      else let* s := split_sideways parent bucketID fanout_tree_depth nodes reuse_model s in Ret (parent, s) in
    let* m := get_model parent s in
    let* leaf := get_child_node key m in
    Ret (parent, leaf, s).

(** [while (fail)] *)
Fixpoint insert_loop (fuel : nat) (fail key payload parent leaf pos : Z) s : res (Z * Z * bool * Alex) :=
  match fuel with
  | O => Diverge
  | S fuel =>
      if bool_decide (fail = 0) then Ret (leaf, pos, true, s)
      else
        let* (parent, leaf, s) := make_room fail key parent leaf s in
        let* (fail, pos, s) := try_insert key payload leaf s in
        if bool_decide (fail = -1) then Ret (leaf, pos, false, s)
        else insert_loop fuel fail key payload parent leaf pos s
  end.

Definition expand_domain (key : Z) s : res Alex :=
  let i := istats_ s in
  if bool_decide (key_domain_max_ i < key) then
    let s := with_istats (mkIStats (key_domain_min_ i) (key_domain_max_ i) (num_keys_above_key_domain i + 1)
      (num_keys_below_key_domain i) (num_keys_at_last_right_domain_resize i) (num_keys_at_last_left_domain_resize i)) s in
    let* b := should_expand_right s in
    if b : bool then expand_root key false s else Ret s
  else if bool_decide (key < key_domain_min_ i) then
    let s := with_istats (mkIStats (key_domain_min_ i) (key_domain_max_ i) (num_keys_above_key_domain i)
      (num_keys_below_key_domain i + 1) (num_keys_at_last_right_domain_resize i) (num_keys_at_last_left_domain_resize i)) s in
    let* b := should_expand_left s in
    if b : bool then expand_root key true s else Ret s
  else Ret s.

(** The leaf and slot of the pair, and whether it was inserted. *)
Definition tree_insert (fuel : nat) (key payload : Z) s : res (Z * Z * bool * Alex) :=
  let* s := expand_domain key s in
  let* leaf := get_leaf key s in
  let* (fail, pos, s) := try_insert key payload leaf s in
  if bool_decide (fail = -1) then Ret (leaf, pos, false, s)
  else if bool_decide (fail = 0) then Ret (leaf, pos, true, add_keys 1 s)
  else
    let* (_, path) := get_leaf_path key s in
    let* (parent, _) := of_option (head path) in
    let* (leaf, pos, inserted, s) := insert_loop fuel fail key payload parent leaf pos s in
    Ret (leaf, pos, inserted, if inserted : bool then add_keys 1 s else s).

(** ** Erasing *)
(** The sibling an empty leaf can be merged with. *)
Definition sibling (leaf bucketID : Z) (l : Leaf) m s : res (option (Z * Leaf * bool)) :=
  let repeats := Z.shiftl 1 (leaf_duplication_factor_ l) in
  let start_bucketID := start_of bucketID repeats in
  let end_bucketID := start_bucketID + repeats in
  let adjacent_to_right := bool_decide (Z.rem bucketID (Z.shiftl repeats 1) = Z.rem bucketID repeats) in
  let* c := child (if adjacent_to_right then end_bucketID else start_bucketID - 1) m in
  let* n := get_node c s in
  match n with
  | ModelN _ => Ret None
  | DataNode a => if bool_decide (leaf_duplication_factor_ l = leaf_duplication_factor_ a)
                  then Ret (Some (c, a, adjacent_to_right)) else Ret None
  end.

Fixpoint merge_siblings (fuel : nat) (leaf parent bucketID : Z) s : res (Z * Alex) :=
  match fuel with
  | O => Diverge
  | S fuel =>
      let* l := get_data leaf s in
      let* m := get_model parent s in
      let repeats := Z.shiftl 1 (leaf_duplication_factor_ l) in
      if bool_decide (num_keys_ (data l) = 0) && bool_decide (repeats < num_children_ m) then
        let* a := sibling leaf bucketID l m s in
        match a with
        | None => Ret (leaf, s)
        | Some (adjacent, _, adjacent_to_right) =>
            let start_bucketID := start_of bucketID repeats in
            let* s := set_children start_bucketID (start_bucketID + repeats) adjacent parent s in
            let* s :=
              if adjacent_to_right : bool then
                let* s := modify_leaf adjacent (with_prev (prev_leaf_ l)) s in
                if_not_null (prev_leaf_ l) (modify_leaf (prev_leaf_ l) (with_next adjacent)) s
              else
                let* s := modify_leaf adjacent (with_next (next_leaf_ l)) s in
                if_not_null (next_leaf_ l) (modify_leaf (next_leaf_ l) (with_prev adjacent)) s in
            let* s := modify_node adjacent (λ n, with_dup (u8 (duplication_factor_ n + 1)) n) s in
            let* s := delete_node leaf s in
            merge_siblings fuel adjacent parent bucketID (add_nodes 0 (-1) s)
        end
      else Ret (leaf, s)
  end.

(** Up the path: a parent whose only child is the leaf is replaced by it. *)
Fixpoint merge_up (path : list TraversalNode) (leaf : Z) s : res Alex :=
  match path with
  | [] => Fault
  | (parent, bucketID) :: rest =>
      let* (leaf, s) := merge_siblings (depth_fuel s) leaf parent bucketID s in
      let* l := get_data leaf s in
      let* m := get_model parent s in
      if bool_decide (Z.shiftl 1 (leaf_duplication_factor_ l) = num_children_ m) then
        let* s := modify_node leaf (with_dup (mn_duplication_factor_ m)) s in
        let repeats := Z.shiftl 1 (mn_duplication_factor_ m) in
        let* s := delete_node parent s in
        let s := add_nodes (-1) 0 s in
        if bool_decide (parent = root_node_ s) then update_superroot_pointer (with_root leaf s)
        else
          let* (grandparent, bucketID) := of_option (head rest) in
          let start_bucketID := start_of bucketID repeats in
          let* s := set_children start_bucketID (start_bucketID + repeats) leaf grandparent s in
          merge_up rest leaf s
      else Ret s
  end.

Definition merge (leaf key : Z) s : res Alex :=
  let* (leaf_dup, path) := get_leaf_path key s in
  let* l := get_data leaf s in
  let* d := get_data leaf_dup s in
  let* path :=
    if bool_decide (leaf_dup = leaf) then Ret (Some path)
    else if bool_decide (prev_leaf_ d = leaf) then correct_path l true (Some path) s
    else if bool_decide (next_leaf_ d = leaf) then correct_path l false (Some path) s
    else Ret None in
  match path with
  | None => Ret s
  | Some path => if bool_decide (length path = 1%nat) then Ret s else merge_up path leaf s
  end.

Definition count_erased (key num_erased : Z) s : Alex :=
  let i := istats_ s in
  if bool_decide (key_domain_max_ i < key) then
    with_istats (mkIStats (key_domain_min_ i) (key_domain_max_ i) (num_keys_above_key_domain i - num_erased)
      (num_keys_below_key_domain i) (num_keys_at_last_right_domain_resize i) (num_keys_at_last_left_domain_resize i)) s
  else if bool_decide (key < key_domain_min_ i) then
    with_istats (mkIStats (key_domain_min_ i) (key_domain_max_ i) (num_keys_above_key_domain i)
      (num_keys_below_key_domain i - num_erased) (num_keys_at_last_right_domain_resize i)
      (num_keys_at_last_left_domain_resize i)) s
  else s.

Definition erase_with (f : AlexDataNode → res (Z * AlexDataNode)) (key : Z) s : res (Z * Alex) :=
  let* leaf := get_leaf key s in
  let* (num_erased, s) := on_data leaf f s in
  let s := add_keys (- num_erased) s in
  let* l := get_data leaf s in
  let* s := if bool_decide (num_keys_ (data l) = 0) then merge leaf key s else Ret s in
  Ret (num_erased, count_erased key num_erased s).
Definition tree_erase (key : Z) : Alex → res (Z * Alex) := erase_with (erase junk key) key.
Definition tree_erase_one (key : Z) : Alex → res (Z * Alex) := erase_with (erase_one junk key) key.
End ops.
