(* ===== verification/AlexEnds.v ===== *)
(** * ALEX data nodes: the ends of a node and its floor

    [first_pos], [last_pos], [first_key] and [last_key], and the slot before
    [upper_bound], which the floor lookups of the tree read. *)
From S2P Require Import Prelude Ieee AlexBase AlexNode AlexOps AlexInv AlexSearch.

Section ends.
Implicit Types (n : AlexDataNode) (t : slots) (cap i j key : Z) (K P : Z → Z) (E : Z → bool).

Lemma exists_up_spec cap t K P E : view cap t K P E → ∀ fuel i, 0 ≤ i → i + Z.of_nat fuel = cap →
  ∃ o, exists_up fuel cap t i = Ret o ∧
    match o with
    | Some j => i ≤ j < cap ∧ E j = true ∧ ∀ x, i ≤ x < j → E x = false
    | None => ∀ x, i ≤ x < cap → E x = false
    end.
Proof.
  intros Hv. induction fuel as [|fuel IH]; intros i Hi Hf; cbn [exists_up]; [exists None; split; [done|lia]|].
  rewrite (check_exists_view _ _ _ _ _ i Hv), res_bind_ret by lia. destruct (E i) eqn:Ei.
  - exists (Some i). split; [done|]. split; [lia|]. split; [done|lia].
  - destruct (IH (i + 1)) as (o & -> & Ho); [lia|lia|]. exists o. split; [done|]. destruct o as [j|].
    + destruct Ho as (Hj & Ej & Hg). split; [lia|]. split; [done|]. intros x Hx. destruct (decide (x = i)) as [->|]; [done|apply Hg; lia].
    + intros x Hx. destruct (decide (x = i)) as [->|]; [done|apply Ho; lia].
Qed.

Lemma exists_down_spec cap t K P E : view cap t K P E → ∀ fuel i, i < cap → Z.of_nat fuel = i + 1 →
  ∃ o, exists_down fuel cap t i = Ret o ∧
    match o with
    | Some j => 0 ≤ j ≤ i ∧ E j = true ∧ ∀ x, j < x ≤ i → E x = false
    | None => ∀ x, 0 ≤ x ≤ i → E x = false
    end.
Proof.
  intros Hv. induction fuel as [|fuel IH]; intros i Hi Hf; cbn [exists_down]; [exists None; split; [done|lia]|].
  rewrite (check_exists_view _ _ _ _ _ i Hv), res_bind_ret by lia. destruct (E i) eqn:Ei.
  - exists (Some i). split; [done|]. split; [lia|]. split; [done|lia].
  - destruct (IH (i - 1)) as (o & -> & Ho); [lia|lia|]. exists o. split; [done|]. destruct o as [j|].
    + destruct Ho as (Hj & Ej & Hg). split; [lia|]. split; [done|]. intros x Hx. destruct (decide (x = i)) as [->|]; [done|apply Hg; lia].
    + intros x Hx. destruct (decide (x = i)) as [->|]; [done|apply Ho; lia].
Qed.

(** The first pair of a node. *)
Lemma first_spec n :
  node_ok n → first_key n = Ret (default UINT64_MAX (head (contents n).*1)) ∧
  ∃ i, first_pos n = Ret i ∧ 0 ≤ i < data_capacity_ n ∧
    (contents n ≠ [] → rd (payload_slots_ (slots_ n)) i = Ret (default 0 (head (contents n).*2))).
Proof.
  intros Hok. pose proof (ok_capacity n Hok) as Hcap. destruct (node_ok_self n Hok) as [Hv _].
  unfold first_key, first_pos, contents.
  destruct (exists_up_spec _ _ _ _ _ Hv (Z.to_nat (data_capacity_ n)) 0) as (o & -> & Ho); [lia|lia|]. rewrite !res_bind_ret.
  destruct o as [j|].
  - destruct Ho as (Hj & Ej & Hg). rewrite (listing_app _ _ _ 0 j), (listing_gaps _ _ _ 0 j), (listing_cons _ _ _ j), Ej by (done || lia).
    cbn. split; [by rewrite (rd_key_view _ _ _ _ _ j Hv) by lia|]. exists j. split; [done|]. split; [lia|]. intros _.
    by rewrite (rd_payload_view _ _ _ _ _ j Hv) by lia.
  - rewrite listing_gaps by done. cbn. split; [done|]. exists 0. split; [done|]. split; [lia|done].
Qed.

(** The last pair of a node. *)
Lemma last_spec n :
  node_ok n → last_key n = Ret (default 0 (last (contents n).*1)) ∧
  ∃ i, last_pos n = Ret i ∧ 0 ≤ i < data_capacity_ n ∧
    (contents n ≠ [] → rd (payload_slots_ (slots_ n)) i = Ret (default 0 (last (contents n).*2))).
Proof.
  intros Hok. pose proof (ok_capacity n Hok) as Hcap. destruct (node_ok_self n Hok) as [Hv _].
  unfold last_key, last_pos, contents.
  destruct (exists_down_spec _ _ _ _ _ Hv (Z.to_nat (data_capacity_ n)) (data_capacity_ n - 1)) as (o & -> & Ho); [lia|lia|].
  rewrite !res_bind_ret. destruct o as [j|].
  - destruct Ho as (Hj & Ej & Hg).
    rewrite (listing_app _ _ _ 0 (j + 1)), (listing_app _ _ _ 0 j), listing_one, Ej, (listing_gaps _ _ _ (j + 1)), app_nil_r
      by (lia || (intros; apply Hg; lia)).
    rewrite !fmap_app. cbn. rewrite !last_snoc. cbn. split; [by rewrite (rd_key_view _ _ _ _ _ j Hv) by lia|].
    exists j. split; [done|]. split; [lia|]. intros _. by rewrite (rd_payload_view _ _ _ _ _ j Hv) by lia.
  - rewrite listing_gaps by (intros; apply Ho; lia). cbn. split; [done|]. exists 0. split; [done|]. split; [lia|done].
Qed.

Lemma last_pos_at n :
  node_ok n → contents n ≠ [] → ∃ i init kp, last_pos n = Ret i ∧ 0 ≤ i < data_capacity_ n ∧ contents n = init ++ [kp] ∧ suffix n i = [kp].
Proof.
  intros Hok Hne. pose proof (ok_capacity n Hok) as Hcap. destruct (node_ok_self n Hok) as [Hv _]. unfold last_pos.
  destruct (exists_down_spec _ _ _ _ _ Hv (Z.to_nat (data_capacity_ n)) (data_capacity_ n - 1)) as (o & -> & Ho); [lia|lia|].
  rewrite res_bind_ret. destruct o as [j|].
  - destruct Ho as (Hj & Ej & Hg). exists j, (between n 0 j), (key_at (slots_ n) j, pay_at (slots_ n) j).
    assert (suffix n j = [(key_at (slots_ n) j, pay_at (slots_ n) j)]) as E.
    { unfold suffix. rewrite (listing_cons _ _ _ j), Ej, (listing_gaps _ _ _ (j + 1)) by (lia || (intros; apply Hg; lia)). done. }
    split; [done|]. split; [lia|]. split; [|done]. rewrite <- E. apply listing_app; lia.
  - destruct Hne. apply listing_gaps. intros i Hi. apply Ho. lia.
Qed.

(** [upper_bound], and the pair before it. *)
Lemma upper_bound_at n key :
  node_ok n → ∃ pos n', upper_bound key n = Ret (pos, n') ∧ same_node n n' ∧ 0 ≤ pos ≤ data_capacity_ n ∧
    between n 0 pos = filter (λ kp, kp.1 ≤ key) (contents n) ∧ suffix n pos = filter (λ kp, key < kp.1) (contents n) ∧
    (key < kEndSentinel_ → 0 < pos → ex (bitmap_ (slots_ n)) (pos - 1) = true).
Proof.
  intros Hok. pose proof (ok_capacity n Hok) as Hcap. unfold upper_bound.
  destruct (same_node_ok n (add_lookup n) (same_node_lookup n) Hok) as [Hok1 _].
  destruct (search_upper (predict_position key (add_lookup n)) key (add_lookup n) Hok1) as (pos & n1 & -> & Hsame & Hup);
    [apply predict_position_range; cbn; lia|]. change (is_upper n key pos) in Hup. destruct Hup as (Hp & Hlo & Hhi).
  exists pos, n1. split; [done|]. split; [eapply same_node_trans; [apply same_node_lookup|done]|]. split; [done|].
  destruct (listing_split (data_capacity_ n) (key_at (slots_ n)) (pay_at (slots_ n)) (ex (bitmap_ (slots_ n))) key pos Hp Hlo Hhi) as [Hb Hs].
  split; [exact Hb|]. split; [exact Hs|]. intros Hk Hpos. destruct (ex (bitmap_ (slots_ n)) (pos - 1)) eqn:He; [done|].
  pose proof (ok_gaps n Hok (pos - 1) ltac:(lia) He) as Hg. specialize (Hlo (pos - 1) ltac:(lia)).
  case_decide; [|lia]. specialize (Hhi pos ltac:(lia)). replace (pos - 1 + 1) with pos in Hg by lia. lia.
Qed.

Lemma upper_bound_spec n key :
  node_ok n → key < kEndSentinel_ →
  ∃ pos n', upper_bound key n = Ret (pos, n') ∧ same_node n n' ∧ 0 ≤ pos ≤ data_capacity_ n ∧
    let below := filter (λ kp, kp.1 ≤ key) (contents n) in
    (pos = 0 → below = []) ∧
    (0 < pos → below ≠ [] ∧ rd (payload_slots_ (slots_ n')) (pos - 1) = Ret (default 0 (last below.*2))).
Proof.
  intros Hok Hk. destruct (node_ok_self n Hok) as [Hv _].
  destruct (upper_bound_at n key Hok) as (pos & n1 & E & Hs & Hp & Hb & _ & He). exists pos, n1. split; [done|]. split; [done|]. split; [done|].
  rewrite <- Hb. split; [intros ->; by apply listing_nil|]. intros Hpos. specialize (He Hk Hpos). unfold between.
  rewrite (listing_app _ _ _ 0 (pos - 1)) by lia. pose proof (listing_one (key_at (slots_ n)) (pay_at (slots_ n)) (ex (bitmap_ (slots_ n))) (pos - 1)) as H1.
  replace (pos - 1 + 1) with pos in H1 by lia. rewrite H1, He, fmap_app. cbn. rewrite last_snoc. split; [by intros [_ ?]%app_nil|].
  assert (slots_ n1 = slots_ n) as -> by (by destruct Hs as [c ->]). by rewrite (rd_payload_view _ _ _ _ _ (pos - 1) Hv) by lia.
Qed.
End ends.
