(* ===== verification/AlexRoute.v ===== *)
(** * ALEX: predictions are monotone

    A model with a slope of at least 0 sends greater keys to greater buckets,
    whatever its arithmetic rounds, as long as the prediction fits an [int];
    beyond, a key is sent to the first bucket. *)
From S2P Require Import Prelude Ieee IeeeMono IeeeLimit AlexBase AlexNode AlexOps AlexCost AlexFanout AlexTree.

Definition monotone (m : LinearModel) : Prop := binary64 (a_ m) ∧ binary64 (b_ m) ∧ 0 ≤ sval (a_ m).
#[export] Instance monotone_dec m : Decision (monotone m).
Proof. unfold monotone. apply _. Defined.

(** Below [2 ^ 31], as far as an [int] goes. *)
Definition fits_int (x : double) : Prop :=
  match x with
  | S754_infinity s => s = true
  | S754_nan => False
  | _ => sval x < 2 ^ (31 + scale)
  end.
#[export] Instance fits_int_dec x : Decision (fits_int x).
Proof. destruct x; cbn [fits_int]; apply _. Defined.

(** Rounded, or an infinity. *)
Definition extended (x : double) : Prop := match x with S754_infinity _ => True | _ => rounded x end.

Section route.
Implicit Types (k key : Z) (m : LinearModel) (x y : double) (n : ModelNode).

Lemma rne_below v p : 0 ≤ v < 2 ^ p → shift_of v ≤ p → rne v ≤ 2 ^ p.
Proof. intros Hv Hs. unfold rne. pose proof (shift_of_pos v). apply rq_below; lia. Qed.

Lemma d_of_key k :
  0 ≤ k < 2 ^ 64 → finite (d_of_Z k) ∧ rounded (d_of_Z k) ∧ sval (d_of_Z k) = rne (k * 2 ^ scale) ∧
    0 ≤ sval (d_of_Z k) < 2 ^ (65 + scale).
Proof.
  intros Hk. pose proof scale_eq. pose proof (d_of_Z_holds k) as Hh. assert (0 ≤ k * 2 ^ scale) as H0 by lia.
  assert (k * 2 ^ scale < 2 ^ (64 + scale)) as Hlt.
  { rewrite (Z.pow_add_r 2 64) by lia. apply Z.mul_lt_mono_pos_r; lia. }
  assert (rne (k * 2 ^ scale) ≤ 2 ^ (64 + scale)) as Hr.
  { apply rne_below; [done|]. unfold shift_of, lowest_shift. destruct (decide (k = 0)) as [->|]; [rewrite Z.mul_0_l; change (Z.log2 0) with 0; lia|].
    assert (Z.log2 (k * 2 ^ scale) < 64 + scale) by (apply Z.log2_lt_pow2; lia). lia. }
  assert (2 ^ (64 + scale) < 2 ^ (65 + scale)) by (apply Z.pow_lt_mono_r; lia).
  assert (2 ^ (65 + scale) < limit) by (unfold limit; apply Z.pow_lt_mono_r; lia).
  pose proof (rne_nonneg _ H0). destruct (d_of_Z k) as [s|s| |s p e]; cbn [holds] in Hh; [|exfalso|done|].
  - rewrite rne_signed_pos in Hh by done. destruct Hh as (E & ? & _). split_and!; [done|done|done|lia|lia].
  - rewrite rne_signed_pos in Hh by done. unfold signed in Hh. destruct s; lia.
  - rewrite rne_signed_pos in Hh by done. destruct Hh as (E & ? & _). split_and!; [done|done|done|lia|lia].
Qed.

Lemma product_holds m k : monotone m → 0 ≤ k < 2 ^ 64 → holds (d_mul (a_ m) (d_of_Z k)) (product (a_ m) (d_of_Z k)).
Proof.
  intros (Ba & _ & _) Hk. destruct (d_of_key k Hk) as (Hf & Hr & _ & Hb). apply d_mul_holds; [done|done|done|lia].
Qed.

(** A prediction is the sum, rounded, or the infinity of the product. *)
Lemma predict_double_cases m k :
  monotone m → 0 ≤ k < 2 ^ 64 → let x := d_mul (a_ m) (d_of_Z k) in
  (finite x ∧ holds (predict_double k m) (sval x + sval (b_ m))) ∨
  ∃ s, x = S754_infinity s ∧ predict_double k m = S754_infinity s.
Proof.
  intros Hm Hk x. pose proof (product_holds m k Hm Hk) as Hx. destruct Hm as (_ & Bb & _). unfold predict_double. fold x.
  fold x in Hx. clearbody x. destruct x as [s|s| |s p e]; cbn [holds] in Hx; [left|right|done|left].
  - split; [done|]. apply d_add_holds; [done|apply Hx|apply Hx|done].
  - exists s. split; [done|]. by destruct (b_ m).
  - split; [done|]. apply d_add_holds; [done|apply Hx|apply Hx|done].
Qed.

Lemma predict_double_rounded m k :
  monotone m → 0 ≤ k < 2 ^ 64 → extended (predict_double k m).
Proof.
  intros Hm Hk. destruct (predict_double_cases m k Hm Hk) as [[_ Hh]|(s & _ & ->)]; [|done].
  destruct (predict_double k m); cbn [holds] in Hh; [apply Hh|done|done|apply Hh].
Qed.

Lemma predict_double_mono m k k' :
  monotone m → 0 ≤ k → k ≤ k' → k' < 2 ^ 64 → dle (predict_double k m) (predict_double k' m).
Proof.
  intros Hm H0 Hkk H64. pose proof Hm as (Ba & Bb & Ha). pose proof scale_eq.
  destruct (d_of_key k ltac:(lia)) as (_ & Hr & E & _). destruct (d_of_key k' ltac:(lia)) as (_ & Hr' & E' & _).
  assert (product (a_ m) (d_of_Z k) ≤ product (a_ m) (d_of_Z k')) as Hp.
  { apply product_mono; [by apply binary64_rounded|done|done|done|]. rewrite E, E'. apply rne_mono.
    split; [apply Z.mul_nonneg_nonneg; lia|apply Z.mul_le_mono_nonneg_r; lia]. }
  pose proof (dle_mono _ _ _ _ (product_holds m k Hm ltac:(lia)) (product_holds m k' Hm ltac:(lia)) Hp) as Hle.
  destruct (predict_double_cases m k Hm ltac:(lia)) as [[Hf Hs]|(s & Ex & ->)],
    (predict_double_cases m k' Hm ltac:(lia)) as [[Hf' Hs']|(s' & Ex' & ->)]; rewrite ?Ex, ?Ex' in Hle.
  - apply (dle_mono _ _ _ _ Hs Hs').
    destruct (d_mul (a_ m) (d_of_Z k)), (d_mul (a_ m) (d_of_Z k')); cbn [dle] in Hle; lia || done.
  - destruct s'; [by destruct (d_mul (a_ m) (d_of_Z k))|].
    pose proof (predict_double_rounded m k Hm ltac:(lia)) as Hn. destruct (predict_double k m) as [|[]| |]; done || by destruct Hn.
  - destruct s; [|by destruct (d_mul (a_ m) (d_of_Z k'))].
    pose proof (predict_double_rounded m k' Hm ltac:(lia)) as Hn. destruct (predict_double k' m) as [|[]| |]; done || by destruct Hn.
  - done.
Qed.

(** ** Buckets *)
Lemma d_to_int_rounded x :
  rounded x → d_to_int x = if bool_decide (- 2 ^ 31 ≤ Z.quot (sval x) (2 ^ scale) < 2 ^ 31)
                           then Z.quot (sval x) (2 ^ scale) else - 2 ^ 31.
Proof.
  intros [_ Hx]. unfold d_to_int. pose proof scale_eq. rewrite sf_trunc_val; [done|].
  destruct x; [done|done|done|lia].
Qed.

Lemma d_to_int_mono x y :
  extended x → extended y → dle x y → fits_int y → Z.max (d_to_int x) 0 ≤ Z.max (d_to_int y) 0.
Proof.
  intros Hx Hy Hle Hf. pose proof scale_eq.
  assert (∀ s, d_to_int (S754_infinity s) = - 2 ^ 31) as Hinf by done.
  assert (∀ z, rounded z → sval z < 2 ^ (31 + scale) → Z.max (d_to_int z) 0 = Z.max (Z.quot (sval z) (2 ^ scale)) 0) as Hq.
  { intros z Hz Hlt. rewrite d_to_int_rounded by done. assert (Z.quot (sval z) (2 ^ scale) < 2 ^ 31) as Hb.
    { destruct (decide (0 ≤ sval z)).
      - apply Z.quot_lt_upper_bound; [lia|lia|]. by rewrite <- Z.pow_add_r, Z.add_comm by lia.
      - pose proof (Z.quot_le_mono (sval z) 0 (2 ^ scale)) as Hz0. rewrite Z.quot_0_l in Hz0 by lia. lia. }
    case_bool_decide; lia. }
  destruct x as [sx|sx| |sx px ex], y as [sy|sy| |sy py ey]; cbn [dle fits_int] in *; try done;
    try (by destruct sx); try (rewrite (Hinf sx); lia); try (destruct sx, sy; discriminate || done).
  all: try (destruct sy; [done|discriminate]).
  all: rewrite !Hq by (try done; cbn [sval] in *; lia).
  all: apply Z.max_le_compat_r, Z.quot_le_mono; [lia|done].
Qed.

Lemma bucket_of_range n k : 0 < num_children_ n → 0 ≤ bucket_of k n < num_children_ n.
Proof. unfold bucket_of. lia. Qed.

Lemma bucket_of_mono n k k' :
  monotone (mn_model n) → 0 ≤ k → k ≤ k' → k' < 2 ^ 64 → fits_int (predict_double k' (mn_model n)) →
  bucket_of k n ≤ bucket_of k' n.
Proof.
  intros Hm H0 Hkk H64 Hf. unfold bucket_of, predict. apply Z.min_le_compat_r, d_to_int_mono; [| | |done].
  - apply predict_double_rounded; [done|lia].
  - apply predict_double_rounded; [done|lia].
  - apply predict_double_mono; done.
Qed.

Lemma fits_int_le m k k' :
  monotone m → 0 ≤ k → k ≤ k' → k' < 2 ^ 64 → fits_int (predict_double k' m) → fits_int (predict_double k m).
Proof.
  intros Hm H0 Hkk H64. pose proof (predict_double_mono m k k' Hm H0 Hkk H64) as Hle. revert Hle.
  pose proof scale_eq. assert (0 < 2 ^ (31 + scale)) by lia.
  destruct (predict_double k m) as [s|[]| |s p e], (predict_double k' m) as [s'|[]| |s' p' e']; cbn [dle fits_int]; intros; done || lia.
Qed.

Lemma bucket_of_overflow n k :
  monotone (mn_model n) → 0 ≤ k < 2 ^ 64 → 0 < num_children_ n → ¬ fits_int (predict_double k (mn_model n)) →
  bucket_of k n = 0.
Proof.
  intros Hm Hk Hn Hf. pose proof scale_eq. pose proof (predict_double_rounded _ k Hm Hk) as Hr. unfold bucket_of, predict.
  assert (d_to_int (predict_double k (mn_model n)) ≤ 0) as Hd; [|lia].
  assert (∀ z, rounded z → 2 ^ (31 + scale) ≤ sval z → d_to_int z ≤ 0) as Hbig.
  { intros z Hz Hge. rewrite d_to_int_rounded by done. case_bool_decide as Hb; [|lia].
    assert (2 ^ 31 ≤ Z.quot (sval z) (2 ^ scale)); [|lia]. apply Z.quot_le_lower_bound; [lia|].
    by rewrite <- Z.pow_add_r, Z.add_comm by lia. }
  destruct (predict_double k (mn_model n)) as [s|s| |s p e]; cbn [fits_int] in Hf.
  - apply Hbig; [done|lia].
  - change (- 2 ^ 31 ≤ 0). lia.
  - by destruct Hr.
  - apply Hbig; [done|lia].
Qed.
End route.
