(* ===== verification/AlexScale.v ===== *)
(** * ALEX: expanded models

    A model node with [2 ^ k] times as many pointers and both factors of its
    model multiplied by [2 ^ k] sends every key to one of the [2 ^ k] buckets
    that were one. *)
From S2P Require Import Prelude Ieee IeeeMono IeeeLimit AlexBase AlexNode AlexOps AlexCost AlexFanout AlexTree AlexRoute.

(** A slope that is 0 or not subnormal. *)
Definition normal_slope (m : LinearModel) : Prop := sval (a_ m) = 0 ∨ lowest_shift + 52 ≤ Z.log2 (sval (a_ m)).
#[export] Instance normal_slope_dec m : Decision (normal_slope m) | 100.
Proof. unfold normal_slope. apply _. Defined.

Section predict.
Implicit Types (k key : Z) (m : LinearModel).

(** Neither the product nor the sum overflows. *)
Lemma predict_finite m key :
  monotone m → 0 ≤ key < 2 ^ 64 → fits_int (predict_double key m) →
  let x := d_mul (a_ m) (d_of_Z key) in
  rounded x ∧ sval x = rne_signed (product (a_ m) (d_of_Z key)) ∧ rounded (predict_double key m) ∧
  sval (predict_double key m) = rne_signed (sval x + sval (b_ m)).
Proof.
  intros Hm Hk Hfit x. pose proof Hm as (Ba & Bb & Ha). destruct (d_of_key key Hk) as (_ & Hrk & _ & Hvk). pose proof scale_eq.
  assert (0 ≤ product (a_ m) (d_of_Z key)) as Hp.
  { apply (Z.mul_le_mono_pos_r _ _ (2 ^ scale)); [lia|]. rewrite Z.mul_0_l, product_val by (done || by apply binary64_rounded). apply Z.mul_nonneg_nonneg; [done|lia]. }
  assert (0 ≤ rne_signed (product (a_ m) (d_of_Z key))) as Hq by (rewrite rne_signed_pos by done; by apply rne_nonneg).
  assert (0 < limit) as Hlim by (unfold limit; lia).
  pose proof (product_holds m key Hm Hk) as Hx. fold x in Hx.
  destruct (predict_double_cases m key Hm Hk) as [[Hf Hs]|(s & E & E')]; [fold x in Hf, Hs|fold x in E]; clearbody x.
  - assert (rounded x ∧ sval x = rne_signed (product (a_ m) (d_of_Z key))) as [Rx Vx] .
    { destruct x; [|done|done|]; cbn [holds] in Hx; split; apply Hx. }
    split; [done|]. split; [done|]. assert (sval (b_ m) ≤ rne_signed (sval x + sval (b_ m))) as Hlow.
    { rewrite <- (proj1 (binary64_rounded _ Bb)) at 1. apply rne_signed_mono. lia. }
    pose proof (binary64_small _ Bb) as Hbs. destruct (predict_double key m) as [s0|[]| |s0 p0 e0]; cbn [holds fits_int] in *.
    + split; apply Hs.
    + unfold signed in Hs. lia.
    + done.
    + done.
    + split; apply Hs.
  - rewrite E in Hx. rewrite E' in Hfit. cbn [holds fits_int] in Hx, Hfit. subst s. unfold signed in Hx. lia.
Qed.

Lemma predict_double_scale m k key :
  monotone m → normal_slope m → 0 ≤ k < 64 → monotone (expand (d_of_Z (2 ^ k)) m) → 0 ≤ key < 2 ^ 64 →
  fits_int (predict_double key m) → fits_int (predict_double key (expand (d_of_Z (2 ^ k)) m)) →
  sval (predict_double key (expand (d_of_Z (2 ^ k)) m)) = sval (predict_double key m) * 2 ^ k.
Proof.
  intros Hm Hn Hk Hm' Hkey Hf Hf'. pose proof scale_eq. set (m' := expand (d_of_Z (2 ^ k)) m) in *.
  destruct (predict_finite m key Hm Hkey Hf) as (Rx & Vx & Rp & ->). destruct (predict_finite m' key Hm' Hkey Hf') as (Rx' & Vx' & Rp' & ->).
  pose proof Hm as (Ba & Bb & Ha). pose proof Hm' as (Ba' & Bb' & Ha'). destruct (d_of_key key Hkey) as (_ & Hrk & Ek & Hvk).
  assert (∀ x, binary64 x → finite x) as Hbf by (by intros []).
  assert (sval (a_ m') = sval (a_ m) * 2 ^ k) as Ea by (apply d_mul_pow2; [done..|by apply Hbf]).
  assert (sval (b_ m') = sval (b_ m) * 2 ^ k) as Eb by (apply d_mul_pow2; [done..|by apply Hbf]).
  pose proof (product_val _ _ (binary64_rounded _ Ba) Hrk) as P. pose proof (product_val _ _ (binary64_rounded _ Ba') Hrk) as P'.
  set (v := product (a_ m) (d_of_Z key)) in *. set (v' := product (a_ m') (d_of_Z key)) in *.
  assert (v' = v * 2 ^ k) as Ev by (apply (Z.mul_cancel_r _ _ (2 ^ scale)); [lia|]; rewrite P', Ea; transitivity (v * 2 ^ scale * 2 ^ k); [rewrite P; lia|lia]).
  assert (no_underflow (Z.abs v)) as Hu.
  { assert (0 ≤ v) as Hv by (apply (Z.mul_le_mono_pos_r _ _ (2 ^ scale)); [lia|]; rewrite Z.mul_0_l, P; apply Z.mul_nonneg_nonneg; [done|lia]).
    rewrite Z.abs_eq by done. destruct (decide (key = 0)) as [->|Hne].
    { right. assert (v = 0) as ->; [|done]. apply (Z.mul_cancel_r _ _ (2 ^ scale)); [lia|]. rewrite P, Ek, Z.mul_0_l, rne_0. lia. }
    assert (2 ^ scale ≤ sval (d_of_Z key)) as H1.
    { rewrite Ek. transitivity (rne (2 ^ scale)); [|apply rne_mono; assert (0 < 2 ^ scale) by lia; set (u := 2 ^ scale) in *; clearbody u; nia]. rewrite (rne_exact _ scale 1); [done|lia|].
      unfold shift_of, lowest_shift. rewrite Z.log2_pow2; lia. }
    destruct Hn as [H0|Hn]; [right; assert (v = 0) as ->; [|done]; apply (Z.mul_cancel_r _ _ (2 ^ scale)); [lia|rewrite P, H0; lia]|left].
    etrans; [exact Hn|]. apply Z.log2_le_mono. apply (Z.mul_le_mono_pos_r _ _ (2 ^ scale)); [lia|]. rewrite P.
    apply Z.mul_le_mono_nonneg_l; [done|lia]. }
  assert (sval (d_mul (a_ m') (d_of_Z key)) = sval (d_mul (a_ m) (d_of_Z key)) * 2 ^ k) as Ex
    by (rewrite Vx', Vx, Ev; apply rne_signed_scale; [lia|done]).
  rewrite Ex, Eb, <- Z.mul_add_distr_r. apply rne_signed_scale; [lia|]. apply unit_sum; apply sval_unit; [done|by apply binary64_rounded].
Qed.

(** ** Buckets *)
Lemma quot_scale v k : 0 ≤ v → 0 ≤ k → Z.quot (v * 2 ^ k) (2 ^ scale) / 2 ^ k = Z.quot v (2 ^ scale).
Proof.
  intros Hv Hk. pose proof scale_eq. rewrite !Z.quot_div_nonneg by lia. rewrite Z.div_div by lia. rewrite (Z.mul_comm (2 ^ scale)).
  by rewrite Z.mul_comm, Z.div_mul_cancel_l by lia.
Qed.

(** Predictions that are [2 ^ k] times as far, in the same bucket. *)
Lemma predict_scaled m m' k key :
  monotone m → monotone m' → 0 ≤ k < 64 → 0 ≤ key < 2 ^ 64 → fits_int (predict_double key m) → fits_int (predict_double key m') →
  sval (predict_double key m') = sval (predict_double key m) * 2 ^ k →
  Z.max (predict key m') 0 / 2 ^ k = Z.max (predict key m) 0.
Proof.
  intros Hm Hm' Hk Hkey Hf Hf' Ev. pose proof scale_eq.
  destruct (predict_finite m key Hm Hkey Hf) as (_ & _ & Rp & _). destruct (predict_finite m' key Hm' Hkey Hf') as (_ & _ & Rp' & _).
  unfold predict. rewrite !d_to_int_rounded by done. rewrite Ev.
  assert (∀ x, rounded x → fits_int x → sval x < 2 ^ (31 + scale)) as Hlt by (intros [] [_ ?]; done).
  pose proof (Hlt _ Rp Hf) as L. pose proof (Hlt _ Rp' Hf') as L'. rewrite Ev in L'. set (v := sval (predict_double key m)) in *.
  destruct (decide (0 ≤ v)) as [Hv|Hv].
  - assert (∀ w, 0 ≤ w < 2 ^ (31 + scale) → 0 ≤ Z.quot w (2 ^ scale) < 2 ^ 31) as Hq.
    { intros w Hw. rewrite Z.quot_div_nonneg by lia. split; [apply Z.div_pos; lia|]. apply Z.div_lt_upper_bound; [lia|].
      rewrite Z.mul_comm, <- Z.pow_add_r by lia. lia. }
    pose proof (Hq v ltac:(lia)). pose proof (Hq (v * 2 ^ k) ltac:(nia)). rewrite !bool_decide_eq_true_2 by lia.
    rewrite !Z.max_l by lia. apply quot_scale; lia.
  - assert (∀ w, w ≤ 0 → Z.quot w (2 ^ scale) ≤ 0) as Hq.
    { intros w Hw. pose proof (Z.quot_le_mono w 0 (2 ^ scale)) as Hz. rewrite Z.quot_0_l in Hz by lia. lia. }
    pose proof (Hq v ltac:(lia)). pose proof (Hq (v * 2 ^ k) ltac:(nia)). rewrite !Z.max_r by (case_bool_decide; lia).
    apply Z.div_0_l. lia.
Qed.

(** The bucket a model with [fanout] buckets puts a key in. *)
Definition bucket (m : LinearModel) (fanout key : Z) : Z := Z.min (Z.max (predict key m) 0) (fanout - 1).

Lemma bucket_scaled m m' k fanout key :
  monotone m → monotone m' → 0 ≤ k < 64 → 0 ≤ key < 2 ^ 64 → fits_int (predict_double key m) → fits_int (predict_double key m') →
  sval (predict_double key m') = sval (predict_double key m) * 2 ^ k → 0 < fanout →
  bucket m' (fanout * 2 ^ k) key / 2 ^ k = bucket m fanout key.
Proof.
  intros Hm Hm' Hk Hkey Hf Hf' Ev Hc. pose proof (predict_scaled m m' k key Hm Hm' Hk Hkey Hf Hf' Ev) as Ep.
  unfold bucket. set (p := Z.max (predict key m) 0) in *. set (p' := Z.max (predict key m') 0) in *.
  assert (0 < 2 ^ k) by lia. assert (0 ≤ p' ∧ 0 ≤ p) as [? ?] by lia. clearbody p p'. set (f := 2 ^ k) in *. clearbody f. subst p.
  destruct (decide (p' < fanout * f)).
  - rewrite Z.min_l by lia. rewrite Z.min_l; [done|]. assert (p' / f < fanout) by (apply Z.div_lt_upper_bound; lia). lia.
  - rewrite Z.min_r by lia. assert (fanout ≤ p' / f) by (apply Z.div_le_lower_bound; lia). rewrite Z.min_r by lia.
    replace (fanout * f - 1) with ((f - 1) + (fanout - 1) * f) by lia.
    rewrite Z.div_add, Z.div_small by lia. lia.
Qed.
End predict.

Lemma bucket_expand (m m' : ModelNode) k key :
  monotone (mn_model m) → normal_slope (mn_model m) → 0 ≤ k < 64 → mn_model m' = expand (d_of_Z (2 ^ k)) (mn_model m) →
  monotone (mn_model m') → 0 ≤ key < 2 ^ 64 → fits_int (predict_double key (mn_model m)) → fits_int (predict_double key (mn_model m')) →
  0 < num_children_ m → num_children_ m' = num_children_ m * 2 ^ k → bucket_of key m' / 2 ^ k = bucket_of key m.
Proof.
  intros Hm Hn Hk Em Hm' Hkey Hf Hf' Hc Ec. rewrite Em in *. pose proof (predict_double_scale _ k key Hm Hn Hk Hm' Hkey Hf Hf') as Ev.
  pose proof (bucket_scaled _ _ k (num_children_ m) key Hm Hm' Hk Hkey Hf Hf' Ev Hc) as E. unfold bucket_of. rewrite Em, Ec. exact E.
Qed.
