(* ===== verification/AlexTreeInv.v ===== *)
(** * ALEX: the shape of a tree

    [covers] says which leaves a node leads to, in order: the pointers of a
    model node are runs, each as long as the duplication factor of its child
    says and aligned to its length.  Monotone models then reach the leaves in
    the order of the keys.  The leaves form a doubly linked list. *)
From S2P Require Import Prelude Ieee IeeeMono IeeeLimit AlexBase AlexNode AlexOps AlexInv AlexSearch AlexBuild AlexCost AlexFanout AlexTree AlexRoute.

Abbreviation heap_t := (gmap Z AlexTreeNode).

(** ** Runs of equal pointers *)
Record run : Type := mkRun { run_child : Z; run_dup : Z; run_leaves : list Z }.
Definition repeats (r : run) : Z := 2 ^ run_dup r.
Definition slots_of (r : run) : list (option Z) := replicate (Z.to_nat (repeats r)) (Some (run_child r)).
Definition width (rs : list run) : Z := Z.of_nat (length (rs ≫= slots_of)).
Fixpoint aligned (off : Z) (rs : list run) : Prop :=
  match rs with
  | [] => True
  | r :: rs => off mod repeats r = 0 ∧ aligned (off + repeats r) rs
  end.

Section runs.
Implicit Types (r : run) (rs : list run) (b off : Z).

Lemma repeats_length r : 0 ≤ run_dup r → Z.of_nat (length (slots_of r)) = repeats r.
Proof. intros. unfold slots_of, repeats. rewrite length_replicate. lia. Qed.

Lemma width_app rs1 rs2 : width (rs1 ++ rs2) = width rs1 + width rs2.
Proof. unfold width. rewrite bind_app, length_app. lia. Qed.
Lemma width_cons r rs : 0 ≤ run_dup r → width (r :: rs) = repeats r + width rs.
Proof. intros. unfold width. rewrite bind_cons, length_app. rewrite Nat2Z.inj_add, repeats_length; done. Qed.
Lemma width_nil : width [] = 0.
Proof. done. Qed.

(** The run a bucket lies in. *)
Lemma run_at rs b :
  Forall (λ r, 0 ≤ run_dup r) rs → 0 ≤ b < width rs →
  ∃ rs1 r rs2, rs = rs1 ++ r :: rs2 ∧ width rs1 ≤ b < width rs1 + repeats r.
Proof.
  intros Hd. revert b. induction Hd as [|r rs Hr Hd IH]; intros b Hb; [rewrite width_nil in Hb; lia|].
  rewrite width_cons in Hb by done. destruct (decide (b < repeats r)).
  - exists [], r, rs. rewrite width_nil. split; [done|lia].
  - destruct (IH (b - repeats r)) as (rs1 & r' & rs2 & -> & H); [lia|].
    exists (r :: rs1), r', rs2. rewrite width_cons by done. split; [done|lia].
Qed.

Lemma slot_at rs1 r rs2 b :
  0 ≤ run_dup r → width rs1 ≤ b < width rs1 + repeats r →
  ((rs1 ++ r :: rs2) ≫= slots_of) !! Z.to_nat b = Some (Some (run_child r)).
Proof.
  intros Hr Hb. unfold width in Hb. rewrite bind_app, lookup_app_r by lia.
  rewrite bind_cons, lookup_app_l.
  - apply lookup_replicate_2. unfold repeats in *. lia.
  - pose proof (repeats_length r Hr). lia.
Qed.

(** Two buckets in order lie in the same run, or in two runs in order. *)
Lemma runs_ordered rs1 r rs2 rs1' r' rs2' b b' :
  Forall (λ r, 0 ≤ run_dup r) (rs1 ++ r :: rs2) → rs1 ++ r :: rs2 = rs1' ++ r' :: rs2' → b ≤ b' →
  width rs1 ≤ b < width rs1 + repeats r → width rs1' ≤ b' < width rs1' + repeats r' →
  (rs1 = rs1' ∧ r = r' ∧ rs2 = rs2') ∨ ∃ mid, rs1' = rs1 ++ r :: mid ∧ rs2 = mid ++ r' :: rs2'.
Proof.
  revert rs1' b b'. induction rs1 as [|x rs1 IH]; intros rs1' b b' Hd E Hb H1 H2.
  - destruct rs1' as [|y rs1']; cbn in E; simplify_eq; [by left|right]. by exists rs1'.
  - rewrite <- app_comm_cons in Hd. apply Forall_cons in Hd as [Hx Hd]. rewrite width_cons in H1 by done.
    destruct rs1' as [|y rs1']; cbn in E; simplify_eq.
    + exfalso. rewrite width_nil in H2. unfold width in H1. lia.
    + rewrite width_cons in H2 by done.
      destruct (IH rs1' (b - repeats y) (b' - repeats y) Hd) as [(-> & -> & ->)|(mid & -> & ->)];
        [done|lia|lia|lia|by left|right; by exists mid].
Qed.
End runs.

(** ** The leaves under a node *)
Definition model_ok (top : Z) (m : ModelNode) : Prop :=
  monotone (mn_model m) ∧ fits_int (predict_double top (mn_model m)).

(** The leaves under [p], down to depth [d]. *)
Fixpoint covers (d : nat) (h : heap_t) (top p : Z) (ls : list Z) : Prop :=
  match d with
  | O => False
  | S d =>
      match h !! p with
      | None => False
      | Some (DataNode _) => ls = [p]
      | Some (ModelN m) =>
          model_ok top m ∧ ∃ rs, rs ≠ [] ∧ children_ m = rs ≫= slots_of ∧ num_children_ m = width rs ∧
            ls = rs ≫= run_leaves ∧ aligned 0 rs ∧
            Forall (λ r, covers d h top (run_child r) (run_leaves r) ∧ 0 ≤ run_dup r ∧
                         ∃ n, h !! run_child r = Some n ∧ duplication_factor_ n = run_dup r) rs
      end
  end.

(** [q] is [q'] or comes before it. *)
Definition ordered (ls : list Z) (q q' : Z) : Prop :=
  q ∈ ls ∧ q' ∈ ls ∧ (q = q' ∨ ∃ l1 l2, ls = l1 ++ l2 ∧ q ∈ l1 ∧ q' ∈ l2).

(** ** The list of leaves *)
Fixpoint chain (h : heap_t) (prev : Z) (ls : list Z) : Prop :=
  match ls with
  | [] => True
  | p :: rest => p ≠ 0 ∧ (∃ l, h !! p = Some (DataNode l) ∧ prev_leaf_ l = prev ∧ next_leaf_ l = default 0 (head rest)) ∧
                 chain h p rest
  end.
Definition leaf_pairs (h : heap_t) (p : Z) : list (Z * Z) :=
  match h !! p with Some (DataNode l) => contents (data l) | _ => [] end.
Definition pairs (h : heap_t) (ls : list Z) : list (Z * Z) := ls ≫= leaf_pairs h.

(** The leaf the models lead to. *)
Definition route (key : Z) (s : Alex) : res Z :=
  let* (p, _) := descend (depth_fuel s) (bucket_of key) (root_node_ s) [] s in Ret p.

Section covers.
Implicit Types (h : heap_t) (s : Alex) (p q k key top : Z) (ls : list Z) (d fuel : nat).

Lemma covers_S d : ∀ h top p ls, covers d h top p ls → covers (S d) h top p ls.
Proof.
  induction d as [|d IH]; intros h top p ls Hc; [done|]. remember (S d) as d' eqn:Ed. cbn [covers]. rewrite Ed in Hc.
  cbn [covers] in Hc. destruct (h !! p) as [[l|m]|]; [done| |done].
  destruct Hc as (Hm & rs & ? & ? & ? & ? & ? & Hf). split; [done|]. exists rs. split_and!; [done..|].
  eapply Forall_impl; [exact Hf|]. intros r (Hr & ?). split; [|done]. subst d'. by apply IH.
Qed.
Lemma covers_le d d' h top p ls : (d ≤ d')%nat → covers d h top p ls → covers d' h top p ls.
Proof. induction 1; [done|]. intros. apply covers_S. auto. Qed.

Lemma covers_ne d h top p ls : covers d h top p ls → ls ≠ [].
Proof.
  revert p ls. induction d as [|d IH]; intros p ls; [done|]. cbn [covers]. destruct (h !! p) as [[l|m]|]; [|intros|done].
  - by intros ->.
  - destruct H as (_ & rs & Hne & _ & _ & -> & _ & Hf). destruct rs as [|r rs]; [done|].
    apply Forall_cons in Hf as [[Hr _] _]. rewrite bind_cons. intros [E _]%app_nil. by apply (IH _ _ Hr).
Qed.

Lemma covers_leaf d h top p ls q : covers d h top p ls → q ∈ ls → ∃ l, h !! q = Some (DataNode l).
Proof.
  revert p ls. induction d as [|d IH]; intros p ls; [done|]. cbn [covers].
  destruct (h !! p) as [[l|m]|] eqn:Ep; [|intros Hc|done].
  - intros -> ->%list_elem_of_singleton. by exists l.
  - destruct Hc as (_ & rs & _ & _ & _ & -> & _ & Hf). intros (r & Hq & Hr)%list_elem_of_bind.
    rewrite list.Forall_forall in Hf. by apply (IH _ _ (proj1 (Hf r Hr))).
Qed.

(** The slot of a model node a bucket selects. *)
Lemma child_at m rs rs1 r rs2 b :
  children_ m = rs ≫= slots_of → rs = rs1 ++ r :: rs2 → 0 ≤ run_dup r → width rs1 ≤ b < width rs1 + repeats r →
  child b m = Ret (run_child r).
Proof.
  intros Ec -> Hr Hb. unfold child, rd. rewrite Ec. assert (0 ≤ width rs1) by (unfold width; lia).
  rewrite bool_decide_eq_true_2 by lia. by rewrite (slot_at rs1 r rs2 b Hr Hb).
Qed.

Lemma ordered_refl ls q : q ∈ ls → ordered ls q q.
Proof. intros. split; [done|]. split; [done|by left]. Qed.
Lemma ordered_bind (rs1 rs2 : list run) r q q' :
  ordered (run_leaves r) q q' → ordered ((rs1 ++ r :: rs2) ≫= run_leaves) q q'.
Proof.
  intros (H1 & H2 & H3). rewrite bind_app, bind_cons. split; [set_solver|]. split; [set_solver|].
  destruct H3 as [->|(l1 & l2 & -> & ? & ?)]; [by left|right].
  exists ((rs1 ≫= run_leaves) ++ l1), (l2 ++ (rs2 ≫= run_leaves)). split; [by rewrite !app_assoc|set_solver].
Qed.
Lemma ordered_apart (rs1 mid rs2 : list run) r r' q q' :
  q ∈ run_leaves r → q' ∈ run_leaves r' → ordered ((rs1 ++ r :: mid ++ r' :: rs2) ≫= run_leaves) q q'.
Proof.
  intros H1 H2. rewrite bind_app, bind_cons, bind_app, bind_cons. split; [set_solver|]. split; [set_solver|]. right.
  exists ((rs1 ≫= run_leaves) ++ run_leaves r), ((mid ≫= run_leaves) ++ run_leaves r' ++ (rs2 ≫= run_leaves)).
  split; [by rewrite !app_assoc|set_solver].
Qed.
Lemma ordered_antisym ls q q' : NoDup ls → ordered ls q q' → ordered ls q' q → q = q'.
Proof.
  intros Hnd (_ & _ & [?|(l1 & l2 & -> & H1 & H2)]) (_ & _ & [?|(l1' & l2' & E & H1' & H2')]); [done..|].
  exfalso. apply NoDup_app in Hnd as (Hn1 & Hdis & Hn2).
  destruct (app_eq_inv _ _ _ _ E) as [(k & -> & ->)|(k & -> & ->)].
  - apply (Hdis q'); [|done]. apply elem_of_app. by left.
  - apply (Hdis q); [done|]. apply elem_of_app. by right.
Qed.

Lemma descend_data fuel choose p path s l :
  heap s !! p = Some (DataNode l) → descend (S fuel) choose p path s = Ret (p, path).
Proof. intros E. cbn [descend]. unfold get_node. by rewrite E. Qed.
Lemma descend_model fuel choose p path s m c :
  heap s !! p = Some (ModelN m) → child (choose m) m = Ret c →
  descend (S fuel) choose p path s = descend fuel choose c ((p, choose m) :: path) s.
Proof. intros E Ec. cbn [descend]. unfold get_node. rewrite E. cbn [of_option]. by rewrite res_bind_ret, Ec, res_bind_ret. Qed.

(** A node that leads somewhere is reached with enough fuel, greater keys
    further to the right. *)
Lemma covers_descend d s top : ∀ p ls, covers d (heap s) top p ls → top < 2 ^ 64 →
  ∀ fuel k k' P P', (d ≤ fuel)%nat → 0 ≤ k → k ≤ k' → k' ≤ top →
  ∃ q q' Q Q', descend fuel (bucket_of k) p P s = Ret (q, Q) ∧ descend fuel (bucket_of k') p P' s = Ret (q', Q') ∧
    ordered ls q q'.
Proof.
  induction d as [|d IH]; intros p ls Hc Htop fuel k k' P P' Hd H0 Hk Hk'; [done|]. destruct fuel as [|fuel]; [lia|].
  cbn [covers] in Hc. destruct (heap s !! p) as [[l|m]|] eqn:Ep; [| |done].
  - subst ls. exists p, p, P, P'. rewrite !(descend_data _ _ _ _ _ l Ep). split; [done|]. split; [done|].
    apply ordered_refl. set_solver.
  - destruct Hc as ([Hmono Hfit] & rs & Hne & Ec & Hn & -> & _ & Hf).
    assert (Forall (λ r, 0 ≤ run_dup r) rs) as Hd0 by (eapply Forall_impl; [exact Hf|]; naive_solver).
    assert (0 < num_children_ m) as Hpos.
    { rewrite Hn. destruct rs as [|r rs]; [done|]. apply Forall_cons in Hd0 as [Hr _].
      rewrite width_cons by done. unfold repeats, width. lia. }
    assert (∀ key, 0 ≤ key ≤ top → fits_int (predict_double key (mn_model m))) as Hfits.
    { intros key Hkey. apply (fits_int_le _ key top); [done|lia|lia|lia|done]. }
    pose proof (bucket_of_mono m k k' Hmono H0 Hk ltac:(lia) (Hfits k' ltac:(lia))) as Hb.
    pose proof (bucket_of_range m k Hpos) as Hbk. pose proof (bucket_of_range m k' Hpos) as Hbk'. rewrite Hn in Hbk, Hbk'.
    destruct (run_at rs _ Hd0 Hbk) as (rs1 & r & rs2 & E & Hr). destruct (run_at rs _ Hd0 Hbk') as (rs1' & r' & rs2' & E' & Hr').
    assert (r ∈ rs) as Hin by (rewrite E; set_solver). assert (r' ∈ rs) as Hin' by (rewrite E'; set_solver).
    rewrite list.Forall_forall in Hf. destruct (Hf r Hin) as (Hcov & Hdr & _). destruct (Hf r' Hin') as (Hcov' & Hdr' & _).
    rewrite (descend_model fuel (bucket_of k) p P s m _ Ep (child_at m rs rs1 r rs2 _ Ec E Hdr Hr)).
    rewrite (descend_model fuel (bucket_of k') p P' s m _ Ep (child_at m rs rs1' r' rs2' _ Ec E' Hdr' Hr')).
    destruct (runs_ordered rs1 r rs2 rs1' r' rs2' _ _ ltac:(by rewrite <- E) ltac:(congruence) Hb Hr Hr')
      as [(-> & -> & ->)|(mid & -> & ->)].
    + destruct (IH _ _ Hcov Htop fuel k k' ((p, bucket_of k m) :: P) ((p, bucket_of k' m) :: P')) as (q & q' & Q & Q' & E1 & E2 & Ho); [lia..|].
      exists q, q', Q, Q'. split; [done|]. split; [done|]. rewrite E. by apply ordered_bind.
    + destruct (IH _ _ Hcov Htop fuel k k ((p, bucket_of k m) :: P) ((p, bucket_of k m) :: P)) as (q & ? & Q & ? & E1 & _ & Ho & _); [lia..|].
      destruct (IH _ _ Hcov' Htop fuel k' k' ((p, bucket_of k' m) :: P') ((p, bucket_of k' m) :: P'))
        as (q' & ? & Q' & ? & E2 & _ & Ho' & _); [lia..|].
      exists q, q', Q, Q'. split; [done|]. split; [done|]. rewrite E. by apply ordered_apart.
Qed.
End covers.
