(* ===== verification/AlexTreeOk.v ===== *)
(** * ALEX: the invariant of a tree

    [tree_ok top s ls]: the leaves of [s] are [ls], linked in this order; every
    stored key is at most [top] and in the leaf the models lead to.  What an
    operation on one leaf has to keep, and where the keys of the other leaves
    lie. *)
From S2P Require Import Prelude Ieee AlexBase AlexNode AlexOps AlexInv AlexSearch AlexBuild AlexCost AlexFanout AlexTree AlexRoute AlexTreeInv.

(** ** Heaps that differ in the pairs of their leaves only *)
Definition same_node_shape (n n' : AlexTreeNode) : Prop :=
  match n, n' with
  | DataNode l, DataNode l' =>
      leaf_duplication_factor_ l = leaf_duplication_factor_ l' ∧ prev_leaf_ l = prev_leaf_ l' ∧ next_leaf_ l = next_leaf_ l'
  | ModelN m, ModelN m' => m = m'
  | _, _ => False
  end.
Definition same_shape (h h' : heap_t) : Prop := ∀ p, option_Forall2 same_node_shape (h !! p) (h' !! p).

Section shape.
Implicit Types (h : heap_t) (s : Alex) (p q k key top : Z) (ls : list Z).

Lemma same_node_shape_refl n : same_node_shape n n.
Proof. by destruct n. Qed.
Lemma same_shape_insert h p l l' :
  h !! p = Some (DataNode l) → same_node_shape (DataNode l) (DataNode l') → same_shape h (<[p := DataNode l']> h).
Proof.
  intros E Hs q. destruct (decide (q = p)) as [->|Hne].
  - rewrite lookup_insert_eq, E. by constructor.
  - rewrite lookup_insert_ne by done. destruct (h !! q); constructor. apply same_node_shape_refl.
Qed.
Lemma same_shape_size h h' : same_shape h h' → size h = size h'.
Proof.
  intros Hs. rewrite <- !size_dom. f_equal. apply set_eq. intros p. rewrite !elem_of_dom.
  specialize (Hs p). destruct (h !! p), (h' !! p); inversion Hs; split; by intros [? ?].
Qed.
Lemma same_shape_at h h' p n :
  same_shape h h' → h !! p = Some n → ∃ n', h' !! p = Some n' ∧ same_node_shape n n'.
Proof. intros Hs E. specialize (Hs p). rewrite E in Hs. inversion Hs; subst. by eexists. Qed.

Lemma same_shape_covers d h h' top : same_shape h h' → ∀ p ls, covers d h top p ls → covers d h' top p ls.
Proof.
  intros Hs. induction d as [|d IH]; intros p ls Hc; [done|]. cbn [covers] in *.
  destruct (h !! p) as [n|] eqn:E; [|done]. destruct (same_shape_at h h' p n Hs E) as (n' & -> & Hn).
  destruct n as [l|m], n' as [l'|m']; cbn [same_node_shape] in Hn; [done..|subst m'].
  destruct Hc as (Hm & rs & Hne & Ec & Hw & Els & Ha & Hf). split; [done|]. exists rs. split_and!; [done..|].
  eapply Forall_impl; [exact Hf|]. intros r (Hr & Hd & n & En & Hdn). split; [by apply IH|]. split; [done|].
  destruct (same_shape_at h h' _ n Hs En) as (n' & -> & Hnn). exists n'. split; [done|]. rewrite <- Hdn.
  destruct n, n'; cbn in *; [symmetry; apply Hnn|done|done|by subst].
Qed.

Lemma same_shape_chain h h' : same_shape h h' → ∀ ls prev, chain h prev ls → chain h' prev ls.
Proof.
  intros Hs. induction ls as [|p ls IH]; intros prev; cbn [chain]; [done|]. intros (Hp & (l & E & H1 & H2) & Hc).
  split; [done|]. split; [|by apply IH]. destruct (same_shape_at h h' p _ Hs E) as ([l'|?] & E' & Hn); [|done].
  exists l'. destruct Hn as (_ & <- & <-). done.
Qed.

Lemma same_shape_descend choose s s' : same_shape (heap s) (heap s') → ∀ fuel p path,
  descend fuel choose p path s = descend fuel choose p path s'.
Proof.
  intros Hs. induction fuel as [|fuel IH]; intros p path; [done|]. cbn [descend]. unfold get_node. specialize (Hs p).
  destruct (heap s !! p) as [n|], (heap s' !! p) as [n'|]; inversion Hs as [? ? Hn|]; subst; [|done].
  cbn [of_option]. rewrite !res_bind_ret. destruct n, n'; cbn [same_node_shape] in Hn; [done..|subst].
  destruct (child _ _); cbn; [apply IH|done|done].
Qed.

Lemma same_shape_route s s' key :
  same_shape (heap s) (heap s') → root_node_ s' = root_node_ s → route key s' = route key s.
Proof.
  intros Hs Hr. unfold route, depth_fuel. rewrite Hr, (same_shape_size _ _ Hs).
  by rewrite <- (same_shape_descend (bucket_of key) s s' Hs).
Qed.

Lemma get_data_leaf s p l : heap s !! p = Some (DataNode l) → get_data p s = Ret l.
Proof. intros E. unfold get_data, get_node. by rewrite E. Qed.
Lemma get_model_node s p m : heap s !! p = Some (ModelN m) → get_model p s = Ret m.
Proof. intros E. unfold get_model, get_node. by rewrite E. Qed.

(** ** Leaves in the list *)
Lemma chain_at h : ∀ l1 prev p l2, chain h prev (l1 ++ p :: l2) →
  p ≠ 0 ∧ ∃ l, h !! p = Some (DataNode l) ∧ prev_leaf_ l = default prev (last l1) ∧ next_leaf_ l = default 0 (head l2).
Proof.
  induction l1 as [|q l1 IH]; intros prev p l2; cbn [chain app]; [naive_solver|].
  intros (_ & _ & Hc). destruct (IH q p l2 Hc) as (Hp & l & E & Hl & Hn). split; [done|]. exists l. split; [done|].
  split; [|done]. rewrite Hl. rewrite last_cons. by destruct (last l1).
Qed.
Lemma chain_nonzero h prev ls p : chain h prev ls → p ∈ ls → p ≠ 0.
Proof. intros Hc (l1 & l2 & ->)%list_elem_of_split. by destruct (chain_at h l1 prev p l2 Hc). Qed.

Lemma chain_length h prev ls : NoDup ls → chain h prev ls → (length ls ≤ size h)%nat.
Proof.
  intros Hnd Hc. rewrite <- size_dom, <- (size_list_to_set (C := gset Z)) by done.
  apply subseteq_size. intros p Hp%elem_of_list_to_set. apply list_elem_of_split in Hp as (l1 & l2 & ->).
  destruct (chain_at h l1 prev p l2 Hc) as (_ & l & E & _). apply elem_of_dom. by eexists.
Qed.
End shape.

(** ** The invariant *)
Record tree_ok (top : Z) (s : Alex) (ls : list Z) : Prop := {
  tree_covers : covers (size (heap s)) (heap s) top (root_node_ s) ls;
  tree_nodup : NoDup ls;
  tree_chain : chain (heap s) 0 ls;
  tree_wf p l : p ∈ ls → heap s !! p = Some (DataNode l) → node_wf (data l);
  tree_routed p k : p ∈ ls → k ∈ (leaf_pairs (heap s) p).*1 → k ≤ top ∧ route k s = Ret p;
  tree_top : top < kEndSentinel_
}.

Section tree_ok.
Implicit Types (h : heap_t) (s : Alex) (p q k key top : Z) (ls : list Z).

Lemma tree_leaf top s ls p : tree_ok top s ls → p ∈ ls → ∃ l, heap s !! p = Some (DataNode l) ∧ node_wf (data l).
Proof.
  intros Hok Hp. destruct (covers_leaf _ _ _ _ _ p (tree_covers _ _ _ Hok) Hp) as (l & E). exists l. split; [done|].
  by apply (tree_wf _ _ _ Hok p).
Qed.

Lemma route_ordered top s ls k k' :
  tree_ok top s ls → 0 ≤ k → k ≤ k' → k' ≤ top → ∃ q q', route k s = Ret q ∧ route k' s = Ret q' ∧ ordered ls q q'.
Proof.
  intros Hok H0 Hk Htop. pose proof (tree_top _ _ _ Hok) as Ht. change kEndSentinel_ with (2 ^ 64 - 1) in Ht.
  destruct (covers_descend _ _ _ _ _ (tree_covers _ _ _ Hok) ltac:(lia) (depth_fuel s) k k' [] [])
    as (q & q' & Q & Q' & E & E' & Ho); [unfold depth_fuel; lia|done|done|done|].
  exists q, q'. unfold route. rewrite E, E'. by rewrite !res_bind_ret.
Qed.

Lemma key_bounds top s ls p k :
  tree_ok top s ls → p ∈ ls → k ∈ (leaf_pairs (heap s) p).*1 → 0 ≤ k ≤ top.
Proof.
  intros Hok Hp Hk. split; [|by apply (tree_routed _ _ _ Hok p)].
  destruct (tree_leaf _ _ _ p Hok Hp) as (l & E & [Hnok _]). unfold leaf_pairs in Hk. rewrite E in Hk.
  pose proof (proj2 (ok_keys _ Hnok)) as Hr. rewrite list.Forall_forall in Hr. specialize (Hr k Hk). lia.
Qed.

(** The keys before the leaf of [key] are less, those behind it greater. *)
Lemma keys_apart top s l1 p l2 key k :
  tree_ok top s (l1 ++ p :: l2) → 0 ≤ key ≤ top → route key s = Ret p →
  (k ∈ (pairs (heap s) l1).*1 → k < key) ∧ (k ∈ (pairs (heap s) l2).*1 → key < k).
Proof.
  intros Hok Hkey Hr. set (ls := l1 ++ p :: l2) in *. pose proof (tree_nodup _ _ _ Hok) as Hnd.
  assert (∀ l, k ∈ (pairs (heap s) l).*1 → ∃ q, q ∈ l ∧ k ∈ (leaf_pairs (heap s) q).*1) as Hin.
  { intros l (kv & -> & (q & Hkv & Hq)%list_elem_of_bind)%list_elem_of_fmap. exists q. split; [done|]. apply list_elem_of_fmap. by exists kv. }
  assert (∀ q, q ∈ ls → k ∈ (leaf_pairs (heap s) q).*1 → 0 ≤ k ≤ top ∧ route k s = Ret q) as Hk.
  { intros q Hq Hkq. split; [by eapply key_bounds|]. by apply (tree_routed _ _ _ Hok). }
  assert (∀ q q', route k s = Ret q → route key s = Ret q' → 0 ≤ k ≤ top →
    (k ≤ key → ordered ls q q') ∧ (key ≤ k → ordered ls q' q)) as Hord.
  { intros q q' E1 E2 Hb. split; intros Hle.
    - destruct (route_ordered _ _ _ k key Hok) as (x & y & Ex & Ey & Ho); [lia..|]. congruence.
    - destruct (route_ordered _ _ _ key k Hok) as (x & y & Ex & Ey & Ho); [lia..|]. congruence. }
  assert (p ∉ l1 ∧ p ∉ l2) as [Hp1 Hp2].
  { apply NoDup_app in Hnd as (_ & Hd & [Hn _]%NoDup_cons). split; [|done]. intros ?. apply (Hd p); [done|set_solver]. }
  split; intros (q & Hq & Hkq)%Hin.
  - assert (q ∈ ls) as Hql by set_solver. destruct (Hk q Hql Hkq) as [Hb Eq]. apply Z.nle_gt. intros Hle.
    destruct (Hord q p Eq Hr Hb) as [_ Ho]. specialize (Ho Hle).
    assert (q = p) as ->; [|done]. symmetry. apply (ordered_antisym ls); [done|done|]. split; [done|]. split; [set_solver|].
    right. exists l1, (p :: l2). split; [done|]. split; [done|set_solver].
  - assert (q ∈ ls) as Hql by set_solver. destruct (Hk q Hql Hkq) as [Hb Eq]. apply Z.nle_gt. intros Hle.
    destruct (Hord q p Eq Hr Hb) as [Ho _]. specialize (Ho Hle).
    assert (q = p) as ->; [|done]. apply (ordered_antisym ls); [done|done|]. split; [set_solver|]. split; [done|].
    right. exists (l1 ++ [p]), l2. split; [by rewrite <- app_assoc|]. split; [set_solver|done].
Qed.

Lemma pairs_app h l1 l2 : pairs h (l1 ++ l2) = pairs h l1 ++ pairs h l2.
Proof. unfold pairs. by rewrite bind_app. Qed.
Lemma pairs_cons h p l : pairs h (p :: l) = leaf_pairs h p ++ pairs h l.
Proof. done. Qed.
Lemma pairs_ext h h' l : (∀ p, p ∈ l → leaf_pairs h p = leaf_pairs h' p) → pairs h l = pairs h' l.
Proof.
  induction l as [|p l IH]; intros He; [done|]. rewrite !pairs_cons, (He p), IH by set_solver. done.
Qed.

(** One leaf gets other contents. *)
Lemma set_leaf_ok top s l1 p l2 l n :
  tree_ok top s (l1 ++ p :: l2) → heap s !! p = Some (DataNode l) → node_wf n →
  (∀ k, k ∈ (contents n).*1 → k ≤ top ∧ route k s = Ret p) →
  let s' := set_data p (with_data n l) s in
  tree_ok top s' (l1 ++ p :: l2) ∧ pairs (heap s') (l1 ++ p :: l2) = pairs (heap s) l1 ++ contents n ++ pairs (heap s) l2 ∧
  (∀ key, route key s' = route key s).
Proof.
  intros Hok El Hn Hk s'. set (ls := l1 ++ p :: l2) in *.
  assert (same_shape (heap s) (heap s')) as Hsh by (by apply (same_shape_insert _ _ l)).
  assert (∀ key, route key s' = route key s) as Hr by (intros; by apply same_shape_route).
  assert (leaf_pairs (heap s') p = contents n) as Hlp by (unfold leaf_pairs, s'; cbn; by rewrite lookup_insert_eq).
  assert (∀ q, q ≠ p → leaf_pairs (heap s') q = leaf_pairs (heap s) q) as Hlq
    by (intros; unfold leaf_pairs, s'; cbn; by rewrite lookup_insert_ne).
  destruct Hok as [Hc Hnd Hch Hwf Hrt Ht]. split; [|split; [|done]].
  - constructor; [|done|by eapply same_shape_chain| | |done].
    + rewrite <- (same_shape_size _ _ Hsh). by apply (same_shape_covers _ (heap s)).
    + intros q lq Hq. unfold s'; cbn. destruct (decide (q = p)) as [->|Hne].
      * rewrite lookup_insert_eq. intros [= <-]. done.
      * rewrite lookup_insert_ne by done. by apply Hwf.
    + intros q k Hq Hkq. rewrite Hr. destruct (decide (q = p)) as [->|Hne]; [apply Hk; by rewrite <- Hlp|].
      rewrite Hlq in Hkq by done. by apply Hrt.
  - apply NoDup_app in Hnd as (_ & Hd & [Hn2 _]%NoDup_cons). unfold ls. rewrite pairs_app, pairs_cons, Hlp. f_equal; [|f_equal].
    + apply pairs_ext. intros q Hq. apply Hlq. intros ->. apply (Hd p); [done|set_solver].
    + apply pairs_ext. intros q Hq. apply Hlq. by intros ->.
Qed.
End tree_ok.
