(* ===== verification/AlexTreeLookup.v ===== *)
(** * ALEX: lookups in a tree

    In a tree that satisfies the invariant [get_leaf] reaches the leaf that the
    models lead to, and the lookups answer for the list of all pairs. *)
From S2P Require Import Prelude Ieee AlexBase AlexNode AlexOps AlexInv AlexSearch AlexEnds AlexLookup AlexBuild AlexCost AlexFanout AlexTree AlexTreeOps AlexRoute AlexTreeInv AlexTreeOk.

Section lookup.
Implicit Types (h : heap_t) (s : Alex) (p q k key top : Z) (ls : list Z).

(** [get_leaf] follows [descend] and then looks at the neighbours. *)
Lemma get_leaf_loop_descend key s : ∀ fuel p m P q Q path, heap s !! p = Some (ModelN m) →
  (path = None ∨ path = Some P) →
  descend fuel (bucket_of key) p P s = Ret (q, Q) →
  ∃ x, get_leaf_loop fuel key p m path s = correct_leaf key x q ((λ _, Q) <$> path) s.
Proof.
  induction fuel as [|fuel IH]; intros p m P q Q path Ep Hpath Hd; [done|]. cbn [descend get_leaf_loop] in *.
  unfold get_node in Hd at 1. rewrite Ep in Hd. cbn [of_option] in Hd. rewrite res_bind_ret in Hd.
  destruct (child (bucket_of key m) m) as [c| |] eqn:Ec; [|discriminate Hd|discriminate Hd].
  rewrite res_bind_ret in Hd. rewrite res_bind_ret. destruct fuel as [|fuel]; [discriminate Hd|].
  pose proof Hd as Hd'. cbn [descend] in Hd'.
  destruct (get_node c s) as [n| |] eqn:En; [|discriminate Hd'|discriminate Hd']. rewrite res_bind_ret in Hd'. rewrite res_bind_ret.
  assert (heap s !! c = Some n) as En' by (by apply of_option_Ret).
  set (P' := (p, bucket_of key m) :: P) in *.
  assert (push p (bucket_of key m) path = None ∨ push p (bucket_of key m) path = Some P') as Hp'
    by (destruct Hpath as [->| ->]; [by left|by right]).
  assert (∀ Q : list TraversalNode, (λ _, Q) <$> push p (bucket_of key m) path = (λ _, Q) <$> path) as Hq
    by (intros; by destruct Hpath as [->| ->]).
  destruct n as [l|m'].
  - injection Hd' as <- <-. eexists. rewrite <- Hq. by destruct Hp' as [->| ->].
  - destruct (IH c m' P' q Q _ En' Hp' Hd) as (x & Ex). exists x. by rewrite Ex, Hq.
Qed.

(** The neighbours of the leaf never hold the key, nor a reason to move. *)
Lemma correct_leaf_stays top s ls key x p path :
  tree_ok top s ls → 0 < key → key ≤ top → route key s = Ret p → p ∈ ls →
  correct_leaf key x p path s = Ret (p, path).
Proof.
  intros Hok H0 Ht Hr Hp. pose proof Hp as (l1 & l2 & ->)%list_elem_of_split.
  assert (∀ k, (k ∈ (pairs (heap s) l1).*1 → k < key) ∧ (k ∈ (pairs (heap s) l2).*1 → key < k)) as Hka
    by (intros; apply (keys_apart top s l1 p l2 key k Hok); [lia|done]).
  destruct (chain_at _ _ _ _ _ (tree_chain _ _ _ Hok)) as (_ & l & El & Hprev & Hnext).
  pose proof (tree_top _ _ _ Hok) as Htop. unfold correct_leaf, get_data, get_node. rewrite El. cbn [of_option].
  rewrite !res_bind_ret.
  assert (∀ q, q ∈ l1 ++ p :: l2 → ∃ l, heap s !! q = Some (DataNode l) ∧ node_ok (data l) ∧ leaf_pairs (heap s) q = contents (data l)) as Hleaf.
  { intros q Hq. destruct (tree_leaf _ _ _ q Hok Hq) as (lq & Eq & [Hnq _]). exists lq. unfold leaf_pairs. by rewrite Eq. }
  case_match; [|done]. case_match.
  - destruct (last l1) as [q|] eqn:Elast.
    + apply last_Some in Elast as (l1' & ->). assert (q ∈ (l1' ++ [q]) ++ p :: l2) as Hq by set_solver.
      assert (q ≠ 0) as Hq0 by (apply (chain_nonzero _ _ _ _ (tree_chain _ _ _ Hok) Hq)).
      rewrite Hprev. cbn [default from_option id]. rewrite bool_decide_eq_false_2 by done.
      destruct (Hleaf q Hq) as (lq & Eq & Hnq & Elp). rewrite Eq. cbn [of_option]. rewrite !res_bind_ret.
      destruct (last_spec _ Hnq) as [-> _]. rewrite res_bind_ret. rewrite bool_decide_eq_false_2; [done|]. intros Hle.
      destruct (last (contents (data lq)).*1) as [k|] eqn:Ek; cbn in Hle; [|lia].
      apply last_Some in Ek as (ks & Eks). destruct (Hka k) as [Hlt _]. rewrite pairs_app, fmap_app in Hlt.
      assert (k < key); [|lia]. apply Hlt, elem_of_app. right. rewrite pairs_cons, Elp, fmap_app, Eks. set_solver.
    + apply last_None in Elast as ->. rewrite Hprev. by rewrite bool_decide_eq_true_2.
  - destruct l2 as [|q l2].
    + rewrite Hnext. by rewrite bool_decide_eq_true_2.
    + assert (q ∈ l1 ++ p :: q :: l2) as Hq by set_solver.
      assert (q ≠ 0) as Hq0 by (apply (chain_nonzero _ _ _ _ (tree_chain _ _ _ Hok) Hq)).
      rewrite Hnext. cbn [default from_option id head]. rewrite bool_decide_eq_false_2 by done.
      destruct (Hleaf q Hq) as (lq & Eq & Hnq & Elp). rewrite Eq. cbn [of_option]. rewrite !res_bind_ret.
      destruct (first_spec _ Hnq) as [-> _]. rewrite res_bind_ret. rewrite bool_decide_eq_false_2; [done|]. intros Hle.
      destruct (contents (data lq)) as [|[k v] kvs] eqn:Ec; cbn in Hle; [change kEndSentinel_ with UINT64_MAX in *; lia|].
      destruct (Hka k) as [_ Hlt]. assert (key < k); [|lia]. apply Hlt. rewrite pairs_cons, Elp. left.
Qed.

(** The leaf of a key, and the path to it, whose last element is its parent. *)
Lemma get_leaf_with_spec top s ls key path :
  tree_ok top s ls → 0 < key → key ≤ top → (path = None ∨ path = Some []) →
  ∃ p Q, route key s = Ret p ∧ p ∈ ls ∧
    descend (depth_fuel s) (bucket_of key) (root_node_ s) [(superroot_ s, 0)] s = Ret (p, Q) ∧
    get_leaf_with key path s = Ret (p, (λ _, Q) <$> path).
Proof.
  intros Hok H0 Ht Hpath. pose proof (tree_top _ _ _ Hok) as Htop. change kEndSentinel_ with (2 ^ 64 - 1) in Htop.
  destruct (route_ordered _ _ _ key key Hok) as (p & p0 & Hr & _ & Hp & _); [lia..|].
  destruct (covers_descend _ _ _ _ _ (tree_covers _ _ _ Hok) ltac:(lia) (depth_fuel s) key key [] [(superroot_ s, 0)])
    as (p' & q & Q0 & Q & E' & E & Hord); [unfold depth_fuel; lia|lia|done|lia|].
  assert (p' = p) as -> by (unfold route in Hr; rewrite E' in Hr; cbn in Hr; congruence).
  assert (q = p) as ->.
  { destruct (covers_descend _ _ _ _ _ (tree_covers _ _ _ Hok) ltac:(lia) (depth_fuel s) key key [(superroot_ s, 0)] [])
      as (q1 & q2 & Q1 & Q2 & Ex & Ey & Hord'); [unfold depth_fuel; lia|lia|done|lia|].
    rewrite E in Ex. rewrite E' in Ey. simplify_eq. symmetry. by apply (ordered_antisym ls); [apply Hok|..]. }
  exists p, Q. split; [done|]. split; [done|]. split; [done|]. unfold get_leaf_with, push, get_node.
  pose proof (tree_covers _ _ _ Hok) as Hc. destruct (size (heap s)) as [|d]; [done|]. cbn [covers] in Hc.
  destruct (heap s !! root_node_ s) as [[l|m]|] eqn:Er; [| |done]; cbn [of_option]; rewrite res_bind_ret.
  - unfold depth_fuel in E. rewrite (descend_data _ _ _ _ _ l Er) in E. simplify_eq. by destruct Hpath as [->| ->].
  - set (path' := (cons (superroot_ s, 0)) <$> path).
    assert (path' = None ∨ path' = Some [(superroot_ s, 0)]) as Hpath' by (destruct Hpath as [->| ->]; [by left|by right]).
    destruct (get_leaf_loop_descend key s (depth_fuel s) _ m _ p Q path' Er Hpath' E) as (x & ->).
    rewrite (correct_leaf_stays top s ls) by done. by destruct Hpath as [->| ->].
Qed.

Lemma get_leaf_spec top s ls key :
  tree_ok top s ls → 0 < key → key ≤ top → ∃ p, get_leaf key s = Ret p ∧ route key s = Ret p ∧ p ∈ ls.
Proof.
  intros Hok H0 Ht. destruct (get_leaf_with_spec top s ls key None Hok H0 Ht) as (p & Q & Hr & Hp & _ & E); [by left|].
  exists p. unfold get_leaf. rewrite E, res_bind_ret. done.
Qed.

(** ** Reading a leaf *)
Lemma same_node_wf n n' : same_node n n' → node_wf n → node_wf n' ∧ contents n' = contents n.
Proof. intros Hs [Hok Ht]. destruct (same_node_ok _ _ Hs Hok) as [? ?]. split; [|done]. split; [done|]. by destruct Hs as [c ->]. Qed.

Lemma on_leaf {A} top s l1 p l2 (f : AlexDataNode → res (A * AlexDataNode)) r n' l :
  tree_ok top s (l1 ++ p :: l2) → heap s !! p = Some (DataNode l) → f (data l) = Ret (r, n') → same_node (data l) n' →
  let s' := set_data p (with_data n' l) s in
  on_data p f s = Ret (r, s') ∧ tree_ok top s' (l1 ++ p :: l2) ∧ pairs (heap s') (l1 ++ p :: l2) = pairs (heap s) (l1 ++ p :: l2) ∧
  pairs (heap s') l1 = pairs (heap s) l1.
Proof.
  intros Hok El Ef Hs s'. split; [unfold on_data; by rewrite (get_data_leaf _ _ _ El), res_bind_ret, Ef|].
  assert (p ∈ l1 ++ p :: l2) as Hp by set_solver.
  destruct (same_node_wf _ _ Hs (tree_wf _ _ _ Hok p l Hp El)) as [Hwf Hc].
  assert (leaf_pairs (heap s) p = contents (data l)) as Hlp by (unfold leaf_pairs; by rewrite El).
  destruct (set_leaf_ok top s l1 p l2 l n' Hok El Hwf) as (Hok' & Hp' & _).
  { intros k Hk. rewrite Hc, <- Hlp in Hk. by apply (tree_routed _ _ _ Hok). }
  split; [done|]. split; [unfold s'; rewrite Hp', Hc, <- Hlp, <- pairs_cons, <- pairs_app; done|].
  apply pairs_ext. intros q Hq. unfold leaf_pairs, s'. cbn. rewrite lookup_insert_ne; [done|]. intros <-.
  pose proof (tree_nodup _ _ _ Hok) as (_ & Hd & _)%NoDup_app. apply (Hd p); [done|set_solver].
Qed.

Lemma payload_at n i : node_ok n → 0 ≤ i < data_capacity_ n → ∃ v, rd (payload_slots_ (slots_ n)) i = Ret v.
Proof. intros Hok Hi. destruct (node_ok_self n Hok) as [Hv _]. eexists. by apply (rd_payload_view _ _ _ _ _ i Hv). Qed.

(** Back from a leaf to the pair before it. *)
Lemma last_before_spec h s : h = heap s → ∀ fuel l1 p l2, chain h 0 (l1 ++ p :: l2) →
  (∀ q l, q ∈ l1 ++ [p] → h !! q = Some (DataNode l) → node_ok (data l)) → (length l1 < fuel)%nat →
  ∃ q i l, last_before fuel p s = Ret (q, i) ∧ h !! q = Some (DataNode l) ∧
    (∃ v, rd (payload_slots_ (slots_ (data l))) i = Ret v) ∧
    (pairs h l1 ≠ [] → rd (payload_slots_ (slots_ (data l))) i = Ret (default 0 (last (pairs h l1).*2))) ∧
    (pairs h l1 = [] → head (l1 ++ [p]) = Some q ∧
      (leaf_pairs h q ≠ [] → rd (payload_slots_ (slots_ (data l))) i = Ret (default 0 (head (leaf_pairs h q).*2)))).
Proof.
  intros ->. induction fuel as [|fuel IH]; intros l1 p l2 Hc Hok Hf; [lia|]. cbn [last_before].
  destruct (chain_at _ _ _ _ _ Hc) as (_ & l & El & Hprev & _). rewrite (get_data_leaf _ _ _ El), res_bind_ret, Hprev. destruct (last l1) as [q|] eqn:Elast.
  - apply last_Some in Elast as (l1' & ->). rewrite <- app_assoc in Hc. cbn [app] in Hc.
    destruct (chain_at _ _ _ _ _ Hc) as (Hq & lq & Eq & _ & _). cbn [default from_option id].
    rewrite bool_decide_eq_false_2 by done. rewrite (get_data_leaf _ _ _ Eq), res_bind_ret.
    assert (node_ok (data lq)) as Hnq by (apply (Hok q lq); [set_solver|done]).
    assert (leaf_pairs (heap s) q = contents (data lq)) as Elp by (unfold leaf_pairs; by rewrite Eq).
    rewrite (ok_count _ Hnq). rewrite pairs_app. change (pairs (heap s) [q]) with (leaf_pairs (heap s) q ++ []). rewrite app_nil_r.
    case_bool_decide as Hpos.
    + destruct (last_spec _ Hnq) as [_ (i & Ei & Hi & Hl)]. rewrite Ei, res_bind_ret. exists q, i, lq. split; [done|]. split; [done|].
      split; [by apply payload_at|].
      assert (contents (data lq) ≠ []) as Hne by (intros E0; rewrite E0 in Hpos; cbn in Hpos; lia). split.
      * intros _. rewrite Hl, Elp, fmap_app, last_app by done.
        assert ((contents (data lq)).*2 ≠ []) as H2 by (by intros ?%fmap_nil_inv).
        destruct (last (contents (data lq)).*2) eqn:E2; [done|]. by apply last_None in E2.
      * intros [_ E0]%app_nil. by rewrite Elp in E0.
    + assert (contents (data lq) = []) as E0 by (destruct (contents (data lq)); [done|cbn in Hpos; lia]).
      destruct (IH l1' q (p :: l2) Hc) as (q' & i & l' & E & E' & Hv & H1 & H2).
      { intros x lx Hx. apply Hok. set_solver. }
      { rewrite length_app in Hf. cbn in Hf. lia. }
      exists q', i, l'. rewrite Elp, E0, app_nil_r. do 4 (split; [done|]). intros Hnil.
      destruct (H2 Hnil) as [Hh ?]. split; [|done]. destruct l1'; done.
  - apply last_None in Elast as ->. cbn [default from_option id]. rewrite bool_decide_eq_true_2 by done.
    assert (node_ok (data l)) as Hn by (apply (Hok p l); [set_solver|done]).
    destruct (first_spec _ Hn) as [_ (i & Ei & Hi & Hl)]. rewrite Ei, res_bind_ret. exists p, i, l. split; [done|]. split; [done|].
    split; [by apply payload_at|]. split; [done|]. intros _. split; [done|]. unfold leaf_pairs. by rewrite El.
Qed.

(** ** The lookups *)
Lemma tree_split_at top s ls p : tree_ok top s ls → p ∈ ls → ∃ l1 l2 l, ls = l1 ++ p :: l2 ∧
  heap s !! p = Some (DataNode l) ∧ node_wf (data l) ∧ leaf_pairs (heap s) p = contents (data l).
Proof.
  intros Hok Hp. destruct (tree_leaf _ _ _ p Hok Hp) as (l & El & Hwf). apply list_elem_of_split in Hp as (l1 & l2 & ->).
  exists l1, l2, l. split; [done|]. split; [done|]. split; [done|]. unfold leaf_pairs. by rewrite El.
Qed.

(** Where a key is: before it, in its leaf, behind it. *)
Lemma pairs_split top s l1 p l2 key :
  tree_ok top s (l1 ++ p :: l2) → 0 ≤ key ≤ top → route key s = Ret p →
  pairs (heap s) (l1 ++ p :: l2) = pairs (heap s) l1 ++ leaf_pairs (heap s) p ++ pairs (heap s) l2 ∧
  Forall (λ kp, kp.1 < key) (pairs (heap s) l1) ∧ Forall (λ kp, key < kp.1) (pairs (heap s) l2).
Proof.
  intros Hok Hk Hr. split; [by rewrite pairs_app, pairs_cons|].
  split; apply list.Forall_forall; intros kp Hkp; apply (keys_apart top s l1 p l2 key kp.1 Hok Hk Hr), list_elem_of_fmap; by exists kp.
Qed.

Lemma get_payload_spec top s ls key :
  tree_ok top s ls → 0 < key ≤ top →
  ∃ o s', get_payload key s = Ret (o, s') ∧ tree_ok top s' ls ∧ pairs (heap s') ls = pairs (heap s) ls ∧
    match o with
    | Some v => ∃ l1 l2, pairs (heap s) ls = l1 ++ (key, v) :: l2 ∧ key ∉ l2.*1
    | None => key ∉ (pairs (heap s) ls).*1
    end.
Proof.
  intros Hok Hk. pose proof (tree_top _ _ _ Hok) as Htop. destruct (get_leaf_spec top s ls key Hok) as (p & Eg & Hr & Hp); [lia..|].
  destruct (tree_split_at top s ls p Hok Hp) as (l1 & l2 & l & -> & El & Hwf & Elp).
  destruct (pairs_split top s l1 p l2 key Hok ltac:(lia) Hr) as (Epairs & Hlo & Hhi). rewrite list.Forall_forall in Hlo, Hhi.
  destruct (find_key_spec (data l) key (proj1 Hwf)) as (pos & n' & Ef & Hsame & Hpos); [lia|].
  destruct (on_leaf top s l1 p l2 (find_key key) pos n' l Hok El Ef Hsame) as (Eo & Hok' & Hpr & _).
  unfold get_payload, tree_find. rewrite Eg, res_bind_ret, Eo, !res_bind_ret. set (s' := set_data p (with_data n' l) s) in *.
  destruct Hpos as [[-> Hno]|(Hb & He & Hkey & Hsuf)].
  - rewrite bool_decide_eq_true_2 by done. exists None, s'. split; [done|]. split; [done|]. split; [done|].
    rewrite Epairs, !fmap_app, Elp, !elem_of_app. intros [(kp & -> & Hi%Hlo)%list_elem_of_fmap|[?|(kp & -> & Hi%Hhi)%list_elem_of_fmap]];
      [lia|done|lia].
  - rewrite bool_decide_eq_false_2 by lia. destruct (node_ok_self _ (proj1 Hwf)) as [Hv _].
    unfold leaf_payload. rewrite (get_data_leaf s' p (with_data n' l)), res_bind_ret by (unfold s'; cbn; by rewrite lookup_insert_eq).
    assert (slots_ (data (with_data n' l)) = slots_ (data l)) as -> by (destruct Hsame as [c ->]; done).
    rewrite (rd_payload_view _ _ _ _ _ pos Hv Hb), res_bind_ret. eexists _, s'. split; [done|]. split; [done|]. split; [done|].
    exists (pairs (heap s) l1 ++ between (data l) 0 pos), (suffix (data l) (pos + 1) ++ pairs (heap s) l2). split.
    + rewrite Epairs, Elp, <- !app_assoc. f_equal. unfold contents, between, suffix.
      rewrite (listing_app _ _ _ 0 pos (data_capacity_ (data l))) by lia.
      rewrite (listing_cons _ _ _ pos (data_capacity_ (data l))), He, Hkey by lia. by rewrite <- app_assoc.
    + rewrite fmap_app, Hsuf, elem_of_app.
      intros [(kp & -> & [? _]%list_elem_of_filter)%list_elem_of_fmap|(kp & -> & Hi%Hhi)%list_elem_of_fmap]; lia.
Qed.

Definition floor_of (l : list (Z * Z)) (key : Z) : list (Z * Z) := filter (λ kp, kp.1 ≤ key) l.

Lemma floor_spec top s ls key :
  tree_ok top s ls → 0 < key ≤ top →
  let below := floor_of (pairs (heap s) ls) key in
  ∃ v s', tree_get_payload_last_no_greater_than key s = Ret (v, s') ∧ tree_ok top s' ls ∧
    pairs (heap s') ls = pairs (heap s) ls ∧
    (below ≠ [] → v = default 0 (last below.*2)) ∧
    (below = [] → ∀ p rest, ls = p :: rest → leaf_pairs (heap s) p ≠ [] → v = default 0 (head (leaf_pairs (heap s) p).*2)).
Proof.
  intros Hok Hk below. pose proof (tree_top _ _ _ Hok) as Htop. destruct (get_leaf_spec top s ls key Hok) as (p & Eg & Hr & Hp); [lia..|].
  destruct (tree_split_at top s ls p Hok Hp) as (l1 & l2 & l & -> & El & Hwf & Elp).
  destruct (pairs_split top s l1 p l2 key Hok ltac:(lia) Hr) as (Epairs & Hlo & Hhi).
  destruct (upper_bound_spec (data l) key (proj1 Hwf)) as (pos & n' & Ef & Hsame & Hb & H0 & H1); [lia|]. rewrite <- Elp in H0, H1.
  assert (below = pairs (heap s) l1 ++ filter (λ kp, kp.1 ≤ key) (leaf_pairs (heap s) p)) as Ebelow.
  { unfold below, floor_of. rewrite Epairs, !filter_app, (filter_all _ (pairs _ l1)), (filter_none _ (pairs _ l2)), app_nil_r; [done| |].
    - eapply Forall_impl; [exact Hhi|]. cbn. lia.
    - eapply Forall_impl; [exact Hlo|]. cbn. lia. }
  destruct (on_leaf top s l1 p l2 (upper_bound key) pos n' l Hok El Ef Hsame) as (Eo & Hok' & Hpr & Hpr1).
  unfold tree_get_payload_last_no_greater_than. rewrite Eg, res_bind_ret, Eo, !res_bind_ret.
  set (s' := set_data p (with_data n' l) s) in *.
  assert (heap s' !! p = Some (DataNode (with_data n' l))) as El' by (unfold s'; cbn; by rewrite lookup_insert_eq).
  assert (leaf_pairs (heap s') p = leaf_pairs (heap s) p) as Elp'.
  { unfold leaf_pairs at 1. rewrite El', Elp. by apply (same_node_wf _ _ Hsame). }
  destruct (decide (pos = 0)) as [->|Hpos].
  - rewrite bool_decide_eq_false_2 by lia. rewrite H0, app_nil_r in Ebelow by done.
    destruct (last_before_spec (heap s') s' eq_refl (depth_fuel s') l1 p l2 (tree_chain _ _ _ Hok')) as (q & i & lq & -> & Eq & [v Hrd] & Hn & Hz).
    { intros q lq Hq Eq. apply (tree_wf _ _ _ Hok' q); [set_solver|done]. }
    { pose proof (chain_length _ _ _ (tree_nodup _ _ _ Hok') (tree_chain _ _ _ Hok')) as Hlen. rewrite length_app in Hlen. unfold depth_fuel. lia. }
    rewrite res_bind_ret. unfold leaf_payload. rewrite (get_data_leaf _ _ _ Eq), res_bind_ret. rewrite Hpr1 in Hn, Hz.
    destruct (decide (pairs (heap s) l1 = [])) as [Enil|Ene].
    + destruct (Hz Enil) as [Hhead Hv]. rewrite Hrd, res_bind_ret. exists v, s'. do 3 (split; [done|]).
      split; [by rewrite Ebelow|]. intros _ q' rest Eq' Hne. assert (q' = q) as ->.
      { destruct l1 as [|x l1]; cbn in Hhead, Eq'; congruence. }
      assert (leaf_pairs (heap s') q = leaf_pairs (heap s) q) as E.
      { destruct (decide (q = p)) as [->|Hqp]; [done|]. unfold leaf_pairs, s'. cbn. by rewrite lookup_insert_ne. }
      rewrite <- E in *. rewrite Hv in Hrd by done. congruence.
    + rewrite Hn, res_bind_ret by done. eexists _, s'. split; [done|]. split; [done|]. split; [done|]. split; [by rewrite Ebelow|].
      intros E. by rewrite Ebelow in E.
  - rewrite bool_decide_eq_true_2 by lia. rewrite res_bind_ret. unfold leaf_payload. rewrite (get_data_leaf _ _ _ El'), res_bind_ret.
    destruct (H1 ltac:(lia)) as [Hne Hrd]. change (data (with_data n' l)) with n'. rewrite Hrd, res_bind_ret.
    eexists _, s'. split; [done|]. split; [done|]. split; [done|]. rewrite Ebelow. split.
    + intros _. rewrite fmap_app, last_app.
      destruct (last (filter _ (leaf_pairs (heap s) p)).*2) eqn:E2; [done|]. apply last_None, fmap_nil_inv in E2. by rewrite E2 in Hne.
    + by intros [_ ?]%app_nil.
Qed.
End lookup.
