(* ===== verification/AlexTreeUpdate.v ===== *)
(** * ALEX: inserts that leave the shape of the tree alone

    A key is inserted into the leaf it belongs to as long as that leaf takes it
    and the key domain need not grow; the leaf of a key in the list of all
    pairs. *)
From S2P Require Import Prelude Ieee AlexBase AlexNode AlexOps AlexInv AlexSearch AlexLookup AlexBuild AlexUpdate AlexCost AlexFanout AlexTree AlexTreeOps AlexRoute AlexTreeInv AlexTreeOk AlexTreeLookup.

Section update.
Context (junk : Z → Z) (log2 : double → double) (max_fanout max_data_node_slots splitting_policy_method : Z).
Implicit Types (h : heap_t) (s : Alex) (p q k key payload top : Z) (ls : list Z).

(** Only the heap and the root matter. *)
Lemma same_heap_route s s' key : heap s' = heap s → root_node_ s' = root_node_ s → route key s' = route key s.
Proof.
  intros Eh Er. apply same_shape_route; [|done]. rewrite Eh. intros p. destruct (heap s !! p); constructor.
  apply same_node_shape_refl.
Qed.
Lemma same_heap_ok top s s' ls : heap s' = heap s → root_node_ s' = root_node_ s → tree_ok top s ls → tree_ok top s' ls.
Proof.
  intros Eh Er [Hc Hnd Hch Hwf Hrt Ht]. constructor; rewrite ?Eh, ?Er; try done.
  intros p k Hp Hk. rewrite (same_heap_route s s') by done. by apply Hrt.
Qed.

(** ** The key domain *)
(** The root is a leaf, or the key is within the domain. *)
Definition settled (key : Z) s : Prop :=
  (∃ l, heap s !! root_node_ s = Some (DataNode l)) ∨ key_domain_min_ (istats_ s) ≤ key ≤ key_domain_max_ (istats_ s).

Lemma should_expand_leaf outside at_last s l :
  heap s !! root_node_ s = Some (DataNode l) → should_expand outside at_last s = Ret false.
Proof. intros E. unfold should_expand, get_node. by rewrite E. Qed.

Lemma expand_domain_settled key s : settled key s → ∃ i, expand_domain junk log2 max_fanout max_data_node_slots key s = Ret (with_istats i s).
Proof.
  assert (∀ i l, heap s !! root_node_ s = Some (DataNode l) →
    heap (with_istats i s) !! root_node_ (with_istats i s) = Some (DataNode l)) as Hh by done.
  intros Hs. unfold expand_domain. case_bool_decide as H1; [|case_bool_decide as H2].
  - destruct Hs as [[l E]|]; [|lia]. unfold should_expand_right. rewrite (should_expand_leaf _ _ _ l) by by apply Hh.
    rewrite res_bind_ret. by eexists.
  - destruct Hs as [[l E]|]; [|lia]. unfold should_expand_left. rewrite (should_expand_leaf _ _ _ l) by by apply Hh.
    rewrite res_bind_ret. by eexists.
  - exists (istats_ s). by destruct s.
Qed.

(** ** One leaf in the list *)
Lemma inserted_middle l1 l l2 key payload :
  Forall (λ kp, kp.1 < key) l1 → Forall (λ kp, key < kp.1) l2 →
  inserted (l1 ++ l ++ l2) key payload = l1 ++ inserted l key payload ++ l2.
Proof.
  intros H1 H2. unfold inserted. rewrite !filter_app.
  rewrite (filter_all _ l1), (filter_none _ l2), app_nil_r, (filter_none _ l1), (filter_all _ l2);
    [by rewrite <- !app_assoc|..]; (eapply Forall_impl; [eassumption|]); cbn; lia.
Qed.

(** The leaf that a key belongs to, and what is around it. *)
Lemma key_leaf top s ls key :
  tree_ok top s ls → 0 < key ≤ top →
  ∃ l1 p l2 l, ls = l1 ++ p :: l2 ∧ get_leaf key s = Ret p ∧ route key s = Ret p ∧ heap s !! p = Some (DataNode l) ∧
    node_wf (data l) ∧ pairs (heap s) ls = pairs (heap s) l1 ++ contents (data l) ++ pairs (heap s) l2 ∧
    Forall (λ kp, kp.1 < key) (pairs (heap s) l1) ∧ Forall (λ kp, key < kp.1) (pairs (heap s) l2) ∧
    (∀ k, k ∈ (contents (data l)).*1 → k ≤ top ∧ route k s = Ret p).
Proof.
  intros Hok Hk. destruct (get_leaf_spec top s ls key Hok) as (p & Eg & Hr & Hp); [lia..|].
  destruct (tree_split_at top s ls p Hok Hp) as (l1 & l2 & l & -> & El & Hwf & Elp).
  destruct (pairs_split top s l1 p l2 key Hok ltac:(lia) Hr) as (E & H1 & H2). rewrite Elp in E.
  exists l1, p, l2, l. do 8 (split; [done|]). intros k. rewrite <- Elp. by apply (tree_routed _ _ _ Hok).
Qed.

(** The leaf of the key takes another pair, or refuses it. *)
Definition room_for (key : Z) (s : Alex) : Prop :=
  ∃ p l, route key s = Ret p ∧ heap s !! p = Some (DataNode l) ∧ refuse (data l) = None ∧ num_keys_ (data l) ≤ 2 ^ 26.
Definition refused (fail key : Z) (s : Alex) : Prop :=
  ∃ p l, route key s = Ret p ∧ heap s !! p = Some (DataNode l) ∧ refuse (data l) = Some fail.

Lemma try_insert_spec top s ls p key payload :
  tree_ok top s ls → 0 < key ≤ top → route key s = Ret p → room_for key s →
  ∃ pos l n', heap s !! p = Some (DataNode l) ∧ let s' := set_data p (with_data n' l) s in
    try_insert junk key payload p s = Ret (0, pos, s') ∧ tree_ok top s' ls ∧
    pairs (heap s') ls = inserted (pairs (heap s) ls) key payload ∧ route key s' = Ret p ∧ leaf_payload p pos s' = Ret payload.
Proof.
  intros Hok Hk Hr (p' & l & Hr' & El & Href & Hn). assert (p' = p) as -> by congruence.
  pose proof (tree_top _ _ _ Hok) as Htop. destruct (key_leaf top s ls key Hok Hk) as (l1 & p0 & l2 & l0 & -> & _ & Hr0 & El0 & Hwf & Ep & H1 & H2 & Hin).
  assert (p0 = p) as -> by congruence. assert (l0 = l) as -> by congruence. unfold try_insert. rewrite (get_data_leaf _ _ _ El), res_bind_ret.
  destruct (insert_spec junk true (data l) key payload Hwf) as (flag & pos & n' & -> & Hwf' & -> & Hc & Hb & _ & _ & Hpay); [lia|done|done|].
  cbn [negb andb]. exists pos, l, n'. split; [done|]. set (s' := set_data p (with_data n' l) s).
  destruct (set_leaf_ok top s l1 p l2 l n' Hok El Hwf') as (Hok' & Epp & Hrr).
  { intros k. rewrite Hc. unfold inserted. rewrite fmap_app, fmap_cons, elem_of_app, elem_of_cons.
    intros [(kp & -> & [_ ?]%list_elem_of_filter)%list_elem_of_fmap|[->|(kp & -> & [_ ?]%list_elem_of_filter)%list_elem_of_fmap]];
      [apply Hin, list_elem_of_fmap; by exists kp|change (key, payload).1 with key; split; [lia|done]|
       apply Hin, list_elem_of_fmap; by exists kp]. }
  fold s' in Hok', Epp, Hrr. split; [by rewrite !res_bind_ret|]. split; [done|]. split; [|split].
  - rewrite Epp, Ep, inserted_middle by done. by rewrite Hc.
  - by rewrite Hrr.
  - unfold leaf_payload. rewrite (get_data_leaf _ _ (with_data n' l)), res_bind_ret by (unfold s'; cbn; by rewrite lookup_insert_eq).
    destruct (node_ok_self n' (proj1 Hwf')) as [Hv _]. cbn [data with_data].
    by rewrite (rd_payload_view _ _ _ _ _ pos Hv Hb), Hpay.
Qed.

(** A refusal leaves the state as it was. *)
Lemma try_insert_refused s p fail key payload :
  route key s = Ret p → refused fail key s → try_insert junk key payload p s = Ret (fail, -1, s).
Proof.
  intros Hr (p' & l & Hr' & El & Href). assert (p' = p) as -> by congruence. unfold try_insert, insert.
  rewrite (get_data_leaf _ _ _ El), res_bind_ret, Href, res_bind_ret. do 2 f_equal. unfold set_data, set_node, with_heap.
  replace (with_data (data l) l) with l by by destruct l. rewrite insert_id by done. by destruct s.
Qed.

Lemma room_for_istats i key s : room_for key s → room_for key (with_istats i s).
Proof. intros (p & l & Hr & H). exists p, l. rewrite (same_heap_route s) by done. done. Qed.

Lemma tree_insert_spec top s ls fuel key payload :
  tree_ok top s ls → 0 < key ≤ top → settled key s → room_for key s →
  ∃ p pos s', tree_insert junk log2 max_fanout max_data_node_slots splitting_policy_method fuel key payload s =
      Ret (p, pos, true, s') ∧ tree_ok top s' ls ∧ pairs (heap s') ls = inserted (pairs (heap s) ls) key payload ∧
    route key s' = Ret p ∧ leaf_payload p pos s' = Ret payload ∧ stats_ s' = stats_ (add_keys 1 s).
Proof.
  intros Hok Hk Hs Hroom. destruct (expand_domain_settled key s Hs) as (i & Ee). unfold tree_insert. rewrite Ee, res_bind_ret.
  set (s0 := with_istats i s) in *. assert (tree_ok top s0 ls) as Hok0 by by apply (same_heap_ok top s).
  destruct (get_leaf_spec top s0 ls key Hok0) as (p & Eg & Hr & _); [lia..|].
  destruct (try_insert_spec top s0 ls p key payload Hok0 Hk Hr (room_for_istats _ _ _ Hroom)) as (pos & l & n' & _ & E & Hok' & Hp & Hr' & Hpay).
  rewrite Eg, res_bind_ret, E, res_bind_ret, (bool_decide_eq_false_2 (0 = -1)), (bool_decide_eq_true_2 (0 = 0)) by lia.
  set (s' := set_data p (with_data n' l) s0) in *. exists p, pos, (add_keys 1 s'). split; [done|].
  split; [by apply (same_heap_ok top s')|]. split; [done|]. split; [by rewrite (same_heap_route s')|done].
Qed.

(** ** Erasing *)
Lemma count_erased_istats key r s : ∃ i, count_erased key r s = with_istats i s.
Proof. unfold count_erased. repeat case_bool_decide; eexists; try done. instantiate (1 := istats_ s). by destruct s. Qed.
End update.
