(* ===== verification/AlexIter.v ===== *)
(** * ALEX: the iterators of a tree

    [Iterator] and [ReverseIterator] ([ConstIterator] and
    [ConstReverseIterator] repeat them), the lookups that return one and
    [count].  An iterator stands for the pairs it has still to visit. *)
From S2P Require Import Prelude Ieee AlexBase AlexNode AlexOps AlexInv AlexSearch AlexLookup AlexEnds AlexBuild AlexCost AlexFanout AlexTree AlexTreeOps AlexRoute AlexTreeInv AlexTreeOk AlexTreeLookup AlexTreeUpdate.

(** ** Data *)
Record LeafIterator : Type := mkLeafIt {
  cur_leaf_ : Z;
  li_idx_ : Z;
  li_bitmap_idx_ : Z;
  li_bitmap_data_ : Z
}.
(** [end()] and [rend()] *)
Definition it_end : LeafIterator := mkLeafIt 0 0 0 0.
Definition li_is_end (it : LeafIterator) : bool := bool_decide (cur_leaf_ it = 0).

Section operations.
Implicit Types (s : Alex) (leaf idx bidx data key : Z) (it : LeafIterator).

Definition li_key it s : res Z := let* l := get_data (cur_leaf_ it) s in rd (key_slots_ (slots_ (data l))) (li_idx_ it).
Definition li_payload it s : res Z := let* l := get_data (cur_leaf_ it) s in rd (payload_slots_ (slots_ (data l))) (li_idx_ it).

(** ** Forwards *)
(** [advance]: the words of a leaf, then those of the next leaf. *)
Fixpoint advance_from (fuel : nat) leaf idx bidx word s : res LeafIterator :=
  match fuel with
  | O => Diverge
  | S fuel =>
      let* l := get_data leaf s in
      let n := data l in
      let* (bidx, word) := scan_words (scan_fuel n) (bitmap_size_ n) (bitmap_ (slots_ n)) bidx word in
      if bool_decide (word = 0) then
        let leaf := next_leaf_ l in
        if bool_decide (leaf = 0) then Ret (mkLeafIt 0 0 bidx 0)
        else
          let* l := get_data leaf s in
          let* word := rd (bitmap_ (slots_ (data l))) 0 in
          advance_from fuel leaf 0 0 word s
      else Ret (mkLeafIt leaf (get_offset bidx (extract_rightmost_one word)) bidx (remove_rightmost_one word))
  end.
Definition advance it s : res LeafIterator :=
  advance_from (depth_fuel s) (cur_leaf_ it) (li_idx_ it) (li_bitmap_idx_ it) (li_bitmap_data_ it) s.

(** The leaf and the slot an iterator is made of, corrected when the slot is
    behind the leaf. *)
Definition start_slot leaf idx s : res (Z * Z) :=
  let* l := get_data leaf s in
  Ret (if bool_decide (data_capacity_ (data l) ≤ idx) then (next_leaf_ l, 0) else (leaf, idx)).

Definition initialize leaf idx s : res LeafIterator :=
  if bool_decide (leaf = 0) then Ret (mkLeafIt 0 idx 0 0)
  else
    let* (leaf, idx) := start_slot leaf idx s in
    if bool_decide (leaf = 0) then Ret (mkLeafIt 0 0 0 0)
    else
      let* l := get_data leaf s in
      let* word := rd (bitmap_ (slots_ (data l))) (word_of idx) in
      advance_from (depth_fuel s) leaf idx (word_of idx) (Z.land word (not64 (low_mask (bit_of idx)))) s.

Definition begin s : res LeafIterator := let* p := first_data_node s in initialize p 0 s.

(** ** Backwards *)
Fixpoint scan_back (fuel : nat) (bitmap : list Z) bidx word : res (Z * Z) :=
  match fuel with
  | O => Diverge
  | S fuel =>
      if bool_decide (word = 0) then
        let bidx := bidx - 1 in
        if bool_decide (bidx < 0) then Ret (bidx, 0)
        else let* word := rd bitmap bidx in scan_back fuel bitmap bidx word
      else Ret (bidx, word)
  end.

Fixpoint retreat_from (fuel : nat) leaf idx bidx word s : res LeafIterator :=
  match fuel with
  | O => Diverge
  | S fuel =>
      let* l := get_data leaf s in
      let n := data l in
      let* (bidx, word) := scan_back (scan_fuel n) (bitmap_ (slots_ n)) bidx word in
      if bool_decide (word = 0) then
        let leaf := prev_leaf_ l in
        if bool_decide (leaf = 0) then Ret (mkLeafIt 0 0 bidx 0)
        else
          let* l := get_data leaf s in
          let n := data l in
          let* word := rd (bitmap_ (slots_ n)) (bitmap_size_ n - 1) in
          retreat_from fuel leaf (data_capacity_ n - 1) (bitmap_size_ n - 1) word s
      else
        let bit_pos := 63 - lzcnt word in
        Ret (mkLeafIt leaf (Z.shiftl bidx 6 + bit_pos) bidx (Z.land word (not64 (Z.shiftl 1 bit_pos))))
  end.
Definition retreat it s : res LeafIterator :=
  retreat_from (depth_fuel s) (cur_leaf_ it) (li_idx_ it) (li_bitmap_idx_ it) (li_bitmap_data_ it) s.

Definition initialize_back leaf idx s : res LeafIterator :=
  if bool_decide (leaf = 0) then Ret (mkLeafIt 0 idx 0 0)
  else
    let* (leaf, idx) := start_slot leaf idx s in
    if bool_decide (leaf = 0) then Ret (mkLeafIt 0 0 0 0)
    else
      let* l := get_data leaf s in
      let* word := rd (bitmap_ (slots_ (data l))) (word_of idx) in
      let bit_pos := bit_of idx in
      retreat_from (depth_fuel s) leaf idx (word_of idx) (Z.land word (Z.lor (Z.shiftl 1 bit_pos) (low_mask bit_pos))) s.

Definition rbegin s : res LeafIterator :=
  let* p := last_data_node s in
  let* l := get_data p s in
  initialize_back p (data_capacity_ (data l) - 1) s.

(** ** Lookups *)
(** The slot a search of the leaf of the key finds. *)
Definition search_leaf (search : Z → AlexDataNode → res (Z * AlexDataNode)) key s : res (LeafIterator * Alex) :=
  let* leaf := get_leaf key s in
  let* (idx, s) := on_data leaf (search key) s in
  let* it := initialize leaf idx s in
  Ret (it, s).
Definition tree_lower_bound : Z → Alex → res (LeafIterator * Alex) := search_leaf find_lower.
Definition tree_upper_bound : Z → Alex → res (LeafIterator * Alex) := search_leaf find_upper.

Definition find key s : res (LeafIterator * Alex) :=
  let* (r, s) := tree_find key s in
  match r with
  | None => Ret (it_end, s)
  | Some (leaf, idx) => let* it := initialize leaf idx s in Ret (it, s)
  end.

(** [find_last_no_greater_than]: with no smaller pair, the first slot of the
    first leaf. *)
Fixpoint last_before_it (fuel : nat) (leaf : Z) s : res LeafIterator :=
  match fuel with
  | O => Diverge
  | S fuel =>
      let* l := get_data leaf s in
      if bool_decide (prev_leaf_ l = 0) then initialize leaf 0 s
      else
        let* prev := get_data (prev_leaf_ l) s in
        if bool_decide (0 < num_keys_ (data prev)) then let* i := last_pos (data prev) in initialize (prev_leaf_ l) i s
        else last_before_it fuel (prev_leaf_ l) s
  end.
Definition find_last_no_greater_than key s : res (LeafIterator * Alex) :=
  let* leaf := get_leaf key s in
  let* (pos, s) := on_data leaf (upper_bound key) s in
  let idx := pos - 1 in
  let* it := if bool_decide (0 ≤ idx) then initialize leaf idx s else last_before_it (depth_fuel s) leaf s in
  Ret (it, s).

Fixpoint count_loop (fuel : nat) key it (num_equal : Z) s : res Z :=
  match fuel with
  | O => Diverge
  | S fuel =>
      if li_is_end it then Ret num_equal
      else
        let* k := li_key it s in
        if bool_decide (k = key) then let* it := advance it s in count_loop fuel key it (num_equal + 1) s
        else Ret num_equal
  end.
Definition count (fuel : nat) key s : res (Z * Alex) :=
  let* (it, s) := tree_lower_bound key s in
  let* c := count_loop fuel key it 0 s in
  Ret (c, s).

(** The order of the two calls is not specified; they do not interfere. *)
Definition equal_range key s : res (LeafIterator * LeafIterator * Alex) :=
  let* (a, s) := tree_lower_bound key s in
  let* (b, s) := tree_upper_bound key s in
  Ret (a, b, s).
End operations.

(** What [for (; !it.is_end(); ++it)] visits. *)
Fixpoint visit (step : LeafIterator → Alex → res LeafIterator) (fuel : nat) (it : LeafIterator) (s : Alex) : res (list (Z * Z)) :=
  match fuel with
  | O => Diverge
  | S fuel =>
      if li_is_end it then Ret []
      else
        let* k := li_key it s in
        let* v := li_payload it s in
        let* it := step it s in
        let* rest := visit step fuel it s in
        Ret ((k, v) :: rest)
  end.

(** ** Iterators and the pairs they stand for *)
Section iter.
Implicit Types (s : Alex) (p idx bidx word key pos : Z) (it : LeafIterator) (ls : list Z) (rest : list (Z * Z)).

(** [it] stands on the first of [rest], which are pairs of the last leaves. *)
Definition stands s ls it rest : Prop :=
  (cur_leaf_ it = 0 ∧ rest = []) ∨
  ∃ l1 l2 (l : Leaf), ls = l1 ++ cur_leaf_ it :: l2 ∧ cur_leaf_ it ≠ 0 ∧ heap s !! cur_leaf_ it = Some (DataNode l) ∧
    let n := data l in
    0 ≤ li_idx_ it < data_capacity_ n ∧ ex (bitmap_ (slots_ n)) (li_idx_ it) = true ∧
    0 ≤ li_bitmap_idx_ it < words_for (data_capacity_ n) ∧
    li_bitmap_idx_ it * 64 ≤ li_idx_ it < (li_bitmap_idx_ it + 1) * 64 ∧
    masked (bitmap_ (slots_ n)) (li_bitmap_idx_ it) (li_idx_ it + 1) (li_bitmap_data_ it) ∧
    rest = suffix n (li_idx_ it) ++ pairs (heap s) l2.

Definition leaves_ok s ls : Prop := chain (heap s) 0 ls ∧ ∀ p (l : Leaf), p ∈ ls → heap s !! p = Some (DataNode l) → node_ok (data l).
Lemma tree_leaves_ok top s ls : tree_ok top s ls → leaves_ok s ls.
Proof. intros Hok. split; [apply Hok|]. intros p l Hp El. by apply (tree_wf _ _ _ Hok p). Qed.

Lemma leaf_pairs_at s p (l : Leaf) : heap s !! p = Some (DataNode l) → leaf_pairs (heap s) p = contents (data l).
Proof. intros E. unfold leaf_pairs. by rewrite E. Qed.

Lemma advance_from_spec s ls : leaves_ok s ls → ∀ fuel l1 p l2 (l : Leaf) idx bidx pos word,
  ls = l1 ++ p :: l2 → heap s !! p = Some (DataNode l) → 0 ≤ bidx < words_for (data_capacity_ (data l)) →
  0 ≤ pos → bidx * 64 ≤ pos ≤ (bidx + 1) * 64 → masked (bitmap_ (slots_ (data l))) bidx pos word → (length l2 < fuel)%nat →
  ∃ it, advance_from fuel p idx bidx word s = Ret it ∧ stands s ls it (suffix (data l) pos ++ pairs (heap s) l2).
Proof.
  intros [Hch Hnok]. induction fuel as [|fuel IH]; intros l1 p l2 l idx bidx pos word Els El Hb Hp0 Hp Hm Hf; [lia|].
  cbn [advance_from]. rewrite (get_data_leaf _ _ _ El), res_bind_ret. rewrite Els in Hch.
  destruct (chain_at _ _ _ _ _ Hch) as (Hp0' & l' & El' & _ & Hnext). assert (l' = l) as -> by congruence.
  pose proof (Hnok p l ltac:(rewrite Els; set_solver) El) as Hn. pose proof (ok_shape _ Hn) as Hs. set (n := data l) in *.
  rewrite (ok_bitmap_size _ Hn). unfold scan_fuel. rewrite (ok_bitmap_size _ Hn).
  destruct (scan_words_spec _ (slots_ n) (S (Z.to_nat (words_for (data_capacity_ n)))) bidx pos word Hs Hb Hm) as (bidx' & word' & -> & H);
    [lia|lia|]. rewrite res_bind_ret. destruct H as [[-> Hgap]|(Hne & pos' & Hpp & Hgap & Hb' & Hp' & Hm')].
  - rewrite bool_decide_eq_true_2 by done.
    assert (suffix n pos = []) as -> by (by apply listing_gaps). cbn [app].
    destruct l2 as [|q l2]; cbn in Hnext; rewrite Hnext.
    + rewrite bool_decide_eq_true_2 by done. eexists. split; [done|]. left. done.
    + assert (ls = (l1 ++ [p]) ++ q :: l2) as Els' by (by rewrite Els, <- app_assoc).
      replace (l1 ++ p :: q :: l2) with ((l1 ++ [p]) ++ q :: l2) in Hch by by rewrite <- app_assoc.
      destruct (chain_at _ _ _ _ _ Hch) as (Hq & lq & Eq & _ & _). rewrite bool_decide_eq_false_2 by done.
      rewrite (get_data_leaf _ _ _ Eq), res_bind_ret. pose proof (Hnok q lq ltac:(rewrite Els; set_solver) Eq) as Hnq.
      pose proof (ok_capacity _ Hnq) as Hcap. assert (0 ≤ 0 < words_for (data_capacity_ (data lq))) as H0
        by (unfold words_for; Z.to_euclidean_division_equations; lia).
      destruct (bitmap_rd _ _ 0 (ok_shape _ Hnq) H0) as [-> _]. rewrite res_bind_ret.
      destruct (IH (l1 ++ [p]) q l2 lq 0 0 0 (bitmap_ (slots_ (data lq)) !!! Z.to_nat 0) Els' Eq H0) as (it & E & Hst);
        [lia|lia|by apply (masked_word (data_capacity_ (data lq))); [apply Hnq|..]|cbn in Hf; lia|].
      exists it. split; [done|]. rewrite pairs_cons, (leaf_pairs_at _ _ _ Eq). exact Hst.
  - rewrite bool_decide_eq_false_2 by done.
    destruct (masked_first _ _ bidx' pos' word' Hs) as (j & <- & Hj & Hjw & Hej & Hg2 & Hm2); [lia|done|done|lia|].
    eexists. split; [done|]. right. exists l1, l2, l. cbn [cur_leaf_ li_idx_ li_bitmap_idx_ li_bitmap_data_]. fold n. cbv zeta. do 3 (split; [done|]). split; [lia|]. split; [done|]. split; [lia|].
    split; [lia|]. split; [done|]. f_equal. unfold suffix. rewrite (listing_app _ _ _ pos j) by lia. rewrite (listing_gaps _ _ _ pos j); [done|].
    intros i Hi. destruct (decide (i < pos')); [apply Hgap; lia|apply Hg2; lia].
Qed.

Lemma leaves_fuel top s l1 p l2 : tree_ok top s (l1 ++ p :: l2) → (length l1 < depth_fuel s ∧ length l2 < depth_fuel s)%nat.
Proof.
  intros Hok. pose proof (chain_length _ _ _ (tree_nodup _ _ _ Hok) (tree_chain _ _ _ Hok)) as H. rewrite length_app in H. cbn in H.
  unfold depth_fuel. lia.
Qed.

(** Where the iterator made of a slot stands. *)
Lemma initialize_spec top s l1 p l2 (l : Leaf) idx :
  tree_ok top s (l1 ++ p :: l2) → heap s !! p = Some (DataNode l) → 0 ≤ idx →
  ∃ it, initialize p idx s = Ret it ∧ stands s (l1 ++ p :: l2) it (suffix (data l) idx ++ pairs (heap s) l2).
Proof.
  intros Hok El Hidx. pose proof (tree_leaves_ok _ _ _ Hok) as Hlv. pose proof Hlv as [Hch Hnok].
  destruct (chain_at _ _ _ _ _ Hch) as (Hp0 & l' & El' & _ & Hnext). assert (l' = l) as -> by congruence. destruct (leaves_fuel _ _ _ _ _ Hok) as [_ Hf].
  assert (∀ l1' q l2' (lq : Leaf) i, l1 ++ p :: l2 = l1' ++ q :: l2' → heap s !! q = Some (DataNode lq) → 0 ≤ i < data_capacity_ (data lq) →
    (length l2' < depth_fuel s)%nat → ∃ it, (let* word := rd (bitmap_ (slots_ (data lq))) (word_of i) in
      advance_from (depth_fuel s) q i (word_of i) (Z.land word (not64 (low_mask (bit_of i)))) s) = Ret it ∧
      stands s (l1 ++ p :: l2) it (suffix (data lq) i ++ pairs (heap s) l2')) as Hstart.
  { intros l1' q l2' lq i E Eq Hi Hlen. pose proof (Hnok q lq ltac:(rewrite E; set_solver) Eq) as Hnq.
    pose proof (div64_lt i _ Hi) as Hq. rewrite word_of_div, bit_of_mod. destruct (bitmap_rd _ _ (i / 64) (ok_shape _ Hnq) Hq) as [-> _].
    rewrite res_bind_ret. eapply (advance_from_spec s _ Hlv); [exact E|done|done|lia| | |done].
    - Z.to_euclidean_division_equations. lia.
    - by apply (masked_low (data_capacity_ (data lq))); [apply Hnq|]. }
  unfold initialize, start_slot. rewrite bool_decide_eq_false_2, (get_data_leaf _ _ _ El), !res_bind_ret by done.
  case_bool_decide as Hcap.
  - unfold suffix. rewrite listing_nil by lia. cbn [app]. rewrite Hnext. destruct l2 as [|q l2]; cbn [head default from_option id].
    + rewrite bool_decide_eq_true_2 by done. eexists. split; [done|]. by left.
    + assert (l1 ++ p :: q :: l2 = (l1 ++ [p]) ++ q :: l2) as E by (by rewrite <- app_assoc). rewrite E in Hch.
      destruct (chain_at _ _ _ _ _ Hch) as (Hq & lq & Eq & _ & _). rewrite bool_decide_eq_false_2, (get_data_leaf _ _ _ Eq), res_bind_ret by done.
      pose proof (ok_capacity _ (Hnok q lq ltac:(set_solver) Eq)).
      destruct (Hstart (l1 ++ [p]) q l2 lq 0 E Eq) as (it & -> & Hst); [lia|cbn in Hf; lia|]. exists it. split; [done|].
      rewrite pairs_cons, (leaf_pairs_at _ _ _ Eq). exact Hst.
  - rewrite bool_decide_eq_false_2, (get_data_leaf _ _ _ El), res_bind_ret by done. by apply (Hstart l1 p l2); [..|lia|].
Qed.

(** What a step does. *)
Lemma stands_cons top s ls it kp rest :
  tree_ok top s ls → stands s ls it (kp :: rest) →
  li_is_end it = false ∧ li_key it s = Ret kp.1 ∧ li_payload it s = Ret kp.2 ∧
  ∃ it', advance it s = Ret it' ∧ stands s ls it' rest.
Proof.
  intros Hok [[_ ?]|(l1 & l2 & l & Els & Hp0 & El & Hi & He & Hb & Hbi & Hm & Hrest)]; [done|]. pose proof (tree_leaves_ok _ _ _ Hok) as Hlv.
  pose proof (proj2 Hlv (cur_leaf_ it) l ltac:(rewrite Els; set_solver) El) as Hn. destruct (node_ok_self _ Hn) as [Hv _].
  unfold suffix in Hrest. rewrite listing_cons, He in Hrest by lia. cbn [app] in Hrest. injection Hrest as -> ->.
  split; [by apply bool_decide_eq_false_2|]. unfold li_key, li_payload. rewrite (get_data_leaf _ _ _ El), !res_bind_ret.
  split; [by apply (rd_key_view _ _ _ _ _ _ Hv)|]. split; [by apply (rd_payload_view _ _ _ _ _ _ Hv)|].
  unfold advance. apply (advance_from_spec s ls Hlv _ l1 _ l2); [done|done|done|lia|lia|done|]. rewrite Els in Hok. by apply (leaves_fuel _ _ _ _ _ Hok).
Qed.
Lemma stands_nil s ls it : leaves_ok s ls → stands s ls it [] → li_is_end it = true.
Proof.
  intros [_ Hnok] [[Hp _]|(l1 & l2 & l & Els & Hp0 & El & Hi & He & _ & _ & _ & Hrest)]; [by apply bool_decide_eq_true_2|].
  unfold suffix in Hrest. rewrite listing_cons, He in Hrest by lia. done.
Qed.

Lemma visit_advance top s ls : tree_ok top s ls → ∀ rest fuel it, stands s ls it rest → (length rest < fuel)%nat →
  visit advance fuel it s = Ret rest.
Proof.
  intros Hok. induction rest as [|[k v] rest IH]; intros [|fuel] it Hst Hf; cbn [length] in Hf; [lia| |lia|]; cbn [visit].
  - by rewrite (stands_nil s ls it (tree_leaves_ok _ _ _ Hok) Hst).
  - destruct (stands_cons top s ls it (k, v) rest Hok Hst) as (-> & -> & -> & it' & -> & Hst'). rewrite !res_bind_ret.
    rewrite (IH fuel it'), res_bind_ret by (done || lia). done.
Qed.
End iter.
