(* ===== verification/AlexIterLookup.v ===== *)
(** * ALEX: lookups that return an iterator

    Where [lower_bound], [upper_bound], [find] and [find_last_no_greater_than]
    stand in the list of all pairs, and what [count] counts. *)
From S2P Require Import Prelude Ieee AlexBase AlexNode AlexOps AlexInv AlexSearch AlexLookup AlexEnds AlexBuild AlexCost AlexFanout AlexTree AlexTreeOps AlexRoute AlexTreeInv AlexTreeOk AlexTreeLookup AlexTreeUpdate AlexIter.

(** A search in the last word of a full bitmap reads behind it, unless a key
    stops it. *)
Definition stops (P : Z → Prop) (key : Z) (s : Alex) : Prop :=
  ∃ p (l : Leaf), route key s = Ret p ∧ heap s !! p = Some (DataNode l) ∧
    (data_capacity_ (data l) mod 64 ≠ 0 ∨ ∃ k, k ∈ (contents (data l)).*1 ∧ P k).

Section lookup.
Implicit Types (s : Alex) (n : AlexDataNode) (p key pos : Z) (it : LeafIterator) (ls : list Z) (rest : list (Z * Z)).

Lemma same_node_suffix n n' pos : same_node n n' → suffix n' pos = suffix n pos.
Proof. by intros [c ->]. Qed.

(** The iterator at a slot of the leaf of the key, after a search of the leaf. *)
Lemma leaf_search top s l1 p l2 (l : Leaf) (f : AlexDataNode → res (Z * AlexDataNode)) pos n' :
  tree_ok top s (l1 ++ p :: l2) → heap s !! p = Some (DataNode l) → f (data l) = Ret (pos, n') → same_node (data l) n' →
  let ls := l1 ++ p :: l2 in let s' := set_data p (with_data n' l) s in
  on_data p f s = Ret (pos, s') ∧ tree_ok top s' ls ∧ pairs (heap s') ls = pairs (heap s) ls ∧
  heap s' !! p = Some (DataNode (with_data n' l)) ∧ pairs (heap s') l1 = pairs (heap s) l1 ∧
  (0 ≤ pos → ∃ it, initialize p pos s' = Ret it ∧ stands s' ls it (suffix (data l) pos ++ pairs (heap s) l2)).
Proof.
  intros Hok El Ef Hsame ls s'. destruct (on_leaf top s l1 p l2 f pos n' l Hok El Ef Hsame) as (Eo & Hok' & Hpr & Hpr1). fold s' in Eo, Hok', Hpr, Hpr1.
  assert (heap s' !! p = Some (DataNode (with_data n' l))) as El' by (unfold s'; cbn; by rewrite lookup_insert_eq).
  split; [done|]. split; [done|]. split; [done|]. split; [done|]. split; [done|]. intros Hpos.
  destruct (initialize_spec top s' l1 p l2 _ pos Hok' El' Hpos) as (it & E & Hst). exists it. split; [done|].
  assert (pairs (heap s') l2 = pairs (heap s) l2) as <-; [|cbn [data with_data] in Hst; by rewrite (same_node_suffix _ _ _ Hsame) in Hst].
  apply pairs_ext. intros q Hq. unfold leaf_pairs, s'. cbn. rewrite lookup_insert_ne; [done|]. intros <-.
  pose proof (tree_nodup _ _ _ Hok) as (_ & _ & [Hn _]%NoDup_cons)%NoDup_app. done.
Qed.

Lemma search_leaf_spec top s ls key (search : Z → AlexDataNode → res (Z * AlexDataNode)) (Q : Z * Z → Prop) `{!∀ kp, Decision (Q kp)} :
  tree_ok top s ls → 0 < key ≤ top → (∀ kp, kp.1 < key → ¬ Q kp) → (∀ kp, key < kp.1 → Q kp) →
  (∀ p (l : Leaf), route key s = Ret p → heap s !! p = Some (DataNode l) → ∃ pos n', search key (data l) = Ret (pos, n') ∧
     same_node (data l) n' ∧ 0 ≤ pos ∧ suffix (data l) pos = filter Q (contents (data l))) →
  ∃ it s', search_leaf search key s = Ret (it, s') ∧ tree_ok top s' ls ∧ pairs (heap s') ls = pairs (heap s) ls ∧
    stands s' ls it (filter Q (pairs (heap s) ls)).
Proof.
  intros Hok Hk Hlt Hgt Hs. destruct (key_leaf top s ls key Hok Hk) as (l1 & p & l2 & l & -> & Eg & Hr & El & Hwf & Ep & H1 & H2 & _).
  destruct (Hs p l Hr El) as (pos & n' & Ef & Hsame & Hpos & Hsuf).
  destruct (leaf_search top s l1 p l2 l _ pos n' Hok El Ef Hsame) as (Eo & Hok' & Hpr & _ & _ & Hit). destruct (Hit Hpos) as (it & Ei & Hst).
  unfold search_leaf. rewrite Eg, res_bind_ret, Eo, res_bind_ret, Ei, res_bind_ret. eexists it, _. split; [done|]. split; [done|]. split; [done|].
  rewrite Ep, !filter_app, (filter_none _ (pairs _ l1)), (filter_all _ (pairs _ l2)), <- Hsuf; [done|..];
    (eapply Forall_impl; [eassumption|]); [apply Hgt|apply Hlt].
Qed.

Lemma route_leaf top s ls key p (l : Leaf) :
  tree_ok top s ls → 0 < key ≤ top → route key s = Ret p → heap s !! p = Some (DataNode l) → node_ok (data l).
Proof.
  intros Hok Hk Hr El. destruct (get_leaf_spec top s ls key Hok) as (q & _ & Hq & Hin); [lia..|].
  apply (tree_wf _ _ _ Hok p); [congruence|done].
Qed.

Lemma tree_lower_bound_spec top s ls key :
  tree_ok top s ls → 0 < key ≤ top → stops (λ k, key ≤ k) key s →
  ∃ it s', tree_lower_bound key s = Ret (it, s') ∧ tree_ok top s' ls ∧ pairs (heap s') ls = pairs (heap s) ls ∧
    stands s' ls it (filter (λ kp, key ≤ kp.1) (pairs (heap s) ls)).
Proof.
  intros Hok Hk (p & l & Hr & El & Hroom). apply (search_leaf_spec top); [done|done|intros; lia|intros; lia|].
  intros p' l' Hr' El'. assert (p' = p) as -> by congruence. assert (l' = l) as -> by congruence.
  pose proof (route_leaf _ _ _ _ _ _ Hok Hk Hr El) as Hn.
  destruct (find_lower_spec (data l) key Hn Hroom) as (pos & n' & E & Hsame & Hp & _ & _ & Hsuf). exists pos, n'. split; [done|]. split; [done|]. split; [lia|done].
Qed.

Lemma tree_upper_bound_spec top s ls key :
  tree_ok top s ls → 0 < key ≤ top → stops (λ k, key < k) key s →
  ∃ it s', tree_upper_bound key s = Ret (it, s') ∧ tree_ok top s' ls ∧ pairs (heap s') ls = pairs (heap s) ls ∧
    stands s' ls it (filter (λ kp, key < kp.1) (pairs (heap s) ls)).
Proof.
  intros Hok Hk (p & l & Hr & El & Hroom). apply (search_leaf_spec top); [done|done|intros; lia|intros; lia|].
  intros p' l' Hr' El'. assert (p' = p) as -> by congruence. assert (l' = l) as -> by congruence.
  pose proof (route_leaf _ _ _ _ _ _ Hok Hk Hr El) as Hn.
  destruct (find_upper_spec (data l) key Hn Hroom) as (pos & n' & E & Hsame & Hp & _ & _ & Hsuf). exists pos, n'. split; [done|]. split; [done|]. split; [lia|done].
Qed.

(** ** Finding a key *)
Lemma find_spec top s ls key :
  tree_ok top s ls → 0 < key ≤ top →
  ∃ it s', find key s = Ret (it, s') ∧ tree_ok top s' ls ∧ pairs (heap s') ls = pairs (heap s) ls ∧
    ((li_is_end it = true ∧ key ∉ (pairs (heap s) ls).*1) ∨
     ∃ l1 v rest, pairs (heap s) ls = l1 ++ (key, v) :: rest ∧ key ∉ rest.*1 ∧ stands s' ls it ((key, v) :: rest)).
Proof.
  intros Hok Hk. pose proof (tree_top _ _ _ Hok) as Htop.
  destruct (key_leaf top s ls key Hok Hk) as (l1 & p & l2 & l & -> & Eg & Hr & El & Hwf & Ep & H1 & H2 & _). rewrite list.Forall_forall in H1, H2.
  destruct (find_key_spec (data l) key (proj1 Hwf)) as (pos & n' & Ef & Hsame & Hpos); [lia|].
  destruct (leaf_search top s l1 p l2 l _ pos n' Hok El Ef Hsame) as (Eo & Hok' & Hpr & _ & _ & Hit).
  unfold find, tree_find. rewrite Eg, res_bind_ret, Eo, !res_bind_ret. destruct Hpos as [[-> Hno]|(Hb & He & Hkey & Hsuf)].
  - rewrite bool_decide_eq_true_2 by done. eexists it_end, _. split; [done|]. split; [done|]. split; [done|]. left. split; [done|].
    rewrite Ep, !fmap_app, !elem_of_app. intros [(kp & -> & Hi%H1)%list_elem_of_fmap|[?|(kp & -> & Hi%H2)%list_elem_of_fmap]]; [lia|done|lia].
  - rewrite bool_decide_eq_false_2 by lia. destruct (Hit ltac:(lia)) as (it & -> & Hst). rewrite res_bind_ret.
    eexists it, _. split; [done|]. split; [done|]. split; [done|]. right.
    assert (suffix (data l) pos = (key, pay_at (slots_ (data l)) pos) :: suffix (data l) (pos + 1)) as E1
      by (unfold suffix; rewrite (listing_cons _ _ _ pos), He, Hkey by lia; done).
    rewrite E1 in Hst. exists (pairs (heap s) l1 ++ between (data l) 0 pos), (pay_at (slots_ (data l)) pos), (suffix (data l) (pos + 1) ++ pairs (heap s) l2).
    split; [|split; [|exact Hst]].
    + rewrite Ep, <- !app_assoc. f_equal. assert (contents (data l) = between (data l) 0 pos ++ suffix (data l) pos) as -> by (apply listing_app; lia).
      rewrite E1. by rewrite <- app_assoc.
    + rewrite fmap_app, Hsuf, elem_of_app.
      intros [(kp & -> & [? _]%list_elem_of_filter)%list_elem_of_fmap|(kp & -> & Hi%H2)%list_elem_of_fmap]; lia.
Qed.

(** ** Counting *)
Lemma count_loop_spec top s ls key : tree_ok top s ls → ∀ eqs rest fuel it c, stands s ls it (eqs ++ rest) →
  Forall (λ kp, kp.1 = key) eqs → Forall (λ kp, kp.1 ≠ key) rest → (length eqs < fuel)%nat →
  count_loop fuel key it c s = Ret (c + Z.of_nat (length eqs)).
Proof.
  intros Hok. induction eqs as [|kp eqs IH]; intros rest [|fuel] it c Hst He Hne Hf; cbn [length] in Hf; [lia| |lia|]; cbn [count_loop].
  - rewrite Z.add_0_r. destruct rest as [|kp rest].
    + by rewrite (stands_nil s ls it (tree_leaves_ok _ _ _ Hok) Hst).
    + destruct (stands_cons top s ls it kp rest Hok Hst) as (-> & -> & _). rewrite res_bind_ret. apply Forall_cons in Hne as [Hne _].
      by rewrite bool_decide_eq_false_2.
  - destruct (stands_cons top s ls it kp (eqs ++ rest) Hok Hst) as (-> & -> & _ & it' & -> & Hst'). rewrite !res_bind_ret.
    apply Forall_cons in He as [He Hes]. rewrite bool_decide_eq_true_2 by done.
    rewrite (IH rest fuel it') by (done || lia). f_equal. cbn [length]. lia.
Qed.

(** In a sorted list the pairs of a key come first among those that are no less. *)
Lemma ordered_filter (l : list (Z * Z)) key : StronglySorted Z.le l.*1 →
  filter (λ kp, key ≤ kp.1) l = filter (λ kp, kp.1 = key) l ++ filter (λ kp, key < kp.1) l.
Proof.
  induction l as [|kp l IH]; intros Hs; [done|]. cbn in Hs. apply StronglySorted_inv in Hs as [Hs Hf]. rewrite !filter_cons.
  rewrite list.Forall_forall in Hf. assert (∀ x, x ∈ l → kp.1 ≤ x.1) as Hle by (intros x Hx; apply Hf, list_elem_of_fmap; by exists x).
  repeat case_decide; try lia; [by rewrite IH| |by apply IH].
  rewrite (filter_none (λ x, x.1 = key) l), (filter_all (λ x, key ≤ x.1) l), (filter_all (λ x, key < x.1) l); [done|..];
    apply list.Forall_forall; intros x Hx%Hle; lia.
Qed.

Lemma count_spec top s ls key fuel :
  tree_ok top s ls → 0 < key ≤ top → stops (λ k, key ≤ k) key s →
  (length (filter (λ kp, kp.1 = key) (pairs (heap s) ls)) < fuel)%nat →
  ∃ s', count fuel key s = Ret (Z.of_nat (length (filter (λ kp, kp.1 = key) (pairs (heap s) ls))), s') ∧ tree_ok top s' ls ∧
    pairs (heap s') ls = pairs (heap s) ls.
Proof.
  intros Hok Hk Hst Hf. destruct (tree_lower_bound_spec top s ls key Hok Hk Hst) as (it & s' & E & Hok' & Hpr & Hit).
  exists s'. unfold count. rewrite E, res_bind_ret.
  destruct (key_leaf top s ls key Hok Hk) as (l1 & p & l2 & l & -> & _ & _ & _ & Hwf & Ep & H1 & H2 & _).
  assert (filter (λ kp, key ≤ kp.1) (pairs (heap s) (l1 ++ p :: l2)) =
    filter (λ kp, kp.1 = key) (pairs (heap s) (l1 ++ p :: l2)) ++ filter (λ kp, key < kp.1) (contents (data l)) ++ pairs (heap s) l2) as Erest.
  { rewrite Ep, !filter_app, (filter_none _ (pairs _ l1)), (filter_all _ (pairs _ l2)), (filter_none (λ kp, kp.1 = key) (pairs _ l1)),
      (filter_none (λ kp, kp.1 = key) (pairs _ l2)), app_nil_r; [|(eapply Forall_impl; [eassumption|]; cbn; lia)..].
    cbn [app]. rewrite ordered_filter by apply (ok_keys _ (proj1 Hwf)). by rewrite <- app_assoc. }
  rewrite Erest in Hit. rewrite (count_loop_spec top s' _ key Hok' _ _ fuel it 0 Hit); [|..|done].
  - by rewrite res_bind_ret, Z.add_0_l.
  - apply list.Forall_forall. by intros kp [? _]%list_elem_of_filter.
  - apply Forall_app. split; [|eapply Forall_impl; [exact H2|]; cbn; lia].
    apply list.Forall_forall. intros kp [? _]%list_elem_of_filter. lia.
Qed.

(** ** The last pair that is no greater *)
Lemma last_before_it_spec top s ls : tree_ok top s ls → ∀ fuel l1 p l2, ls = l1 ++ p :: l2 → (length l1 < fuel)%nat →
  ∃ it, last_before_it fuel p s = Ret it ∧
    (pairs (heap s) l1 = [] → stands s ls it (pairs (heap s) ls)) ∧
    (pairs (heap s) l1 ≠ [] → ∃ init kp, pairs (heap s) l1 = init ++ [kp] ∧ stands s ls it (kp :: leaf_pairs (heap s) p ++ pairs (heap s) l2)).
Proof.
  intros Hok. pose proof (tree_leaves_ok _ _ _ Hok) as [Hch Hnok]. induction fuel as [|fuel IH]; intros l1 p l2 Els Hf; [lia|]. cbn [last_before_it].
  rewrite Els in Hch. destruct (chain_at _ _ _ _ _ Hch) as (_ & l & El & Hprev & _). rewrite (get_data_leaf _ _ _ El), res_bind_ret, Hprev.
  destruct l1 as [|q l1 _] using rev_ind.
  - rewrite bool_decide_eq_true_2 by done. rewrite Els in Hok. destruct (initialize_spec top s [] p l2 l 0 Hok El) as (it & -> & Hst); [lia|].
    exists it. split; [done|]. split; [|done]. intros _. rewrite Els. cbn [app]. rewrite pairs_cons, (leaf_pairs_at _ _ _ El). exact Hst.
  - rewrite last_snoc. cbn [default from_option id]. assert (ls = l1 ++ q :: p :: l2) as Els' by (by rewrite Els, <- app_assoc).
    rewrite <- app_assoc in Hch. destruct (chain_at _ _ _ _ _ Hch) as (Hq & lq & Eq & _). rewrite bool_decide_eq_false_2, (get_data_leaf _ _ _ Eq), res_bind_ret by done.
    pose proof (Hnok q lq ltac:(rewrite Els'; set_solver) Eq) as Hnq. rewrite (ok_count _ Hnq), pairs_app, pairs_cons, (leaf_pairs_at _ _ _ Eq).
    change (pairs (heap s) []) with (@nil (Z * Z)). rewrite app_nil_r. case_bool_decide as Hpos.
    + assert (contents (data lq) ≠ []) as Hne by (intros E0; rewrite E0 in Hpos; cbn in Hpos; lia).
      destruct (last_pos_at _ Hnq Hne) as (i & init & kp & -> & Hi & Ec & Es). rewrite res_bind_ret. pose proof Hok as Hok'. rewrite Els' in Hok'.
      destruct (initialize_spec top s l1 q (p :: l2) lq i Hok' Eq) as (it & -> & Hst); [lia|]. exists it. split; [done|]. split; [by intros [_ ?]%app_nil|].
      intros _. exists (pairs (heap s) l1 ++ init), kp. split; [by rewrite Ec, app_assoc|]. rewrite Es, pairs_cons in Hst. by rewrite Els'.
    + assert (contents (data lq) = []) as E0 by (destruct (contents (data lq)); [done|cbn in Hpos; lia]).
      destruct (IH l1 q (p :: l2) Els') as (it & E & H1 & H2); [rewrite length_app in Hf; cbn in Hf; lia|]. exists it. split; [done|].
      rewrite E0, app_nil_r. split; [done|]. intros Hne. destruct (H2 Hne) as (init & kp & Ei & Hst). exists init, kp. split; [done|].
      rewrite (leaf_pairs_at _ _ _ Eq), E0, pairs_cons in Hst. exact Hst.
Qed.

Lemma find_last_spec top s ls key :
  tree_ok top s ls → 0 < key ≤ top →
  let below := floor_of (pairs (heap s) ls) key in
  ∃ it s', find_last_no_greater_than key s = Ret (it, s') ∧ tree_ok top s' ls ∧ pairs (heap s') ls = pairs (heap s) ls ∧
    (below = [] → stands s' ls it (pairs (heap s) ls)) ∧
    (below ≠ [] → ∃ init kp, below = init ++ [kp] ∧ stands s' ls it (kp :: filter (λ kp, key < kp.1) (pairs (heap s) ls))).
Proof.
  intros Hok Hk below. pose proof (tree_top _ _ _ Hok) as Htop.
  destruct (key_leaf top s ls key Hok Hk) as (l1 & p & l2 & l & -> & Eg & Hr & El & Hwf & Ep & H1 & H2 & _).
  destruct (upper_bound_at (data l) key (proj1 Hwf)) as (pos & n' & Ef & Hsame & Hb & Hpre & Hsuf & He).
  destruct (leaf_search top s l1 p l2 l _ pos n' Hok El Ef Hsame) as (Eo & Hok' & Hpr & El' & Hpr1 & _).
  assert (below = pairs (heap s) l1 ++ between (data l) 0 pos) as Ebelow.
  { unfold below, floor_of. rewrite Ep, !filter_app, (filter_all _ (pairs _ l1)), (filter_none _ (pairs _ l2)), app_nil_r, Hpre; [done|..];
      (eapply Forall_impl; [eassumption|]); cbn; lia. }
  assert (filter (λ kp, key < kp.1) (pairs (heap s) (l1 ++ p :: l2)) = suffix (data l) pos ++ pairs (heap s) l2) as Eabove.
  { rewrite Ep, !filter_app, (filter_none _ (pairs _ l1)), (filter_all _ (pairs _ l2)), Hsuf; [done|..];
      (eapply Forall_impl; [eassumption|]); cbn; lia. }
  set (s' := set_data p (with_data n' l) s) in *. unfold find_last_no_greater_than. rewrite Eg, res_bind_ret, Eo, res_bind_ret.
  destruct (decide (pos = 0)) as [->|Hpos].
  - rewrite bool_decide_eq_false_2 by lia. unfold between in Ebelow. rewrite listing_nil, app_nil_r in Ebelow by lia.
    destruct (last_before_it_spec top s' _ Hok' (depth_fuel s') l1 p l2 eq_refl) as (it & -> & Hz & Hn); [by apply (leaves_fuel _ _ _ _ _ Hok')|].
    rewrite res_bind_ret. exists it, s'. split; [done|]. split; [done|]. split; [done|]. rewrite <- Hpr, Ebelow, <- Hpr1, Hpr, Eabove.
    split; [by rewrite <- Hpr|]. intros Hne. destruct (Hn Hne) as (init & kp & Ei & Hst). exists init, kp. split; [done|].
    assert (pairs (heap s') (l1 ++ p :: l2) = pairs (heap s') l1 ++ leaf_pairs (heap s') p ++ pairs (heap s') l2) as E by (by rewrite pairs_app, pairs_cons).
    rewrite Hpr, Ep, Hpr1 in E. apply app_inv_head in E. rewrite <- E in Hst. exact Hst.
  - rewrite bool_decide_eq_true_2 by lia.
    destruct (leaf_search top s l1 p l2 l (λ n, Ret (pos - 1, n')) (pos - 1) n' Hok El eq_refl Hsame) as (_ & _ & _ & _ & _ & Hit).
    fold s' in Hit. destruct (Hit ltac:(lia)) as (it & -> & Hst). rewrite res_bind_ret. exists it, s'. split; [done|]. split; [done|]. split; [done|].
    specialize (He ltac:(lia) ltac:(lia)). set (kp := (key_at (slots_ (data l)) (pos - 1), pay_at (slots_ (data l)) (pos - 1))).
    assert (between (data l) 0 pos = between (data l) 0 (pos - 1) ++ [kp]) as Eb.
    { unfold between. rewrite (listing_app _ _ _ 0 (pos - 1) pos) by lia. f_equal.
      pose proof (listing_one (key_at (slots_ (data l))) (pay_at (slots_ (data l))) (ex (bitmap_ (slots_ (data l)))) (pos - 1)) as E1.
      replace (pos - 1 + 1) with pos in E1 by lia. by rewrite E1, He. }
    assert (suffix (data l) (pos - 1) = kp :: suffix (data l) pos) as Es.
    { unfold suffix. rewrite (listing_cons _ _ _ (pos - 1)), He by lia. by replace (pos - 1 + 1) with pos by lia. }
    rewrite Ebelow, Eb, Eabove. split; [by intros [_ [_ ?]%app_nil]%app_nil|]. intros _. exists (pairs (heap s) l1 ++ between (data l) 0 (pos - 1)), kp.
    split; [by rewrite app_assoc|]. rewrite Es in Hst. exact Hst.
Qed.
End lookup.
