(* ===== verification/AlexIterRev.v ===== *)
(** * ALEX: iterating backwards

    [ReverseIterator] looks for the highest bit of a word and goes on with the
    words before it; from [rbegin] it visits the pairs in reverse order. *)
From S2P Require Import Prelude Ieee AlexBase AlexNode AlexOps AlexInv AlexSearch AlexBuild AlexCost AlexFanout AlexTree AlexTreeOps AlexRoute AlexTreeInv AlexTreeOk AlexTreeLookup AlexIter.

(** [word] holds the bits of word [idx] before position [pos]. *)
Definition masked_to (bm : list Z) (idx pos word : Z) : Prop :=
  0 ≤ word < 2 ^ 64 ∧ ∀ b, 0 ≤ b < 64 → Z.testbit word b = bool_decide (idx * 64 + b < pos) && ex bm (idx * 64 + b).

Section back.
Implicit Types (t : slots) (bm : list Z) (cap idx bidx pos word i j : Z).

Lemma masked_to_word cap t idx pos :
  shape cap t → 0 ≤ idx < words_for cap → cap ≤ pos ∨ (idx + 1) * 64 ≤ pos → masked_to (bitmap_ t) idx pos (bitmap_ t !!! Z.to_nat idx).
Proof.
  intros Hs Hi Hp. split; [by eapply bitmap_rd|]. intros b Hb. rewrite <- ex_word by done. case_bool_decide; [done|].
  destruct Hp; [|lia]. apply (shape_tail _ _ Hs); [lia|]. rewrite Z.div_add_l, (Z.div_small b) by lia. unfold words_for in *. lia.
Qed.

Lemma masked_to_zero bm idx pos i : masked_to bm idx pos 0 → i < pos → idx * 64 ≤ i < (idx + 1) * 64 → ex bm i = false.
Proof.
  intros [_ H] Hp Hi. specialize (H (i - idx * 64) ltac:(lia)). rewrite Z.testbit_0_l in H.
  replace (idx * 64 + (i - idx * 64)) with i in H by lia. by rewrite bool_decide_eq_true_2 in H by lia.
Qed.

(** The highest bit, and the word without it. *)
Lemma masked_to_last bm idx pos word : masked_to bm idx pos word → word ≠ 0 →
  let b := 63 - lzcnt word in let j := idx * 64 + b in
  0 ≤ b < 64 ∧ j < pos ∧ ex bm j = true ∧ (∀ i, j < i < pos → i < (idx + 1) * 64 → ex bm i = false) ∧
  masked_to bm idx j (Z.land word (not64 (Z.shiftl 1 b))).
Proof.
  intros [Hw Hb] Hne b j. destruct (lzcnt_spec word (word_zero_bits word Hw Hne)) as (Hl & Htb & Hhi). fold b in Htb, Hhi.
  assert (0 ≤ b < 64) as Hb64 by (unfold b; lia). rewrite Hb in Htb by done. fold j in Htb. apply andb_true_iff in Htb as [Hj Hej].
  apply bool_decide_eq_true in Hj. assert (∀ i, j < i < pos → i < (idx + 1) * 64 → ex bm i = false) as Hgap.
  { intros i Hi Hw2. specialize (Hhi (i - idx * 64) ltac:(unfold j in *; lia)). rewrite Hb in Hhi by (unfold j in *; lia).
    replace (idx * 64 + (i - idx * 64)) with i in Hhi by lia. by rewrite bool_decide_eq_true_2 in Hhi by lia. }
  do 4 (split; [done|]). split; [by apply land_range|]. intros i Hi. rewrite Z.land_spec, not64_spec, Z.shiftl_1_l, Z.pow2_bits_eqb, Hb by lia.
  destruct (ex bm (idx * 64 + i)) eqn:Ei; [|by rewrite !andb_false_r]. rewrite !andb_true_r. destruct (Z.eqb_spec b i) as [<-|Hbi]; cbn [negb].
  - fold j. rewrite andb_false_r. symmetry. apply bool_decide_eq_false_2. lia.
  - rewrite andb_true_r. apply bool_decide_ext. split; [|unfold j in *; lia]. intros Hip. destruct (decide (i < b)); [unfold j; lia|].
    rewrite Hgap in Ei by (unfold j in *; lia). done.
Qed.

Lemma scan_back_spec cap t : shape cap t → ∀ fuel bidx pos word, 0 ≤ bidx < words_for cap → masked_to (bitmap_ t) bidx pos word →
  bidx * 64 ≤ pos ≤ (bidx + 1) * 64 → bidx < Z.of_nat fuel →
  ∃ bidx' word', scan_back fuel (bitmap_ t) bidx word = Ret (bidx', word') ∧
    ((word' = 0 ∧ ∀ i, 0 ≤ i < pos → ex (bitmap_ t) i = false) ∨
     (word' ≠ 0 ∧ ∃ pos', pos' ≤ pos ∧ (∀ i, pos' ≤ i < pos → ex (bitmap_ t) i = false) ∧ 0 ≤ bidx' < words_for cap ∧
        pos' ≤ (bidx' + 1) * 64 ∧ masked_to (bitmap_ t) bidx' pos' word')).
Proof.
  intros Hs. induction fuel as [|fuel IH]; intros bidx pos word Hb Hm Hp Hf; [lia|]. cbn [scan_back]. case_bool_decide as Hw.
  - subst word. assert (∀ i, bidx * 64 ≤ i < pos → ex (bitmap_ t) i = false) as Hz by (intros i Hi; apply (masked_to_zero _ bidx pos); [done|lia|lia]).
    case_bool_decide as H0.
    + exists (bidx - 1), 0. split; [done|]. left. split; [done|]. intros i Hi. apply Hz. lia.
    + destruct (bitmap_rd cap t (bidx - 1) Hs) as [-> _]; [lia|]. rewrite res_bind_ret.
      destruct (IH (bidx - 1) (bidx * 64) (bitmap_ t !!! Z.to_nat (bidx - 1))) as (bidx' & word' & -> & H);
        [lia|apply (masked_to_word cap); [done|lia|right; lia]|lia|lia|].
      exists bidx', word'. split; [done|]. destruct H as [[-> H]|(Hne & pos' & Hpp & H & Hrest)]; [left|right]; (split; [done|]).
      * intros i Hi. destruct (decide (i < bidx * 64)); [apply H; lia|apply Hz; lia].
      * exists pos'. split; [lia|]. split; [|done]. intros i Hi. destruct (decide (i < bidx * 64)); [apply H; lia|apply Hz; lia].
  - exists bidx, word. split; [done|]. right. split; [done|]. exists pos. split; [done|]. split; [lia|]. split; [lia|]. split; [lia|done].
Qed.
End back.

(** ** Where a reverse iterator stands *)
Section reverse.
Implicit Types (s : Alex) (p idx bidx word key pos : Z) (it : LeafIterator) (ls : list Z) (rest : list (Z * Z)).

Definition stands_back s ls it rest : Prop :=
  (cur_leaf_ it = 0 ∧ rest = []) ∨
  ∃ l1 l2 (l : Leaf), ls = l1 ++ cur_leaf_ it :: l2 ∧ cur_leaf_ it ≠ 0 ∧ heap s !! cur_leaf_ it = Some (DataNode l) ∧
    let n := data l in
    0 ≤ li_idx_ it < data_capacity_ n ∧ ex (bitmap_ (slots_ n)) (li_idx_ it) = true ∧
    0 ≤ li_bitmap_idx_ it < words_for (data_capacity_ n) ∧
    li_bitmap_idx_ it * 64 ≤ li_idx_ it < (li_bitmap_idx_ it + 1) * 64 ∧
    masked_to (bitmap_ (slots_ n)) (li_bitmap_idx_ it) (li_idx_ it) (li_bitmap_data_ it) ∧
    rest = reverse (pairs (heap s) l1 ++ between n 0 (li_idx_ it + 1)).

Lemma retreat_from_spec s ls : leaves_ok s ls → ∀ fuel l1 p l2 (l : Leaf) idx bidx pos word,
  ls = l1 ++ p :: l2 → heap s !! p = Some (DataNode l) → 0 ≤ bidx < words_for (data_capacity_ (data l)) →
  pos ≤ data_capacity_ (data l) → bidx * 64 ≤ pos ≤ (bidx + 1) * 64 → masked_to (bitmap_ (slots_ (data l))) bidx pos word → (length l1 < fuel)%nat →
  ∃ it, retreat_from fuel p idx bidx word s = Ret it ∧ stands_back s ls it (reverse (pairs (heap s) l1 ++ between (data l) 0 pos)).
Proof.
  intros [Hch Hnok]. induction fuel as [|fuel IH]; intros l1 p l2 l idx bidx pos word Els El Hb Hpc Hp Hm Hf; [lia|].
  cbn [retreat_from]. rewrite (get_data_leaf _ _ _ El), res_bind_ret. rewrite Els in Hch.
  destruct (chain_at _ _ _ _ _ Hch) as (Hp0' & l' & El' & Hprev & _). assert (l' = l) as -> by congruence.
  pose proof (Hnok p l ltac:(rewrite Els; set_solver) El) as Hn. pose proof (ok_shape _ Hn) as Hs. set (n := data l) in *.
  unfold scan_fuel. rewrite (ok_bitmap_size _ Hn).
  destruct (scan_back_spec _ (slots_ n) Hs (S (Z.to_nat (words_for (data_capacity_ n)))) bidx pos word Hb Hm) as (bidx' & word' & -> & H);
    [lia|lia|]. rewrite res_bind_ret. destruct H as [[-> Hgap]|(Hne & pos' & Hpp & Hgap & Hb' & Hp' & Hm')].
  - rewrite bool_decide_eq_true_2 by done.
    assert (between n 0 pos = []) as -> by (by apply listing_gaps). rewrite app_nil_r.
    destruct l1 as [|q l1 _] using rev_ind.
    + cbn in Hprev. rewrite Hprev, bool_decide_eq_true_2 by done. eexists. split; [done|]. by left.
    + rewrite last_snoc in Hprev. cbn in Hprev. rewrite Hprev. rewrite <- app_assoc in Hch.
      assert (ls = l1 ++ q :: p :: l2) as Els' by (by rewrite Els, <- app_assoc).
      destruct (chain_at _ _ _ _ _ Hch) as (Hq & lq & Eq & _ & _). rewrite bool_decide_eq_false_2 by done.
      rewrite (get_data_leaf _ _ _ Eq), res_bind_ret. pose proof (Hnok q lq ltac:(rewrite Els'; set_solver) Eq) as Hnq.
      pose proof (ok_capacity _ Hnq) as Hcap. rewrite (ok_bitmap_size _ Hnq). set (w := words_for (data_capacity_ (data lq))).
      assert (0 ≤ w - 1 < w ∧ (w - 1) * 64 ≤ data_capacity_ (data lq) ≤ (w - 1 + 1) * 64) as [Hw Hwc]
        by (unfold w, words_for; Z.to_euclidean_division_equations; lia).
      destruct (bitmap_rd _ _ (w - 1) (ok_shape _ Hnq) Hw) as [-> _]. rewrite res_bind_ret.
      destruct (IH l1 q (p :: l2) lq (data_capacity_ (data lq) - 1) (w - 1) (data_capacity_ (data lq)) (bitmap_ (slots_ (data lq)) !!! Z.to_nat (w - 1)) Els' Eq Hw)
        as (it & E & Hst); [done|done|apply (masked_to_word (data_capacity_ (data lq))); [apply Hnq|done|by left]|rewrite length_app in Hf; cbn in Hf; lia|].
      exists it. split; [done|]. rewrite pairs_app, pairs_cons, (leaf_pairs_at _ _ _ Eq). change (pairs (heap s) []) with (@nil (Z * Z)). rewrite app_nil_r. exact Hst.
  - rewrite bool_decide_eq_false_2 by done.
    destruct (masked_to_last _ bidx' pos' word' Hm' Hne) as (Hj & Hjp & Hej & Hg2 & Hm2). set (b := 63 - lzcnt word') in *.
    rewrite Z.shiftl_mul_pow2 by lia. change (2 ^ 6) with 64. set (j := bidx' * 64 + b) in *.
    eexists. split; [done|]. right. exists l1, l2, l. cbn [cur_leaf_ li_idx_ li_bitmap_idx_ li_bitmap_data_]. fold n. cbv zeta.
    do 3 (split; [done|]). split; [unfold j in *; lia|]. split; [done|]. split; [lia|]. split; [unfold j; lia|]. split; [done|]. f_equal. f_equal.
    unfold between. rewrite (listing_app _ _ _ 0 (j + 1) pos) by (unfold j in *; lia). rewrite (listing_gaps _ _ _ (j + 1) pos); [by rewrite app_nil_r|].
    intros i Hi. destruct (decide (i < pos')); [apply Hg2; lia|apply Hgap; lia].
Qed.

Lemma initialize_back_spec top s l1 p l2 (l : Leaf) idx :
  tree_ok top s (l1 ++ p :: l2) → heap s !! p = Some (DataNode l) → 0 ≤ idx < data_capacity_ (data l) →
  ∃ it, initialize_back p idx s = Ret it ∧ stands_back s (l1 ++ p :: l2) it (reverse (pairs (heap s) l1 ++ between (data l) 0 (idx + 1))).
Proof.
  intros Hok El Hidx. pose proof (tree_leaves_ok _ _ _ Hok) as Hlv. pose proof Hlv as [Hch Hnok].
  destruct (chain_at _ _ _ _ _ Hch) as (Hp0 & _). destruct (leaves_fuel _ _ _ _ _ Hok) as [Hf _].
  pose proof (Hnok p l ltac:(set_solver) El) as Hn. unfold initialize_back, start_slot.
  rewrite bool_decide_eq_false_2, (get_data_leaf _ _ _ El), !res_bind_ret by done. rewrite bool_decide_eq_false_2 by lia.
  rewrite bool_decide_eq_false_2, (get_data_leaf _ _ _ El), res_bind_ret by done.
  pose proof (div64_lt idx _ Hidx) as Hq. rewrite word_of_div, bit_of_mod. destruct (bitmap_rd _ _ (idx / 64) (ok_shape _ Hn) Hq) as [-> Hw].
  rewrite res_bind_ret. pose proof (Z.mod_pos_bound idx 64 ltac:(lia)) as Hmod. pose proof (Z.div_mod idx 64 ltac:(lia)) as Hdm.
  apply (retreat_from_spec s _ Hlv _ l1 p l2); [done|done|done|lia| | |done]; [Z.to_euclidean_division_equations; lia|].
  split; [by apply land_range|]. intros b Hb. unfold low_mask.
  rewrite Z.land_spec, Z.lor_spec, mask_spec, Z.shiftl_1_l, Z.pow2_bits_eqb, ex_word, andb_comm by lia. f_equal.
  destruct (Z.eqb_spec (idx mod 64) b); cbn [orb]; [symmetry; apply bool_decide_eq_true_2; lia|apply bool_decide_ext; lia].
Qed.

Lemma stands_back_cons top s ls it kp rest :
  tree_ok top s ls → stands_back s ls it (kp :: rest) →
  li_is_end it = false ∧ li_key it s = Ret kp.1 ∧ li_payload it s = Ret kp.2 ∧ ∃ it', retreat it s = Ret it' ∧ stands_back s ls it' rest.
Proof.
  intros Hok [[_ ?]|(l1 & l2 & l & Els & Hp0 & El & Hi & He & Hb & Hbi & Hm & Hrest)]; [done|]. pose proof (tree_leaves_ok _ _ _ Hok) as Hlv.
  pose proof (proj2 Hlv (cur_leaf_ it) l ltac:(rewrite Els; set_solver) El) as Hn. destruct (node_ok_self _ Hn) as [Hv _].
  unfold between in Hrest. rewrite (listing_app _ _ _ 0 (li_idx_ it)), listing_one, He, app_assoc, reverse_snoc in Hrest by lia. injection Hrest as -> ->.
  split; [by apply bool_decide_eq_false_2|]. unfold li_key, li_payload. rewrite (get_data_leaf _ _ _ El), !res_bind_ret.
  split; [by apply (rd_key_view _ _ _ _ _ _ Hv)|]. split; [by apply (rd_payload_view _ _ _ _ _ _ Hv)|].
  unfold retreat. apply (retreat_from_spec s ls Hlv _ l1 _ l2); [done|done|done|lia|lia|done|]. rewrite Els in Hok. by apply (leaves_fuel _ _ _ _ _ Hok).
Qed.
Lemma stands_back_nil s ls it : leaves_ok s ls → stands_back s ls it [] → li_is_end it = true.
Proof.
  intros [_ Hnok] [[Hp _]|(l1 & l2 & l & Els & Hp0 & El & Hi & He & _ & _ & _ & Hrest)]; [by apply bool_decide_eq_true_2|].
  unfold between in Hrest. rewrite (listing_app _ _ _ 0 (li_idx_ it)), listing_one, He, app_assoc, reverse_snoc in Hrest by lia. done.
Qed.

Lemma visit_retreat top s ls : tree_ok top s ls → ∀ rest fuel it, stands_back s ls it rest → (length rest < fuel)%nat →
  visit retreat fuel it s = Ret rest.
Proof.
  intros Hok. induction rest as [|[k v] rest IH]; intros [|fuel] it Hst Hf; cbn [length] in Hf; [lia| |lia|]; cbn [visit].
  - by rewrite (stands_back_nil s ls it (tree_leaves_ok _ _ _ Hok) Hst).
  - destruct (stands_back_cons top s ls it (k, v) rest Hok Hst) as (-> & -> & -> & it' & -> & Hst'). rewrite !res_bind_ret.
    rewrite (IH fuel it'), res_bind_ret by (done || lia). done.
Qed.
End reverse.
