(* ===== verification/AlexLink.v ===== *)
(** * ALEX: the list of leaves

    A stretch of the doubly linked list between two addresses, the pointers
    that [link_data_nodes] sets, and the list in which two leaves stand for one. *)
From S2P Require Import Prelude Ieee AlexBase AlexNode AlexOps AlexInv AlexCost AlexFanout AlexTree AlexTreeInv AlexTreeOk.

(** ** Stretches *)
Fixpoint seg (h : heap_t) (prev : Z) (ls : list Z) (next : Z) : Prop :=
  match ls with
  | [] => True
  | p :: rest => p ≠ 0 ∧ (∃ l, h !! p = Some (DataNode l) ∧ prev_leaf_ l = prev ∧ next_leaf_ l = default next (head rest)) ∧
                 seg h p rest next
  end.

Definition leaf_alter (f : Leaf → Leaf) (p : Z) (h : heap_t) : heap_t :=
  alter (λ n, match n with DataNode l => DataNode (f l) | _ => n end) p h.

(** Leaves and models stay what they are, up to the links. *)
Definition same_but_links (n n' : AlexTreeNode) : Prop :=
  match n, n' with
  | DataNode l, DataNode l' =>
      data l = data l' ∧ leaf_level_ l = leaf_level_ l' ∧ leaf_duplication_factor_ l = leaf_duplication_factor_ l'
  | ModelN m, ModelN m' => m = m'
  | _, _ => False
  end.

Section seg.
Implicit Types (h : heap_t) (s : Alex) (p q prev next : Z) (ls : list Z) (f : Leaf → Leaf).

Lemma chain_seg h prev ls : chain h prev ls ↔ seg h prev ls 0.
Proof. revert prev. induction ls as [|p ls IH]; intros prev; cbn [chain seg]; [done|]. by rewrite IH. Qed.

Lemma seg_app h ls1 ls2 : ∀ prev next,
  seg h prev (ls1 ++ ls2) next ↔ seg h prev ls1 (default next (head ls2)) ∧ seg h (default prev (last ls1)) ls2 next.
Proof.
  induction ls1 as [|p ls1 IH]; intros prev next; [cbn; tauto|]. cbn [app seg]. rewrite IH.
  assert (default prev (last (p :: ls1)) = default p (last ls1)) as -> by (rewrite last_cons; by destruct (last ls1)).
  assert (head (ls1 ++ ls2) = match ls1 with [] => head ls2 | q :: _ => Some q end) as -> by (by destruct ls1).
  destruct ls1 as [|q ls1]; cbn [head]; [destruct (head ls2)|]; tauto.
Qed.

Lemma seg_frame h h' ls : ∀ prev next, (∀ p, p ∈ ls → h' !! p = h !! p) → seg h prev ls next → seg h' prev ls next.
Proof.
  induction ls as [|p ls IH]; intros prev next Hf; [done|]. cbn [seg]. intros (Hp & Hl & Hs). split; [done|].
  rewrite Hf by set_solver. split; [done|]. apply IH; [|done]. intros q Hq. apply Hf. set_solver.
Qed.

Lemma leaf_chain_frame h h' ls : ∀ prev,
  (∀ p l, p ∈ ls → h !! p = Some (DataNode l) → ∃ l', h' !! p = Some (DataNode l') ∧ prev_leaf_ l' = prev_leaf_ l ∧
     next_leaf_ l' = next_leaf_ l) → chain h prev ls → chain h' prev ls.
Proof.
  induction ls as [|p ls IH]; intros prev Hf; [done|]. cbn [chain]. intros (Hp & (l & E & H1 & H2) & Hc). split; [done|]. split.
  - destruct (Hf p l) as (l' & E' & E1 & E2); [set_solver|done|]. exists l'. by rewrite E1, E2.
  - apply IH; [|done]. intros q lq Hq. apply Hf. set_solver.
Qed.

Lemma leaf_alter_eq f p h l : h !! p = Some (DataNode l) → leaf_alter f p h !! p = Some (DataNode (f l)).
Proof. intros E. unfold leaf_alter. by rewrite lookup_alter_eq, E. Qed.
Lemma leaf_alter_ne f p q h : p ≠ q → leaf_alter f p h !! q = h !! q.
Proof. intros. unfold leaf_alter. by rewrite lookup_alter_ne. Qed.
Lemma leaf_alter_None f p h : h !! p = None → leaf_alter f p h = h.
Proof.
  intros E. apply map_eq. intros q. unfold leaf_alter. destruct (decide (p = q)) as [<-|]; [by rewrite lookup_alter_eq, E|].
  by rewrite lookup_alter_ne.
Qed.

Lemma leaf_alter_ext f p h h' q : h' !! q = h !! q → leaf_alter f p h' !! q = leaf_alter f p h !! q.
Proof. intros E. unfold leaf_alter. destruct (decide (p = q)) as [->|]; [by rewrite !lookup_alter_eq, E|by rewrite !lookup_alter_ne]. Qed.

(** The link out of the end of a stretch, and into its start. *)
Lemma seg_set_next h prev ls next next' :
  NoDup ls → seg h prev ls next → seg (match last ls with Some q => leaf_alter (with_next next') q h | None => h end) prev ls next'.
Proof.
  intros Hnd Hs. destruct ls as [|q ls _] using rev_ind; [done|]. rewrite last_snoc. apply seg_app in Hs as [H1 H2].
  apply NoDup_app in Hnd as (_ & Hd & _). apply seg_app. cbn [head default from_option id] in *. split.
  - apply (seg_frame h); [|done]. intros p Hp. apply leaf_alter_ne. intros <-. apply (Hd q); [done|set_solver].
  - destruct H2 as (Hq & (l & E & Hp & Hn) & _). cbn [seg]. split; [done|]. split; [|done]. exists (with_next next' l).
    by rewrite (leaf_alter_eq _ _ _ l).
Qed.
Lemma seg_set_prev h prev prev' ls next :
  NoDup ls → seg h prev ls next → seg (match head ls with Some q => leaf_alter (with_prev prev') q h | None => h end) prev' ls next.
Proof.
  intros Hnd Hs. destruct ls as [|q ls]; [done|]. cbn [head seg] in *. destruct Hs as (Hq & (l & E & Hp & Hn) & Hs).
  apply NoDup_cons in Hnd as [Hnq _]. split; [done|]. split.
  - exists (with_prev prev' l). by rewrite (leaf_alter_eq _ _ _ l).
  - apply (seg_frame h); [|done]. intros p Hp'. apply leaf_alter_ne. by intros <-.
Qed.

Lemma modify_leaf_alter s p f l :
  heap s !! p = Some (DataNode l) → modify_leaf p f s = Ret (with_heap (leaf_alter f p (heap s)) s).
Proof.
  intros E. unfold modify_leaf. rewrite (get_data_leaf _ _ _ E), res_bind_ret. unfold set_data, set_node. do 2 f_equal.
  apply map_eq. intros q. destruct (decide (p = q)) as [<-|].
  - by rewrite lookup_insert_eq, (leaf_alter_eq _ _ _ l).
  - by rewrite lookup_insert_ne, leaf_alter_ne.
Qed.
Lemma modify_leaf_set s p f l : heap s !! p = Some (DataNode l) → modify_leaf p f s = Ret (set_data p (f l) s).
Proof. intros E. unfold modify_leaf. by rewrite (get_data_leaf _ _ _ E), res_bind_ret. Qed.
(** A null pointer is in no heap. *)
Lemma if_not_null_alter s p f :
  heap s !! 0 = None → (p ≠ 0 → ∃ l, heap s !! p = Some (DataNode l)) →
  if_not_null p (modify_leaf p f) s = Ret (with_heap (leaf_alter f p (heap s)) s).
Proof.
  intros E0 Ep. unfold if_not_null. case_bool_decide as Hp.
  - subst p. rewrite leaf_alter_None by done. by destruct s.
  - destruct (Ep Hp) as (l & E). by apply (modify_leaf_alter s p f l).
Qed.

Lemma leaf_alter_same f p h :
  (∀ l, same_but_links (DataNode l) (DataNode (f l))) → ∀ q, option_Forall2 same_but_links (h !! q) (leaf_alter f p h !! q).
Proof.
  intros Hf q. assert (∀ n, same_but_links n n) as Hr by (intros [l|m]; done). unfold leaf_alter.
  destruct (decide (p = q)) as [<-|Hne].
  - rewrite lookup_alter_eq. destruct (h !! p) as [[l|m]|]; constructor; [apply Hf|apply Hr].
  - rewrite lookup_alter_ne by done. destruct (h !! q); constructor. apply Hr.
Qed.
Lemma same_but_links_trans n1 n2 n3 : same_but_links n1 n2 → same_but_links n2 n3 → same_but_links n1 n3.
Proof.
  destruct n1, n2, n3; cbn; try done; [|by intros -> ->]. intros (-> & -> & ->) (-> & -> & ->). done.
Qed.

Definition same_up_to_links h h' : Prop := ∀ q, option_Forall2 same_but_links (h !! q) (h' !! q).
Lemma links_leaf h h' p l : same_up_to_links h h' → h !! p = Some (DataNode l) →
  ∃ l', h' !! p = Some (DataNode l') ∧ data l' = data l ∧ leaf_duplication_factor_ l' = leaf_duplication_factor_ l.
Proof.
  intros Hs E. specialize (Hs p). rewrite E in Hs. destruct (h' !! p) as [[l'|m]|]; inversion Hs as [? ? Hn|]; [|done].
  destruct Hn as (-> & _ & ->). by exists l'.
Qed.
Lemma links_model h h' p m : same_up_to_links h h' → h !! p = Some (ModelN m) → h' !! p = Some (ModelN m).
Proof.
  intros Hs E. specialize (Hs p). rewrite E in Hs. destruct (h' !! p) as [[l'|m']|]; inversion Hs as [? ? Hn|]; [done|].
  cbn in Hn. by subst.
Qed.

Lemma links_refl h : same_up_to_links h h.
Proof. intros q. destruct (h !! q) as [[]|]; by constructor. Qed.
Lemma links_alter h h' f p : same_up_to_links h h' → (∀ l, same_but_links (DataNode l) (DataNode (f l))) → same_up_to_links h (leaf_alter f p h').
Proof.
  intros Hh Hf q. pose proof (leaf_alter_same f p h' Hf q) as H2. specialize (Hh q).
  destruct (h !! q), (h' !! q); inversion Hh; subst; destruct (leaf_alter f p h' !! q); inversion H2; subst; constructor.
  by eapply same_but_links_trans.
Qed.

(** Where the pointers of the neighbours of [old] lead, two leaves stand for it. *)
Lemma relink_chain h h' l1 old l2 L R o lL lR :
  chain h 0 (l1 ++ old :: l2) → NoDup (l1 ++ old :: l2) → h !! 0 = None → h !! old = Some (DataNode o) → L ≠ 0 → R ≠ 0 →
  h' !! L = Some (DataNode lL) → prev_leaf_ lL = prev_leaf_ o → next_leaf_ lL = R →
  h' !! R = Some (DataNode lR) → prev_leaf_ lR = L → next_leaf_ lR = next_leaf_ o →
  (∀ q, q ∈ l1 ++ l2 → h' !! q = leaf_alter (with_prev R) (next_leaf_ o) (leaf_alter (with_next L) (prev_leaf_ o) h) !! q) →
  chain h' 0 (l1 ++ L :: R :: l2).
Proof.
  intros Hc Hnd H0 Eo HL0 HR0 EL PL NL ER PR NR Hs. destruct (chain_at _ _ _ _ _ Hc) as (_ & o' & Eo' & HP & HN).
  assert (o' = o) as -> by congruence. rewrite HP in PL, Hs. rewrite HN in NR, Hs.
  apply chain_seg, seg_app in Hc as [Hc1 Hc2]. cbn [head default from_option id] in Hc1. destruct Hc2 as (_ & _ & Hc2).
  pose proof (NoDup_app l1 (old :: l2)) as [Hn _]. destruct (Hn Hnd) as (Hnd1 & Hdis & [Hold2 Hnd2]%NoDup_cons). clear Hn.
  assert (∀ p, p ∈ l1 ∨ p ∈ l2 → p ≠ 0) as Hp0.
  { intros p [Hp|Hp] ->; apply list_elem_of_split in Hp as (a & b & ->); [apply seg_app in Hc1 as (_ & ? & _)|apply seg_app in Hc2 as (_ & ? & _)]; done. }
  apply chain_seg, seg_app. cbn [head default from_option id seg]. split; [|split; [done|split; [|split; [done|split]]]].
  - apply (seg_frame (match last l1 with Some q => leaf_alter (with_next L) q h | None => h end)); [|by eapply seg_set_next].
    intros p Hp. rewrite Hs by set_solver. rewrite leaf_alter_ne.
    + destruct (last l1) as [q|] eqn:Eq; [done|]. apply last_None in Eq. subst l1. by apply not_elem_of_nil in Hp.
    + intros <-. destruct l2 as [|q l2]; [by apply (Hp0 0); [left|]|]. apply (Hdis q); [done|set_solver].
  - exists lL. by rewrite PL, NL.
  - exists lR. by rewrite PR, NR.
  - apply (seg_frame (match head l2 with Some q => leaf_alter (with_prev R) q h | None => h end)); [|by apply (seg_set_prev _ old)].
    intros p Hp. rewrite Hs by set_solver. assert (default 0 (last l1) ≠ p) as Hne.
    { destruct (last l1) as [q|] eqn:Eq; [|intros <-; by apply (Hp0 0); [right|]]. cbn. intros ->. apply last_Some_elem_of in Eq. apply (Hdis p); [done|set_solver]. }
    destruct l2 as [|q l2]; [by apply not_elem_of_nil in Hp|]. cbn [head default from_option id]. destruct (decide (q = p)) as [->|Hq].
    + unfold leaf_alter. by rewrite !lookup_alter_eq, lookup_alter_ne.
    + rewrite !leaf_alter_ne by done. done.
Qed.

(** The neighbours of a leaf. *)
Lemma chain_neighbours h l1 old l2 o : chain h 0 (l1 ++ old :: l2) → h !! old = Some (DataNode o) →
  (prev_leaf_ o ≠ 0 → prev_leaf_ o ∈ l1 ∧ ∃ l, h !! prev_leaf_ o = Some (DataNode l)) ∧
  (next_leaf_ o ≠ 0 → next_leaf_ o ∈ l2 ∧ ∃ l, h !! next_leaf_ o = Some (DataNode l)).
Proof.
  intros Hc Eo. destruct (chain_at _ _ _ _ _ Hc) as (_ & o' & Eo' & HP & HN). assert (o' = o) as -> by congruence.
  assert (∀ p, p ∈ l1 ++ old :: l2 → ∃ l, h !! p = Some (DataNode l)) as Hleaf.
  { intros p (a & b & E)%list_elem_of_split. rewrite E in Hc. destruct (chain_at _ _ _ _ _ Hc) as (_ & l & El & _). by exists l. }
  rewrite HP, HN. split.
  - destruct (last l1) as [q|] eqn:E; [|done]. intros _. apply last_Some_elem_of in E. split; [done|]. apply Hleaf. cbn. set_solver.
  - destruct l2 as [|q l2]; [done|]. intros _. cbn. split; [by left|]. apply Hleaf. set_solver.
Qed.

(** Two new leaves in the place of [old]. *)
Lemma link_data_nodes_spec s l1 old l2 L R lL lR :
  heap s !! 0 = None → chain (heap s) 0 (l1 ++ old :: l2) → NoDup (l1 ++ old :: l2) →
  heap s !! L = Some (DataNode lL) → heap s !! R = Some (DataNode lR) → L ≠ R →
  L ∉ l1 ++ old :: l2 → R ∉ l1 ++ old :: l2 →
  ∃ h', link_data_nodes old L R s = Ret (with_heap h' s) ∧ chain h' 0 (l1 ++ L :: R :: l2) ∧
    same_up_to_links (heap s) h'.
Proof.
  intros H0 Hc Hnd EL ER HLR HL HR. pose proof Hc as Hc0. pose proof Hnd as Hnd0. destruct (chain_at _ _ _ _ _ Hc) as (Hold & o & Eo & HP & HN).
  destruct (chain_neighbours _ _ _ _ _ Hc Eo) as [HPin HNin]. rewrite HP in HPin. rewrite HN in HNin.
  apply NoDup_app in Hnd as (_ & Hdis & _). set (P := default 0 (last l1)) in *. set (N := default 0 (head l2)) in *.
  assert (L ≠ 0) as HL0 by (intros ->; congruence). assert (R ≠ 0) as HR0 by (intros ->; congruence).
  assert (P ≠ L ∧ P ≠ R ∧ N ≠ L ∧ N ≠ R) as (HPL & HPR & HNL & HNR) by (split_and!; intros E; set_solver).
  assert (P ≠ 0 → P ≠ N) as HPN.
  { intros HP0 E. destruct (HPin HP0) as [Hp _]. apply (Hdis P Hp). rewrite E. right. apply HNin. congruence. }
  set (h1 := leaf_alter (with_next L) P (heap s)). set (h2 := leaf_alter (with_prev P) L h1).
  set (h3 := leaf_alter (with_next R) L h2). set (h4 := leaf_alter (with_prev L) R h3).
  set (h5 := leaf_alter (with_next N) R h4). set (h6 := leaf_alter (with_prev R) N h5).
  assert (h1 !! L = Some (DataNode lL)) as E1L by (unfold h1; by rewrite leaf_alter_ne).
  assert (h2 !! L = Some (DataNode (with_prev P lL))) as E2L by (by apply leaf_alter_eq).
  assert (h3 !! L = Some (DataNode (with_next R (with_prev P lL)))) as E3L by (by apply leaf_alter_eq).
  assert (h3 !! R = Some (DataNode lR)) as E3R by (unfold h3, h2, h1; by rewrite !leaf_alter_ne).
  assert (h4 !! R = Some (DataNode (with_prev L lR))) as E4R by (by apply leaf_alter_eq).
  assert (h5 !! R = Some (DataNode (with_next N (with_prev L lR)))) as E5R by (by apply leaf_alter_eq).
  assert (∀ p, p ≠ P → p ≠ L → p ≠ R → h5 !! p = heap s !! p) as Hrest
    by (intros; unfold h5, h4, h3, h2, h1; by rewrite !leaf_alter_ne).
  exists h6. split; [|split].
  - unfold link_data_nodes. rewrite (get_data_leaf _ _ _ Eo), res_bind_ret, HP, HN.
    rewrite (if_not_null_alter s P); [|done|intros HP0; by apply HPin]. rewrite res_bind_ret. fold h1.
    rewrite (modify_leaf_alter (with_heap h1 s) L _ lL), res_bind_ret by done.
    rewrite (modify_leaf_alter _ L _ (with_prev P lL)), res_bind_ret by done.
    rewrite (modify_leaf_alter _ R _ lR), res_bind_ret by done.
    rewrite (modify_leaf_alter _ R _ (with_prev L lR)), res_bind_ret by done.
    rewrite (if_not_null_alter _ N); [done| |]; cbn [heap with_heap].
    + change (h5 !! 0 = None). destruct (decide (P = 0)) as [E|]; [|by rewrite Hrest by congruence].
      unfold h5, h4, h3, h2. rewrite !leaf_alter_ne by congruence. unfold h1. by rewrite E, leaf_alter_None.
    + intros HN0. change (∃ l, h5 !! N = Some (DataNode l)). rewrite Hrest by (done || (destruct (decide (P = 0)); [congruence|]; by apply not_eq_sym, HPN)).
      by apply HNin.
  - apply (relink_chain (heap s) h6 l1 old l2 L R o (with_next R (with_prev P lL)) (with_next N (with_prev L lR))); try done.
    + unfold h6, h5, h4. by rewrite !leaf_alter_ne.
    + unfold h6. by rewrite leaf_alter_ne.
    + intros q Hq. assert (L ≠ q ∧ R ≠ q) as [HLq HRq] by (split; intros <-; [apply HL|apply HR]; set_solver).
      rewrite HP, HN. apply leaf_alter_ext. unfold h5, h4, h3, h2. by rewrite 4!leaf_alter_ne by done.
  - unfold h6, h5, h4, h3, h2, h1. do 6 (apply links_alter; [|done]). apply links_refl.
Qed.
End seg.
