(* ===== verification/AlexSubtree.v ===== *)
(** * ALEX: replacing a part of a tree

    [below]: the nodes a node leads to.  What a node covers depends on these
    only; where one leaf of one model node is replaced by two, every node above
    covers the new list, and the models lead every other key where they did. *)
From S2P Require Import Prelude Ieee AlexBase AlexNode AlexOps AlexInv AlexCost AlexFanout AlexTree AlexRoute AlexTreeInv AlexTreeOk AlexLink.

Fixpoint below (d : nat) (h : heap_t) (p q : Z) : Prop :=
  match d with
  | O => False
  | S d => p = q ∨ match h !! p with
                   | Some (ModelN m) => ∃ c, Some c ∈ children_ m ∧ below d h c q
                   | _ => False
                   end
  end.

(** The leaf reached from [p]. *)
Definition reach (fuel : nat) (key p : Z) (s : Alex) : res Z :=
  let* (q, _) := descend fuel (bucket_of key) p [] s in Ret q.

Section subtree.
Implicit Types (h : heap_t) (s : Alex) (p q k key top : Z) (ls : list Z) (d fuel : nat) (rs : list run).

(** ** Runs *)
Lemma aligned_app rs1 rs2 off :
  Forall (λ r, 0 ≤ run_dup r) rs1 → aligned off (rs1 ++ rs2) ↔ aligned off rs1 ∧ aligned (off + width rs1) rs2.
Proof.
  intros Hd. revert off. induction Hd as [|r rs1 Hr Hd IH]; intros off; cbn [aligned app].
  - rewrite width_nil, Z.add_0_r. tauto.
  - rewrite IH, width_cons, Z.add_assoc by done. tauto.
Qed.
Lemma run_child_in rs r : 0 ≤ run_dup r → r ∈ rs → Some (run_child r) ∈ rs ≫= slots_of.
Proof.
  intros Hd Hr. apply list_elem_of_bind. exists r. split; [|done]. unfold slots_of, repeats.
  apply elem_of_replicate. split; [done|]. lia.
Qed.

(** ** The leaf reached *)
Lemma descend_path c s fuel : ∀ p P P',
  (let* (q, _) := descend fuel c p P s in Ret q) = (let* (q, _) := descend fuel c p P' s in Ret q).
Proof.
  induction fuel as [|fuel IH]; intros p P P'; [done|]. cbn [descend].
  destruct (get_node p s) as [[l|m]| |]; cbn; [done| |done..]. destruct (child _ _); cbn; [apply IH|done..].
Qed.
Lemma reach_data fuel key p s l : heap s !! p = Some (DataNode l) → reach (S fuel) key p s = Ret p.
Proof. intros E. unfold reach. by rewrite (descend_data _ _ _ _ _ l E). Qed.
Lemma reach_model fuel key p s m c :
  heap s !! p = Some (ModelN m) → child (bucket_of key m) m = Ret c → reach (S fuel) key p s = reach fuel key c s.
Proof. intros E Ec. unfold reach. rewrite (descend_model _ _ _ _ _ m c E Ec). apply descend_path. Qed.
Lemma descend_more c s : ∀ fuel fuel' p P r, (fuel ≤ fuel')%nat → descend fuel c p P s = Ret r → descend fuel' c p P s = Ret r.
Proof.
  induction fuel as [|fuel IH]; intros fuel' p P r Hf; [done|]. destruct fuel' as [|fuel']; [lia|]. cbn [descend].
  destruct (get_node p s) as [[l|m]| |]; cbn; [done| |done..]. destruct (child _ _); cbn; [|done..]. apply IH. lia.
Qed.
Lemma reach_more fuel fuel' key p s q : (fuel ≤ fuel')%nat → reach fuel key p s = Ret q → reach fuel' key p s = Ret q.
Proof.
  unfold reach. intros Hf. destruct (descend fuel _ _ _ _) as [[x P]| |] eqn:E; [|done..].
  by rewrite (descend_more _ _ _ _ _ _ _ Hf E).
Qed.
Lemma route_reach key s : route key s = reach (depth_fuel s) key (root_node_ s) s.
Proof. done. Qed.

(** The run a key selects. *)
Lemma key_run top m rs key :
  model_ok top m → rs ≠ [] → num_children_ m = width rs → Forall (λ r, 0 ≤ run_dup r) rs →
  ∃ rs1 r rs2, rs = rs1 ++ r :: rs2 ∧ width rs1 ≤ bucket_of key m < width rs1 + repeats r.
Proof.
  intros _ Hne Hn Hd. apply run_at; [done|]. rewrite <- Hn. apply bucket_of_range. rewrite Hn.
  destruct rs as [|r rs]; [done|]. apply Forall_cons in Hd as [Hr _]. rewrite width_cons by done. unfold repeats, width. lia.
Qed.

Lemma covers_reach d s top : ∀ p ls fuel key, covers d (heap s) top p ls → (d ≤ fuel)%nat → top < 2 ^ 64 →
  0 ≤ key ≤ top → ∃ q, reach fuel key p s = Ret q ∧ q ∈ ls.
Proof.
  intros p ls fuel key Hc Hd Ht Hk.
  destruct (covers_descend d s top p ls Hc Ht fuel key key [] []) as (q & q' & Q & Q' & E & _ & Ho & _); [done|lia..|].
  exists q. split; [|done]. unfold reach. by rewrite E.
Qed.

(** ** Frames *)
Definition agree d h h' p : Prop := ∀ q, below d h p q → option_Forall2 same_but_links (h !! q) (h' !! q).

Lemma same_links_dup n n' : same_but_links n n' → duplication_factor_ n' = duplication_factor_ n.
Proof. destruct n, n'; cbn; [by intros (_ & _ & ->)|done|done|by intros ->]. Qed.

Lemma covers_frame d h h' top : ∀ p ls, covers d h top p ls → agree d h h' p → covers d h' top p ls.
Proof.
  induction d as [|d IH]; intros p ls Hc Ha; [done|]. pose proof (Ha p ltac:(by left)) as Hp. cbn [covers] in *.
  destruct (h !! p) as [n|] eqn:Ep; [|done]. destruct (h' !! p) as [n'|]; inversion Hp as [? ? Hn|]; subst.
  destruct n as [l|m], n' as [l'|m']; cbn in Hn; [done..|subst m'].
  destruct Hc as (Hm & rs & Hne & Ec & Hw & Els & Hal & Hf). split; [done|]. exists rs. do 5 (split; [done|]).
  apply list.Forall_forall. intros r Hr. rewrite list.Forall_forall in Hf. destruct (Hf r Hr) as (Hcov & Hd & n & En & Hdn).
  assert (agree d h h' (run_child r)) as Har.
  { intros q Hq. apply Ha. right. rewrite Ep. exists (run_child r). split; [|done]. rewrite Ec. by apply run_child_in. }
  split; [by apply IH|]. split; [done|]. assert (below d h (run_child r) (run_child r)) as Hb by (destruct d; [done|by left]).
  pose proof (Har _ Hb) as Hs. rewrite En in Hs. destruct (h' !! run_child r) as [n'|]; inversion Hs as [? ? Hnn|]; subst.
  exists n'. split; [done|]. rewrite <- Hdn. by apply same_links_dup.
Qed.

Lemma reach_frame d s s' top key : ∀ p ls fuel, covers d (heap s) top p ls → agree d (heap s) (heap s') p → (d ≤ fuel)%nat →
  reach fuel key p s' = reach fuel key p s.
Proof.
  induction d as [|d IH]; intros p ls fuel Hc Ha Hd; [done|]. destruct fuel as [|fuel]; [lia|].
  pose proof (Ha p ltac:(by left)) as Hp. cbn [covers] in Hc.
  destruct (heap s !! p) as [n|] eqn:Ep; [|done]. destruct (heap s' !! p) as [n'|] eqn:Ep'; inversion Hp as [? ? Hn|]; subst.
  destruct n as [l|m], n' as [l'|m']; cbn in Hn; [|done|done|subst m'].
  - by rewrite (reach_data _ _ _ _ l Ep), (reach_data _ _ _ _ l' Ep').
  - destruct Hc as (Hm & rs & Hne & Ec & Hw & Els & Hal & Hf). rewrite list.Forall_forall in Hf.
    destruct (key_run top m rs key Hm Hne Hw) as (rs1 & r & rs2 & E & Hb); [apply list.Forall_forall; intros r Hr; by apply Hf|].
    assert (r ∈ rs) as Hr by (rewrite E; set_solver). destruct (Hf r Hr) as (Hcov & Hdr & _).
    pose proof (child_at m rs rs1 r rs2 _ Ec E Hdr Hb) as Hch.
    rewrite (reach_model _ _ _ _ m _ Ep Hch), (reach_model _ _ _ _ m _ Ep' Hch).
    apply (IH _ (run_leaves r)); [done| |lia]. intros q Hq. apply Ha. right. rewrite Ep. exists (run_child r). split; [|done].
    rewrite Ec. by apply run_child_in.
Qed.

(** ** What is below covers a part *)
Lemma run_of_child rs c :
  Some c ∈ rs ≫= slots_of → ∃ r, r ∈ rs ∧ run_child r = c.
Proof. intros (r & Hc & Hr)%list_elem_of_bind. exists r. split; [done|]. unfold slots_of in Hc. apply elem_of_replicate in Hc as [[= ->] _]. done. Qed.

Lemma below_segment d h top : ∀ p ls q, covers d h top p ls → below d h p q → ∃ lq x y, covers d h top q lq ∧ ls = x ++ lq ++ y.
Proof.
  induction d as [|d IH]; intros p ls q Hc Hb; [done|]. destruct Hb as [->|Hb]; [exists ls, [], []; by rewrite app_nil_r|].
  cbn [covers] in Hc. destruct (h !! p) as [[l|m]|] eqn:Ep; [done| |done].
  destruct Hc as (_ & rs & _ & Ec & _ & -> & _ & Hf). rewrite list.Forall_forall in Hf.
  destruct Hb as (c & Hin & Hb). rewrite Ec in Hin. apply run_of_child in Hin as (r & Hr & <-). destruct (Hf r Hr) as (Hcov & _).
  destruct (IH _ _ q Hcov Hb) as (lq & x & y & Hq & E). apply list_elem_of_split in Hr as (rs1 & rs2 & ->).
  exists lq, ((rs1 ≫= run_leaves) ++ x), (y ++ (rs2 ≫= run_leaves)). split; [by apply covers_S|].
  rewrite bind_app, bind_cons, E. by rewrite <- !app_assoc.
Qed.
Lemma below_covers d h top p ls q : covers d h top p ls → below d h p q → ∃ lq, covers d h top q lq ∧ ∀ x, x ∈ lq → x ∈ ls.
Proof. intros Hc Hb. destruct (below_segment d h top p ls q Hc Hb) as (lq & x & y & Hq & ->). exists lq. split; [done|set_solver]. Qed.

(** The list a node covers is determined. *)
Lemma covers_fun d h top : ∀ d' p ls ls', covers d h top p ls → covers d' h top p ls' → ls = ls'.
Proof.
  induction d as [|d IH]; intros d' p ls ls' H1 H2; [done|]. destruct d' as [|d']; [done|]. cbn [covers] in H1, H2.
  destruct (h !! p) as [[l|m]|]; [by subst| |done].
  destruct H1 as (_ & rs & _ & Ec & _ & -> & _ & Hf). destruct H2 as (_ & rs' & _ & Ec' & _ & -> & _ & Hf').
  rewrite Ec in Ec'. clear Ec. revert rs' Hf' Ec'. induction Hf as [|r rs (Hr & Hd & n & En & Hdn) Hf IHrs]; intros rs' Hf' E.
  - destruct Hf' as [|r' rs' (Hr' & Hd' & _) Hf']; [done|]. exfalso. pose proof (run_child_in (r' :: rs') r' Hd' ltac:(left)) as Hin.
    rewrite <- E in Hin. by apply not_elem_of_nil in Hin.
  - destruct Hf' as [|r' rs' (Hr' & Hd' & n' & En' & Hdn') Hf'].
    + exfalso. pose proof (run_child_in (r :: rs) r Hd ltac:(left)) as Hin. rewrite E in Hin. by apply not_elem_of_nil in Hin.
    + rewrite !bind_cons in E. assert (run_child r = run_child r') as Ech.
      { unfold slots_of, repeats in E. destruct (Z.to_nat (2 ^ run_dup r)) eqn:E1; [lia|].
        destruct (Z.to_nat (2 ^ run_dup r')) eqn:E2; [lia|]. cbn in E. congruence. }
      assert (run_dup r = run_dup r') as Edup by (rewrite Ech in En; congruence).
      assert (slots_of r = slots_of r') as Es by (unfold slots_of, repeats; by rewrite Ech, Edup).
      rewrite Es in E. apply app_inv_head in E. rewrite Ech in Hr. rewrite !bind_cons. f_equal; [by apply (IH d' (run_child r'))|by apply IHrs].
Qed.

Lemma below_in d d' h top p ls q lq : covers d h top p ls → below d h p q → covers d' h top q lq → ∀ x, x ∈ lq → x ∈ ls.
Proof.
  intros Hc Hb Hq x Hx. destruct (below_covers d h top p ls q Hc Hb) as (lq' & Hq' & Hsub).
  apply Hsub. by rewrite <- (covers_fun d' h top d q lq lq').
Qed.

(** A leaf a node points to is in its list. *)
Lemma child_covered d h top p ls m b c l :
  covers d h top p ls → h !! p = Some (ModelN m) → child b m = Ret c → h !! c = Some (DataNode l) → c ∈ ls.
Proof.
  intros Hc Ep Hch El. destruct d as [|d]; [done|]. cbn [covers] in Hc. rewrite Ep in Hc.
  destruct Hc as (_ & rs & _ & Ec & _ & -> & _ & Hf).
  assert (Some c ∈ children_ m) as Hin.
  { unfold child, rd in Hch. case_bool_decide; [|done]. destruct (children_ m !! _) as [x|] eqn:Ex; [|done].
    destruct x; [|done]. cbn in Hch. injection Hch as ->. by eapply list_elem_of_lookup_2. }
  rewrite Ec in Hin. apply run_of_child in Hin as (r & Hr & Er). apply list_elem_of_bind. exists r. split; [|done].
  rewrite list.Forall_forall in Hf. destruct (Hf r Hr) as (Hc & _). rewrite Er in Hc.
  destruct d; [done|]. cbn [covers] in Hc. rewrite El in Hc. rewrite Hc. set_solver.
Qed.
End subtree.

(** ** The depth of a tree *)
Section depth.
Implicit Types (h : heap_t) (p q c top : Z) (ls : list Z) (d : nat).

Lemma covers_child d h top p m c ls :
  covers (S d) h top p ls → h !! p = Some (ModelN m) → Some c ∈ children_ m → ∃ lc, covers d h top c lc.
Proof.
  intros Hc Ep Hin. cbn [covers] in Hc. rewrite Ep in Hc. destruct Hc as (_ & rs & _ & Ec & _ & _ & _ & Hf). rewrite Ec in Hin.
  apply run_of_child in Hin as (r & Hr & <-). rewrite list.Forall_forall in Hf. exists (run_leaves r). by apply Hf.
Qed.

Lemma below_cap h top : ∀ d d' c ls q, covers d h top c ls → below d' h c q → below d h c q.
Proof.
  induction d as [|d IH]; intros [|d'] c ls q Hc Hb; [done..|]. destruct Hb as [->|Hb]; [by left|right].
  destruct (h !! c) as [[l|m]|] eqn:Em; [done| |done]. destruct Hb as (x & Hx & Hb).
  destruct (covers_child d h top c m x ls Hc Em Hx) as (lx & Hlx). exists x. split; [done|]. by apply (IH d' x lx).
Qed.

(** No node is below its own child. *)
Lemma covers_acyclic h top : ∀ d p m c ls d', covers d h top p ls → h !! p = Some (ModelN m) → Some c ∈ children_ m →
  below d' h c p → False.
Proof.
  induction d as [|d IH]; intros p m c ls d' Hc Ep Hin Hb; [done|]. destruct (covers_child d h top p m c ls Hc Ep Hin) as (lc & Hlc).
  destruct (below_covers d h top c lc p Hlc (below_cap h top d d' c lc p Hlc Hb)) as (lp & Hlp & _). by apply (IH p m c lp d').
Qed.

(** As many levels as there are nodes are enough. *)
Lemma covers_nodes h top : ∀ d (X : gset Z) p ls, covers d h top p ls → (∀ q, below d h p q → q ∈ X) → covers (size X) h top p ls.
Proof.
  induction d as [|d IH]; intros X p ls Hc HX; [done|]. assert (p ∈ X) as Hp by (apply HX; by left).
  assert (size X = S (size (X ∖ {[p]}))) as ->.
  { rewrite size_difference, size_singleton by set_solver. assert (size X ≠ 0%nat); [|lia]. intros E%size_empty_inv. set_solver. }
  pose proof Hc as Hc0. cbn [covers] in Hc |- *. destruct (h !! p) as [[l|m]|] eqn:Ep; [done| |done].
  destruct Hc as (Hm & rs & Hne & Ec & Hn & Els & Hal & Hf). split; [done|]. exists rs. do 5 (split; [done|]).
  rewrite list.Forall_forall in Hf. apply list.Forall_forall. intros r Hr. destruct (Hf r Hr) as (Hcr & Hd & Hdup).
  split; [|done]. assert (Some (run_child r) ∈ children_ m) as Hin by (rewrite Ec; by apply run_child_in).
  apply IH; [done|]. intros q Hq. apply elem_of_difference. split; [apply HX; right; rewrite Ep; by exists (run_child r)|].
  intros ->%elem_of_singleton. by apply (covers_acyclic h top (S d) p m (run_child r) ls d).
Qed.

Lemma covers_size d h top p ls : covers d h top p ls → covers (size h) h top p ls.
Proof.
  intros Hc. rewrite <- size_dom. apply (covers_nodes h top d); [done|]. intros q Hq.
  destruct (below_covers d h top p ls q Hc Hq) as (lq & Hlq & _). apply elem_of_dom. destruct d; [done|]. cbn [covers] in Hlq.
  destruct (h !! q); [by eexists|done].
Qed.
End depth.

(** ** The parent at the end of a path *)
Section path.
Implicit Types (s : Alex) (p q top : Z) (ls : list Z) (d fuel : nat).

Lemma descend_parent choose s top : ∀ d fuel p ls P q Q m, covers d (heap s) top p ls → heap s !! p = Some (ModelN m) →
  (d ≤ fuel)%nat → descend fuel choose p P s = Ret (q, Q) →
  ∃ parent m' rest, Q = (parent, choose m') :: rest ∧ heap s !! parent = Some (ModelN m') ∧
    child (choose m') m' = Ret q ∧ below d (heap s) p parent.
Proof.
  induction d as [|d IH]; intros fuel p ls P q Q m Hc Ep Hf E; [done|]. destruct fuel as [|fuel]; [lia|].
  cbn [descend] in E. unfold get_node in E. rewrite Ep in E. cbn [of_option] in E. rewrite res_bind_ret in E.
  destruct (child (choose m) m) as [c| |] eqn:Ec; [|discriminate E|discriminate E]. rewrite res_bind_ret in E.
  cbn [covers] in Hc. rewrite Ep in Hc. destruct Hc as (_ & rs & _ & Ecs & _ & _ & _ & Hcs). rewrite list.Forall_forall in Hcs.
  assert (Some c ∈ children_ m) as Hin.
  { unfold child, rd in Ec. case_bool_decide; [|done]. destruct (children_ m !! _) as [x|] eqn:Ex; [|done].
    destruct x; [|done]. cbn in Ec. injection Ec as ->. by eapply list_elem_of_lookup_2. }
  pose proof Hin as Hin'. rewrite Ecs in Hin'. apply run_of_child in Hin' as (r & Hr & Er). destruct (Hcs r Hr) as (Hcov & _). rewrite Er in Hcov.
  destruct (heap s !! c) as [[l|m']|] eqn:En.
  - destruct d as [|d]; [done|]. destruct fuel as [|fuel]; [lia|]. rewrite (descend_data _ _ _ _ _ l En) in E. injection E as <- <-.
    exists p, m, P. split; [done|]. split; [done|]. split; [done|]. by left.
  - destruct (IH fuel c _ _ q Q m' Hcov En ltac:(lia) E) as (parent & m'' & rest & -> & ? & ? & ?).
    exists parent, m'', rest. split; [done|]. split; [done|]. split; [done|]. right. rewrite Ep. by exists c.
  - destruct d; [done|]. cbn [covers] in Hcov. by rewrite En in Hcov.
Qed.
End path.

(** ** The ends of the list *)
Section ends.
Implicit Types (s : Alex) (p q top : Z) (ls : list Z) (d fuel : nat).
(** The outermost leaf on one side: that of the outermost run. *)
Lemma outermost (right : bool) d s top : ∀ p ls fuel P, covers d (heap s) top p ls → (d ≤ fuel)%nat →
  ∃ q Q, descend fuel (if right then rightmost else leftmost) p P s = Ret (q, Q) ∧ (if right then last ls else head ls) = Some q.
Proof.
  induction d as [|d IH]; intros p ls [|fuel] P Hc Hf; [done..|lia|]. cbn [covers] in Hc.
  destruct (heap s !! p) as [[l|m]|] eqn:Ep; [| |done].
  - subst ls. exists p, P. rewrite (descend_data _ _ _ _ _ l Ep). by destruct right.
  - destruct Hc as (_ & rs & Hne & Ec & Hn & -> & _ & Hf').
    assert (Forall (λ r, 0 ≤ run_dup r) rs) as Hd by (eapply Forall_impl; [exact Hf'|]; naive_solver).
    assert (∃ rs1 r rs2, rs = rs1 ++ r :: rs2 ∧ (if right then rs2 = [] else rs1 = [])) as (rs1 & r & rs2 & E & Hside).
    { destruct right; [destruct rs as [|r rs _] using rev_ind; [done|]; by exists rs, r, []|destruct rs as [|r rs]; [done|]; by exists [], r, rs]. }
    rewrite E in Hd. apply Forall_app in Hd as [_ [Hdr _]%Forall_cons]. rewrite list.Forall_forall in Hf'. destruct (Hf' r) as (Hcr & _); [rewrite E; set_solver|].
    assert (0 ≤ width rs1 ∧ 0 < repeats r) as [Hw Hr] by (unfold width, repeats; lia).
    assert (child ((if right then rightmost else leftmost) m) m = Ret (run_child r)) as Hch.
    { apply (child_at m rs rs1 r rs2 _ Ec E Hdr). destruct right; unfold rightmost, leftmost; [|subst rs1; rewrite width_nil; lia].
      subst rs2. rewrite Hn, E, width_app, width_cons, width_nil by done. lia. }
    rewrite (descend_model _ _ _ _ _ m _ Ep Hch). destruct (IH (run_child r) (run_leaves r) fuel ((p, (if right then rightmost else leftmost) m) :: P) Hcr) as (q & Q & Eq & Hq); [lia|].
    exists q, Q. split; [done|]. rewrite E, bind_app, bind_cons. destruct right; subst.
    + cbn. rewrite app_nil_r, last_app, Hq. done.
    + cbn. destruct (run_leaves r); [done|exact Hq].
Qed.
End ends.
