(* ===== verification/AlexReplace.v ===== *)
(** * ALEX: a local change of a tree

    Some runs of one model node are replaced by others of the same total
    length.  If the rest of the heap keeps what it covers, so does every node
    above, with the new leaves in the place of the old; and keys that went to
    other leaves still do. *)
From S2P Require Import Prelude Ieee AlexBase AlexNode AlexOps AlexInv AlexBuild AlexCost AlexFanout AlexTree AlexRoute AlexTreeInv AlexTreeOk AlexLink AlexSubtree.

Definition run_ok (d : nat) (h : heap_t) (top : Z) (r : run) : Prop :=
  covers d h top (run_child r) (run_leaves r) ∧ 0 ≤ run_dup r ∧
  ∃ n, h !! run_child r = Some n ∧ duplication_factor_ n = run_dup r.

Lemma run_ok_le d d' h top r : (d ≤ d')%nat → run_ok d h top r → run_ok d' h top r.
Proof. intros Hle (Hc & H). split; [by eapply covers_le|done]. Qed.

(** Runs that share no leaf have different children. *)
Lemma runs_nodup d h top rs : Forall (run_ok d h top) rs → NoDup (rs ≫= run_leaves) → NoDup (run_child <$> rs).
Proof.
  induction rs as [|r rs IH]; [constructor|]. intros [(Hc & _) Hf]%Forall_cons. rewrite bind_cons. intros (_ & Hd & Hnd)%NoDup_app.
  rewrite fmap_cons. constructor; [|by apply IH]. intros (r' & E & Hr')%list_elem_of_fmap. rewrite list.Forall_forall in Hf.
  destruct (Hf r' Hr') as (Hc' & _). rewrite <- E in Hc'. pose proof (covers_fun _ _ _ _ _ _ _ Hc Hc') as El.
  pose proof (covers_ne _ _ _ _ _ Hc) as Hne. destruct (run_leaves r) as [|x l]; [done|].
  apply (Hd x); [left|]. apply list_elem_of_bind. exists r'. split; [rewrite <- El; left|done].
Qed.

Section replace.
Context (s s' : Alex) (top parent : Z) (gone : list Z) (f : Z → Z → Z).
Implicit Types (p q k key : Z) (ls lp : list Z) (d fuel : nat) (rs : list run).

(** What changes: the part with the leaves [gone], and the links. *)
Record local_change : Prop := {
  lc_gone : gone ≠ [];
  lc_top : top < 2 ^ 64;
  lc_apart d p ls q : covers d (heap s) top p ls → (∀ x, x ∈ gone → x ∉ ls) → below d (heap s) p q → q ≠ parent →
    option_Forall2 same_but_links (heap s !! q) (heap s' !! q);
  lc_above d p ls : covers d (heap s) top p ls → below d (heap s) p parent → p ≠ parent →
    option_Forall2 same_but_links (heap s !! p) (heap s' !! p);
  lc_dup n : heap s !! parent = Some n → ∃ n', heap s' !! parent = Some n' ∧ duplication_factor_ n' = duplication_factor_ n;
  lc_keys key q : q ∉ gone → f key q = q
}.
Context (Hlc : local_change).

(** Keys go from [p] where they went, up to [f]. *)
Definition moves d p : Prop :=
  ∀ fuel key, (d ≤ fuel)%nat → 0 ≤ key ≤ top →
  ∃ q, reach fuel key p s = Ret q ∧ reach fuel key p s' = Ret (f key q).

Lemma moves_le d d' p : (d ≤ d')%nat → moves d p → moves d' p.
Proof. intros Hle Hm fuel key Hf. apply Hm. lia. Qed.

Lemma part_agrees d d' p ls lp :
  covers d (heap s) top p ls → covers d' (heap s) top parent lp → (∀ x, x ∈ gone → x ∈ lp) → (∀ x, x ∈ gone → x ∉ ls) →
  agree d (heap s) (heap s') p.
Proof.
  intros Hc Hp Hin Hout q Hq. apply (lc_apart Hlc d p ls); [done..|]. intros ->.
  destruct gone as [|x g] eqn:Eg; [by destruct (lc_gone Hlc)|]. apply (Hout x); [left|].
  apply (below_in d d' (heap s) top p ls parent lp); [done..|]. apply Hin. left.
Qed.

Section runs.
Context (d d' : nat) (lp : list Z).
Context (Hlp : covers d' (heap s) top parent lp) (Hin : ∀ x, x ∈ gone → x ∈ lp).

Lemma run_kept r : run_ok d (heap s) top r → (∀ x, x ∈ gone → x ∉ run_leaves r) → run_ok d (heap s') top r.
Proof.
  intros (Hc & Hd & n & En & Hn) Hout. pose proof (part_agrees d d' _ _ lp Hc Hlp Hin Hout) as Ha.
  split; [by eapply covers_frame|]. split; [done|]. assert (below d (heap s) (run_child r) (run_child r)) as Hb by (destruct d; [done|by left]).
  specialize (Ha _ Hb). rewrite En in Ha. destruct (heap s' !! run_child r) as [n'|]; inversion Ha as [? ? Hnn|]; subst.
  exists n'. split; [done|]. rewrite <- Hn. by apply same_links_dup.
Qed.
Lemma run_moves r : run_ok d (heap s) top r → (∀ x, x ∈ gone → x ∉ run_leaves r) → moves d (run_child r).
Proof.
  intros (Hc & _) Hout fuel key Hf Hk. destruct (covers_reach d s top _ _ fuel key Hc Hf (lc_top Hlc) Hk) as (q & Eq & Hq). exists q. split; [done|].
  rewrite (reach_frame d s s' top key _ _ fuel Hc), Eq; [|by eapply part_agrees|done].
  rewrite (lc_keys Hlc); [done|]. intros Hg. by apply (Hout q).
Qed.
End runs.

(** ** At the parent *)
Lemma gone_apart rs1 ro rs2 r x :
  NoDup ((rs1 ++ ro ++ rs2) ≫= run_leaves) → x ∈ ro ≫= run_leaves → r ∈ rs1 ++ rs2 → x ∉ run_leaves r.
Proof.
  rewrite !bind_app. intros (_ & Hd & (_ & H2 & _)%NoDup_app)%NoDup_app Hx [H|H]%elem_of_app Hr.
  - apply (Hd x); [apply list_elem_of_bind; by exists r|set_solver].
  - apply (H2 x); [done|]. apply list_elem_of_bind. by exists r.
Qed.

(** The run that holds a bucket outside the middle ones. *)
Lemma run_outside rs1 ro rs2 b :
  Forall (λ r, 0 ≤ run_dup r) (rs1 ++ ro ++ rs2) → 0 ≤ b < width (rs1 ++ ro ++ rs2) →
  ¬ (width rs1 ≤ b < width rs1 + width ro) →
  ∃ r, r ∈ rs1 ++ rs2 ∧ ∀ rn, width rn = width ro → ((rs1 ++ rn ++ rs2) ≫= slots_of) !! Z.to_nat b = Some (Some (run_child r)).
Proof.
  intros Hd Hb Hout. apply Forall_app in Hd as [Hd1 [_ Hd2]%Forall_app]. rewrite !width_app in Hb. destruct (decide (b < width rs1)).
  - destruct (run_at rs1 b Hd1) as (x & r & y & -> & Hr); [lia|]. exists r. split; [set_solver|]. intros rn _.
    rewrite <- app_assoc. apply Forall_app in Hd1 as [_ [Hdr _]%Forall_cons]. by apply (slot_at x r).
  - destruct (run_at rs2 (b - (width rs1 + width ro)) Hd2) as (x & r & y & -> & Hr); [lia|]. exists r. split; [set_solver|].
    intros rn Hw. rewrite !app_assoc. apply Forall_app in Hd2 as [_ [Hdr _]%Forall_cons]. apply (slot_at ((rs1 ++ rn) ++ x) r); [done|].
    rewrite !width_app. lia.
Qed.

Section parent.
Context (d : nat) (m m' : ModelNode) (rs1 ro rs2 rn : list run).
Context (Ep : heap s !! parent = Some (ModelN m)) (Ep' : heap s' !! parent = Some (ModelN m')).
Context (Hmodel : mn_model m' = mn_model m) (Hnum : num_children_ m' = num_children_ m).
Context (Hgone : gone = ro ≫= run_leaves) (Hwidth : width rn = width ro).

(** What [covers] says of the parent before, in terms of its runs. *)
Record parent_runs : Prop := {
  pr_model : model_ok top m;
  pr_children : children_ m = (rs1 ++ ro ++ rs2) ≫= slots_of;
  pr_num : num_children_ m = width (rs1 ++ ro ++ rs2);
  pr_aligned : aligned 0 (rs1 ++ ro ++ rs2);
  pr_runs : Forall (run_ok d (heap s) top) (rs1 ++ ro ++ rs2);
  pr_nodup : NoDup ((rs1 ++ ro ++ rs2) ≫= run_leaves)
}.
Context (Hpr : parent_runs).
Context (Hchildren : children_ m' = (rs1 ++ rn ++ rs2) ≫= slots_of).
Context (Haligned : aligned (width rs1) rn) (Hrn : rn ≠ []) (Hrok : Forall (run_ok d (heap s') top) rn).

Lemma parent_covers : covers (S d) (heap s) top parent ((rs1 ++ ro ++ rs2) ≫= run_leaves).
Proof.
  cbn [covers]. rewrite Ep. destruct Hpr as [? Hc Hn ? Hf _]. split; [done|]. exists (rs1 ++ ro ++ rs2). split_and!; try done.
  intros E. apply app_nil in E as [_ [-> _]%app_nil]. apply (lc_gone Hlc). by rewrite Hgone.
Qed.

Lemma parent_covers' : covers (S d) (heap s') top parent ((rs1 ++ rn ++ rs2) ≫= run_leaves).
Proof.
  cbn [covers]. rewrite Ep'. destruct Hpr as [[Hm Hfit] _ Hn Hal Hf Hnd].
  assert (Forall (λ r, 0 ≤ run_dup r) (rs1 ++ ro ++ rs2)) as Hd0 by (eapply Forall_impl; [exact Hf|]; by intros r (_ & ? & _)).
  assert (Forall (λ r, 0 ≤ run_dup r) rn) as Hdn by (eapply Forall_impl; [exact Hrok|]; by intros r (_ & ? & _)).
  apply Forall_app in Hd0 as [Hd1 [Hdo Hd2]%Forall_app].
  split; [by unfold model_ok; rewrite Hmodel|]. exists (rs1 ++ rn ++ rs2). split; [by destruct rs1, rn|]. split; [done|].
  split; [rewrite Hnum, Hn, !width_app; lia|]. split; [done|]. split.
  - apply aligned_app in Hal as [Hal1 Hal2]; [|done]. apply aligned_app in Hal2 as [_ Hal3]; [|done].
    apply aligned_app; [done|]. split; [done|]. apply aligned_app; [done|]. by rewrite Hwidth.
  - apply Forall_app in Hf as [Hf1 [_ Hf2]%Forall_app]. rewrite !Forall_app. split_and!; [|done|];
      apply list.Forall_forall; intros r Hr; rewrite list.Forall_forall in Hf1, Hf2;
      (apply (run_kept d (S d) _ parent_covers); [intros x; rewrite Hgone, !bind_app; set_solver|naive_solver|]);
      intros x Hx; apply (gone_apart rs1 ro rs2); [done|by rewrite <- Hgone|set_solver|done|by rewrite <- Hgone|set_solver].
Qed.

(** The keys of the middle runs are the caller's business. *)
Lemma parent_moves :
  (∀ fuel key, (d ≤ fuel)%nat → 0 ≤ key ≤ top → width rs1 ≤ bucket_of key m < width rs1 + width ro →
     ∃ q, reach (S fuel) key parent s = Ret q ∧ reach (S fuel) key parent s' = Ret (f key q)) → moves (S d) parent.
Proof.
  intros Hinner [|fuel] key Hfuel Hk; [lia|]. destruct Hpr as [[Hm Hfit] Hc Hn Hal Hf Hnd].
  destruct (decide (width rs1 ≤ bucket_of key m < width rs1 + width ro)) as [Hin|Hout]; [apply Hinner; [lia|done..]|].
  assert (Forall (λ r, 0 ≤ run_dup r) (rs1 ++ ro ++ rs2)) as Hd0 by (eapply Forall_impl; [exact Hf|]; by intros r (_ & ? & _)).
  assert (0 < num_children_ m) as Hpos.
  { rewrite Hn. destruct ro as [|r rs] eqn:Ero; [by destruct (lc_gone Hlc); rewrite Hgone|].
    apply Forall_app in Hd0 as [_ [Hr _]%Forall_cons]. rewrite !width_app, width_cons by done. unfold repeats, width. lia. }
  pose proof (bucket_of_range m key Hpos) as Hb. rewrite Hn in Hb.
  destruct (run_outside rs1 ro rs2 (bucket_of key m) Hd0 Hb Hout) as (r & Hr & Hslot).
  assert (child (bucket_of key m) m = Ret (run_child r)) as Hch
    by (unfold child, rd; rewrite Hc, (Hslot ro eq_refl), bool_decide_eq_true_2 by lia; done).
  assert (child (bucket_of key m') m' = Ret (run_child r)) as Hch'
    by (unfold bucket_of, child, rd; rewrite Hmodel, Hnum; fold (bucket_of key m); rewrite Hchildren, (Hslot rn Hwidth), bool_decide_eq_true_2 by lia; done).
  rewrite (reach_model _ _ _ _ _ _ Ep Hch), (reach_model _ _ _ _ _ _ Ep' Hch').
  rewrite list.Forall_forall in Hf. apply (run_moves d (S d) _ parent_covers); [intros x; rewrite Hgone, !bind_app; set_solver|apply Hf; set_solver| |lia|done].
  intros x Hx. apply (gone_apart rs1 ro rs2); [done|by rewrite <- Hgone|done].
Qed.
End parent.

(** ** Above the parent *)
(** The part below the parent may become [e] levels deeper. *)
Section above.
Context (e : nat) (lp lp' : list Z).
Context (Hgone : ∀ x, x ∈ gone → x ∈ lp).
Context (Hparent : ∀ d, covers d (heap s) top parent lp → covers (e + d) (heap s') top parent lp' ∧ moves (e + d) parent).

Lemma covers_replace : ∀ d p ls, covers d (heap s) top p ls → NoDup ls → below d (heap s) p parent →
  covers d (heap s) top parent lp →
  ∃ x y, ls = x ++ lp ++ y ∧ covers (e + d) (heap s') top p (x ++ lp' ++ y) ∧ moves (e + d) p.
Proof.
  induction d as [|d IH]; intros p ls Hc Hnd Hbl Hlp; [done|].
  destruct (decide (p = parent)) as [->|Hne].
  { destruct (Hparent (S d) Hlp) as [Hc' Hm]. exists [], []. cbn [app]. rewrite !app_nil_r. split; [by eapply covers_fun|done]. }
  pose proof (lc_above Hlc (S d) p ls Hc Hbl Hne) as Hs. destruct Hbl as [?|Hbl]; [done|].
  pose proof Hc as Hc0. rewrite Nat.add_succ_r. cbn [covers] in Hc |- *. destruct (heap s !! p) as [[l|m]|] eqn:Em; [done| |done].
  destruct (heap s' !! p) as [[l'|m1]|] eqn:Em'; inversion Hs as [? ? Hs1|]; [done|]. cbn in Hs1. subst.
  destruct Hc as (Hm & rs & Hrs & Ec & Hn & -> & Hal & Hf). destruct Hbl as (c & Hcin & Hbl). rewrite Ec in Hcin.
  apply run_of_child in Hcin as (r & (rs1 & rs2 & ->)%list_elem_of_split & <-).
  assert (Forall (λ r, 0 ≤ run_dup r) (rs1 ++ r :: rs2)) as Hd0 by (eapply Forall_impl; [exact Hf|]; naive_solver).
  rewrite list.Forall_forall in Hf. destruct (Hf r ltac:(set_solver)) as (Hcr & Hdr & n & En & Hdn).
  pose proof Hnd as Hnd'. rewrite bind_app, bind_cons in Hnd'. apply NoDup_app in Hnd' as (_ & _ & (Hndr & _)%NoDup_app).
  assert (covers d (heap s) top parent lp) as Hlpd.
  { destruct (below_covers d (heap s) top (run_child r) _ parent Hcr Hbl) as (lq & Hq & _). by rewrite (covers_fun _ _ _ _ _ _ _ Hlp Hq). }
  destruct (IH _ _ Hcr Hndr Hbl Hlpd) as (x & y & Exy & Hcr' & Hreach).
  assert (∀ r', r' ∈ rs1 ++ rs2 → ∀ z, z ∈ gone → z ∉ run_leaves r') as Hout.
  { intros r' Hr' z Hz. apply (gone_apart rs1 [r] rs2); [done|cbn; rewrite app_nil_r, Exy; specialize (Hgone z Hz); set_solver|done]. }
  set (r1 := mkRun (run_child r) (run_dup r) (x ++ lp' ++ y)).
  assert (width (rs1 ++ r1 :: rs2) = width (rs1 ++ r :: rs2) ∧ (rs1 ++ r1 :: rs2) ≫= slots_of = (rs1 ++ r :: rs2) ≫= slots_of) as [Hw Hsl]
    by (unfold width; by rewrite !bind_app, !bind_cons).
  exists ((rs1 ≫= run_leaves) ++ x), (y ++ (rs2 ≫= run_leaves)).
  split; [rewrite bind_app, bind_cons, Exy; by rewrite <- !app_assoc|]. split.
  - split; [done|]. exists (rs1 ++ r1 :: rs2). split; [by destruct rs1|]. rewrite Hw, Hsl.
    do 2 (split; [done|]). split; [rewrite bind_app, bind_cons; cbn [run_leaves r1]; by rewrite <- !app_assoc|].
    split; [apply Forall_app in Hd0 as [Hd1 _]; apply aligned_app in Hal; [|done]; by apply aligned_app|].
    apply list.Forall_forall. intros r' Hr'. assert (r' = r1 ∨ r' ∈ rs1 ++ rs2) as [->|Hr12] by set_solver.
    + cbn [run_child run_dup run_leaves r1]. split; [done|]. split; [done|].
      destruct (decide (run_child r = parent)) as [Erp|Hrp].
      * rewrite Erp in En |- *. destruct (lc_dup Hlc n En) as (n' & En' & Hn'). exists n'. split; [done|]. congruence.
      * pose proof (lc_above Hlc d _ _ Hcr Hbl Hrp) as Hsr. rewrite En in Hsr.
        destruct (heap s' !! run_child r) as [n'|]; inversion Hsr as [? ? Hnn|]; subst. exists n'. split; [done|].
        rewrite <- Hdn. by apply same_links_dup.
    + apply (run_ok_le d); [lia|]. apply (run_kept d d lp Hlpd Hgone); [apply Hf; set_solver|by apply Hout].
  - intros [|fuel] key Hfuel Hk; [lia|].
    destruct (key_run top m1 (rs1 ++ r :: rs2) key Hm Hrs Hn Hd0) as (ra & r' & rb & E' & Hbk).
    assert (r' ∈ rs1 ++ r :: rs2) as Hr' by (rewrite E'; set_solver). pose proof (Hf r' Hr') as Hr2. pose proof Hr2 as (_ & Hdr2 & _).
    pose proof (child_at m1 _ ra r' rb _ Ec E' Hdr2 Hbk) as Hchild.
    rewrite (reach_model _ _ _ _ _ _ Em Hchild), (reach_model _ _ _ _ _ _ Em' Hchild).
    assert (r' = r ∨ r' ∈ rs1 ++ rs2) as [->|Hr12] by set_solver; [apply Hreach; [lia|done]|].
    apply (moves_le d (e + d)); [lia| |lia|done]. apply (run_moves d d lp Hlpd Hgone); [done|by apply Hout].
Qed.
End above.

(** ** The invariant *)
Lemma same_links_pairs h h' q : option_Forall2 same_but_links (h !! q) (h' !! q) → leaf_pairs h' q = leaf_pairs h q.
Proof.
  unfold leaf_pairs. intros H. destruct (h !! q) as [[]|], (h' !! q) as [[]|]; inversion H as [? ? Hn|]; try done.
  by destruct Hn as (-> & _).
Qed.

Lemma moves_route d ls' : root_node_ s' = root_node_ s → moves d (root_node_ s) → covers d (heap s') top (root_node_ s) ls' →
  (∃ ls, covers d (heap s) top (root_node_ s) ls) →
  ∀ key, 0 ≤ key ≤ top → ∃ q, route key s = Ret q ∧ route key s' = Ret (f key q).
Proof.
  intros Hroot Hm Hc' [ls Hc] key Hk. pose proof (lc_top Hlc) as Ht. rewrite !route_reach, Hroot. unfold depth_fuel.
  destruct (covers_reach _ s top _ _ (S (size (heap s))) key (covers_size _ _ _ _ _ Hc)) as (q & E & _); [lia..|].
  destruct (covers_reach _ s' top _ _ (S (size (heap s'))) key (covers_size _ _ _ _ _ Hc')) as (q' & E' & _); [lia..|].
  set (big := (d + S (size (heap s)) + S (size (heap s')))%nat). destruct (Hm big key) as (x & Ex & Ex'); [lia|done|].
  exists q. split; [done|]. rewrite E'. apply (reach_more _ big) in E; [|lia]. apply (reach_more _ big) in E'; [|lia]. congruence.
Qed.

(** The new leaves stand for the old ones. *)
Record stands_for (l1 l2 fresh : list Z) : Prop := {
  sf_root : root_node_ s' = root_node_ s;
  sf_nodup : NoDup (l1 ++ fresh ++ l2);
  sf_chain : chain (heap s') 0 (l1 ++ fresh ++ l2);
  sf_rest q : q ∈ l1 ++ l2 → option_Forall2 same_but_links (heap s !! q) (heap s' !! q);
  sf_wf q l : q ∈ fresh → heap s' !! q = Some (DataNode l) → node_wf (data l);
  sf_pairs : pairs (heap s') fresh = pairs (heap s) gone;
  sf_keys q q0 k : q ∈ fresh → k ∈ (leaf_pairs (heap s') q).*1 → q0 ∈ gone → k ∈ (leaf_pairs (heap s) q0).*1 → f k q0 = q
}.

Lemma local_change_ok d l1 l2 fresh :
  tree_ok top s (l1 ++ gone ++ l2) → stands_for l1 l2 fresh → covers d (heap s') top (root_node_ s) (l1 ++ fresh ++ l2) →
  (size (heap s) ≤ d)%nat → moves d (root_node_ s) →
  tree_ok top s' (l1 ++ fresh ++ l2) ∧ pairs (heap s') (l1 ++ fresh ++ l2) = pairs (heap s) (l1 ++ gone ++ l2) ∧
  (∀ key, 0 ≤ key ≤ top → ∃ q, route key s = Ret q ∧ route key s' = Ret (f key q)).
Proof.
  intros Hok Hsf Hc' Hd Hm. destruct Hsf as [Hroot Hnd Hch Hrest Hwf' Hpairs Hkeys]. pose proof Hok as [Hc Hnd0 _ Hwf Hrt Htop].
  pose proof (moves_route d _ Hroot Hm Hc' ltac:(exists (l1 ++ gone ++ l2); by eapply covers_le)) as Hroute.
  assert (∀ q, q ∈ l1 ++ l2 → leaf_pairs (heap s') q = leaf_pairs (heap s) q) as Hlp by (intros q Hq; by apply same_links_pairs, Hrest).
  assert (∀ q k, q ∈ l1 ++ gone ++ l2 → k ∈ (leaf_pairs (heap s) q).*1 → k ≤ top ∧ route k s' = Ret (f k q)) as Hmove.
  { intros q k Hq Hk. destruct (Hrt q k Hq Hk) as [Hkt Er]. pose proof (key_bounds _ _ _ q k Hok Hq Hk).
    destruct (Hroute k) as (q' & E1 & E2); [lia|]. split; [done|]. assert (q' = q) as -> by congruence. done. }
  split; [|split; [|done]]; [constructor|].
  - rewrite Hroot. by apply (covers_size d).
  - done.
  - done.
  - intros q lq Hq Eq. destruct (decide (q ∈ fresh)) as [Hf|Hf]; [by apply (Hwf' q)|].
    assert (q ∈ l1 ++ l2) as Hq12 by set_solver. pose proof (Hrest q Hq12) as Hs. rewrite Eq in Hs.
    destruct (heap s !! q) as [[lo|mo]|] eqn:Eo; inversion Hs as [? ? Hn|]; [|done]. destruct Hn as (<- & _).
    apply (Hwf q); [set_solver|done].
  - intros q k Hq Hk. destruct (decide (q ∈ fresh)) as [Hf|Hf].
    + assert (k ∈ (pairs (heap s) gone).*1) as Hkg.
      { rewrite <- Hpairs. apply list_elem_of_fmap in Hk as (kp & -> & Hk). apply list_elem_of_fmap. exists kp. split; [done|].
        apply list_elem_of_bind. by exists q. }
      apply list_elem_of_fmap in Hkg as (kp & -> & Hkg). apply list_elem_of_bind in Hkg as (q0 & Hkp & Hq0).
      assert (kp.1 ∈ (leaf_pairs (heap s) q0).*1) as Hk0 by (apply list_elem_of_fmap; by exists kp).
      destruct (Hmove q0 kp.1) as [Hkt ->]; [set_solver|done|]. split; [done|]. by rewrite (Hkeys q q0).
    + assert (q ∈ l1 ++ l2) as Hq12 by set_solver. rewrite Hlp in Hk by done.
      destruct (Hmove q k) as [Hkt ->]; [set_solver|done|]. split; [done|]. rewrite (lc_keys Hlc); [done|]. intros Hg.
      apply NoDup_app in Hnd0 as (_ & Hd1 & (_ & Hd2 & _)%NoDup_app). apply elem_of_app in Hq12 as [Hq1|Hq2]; [apply (Hd1 q); set_solver|by apply (Hd2 q)].
  - done.
  - rewrite !pairs_app, Hpairs. f_equal; [|f_equal]; apply pairs_ext; intros q Hq; apply Hlp; set_solver.
Qed.
End replace.
