(* ===== verification/AlexSplit.v ===== *)
(** * ALEX: splitting a leaf in two

    Where a leaf is cut ([lower_bound] with a [double], and the keys the model
    puts on the other side), what the two new leaves hold, and the tree behind
    the split. *)
From S2P Require Import Prelude Ieee IeeeMono IeeeLimit AlexBase AlexNode AlexOps AlexInv AlexSearch AlexLookup AlexBuild AlexCost AlexFanout AlexTree AlexTreeOps AlexEnds AlexRoute AlexTreeInv AlexTreeOk AlexTreeLookup AlexLink.

(** ** Keys compared with a [double] *)
Section order.
Implicit Types (k : Z) (x : double).

Lemma d_of_Z_parts k : 0 < k < 2 ^ 64 →
  ∃ m e, d_of_Z k = S754_finite false m e ∧ 2 ^ 52 ≤ Zpos m < 2 ^ 53 ∧ -52 ≤ e.
Proof.
  intros Hk. assert (0 < k < 2 ^ 900) as Hk' by (split; [lia|]; etrans; [apply Hk|]; by vm_compute).
  pose proof (Z.log2_nonneg k).
  destruct (d_of_Z_normal k Hk') as [(m & -> & Hm)|(m & -> & Hm)]; exists m; eexists; (split; [done|]); split; try lia;
    rewrite <- Hm at 1; pose proof (Z.log2_spec (Zpos m) ltac:(lia)) as Hs; rewrite Hm in Hs; rewrite ?Hm; lia.
Qed.

Lemma d_lt_antitone k k' x :
  0 ≤ k → k ≤ k' → k' < 2 ^ 64 → d_lt (d_of_Z k') x = true → d_lt (d_of_Z k) x = true.
Proof.
  intros H0 Hk H64. destruct (decide (k = k')) as [->|Hne]; [done|].
  destruct (d_of_Z_parts k' ltac:(lia)) as (m' & e' & E' & Hm' & He'). pose proof scale_eq.
  destruct (decide (k = 0)) as [->|Hpos].
  - rewrite E'. change (d_of_Z 0) with (S754_zero false). unfold d_lt, SFltb. by destruct x as [|[]| |[]].
  - destruct (d_of_Z_parts k ltac:(lia)) as (m & e & E & Hm & He).
    destruct (d_of_key k ltac:(lia)) as (_ & _ & V & _). destruct (d_of_key k' ltac:(lia)) as (_ & _ & V' & _).
    assert (sval (d_of_Z k) ≤ sval (d_of_Z k')) as Hv.
    { rewrite V, V'. apply rne_mono. split; [apply Z.mul_nonneg_nonneg; lia|apply Z.mul_le_mono_nonneg_r; lia]. }
    rewrite E, E', !sval_finite in Hv. unfold signed in Hv. rewrite !Z.mul_1_l in Hv.
    assert (e < e' ∨ (e = e' ∧ Zpos m ≤ Zpos m')) as Hlex.
    { destruct (Z.lt_trichotomy e e') as [?|[->|Hgt]]; [by left|right|exfalso].
      - split; [done|]. by apply (Z.mul_le_mono_pos_r _ _ (2 ^ (e' + scale))); [lia|].
      - assert (2 * 2 ^ (e' + scale) ≤ 2 ^ (e + scale)) as Hp.
        { rewrite <- Z.pow_succ_r by lia. apply Z.pow_le_mono_r; lia. }
        assert (0 < 2 ^ (e' + scale)) by lia. set (a := 2 ^ (e' + scale)) in *. set (b := 2 ^ (e + scale)) in *. clearbody a b. nia. }
    rewrite E, E'. unfold d_lt, SFltb. destruct x as [s|s| |s mx ex]; [done|by destruct s|done|]. cbn [SFcompare].
    destruct s; [done|]. destruct (Z.compare_spec e' ex); [subst|..]; destruct (Z.compare_spec e ex); subst; try done; try lia.
    rewrite !Pos.compare_cont_spec. destruct (Pos.compare_spec m' mx), (Pos.compare_spec m mx); cbn; done || lia.
Qed.

(** [lower_bound] with a [double]. *)
Lemma lower_bound_double_spec n x :
  node_ok n → ∃ pos n', lower_bound_double x n = Ret (pos, n') ∧ same_node n n' ∧ 0 ≤ pos ≤ data_capacity_ n ∧
    (∀ i, 0 ≤ i < pos → d_lt (d_of_Z (key_at (slots_ n) i)) x = true) ∧
    (∀ i, pos ≤ i < data_capacity_ n → d_lt (d_of_Z (key_at (slots_ n) i)) x = false).
Proof.
  intros Hok. pose proof (ok_capacity n Hok) as Hc. unfold lower_bound_double.
  pose proof (predict_position_range (d_to_u64 x) (add_lookup n)) as Hm. specialize (Hm ltac:(cbn; lia)).
  change (data_capacity_ (add_lookup n)) with (data_capacity_ n) in *. change (slots_ (add_lookup n)) with (slots_ n).
  set (m := predict_position (d_to_u64 x) (add_lookup n)) in *. clearbody m.
  destruct (node_ok_self n Hok) as [Hv Ha]. set (p := λ i, d_lt (d_of_Z (key_at (slots_ n) i)) x).
  assert (∀ i, 0 ≤ i < data_capacity_ n → 0 ≤ key_at (slots_ n) i < 2 ^ 64) as Hrange.
  { intros i Hi. destruct Ha as [Hg Hk].
    destruct (gap_next _ _ _ i Hg Hi) as [(j & Hj & Ej & Hx)|Hx].
    - destruct (Hx i ltac:(lia)) as [-> _]. pose proof (listing_key_range _ _ _ _ j Hk ltac:(lia) Ej).
      change kEndSentinel_ with (2 ^ 64 - 1) in *. lia.
    - destruct (Hx i ltac:(lia)) as [_ ->]. by vm_compute. }
  assert (∀ i j, 0 ≤ i → i ≤ j → j < data_capacity_ n → p j = true → p i = true) as Hmono.
  { unfold p. intros i j ???. apply d_lt_antitone; [apply Hrange; lia|by eapply keys_monotone|apply Hrange; lia]. }
  assert (∀ i, 0 ≤ i < data_capacity_ n →
    (let* k := rd (key_slots_ (slots_ n)) i in Ret (d_lt (d_of_Z k) x)) = Ret (p i)) as Hg.
  { intros i Hi. by rewrite (rd_key_view _ _ _ _ _ i Hv Hi), res_bind_ret. }
  assert (∀ i, 0 ≤ i < data_capacity_ n →
    (let* k := rd (key_slots_ (slots_ n)) i in Ret (negb (d_lt (d_of_Z k) x))) = Ret (negb (p i))) as Hge.
  { intros i Hi. by rewrite (rd_key_view _ _ _ _ _ i Hv Hi), res_bind_ret. }
  assert (∀ pos it, boundary p (data_capacity_ n) pos → ∃ pos' n', Ret (pos, with_iterations it (add_lookup n)) = Ret (pos', n') ∧
    same_node n n' ∧ 0 ≤ pos' ≤ data_capacity_ n ∧ (∀ i, 0 ≤ i < pos' → p i = true) ∧
    (∀ i, pos' ≤ i < data_capacity_ n → p i = false)) as Hdone.
  { intros pos it Hb. exists pos, (with_iterations it (add_lookup n)). split; [done|].
    split; [eapply same_node_trans; [apply same_node_lookup|apply same_node_iterations]|]. apply Hb. }
  rewrite (rd_key_view _ _ _ _ _ m Hv Hm), res_bind_ret. destruct (d_lt (d_of_Z (key_at (slots_ n) m)) x) eqn:Em; cbn [negb].
  - destruct (search_right p (λ b, let* k := rd (key_slots_ (slots_ n)) (m + b) in Ret (d_lt (d_of_Z k) x))
      (λ mid, let* k := rd (key_slots_ (slots_ n)) mid in Ret (d_lt (d_of_Z k) x))
      (data_capacity_ n) m (num_exp_search_iterations_ (counters_ (add_lookup n)))) as (b & it & pos & E1 & E2 & Hb);
      [done|lia|done|intros; apply Hg; lia|done|done|].
    rewrite E1, res_bind_ret, E2, res_bind_ret. by apply Hdone.
  - destruct (search_left p (λ b, let* k := rd (key_slots_ (slots_ n)) (m - b) in Ret (negb (d_lt (d_of_Z k) x)))
      (λ mid, let* k := rd (key_slots_ (slots_ n)) mid in Ret (d_lt (d_of_Z k) x))
      (data_capacity_ n) m (num_exp_search_iterations_ (counters_ (add_lookup n)))) as (b & it & pos & E1 & E2 & Hb);
      [done|lia|done|intros; apply Hge; lia|done|done|].
    rewrite E1, res_bind_ret, E2, res_bind_ret. by apply Hdone.
Qed.
End order.

(** ** Where a leaf is cut *)
Section cut.
Context (pm : LinearModel) (top bucket : Z).
Context (Hm : monotone pm) (Hfit : fits_int (predict_double top pm)) (Htop : top < 2 ^ 64) (Hb : 0 < bucket).
Implicit Types (n : AlexDataNode) (k b : Z).

Lemma predict_above k k' : 0 ≤ k → k ≤ k' → k' ≤ top → bucket ≤ predict k pm → bucket ≤ predict k' pm.
Proof.
  intros H0 Hk Ht Hp. assert (Z.max (predict k pm) 0 ≤ Z.max (predict k' pm) 0); [|lia]. unfold predict.
  apply d_to_int_mono; [apply predict_double_rounded; [done|lia]..|apply predict_double_mono; [done|lia..]|].
  apply (fits_int_le pm k' top); [done|lia|lia|lia|done].
Qed.

(** The last slot is a gap behind all keys. *)
Definition ends_in_gap n : Prop := key_at (slots_ n) (data_capacity_ n - 1) = kEndSentinel_.

Lemma move_right_spec n : node_ok n → (∀ k, k ∈ (contents n).*1 → k ≤ top) → ∀ fuel b moved,
  0 ≤ b ≤ data_capacity_ n → data_capacity_ n - b < Z.of_nat fuel →
  ∃ b' moved', move_right fuel pm bucket n b moved = Ret (b', moved') ∧ b ≤ b' ≤ data_capacity_ n ∧
    (∀ kp, kp ∈ between n b b' → predict kp.1 pm < bucket) ∧
    (∀ kp, kp ∈ between n b' (data_capacity_ n) → bucket ≤ predict kp.1 pm) ∧
    (ends_in_gap n → b < data_capacity_ n → b' < data_capacity_ n) ∧
    moved' = moved + Z.of_nat (length (between n b b')).
Proof.
  intros Hok Hkt. destruct (node_ok_self n Hok) as [Hv Ha]. pose proof Ha as [Hg Hk].
  assert (∀ i, 0 ≤ i < data_capacity_ n → ex (bitmap_ (slots_ n)) i = true → 0 ≤ key_at (slots_ n) i ≤ top ∧ key_at (slots_ n) i < kEndSentinel_) as Hki.
  { intros i Hi Ei. pose proof (listing_key_range _ _ _ _ i Hk Hi Ei). split; [|lia]. split; [lia|]. apply Hkt.
    apply list_elem_of_fmap. exists (key_at (slots_ n) i, pay_at (slots_ n) i). split; [done|]. apply elem_of_listing. by exists i. }
  induction fuel as [|fuel IH]; intros b moved Hbr Hf; [lia|]. cbn [move_right].
  case_bool_decide as Hlt; [|exists b, moved; split; [done|]; split; [lia|]; unfold between;
    rewrite !listing_nil by lia; split; [|split; [|split; [lia|cbn; lia]]]; intros kp []%not_elem_of_nil].
  rewrite (rd_key_view _ _ _ _ _ b Hv), res_bind_ret by lia.
  assert (∀ kp, kp ∈ between n b (data_capacity_ n) → ∃ i, b ≤ i < data_capacity_ n ∧ ex (bitmap_ (slots_ n)) i = true ∧ kp.1 = key_at (slots_ n) i) as Hin
    by (intros kp (i & Hi & Ei & ->)%elem_of_listing; by exists i).
  destruct (bool_decide (key_at (slots_ n) b ≠ kEndSentinel_)) eqn:Es; cbn [andb].
  - apply bool_decide_eq_true in Es. case_bool_decide as Hp.
    + destruct (next_of n n b (same_node_refl n) Hok) as (j & -> & Hbj & Hgap & Hej); [lia|by left|]. rewrite res_bind_ret.
      destruct (gap_next _ _ _ b Hg ltac:(lia)) as [(j' & Hj' & Ej' & Hx)|Hx]; [|destruct (Hx b ltac:(lia)); congruence].
      assert (j = j') as <-.
      { destruct (Z.lt_trichotomy j j') as [Hl|[?|Hl]]; [|done|].
        - rewrite (proj2 (Hx j ltac:(lia)) Hl) in Hej. assert (false = true) by (apply Hej; lia). done.
        - rewrite (Hgap j') in Ej' by lia. done. }
      destruct (IH (Z.min (j + 1) (data_capacity_ n)) (moved + 1)) as (b' & moved' & -> & Hb' & Hlo & Hhi & Hend & Hcnt); [lia|lia|].
      assert (between n b (j + 1) = [(key_at (slots_ n) j, pay_at (slots_ n) j)]) as Hone.
      { unfold between. rewrite (listing_app _ _ _ b j), (listing_gaps _ _ _ b j), listing_one, Ej' by (lia || (intros i Hi; apply (proj2 (Hx i ltac:(lia))); lia)). done. }
      rewrite Z.min_l in * by lia.
      exists b', moved'. split; [done|]. split; [lia|]. split; [|split; [done|split]].
      2:{ intros Hg' _. apply Hend; [done|].
        destruct (decide (j = data_capacity_ n - 1)) as [Ej|]; [|lia]. destruct (Hki j ltac:(lia) Ej') as [_ Hkj].
        unfold ends_in_gap in Hg'. rewrite Ej, Hg' in Hkj. lia. }
      2:{ rewrite Hcnt. unfold between in *. rewrite (listing_app _ _ _ b (j + 1)), length_app, Hone by lia. cbn [length]. lia. }
      intros kp. unfold between. rewrite (listing_app _ _ _ b (j + 1)), elem_of_app by lia. intros [(i & Hi & Ei & ->)%elem_of_listing|?]; [|by apply Hlo].
      cbn. assert (i = j) as ->; [|by rewrite <- (proj1 (Hx b ltac:(lia)))].
      destruct (decide (i = j)); [done|]. rewrite (proj2 (Hx i ltac:(lia)) ltac:(lia)) in Ei. done.
    + exists b, moved. split; [done|]. split; [lia|]. assert (between n b b = []) as -> by (apply listing_nil; lia).
      split; [intros kp []%not_elem_of_nil|]. split; [|split; [done|cbn; lia]]. intros kp (i & Hi & Ei & ->)%Hin.
      destruct (gap_next _ _ _ b Hg ltac:(lia)) as [(j & Hj & Ej & Hx)|Hx]; [|destruct (Hx b ltac:(lia)); congruence].
      rewrite (proj1 (Hx b ltac:(lia))) in Hp. destruct (Hki j ltac:(lia) Ej). destruct (Hki i ltac:(lia) Ei).
      apply (predict_above (key_at (slots_ n) j)); [lia| |lia|lia].
      destruct (decide (i < j)); [rewrite (proj2 (Hx i ltac:(lia)) ltac:(lia)) in Ei; done|].
      apply (keys_monotone (data_capacity_ n) _ (pay_at (slots_ n)) (ex (bitmap_ (slots_ n)))); [done|lia..].
  - apply bool_decide_eq_false, dec_stable in Es. exists b, moved. split; [done|]. split; [lia|]. assert (between n b b = []) as -> by (apply listing_nil; lia).
    split; [intros kp []%not_elem_of_nil|]. split; [|split; [done|cbn; lia]]. intros kp (i & Hi & Ei & ->)%Hin. exfalso. destruct (Hki i ltac:(lia) Ei).
    assert (key_at (slots_ n) b ≤ key_at (slots_ n) i); [|lia].
    apply (keys_monotone (data_capacity_ n) _ (pay_at (slots_ n)) (ex (bitmap_ (slots_ n)))); [done|lia..].
Qed.

(** The models put no key left of the boundary behind it. *)
Definition clean (x : double) n : Prop :=
  ∀ k, k ∈ (contents n).*1 → d_lt (d_of_Z k) x = true → predict k pm < bucket.

Lemma cut_spec x n :
  node_ok n → (∀ k, k ∈ (contents n).*1 → k ≤ top) → clean x n →
  ∃ pos n' b moved, lower_bound_double x n = Ret (pos, n') ∧ same_node n n' ∧
    move_right (keys_fuel n') pm bucket n' pos 0 = Ret (b, moved) ∧ 0 ≤ b ≤ data_capacity_ n ∧
    (∀ kp, kp ∈ between n 0 b → predict kp.1 pm < bucket) ∧
    (∀ kp, kp ∈ between n b (data_capacity_ n) → bucket ≤ predict kp.1 pm) ∧
    (ends_in_gap n → d_lt (d_of_Z kEndSentinel_) x = false → b < data_capacity_ n).
Proof.
  intros Hok Hkt Hclean. destruct (lower_bound_double_spec n x Hok) as (pos & n' & E & Hs & Hp & Hlo & _).
  destruct (same_node_ok n n' Hs Hok) as [Hok' Hc'].
  assert (data_capacity_ n' = data_capacity_ n ∧ ∀ a b, between n' a b = between n a b) as [Hcap Hbet] by (by destruct Hs as [c ->]).
  destruct (move_right_spec n' Hok' ltac:(by rewrite Hc') (keys_fuel n') pos 0) as (b & moved & Em & Hb1 & H1 & H2 & H3 & _);
    [lia|unfold keys_fuel; lia|].
  exists pos, n', b, moved. split; [done|]. split; [done|]. split; [done|]. split; [lia|].
  split; [|split; [intros kp; by rewrite <- Hbet, <- Hcap; apply H2|]].
  2:{ intros Hgap Hx. rewrite <- Hcap. pose proof (ok_capacity n Hok). apply H3; [unfold ends_in_gap; by rewrite Hcap; destruct Hs as [c ->]|].
      destruct (decide (pos ≤ data_capacity_ n - 1)) as [?|Hgt]; [lia|]. rewrite <- Hgap, (Hlo (data_capacity_ n - 1)) in Hx by lia. done. }
  intros kp. unfold between.
  rewrite (listing_app _ _ _ 0 pos), elem_of_app by lia. intros [(i & Hi & Ei & ->)%elem_of_listing|Hkp].
  - cbn. apply Hclean; [|apply Hlo; lia]. apply list_elem_of_fmap. exists (key_at (slots_ n) i, pay_at (slots_ n) i). split; [done|].
    apply elem_of_listing. exists i. split; [lia|done].
  - apply H1. by rewrite Hbet.
Qed.
End cut.

(** ** The new leaves *)
Section leaves.
Context (junk : Z → Z) (log2 : double → double) (max_data_node_slots : Z).
Implicit Types (n : AlexDataNode) (s : Alex) (p q : Z) (m : ModelNode).

(** The iterator ends, so the cost is computed. *)
Lemma cost_loop_total n : node_ok n → ∀ fuel it pos a b,
  it_on n it pos → 0 ≤ pos → (length (between n pos (data_capacity_ n)) < fuel)%nat →
  ∃ r, cost_loop log2 fuel n it a b = Ret r.
Proof.
  intros Hok. pose proof (node_ok_iterable n Hok) as Hit.
  induction fuel as [|fuel IH]; intros it pos a b Hon Hpos Hf; [lia|]. cbn [cost_loop].
  pose proof (it_on_between n it pos (data_capacity_ n) Hon Hpos ltac:(lia)) as Hb. unfold it_in in Hb.
  destruct (is_end it) eqn:Ee; [by eexists|]. unfold is_end in Ee. apply bool_decide_eq_false in Ee.
  assert (cur_idx_ it < data_capacity_ n) as Hc by (destruct Hon as [[_ ?]|(? & _)]; [done|lia]).
  rewrite (bool_decide_eq_true_2 (_ < _)) in Hb by done. cbn [negb andb] in Hb. destruct Hb as [Hp Hb].
  destruct (it_on_read n it pos Hit Hon Hpos Ee) as [-> _]. rewrite res_bind_ret.
  destruct (it_next_on n it pos Hit Hpos Hon Ee) as (it' & -> & Hon'). rewrite res_bind_ret.
  apply (IH it' (cur_idx_ it + 1)); [done|lia|]. rewrite Hb in Hf. cbn [length] in Hf. lia.
Qed.

Lemma compute_expected_cost_total frac n :
  node_ok n → ∃ c x y, compute_expected_cost log2 frac n = Ret (c, with_expected x y n).
Proof.
  intros Hok. pose proof (ok_capacity n Hok). unfold compute_expected_cost. case_bool_decide.
  - exists (d_of_Z 0), (expected_avg_exp_search_iterations_ n), (expected_avg_shifts_ n). by destruct n.
  - destruct (it_initialize_on n 0 (node_ok_iterable n Hok)) as (it & -> & Hon); [lia|]. rewrite res_bind_ret.
    destruct (cost_loop_total n Hok (keys_fuel n) it 0 search_acc0 shifts_acc0 Hon) as ([a b] & ->); [lia|apply between_fuel; lia|].
    rewrite res_bind_ret. by eexists _, _, _.
Qed.

(** Arrays just made: they take another pair before they have to grow. *)
Definition newborn n : Prop := node_wf n ∧ roomy n ∧ num_inserts_ (counters_ n) = 0 ∧ num_keys_ n ≤ 2 ^ 26.

(** A leaf with such arrays. *)
Definition born (s : Alex) (p : Z) : Prop := ∃ l : Leaf, heap s !! p = Some (DataNode l) ∧ newborn (data l).

(** It may be given costs. *)
Lemma newborn_dressed n cost x y : newborn n → newborn (with_expected x y (with_cost cost n)).
Proof. intros ([[] Ht] & Hr & Hi & Hn). split; [split; [by constructor|done]|done]. Qed.

Lemma part_spec n left right keep_left keep_right pm pc :
  node_ok n → num_keys_ n ≤ 2 ^ 26 → 0 ≤ left < data_capacity_ n → left ≤ right → right ≤ data_capacity_ n → counted n left right pm pc →
  ∃ n1, bulk_load_from_existing junk n left right keep_left keep_right pm pc (node_new 1048576) = Ret n1 ∧
    newborn n1 ∧ contents n1 = between n left right.
Proof.
  intros Hok Hn Hl Hlr Hr Hpm. assert (Z.of_nat (length (between n left right)) ≤ 2 ^ 26) as Hlen.
  { pose proof (ok_count n Hok) as Hcount. unfold contents in Hcount. unfold between.
    rewrite (listing_app _ _ _ 0 left), (listing_app _ _ _ left right), !length_app in Hcount by lia. lia. }
  destruct (bulk_load_from_existing_spec junk n left right keep_left keep_right pm pc (node_new 1048576)) as (n1 & E & Hwf & Hc & Hroom & Hcnt); [done..| |].
  { apply capacity_for_bound; [lia|apply min_density_within]. }
  exists n1. split; [done|]. split; [|done]. split; [done|]. split; [done|]. rewrite Hcnt. split; [done|].
  by rewrite (ok_count n1 (proj1 Hwf)), Hc.
Qed.

Lemma new_leaf_spec n left right reuse_model keep_left keep_right s :
  node_ok n → num_keys_ n ≤ 2 ^ 26 → 0 ≤ left < data_capacity_ n → left ≤ right → right ≤ data_capacity_ n →
  ∃ nd, bulk_load_leaf_node_from_existing junk log2 max_data_node_slots n left right true None reuse_model keep_left keep_right s =
      Ret (new_leaf nd (add_nodes 0 1 s)) ∧ newborn nd ∧ contents nd = between n left right.
Proof.
  intros Hok Hn Hl Hlr Hr. unfold bulk_load_leaf_node_from_existing.
  match goal with |- context [mbind (M := res) ?k ?x] =>
    assert (∃ n1, x = Ret n1 ∧ newborn n1 ∧ contents n1 = between n left right) as (n1 & -> & Hwf & Hc) end.
  { destruct reuse_model; [|by apply part_spec]. rewrite num_keys_in_range_spec, res_bind_ret by lia || done. by apply part_spec. }
  rewrite res_bind_ret. destruct (compute_expected_cost_total (frac_inserts n) (with_max_slots max_data_node_slots n1)) as (c & x & y & ->).
  { destruct Hwf as [[[] _] _]. by constructor. }
  rewrite !res_bind_ret. eexists. split; [done|]. split; [|done]. destruct Hwf as ([[] Ht] & Hnew). split; [split; [by constructor|done]|done].
Qed.

(** A leaf that the plan has a model for. *)
Lemma planned_leaf_spec n left right t keep_left keep_right s :
  node_ok n → num_keys_ n ≤ 2 ^ 26 → 0 ≤ left < data_capacity_ n → left ≤ right → right ≤ data_capacity_ n →
  ft_num_keys t = Z.of_nat (length (between n left right)) →
  ∃ nd, bulk_load_leaf_node_from_existing junk log2 max_data_node_slots n left right false (Some t) false keep_left keep_right s =
      Ret (new_leaf nd (add_nodes 0 1 s)) ∧ newborn nd ∧ contents nd = between n left right.
Proof.
  intros Hok Hn Hl Hlr Hr Ht. unfold bulk_load_leaf_node_from_existing.
  destruct (part_spec n left right keep_left keep_right (Some (mkModel (ft_a t) (ft_b t))) (ft_num_keys t)) as (n1 & -> & Hwf & Hc); [done..|].
  rewrite !res_bind_ret. eexists. split; [done|]. split; [|done]. destruct Hwf as ([[] Hth] & Hnew). split; [split; [by constructor|done]|done].
Qed.

(** ** The pointers of the parent *)
Definition overwrite (a b p : Z) (c : list (option Z)) : list (option Z) :=
  take (Z.to_nat a) c ++ replicate (Z.to_nat (b - a)) (Some p) ++ drop (Z.to_nat b) c.

Lemma overwrite_length a b p c :
  0 ≤ a → a ≤ b → b ≤ Z.of_nat (length c) → length (overwrite a b p c) = length c.
Proof. intros. unfold overwrite. rewrite !length_app, length_take, length_replicate, length_drop. lia. Qed.

Lemma overwrite_step a i p c :
  0 ≤ a → a ≤ i → i < Z.of_nat (length c) → <[Z.to_nat i := Some p]> (overwrite a i p c) = overwrite a (i + 1) p c.
Proof.
  intros Ha Hi Hc. unfold overwrite. destruct (lookup_lt_is_Some_2 c (Z.to_nat i)) as [y Hy]; [lia|].
  rewrite (drop_S c y (Z.to_nat i) Hy).
  assert (length (take (Z.to_nat a) c ++ replicate (Z.to_nat (i - a)) (Some p)) = Z.to_nat i) as Hlen
    by (rewrite length_app, length_take, length_replicate; lia).
  rewrite app_assoc. rewrite <- Hlen at 1. rewrite <- (Nat.add_0_r (length _)), insert_app_r. cbn [insert list_insert].
  rewrite <- app_assoc. f_equal. replace (Z.to_nat (i + 1 - a)) with (S (Z.to_nat (i - a))) by lia.
  rewrite replicate_S_end, <- app_assoc. cbn. do 3 f_equal. lia.
Qed.

Lemma overwrite_lookup a b p c i :
  0 ≤ a → a ≤ b → b ≤ Z.of_nat (length c) → 0 ≤ i →
  overwrite a b p c !! Z.to_nat i = if bool_decide (a ≤ i < b) then Some (Some p) else c !! Z.to_nat i.
Proof.
  intros Ha Hab Hb Hi. unfold overwrite. assert (length (take (Z.to_nat a) c) = Z.to_nat a) as Hl by (rewrite length_take; lia).
  case_bool_decide as Hin.
  - rewrite lookup_app_r, Hl, lookup_app_l by (rewrite ?length_replicate; lia). apply lookup_replicate_2. lia.
  - destruct (decide (i < a)) as [Hlt|Hge].
    + rewrite lookup_app_l, lookup_take_lt by lia. done.
    + rewrite lookup_app_r, lookup_app_r, lookup_drop, Hl, length_replicate by (rewrite ?length_replicate; lia). f_equal. lia.
Qed.

Lemma set_children_spec a b p parent m s :
  heap s !! parent = Some (ModelN m) → 0 ≤ a → a ≤ b → b ≤ Z.of_nat (length (children_ m)) →
  set_children a b p parent s = Ret (set_model parent (with_children (overwrite a b p (children_ m)) m) s).
Proof.
  intros Em Ha Hab Hb. unfold set_children. rewrite (get_model_node _ _ _ Em), res_bind_ret.
  destruct (for_up_ind (λ i m', m' = with_children (overwrite a i p (children_ m)) m) (λ i, set_child i p) a b m Hab) as (m' & -> & ->).
  - unfold overwrite. rewrite Z.sub_diag. change (replicate _ _) with (@nil (option Z)). cbn [app]. rewrite take_drop. by destruct m.
  - intros i m' Hi ->. unfold set_child, wr. cbn [children_ with_children].
    rewrite overwrite_length, bool_decide_eq_true_2, overwrite_step by lia. eexists. split; [done|]. done.
  - done.
Qed.
End leaves.

(** ** Two leaves for one *)
(** Addresses: 0 is null, those from [next_addr] on are free. *)
Definition heap_ok (s : Alex) : Prop :=
  0 < next_addr s ∧ heap s !! 0 = None ∧ ∀ q, next_addr s ≤ q → heap s !! q = None.

Lemma heap_ok_lt s p x : heap_ok s → heap s !! p = Some x → p < next_addr s.
Proof. intros (_ & _ & Hf) E. destruct (Z.lt_ge_cases p (next_addr s)) as [?|Hge]; [done|]. by rewrite (Hf p Hge) in E. Qed.

Section two.
Context (junk : Z → Z) (log2 : double → double) (max_data_node_slots top : Z).
Implicit Types (n : AlexDataNode) (s : Alex) (p q : Z) (m : ModelNode).

Definition middle (start dup : Z) : Z := start + Z.shiftl 1 dup / 2.

(** Where a leaf is cut without a plan: the models put no key left of the middle
    behind it, and there is a slot for the right part to start in. *)
Definition middle_cut (m : ModelNode) n (start dup : Z) : Prop :=
  let mid := middle start dup in let x := bucket_boundary mid (mn_model m) in
  clean (mn_model m) mid x n ∧
  ((∃ k, k ∈ (contents n).*1 ∧ mid ≤ predict k (mn_model m)) ∨ ends_in_gap n ∧ d_lt (d_of_Z kEndSentinel_) x = false).
(** And with a plan of two parts. *)
Definition planned_cut (nodes : list FTNode) (m : ModelNode) n (start dup : Z) : Prop :=
  ∃ t1 t2, nodes = [t1; t2] ∧ (∀ kp, kp ∈ between n 0 (ft_right_boundary t1) → predict kp.1 (mn_model m) < middle start dup) ∧
    ((∃ k, k ∈ (contents n).*1 ∧ middle start dup ≤ predict k (mn_model m)) ∨
     ends_in_gap n ∧ ft_right_boundary t1 < data_capacity_ n).

(** The leaf [l] under [m], with [2 ^ dup] buckets from [start] on, can be cut
    in two. *)
Record cuttable (nodes : list FTNode) (m : ModelNode) (l : Leaf) (start dup : Z) : Prop := {
  sp_node : node_ok (data l);
  sp_count : num_keys_ (data l) ≤ 2 ^ 26;
  sp_keys k : k ∈ (contents (data l)).*1 → k ≤ top;
  sp_top : top < 2 ^ 64;
  sp_model : model_ok top m;
  sp_start : 0 ≤ start;
  sp_dup : 1 ≤ dup < 256;
  sp_room : start + 2 ^ dup ≤ Z.of_nat (length (children_ m));
  sp_cut : match nodes with [] => middle_cut m (data l) start dup | _ => planned_cut nodes m (data l) start dup end
}.

(** The parts of a plan meet at a slot, and it counts their keys. *)
Definition parts (t1 t2 : FTNode) n : Prop :=
  ft_level t1 = 1 ∧ ft_level t2 = 1 ∧ 0 ≤ ft_right_boundary t1 ≤ data_capacity_ n ∧ ft_right_boundary t2 = data_capacity_ n ∧
  ft_num_keys t1 = Z.of_nat (length (between n 0 (ft_right_boundary t1))) ∧
  ft_num_keys t2 = Z.of_nat (length (between n (ft_right_boundary t1) (data_capacity_ n))).
Definition well_planned (nodes : list FTNode) n : Prop := ∀ t1 t2, nodes = [t1; t2] → parts t1 t2 n.

(** So it can be split. *)
Record splittable (nodes : list FTNode) (m : ModelNode) (l : Leaf) (start dup : Z) : Prop := {
  sp_cuttable :> cuttable nodes m l start dup;
  sp_planned : well_planned nodes (data l)
}.

Lemma middle_eq start dup : 1 ≤ dup → middle start dup = start + 2 ^ (dup - 1) ∧ start + 2 ^ dup = middle start dup + 2 ^ (dup - 1).
Proof.
  intros Hd. unfold middle. rewrite Z.shiftl_1_l. assert (2 ^ dup = 2 ^ (dup - 1) * 2) as ->; [|rewrite Z.div_mul by lia; lia].
  rewrite Z.mul_comm, <- Z.pow_succ_r by lia. f_equal. lia.
Qed.

Lemma cut_short (pm : LinearModel) n mid b : 0 ≤ b ≤ data_capacity_ n → (∀ kp, kp ∈ between n 0 b → predict kp.1 pm < mid) →
  (∃ k, k ∈ (contents n).*1 ∧ mid ≤ predict k pm) → b < data_capacity_ n.
Proof.
  intros Hb Hlo (kr & (kp & -> & Hkp)%list_elem_of_fmap & Hpr). unfold contents in Hkp.
  rewrite (listing_app _ _ _ 0 b), elem_of_app in Hkp by lia. destruct Hkp as [Hkp|Hkp]; [specialize (Hlo kp Hkp); lia|].
  destruct (decide (b < data_capacity_ n)); [done|]. rewrite listing_nil in Hkp by lia. by apply not_elem_of_nil in Hkp.
Qed.

(** Where the leaf is cut; the search only counts. *)
Lemma cut_leaf m l start dup : splittable [] m l start dup →
  let n := data l in let mid := middle start dup in
  ∃ pos n' b moved, lower_bound_double (bucket_boundary mid (mn_model m)) n = Ret (pos, n') ∧
    move_right (keys_fuel n') (mn_model m) mid n' pos 0 = Ret (b, moved) ∧ same_node n n' ∧ 0 ≤ b < data_capacity_ n ∧
    (∀ kp, kp ∈ between n 0 b → predict kp.1 (mn_model m) < mid) ∧
    (∀ kp, kp ∈ between n b (data_capacity_ n) → mid ≤ predict kp.1 (mn_model m)).
Proof.
  intros [[Hok Hcount Hkeys Htop [Hmono Hfit] Hst Hd Hroom [Hclean Hright]] _] n mid.
  destruct (middle_eq start dup (proj1 Hd)) as [Emid Eend]. fold mid in Emid. assert (0 < 2 ^ (dup - 1)) as Hpow by lia.
  destruct (cut_spec (mn_model m) top mid Hmono Hfit Htop ltac:(lia) (bucket_boundary mid (mn_model m)) n Hok Hkeys Hclean)
    as (pos & n' & b & moved & Elb & Hsame & Emr & Hb & Hlo & Hhi & Hend).
  exists pos, n', b, moved. do 3 (split; [done|]). split; [|done]. split; [lia|].
  destruct Hright as [Hk|[Hg Hx]]; [by apply (cut_short (mn_model m) n mid)|by apply Hend].
Qed.

(** The same with a plan, whose counts are corrected by the keys that move. *)
Lemma cut_planned nodes m l start dup : splittable nodes m l start dup → nodes ≠ [] →
  let n := data l in let mid := middle start dup in
  ∃ t1 t2 b moved, nodes = [t1; t2] ∧ ft_level t1 = 1 ∧ ft_level t2 = 1 ∧ ft_right_boundary t2 = data_capacity_ n ∧
    move_right (keys_fuel n) (mn_model m) mid n (ft_right_boundary t1) 0 = Ret (b, moved) ∧ 0 ≤ b < data_capacity_ n ∧
    ft_num_keys t1 - 0 + moved = Z.of_nat (length (between n 0 b)) ∧
    ft_num_keys t2 - moved + 0 = Z.of_nat (length (between n b (data_capacity_ n))) ∧
    (∀ kp, kp ∈ between n 0 b → predict kp.1 (mn_model m) < mid) ∧
    (∀ kp, kp ∈ between n b (data_capacity_ n) → mid ≤ predict kp.1 (mn_model m)).
Proof.
  intros [[Hok Hcount Hkeys Htop [Hmono Hfit] Hst Hd Hroom Hcut] Hplan] Hne n mid.
  assert (planned_cut nodes m n start dup) as (t1 & t2 & -> & Hclean & Hright) by (by destruct nodes).
  destruct (Hplan t1 t2 eq_refl) as (L1 & L2 & Hr & Hr2 & N1 & N2). fold n in Hr, Hr2, N1, N2.
  destruct (middle_eq start dup (proj1 Hd)) as [Emid Eend]. fold mid in Emid, Hclean, Hright. assert (0 < 2 ^ (dup - 1)) as Hpow by lia.
  destruct (move_right_spec (mn_model m) top mid Hmono Hfit Htop ltac:(lia) n Hok Hkeys (keys_fuel n) (ft_right_boundary t1) 0 Hr)
    as (b & moved & E & Hb & H1 & H2 & Hend & Hmv); [unfold keys_fuel; lia|].
  assert (∀ kp, kp ∈ between n 0 b → predict kp.1 (mn_model m) < mid) as Hlo.
  { intros kp. unfold between. rewrite (listing_app _ _ _ 0 (ft_right_boundary t1)), elem_of_app by lia. intros [?|?]; [by apply Hclean|by apply H1]. }
  exists t1, t2, b, moved. do 5 (split; [done|]). split; [|split; [|split; [|done]]].
  - split; [lia|]. destruct Hright as [Hk|[Hg Hx]]; [apply (cut_short (mn_model m) n mid); done || lia|by apply Hend].
  - rewrite N1, Hmv. unfold between. rewrite (listing_app _ _ _ 0 (ft_right_boundary t1) b), length_app by lia. lia.
  - rewrite N2, Hmv. unfold between. rewrite (listing_app _ _ _ (ft_right_boundary t1) b), length_app by lia. lia.
Qed.

(** Two new leaves share out what [l] holds. *)
Definition two_leaves s l1 old l2 parent l m start dup (r : res Alex) : Prop :=
  let L := next_addr s in let R := next_addr s + 1 in
  ∃ h' lL lR, r = Ret (mkAlex h' (next_addr s + 2) (root_node_ s) (superroot_ s) (stats_ (add_nodes 0 2 s)) (istats_ s)) ∧
    chain h' 0 (l1 ++ L :: R :: l2) ∧
    h' !! parent = Some (ModelN (with_children (overwrite (middle start dup) (start + 2 ^ dup) R
                                                  (overwrite start (middle start dup) L (children_ m))) m)) ∧
    h' !! L = Some (DataNode lL) ∧ h' !! R = Some (DataNode lR) ∧ is_Some (h' !! old) ∧
    leaf_duplication_factor_ lL = u8 (dup - 1) ∧ leaf_duplication_factor_ lR = u8 (dup - 1) ∧
    newborn (data lL) ∧ newborn (data lR) ∧ contents (data l) = contents (data lL) ++ contents (data lR) ∧
    (∀ k, k ∈ (contents (data lL)).*1 → predict k (mn_model m) < middle start dup) ∧
    (∀ k, k ∈ (contents (data lR)).*1 → middle start dup ≤ predict k (mn_model m)) ∧
    (∀ q, q ≠ old → q ≠ parent → q ≠ L → q ≠ R → option_Forall2 same_but_links (heap s !! q) (h' !! q)).

Lemma create_two_spec s l1 old l2 parent l m start dup reuse_model :
  heap_ok s → chain (heap s) 0 (l1 ++ old :: l2) → NoDup (l1 ++ old :: l2) →
  heap s !! old = Some (DataNode l) → heap s !! parent = Some (ModelN m) → splittable [] m l start dup →
  two_leaves s l1 old l2 parent l m start dup (create_two_new_data_nodes junk log2 max_data_node_slots old parent dup reuse_model start s).
Proof.
  intros Hh Hc Hnd El Em Hsp. unfold two_leaves. set (L := next_addr s). set (R := next_addr s + 1). pose proof Hh as (Hna & H0 & Hfresh).
  destruct (cut_leaf m l start dup Hsp) as (pos & n' & b & moved & Elb & Emr & Hsame & Hb & Hlo & Hhi).
  destruct Hsp as [[Hok Hcount _ _ _ Hst Hd Hroom _] _]. destruct (middle_eq start dup (proj1 Hd)) as [Emid Eend].
  assert (0 < 2 ^ (dup - 1)) as Hpow by lia. set (mid := middle start dup) in *. destruct (same_node_ok _ _ Hsame Hok) as [Hok' Hc'].
  assert (data_capacity_ n' = data_capacity_ (data l) ∧ num_keys_ n' = num_keys_ (data l) ∧ ∀ x y, between n' x y = between (data l) x y)
    as (Ecap & Enum & Ebet) by (by destruct Hsame as [c ->]).
  assert (old ≠ L ∧ old ≠ R ∧ parent ≠ L ∧ parent ≠ R ∧ parent ≠ old) as (HoL & HoR & HpL & HpR & Hpo).
  { pose proof (heap_ok_lt _ _ _ Hh El). pose proof (heap_ok_lt _ _ _ Hh Em). unfold L, R. split_and!; [lia..|]. intros ->. congruence. }
  unfold create_two_new_data_nodes. rewrite (get_data_leaf _ _ _ El), res_bind_ret, (get_model_node _ _ _ Em), res_bind_ret.
  fold (middle start dup). fold mid. rewrite Elb, res_bind_ret. rewrite Emr, res_bind_ret.
  set (s1 := set_data old (with_data n' l) s).
  match goal with |- context [bulk_load_leaf_node_from_existing _ _ _ n' 0 b _ _ _ ?k1 ?k2 _] =>
    destruct (new_leaf_spec junk log2 max_data_node_slots n' 0 b reuse_model k1 k2 s1 Hok') as (nL & -> & HwL & HcL); [lia..|] end.
  rewrite res_bind_ret. unfold new_leaf at 1, alloc_node.
  set (s2 := mkAlex (<[_ := _]> _) _ _ _ _ _).
  match goal with |- context [bulk_load_leaf_node_from_existing _ _ _ n' b _ _ _ _ ?k1 ?k2 _] =>
    destruct (new_leaf_spec junk log2 max_data_node_slots n' b (data_capacity_ n') reuse_model k1 k2 s2 Hok') as (nR & -> & HwR & HcR); [lia..|] end.
  rewrite res_bind_ret. unfold new_leaf, alloc_node. set (s3 := mkAlex (<[_ := _]> _) _ _ _ _ _).
  change (next_addr (add_nodes 0 1 s1)) with L. change (next_addr (add_nodes 0 1 s2)) with R.
  change (start + Z.shiftl 1 dup) with (start + Z.shiftl 1 dup). rewrite Z.shiftl_1_l.
  assert (heap s3 = <[R := DataNode (mkLeaf nR 0 0 0 0)]> (<[L := DataNode (mkLeaf nL 0 0 0 0)]> (<[old := DataNode (with_data n' l)]> (heap s))))
    as E3 by done.
  assert (L ≠ R) as HLR by (unfold L, R; lia).
  set (place := with_place _ _).
  rewrite (modify_leaf_set s3 L place (mkLeaf nL 0 0 0 0)), res_bind_ret
    by (rewrite E3, lookup_insert_ne, lookup_insert_eq; congruence).
  set (s4 := set_data L _ s3).
  rewrite (modify_leaf_set s4 R place (mkLeaf nR 0 0 0 0)), res_bind_ret
    by (unfold s4; cbn [heap set_data set_node with_heap]; rewrite lookup_insert_ne, E3, lookup_insert_eq; congruence).
  set (s5 := set_data R _ s4).
  assert (heap s5 !! parent = Some (ModelN m)) as Em5.
  { unfold s5, s4. cbn [heap set_data set_node with_heap]. rewrite E3. by rewrite !lookup_insert_ne by congruence. }
  rewrite (set_children_spec start mid L parent m s5 Em5), res_bind_ret by lia.
  set (m1 := with_children _ m). set (s6 := set_model parent m1 s5).
  assert (heap s6 !! parent = Some (ModelN m1)) as Em6 by (unfold s6; cbn; by rewrite lookup_insert_eq).
  rewrite (set_children_spec mid (start + 2 ^ dup) R parent m1 s6 Em6), res_bind_ret
    by (unfold m1; cbn [children_ with_children]; rewrite ?overwrite_length; lia).
  set (m2 := with_children _ m1). set (s7 := set_model parent m2 s6).
  assert (∀ q, q ≠ old → q ≠ parent → q ≠ L → q ≠ R → heap s7 !! q = heap s !! q) as Hrest.
  { intros q ????. unfold s7, s6, s5, s4. cbn [heap set_model set_data set_node with_heap]. rewrite E3. by rewrite !lookup_insert_ne. }
  assert (heap s7 !! old = Some (DataNode (with_data n' l))) as E7o.
  { unfold s7, s6, s5, s4. cbn [heap set_model set_data set_node with_heap]. rewrite E3. rewrite !lookup_insert_ne, lookup_insert_eq by congruence. done. }
  assert (heap s7 !! L = Some (DataNode (place (mkLeaf nL 0 0 0 0)))) as E7L.
  { unfold s7, s6, s5, s4. cbn [heap set_model set_data set_node with_heap]. rewrite !lookup_insert_ne, lookup_insert_eq by congruence. done. }
  assert (heap s7 !! R = Some (DataNode (place (mkLeaf nR 0 0 0 0)))) as E7R.
  { unfold s7, s6, s5. cbn [heap set_model set_data set_node with_heap]. rewrite !lookup_insert_ne, lookup_insert_eq by congruence. done. }
  assert (heap s7 !! parent = Some (ModelN m2)) as E7p by (unfold s7; cbn; by rewrite lookup_insert_eq).
  assert (∀ p, p ∈ l1 ++ old :: l2 → p < next_addr s ∧ p ≠ parent) as Hin.
  { intros p (a & c & E)%list_elem_of_split. rewrite E in Hc. destruct (chain_at _ _ _ _ _ Hc) as (_ & lp & Ep & _).
    split; [by eapply heap_ok_lt|]. intros ->. congruence. }
  destruct (link_data_nodes_spec s7 l1 old l2 L R (place (mkLeaf nL 0 0 0 0)) (place (mkLeaf nR 0 0 0 0))) as (h' & -> & Hc7 & Hsb); [| |done|exact E7L|exact E7R|done| | |].
  { rewrite Hrest; [done|..]; intros E; rewrite E in H0; try congruence; unfold L, R in *; lia. }
  { apply (leaf_chain_frame (heap s)); [|done]. intros p lp Hp Ep. destruct (Hin p Hp) as [Hlt Hpp]. destruct (decide (p = old)) as [->|Hne].
    - exists (with_data n' l). split; [done|]. rewrite El in Ep. by injection Ep as <-.
    - exists lp. rewrite Hrest; [done|done|done|unfold L; lia|unfold R; lia]. }
  { intros Hp. destruct (Hin L Hp). unfold L in *. lia. }
  { intros Hp. destruct (Hin R Hp). unfold R in *. lia. }
  destruct (links_leaf _ _ _ _ Hsb E7L) as (lL & EL & DL & dL). destruct (links_leaf _ _ _ _ Hsb E7R) as (lR & ER & DR & dR).
  destruct (links_leaf _ _ _ _ Hsb E7o) as (lo & Eo & _). pose proof (links_model _ _ _ _ Hsb E7p) as Ep.
  exists h', lL, lR. rewrite DL, DR, dL, dR. cbn [data place with_place leaf_duplication_factor_].
  split; [|split; [done|split; [exact Ep|split; [done|split; [done|split; [by eexists|split; [done|split; [done|split; [done|split; [done|]]]]]]]]]].
  - unfold with_heap, s7, s6, s5, s4, s3, s2, s1. cbn. do 2 f_equal; [lia|]. unfold add_nodes, with_stats. cbn. f_equal; lia.
  - split; [|split; [|split; [|by intros q ????; rewrite <- (Hrest q) by done; apply Hsb]]].
    + rewrite HcL, HcR, !Ebet, Ecap. unfold contents, between. apply listing_app; lia.
    + intros k (kp & -> & Hkp)%list_elem_of_fmap. rewrite HcL, Ebet in Hkp. by apply Hlo.
    + intros k (kp & -> & Hkp)%list_elem_of_fmap. rewrite HcR, Ebet, Ecap in Hkp. by apply Hhi.
Qed.
End two.
