(* ===== verification/AlexSplitPlan.v ===== *)
(** * ALEX: two leaves by a plan

    [find_best_fanout_existing_node] changes nothing of the leaf but the counters
    of its searches.  [create_new_data_nodes] with the two nodes of a fanout plan
    leaves what [create_two_new_data_nodes] leaves, with models that were fitted
    before. *)
From S2P Require Import Prelude Ieee AlexBase AlexNode AlexOps AlexInv AlexSearch AlexLookup AlexBuild AlexCost AlexFanout AlexTree AlexTreeOps AlexRoute AlexTreeInv AlexTreeOk AlexLink AlexSplit.

(** ** The search for a fanout only counts *)
Lemma for_n_keeps {S} (P : S → Prop) (f : Z → S → res S) : (∀ i s s', P s → f i s = Ret s' → P s') →
  ∀ n i s s', P s → for_n n i f s = Ret s' → P s'.
Proof.
  intros Hf. induction n as [|n IH]; intros i s s' Hs; cbn [for_n]; [by intros [= <-]|].
  intros (s1 & E1 & E)%res_bind_Ret_inv. apply (IH _ _ _ (Hf _ _ _ Hs E1) E).
Qed.

Section plan.
Context (log2 : double → double).
Implicit Types (n node : AlexDataNode) (m : LinearModel).

Lemma existing_step_still n num_keys level m fanout i x x' :
  node_ok n → same_node n x.1.1.1 → existing_step log2 num_keys level m fanout i x = Ret x' → same_node n x'.1.1.1.
Proof.
  destruct x as [[[node nodes] cost] left]. cbn [fst]. intros Hok Hs. unfold existing_step. intros ([right node1] & E1 & E)%res_bind_Ret_inv.
  assert (same_node n node1) as Hs1.
  { destruct (bool_decide (i = fanout - 1)); [by injection E1 as _ <-|]. destruct (same_node_ok _ _ Hs Hok) as [Hok1 _].
    destruct (lower_bound_double_spec node (d_div (d_sub (d_of_Z (i + 1)) (b_ m)) (a_ m)) Hok1) as (pos & n' & E2 & Hs2 & _).
    rewrite E2 in E1. injection E1 as _ <-. by apply (same_node_trans _ node). }
  case_bool_decide; [by injection E as <-|]. apply res_bind_Ret_inv in E as (it & _ & E). apply res_bind_Ret_inv in E as ([b num] & _ & E).
  apply res_bind_Ret_inv in E as ([c st] & _ & E). by injection E as <-.
Qed.

Lemma grow_existing_still n num_keys total_keys base max_fanout : node_ok n → ∀ fuel fanout level node (x : search) r,
  same_node n node → grow_existing log2 fuel num_keys total_keys base fanout max_fanout level node x = Ret r → same_node n r.1.
Proof.
  intros Hok. induction fuel as [|fuel IH]; intros fanout level node x r Hs; cbn [grow_existing]; [done|]. case_bool_decide; [|by intros [= <-]].
  intros ([[[node' nodes] cost] y] & E1 & E)%res_bind_Ret_inv.
  assert (same_node n node') as Hs'.
  { apply (for_n_keeps (λ y : AlexDataNode * list FTNode * double * Z, same_node n y.1.1.1)) in E1; [done| |done]. intros. by eapply existing_step_still. }
  destruct (add_level _ _ _ _) as [x1|x1]; [by eapply IH|by injection E as <-].
Qed.

Lemma existing_node_still n pm bucket dup total max_fanout n' nodes depth :
  node_ok n → find_best_fanout_existing_node log2 pm bucket dup total max_fanout n = Ret (n', nodes, depth) → same_node n n'.
Proof.
  intros Hok E. unfold find_best_fanout_existing_node in E. apply res_bind_Ret_inv in E as ([node1 s1] & E1 & E). apply res_bind_Ret_inv in E as (t & _ & E).
  apply res_bind_Ret_inv in E as ([t1 x] & _ & E). injection E as <- _ _. apply (grow_existing_still n _ _ _ _ Hok) in E1; [done|apply same_node_refl].
Qed.

(** One part of a level. *)
Definition part_of n level i left right (t : FTNode) : Prop :=
  ft_level t = level ∧ ft_node_id t = i ∧ ft_right_boundary t = right ∧ ft_use t = false ∧
  ft_num_keys t = Z.of_nat (length (between n left right)).

Lemma existing_step_part n num_keys level m fanout i node nodes cost left x' :
  node_ok n → same_node n node → 0 ≤ left ≤ data_capacity_ n → (left = data_capacity_ n → i = fanout - 1) →
  existing_step log2 num_keys level m fanout i (node, nodes, cost, left) = Ret x' →
  same_node n x'.1.1.1 ∧ 0 ≤ x'.2 ≤ data_capacity_ n ∧ (i = fanout - 1 → x'.2 = data_capacity_ n) ∧
  ∃ t, x'.1.1.2 = nodes ++ [t] ∧ part_of n level i left x'.2 t.
Proof.
  intros Hok Hs Hl Hlast. pose proof (ok_capacity n Hok) as Hcap. unfold existing_step. intros ([right node1] & E1 & E)%res_bind_Ret_inv.
  assert (same_node n node1 ∧ 0 ≤ right ≤ data_capacity_ n ∧ (i = fanout - 1 → right = data_capacity_ n)) as (Hs1 & Hr & Hi).
  { destruct (same_node_ok _ _ Hs Hok) as [Hok1 _]. assert (data_capacity_ node = data_capacity_ n) as Ec by (by destruct Hs as [c ->]).
    destruct (bool_decide (i = fanout - 1)) eqn:Eb; [injection E1 as <- <-; rewrite Ec; split; [done|lia]|]. apply bool_decide_eq_false in Eb.
    destruct (lower_bound_double_spec node (d_div (d_sub (d_of_Z (i + 1)) (b_ m)) (a_ m)) Hok1) as (pos & n' & E2 & Hs2 & Hp & _).
    rewrite E2 in E1. injection E1 as <- <-. rewrite Ec in Hp. split; [by apply (same_node_trans _ node)|]. by split. }
  assert (∀ a b, between node1 a b = between n a b) as Hbet by (by destruct Hs1 as [c ->]).
  assert (data_capacity_ node1 = data_capacity_ n) as Ec by (by destruct Hs1 as [c ->]).
  destruct (bool_decide (left = right)) eqn:Eb.
  - apply bool_decide_eq_true in Eb as ->. injection E as <-. cbn [fst snd]. do 3 (split; [done|]). eexists. split; [done|].
    unfold part_of. cbn. unfold between. by rewrite listing_nil by lia.
  - apply bool_decide_eq_false in Eb. destruct (same_node_ok _ _ Hs1 Hok) as [Hok1 _].
    destruct (it_initialize_on node1 left (node_ok_iterable _ Hok1)) as (it & Eit & Hon).
    { rewrite Ec. destruct (decide (left = data_capacity_ n)) as [El|]; [|lia]. specialize (Hi (Hlast El)). lia. }
    rewrite Eit, res_bind_ret in E.
    destruct (fit_existing_count node1 right (node_ok_iterable _ Hok1) ltac:(lia) (keys_fuel node1) it left 0 (builder_new model0) Hon) as (b & Ef); [lia|apply between_fuel; lia|].
    rewrite Ef, res_bind_ret in E. apply res_bind_Ret_inv in E as ([c st] & _ & E). injection E as <-. cbn [fst snd]. do 3 (split; [done|]).
    eexists. split; [done|]. unfold part_of. cbn. by rewrite Hbet.
Qed.

(** Levels are appended. *)
Lemma grow_existing_step fuel num_keys total_keys base fanout max_fanout level node (x : search) : fanout ≤ max_fanout →
  grow_existing log2 (S fuel) num_keys total_keys base fanout max_fanout level node x =
    (let m := mkModel (d_mul (a_ base) (d_of_Z fanout)) (d_mul (b_ base) (d_of_Z fanout)) in
     let* (node, nodes, cost, _) := for_up 0 fanout (existing_step log2 num_keys level m fanout) (node, [], d_of_Z 0, 0) in
     match add_level level nodes (d_add cost (traversal_cost fanout total_keys num_keys)) x with
     | inl x => grow_existing log2 fuel num_keys total_keys base (fanout * 2) max_fanout (level + 1) node x
     | inr x => Ret (node, x)
     end).
Proof. intros H. cbn [grow_existing]. by rewrite bool_decide_eq_true_2. Qed.

Lemma grow_existing_levels num_keys total_keys base max_fanout : ∀ fuel fanout level node (x : search) r,
  grow_existing log2 fuel num_keys total_keys base fanout max_fanout level node x = Ret r → ∃ more, levels r.2 = levels x ++ more.
Proof.
  induction fuel as [|fuel IH]; intros fanout level node x r; [done|]. destruct (decide (fanout ≤ max_fanout)) as [Hle|Hgt].
  - rewrite grow_existing_step by done. intros ([[[node' nodes] cost] y] & _ & E)%res_bind_Ret_inv. unfold add_level in E.
    destruct (rose_twice _); [injection E as <-; exists []; by rewrite app_nil_r|]. destruct (if d_lt _ _ then _ else _) as [bl bc].
    apply IH in E as (more & ->). exists ([nodes] ++ more). cbn [levels]. by rewrite app_assoc.
  - cbn [grow_existing]. rewrite bool_decide_eq_false_2 by done. intros [= <-]. exists []. by rewrite app_nil_r.
Qed.

(** Short searches do not stop. *)
Lemma add_level_short level nodes cost (x : search) : (length (fanout_costs x) < 2)%nat →
  ∃ x', add_level level nodes cost x = inl x' ∧ levels x' = levels x ++ [nodes] ∧ length (fanout_costs x') = S (length (fanout_costs x)) ∧
    (best_level x' = level ∨ best_level x' = best_level x).
Proof.
  intros H. unfold add_level. assert (rose_twice (fanout_costs x ++ [cost]) = false) as ->.
  { destruct (fanout_costs x) as [|c1 [|c2 cs]]; [done|done|cbn in H; lia]. }
  destruct (d_lt _ _); (eexists; split; [done|]; split; [done|]; cbn; rewrite length_app; cbn; split; [lia|by (left + right)]).
Qed.

(** The level of one part. *)
Lemma grow_existing_one n num_keys total_keys base max_fanout r : node_ok n → 1 ≤ max_fanout →
  grow_existing log2 32 num_keys total_keys base 1 max_fanout 0 n (mkSearch 0 DBL_MAX [] []) = Ret r →
  ∃ t0 n1 x1, same_node n n1 ∧ ft_use t0 = false ∧ levels x1 = [[t0]] ∧ length (fanout_costs x1) = 1%nat ∧ best_level x1 = 0 ∧
    grow_existing log2 31 num_keys total_keys base 2 max_fanout 1 n1 x1 = Ret r.
Proof.
  intros Hok H1 E. pose proof (ok_capacity n Hok) as Hcap. change 32%nat with (S 31) in E.
  rewrite grow_existing_step in E by done. apply res_bind_Ret_inv in E as ([[[n1 nodes1] c1] e1] & E1 & E).
  apply res_bind_Ret_inv in E1 as (y & Ey & [= ->]). apply (existing_step_part n) in Ey as (Hs1 & _ & _ & t0 & Et0 & Ht0); [|done|apply same_node_refl|lia|lia].
  cbn [fst snd app] in Hs1, Et0. subst nodes1. revert E.
  match goal with |- context [add_level 0 [t0] ?c ?x] => destruct (add_level_short 0 [t0] c x) as (x1 & -> & L1 & C1 & B1); [cbn; lia|] end.
  intros E. exists t0, n1, x1. split; [done|]. split; [apply Ht0|]. split; [done|]. split; [done|]. split; [by destruct B1|exact E].
Qed.

(** And that of two, when it is taken. *)
Lemma grow_existing_two n num_keys total_keys base max_fanout r : node_ok n → 1 ≤ max_fanout →
  grow_existing log2 32 num_keys total_keys base 1 max_fanout 0 n (mkSearch 0 DBL_MAX [] []) = Ret r → best_level r.2 = 1 →
  ∃ t0 t1 t2 pos more, levels r.2 = [[t0]; [t1; t2]] ++ more ∧ 0 ≤ pos ≤ data_capacity_ n ∧ ft_use t0 = false ∧
    part_of n 1 0 0 pos t1 ∧ part_of n 1 1 pos (data_capacity_ n) t2.
Proof.
  intros Hok H1 E Hbest. pose proof (ok_capacity n Hok) as Hcap. destruct (grow_existing_one n _ _ _ _ r Hok H1 E) as (t0 & n1 & x1 & Hs1 & U0 & L1 & C1 & B1 & E1).
  clear E. change 31%nat with (S 30) in E1. destruct (decide (2 ≤ max_fanout)) as [H2|H2].
  2:{ cbn [grow_existing] in E1. rewrite bool_decide_eq_false_2 in E1 by lia. injection E1 as <-. cbn in Hbest. lia. }
  rewrite grow_existing_step in E1 by lia. apply res_bind_Ret_inv in E1 as ([[[n2 nodes2] c2] e2] & E2 & E).
  apply res_bind_Ret_inv in E2 as ([[[n3 nodes3] c3] pos] & Ey1 & E2). apply res_bind_Ret_inv in E2 as (y & Ey2 & [= ->]).
  apply (existing_step_part n) in Ey1 as (Hs3 & Hpos & _ & t1 & Et1 & Ht1); [|done|done|lia|lia]. cbn [fst snd app] in Hs3, Hpos, Et1, Ht1. subst nodes3.
  apply (existing_step_part n) in Ey2 as (_ & _ & Hend & t2 & Et2 & Ht2); [|done|done|done|done]. cbn [fst snd app] in Hend, Et2, Ht2. subst nodes2.
  rewrite (Hend eq_refl) in Ht2. revert E.
  match goal with |- context [add_level _ [t1; t2] ?c ?x] => destruct (add_level_short 1 [t1; t2] c x) as (x2 & -> & L2 & _ & _); [rewrite C1; lia|] end.
  intros (more & Hl)%grow_existing_levels. exists t0, t1, t2, pos, more. rewrite Hl, L2, L1. by split.
Qed.

(** A tree that begins with these levels. *)
Lemma two_levels_set f a b c more : let t := [a] :: [b; c] :: more in
  ft_set 0 0 f t = Ret ([f a] :: [b; c] :: more) ∧ ft_set 1 0 f t = Ret ([a] :: [f b; c] :: more) ∧
  ft_set 1 1 f t = Ret ([a] :: [b; f c] :: more).
Proof. cbv zeta. unfold ft_set, rd, wr. cbn. rewrite !bool_decide_eq_true_2 by lia. done. Qed.

Lemma two_levels_merge num_keys total_keys a b c more cost t x : ft_use b = true → ft_use c = true →
  merge_nodes_upwards 1 cost num_keys total_keys ([a] :: [b; c] :: more) = Ret (t, x) →
  t = [a] :: [b; c] :: more ∨ t = [set_use true a] :: [set_use false b; set_use false c] :: more.
Proof.
  intros Hb Hc. cbn [merge_nodes_upwards]. intros ([[t1 c1] merged] & E1 & E)%res_bind_Ret_inv. apply res_bind_Ret_inv in E1 as (y & Ey & [= ->]).
  assert (t = t1) as -> by (destruct merged; by injection E as <- _). clear E.
  assert (merge_pair 1 0 ([a] :: [b; c] :: more) = Ret ([set_use true a] :: [set_use false b; set_use false c] :: more)) as Hm.
  { unfold merge_pair. change (2 * 0 + 1) with 1. change (2 * 0) with 0. change (1 - 1) with 0. destruct (two_levels_set (set_use false) a b c more) as (_ & -> & _). rewrite res_bind_ret.
    destruct (two_levels_set (set_use false) a (set_use false b) c more) as (_ & _ & ->). rewrite res_bind_ret. apply two_levels_set. }
  change (merge_step 1 num_keys total_keys 0 ([a] :: [b; c] :: more, cost, false) = Ret (t1, c1, merged)) in Ey. unfold merge_step in Ey.
  change (ft_at 1 (2 * 0) _) with (Ret b) in Ey. change (ft_at 1 (2 * 0 + 1) _) with (Ret c) in Ey. change (ft_at (1 - 1) 0 _) with (Ret a) in Ey.
  cbn [mbind res_bind] in Ey. rewrite Hb, Hc in Ey. cbn [andb] in Ey. rewrite Hm in Ey. cbn [mbind res_bind] in Ey.
  destruct (bool_decide _); [injection Ey as <- _ _; by right|].
  destruct (d_le _ _); [injection Ey as <- _ _; by right|]. injection Ey as <- _ _. by left.
Qed.

Lemma two_levels_used a b c more : ft_level b = 1 → ft_level c = 1 → ft_node_id b = 0 → ft_node_id c = 1 →
  (ft_use a = false → ft_use b = true → ft_use c = true → collect_used_nodes ([a] :: [b; c] :: more) 1 = [b; c]) ∧
  (ft_use a = true → ft_use b = false → ft_use c = false → collect_used_nodes ([a] :: [b; c] :: more) 1 = [a]).
Proof.
  intros Lb Lc Ib Ic. unfold collect_used_nodes.
  assert (Z.min 1 (Z.of_nat (length ([a] :: [b; c] :: more)) - 1) = 1) as -> by (cbn; lia). change (Z.to_nat (1 + 1)) with 2%nat.
  change (concat (take 2 ([a] :: [b; c] :: more))) with [a; b; c].
  split; intros Ua Ub Uc.
  - rewrite filter_cons_False, !filter_cons_True, filter_nil by congruence. unfold merge_sort. cbn.
    rewrite decide_True; [done|]. unfold before, position_of. rewrite Lb, Lc, Ib, Ic. done.
  - by rewrite filter_cons_True, !filter_cons_False, filter_nil by congruence.
Qed.

(** The plan that keeps the leaf. *)
Lemma existing_plan_keep pm bucket dup total max_fanout n n' nodes :
  node_ok n → find_best_fanout_existing_node log2 pm bucket dup total max_fanout n = Ret (n', nodes, 0) → ∃ t, nodes = [t].
Proof.
  intros Hok E. unfold find_best_fanout_existing_node in E. apply res_bind_Ret_inv in E as ([node1 r] & E1 & E). apply res_bind_Ret_inv in E as (t & Et & E).
  apply res_bind_Ret_inv in E as ([t' x] & Em & E). injection E as <- Ec Hbest. rewrite Hbest in *.
  destruct (decide (1 ≤ max_fanout)) as [H1|H1].
  - destruct (grow_existing_one n _ _ _ _ (node1, r) Hok H1 E1) as (t0 & n1 & x1 & _ & U0 & L1 & _ & _ & (more & Hl)%grow_existing_levels).
    cbn [snd] in Hl. rewrite Hl, L1 in Et. assert (t = [set_use true t0] :: more) as ->.
    { revert Et. unfold use_level, rd, wr. cbn. rewrite bool_decide_eq_true_2 by lia. by intros [= <-]. }
    cbn in Em. injection Em as <- _. exists (set_use true t0). rewrite <- Ec. unfold collect_used_nodes.
    assert (Z.min 0 (Z.of_nat (length ([set_use true t0] :: more)) - 1) = 0) as -> by (cbn; lia). change (Z.to_nat (0 + 1)) with 1%nat. done.
  - change 32%nat with (S 31) in E1. cbn [grow_existing] in E1. rewrite bool_decide_eq_false_2 in E1 by done. by injection E1 as <- <-.
Qed.

(** A plan of depth one takes the two parts, or the one they are merged into. *)
Lemma existing_plan pm bucket dup total max_fanout n n' nodes :
  node_ok n → find_best_fanout_existing_node log2 pm bucket dup total max_fanout n = Ret (n', nodes, 1) → well_planned nodes n.
Proof.
  intros Hok E. unfold find_best_fanout_existing_node in E. apply res_bind_Ret_inv in E as ([node1 r] & E1 & E). apply res_bind_Ret_inv in E as (t & Et & E).
  apply res_bind_Ret_inv in E as ([t' x] & Em & E). injection E as <- Ec Hbest.
  destruct (decide (1 ≤ max_fanout)) as [H1|H1].
  2:{ change 32%nat with (S 31) in E1. cbn [grow_existing] in E1. rewrite bool_decide_eq_false_2 in E1 by done. by injection E1 as <- <-. }
  destruct (grow_existing_two n _ _ _ _ (node1, r) Hok H1 E1 Hbest) as (t0 & t1 & t2 & pos & more & Hl & Hpos & U0 & (L1 & I1 & B1 & U1 & N1) & (L2 & I2 & B2 & U2 & N2)).
  cbn [snd] in Hl. rewrite Hbest, Hl in *.
  assert (t = [t0] :: [set_use true t1; set_use true t2] :: more) as ->.
  { revert Et. unfold use_level, rd, wr. cbn. rewrite bool_decide_eq_true_2 by lia. by intros [= <-]. }
  change (Z.to_nat 1) with 1%nat in Em. apply two_levels_merge in Em as [->| ->]; [| |done|done].
  - rewrite (proj1 (two_levels_used _ (set_use true t1) (set_use true t2) more L1 L2 I1 I2)) in Ec by done. subst nodes.
    intros ? ? [= <- <-]. unfold parts. cbn. by rewrite B1, B2.
  - rewrite (proj2 (two_levels_used (set_use true t0) (set_use false (set_use true t1)) (set_use false (set_use true t2)) more L1 L2 I1 I2)) in Ec by done.
    subst nodes. by intros ? ?.
Qed.

End plan.

Section planned.
Context (junk : Z → Z) (log2 : double → double) (max_data_node_slots top : Z).
Implicit Types (n : AlexDataNode) (s : Alex) (p q : Z) (m : ModelNode).

Lemma move_right_end fuel (pm : LinearModel) bucket n moved : move_right (S fuel) pm bucket n (data_capacity_ n) moved = Ret (data_capacity_ n, moved).
Proof. cbn [move_right]. by rewrite bool_decide_eq_false_2 by lia. Qed.

(** One child of the plan: a leaf, linked to the one before it. *)
Definition placed (t : FTNode) (level dup prev : Z) (l : Leaf) : Leaf :=
  with_prev prev (with_place level dup (with_data (with_expected_of t (with_cost (ft_cost t) (data l))) l)).

Lemma create_step t ts n parent m extra ra la cur left b moved moved0 prev s :
  heap s !! 0 = None → heap s !! parent = Some (ModelN m) → parent < next_addr s → prev < next_addr s →
  (prev ≠ 0 → prev ≠ parent ∧ ∃ l, heap s !! prev = Some (DataNode l)) →
  node_ok n → num_keys_ n ≤ 2 ^ 26 → 0 ≤ left < data_capacity_ n → left ≤ b → b ≤ data_capacity_ n →
  ft_level t = 1 → 0 ≤ extra < 256 → 0 ≤ cur → cur + 2 ^ extra ≤ Z.of_nat (length (children_ m)) →
  move_right (keys_fuel n) (mn_model m) (cur + 2 ^ extra) n (ft_right_boundary t) 0 = Ret (b, moved) →
  ft_num_keys t - moved0 + moved = Z.of_nat (length (between n left b)) → 0 < next_addr s →
  ∃ nd, newborn nd ∧ contents nd = between n left b ∧
    let c := next_addr s in
    let m' := with_children (overwrite cur (cur + 2 ^ extra) c (children_ m)) m in
    let h := <[parent := ModelN m']> (leaf_alter (with_next c) prev (<[c := DataNode (placed t (mn_level_ m + 1) extra prev (mkLeaf nd 0 0 0 0))]> (heap s))) in
    create_loop junk log2 max_data_node_slots (t :: ts) n parent 1 extra ra la cur left moved0 prev s =
      create_loop junk log2 max_data_node_slots ts n parent 1 extra ra la (cur + 2 ^ extra) b moved c
        (mkAlex h (c + 1) (root_node_ s) (superroot_ s) (stats_ (add_nodes 0 1 s)) (istats_ s)).
Proof.
  intros H0 Em Hpn Hvn Hprev Hok Hn Hl Hlb Hb Ht He Hc Hroom Emv Hnum Hna. cbn [create_loop]. rewrite (get_model_node _ _ _ Em), res_bind_ret.
  assert (u8 (1 - ft_level t + extra) = extra) as -> by (rewrite Ht; apply Z.mod_small; lia). rewrite !Z.shiftl_1_l, Emv, res_bind_ret.
  match goal with |- context [bulk_load_leaf_node_from_existing _ _ _ n left b false (Some ?t') false ?kl ?kr s] =>
    destruct (planned_leaf_spec junk log2 max_data_node_slots n left b t' kl kr s Hok Hn Hl Hlb Hb Hnum) as (nd & -> & Hwf & Hcon) end.
  exists nd. split; [done|]. split; [done|]. set (c := next_addr s). rewrite res_bind_ret. unfold new_leaf, alloc_node. change (next_addr (add_nodes 0 1 s)) with c.
  set (s1 := mkAlex (<[c := _]> _) _ _ _ _ _). assert (heap s1 !! c = Some (DataNode (mkLeaf nd 0 0 0 0))) as E1 by apply lookup_insert_eq.
  rewrite (modify_leaf_set s1 c _ (mkLeaf nd 0 0 0 0) E1), res_bind_ret. set (s2 := set_data c _ s1).
  assert (heap s2 = <[c := DataNode (placed t (mn_level_ m + 1) extra prev (mkLeaf nd 0 0 0 0))]> (heap s)) as E2 by (unfold s2; cbn; by rewrite insert_insert_eq).
  rewrite (if_not_null_alter s2 prev), res_bind_ret.
  2:{ rewrite E2, lookup_insert_ne; [done|unfold c; lia]. }
  2:{ intros Hp0. destruct (Hprev Hp0) as [_ (l & El)]. exists l. rewrite E2, lookup_insert_ne; [done|unfold c; lia]. }
  set (s3 := with_heap _ s2). assert (heap s3 !! parent = Some (ModelN m)) as E3.
  { unfold s3. cbn [heap with_heap]. destruct (decide (prev = 0)) as [->|Hp0].
    - rewrite leaf_alter_None; [|rewrite E2, lookup_insert_ne; [done|unfold c; lia]]. rewrite E2, lookup_insert_ne; [done|unfold c; lia].
    - rewrite leaf_alter_ne by by apply Hprev. rewrite E2, lookup_insert_ne; [done|unfold c; lia]. }
  rewrite (set_children_spec cur (cur + 2 ^ extra) c parent m s3 E3), res_bind_ret by lia. f_equal.
  unfold set_model, set_node, with_heap, s3. rewrite E2. done.
Qed.

Lemma create_new_spec nodes s l1 old l2 parent l m start dup :
  heap_ok s → chain (heap s) 0 (l1 ++ old :: l2) → NoDup (l1 ++ old :: l2) →
  heap s !! old = Some (DataNode l) → heap s !! parent = Some (ModelN m) → splittable top nodes m l start dup → nodes ≠ [] →
  two_leaves s l1 old l2 parent l m start dup
    (create_new_data_nodes junk log2 max_data_node_slots old parent 1 nodes start (Z.max 0 (dup - 1)) s).
Proof.
  intros Hh Hc Hnd El Em Hsp Hne. unfold two_leaves. set (L := next_addr s). set (R := next_addr s + 1). pose proof Hh as (Hna & H0 & Hfresh).
  destruct (cut_planned top nodes m l start dup Hsp Hne) as (t1 & t2 & b & moved & -> & T1 & T2 & B2 & Emv & Hb & N1 & N2 & Hlo & Hhi).
  destruct Hsp as [[Hok Hcount _ _ _ Hst Hd Hroom _] _]. destruct (middle_eq start dup (proj1 Hd)) as [Emid Eend].
  assert (0 < 2 ^ (dup - 1)) as Hpow by lia. set (mid := middle start dup) in *. rewrite Z.max_r by lia. set (n := data l) in *.
  pose proof (heap_ok_lt _ _ _ Hh El) as Holt. pose proof (heap_ok_lt _ _ _ Hh Em) as Hplt. assert (parent ≠ old) as Hpo by (intros ->; congruence).
  destruct (chain_neighbours _ _ _ _ _ Hc El) as [HP HN]. set (P := prev_leaf_ l) in *. set (N := next_leaf_ l) in *.
  assert (∀ x, x ≠ 0 → (∃ y, heap s !! x = Some (DataNode y)) → x < L ∧ x ≠ parent) as Hlt.
  { intros x _ (y & Ey). split; [by eapply heap_ok_lt|]. intros ->. congruence. }
  assert (P < L) as HPL by (destruct (decide (P = 0)) as [->|Hp0]; [done|]; by apply Hlt, HP). assert (N < L) as HNL by (destruct (decide (N = 0)) as [->|Hp0]; [done|]; by apply Hlt, HN).
  unfold create_new_data_nodes. rewrite (get_data_leaf _ _ _ El), res_bind_ret, (get_model_node _ _ _ Em), res_bind_ret. fold n P N.
  set (ra := (_, _)). set (la := (is_append_mostly_left n, _)).
  destruct (create_step t1 [t2] n parent m (dup - 1) ra la start 0 b moved 0 P s) as (nL & WL & CL & ->); [done|done|done|done| |done|done|lia|lia|lia|done|lia|lia|lia|by rewrite <- Emid|lia|done|].
  { intros Hp0. split; [by apply Hlt, HP|by apply HP]. }
  fold L. rewrite <- Emid. set (m1 := with_children _ m). set (lL := placed t1 _ _ _ _). set (h1 := <[parent := ModelN m1]> _). set (s1 := mkAlex h1 _ _ _ _ _).
  assert (h1 !! parent = Some (ModelN m1)) as Em1 by apply lookup_insert_eq.
  assert (h1 !! L = Some (DataNode lL)) as EL1.
  { unfold h1. rewrite lookup_insert_ne, leaf_alter_ne, lookup_insert_eq by lia. done. }
  assert (∀ q, q ≠ L → q ≠ parent → h1 !! q = leaf_alter (with_next L) P (heap s) !! q) as Hh1.
  { intros q HqL Hqp. unfold h1. rewrite lookup_insert_ne by done. apply leaf_alter_ext. by rewrite lookup_insert_ne. }
  assert (length (children_ m1) = length (children_ m)) as Elen by (cbn; rewrite overwrite_length; lia).
  destruct (create_step t2 [] n parent m1 (dup - 1) ra la mid b (data_capacity_ n) 0 moved L s1) as (nR & WR & CR & ->);
    [|done|cbn; lia|cbn; lia| |done|done|lia|lia|lia|done|lia|lia|rewrite Elen; lia|rewrite B2; apply move_right_end|done|cbn; lia|].
  { change (h1 !! 0 = None). assert (0 ≠ parent) as Hz by (intros E; rewrite <- E in Em; congruence). rewrite Hh1 by (unfold L; lia || done).
    destruct (decide (P = 0)) as [E|Hp0]; [by rewrite E, leaf_alter_None|by rewrite leaf_alter_ne]. }
  { intros _. split; [unfold L; lia|by exists lL]. }
  change (next_addr s1) with R. set (m2 := with_children _ m1). set (lR := placed t2 _ _ _ _). set (h2 := <[parent := ModelN m2]> _). set (s2 := mkAlex h2 _ _ _ _ _).
  assert (L ≠ R ∧ L ≠ parent ∧ R ≠ parent) as (HLR & HLp & HRp) by (unfold R; lia).
  assert (h2 !! R = Some (DataNode lR)) as ER2 by (unfold h2; rewrite lookup_insert_ne, leaf_alter_ne, lookup_insert_eq by done; done).
  assert (h2 !! L = Some (DataNode (with_next R lL))) as EL2.
  { unfold h2. rewrite lookup_insert_ne by done. apply leaf_alter_eq. by rewrite lookup_insert_ne. }
  assert (∀ q, q ≠ L → q ≠ R → q ≠ parent → h2 !! q = leaf_alter (with_next L) P (heap s) !! q) as Hh2.
  { intros q HqL HqR Hqp. unfold h2. rewrite lookup_insert_ne, leaf_alter_ne, lookup_insert_ne by done. by apply Hh1. }
  cbn [create_loop]. rewrite res_bind_ret, (modify_leaf_alter s2 R _ lR ER2), res_bind_ret. set (h3 := leaf_alter (with_next N) R _).
  assert (h3 !! R = Some (DataNode (with_next N lR))) as ER3 by by apply leaf_alter_eq.
  assert (∀ q, q ≠ R → h3 !! q = h2 !! q) as Hh3 by (intros q Hq; by apply leaf_alter_ne).
  assert (N ≠ 0 → N ≠ P) as HNP.
  { intros HN0 E. destruct (HN HN0) as [Hin _]. apply NoDup_app in Hnd as (_ & Hdis & _). apply (Hdis N); [rewrite E; apply HP; congruence|by right]. }
  assert (0 ≠ parent ∧ 0 ≠ L ∧ 0 ≠ R) as (Hzp & HzL & HzR) by (unfold R, L; split; [intros E; rewrite <- E in Em; congruence|lia]).
  assert (h3 !! 0 = None) as Ez.
  { rewrite Hh3, Hh2 by done. destruct (decide (P = 0)) as [E|Hp0]; [by rewrite E, leaf_alter_None|by rewrite leaf_alter_ne]. }
  rewrite (if_not_null_alter (with_heap h3 s2) N); cbn [heap with_heap]; [|done|].
  2:{ intros HN0. destruct (HN HN0) as [_ (lN & EN)]. exists lN. destruct (Hlt N HN0) as [_ HNp]; [by exists lN|].
      rewrite Hh3, Hh2, leaf_alter_ne by (done || (unfold R; lia) || (by apply not_eq_sym, HNP)). done. }
  set (h4 := leaf_alter (with_prev R) N h3).
  assert (N ≠ L ∧ N ≠ R ∧ N ≠ parent) as (HNL' & HNR & HNp).
  { split; [lia|]. split; [unfold R; lia|]. destruct (decide (N = 0)) as [->|HN0]; [done|]. by apply Hlt, HN. }
  assert (h4 !! R = Some (DataNode (with_next N lR))) as ER4 by (unfold h4; by rewrite leaf_alter_ne).
  assert (h4 !! L = Some (DataNode (with_next R lL))) as EL4 by (unfold h4; by rewrite leaf_alter_ne, Hh3).
  assert (∀ q, q ≠ L → q ≠ R → q ≠ parent → h4 !! q = leaf_alter (with_prev R) N (leaf_alter (with_next L) P (heap s)) !! q) as Hh4.
  { intros q HqL HqR Hqp. apply leaf_alter_ext. rewrite Hh3 by done. by apply Hh2. }
  exists h4, (with_next R lL), (with_next N lR). split; [|split; [|split; [|split; [done|split; [done|split; [|]]]]]].
  - unfold with_heap. cbn [s1 s2 next_addr root_node_ superroot_ stats_ istats_]. do 2 f_equal; [unfold R, L; lia|]. unfold add_nodes, with_stats. cbn. f_equal; lia.
  - apply (relink_chain (heap s) h4 l1 old l2 L R l (with_next R lL) (with_next N lR)); try done.
    intros q Hq. assert (∃ y, heap s !! q = Some (DataNode y)) as Hy.
    { assert (q ∈ l1 ++ old :: l2) as Hin by set_solver. apply list_elem_of_split in Hin as (u & v & E). rewrite E in Hc.
      destruct (chain_at _ _ _ _ _ Hc) as (_ & y & Ey & _). by exists y. }
    destruct Hy as (y & Ey). apply Hh4; [|unfold R|intros ->; congruence]; pose proof (heap_ok_lt _ _ _ Hh Ey); unfold L; lia.
  - unfold h4. rewrite leaf_alter_ne, Hh3 by done. unfold h2. rewrite lookup_insert_eq. fold mid. by rewrite Eend.
  - rewrite Hh4 by (done || (unfold R, L in *; lia)). assert (is_Some (leaf_alter (with_next L) P (heap s) !! old)) as [x Ex].
    { unfold leaf_alter. destruct (decide (P = old)) as [->|]; [by rewrite lookup_alter_eq, El|by rewrite lookup_alter_ne, El]. }
    revert Ex. generalize (leaf_alter (with_next L) P (heap s)). intros h Ex. unfold leaf_alter.
    destruct (decide (N = old)) as [->|]; [by rewrite lookup_alter_eq, Ex|by rewrite lookup_alter_ne, Ex].
  - cbn [lL lR placed with_next with_prev with_place with_data with_expected_of with_expected with_cost leaf_duplication_factor_ data].
    assert (u8 (dup - 1) = dup - 1) as -> by (apply Z.mod_small; lia). do 2 (split; [done|]).
    split; [|split; [|split; [|split; [|split]]]].
    + by apply newborn_dressed.
    + by apply newborn_dressed.
    + change (contents n = contents nL ++ contents nR). rewrite CL, CR. unfold contents, between. apply listing_app; lia.
    + intros k (kp & -> & Hkp)%list_elem_of_fmap. change (kp ∈ contents nL) in Hkp. rewrite CL in Hkp. by apply Hlo.
    + intros k (kp & -> & Hkp)%list_elem_of_fmap. change (kp ∈ contents nR) in Hkp. rewrite CR in Hkp. by apply Hhi.
    + intros q Hqo Hqp HqL HqR. rewrite Hh4 by done. do 2 (apply links_alter; [|done]). apply links_refl.
Qed.

(** The leaves of a split in two, with a plan or without. *)
Definition create_children (nodes : list FTNode) (old parent dup : Z) (reuse_model : bool) (start : Z) s : res Alex :=
  match nodes with
  | [] => create_two_new_data_nodes junk log2 max_data_node_slots old parent dup reuse_model start s
  | _ => create_new_data_nodes junk log2 max_data_node_slots old parent 1 nodes start (Z.max 0 (dup - 1)) s
  end.

Lemma create_children_spec nodes s l1 old l2 parent l m start dup reuse_model :
  heap_ok s → chain (heap s) 0 (l1 ++ old :: l2) → NoDup (l1 ++ old :: l2) →
  heap s !! old = Some (DataNode l) → heap s !! parent = Some (ModelN m) → splittable top nodes m l start dup →
  two_leaves s l1 old l2 parent l m start dup (create_children nodes old parent dup reuse_model start s).
Proof. destruct nodes as [|t nodes]; intros; [by apply create_two_spec with (top := top)|by apply create_new_spec]. Qed.
End planned.
