(* ===== verification/AlexTreeSplit.v ===== *)
(** * ALEX: a tree with one leaf split

    The pointers of the parent to the leaf become two runs of half the length,
    to the two new leaves; the tree then covers the list with the two leaves in
    the place of the one, and the invariant is kept. *)
From S2P Require Import Prelude Ieee AlexBase AlexNode AlexOps AlexInv AlexSearch AlexBuild AlexCost AlexFanout AlexTree AlexTreeOps AlexRoute AlexTreeInv AlexTreeOk AlexTreeLookup AlexLink AlexSubtree AlexReplace AlexSplit AlexSplitPlan.

(** ** Runs *)
Lemma pivot_unique (x : Z) l1 l2 l1' l2' :
  NoDup (l1 ++ x :: l2) → l1 ++ x :: l2 = l1' ++ x :: l2' → l1 = l1' ∧ l2 = l2'.
Proof.
  revert l1'. induction l1 as [|a l1 IH]; intros [|b l1'] Hnd E; cbn in Hnd, E; simplify_eq; [done|..].
  - apply NoDup_cons in Hnd as [Hn _]. set_solver.
  - apply NoDup_cons in Hnd as [Hn _]. set_solver.
  - apply NoDup_cons in Hnd as [_ Hnd]. by destruct (IH l1' Hnd) as [-> ->].
Qed.

Lemma overwrite_run rs1 r rs2 a b p r1 : 0 ≤ run_dup r1 →
  a = width rs1 → b = width rs1 + repeats r1 → Z.of_nat (length (slots_of r)) = repeats r1 → run_child r1 = p →
  overwrite a b p ((rs1 ++ r :: rs2) ≫= slots_of) = (rs1 ++ r1 :: rs2) ≫= slots_of.
Proof.
  intros Hd -> -> Hl <-. rewrite !bind_app, !bind_cons. unfold overwrite. replace (width rs1 + repeats r1 - width rs1) with (repeats r1) by lia.
  assert (0 ≤ width rs1 ∧ Z.to_nat (width rs1) = length (rs1 ≫= slots_of)) as [Hw Hw'] by (unfold width; lia).
  f_equal; [by rewrite Hw', take_app_length|]. f_equal.
  replace (Z.to_nat (width rs1 + repeats r1)) with (length (rs1 ≫= slots_of) + length (slots_of r))%nat by lia.
  by rewrite drop_app_add, drop_app_length.
Qed.

(** The run of the node a bucket points to. *)
Lemma child_run d h top rs b m p n :
  children_ m = rs ≫= slots_of → num_children_ m = width rs → aligned 0 rs → Forall (run_ok d h top) rs →
  h !! p = Some n → 0 ≤ b < num_children_ m → child b m = Ret p →
  let dup := duplication_factor_ n in
  ∃ rs1 lp rs2, rs = rs1 ++ mkRun p dup lp :: rs2 ∧ covers d h top p lp ∧ 0 ≤ dup ∧ width rs1 mod 2 ^ dup = 0 ∧
    start_of b (2 ^ dup) = width rs1 ∧ width rs1 ≤ b < width rs1 + 2 ^ dup.
Proof.
  intros Ec Hn Hal Hf En Hb Hch dup. assert (Forall (λ r, 0 ≤ run_dup r) rs) as Hd by (eapply Forall_impl; [exact Hf|]; by intros r (_ & ? & _)).
  rewrite Hn in Hb. destruct (run_at rs b Hd Hb) as (rs1 & [c e lp] & rs2 & E & Hr).
  assert (mkRun c e lp ∈ rs) as Hin by (rewrite E; set_solver). rewrite list.Forall_forall in Hf.
  destruct (Hf _ Hin) as (Hc & He & n' & En' & Hdn). cbn in *.
  rewrite (child_at m rs rs1 _ rs2 b Ec E) in Hch by done. cbn in Hch. injection Hch as ->.
  rewrite En in En'. injection En' as <-. fold dup in Hdn. subst e. exists rs1, lp, rs2. split; [done|]. split; [done|]. split; [done|].
  rewrite E in Hal, Hd. apply Forall_app in Hd as [Hd1 _]. apply aligned_app in Hal as [_ [Hal _]]; [|done]. unfold repeats in Hal, Hr.
  cbn [run_dup] in Hal, Hr. rewrite Z.add_0_l in Hal. split; [done|]. split; [|done]. unfold start_of. assert (0 ≤ width rs1) by (unfold width; lia).
  rewrite Z.rem_mod_nonneg by lia. assert (b mod 2 ^ dup = b - width rs1); [|lia].
  replace b with (b - width rs1 + width rs1) at 1 by lia. rewrite <- Zplus_mod_idemp_r, Hal, Z.add_0_r. apply Z.mod_small. lia.
Qed.
Lemma leaf_run d h top rs b m p l :
  children_ m = rs ≫= slots_of → num_children_ m = width rs → aligned 0 rs → Forall (run_ok d h top) rs →
  h !! p = Some (DataNode l) → 0 ≤ b < num_children_ m → child b m = Ret p →
  ∃ rs1 rs2, rs = rs1 ++ mkRun p (leaf_duplication_factor_ l) [p] :: rs2 ∧
    start_of b (2 ^ leaf_duplication_factor_ l) = width rs1 ∧ width rs1 ≤ b < width rs1 + 2 ^ leaf_duplication_factor_ l.
Proof.
  intros Ec Hn Hal Hf El Hb Hch. destruct (child_run d h top rs b m p _ Ec Hn Hal Hf El Hb Hch) as (rs1 & lp & rs2 & E & Hc & _ & _ & Hs).
  destruct d as [|d]; [done|]. cbn [covers] in Hc. rewrite El in Hc. subst lp. by exists rs1, rs2.
Qed.

(** ** The parent *)
Section halved.
Context (old L R start dup : Z) (m : ModelNode).

Definition halved : ModelNode :=
  with_children (overwrite (middle start dup) (start + 2 ^ dup) R (overwrite start (middle start dup) L (children_ m))) m.
(** Where a key goes that went to [q]. *)
Definition moved (key q : Z) : Z :=
  if bool_decide (q = old) then (if bool_decide (predict key (mn_model m) < middle start dup) then L else R) else q.

Context (Hdup : 1 ≤ dup).

Lemma child_halved i :
  0 ≤ start → start + 2 ^ dup ≤ Z.of_nat (length (children_ m)) → 0 ≤ i →
  child i halved = if bool_decide (start ≤ i < middle start dup) then Ret L
                   else if bool_decide (middle start dup ≤ i < start + 2 ^ dup) then Ret R else child i m.
Proof.
  intros Hs Hl Hi. destruct (middle_eq start dup Hdup) as [Em Ee]. assert (0 < 2 ^ (dup - 1)) by lia.
  unfold child, rd. rewrite !(bool_decide_eq_true_2 (0 ≤ i)) by done. cbn [children_ halved with_children].
  rewrite overwrite_lookup by (rewrite ?overwrite_length; lia). rewrite overwrite_lookup by lia.
  do 2 (case_bool_decide; try lia; try done).
Qed.

(** Its runs: the one of the leaf becomes two. *)
Definition halves : list run := [mkRun L (dup - 1) [L]; mkRun R (dup - 1) [R]].

Lemma halves_width : width halves = repeats (mkRun old dup [old]).
Proof.
  destruct (middle_eq start dup Hdup) as [Em Ee]. unfold halves. rewrite !width_cons, width_nil by (cbn; lia). unfold repeats. cbn. lia.
Qed.
Lemma halves_aligned off : off mod 2 ^ dup = 0 → aligned off halves.
Proof.
  destruct (middle_eq start dup Hdup) as [Em Ee]. assert (0 < 2 ^ (dup - 1)) by lia.
  assert (2 ^ dup = 2 * 2 ^ (dup - 1)) as Epow by lia. intros Hal. cbn [aligned halves]. unfold repeats. cbn [run_dup].
  apply Z.mod_divide in Hal as [z ->]; [|lia]. rewrite Epow.
  split; [|split; [|done]]; apply Z.mod_divide; [lia| |lia|]; [exists (2 * z)|exists (2 * z + 1)]; lia.
Qed.
Lemma halved_children rs1 rs2 :
  start = width rs1 → children_ m = (rs1 ++ [mkRun old dup [old]] ++ rs2) ≫= slots_of →
  children_ halved = (rs1 ++ halves ++ rs2) ≫= slots_of.
Proof.
  intros Hw Ec. destruct (middle_eq start dup Hdup) as [Emid Eend]. assert (0 < 2 ^ (dup - 1)) by lia.
  cbn [children_ halved with_children]. set (rH := mkRun old (dup - 1) [old]).
  assert (slots_of (mkRun old dup [old]) = slots_of rH ++ slots_of rH) as Eh.
  { unfold slots_of, repeats. cbn [run_child run_dup rH]. rewrite <- replicate_add. f_equal. lia. }
  assert (children_ m = (rs1 ++ rH :: rH :: rs2) ≫= slots_of) as ->
    by (rewrite Ec, !bind_app, !bind_cons, Eh; cbn [mbind list_bind]; by rewrite app_nil_r, <- !app_assoc).
  assert (Z.of_nat (length (slots_of rH)) = 2 ^ (dup - 1)) as Hlh by (apply repeats_length; cbn; lia).
  set (rL := mkRun L (dup - 1) [L]). set (rR := mkRun R (dup - 1) [R]).
  assert (repeats rL = 2 ^ (dup - 1) ∧ repeats rR = 2 ^ (dup - 1)) as [EL ER] by done.
  rewrite (overwrite_run rs1 rH (rH :: rs2) start (middle start dup) L rL); [|cbn; lia|lia|lia|lia|done].
  change (rs1 ++ halves ++ rs2) with (rs1 ++ rL :: rR :: rs2).
  rewrite !(cons_middle _ rs1 (_ :: _)), !(app_assoc rs1).
  apply overwrite_run; [cbn; lia| | |lia|done]; rewrite width_app, width_cons, width_nil by (cbn; lia); lia.
Qed.
End halved.

(** ** The heap after a split in two under one parent *)
Record split_heap (s s' : Alex) (parent old L R start dup : Z) (m : ModelNode) : Prop := {
  sh_root : root_node_ s' = root_node_ s;
  sh_parent : heap s !! parent = Some (ModelN m);
  sh_halved : heap s' !! parent = Some (ModelN (halved L R start dup m));
  sh_old : ∃ l, heap s !! old = Some (DataNode l) ∧ leaf_duplication_factor_ l = dup;
  sh_left : ∃ l, heap s' !! L = Some (DataNode l) ∧ leaf_duplication_factor_ l = dup - 1;
  sh_right : ∃ l, heap s' !! R = Some (DataNode l) ∧ leaf_duplication_factor_ l = dup - 1;
  sh_fresh : heap s !! L = None ∧ heap s !! R = None ∧ L ≠ R;
  sh_same q : q ≠ old → q ≠ parent → q ≠ L → q ≠ R → option_Forall2 same_but_links (heap s !! q) (heap s' !! q);
  sh_dup : 1 ≤ dup
}.

(** The two new leaves partition the pairs of the old one. *)
Record parted (m : ModelNode) (start dup : Z) (lL lR l : Leaf) : Prop := {
  parted_new : newborn (data lL) ∧ newborn (data lR);
  parted_all : contents (data l) = contents (data lL) ++ contents (data lR);
  parted_left k : k ∈ (contents (data lL)).*1 → predict k (mn_model m) < middle start dup;
  parted_right k : k ∈ (contents (data lR)).*1 → middle start dup ≤ predict k (mn_model m)
}.

(** ** The two halves in the place of the leaf *)
Section halves.
Context (s s' : Alex) (top old L R start dup : Z) (m : ModelNode).

Lemma split_nodup l1 l2 : NoDup (l1 ++ old :: l2) → (∀ q, q ∈ l1 ++ l2 → q ≠ L ∧ q ≠ R) → L ≠ R → NoDup (l1 ++ L :: R :: l2).
Proof.
  intros Hnd Hout HLR. apply NoDup_app in Hnd as (H1 & H2 & [H3 H4]%NoDup_cons). apply NoDup_app. split; [done|]. split.
  - intros q Hq. rewrite !elem_of_cons. destruct (Hout q); set_solver.
  - apply NoDup_cons. split; [|apply NoDup_cons; split; [|done]]; [rewrite elem_of_cons; intros [?|HL2]; [done|]|intros HR2].
    + by destruct (Hout L ltac:(set_solver)).
    + by destruct (Hout R ltac:(set_solver)).
Qed.

Lemma halves_stand l1 l2 (lL lR l : Leaf) :
  root_node_ s' = root_node_ s →
  heap s' !! L = Some (DataNode lL) → heap s' !! R = Some (DataNode lR) → heap s !! old = Some (DataNode l) →
  parted m start dup lL lR l → NoDup (l1 ++ old :: l2) → L ≠ R →
  (∀ q, q ∈ l1 ++ l2 → q ≠ L ∧ q ≠ R ∧ option_Forall2 same_but_links (heap s !! q) (heap s' !! q)) →
  chain (heap s') 0 (l1 ++ L :: R :: l2) →
  stands_for s s' [old] (moved old L R start dup m) l1 l2 [L; R].
Proof.
  intros Hroot EL ER Eo Hpart Hnd HLR Hout Hchain.
  assert (leaf_pairs (heap s') L = contents (data lL) ∧ leaf_pairs (heap s') R = contents (data lR) ∧
    leaf_pairs (heap s) old = contents (data l)) as (HpL & HpR & Hpo) by (unfold leaf_pairs; by rewrite EL, ER, Eo).
  constructor; [done| |done| | | |].
  - apply split_nodup; [done|intros q Hq; split; by apply Hout|done].
  - intros q Hq. by apply Hout.
  - intros q lq Hq Eq. assert (q = L ∨ q = R) as [->| ->] by set_solver; [rewrite EL in Eq|rewrite ER in Eq]; injection Eq as <-; apply Hpart.
  - rewrite !pairs_cons, HpL, HpR, Hpo, (parted_all _ _ _ _ _ _ Hpart). by rewrite !app_nil_r.
  - intros q q0 k Hq Hk Hq0 _. apply list_elem_of_singleton in Hq0 as ->. unfold moved. rewrite (bool_decide_eq_true_2 (old = old)) by done.
    assert (q = L ∨ q = R) as [->| ->] by set_solver.
    + rewrite HpL in Hk. by rewrite bool_decide_eq_true_2 by by apply (parted_left _ _ _ _ _ _ Hpart).
    + rewrite HpR in Hk. pose proof (parted_right _ _ _ _ _ _ Hpart k Hk). by rewrite bool_decide_eq_false_2 by lia.
Qed.
End halves.

Section split.
Context (s s' : Alex) (top parent old L R start dup : Z) (m : ModelNode).
Context (Hsh : split_heap s s' parent old L R start dup m) (Htop : top < 2 ^ 64).
Implicit Types (p q k key : Z) (ls : list Z) (d : nat).

Lemma split_local : local_change s s' top parent [old] (moved old L R start dup m).
Proof.
  destruct Hsh as [_ Ep Ep' (lo & Eo & _) _ _ (HLn & HRn & _) Hs _].
  assert (∀ d p ls q, covers d (heap s) top p ls → below d (heap s) p q → q ≠ L ∧ q ≠ R ∧ (q = old → old ∈ ls)) as Hbelow.
  { intros d p ls q Hc Hq. destruct (below_covers _ _ _ _ _ q Hc Hq) as (lq & Hcq & Hsub). destruct d as [|d]; [done|].
    cbn [covers] in Hcq. split; [|split]; intros ->; [by rewrite HLn in Hcq|by rewrite HRn in Hcq|].
    rewrite Eo in Hcq. subst lq. apply Hsub. set_solver. }
  constructor.
  - done.
  - done.
  - intros d p ls q Hc Hout Hq Hqp. destruct (Hbelow d p ls q Hc Hq) as (? & ? & Ho). apply Hs; [|done..].
    intros ->. apply (Hout old); [set_solver|by apply Ho].
  - intros d p ls Hc Hbl Hne. assert (below d (heap s) p p) as Hp by (destruct d; [done|by left]).
    destruct (Hbelow d p ls p Hc Hp) as (? & ? & _). apply Hs; [|done..]. intros ->. destruct d as [|d]; [done|].
    cbn [below] in Hbl. rewrite Eo in Hbl. by destruct Hbl as [?|[]].
  - intros n En. exists (ModelN (halved L R start dup m)). split; [done|]. by assert (n = ModelN m) as -> by congruence.
  - intros key q Hq. unfold moved. rewrite bool_decide_eq_false_2; [done|]. intros ->. set_solver.
Qed.

Lemma split_parent d x y b :
  covers d (heap s) top parent (x ++ [old] ++ y) → NoDup (x ++ [old] ++ y) →
  0 ≤ b < num_children_ m → child b m = Ret old → start = start_of b (2 ^ dup) →
  covers d (heap s') top parent (x ++ [L; R] ++ y) ∧ moves s s' top (moved old L R start dup m) d parent.
Proof.
  intros Hcp Hnd Hb Hch Hst. pose proof split_local as Hlc. pose proof Hsh as [_ Ep Ep' (lo & Eo & Edup) (lL & EL & DL) (lR & ER & DR) _ _ Hdup].
  destruct d as [|d]; [done|]. pose proof Hcp as Hc. cbn [covers] in Hc. rewrite Ep in Hc.
  destruct Hc as (Hm & rs & Hne & Ec & Hn & Els & Hal & Hf).
  destruct (leaf_run d (heap s) top rs b m old lo Ec Hn Hal Hf Eo Hb Hch) as (rs1 & rs2 & -> & Ew & Hbr). rewrite Edup in Ew, Hbr.
  rewrite Edup in *. rewrite <- Hst in Ew. destruct (middle_eq start dup Hdup) as [Emid Eend]. assert (0 < 2 ^ (dup - 1)) by lia.
  set (ro := mkRun old dup [old]) in *. change (rs1 ++ ro :: rs2) with (rs1 ++ [ro] ++ rs2) in *.
  assert (x = rs1 ≫= run_leaves ∧ y = rs2 ≫= run_leaves) as [-> ->].
  { rewrite !bind_app in Els. cbn [mbind list_bind ro run_leaves app] in Els. by apply (pivot_unique old). }
  assert (∃ d', d = S d') as [d' ->].
  { apply Forall_app in Hf as [_ [(Hc0 & _) _]%Forall_cons]. destruct d as [|d']; [done|by exists d']. }
  assert (parent_runs s top (S d') m rs1 [ro] rs2) as Hpr by (constructor; [done..|by rewrite <- Els]).
  assert (Forall (run_ok (S d') (heap s') top) (halves L R dup)) as Hrok.
  { unfold halves. rewrite !Forall_cons, Forall_nil. unfold run_ok. cbn [run_child run_dup run_leaves covers]. rewrite EL, ER.
    split; [|split; [|done]]; (split; [done|]; split; [lia|by eexists]). }
  assert (width (halves L R dup) = width [ro]) as Hwidth
    by (rewrite (halves_width old L R start dup Hdup), width_cons, width_nil by (cbn; lia); unfold ro, repeats; cbn; lia).
  assert (aligned (width rs1) (halves L R dup)) as Hhal.
  { apply (halves_aligned L R start dup Hdup). rewrite <- (Z.add_0_l (width rs1)).
    assert (Forall (λ r, 0 ≤ run_dup r) rs1) as Hd1 by (apply Forall_app in Hf as [Hf _]; eapply Forall_impl; [exact Hf|]; by intros r (_ & ? & _)).
    by apply aligned_app in Hal as [_ [Hal _]]. }
  pose proof (halved_children old L R start dup m Hdup rs1 rs2 Ew Ec) as Echildren.
  split.
  - assert (covers (S (S d')) (heap s') top parent ((rs1 ++ halves L R dup ++ rs2) ≫= run_leaves)) as Hcov.
    { by apply (parent_covers' s s' top parent [old] (moved old L R start dup m) Hlc (S d') m (halved L R start dup m) rs1 [ro] rs2). }
    rewrite !bind_app in Hcov. exact Hcov.
  - apply (parent_moves s s' top parent [old] (moved old L R start dup m) Hlc (S d') m (halved L R start dup m) rs1 [ro] rs2 (halves L R dup));
      [done..|].
    intros fuel key Hfuel Hk Hkb. rewrite width_cons, width_nil in Hkb by (cbn; lia). unfold repeats in Hkb. cbn [ro run_dup] in Hkb.
    rewrite Z.add_0_r, <- Ew in Hkb. exists old. destruct fuel as [|fuel]; [lia|].
    assert (child (bucket_of key m) m = Ret old) as Ho
      by (apply (child_at m (rs1 ++ ro :: rs2) rs1 ro rs2); [done|done|cbn; lia|unfold repeats; cbn; lia]).
    rewrite (reach_model _ _ _ _ _ _ Ep Ho). split; [by apply (reach_data _ _ _ _ lo)|].
    assert (Z.of_nat (length (children_ m)) = num_children_ m) as Hlen by (rewrite Hn, Ec; done).
    assert (start + 2 ^ dup ≤ num_children_ m) as Hroom.
    { rewrite Hn, !width_app, width_cons, width_nil by (cbn; lia). unfold repeats, width in *. cbn [ro run_dup]. lia. }
    assert (0 ≤ bucket_of key m < num_children_ m) as Hbk by (apply bucket_of_range; lia).
    assert (0 ≤ start) as Hs0 by (rewrite Ew; unfold width; lia).
    pose proof (child_halved L R start dup m Hdup (bucket_of key m) Hs0 ltac:(lia) ltac:(lia)) as Hch'.
    change (bucket_of key m) with (bucket_of key (halved L R start dup m)) in Hch' at 1.
    unfold moved. rewrite (bool_decide_eq_true_2 (old = old)) by done.
    assert (predict key (mn_model m) < middle start dup ↔ bucket_of key m < middle start dup) as Hmid by (unfold bucket_of in *; lia).
    destruct (decide (bucket_of key m < middle start dup)) as [Hlt|Hlt].
    + rewrite bool_decide_eq_true_2 in Hch' by lia. rewrite (bool_decide_eq_true_2 (_ < _)) by lia.
      rewrite (reach_model _ _ _ _ _ _ Ep' Hch'). by apply (reach_data _ _ _ _ lL).
    + rewrite bool_decide_eq_false_2, bool_decide_eq_true_2 in Hch' by lia. rewrite (bool_decide_eq_false_2 (_ < _)) by lia.
      rewrite (reach_model _ _ _ _ _ _ Ep' Hch'). by apply (reach_data _ _ _ _ lR).
Qed.

Lemma split_heap_ok l1 l2 b lL lR l :
  tree_ok top s (l1 ++ old :: l2) → below (size (heap s)) (heap s) (root_node_ s) parent →
  0 ≤ b < num_children_ m → child b m = Ret old → start = start_of b (2 ^ dup) →
  heap s' !! L = Some (DataNode lL) → heap s' !! R = Some (DataNode lR) → heap s !! old = Some (DataNode l) →
  parted m start dup lL lR l → chain (heap s') 0 (l1 ++ L :: R :: l2) →
  tree_ok top s' (l1 ++ L :: R :: l2) ∧ pairs (heap s') (l1 ++ L :: R :: l2) = pairs (heap s) (l1 ++ old :: l2) ∧
  (∀ key, 0 ≤ key ≤ top → ∃ q, route key s = Ret q ∧ route key s' = Ret (moved old L R start dup m key q)).
Proof.
  intros Hok Hbl Hb Hch Hst EL ER Eo Hpart Hchain. pose proof Hsh as [Hroot Ep Ep' _ _ _ (HLn & HRn & HLR) Hs Hdup].
  pose proof Hok as [Hc Hnd _ _ _ _]. pose proof split_local as Hlc.
  destruct (below_segment _ _ _ _ _ _ Hc Hbl) as (lp & u & v & Hlp & Els).
  assert (old ∈ lp) as (x & y & ->)%list_elem_of_split by by apply (child_covered _ _ _ _ _ m b old l Hlp).
  assert (NoDup (x ++ old :: y)) as Hndp by (rewrite Els in Hnd; by apply NoDup_app in Hnd as (_ & _ & (? & _)%NoDup_app)).
  destruct (covers_replace s s' top parent [old] (moved old L R start dup m) Hlc 0 (x ++ [old] ++ y) (x ++ [L; R] ++ y))
    with (d := size (heap s)) (p := root_node_ s) (ls := l1 ++ old :: l2) as (u' & v' & Els' & Hc' & Hmoves); [set_solver| |done..|].
  { intros d Hcd. by apply (split_parent d x y b). }
  assert (l1 = u' ++ x ∧ l2 = y ++ v') as [-> ->].
  { apply (pivot_unique old); [done|]. rewrite Els'. by rewrite <- !app_assoc. }
  replace (u' ++ (x ++ [L; R] ++ y) ++ v') with ((u' ++ x) ++ [L; R] ++ y ++ v') in Hc' by by rewrite <- !app_assoc.
  apply (local_change_ok s s' top parent [old] (moved old L R start dup m) Hlc (size (heap s)) (u' ++ x) (y ++ v') [L; R]); [done| |done|lia|done].
  apply (halves_stand s s' old L R start dup m _ _ lL lR l); try done.
  intros q Hq. destruct (covers_leaf _ _ _ _ _ q Hc) as (lq & Eq); [set_solver|].
  assert (q ≠ L ∧ q ≠ R ∧ q ≠ parent) as (? & ? & ?) by (repeat split; congruence). split; [done|]. split; [done|]. apply Hs; [|done..].
  intros ->. apply NoDup_app in Hnd as (_ & Hd & [Hn _]%NoDup_cons). set_solver.
Qed.
End split.

(** ** What a split does to the heap *)
(** The model nodes stay, but for the parent and the nodes of [news]. *)
Record grown (s s' : Alex) (parent : Z) (news : list Z) : Prop := {
  gr_heap : heap_ok s';
  gr_super : superroot_ s' = superroot_ s;
  gr_models q m : q ≠ parent → q ∉ news → heap s !! q = Some (ModelN m) ↔ heap s' !! q = Some (ModelN m)
}.
Lemma same_links_model (x y : option AlexTreeNode) (m : ModelNode) :
  option_Forall2 same_but_links x y → x = Some (ModelN m) ↔ y = Some (ModelN m).
Proof. intros [[|m1] [|m2] H|]; cbn in *; [done..|by subst|done]. Qed.
(** Neither has a model node. *)
Lemma no_model (x y : option AlexTreeNode) (m : ModelNode) :
  (x = None ∨ ∃ l, x = Some (DataNode l)) → (y = None ∨ ∃ l, y = Some (DataNode l)) → x = Some (ModelN m) ↔ y = Some (ModelN m).
Proof. intros [->|[? ->]] [->|[? ->]]; done. Qed.

(** ** [split_sideways] *)
Section sideways.
Context (junk : Z → Z) (log2 : double → double) (max_data_node_slots : Z).
Implicit Types (s : Alex) (p q k key top : Z) (ls : list Z) (m : ModelNode).

Lemma split_sideways_spec nodes top s ls parent bucketID m old l reuse_model :
  tree_ok top s ls → heap_ok s → below (size (heap s)) (heap s) (root_node_ s) parent →
  heap s !! parent = Some (ModelN m) → 0 ≤ bucketID < num_children_ m → child bucketID m = Ret old →
  heap s !! old = Some (DataNode l) →
  let dup := leaf_duplication_factor_ l in let start := start_of bucketID (2 ^ dup) in
  splittable top nodes m l start dup →
  let L := next_addr s in let R := next_addr s + 1 in
  ∃ s' l1 l2, ls = l1 ++ old :: l2 ∧
    split_sideways junk log2 max_data_node_slots parent bucketID 1 nodes reuse_model s = Ret s' ∧
    tree_ok top s' (l1 ++ L :: R :: l2) ∧ (born s' L ∧ born s' R) ∧ grown s s' parent [] ∧ root_node_ s' = root_node_ s ∧ stats_ s' = stats_ (add_nodes 0 1 s) ∧
    pairs (heap s') (l1 ++ L :: R :: l2) = pairs (heap s) ls ∧
    heap s' !! parent = Some (ModelN (halved L R start dup m)) ∧
    (∀ key, 0 ≤ key ≤ top → ∃ q, route key s = Ret q ∧ route key s' = Ret (moved old L R start dup m key q)).
Proof.
  intros Hok Hh Hbl Ep Hb Hch El dup start Hsp L R.
  assert (old ∈ ls) as Hin.
  { destruct (below_covers _ _ _ _ _ _ (tree_covers _ _ _ Hok) Hbl) as (lq & Hq & Hsub). apply Hsub.
    by apply (child_covered _ _ _ _ _ m bucketID old l Hq). }
  apply list_elem_of_split in Hin as (l1 & l2 & ->). pose proof (sp_dup _ _ _ _ _ _ Hsp) as Hdup.
  destruct (create_children_spec junk log2 max_data_node_slots top nodes s l1 old l2 parent l m start dup reuse_model Hh (tree_chain _ _ _ Hok)
              (tree_nodup _ _ _ Hok) El Ep Hsp) as (h' & lL & lR & E & Hc & Ep' & EL & ER & [no Eo] & DL & DR & WL & WR & Hall & Hl & Hr & Hrest).
  set (s' := mkAlex (base.delete old h') (next_addr s + 2) (root_node_ s) (superroot_ s) (stats_ (add_nodes 0 1 s)) (istats_ s)).
  exists s', l1, l2. split; [done|]. split.
  { unfold split_sideways. rewrite (get_model_node _ _ _ Ep), res_bind_ret, Hch, res_bind_ret, (get_data_leaf _ _ _ El), res_bind_ret.
    fold dup. rewrite !Z.shiftl_1_l. assert (2 ^ 1 ≤ 2 ^ dup) by (apply Z.pow_le_mono_r; lia).
    rewrite bool_decide_eq_false_2, res_bind_ret by lia. rewrite (get_data_leaf _ _ _ El), res_bind_ret. fold dup.
    rewrite (Z.max_r 1 dup) by lia. fold start. fold (create_children junk log2 max_data_node_slots nodes old parent dup reuse_model start s). rewrite E, res_bind_ret. unfold delete_node, get_node. cbn [heap].
    rewrite bool_decide_eq_false_2 by (intros ->; by destruct Hh as (_ & H0 & _); rewrite H0 in El).
    rewrite Eo. cbn [of_option]. rewrite !res_bind_ret. unfold s', add_nodes, with_stats, with_heap. cbn. do 3 f_equal; lia. }
  pose proof Hh as (Hna & H0 & Hfresh). pose proof (heap_ok_lt _ _ _ Hh El) as Holt. pose proof (heap_ok_lt _ _ _ Hh Ep) as Hplt.
  assert (parent ≠ old) as Hpo by (intros ->; congruence).
  assert (∀ q, q ≠ old → heap s' !! q = h' !! q) as Hdel by (intros q Hq; apply lookup_delete_ne; done).
  assert (u8 (dup - 1) = dup - 1) as Eu by (apply Z.mod_small; lia). rewrite Eu in DL, DR.
  assert (heap s' !! L = Some (DataNode lL) ∧ heap s' !! R = Some (DataNode lR)) as [EL' ER'] by (rewrite !Hdel; unfold L, R; lia || done).
  assert (split_heap s s' parent old L R start dup m) as Hsplit.
  { constructor; [done|done|by rewrite Hdel|by exists l|by exists lL|by exists lR| | |lia].
    - unfold L, R. split; [apply Hfresh; lia|]. split; [apply Hfresh|]; lia.
    - intros q ????. rewrite Hdel by done. by apply Hrest. }
  assert (chain (heap s') 0 (l1 ++ L :: R :: l2)) as Hc'.
  { apply (leaf_chain_frame h'); [|done]. intros q lq Hq Eq. exists lq. rewrite Hdel; [done|]. intros ->.
    pose proof (tree_nodup _ _ _ Hok) as (_ & Hdis & [Hn _]%NoDup_cons)%NoDup_app. unfold L, R in Hq.
    rewrite elem_of_app, !elem_of_cons in Hq. destruct Hq as [Hq|[?|[?|?]]]; [|lia|lia|done]. apply (Hdis old Hq). left. }
  destruct (split_heap_ok s s' top parent old L R start dup m Hsplit ltac:(pose proof (sp_top _ _ _ _ _ _ Hsp); done) l1 l2 bucketID lL lR l) as (Hok' & Hpairs & Hroute); try done.
  split; [done|]. split; [split; by eexists|]. split; [|split; [done|split; [done|split; [done|split; [apply Hsplit|done]]]]].
  constructor; [split; [cbn; lia|split]|done|].
  - rewrite Hdel by (intros <-; congruence). assert (option_Forall2 same_but_links (heap s !! 0) (h' !! 0)) as Hz
      by (apply Hrest; intros E0; rewrite ?E0 in *; congruence || lia). rewrite H0 in Hz. by inversion Hz.
  - intros q Hq. cbn in Hq. rewrite Hdel by lia. assert (option_Forall2 same_but_links (heap s !! q) (h' !! q)) as Hz
      by (apply Hrest; lia). rewrite (Hfresh q ltac:(lia)) in Hz. by inversion Hz.
  - intros q mq Hq _. destruct (decide (q = old)) as [->|Hqo].
    { apply no_model; [right; by exists l|left; apply lookup_delete_eq]. }
    destruct (decide (q = L)) as [->|HqL]; [apply no_model; [left; apply Hfresh; unfold L; lia|right; by exists lL]|].
    destruct (decide (q = R)) as [->|HqR]; [apply no_model; [left; apply Hfresh; unfold R; lia|right; by exists lR]|].
    apply same_links_model. by apply (sh_same _ _ _ _ _ _ _ _ _ Hsplit).
Qed.
End sideways.
