(* ===== verification/AlexMerge.v ===== *)
(** * ALEX: an empty leaf merged with its sibling

    The neighbours of a leaf are linked to each other and the rest of the list
    stays.  The run of the leaf and that of its sibling become one, and the tree
    covers the rest as before. *)
From S2P Require Import Prelude Ieee AlexBase AlexNode AlexOps AlexInv AlexBuild AlexCost AlexFanout AlexTree AlexTreeOps AlexRoute AlexTreeInv AlexTreeOk AlexTreeLookup AlexLink AlexSubtree AlexReplace AlexSplit AlexTreeSplit.

Section unlink.
Implicit Types (h : heap_t) (s : Alex) (p q prev next : Z) (ls : list Z).

Definition prev_of (l1 : list Z) : Z := default 0 (last l1).
Definition next_of (l2 : list Z) : Z := default 0 (head l2).

Lemma chain_unlink h l1 x l2 :
  chain h 0 (l1 ++ x :: l2) → NoDup (l1 ++ x :: l2) → h !! 0 = None →
  chain (leaf_alter (with_prev (prev_of l1)) (next_of l2) (leaf_alter (with_next (next_of l2)) (prev_of l1) h)) 0 (l1 ++ l2).
Proof.
  intros Hc Hnd H0. set (P := prev_of l1). set (N := next_of l2). set (h1 := leaf_alter (with_next N) P h).
  apply chain_seg, seg_app in Hc as [Hc1 Hc2]. cbn [head default from_option id] in Hc1.
  assert (seg h x l2 0) as Hc3 by (by destruct Hc2 as (_ & _ & ?)). clear Hc2.
  apply NoDup_app in Hnd as (Hn1 & Hdis & [_ Hn2]%NoDup_cons).
  assert (∀ p, p ∈ l1 → p ≠ 0 ∧ p ∉ l2) as Hl1.
  { intros p Hp. split; [|intros Hp2; apply (Hdis p Hp); set_solver]. intros ->. apply list_elem_of_split in Hp as (a & b & ->).
    apply seg_app in Hc1 as [_ (? & _)]. done. }
  assert (∀ p, p ∈ l2 → p ≠ 0) as Hl2.
  { intros p Hp ->. apply list_elem_of_split in Hp as (a & b & ->). apply seg_app in Hc3 as [_ (? & _)]. done. }
  assert (P ≠ 0 → P ∈ l1) as HP.
  { unfold P, prev_of. destruct (last l1) as [q|] eqn:E; [|done]. intros _. apply last_Some in E as (l & ->). cbn. set_solver. }
  assert (N ≠ 0 → N ∈ l2) as HN by (unfold N, next_of; destruct l2; [done|cbn; set_solver]).
  assert (h1 !! 0 = None) as H10.
  { unfold h1. destruct (decide (P = 0)) as [->|Hne]; [by rewrite leaf_alter_None|by rewrite leaf_alter_ne]. }
  apply chain_seg, seg_app. split.
  - apply (seg_frame h1).
    + intros p Hp. destruct (Hl1 p Hp) as [Hp0 Hp2]. apply leaf_alter_ne. intros <-. destruct (decide (N = 0)); [done|]. by apply Hp2, HN.
    + apply (seg_frame (match last l1 with Some q => leaf_alter (with_next N) q h | None => h end)); [|by eapply seg_set_next].
      intros p Hp. unfold h1, P, prev_of. destruct (last l1) as [q|] eqn:Eq; [done|]. apply last_None in Eq. subst. by apply not_elem_of_nil in Hp.
  - fold P. apply (seg_frame (match head l2 with Some q => leaf_alter (with_prev P) q h1 | None => h1 end)).
    + intros p Hp. unfold N, next_of. destruct l2 as [|q l2]; [by apply not_elem_of_nil in Hp|done].
    + apply (seg_set_prev _ x); [done|]. apply (seg_frame h); [|done]. intros p Hp. unfold h1. apply leaf_alter_ne.
      intros <-. destruct (decide (P = 0)) as [E|E]; [by apply (Hl2 P)|]. destruct (Hl1 P (HP E)). done.
Qed.
End unlink.

(** ** Paths *)
Section path.
Implicit Types (h : heap_t) (s : Alex) (p q top : Z) (ls : list Z) (d : nat).

(** The model nodes from the root to [p], the last first, with the buckets
    taken; the superroot ends it. *)
Fixpoint path_ok h (superroot root : Z) (path : list TraversalNode) (p : Z) : Prop :=
  match path with
  | [] => False
  | [(q, b)] => q = superroot ∧ b = 0 ∧ p = root
  | (q, b) :: path => (∃ m, h !! q = Some (ModelN m) ∧ 0 ≤ b < num_children_ m ∧ child b m = Ret p) ∧ path_ok h superroot root path q
  end.

Lemma path_ok_cons h superroot root q b g path p :
  path_ok h superroot root ((q, b) :: g :: path) p ↔
  (∃ m, h !! q = Some (ModelN m) ∧ 0 ≤ b < num_children_ m ∧ child b m = Ret p) ∧ path_ok h superroot root (g :: path) q.
Proof. done. Qed.

Lemma child_in b m c : child b m = Ret c → Some c ∈ children_ m.
Proof.
  unfold child, rd. case_bool_decide; [|done]. destruct (children_ m !! _) as [x|] eqn:Ex; [|done]. cbn.
  destruct x; [|done]. intros [= ->]. by eapply list_elem_of_lookup_2.
Qed.

Lemma below_child d h p q m c : below d h p q → h !! q = Some (ModelN m) → Some c ∈ children_ m → below (S d) h p c.
Proof.
  revert p. induction d as [|d IH]; intros p Hb Eq Hin; [done|]. destruct Hb as [->|Hb].
  - right. rewrite Eq. exists c. split; [done|]. by left.
  - right. destruct (h !! p) as [[l|mp]|]; [done| |done]. destruct Hb as (x & Hx & Hb). exists x. split; [done|]. by apply IH.
Qed.

(** The nodes of a path are below the root. *)
Lemma path_below h superroot root : ∀ path p, path_ok h superroot root path p → below (length path) h root p.
Proof.
  induction path as [|[q b] [|g path] IH]; intros p; [done|intros (_ & _ & ->); by left|].
  rewrite path_ok_cons. intros [(m & Eq & _ & Hch) Hp]. apply (below_child _ h root q m p); [by apply IH|done|by eapply child_in].
Qed.
Lemma path_below_root top s ls superroot path p :
  tree_ok top s ls → path_ok (heap s) superroot (root_node_ s) path p → below (size (heap s)) (heap s) (root_node_ s) p.
Proof. intros Hok Hp. apply (below_cap _ top _ (length path) _ ls); [apply Hok|by eapply path_below]. Qed.

(** A path survives a change below its last model node. *)
Lemma path_frame h h' top superroot root : ∀ path p ls d, covers d h top root ls →
  path_ok h superroot root path p → is_Some (h !! p) →
  (∀ d q lq, covers d h top q lq → below d h q p → q ≠ p → option_Forall2 same_but_links (h !! q) (h' !! q)) →
  path_ok h' superroot root path p.
Proof.
  intros path p0 ls d Hc. assert (∀ path q e, path_ok h superroot root path q → below e h q p0 → is_Some (h !! p0) →
    (∀ d q lq, covers d h top q lq → below d h q p0 → q ≠ p0 → option_Forall2 same_but_links (h !! q) (h' !! q)) →
    path_ok h' superroot root path q) as Hgen; [|intros Hp Hs Hf; by apply (Hgen path p0 1%nat); [|left|..]].
  clear path. induction path as [|[q b] [|g path] IH]; intros p e Hp Hb Hs Hf; [done|done|].
  rewrite path_ok_cons in Hp |- *. destruct Hp as [(m & Eq & Hr & Hch) Hp].
  assert (below (S e) h q p0) as Hbq by (right; rewrite Eq; exists p; split; [by eapply child_in|done]).
  split; [|by apply (IH q (S e))]. pose proof (path_below _ _ _ _ _ Hp) as Hbr.
  pose proof (below_cap h top d _ root ls q Hc Hbr) as Hbr'. destruct (below_covers d h top root ls q Hc Hbr') as (lq & Hlq & _).
  assert (q ≠ p0) as Hne.
  { intros <-. destruct d as [|d]; [done|]. by apply (covers_acyclic h top (S d) q m p lq e Hlq Eq); [eapply child_in|]. }
  pose proof (Hf d q lq Hlq (below_cap h top d _ q lq p0 Hlq Hbq) Hne) as Hsame. rewrite Eq in Hsame.
  destruct (h' !! q) as [[l'|m']|]; inversion Hsame as [? ? Hm|]; [done|]. cbn in Hm. subst. by exists m'.
Qed.

Lemma descend_path_ok choose s superroot root top : (∀ m, 0 < num_children_ m → 0 ≤ choose m < num_children_ m) →
  ∀ fuel d p ls P q Q, covers d (heap s) top p ls → path_ok (heap s) superroot root P p →
  descend fuel choose p P s = Ret (q, Q) → path_ok (heap s) superroot root Q q.
Proof.
  intros Hch. induction fuel as [|fuel IH]; intros d p ls P q Q Hc HP E; [done|]. cbn [descend] in E. unfold get_node in E.
  destruct (heap s !! p) as [n|] eqn:Ep; [|discriminate E]. cbn [of_option] in E. rewrite res_bind_ret in E.
  destruct n as [l|m]; [injection E as <- <-; done|]. destruct (child (choose m) m) as [c| |] eqn:Ec; [|discriminate E|discriminate E].
  rewrite res_bind_ret in E. destruct d as [|d]; [done|].
  destruct (covers_child d (heap s) top p m c ls Hc Ep (child_in _ _ _ Ec)) as (lc & Hlc).
  apply (IH d c lc _ q Q Hlc) in E; [done|]. destruct P as [|g P]; [done|]. apply path_ok_cons. split; [|done]. exists m.
  split; [done|]. split; [|done]. apply Hch. cbn [covers] in Hc. rewrite Ep in Hc. destruct Hc as (_ & rs & Hne & _ & -> & _ & _ & Hf).
  destruct rs as [|r rs]; [done|]. apply Forall_cons in Hf as [(_ & Hd0 & _) _]. rewrite width_cons by done. unfold repeats, width. lia.
Qed.
End path.

(** ** The sibling *)
Section sibling.
Implicit Types (h : heap_t) (s : Alex) (rs : list run) (p b : Z) (m : ModelNode).

Lemma width_zero rs : Forall (λ r, 0 ≤ run_dup r) rs → width rs = 0 → rs = [].
Proof.
  intros [|r rs' Hr Hd]; [done|]. rewrite width_cons by done. unfold repeats, width. lia.
Qed.

Definition in_order {A} (right : bool) (x y : A) : list A := if right then [x; y] else [y; x].

Lemma start_of_aligned x r : 0 < r → 0 ≤ x → x mod r = 0 → start_of x r = x ∧ (1 ≤ x → start_of (x - 1) r = x - r).
Proof.
  intros Hr Hx Hm. unfold start_of. rewrite Z.rem_mod_nonneg by lia. split; [lia|]. intros Hx1. rewrite Z.rem_mod_nonneg by lia.
  apply Z.mod_divide in Hm as [z ->]; [|lia]. replace (z * r - 1) with (r - 1 + (z - 1) * r) at 2 by lia.
  rewrite Z.mod_add, Z.mod_small by lia. lia.
Qed.

(** The buckets of the leaf and of its sibling, side by side. *)
Lemma sibling_runs d s top m rs leaf b l adj a right :
  children_ m = rs ≫= slots_of → num_children_ m = width rs → aligned 0 rs → Forall (run_ok d (heap s) top) rs →
  heap s !! leaf = Some (DataNode l) → 0 ≤ b < num_children_ m → child b m = Ret leaf →
  sibling leaf b l m s = Ret (Some (adj, a, right)) →
  let dup := leaf_duplication_factor_ l in
  heap s !! adj = Some (DataNode a) ∧ leaf_duplication_factor_ a = dup ∧ 0 ≤ dup ∧
  ∃ rs1 rs2, rs = rs1 ++ in_order right (mkRun leaf dup [leaf]) (mkRun adj dup [adj]) ++ rs2 ∧
    width rs1 mod 2 ^ (dup + 1) = 0 ∧ width rs1 ≤ b < width rs1 + 2 * 2 ^ dup ∧
    start_of b (2 ^ dup) = width rs1 + if right then 0 else 2 ^ dup.
Proof.
  intros Ec Hn Hal Hf El Hb Hch Hsib dup.
  assert (Forall (λ r, 0 ≤ run_dup r) rs) as Hd by (eapply Forall_impl; [exact Hf|]; by intros r (_ & ? & _)).
  destruct (leaf_run d (heap s) top rs b m leaf l Ec Hn Hal Hf El Hb Hch) as (rs1 & rs2 & E & Est & Hbr). fold dup in E, Est, Hbr.
  assert (0 ≤ dup) as Hdup by (rewrite E in Hd; apply Forall_app in Hd as [_ [? _]%Forall_cons]; done).
  assert (0 < 2 ^ dup) as Hpow by lia.
  unfold sibling in Hsib. fold dup in Hsib. rewrite !Z.shiftl_1_l, Z.shiftl_mul_pow2, Z.pow_1_r, Est in Hsib by lia.
  assert (0 ≤ width rs1) as Hw0 by (unfold width; lia).
  assert (width rs1 mod 2 ^ dup = 0) as Hwm.
  { rewrite E in Hal, Hd. apply Forall_app in Hd as [Hd1 _]. by apply aligned_app in Hal as [_ [Hal _]]. }
  set (br := bool_decide (Z.rem b (2 ^ dup * 2) = Z.rem b (2 ^ dup))) in *.
  set (c := if br then width rs1 + 2 ^ dup else width rs1 - 1) in *.
  destruct (child c m) as [adj'| |] eqn:Ecc; [|discriminate Hsib|discriminate Hsib]. rewrite res_bind_ret in Hsib.
  unfold get_node in Hsib. destruct (heap s !! adj') as [[a'|ma]|] eqn:Ea; [|discriminate Hsib|discriminate Hsib]. cbn [of_option] in Hsib.
  rewrite res_bind_ret in Hsib. case_bool_decide as Hda; [|discriminate Hsib]. injection Hsib as <- <- <-.
  split; [done|]. split; [done|]. split; [done|].
  assert (0 ≤ c < num_children_ m) as Hc.
  { unfold child, rd in Ecc. case_bool_decide; [|done]. split; [done|]. destruct (children_ m !! _) eqn:Ex; [|done].
    apply lookup_lt_Some in Ex. rewrite Hn. unfold width. rewrite Ec in Ex. lia. }
  destruct (leaf_run d (heap s) top rs c m adj' a' Ec Hn Hal Hf Ea Hc Ecc) as (rs1' & rs2' & E' & Est' & Hcr). rewrite <- Hda in E', Est', Hcr.
  assert (Z.rem b (2 ^ dup) = b - width rs1) as Hrem by (unfold start_of in Est; lia).
  assert (b mod (2 ^ dup * 2) = Z.rem b (2 ^ dup * 2)) as Hrem2 by (rewrite Z.rem_mod_nonneg; lia).
  assert (2 ^ (dup + 1) = 2 ^ dup * 2) as Epow by (rewrite Z.pow_add_r by lia; lia). rewrite Epow.
  destruct br eqn:Ebr; unfold br in Ebr; cbn [in_order]; unfold c in Est', Hcr.
  - apply bool_decide_eq_true in Ebr. exists rs1.
    destruct (runs_ordered rs1 (mkRun leaf dup [leaf]) rs2 rs1' (mkRun adj' dup [adj']) rs2' (width rs1) (width rs1 + 2 ^ dup))
      as [(<- & _)|(mid & -> & ->)]; [by rewrite <- E|congruence|lia|unfold repeats; cbn; lia|unfold repeats; cbn; lia| |].
    { destruct (start_of_aligned (width rs1 + 2 ^ dup) (2 ^ dup)) as [E1 _]; [lia|lia| |lia].
      rewrite <- Z.add_mod_idemp_r, Z.mod_same, Z.add_0_r by lia. done. }
    exists rs2'. assert (mid = []) as ->.
    { rewrite E in Hd. apply Forall_app in Hd as [_ [_ [Hdm _]%Forall_app]%Forall_cons]. apply width_zero; [done|].
      destruct (start_of_aligned (width rs1 + 2 ^ dup) (2 ^ dup)) as [E1 _]; [lia|lia|rewrite <- Z.add_mod_idemp_r, Z.mod_same, Z.add_0_r by lia; done|].
      rewrite E1, width_app, width_cons in Est' by (cbn; lia). unfold repeats in Est'. cbn in Est'. lia. }
    split; [exact E|]. split; [|split; lia].
    replace (width rs1) with (b - (b - width rs1)) by lia. rewrite <- Hrem, <- Ebr, <- Hrem2.
    rewrite Zminus_mod_idemp_r, Z.sub_diag. done.
  - apply bool_decide_eq_false in Ebr.
    destruct (start_of_aligned (width rs1) (2 ^ dup)) as [_ E1]; [lia|done|done|]. specialize (E1 ltac:(lia)).
    destruct (runs_ordered rs1' (mkRun adj' dup [adj']) rs2' rs1 (mkRun leaf dup [leaf]) rs2 (width rs1 - 1) (width rs1))
      as [(<- & _)|(mid & -> & ->)]; [by rewrite <- E'|congruence|lia|unfold repeats; cbn; lia|unfold repeats; cbn; lia|lia|].
    rewrite width_app, width_cons in * by (cbn; lia). unfold repeats in *. cbn [run_dup] in *.
    assert (mid = []) as ->.
    { rewrite E' in Hd. apply Forall_app in Hd as [_ [_ [Hdm _]%Forall_app]%Forall_cons]. apply width_zero; [done|]. lia. }
    rewrite width_nil in *. exists rs1', rs2. split; [by rewrite E'|]. split; [|split; lia].
    rewrite Z.add_0_r in *. rewrite <- Z.add_mod_idemp_r, Z.mod_same, Z.add_0_r in Hwm by lia.
    apply Z.mod_divide in Hwm as [z Hz]; [|lia]. destruct (Z.Even_or_Odd z) as [[y ->]|[y ->]].
    + rewrite Hz. apply Z.mod_divide; [lia|]. exists y. lia.
    + exfalso. apply Ebr. rewrite <- Hrem2, Hrem. replace b with (b - (width rs1' + 2 ^ dup) + (y + 1) * (2 ^ dup * 2)) at 1 by lia.
      rewrite Z.mod_add, Z.mod_small by lia. done.
Qed.

(** They are neighbours in the list of leaves. *)
Lemma sibling_list d s top parent m ls leaf b l adj a right :
  covers d (heap s) top parent ls → heap s !! parent = Some (ModelN m) →
  heap s !! leaf = Some (DataNode l) → 0 ≤ b < num_children_ m → child b m = Ret leaf →
  sibling leaf b l m s = Ret (Some (adj, a, right)) →
  heap s !! adj = Some (DataNode a) ∧ leaf_duplication_factor_ a = leaf_duplication_factor_ l ∧ 0 ≤ leaf_duplication_factor_ l ∧
  2 * 2 ^ leaf_duplication_factor_ l ≤ num_children_ m ∧
  (∃ x y, ls = x ++ in_order right leaf adj ++ y) ∧ 0 ≤ start_of b (2 ^ leaf_duplication_factor_ l) ∧
  start_of b (2 ^ leaf_duplication_factor_ l) + 2 ^ leaf_duplication_factor_ l ≤ Z.of_nat (length (children_ m)).
Proof.
  intros Hc Ep El Hb Hch Hsib. destruct d as [|d]; [done|]. cbn [covers] in Hc. rewrite Ep in Hc.
  destruct Hc as (_ & rs & _ & Ec & Hn & -> & Hal & Hf).
  destruct (sibling_runs d s top m rs leaf b l adj a right Ec Hn Hal Hf El Hb Hch Hsib) as (Ea & Eda & Hd & rs1 & rs2 & -> & _ & _ & ->).
  set (dup := leaf_duplication_factor_ l) in *. assert (0 < 2 ^ dup) by lia.
  assert (num_children_ m = Z.of_nat (length (children_ m))) as Hlen by (by rewrite Hn, Ec).
  assert (width (in_order right (mkRun leaf dup [leaf]) (mkRun adj dup [adj])) = 2 * 2 ^ dup) as Hwo
    by (destruct right; cbn [in_order]; rewrite !width_cons, width_nil by (cbn; lia); unfold repeats; cbn; lia).
  split; [done|]. split; [done|]. split; [done|]. rewrite <- Hlen, Hn, !width_app, Hwo.
  assert (0 ≤ width rs1 ∧ 0 ≤ width rs2) by (unfold width; lia). split; [lia|]. split; [|destruct right; lia].
  exists (rs1 ≫= run_leaves), (rs2 ≫= run_leaves). rewrite !bind_app. by destruct right.
Qed.
End sibling.

(** ** The heap after a merge *)
Record merge_heap (s s' : Alex) (parent leaf adj start dup : Z) (m : ModelNode) (l a : Leaf) : Prop := {
  mh_root : root_node_ s' = root_node_ s;
  mh_parent : heap s !! parent = Some (ModelN m);
  mh_parent' : heap s' !! parent = Some (ModelN (with_children (overwrite start (start + 2 ^ dup) adj (children_ m)) m));
  mh_leaf : heap s !! leaf = Some (DataNode l) ∧ leaf_duplication_factor_ l = dup ∧ contents (data l) = [];
  mh_adj : heap s !! adj = Some (DataNode a) ∧ leaf_duplication_factor_ a = dup;
  mh_adj' : ∃ a', heap s' !! adj = Some (DataNode a') ∧ data a' = data a ∧ leaf_duplication_factor_ a' = dup + 1;
  mh_gone : heap s' !! leaf = None;
  mh_same q : q ≠ leaf → q ≠ adj → q ≠ parent → option_Forall2 same_but_links (heap s !! q) (heap s' !! q)
}.

Section merge.
Context (s s' : Alex) (top parent leaf adj start dup : Z) (m : ModelNode) (l a : Leaf) (right : bool).
Context (Hmh : merge_heap s s' parent leaf adj start dup m l a) (Htop : top < 2 ^ 64) (Hdup : 0 ≤ dup) (Hne : leaf ≠ adj).
Implicit Types (p q k key : Z) (ls : list Z) (d : nat).

Definition merged (key q : Z) : Z := if bool_decide (q = leaf) then adj else q.

Lemma leaf_below d h p q n : h !! p = Some (DataNode n) → below d h p q → q = p.
Proof. destruct d as [|d]; [done|]. cbn [below]. intros -> [?|[]]. done. Qed.

Lemma merge_local : local_change s s' top parent (in_order right leaf adj) merged.
Proof.
  destruct Hmh as [_ Ep Ep' (El & _) (Ea & _) _ _ Hs].
  assert (∀ x, x ∈ in_order right leaf adj ↔ x = leaf ∨ x = adj) as Hin by (intros x; destruct right; cbn; set_solver).
  assert (∀ d p ls q, covers d (heap s) top p ls → below d (heap s) p q → q = leaf ∨ q = adj → q ∈ ls) as Hbelow.
  { intros d p ls q Hc Hq Hor. destruct (below_covers _ _ _ _ _ q Hc Hq) as (lq & Hcq & Hsub). destruct d as [|d]; [done|].
    cbn [covers] in Hcq. apply Hsub. destruct Hor as [->| ->]; [rewrite El in Hcq|rewrite Ea in Hcq]; subst lq; set_solver. }
  constructor.
  - by destruct right.
  - done.
  - intros d p ls q Hc Hout Hq Hqp. apply Hs; [| |done]; intros ->.
    + apply (Hout leaf); [apply Hin; by left|]. apply (Hbelow d p ls leaf Hc Hq). by left.
    + apply (Hout adj); [apply Hin; by right|]. apply (Hbelow d p ls adj Hc Hq). by right.
  - intros d p ls Hc Hbl Hnp. apply Hs; [| |done]; intros ->; apply Hnp; symmetry; by eapply leaf_below.
  - intros n En. eexists. split; [exact Ep'|]. by assert (n = ModelN m) as -> by congruence.
  - intros key q Hq. unfold merged. rewrite bool_decide_eq_false_2; [done|]. intros ->. apply Hq, Hin. by left.
Qed.

Lemma merge_parent d x y b :
  covers d (heap s) top parent (x ++ in_order right leaf adj ++ y) → NoDup (x ++ in_order right leaf adj ++ y) →
  0 ≤ b < num_children_ m → child b m = Ret leaf → start = start_of b (2 ^ dup) → sibling leaf b l m s = Ret (Some (adj, a, right)) →
  covers d (heap s') top parent (x ++ [adj] ++ y) ∧ moves s s' top merged d parent ∧
  child b (with_children (overwrite start (start + 2 ^ dup) adj (children_ m)) m) = Ret adj.
Proof.
  intros Hcp Hnd Hb Hch Hst Hsib. pose proof merge_local as Hlc.
  pose proof Hmh as [_ Ep Ep' (El & Edup & _) (Ea & _) (a' & Ea' & _ & Edup') _ _].
  destruct d as [|d]; [done|]. pose proof Hcp as Hc. cbn [covers] in Hc. rewrite Ep in Hc.
  destruct Hc as (Hm & rs & Hrs & Ec & Hn & Els & Hal & Hf).
  destruct (sibling_runs d s top m rs leaf b l adj a right Ec Hn Hal Hf El Hb Hch Hsib) as (_ & _ & _ & rs1 & rs2 & -> & Hmod & Hbr & Est).
  rewrite Edup in *. rewrite <- Hst in Est. set (rl := mkRun leaf dup [leaf]) in *. set (ra := mkRun adj dup [adj]) in *.
  set (rn := mkRun adj (dup + 1) [adj]).
  assert (0 < 2 ^ dup) as Hpow by lia. assert (2 ^ (dup + 1) = 2 * 2 ^ dup) as Epow by (rewrite Z.pow_add_r by lia; lia).
  assert (Forall (λ r, 0 ≤ run_dup r) (rs1 ++ in_order right rl ra ++ rs2)) as Hd0 by (eapply Forall_impl; [exact Hf|]; by intros r (_ & ? & _)).
  assert (width (in_order right rl ra) = 2 * 2 ^ dup) as Hwo
    by (destruct right; cbn [in_order]; rewrite !width_cons, width_nil by (cbn; lia); unfold repeats; cbn; lia).
  assert (∀ r, r ∈ [rl; ra] → slots_of r = replicate (Z.to_nat (2 ^ dup)) (Some (run_child r))) as Hsl
    by (intros r [->|[->|[]%not_elem_of_nil]%elem_of_cons]%elem_of_cons; done).
  assert (slots_of rn = slots_of ra ++ slots_of ra) as Esn.
  { rewrite (Hsl ra) by set_solver. unfold slots_of, repeats. cbn [run_child run_dup rn ra]. rewrite <- replicate_add. f_equal. lia. }
  set (m' := with_children (overwrite start (start + 2 ^ dup) adj (children_ m)) m) in *.
  assert (children_ m' = (rs1 ++ [rn] ++ rs2) ≫= slots_of) as Ec'.
  { cbn [m' children_ with_children]. assert (Z.of_nat (length (slots_of rl)) = 2 ^ dup) as Hlen by (apply repeats_length; cbn; lia).
    assert ((rs1 ++ [rn] ++ rs2) ≫= slots_of = (rs1 ++ ra :: ra :: rs2) ≫= slots_of) as ->
      by (rewrite !bind_app, !bind_cons, Esn; cbn [app]; by rewrite <- !app_assoc).
    rewrite Ec. destruct right; cbn [in_order app].
    - apply (overwrite_run rs1 rl (ra :: rs2) start (start + 2 ^ dup) adj ra); [cbn; lia|lia|unfold repeats; cbn; lia|by rewrite Hlen|done].
    - rewrite !(cons_middle ra rs1 (_ :: _)), !(app_assoc rs1).
      apply (overwrite_run (rs1 ++ [ra]) rl rs2 start (start + 2 ^ dup) adj ra); [cbn; lia| | |by rewrite Hlen|done];
        rewrite width_app, width_cons, width_nil by (cbn; lia); unfold repeats; cbn; lia. }
  assert ((in_order right rl ra) ≫= run_leaves = in_order right leaf adj) as Elo by (by destruct right).
  assert (x = rs1 ≫= run_leaves ∧ y = rs2 ≫= run_leaves) as [-> ->].
  { rewrite !bind_app, Elo in Els. destruct right; cbn [in_order app] in *.
    - destruct (pivot_unique leaf _ _ _ _ Hnd Els) as [-> E]. by injection E as ->.
    - destruct (pivot_unique adj _ _ _ _ Hnd Els) as [-> E]. by injection E as ->. }
  assert (∃ d', d = S d') as [d' ->].
  { apply Forall_app in Hf as [_ [Hf _]%Forall_app]. destruct right; apply Forall_cons in Hf as [(Hc0 & _) _];
      (destruct d as [|d']; [done|by exists d']). }
  assert (parent_runs s top (S d') m rs1 (in_order right rl ra) rs2) as Hpr by (constructor; [done..|by rewrite <- Els]).
  assert (width [rn] = width (in_order right rl ra)) as Hwidth by (rewrite Hwo, width_cons, width_nil by (cbn; lia); unfold repeats; cbn; lia).
  assert (aligned (width rs1) [rn]) as Haln by (split; [exact Hmod|done]).
  assert (Forall (run_ok (S d') (heap s') top) [rn]) as Hrok.
  { apply Forall_singleton. unfold run_ok. cbn [rn run_child run_dup run_leaves covers]. rewrite Ea'. split; [done|]. split; [lia|by eexists]. }
  assert (∀ i, width rs1 ≤ i < width rs1 + width (in_order right rl ra) → child i m' = Ret adj) as Hadj.
  { intros i Hi. rewrite <- Hwidth, width_cons, width_nil, Z.add_0_r in Hi by (cbn; lia).
    by apply (child_at m' (rs1 ++ rn :: rs2) rs1 rn rs2); [..|cbn; lia|]. }
  split; [|split].
  - assert (covers (S (S d')) (heap s') top parent ((rs1 ++ [rn] ++ rs2) ≫= run_leaves)) as Hcov
      by by apply (parent_covers' s s' top parent (in_order right leaf adj) merged Hlc (S d') m m' rs1 (in_order right rl ra) rs2).
    rewrite !bind_app in Hcov. exact Hcov.
  - apply (parent_moves s s' top parent (in_order right leaf adj) merged Hlc (S d') m m' rs1 (in_order right rl ra) rs2 [rn]); [done..|].
    intros fuel key Hfuel Hk Hkb. destruct fuel as [|fuel]; [lia|].
    rewrite (reach_model _ _ _ _ _ _ Ep' (Hadj (bucket_of key m) Hkb)), (reach_data _ _ _ _ _ Ea').
    destruct (run_at (in_order right rl ra) (bucket_of key m - width rs1)) as (u & r & v & Er & Hr); [|lia|].
    { apply Forall_app in Hd0 as [_ [Hd0 _]%Forall_app]. done. }
    assert (r = rl ∨ r = ra) as Hor by (assert (r ∈ in_order right rl ra) as Hri by (rewrite Er; set_solver); destruct right; cbn in Hri; set_solver).
    assert (child (bucket_of key m) m = Ret (run_child r)) as Hcr.
    { apply (child_at m (rs1 ++ (u ++ r :: v) ++ rs2) (rs1 ++ u) r (v ++ rs2)); [by rewrite <- Er|by rewrite <- !app_assoc|destruct Hor as [->| ->]; cbn; lia|].
      rewrite width_app. lia. }
    exists (run_child r). rewrite (reach_model _ _ _ _ _ _ Ep Hcr). unfold merged. destruct Hor as [->| ->]; cbn [rl ra run_child].
    + rewrite (reach_data _ _ _ _ _ El), bool_decide_eq_true_2 by done. done.
    + rewrite (reach_data _ _ _ _ _ Ea), bool_decide_eq_false_2 by done. done.
  - apply Hadj. rewrite Hwo. lia.
Qed.

Lemma merge_heap_ok l1 l2 b :
  tree_ok top s (l1 ++ in_order right leaf adj ++ l2) → below (size (heap s)) (heap s) (root_node_ s) parent →
  0 ≤ b < num_children_ m → child b m = Ret leaf → start = start_of b (2 ^ dup) → sibling leaf b l m s = Ret (Some (adj, a, right)) →
  chain (heap s') 0 (l1 ++ adj :: l2) →
  tree_ok top s' (l1 ++ adj :: l2) ∧ pairs (heap s') (l1 ++ adj :: l2) = pairs (heap s) (l1 ++ in_order right leaf adj ++ l2) ∧
  (∀ key, 0 ≤ key ≤ top → ∃ q, route key s = Ret q ∧ route key s' = Ret (merged key q)).
Proof.
  intros Hok Hbl Hb Hch Hst Hsib Hchain. pose proof Hok as [Hc Hnd _ Hwf _ _]. pose proof merge_local as Hlc.
  pose proof Hmh as [Hroot Ep Ep' (El & Edup & Hempty) (Ea & _) (a' & Ea' & Ed' & _) _ Hs].
  destruct (below_segment _ _ _ _ _ _ Hc Hbl) as (lp & u & v & Hlp & Els).
  destruct (sibling_list _ s top parent m lp leaf b l adj a right Hlp Ep El Hb Hch Hsib) as (_ & _ & _ & _ & (x & y & ->) & _).
  assert (NoDup (x ++ in_order right leaf adj ++ y)) as Hndp by (rewrite Els in Hnd; by apply NoDup_app in Hnd as (_ & _ & (? & _)%NoDup_app)).
  destruct (covers_replace s s' top parent (in_order right leaf adj) merged Hlc 0 (x ++ in_order right leaf adj ++ y) (x ++ [adj] ++ y))
    with (d := size (heap s)) (p := root_node_ s) (ls := l1 ++ in_order right leaf adj ++ l2) as (u' & v' & Els' & Hc' & Hmoves); [set_solver| |done..|].
  { intros d Hcd. by destruct (merge_parent d x y b) as (? & ? & _). }
  assert (l1 = u' ++ x ∧ l2 = y ++ v') as [-> ->].
  { destruct right; cbn [in_order app] in *.
    - destruct (pivot_unique leaf l1 (adj :: l2) (u' ++ x) (adj :: y ++ v') Hnd) as [-> E]; [rewrite Els'; by rewrite <- !app_assoc|]. by injection E as ->.
    - destruct (pivot_unique adj l1 (leaf :: l2) (u' ++ x) (leaf :: y ++ v') Hnd) as [-> E]; [rewrite Els'; by rewrite <- !app_assoc|]. by injection E as ->. }
  replace (u' ++ (x ++ [adj] ++ y) ++ v') with ((u' ++ x) ++ [adj] ++ y ++ v') in Hc' by by rewrite <- !app_assoc.
  assert (∀ q, q ∈ in_order right leaf adj ↔ q = leaf ∨ q = adj) as Hin by (intros q; destruct right; cbn; set_solver).
  assert (leaf_pairs (heap s') adj = contents (data a) ∧ leaf_pairs (heap s) adj = contents (data a) ∧ leaf_pairs (heap s) leaf = [])
    as (Hpa' & Hpa & Hpl) by (unfold leaf_pairs; rewrite Ea', Ea, El; by rewrite Ed').
  apply (local_change_ok s s' top parent (in_order right leaf adj) merged Hlc (size (heap s)) (u' ++ x) (y ++ v') [adj]); [done| |done|lia|done].
  assert (∀ q, q ∈ (u' ++ x) ++ y ++ v' → q ≠ leaf ∧ q ≠ adj ∧ q ≠ parent) as Hout.
  { intros q Hq. destruct (covers_leaf _ _ _ _ _ q Hc) as (lq & Eq); [set_solver|].
    apply NoDup_app in Hnd as (_ & Hd1 & (_ & Hd2 & _)%NoDup_app).
    assert (q ∉ in_order right leaf adj) as Hn.
    { intros Hg. apply elem_of_app in Hq as [Hq|Hq]; [apply (Hd1 q Hq); set_solver|by apply (Hd2 q Hg)]. }
    rewrite Hin in Hn. split; [|split]; intros ->; [tauto|tauto|congruence]. }
  constructor; [done| |done| | | |].
  - apply NoDup_app in Hnd as (H1 & Hd1 & (H2 & Hd2 & H3)%NoDup_app). apply NoDup_app. split; [done|]. split.
    + intros q Hq [->%list_elem_of_singleton|Hq2]%elem_of_app; apply (Hd1 _ Hq); [apply elem_of_app; left; apply Hin; by right|set_solver].
    + apply NoDup_cons. split; [|done]. intros Hq. apply (Hd2 adj); [apply Hin; by right|done].
  - intros q Hq. destruct (Hout q) as (? & ? & ?); [set_solver|]. by apply Hs.
  - intros q lq ->%list_elem_of_singleton Eq. rewrite Ea' in Eq. injection Eq as <-. rewrite Ed'. apply (Hwf adj); [|done].
    apply elem_of_app. right. apply elem_of_app. left. apply Hin. by right.
  - destruct right; cbn [in_order]; rewrite !pairs_cons, Hpa', Hpa, Hpl; by rewrite ?app_nil_r.
  - intros q q0 k ->%list_elem_of_singleton Hk Hq0 _. apply Hin in Hq0. unfold merged.
    destruct Hq0 as [->| ->]; case_bool_decide; congruence.
Qed.
End merge.
