(* ===== verification/AlexMergeLoop.v ===== *)
(** * ALEX: merging

    One round of [merge_siblings], its loop, and the loop up the path of
    [merge]: they end, and the tree holds the same pairs. *)
From S2P Require Import Prelude Ieee AlexBase AlexNode AlexOps AlexInv AlexBuild AlexCost AlexFanout AlexTree AlexTreeOps AlexRoute AlexTreeInv AlexTreeOk AlexTreeLookup AlexLink AlexSubtree AlexReplace AlexSplit AlexTreeSplit AlexMerge.

(** The superroot is a node of its own, and a model node has a power of two of
    children, which an [int] can count. *)
Record steady (s : Alex) : Prop := {
  st_heap : heap_ok s;
  st_fanout p m : heap s !! p = Some (ModelN m) → ∃ e, 0 ≤ e < 31 ∧ num_children_ m = 2 ^ e;
  st_super : ∃ sm, heap s !! superroot_ s = Some (ModelN sm) ∧ children_ sm ≠ [];
  st_root : root_node_ s ≠ superroot_ s;
  st_apart p m : heap s !! p = Some (ModelN m) → Some (superroot_ s) ∉ children_ m
}.

Section merge.
Implicit Types (h : heap_t) (s : Alex) (p q k top b : Z) (ls : list Z) (m : ModelNode) (path : list TraversalNode).

Lemma below_last d h p q : below d h p q → p = q ∨ ∃ x m, h !! x = Some (ModelN m) ∧ Some q ∈ children_ m.
Proof.
  revert p. induction d as [|d IH]; intros p; [done|]. intros [->|Hb]; [by left|right].
  destruct (h !! p) as [[l|m]|] eqn:Ep; [done| |done]. destruct Hb as (c & Hc & [->|Hx]%IH); [by exists p, m|done].
Qed.
Lemma super_not_below s d : steady s → ¬ below d (heap s) (root_node_ s) (superroot_ s).
Proof. intros [_ _ _ Hr Ha] [?|(x & m & Ex & Hc)]%below_last; [done|]. by apply (Ha x m Ex). Qed.

Lemma leaf_alter_comm f g p q h : p ≠ q → leaf_alter f p (leaf_alter g q h) = leaf_alter g q (leaf_alter f p h).
Proof. intros Hne. unfold leaf_alter. by rewrite alter_alter_ne. Qed.
Lemma leaf_alter_at f p h q : ∀ n, h !! q = Some n → ∃ n', leaf_alter f p h !! q = Some n' ∧ is_leaf_ n' = is_leaf_ n.
Proof.
  intros n E. unfold leaf_alter. destruct (decide (p = q)) as [->|Hne]; [|exists n; by rewrite lookup_alter_ne].
  rewrite lookup_alter_eq, E. destruct n; by eexists.
Qed.

(** ** One round *)
Definition merge_once (leaf parent b : Z) (l : Leaf) (adjacent : Z) (adjacent_to_right : bool) s : res Alex :=
  let repeats := Z.shiftl 1 (leaf_duplication_factor_ l) in
  let start_bucketID := start_of b repeats in
  let* s := set_children start_bucketID (start_bucketID + repeats) adjacent parent s in
  let* s :=
    if adjacent_to_right : bool then
      let* s := modify_leaf adjacent (with_prev (prev_leaf_ l)) s in
      if_not_null (prev_leaf_ l) (modify_leaf (prev_leaf_ l) (with_next adjacent)) s
    else
      let* s := modify_leaf adjacent (with_next (next_leaf_ l)) s in
      if_not_null (next_leaf_ l) (modify_leaf (next_leaf_ l) (with_prev adjacent)) s in
  let* s := modify_node adjacent (λ n, with_dup (u8 (duplication_factor_ n + 1)) n) s in
  let* s := delete_node leaf s in
  Ret (add_nodes 0 (-1) s).

(** The links around the leaf that goes. *)
Lemma relink_spec s l1 leaf adj l2 (l a : Leaf) (right : bool) :
  chain (heap s) 0 (l1 ++ in_order right leaf adj ++ l2) → NoDup (l1 ++ in_order right leaf adj ++ l2) → heap s !! 0 = None →
  heap s !! leaf = Some (DataNode l) → heap s !! adj = Some (DataNode a) →
  ∃ h', (if right : bool then
           let* s := modify_leaf adj (with_prev (prev_leaf_ l)) s in
           if_not_null (prev_leaf_ l) (modify_leaf (prev_leaf_ l) (with_next adj)) s
         else
           let* s := modify_leaf adj (with_next (next_leaf_ l)) s in
           if_not_null (next_leaf_ l) (modify_leaf (next_leaf_ l) (with_prev adj)) s) = Ret (with_heap h' s) ∧
    chain h' 0 (l1 ++ adj :: l2) ∧ same_up_to_links (heap s) h'.
Proof.
  intros Hc Hnd H0 El Ea.
  pose proof (links_refl (heap s)) as Hrefl.
  assert (adj ≠ 0) as Hadj0 by (intros ->; congruence).
  destruct right; cbn [in_order app] in *.
  - destruct (chain_at _ _ _ _ _ Hc) as (_ & l' & El' & Hp & _). assert (l' = l) as -> by congruence. set (P := prev_leaf_ l) in *.
    pose proof (chain_unlink (heap s) l1 leaf (adj :: l2) Hc Hnd H0) as Hun. unfold prev_of, next_of in Hun. cbn [head default from_option id] in Hun.
    rewrite <- Hp in Hun. assert (P ≠ adj) as HPa.
    { intros E. destruct (last l1) as [q|] eqn:Eq; [|cbn in Hp; congruence]. cbn in Hp. apply last_Some in Eq as (l1' & ->).
      apply NoDup_app in Hnd as (_ & Hd & _). apply (Hd q); [set_solver|]. rewrite <- Hp, E. set_solver. }
    exists (leaf_alter (with_next adj) P (leaf_alter (with_prev P) adj (heap s))). split; [|split].
    + rewrite (modify_leaf_alter s adj _ a Ea), res_bind_ret. rewrite if_not_null_alter; [done|cbn; by rewrite leaf_alter_ne|].
      intros HP0. cbn. rewrite leaf_alter_ne by done. destruct (last l1) as [q|] eqn:Eq; [|done]. cbn in Hp. rewrite Hp.
      apply last_Some in Eq as (l1' & ->). rewrite <- app_assoc in Hc. destruct (chain_at _ _ _ _ _ Hc) as (_ & lq & Eq & _). by exists lq.
    + by rewrite leaf_alter_comm.
    + by do 2 (apply links_alter; [|done]).
  - replace (l1 ++ adj :: leaf :: l2) with ((l1 ++ [adj]) ++ leaf :: l2) in * by by rewrite <- app_assoc.
    destruct (chain_at _ _ _ _ _ Hc) as (_ & l' & El' & _ & Hn). assert (l' = l) as -> by congruence. set (N := next_leaf_ l) in *.
    pose proof (chain_unlink (heap s) (l1 ++ [adj]) leaf l2 Hc Hnd H0) as Hun. unfold prev_of, next_of in Hun. rewrite last_snoc in Hun.
    cbn [default from_option id] in Hun. rewrite <- Hn, <- app_assoc in Hun. assert (N ≠ adj) as HNa.
    { intros E. destruct l2 as [|q l2]; cbn in Hn; [congruence|]. apply NoDup_app in Hnd as (_ & Hd & _). apply (Hd adj); [set_solver|].
      rewrite <- E, Hn. set_solver. }
    exists (leaf_alter (with_prev adj) N (leaf_alter (with_next N) adj (heap s))). split; [|split].
    + rewrite (modify_leaf_alter s adj _ a Ea), res_bind_ret. rewrite if_not_null_alter; [done|cbn; by rewrite leaf_alter_ne|].
      intros HN0. cbn. rewrite leaf_alter_ne by done. destruct l2 as [|q l2]; cbn in Hn; [done|]. rewrite Hn.
      replace ((l1 ++ [adj]) ++ leaf :: q :: l2) with ((l1 ++ [adj; leaf]) ++ q :: l2) in Hc by by rewrite <- !app_assoc.
      destruct (chain_at _ _ _ _ _ Hc) as (_ & lq & Eq & _). by exists lq.
    + exact Hun.
    + by do 2 (apply links_alter; [|done]).
Qed.

(** What merging keeps. *)
Record kept (top : Z) (s s' : Alex) (ls ls' : list Z) : Prop := {
  kept_tree : tree_ok top s' ls';
  kept_pairs : pairs (heap s') ls' = pairs (heap s) ls;
  kept_steady : steady s';
  kept_keys : stat_num_keys (stats_ s') = stat_num_keys (stats_ s);
  kept_istats : istats_ s' = istats_ s
}.
(** What one round, or several, keep: also the parent and the path to it. *)
Record merge_step (top : Z) (s s' : Alex) (ls ls' : list Z) (parent : Z) : Prop := {
  ms_kept : kept top s s' ls ls';
  ms_super : superroot_ s' = superroot_ s;
  ms_root : root_node_ s' = root_node_ s;
  ms_path path : path_ok (heap s) (superroot_ s) (root_node_ s) path parent → path_ok (heap s') (superroot_ s) (root_node_ s) path parent;
  ms_parent m : heap s !! parent = Some (ModelN m) → ∃ m', heap s' !! parent = Some (ModelN m') ∧ num_children_ m' = num_children_ m
}.

Lemma kept_trans top s s1 s2 ls ls1 ls2 : kept top s s1 ls ls1 → kept top s1 s2 ls1 ls2 → kept top s s2 ls ls2.
Proof. intros [] []. constructor; congruence. Qed.
Lemma merge_step_trans top s s1 s2 ls ls1 ls2 parent :
  merge_step top s s1 ls ls1 parent → merge_step top s1 s2 ls1 ls2 parent → merge_step top s s2 ls ls2 parent.
Proof.
  intros [Hk Hsup Hroot Hp Hm] [Hk' Hsup' Hroot' Hp' Hm']. rewrite Hsup, Hroot in *. constructor; [by eapply kept_trans|done|done|naive_solver|].
  intros m Em. destruct (Hm m Em) as (m1 & Em1 & En1). destruct (Hm' m1 Em1) as (m2 & Em2 & En2). exists m2. split; [done|congruence].
Qed.
Lemma merge_step_refl top s ls parent : tree_ok top s ls → steady s → merge_step top s s ls ls parent.
Proof. intros. constructor; [by constructor|done|done|done|]. intros m ?. by exists m. Qed.

Lemma merge_steady s s' parent leaf adj start dup m (l a : Leaf) top ls :
  merge_heap s s' parent leaf adj start dup m l a → steady s → next_addr s' = next_addr s → superroot_ s' = superroot_ s →
  tree_ok top s ls → below (size (heap s)) (heap s) (root_node_ s) parent → heap s' !! 0 = None →
  (∀ m', heap s' !! parent = Some (ModelN m') → ∀ c, Some c ∈ children_ m' → c = adj ∨ Some c ∈ children_ m) → steady s'.
Proof.
  intros Hmh Hst Hna Hsup Hok Hbl H0' Hcs. pose proof Hmh as [Hroot Ep Ep' (El & _) (Ea & _) (a' & Ea' & _) Egone Hs].
  pose proof Hst as [(Hn & H0 & Hfresh) Hfan (sm & Esm & Hsm) Hr Hap].
  assert (parent ≠ superroot_ s) as Hps by (intros ->; by apply (super_not_below s (size (heap s)) Hst)).
  assert (leaf ≠ superroot_ s ∧ adj ≠ superroot_ s) as [Hls Has] by (split; intros E; rewrite E in *; congruence).
  assert (∀ q m', heap s' !! q = Some (ModelN m') → q ≠ parent → heap s !! q = Some (ModelN m')) as Hback.
  { intros q m' Eq Hqp. assert (q ≠ leaf ∧ q ≠ adj) as [Hql Hqa] by (split; intros ->; congruence).
    specialize (Hs q Hql Hqa Hqp). rewrite Eq in Hs. destruct (heap s !! q) as [[]|]; inversion Hs as [? ? Hx|]; [done|]. cbn in Hx. by subst. }
  constructor.
  - rewrite <- Hna in *. split; [done|]. split; [done|]. intros q Hq. assert (heap s !! q = None) as Eq by by apply Hfresh.
    assert (option_Forall2 same_but_links (heap s !! q) (heap s' !! q)) as Hsq by (apply Hs; congruence). rewrite Eq in Hsq. by inversion Hsq.
  - intros q m' Eq. destruct (decide (q = parent)) as [->|Hqp]; [|by apply (Hfan q), Hback].
    rewrite Ep' in Eq. injection Eq as <-. by apply (Hfan parent m).
  - exists sm. rewrite Hsup. split; [|done]. specialize (Hs (superroot_ s) ltac:(done) ltac:(done) ltac:(done)). rewrite Esm in Hs.
    destruct (heap s' !! superroot_ s) as [[]|]; inversion Hs as [? ? Hx|]; [done|]. cbn in Hx. by subst.
  - by rewrite Hroot, Hsup.
  - intros q m' Eq. rewrite Hsup. destruct (decide (q = parent)) as [->|Hqp]; [|by apply (Hap q), Hback].
    intros Hc. destruct (Hcs m' Eq _ Hc) as [E|Hc']; [congruence|]. by apply (Hap parent m Ep).
Qed.

Lemma merge_heap_size s s' parent leaf adj start dup m (l a : Leaf) :
  merge_heap s s' parent leaf adj start dup m l a → (size (heap s') < size (heap s))%nat.
Proof.
  intros [_ Ep Ep' (El & _) (Ea & _) _ Eg Hs]. rewrite <- !size_dom. apply subset_size. apply elem_of_dom_2 in El as Hl. split.
  - intros q Hq. destruct (decide (q = adj)) as [->|Hqa]; [by apply elem_of_dom_2 in Ea|].
    destruct (decide (q = parent)) as [->|Hqp]; [by apply elem_of_dom_2 in Ep|]. apply elem_of_dom in Hq as [n Hq].
    assert (q ≠ leaf) as Hql by (intros ->; congruence). specialize (Hs q Hql Hqa Hqp). rewrite Hq in Hs. apply elem_of_dom.
    destruct (heap s !! q); [by eexists|inversion Hs].
  - intros Hsub. apply Hsub in Hl. apply elem_of_dom in Hl as [n Hl]. congruence.
Qed.

Lemma overwrite_in (x y p : Z) (c : list (option Z)) z : z ∈ overwrite x y p c → z = Some p ∨ z ∈ c.
Proof.
  unfold overwrite. rewrite !elem_of_app. intros [Hz|[Hz|Hz]].
  - right. by eapply elem_of_take_1 || (apply elem_of_take in Hz as (i & Hz & _); by eapply list_elem_of_lookup_2).
  - left. by apply elem_of_replicate in Hz as [-> _].
  - right. apply list_elem_of_lookup in Hz as [i Hz]. rewrite lookup_drop in Hz. by eapply list_elem_of_lookup_2.
Qed.

Lemma merge_once_spec top s ls parent leaf b adj m (l a : Leaf) (right : bool) :
  tree_ok top s ls → steady s → below (size (heap s)) (heap s) (root_node_ s) parent → heap s !! parent = Some (ModelN m) →
  0 ≤ b < num_children_ m → child b m = Ret leaf → heap s !! leaf = Some (DataNode l) → num_keys_ (data l) = 0 →
  sibling leaf b l m s = Ret (Some (adj, a, right)) →
  ∃ s' ls', merge_once leaf parent b l adj right s = Ret s' ∧ merge_step top s s' ls ls' parent ∧
    (∃ m' a', heap s' !! parent = Some (ModelN m') ∧ child b m' = Ret adj ∧ heap s' !! adj = Some (DataNode a')) ∧
    (size (heap s') < size (heap s))%nat.
Proof.
  intros Hok Hst Hbl Ep Hb Hch El Hn0 Hsib. pose proof Hok as [Hc Hnd Hchain Hwf _ Htop].
  assert (top < 2 ^ 64) as H64 by (change kEndSentinel_ with (2 ^ 64 - 1) in Htop; lia).
  destruct (below_segment _ _ _ _ _ _ Hc Hbl) as (lp & u & v & Hlp & Els). set (dup := leaf_duplication_factor_ l).
  destruct (sibling_list _ s top parent m lp leaf b l adj a right Hlp Ep El Hb Hch Hsib) as (Ea & Eda & Hdup & Hfit & (x & y & ->) & Hs0 & Hs1).
  fold dup in Eda, Hdup, Hfit, Hs0, Hs1. destruct (st_fanout _ Hst _ _ Ep) as (e & He & Hsm). assert (0 < 2 ^ dup) as Hpow by lia.
  assert (dup < 31) as Hdup31.
  { destruct (Z.lt_ge_cases dup 31) as [?|Hge]; [done|]. assert (2 ^ e < 2 ^ 31 ∧ 2 ^ 31 ≤ 2 ^ dup) by (split; [apply Z.pow_lt_mono_r|apply Z.pow_le_mono_r]; lia). lia. }
  set (l1 := u ++ x). set (l2 := y ++ v). assert (ls = l1 ++ in_order right leaf adj ++ l2) as -> by (rewrite Els; unfold l1, l2; by rewrite <- !app_assoc).
  pose proof Hst as [(Hna & H0 & Hfresh) _ _ _ _].
  set (start := start_of b (2 ^ dup)) in *. set (m' := with_children (overwrite start (start + 2 ^ dup) adj (children_ m)) m).
  assert (leaf ≠ adj) as Hne by (intros ->; apply NoDup_app in Hnd as (_ & _ & (Hn & _)%NoDup_app); destruct right; cbn in Hn; by apply NoDup_cons in Hn as [Hn _]; apply Hn; left).
  assert (parent ≠ leaf ∧ parent ≠ adj) as [Hpl Hpa] by (split; intros ->; congruence).
  set (s1 := set_model parent m' s).
  assert (chain (heap s1) 0 (l1 ++ in_order right leaf adj ++ l2)) as Hc1.
  { apply (leaf_chain_frame (heap s)); [|done]. intros q lq Hq Eq. exists lq. unfold s1. cbn. rewrite lookup_insert_ne; [done|]. intros <-. congruence. }
  assert (heap s1 !! leaf = Some (DataNode l) ∧ heap s1 !! adj = Some (DataNode a) ∧ heap s1 !! 0 = None) as (El1 & Ea1 & H01).
  { unfold s1. cbn. rewrite !lookup_insert_ne by (done || (intros ->; congruence)). done. }
  destruct (relink_spec s1 l1 leaf adj l2 l a right Hc1 Hnd H01 El1 Ea1) as (h2 & Erel & Hc2 & Hsl).
  destruct (links_leaf _ _ _ _ Hsl Ea1) as (a2 & Ea2 & Da2 & dup2). destruct (links_leaf _ _ _ _ Hsl El1) as (l2' & El2 & _).
  set (a' := with_place (leaf_level_ a2) (dup + 1) a2).
  set (s' := add_nodes 0 (-1) (with_heap (base.delete leaf (<[adj := DataNode a']> h2)) s)).
  assert (∀ q, q ≠ leaf → q ≠ adj → heap s' !! q = h2 !! q) as Hrest
    by (intros q ? ?; unfold s'; cbn; by rewrite lookup_delete_ne, lookup_insert_ne).
  assert (heap s' !! adj = Some (DataNode a')) as Ea' by (unfold s'; cbn; by rewrite lookup_delete_ne, lookup_insert_eq).
  assert (merge_heap s s' parent leaf adj start dup m l a) as Hmh.
  { constructor; [done|done| | |done| | |].
    - rewrite Hrest by done. apply (links_model _ _ _ _ Hsl). unfold s1. cbn. by rewrite lookup_insert_eq.
    - split; [done|]. split; [done|]. destruct (Hwf leaf l) as [Hnok _]; [|done|].
      { apply elem_of_app. right. apply elem_of_app. left. destruct right; set_solver. }
      pose proof (ok_count _ Hnok). destruct (contents (data l)); [done|cbn in *; lia].
    - by exists a'.
    - unfold s'. cbn. by rewrite lookup_delete_eq.
    - intros q ? ? ?. rewrite Hrest by done. specialize (Hsl q). unfold s1 in Hsl. cbn in Hsl. by rewrite lookup_insert_ne in Hsl by done. }
  assert (chain (heap s') 0 (l1 ++ adj :: l2)) as Hc'.
  { apply (leaf_chain_frame h2); [|done]. intros q lq Hq Eq. destruct (decide (q = adj)) as [->|Hqa].
    - exists a'. split; [done|]. assert (lq = a2) as -> by congruence. done.
    - exists lq. rewrite Hrest; [done| |done]. intros ->. apply NoDup_app in Hnd as (_ & Hd1 & (_ & Hd2 & _)%NoDup_app).
      assert (leaf ∈ in_order right leaf adj) as Hlin by (destruct right; set_solver).
      apply elem_of_app in Hq as [Hq|[?|Hq]%elem_of_cons]; [apply (Hd1 leaf Hq); set_solver|congruence|by apply (Hd2 leaf)]. }
  destruct (merge_heap_ok s s' top parent leaf adj start dup m l a right Hmh H64 Hdup Hne l1 l2 b Hok Hbl Hb Hch eq_refl Hsib Hc') as (Hok' & Hpr & _).
  destruct (merge_parent s s' top parent leaf adj start dup m l a right Hmh H64 Hdup Hne _ x y b Hlp) as (_ & _ & Hchild); [|done..|].
  { rewrite Els in Hnd. by apply NoDup_app in Hnd as (_ & _ & (? & _)%NoDup_app). }
  exists s', (l1 ++ adj :: l2). split; [|split; [|split]].
  - unfold merge_once. fold dup. rewrite !Z.shiftl_1_l. fold start.
    rewrite (set_children_spec start (start + 2 ^ dup) adj parent m s Ep), res_bind_ret by lia. fold m'. fold s1. rewrite Erel, res_bind_ret.
    unfold modify_node, get_node. cbn [heap with_heap]. rewrite Ea2. cbn [of_option]. rewrite !res_bind_ret. cbn [duplication_factor_ with_dup].
    rewrite dup2, Eda. replace (u8 (dup + 1)) with (dup + 1) by (symmetry; apply Z.mod_small; lia). fold a'.
    unfold delete_node, get_node. cbn [heap set_node with_heap]. rewrite bool_decide_eq_false_2 by (intros ->; congruence).
    rewrite lookup_insert_ne, El2 by done. cbn [of_option]. by rewrite !res_bind_ret.
  - pose proof (merge_local s s' top parent leaf adj start dup m l a right Hmh H64 Hdup Hne) as Hlc. constructor; [constructor; try done|done|done|..].
    + apply (merge_steady s s' parent leaf adj start dup m l a top (l1 ++ in_order right leaf adj ++ l2)); try done.
      * rewrite Hrest by (intros E; congruence). specialize (Hsl 0). rewrite H01 in Hsl. by inversion Hsl.
      * intros mx Emx c Hcx. rewrite (mh_parent' _ _ _ _ _ _ _ _ _ _ Hmh) in Emx. injection Emx as <-.
        cbn [children_ with_children] in Hcx. apply overwrite_in in Hcx as [[= ->]|?]; [by left|by right].
    + intros path Hp. eapply (path_frame (heap s) _ top); [exact Hc|exact Hp|by rewrite Ep|]. intros. by eapply (lc_above _ _ _ _ _ _ Hlc).
    + intros mx Emx. assert (mx = m) as -> by congruence. exists m'. split; [apply Hmh|done].
  - exists m', a'. split; [apply Hmh|done].
  - by apply (merge_heap_size s s' parent leaf adj start dup m l a).
Qed.

(** ** The loop *)
(** An even multiple has its neighbour below a larger power of two. *)
Lemma room_to_right w r n : 0 < r → 0 ≤ w < n → w mod (r * 2) = 0 → n mod (r * 2) = 0 → w + r < n.
Proof.
  intros Hr [_ Hlt] Hm Hn. apply Z.mod_divide in Hm as [x ->]; [|lia]. apply Z.mod_divide in Hn as [y ->]; [|lia].
  apply Z.mul_lt_mono_pos_r in Hlt; [|lia]. assert ((x + 1) * (r * 2) ≤ y * (r * 2)) by (apply Z.mul_le_mono_nonneg_r; lia). lia.
Qed.

Lemma sibling_total d s top parent m ls leaf b l e :
  covers d (heap s) top parent ls → heap s !! parent = Some (ModelN m) → heap s !! leaf = Some (DataNode l) →
  0 ≤ b < num_children_ m → child b m = Ret leaf → 0 ≤ e → num_children_ m = 2 ^ e → 2 ^ leaf_duplication_factor_ l < num_children_ m →
  ∃ o, sibling leaf b l m s = Ret o.
Proof.
  intros Hc Ep El Hb Hch He0 He Hlt. destruct d as [|d]; [done|]. cbn [covers] in Hc. rewrite Ep in Hc.
  destruct Hc as (_ & rs & _ & Ec & Hn & -> & Hal & Hf).
  destruct (child_run d (heap s) top rs b m leaf _ Ec Hn Hal Hf El Hb Hch) as (rs1 & lp & rs2 & E & _ & Hd & Hmod & Est & Hbr).
  cbn [duplication_factor_] in *. set (dup := leaf_duplication_factor_ l) in *. assert (0 < 2 ^ dup) as Hpow by lia.
  assert (0 ≤ width rs1) as Hw by (unfold width; lia).
  assert (∀ c, 0 ≤ c < num_children_ m → ∃ q n, child c m = Ret q ∧ heap s !! q = Some n) as Hin.
  { intros c Hcr. rewrite Hn in Hcr. assert (Forall (λ r, 0 ≤ run_dup r) rs) as Hd0 by (eapply Forall_impl; [exact Hf|]; by intros r (_ & ? & _)).
    destruct (run_at rs c Hd0 Hcr) as (x & r & y & E' & Hr). rewrite list.Forall_forall in Hf.
    destruct (Hf r) as (_ & Hdr & n & En & _); [rewrite E'; set_solver|]. exists (run_child r), n. split; [|done]. by eapply child_at. }
  unfold sibling. fold dup. rewrite !Z.shiftl_1_l, Z.shiftl_mul_pow2, Z.pow_1_r, Est by lia.
  assert (Z.rem b (2 ^ dup) = b - width rs1) as Hrem by (unfold start_of in Est; lia).
  assert (Z.rem b (2 ^ dup * 2) = b mod (2 ^ dup * 2)) as Hrem2 by (rewrite Z.rem_mod_nonneg; lia).
  assert (∃ q n, child (if bool_decide (Z.rem b (2 ^ dup * 2) = Z.rem b (2 ^ dup)) then width rs1 + 2 ^ dup else width rs1 - 1) m = Ret q ∧
            heap s !! q = Some n) as (q & n & -> & En).
  { case_bool_decide as Hside; apply Hin.
    - assert (width rs1 + 2 ^ dup < num_children_ m); [|lia]. apply room_to_right; [done|lia| |].
      + rewrite Hrem2, Hrem in Hside. replace (width rs1) with (b - (b - width rs1)) by lia. rewrite <- Hside, Zminus_mod_idemp_r, Z.sub_diag. done.
      + assert (dup < e) by (apply (Z.pow_lt_mono_r_iff 2); lia). rewrite He. replace e with (e - (dup + 1) + (dup + 1)) by lia.
        rewrite Z.pow_add_r, (Z.pow_add_r 2 dup) by lia. change (2 ^ 1) with 2. apply Z.mod_mul. lia.
    - assert (width rs1 ≠ 0); [|lia]. intros E0. apply Hside. rewrite Hrem2, Hrem, E0, Z.sub_0_r. apply Z.mod_small. lia. }
  rewrite res_bind_ret. unfold get_node. rewrite En. cbn [of_option]. rewrite res_bind_ret. destruct n; [|by eexists]. case_bool_decide; by eexists.
Qed.

Lemma merge_siblings_round fuel leaf parent b s (l : Leaf) m :
  heap s !! leaf = Some (DataNode l) → heap s !! parent = Some (ModelN m) →
  merge_siblings (S fuel) leaf parent b s =
    if bool_decide (num_keys_ (data l) = 0) && bool_decide (Z.shiftl 1 (leaf_duplication_factor_ l) < num_children_ m) then
      let* a := sibling leaf b l m s in
      match a with
      | None => Ret (leaf, s)
      | Some (adjacent, _, to_right) =>
          let* s := merge_once leaf parent b l adjacent to_right s in merge_siblings fuel adjacent parent b s
      end
    else Ret (leaf, s).
Proof.
  intros El Ep. cbn [merge_siblings]. rewrite (get_data_leaf _ _ _ El), res_bind_ret, (get_model_node _ _ _ Ep), res_bind_ret.
  destruct (_ && _); [|done]. destruct (sibling leaf b l m s) as [[[[q a] [|]]|]| |]; try done; rewrite !res_bind_ret; unfold merge_once; cbv zeta;
    (destruct (set_children _ _ _ _ _) as [s1| |]; [|done..]; rewrite !res_bind_ret);
    (match goal with |- mbind (M := res) _ ?x = _ => destruct x as [s2| |]; [|done..]; rewrite !res_bind_ret end);
    (destruct (modify_node _ _ _) as [s3| |]; [|done..]; rewrite !res_bind_ret); by destruct (delete_node _ _).
Qed.

Lemma merge_siblings_spec top parent b path : ∀ fuel s ls leaf m (l : Leaf),
  tree_ok top s ls → steady s → path_ok (heap s) (superroot_ s) (root_node_ s) path parent → heap s !! parent = Some (ModelN m) →
  0 ≤ b < num_children_ m → child b m = Ret leaf → heap s !! leaf = Some (DataNode l) → (size (heap s) < fuel)%nat →
  ∃ leaf' s' ls', merge_siblings fuel leaf parent b s = Ret (leaf', s') ∧ merge_step top s s' ls ls' parent ∧
    ∃ m' (l' : Leaf), heap s' !! parent = Some (ModelN m') ∧ num_children_ m' = num_children_ m ∧ child b m' = Ret leaf' ∧
      heap s' !! leaf' = Some (DataNode l').
Proof.
  induction fuel as [|fuel IH]; intros s ls leaf m l Hok Hst Hpath Ep Hb Hch El Hsz; [lia|]. rewrite (merge_siblings_round _ _ _ _ _ _ _ El Ep).
  assert (∃ leaf' s' ls', Ret (leaf, s) = Ret (leaf', s') ∧ merge_step top s s' ls ls' parent ∧
    ∃ m' (l' : Leaf), heap s' !! parent = Some (ModelN m') ∧ num_children_ m' = num_children_ m ∧ child b m' = Ret leaf' ∧
      heap s' !! leaf' = Some (DataNode l')) as Hstop.
  { exists leaf, s, ls. split; [done|]. split; [by apply merge_step_refl|]. by exists m, l. }
  destruct (bool_decide _ && bool_decide _) eqn:Hcond; [|done]. apply andb_true_iff in Hcond as [Hn0 Hroom].
  apply bool_decide_eq_true in Hn0, Hroom. rewrite Z.shiftl_1_l in Hroom.
  pose proof (path_below_root _ _ _ _ _ _ Hok Hpath) as Hbl. destruct (st_fanout _ Hst _ _ Ep) as (e & He0 & He).
  destruct (below_covers _ _ _ _ _ _ (tree_covers _ _ _ Hok) Hbl) as (lp & Hlp & _).
  destruct (sibling_total _ s top parent m lp leaf b l e Hlp Ep El Hb Hch (proj1 He0) He Hroom) as (o & Hsib). rewrite Hsib, res_bind_ret.
  destruct o as [[[adj a] right]|]; [|done].
  destruct (merge_once_spec top s ls parent leaf b adj m l a right Hok Hst Hbl Ep Hb Hch El Hn0 Hsib)
    as (s1 & ls1 & -> & Hms & (m1 & a1 & Ep1 & Hch1 & Ea1) & Hsz1). rewrite res_bind_ret.
  pose proof Hms as [[Hok1 _ Hst1 _ _] Hsup Hroot Hp Hm]. destruct (Hm m Ep) as (m1' & Em1 & En). assert (m1' = m1) as -> by congruence.
  destruct (IH s1 ls1 adj m1 a1) as (leaf' & s' & ls' & E & Hms' & m' & l' & Ep' & En' & Hch' & El'); [done|done| |done|lia|done|done|lia|].
  { rewrite Hsup, Hroot. by apply Hp. }
  exists leaf', s', ls'. split; [done|]. split; [by eapply merge_step_trans|]. exists m', l'. split; [done|]. split; [lia|done].
Qed.
End merge.
