(* ===== verification/AlexCollapse.v ===== *)
(** * ALEX: merging upwards

    A model node whose only child is a leaf is replaced by the leaf, under its
    own parent or as the root; [merge_up] goes on along the path for as long as
    there are such nodes, and ends. *)
From S2P Require Import Prelude Ieee AlexBase AlexNode AlexOps AlexInv AlexBuild AlexCost AlexFanout AlexTree AlexTreeOps AlexRoute AlexTreeInv AlexTreeOk AlexTreeLookup AlexTreeUpdate AlexLink AlexSubtree AlexReplace AlexSplit AlexTreeSplit AlexMerge AlexMergeLoop.

Section only_child.
Implicit Types (h : heap_t) (p q top b : Z) (m : ModelNode).

(** The leaf has all the buckets. *)
Lemma only_child d h top p m b leaf (l : Leaf) lp :
  covers d h top p lp → h !! p = Some (ModelN m) → h !! leaf = Some (DataNode l) → 0 ≤ b < num_children_ m → child b m = Ret leaf →
  2 ^ leaf_duplication_factor_ l = num_children_ m → lp = [leaf].
Proof.
  intros Hc Ep El Hb Hch Hall. destruct d as [|d]; [done|]. cbn [covers] in Hc. rewrite Ep in Hc.
  destruct Hc as (_ & rs & _ & Ec & Hn & -> & Hal & Hf).
  destruct (leaf_run d h top rs b m leaf l Ec Hn Hal Hf El Hb Hch) as (rs1 & rs2 & -> & _ & _).
  assert (Forall (λ r, 0 ≤ run_dup r) (rs1 ++ mkRun leaf (leaf_duplication_factor_ l) [leaf] :: rs2)) as [Hd1 [Hd Hd2]%Forall_cons]%Forall_app
    by (eapply Forall_impl; [exact Hf|]; by intros r (_ & ? & _)).
  rewrite width_app, width_cons in Hn by done. unfold repeats in Hn. cbn [run_dup] in Hn. assert (0 ≤ width rs1 ∧ 0 ≤ width rs2) by (unfold width; lia).
  rewrite (width_zero rs1), (width_zero rs2) by (done || lia). done.
Qed.
End only_child.

(** ** Under the parent of the node that goes *)
Record collapse_heap (s s' : Alex) (top P leaf G b dup : Z) (mg : ModelNode) (l : Leaf) : Prop := {
  co_root : root_node_ s' = root_node_ s;
  co_super : superroot_ s' = superroot_ s;
  co_next : next_addr s' = next_addr s;
  co_node : ∃ m, heap s !! P = Some (ModelN m) ∧ mn_duplication_factor_ m = dup;
  co_leaf : heap s !! leaf = Some (DataNode l);
  co_parent : heap s !! G = Some (ModelN mg) ∧ 0 ≤ b < num_children_ mg ∧ child b mg = Ret P;
  co_only d lp : covers d (heap s) top P lp → lp = [leaf];
  co_parent' : heap s' !! G = Some (ModelN (with_children (overwrite (start_of b (2 ^ dup)) (start_of b (2 ^ dup) + 2 ^ dup) leaf (children_ mg)) mg));
  co_leaf' : heap s' !! leaf = Some (DataNode (with_place (leaf_level_ l) dup l));
  co_gone : heap s' !! P = None;
  co_same q : q ≠ P → q ≠ leaf → q ≠ G → heap s' !! q = heap s !! q
}.

Section collapse.
Context (s s' : Alex) (top P leaf G b dup : Z) (mg : ModelNode) (l : Leaf) (ls : list Z).
Context (Hco : collapse_heap s s' top P leaf G b dup mg l) (Hok : tree_ok top s ls).
Context (Hbelow : below (size (heap s)) (heap s) (root_node_ s) G).
Implicit Types (p q k key : Z) (lp : list Z) (d : nat).

Lemma collapse_below p d : p = P → ¬ below d (heap s) p G.
Proof.
  intros -> Hb. destruct Hco as [_ _ _ _ _ (Eg & _ & Hch) _ _ _ _ _].
  destruct (below_covers _ _ _ _ _ _ (tree_covers _ _ _ Hok) Hbelow) as (lg & Hlg & _).
  apply (covers_acyclic (heap s) top _ G mg P lg d Hlg Eg); [by eapply child_in|done].
Qed.
Lemma same_at q : option_Forall2 same_but_links (heap s !! q) (heap s !! q).
Proof. destruct (heap s !! q) as [[]|]; by constructor. Qed.
Lemma collapse_top : top < 2 ^ 64.
Proof. pose proof (tree_top _ _ _ Hok) as Ht. change kEndSentinel_ with (2 ^ 64 - 1) in Ht. lia. Qed.

Lemma collapse_local : local_change s s' top G [leaf] (λ _ q, q).
Proof.
  pose proof Hco as [_ _ _ _ El (Eg & _) Hone Eg' _ _ Hs]. constructor; [done|apply collapse_top| | | |done].
  - intros d p lp q Hc Hout Hq HqG. rewrite Hs; [apply same_at| | |done]; intros ->;
      (destruct (below_covers _ _ _ _ _ _ Hc Hq) as (lq & Hlq & Hsub); apply (Hout leaf); [set_solver|apply Hsub]).
    + rewrite (Hone d lq Hlq). set_solver.
    + destruct d; [done|]. cbn [covers] in Hlq. rewrite El in Hlq. rewrite Hlq. set_solver.
  - intros d p lp Hc Hbl HpG. rewrite Hs; [apply same_at| | |done]; intros ->; [by apply (collapse_below P d)|].
    apply HpG. symmetry. by eapply leaf_below.
  - intros n En. eexists. split; [exact Eg'|]. assert (n = ModelN mg) as -> by congruence. done.
Qed.

Lemma collapse_parent d lp : covers d (heap s) top G lp → NoDup lp →
  covers d (heap s') top G lp ∧ moves s s' top (λ _ q, q) d G ∧
  child b (with_children (overwrite (start_of b (2 ^ dup)) (start_of b (2 ^ dup) + 2 ^ dup) leaf (children_ mg)) mg) = Ret leaf.
Proof.
  pose proof collapse_local as Hlc. pose proof Hco as [_ _ _ (m & Em & Edup) El (Eg & Hb & Hch) Hone Eg' El' _ _].
  destruct d as [|d]; [done|]. intros Hc Hnd. pose proof Hc as Hc0. cbn [covers] in Hc. rewrite Eg in Hc. destruct Hc as (Hm & rs & _ & Ec & Hn & -> & Hal & Hf).
  destruct (child_run d (heap s) top rs b mg P _ Ec Hn Hal Hf Em Hb Hch) as (rs1 & lq & rs2 & -> & Hlq & Hd & Hmod & Est & Hbr).
  cbn [duplication_factor_] in *. rewrite Edup in *. pose proof (Hone d lq Hlq) as ->. rewrite Est in Eg' |- *.
  set (r := mkRun P dup [leaf]) in *. set (r' := mkRun leaf dup [leaf]). set (mg' := with_children (overwrite _ _ leaf (children_ mg)) mg) in *.
  assert (∃ d', d = S d') as [d' ->] by (destruct d as [|d']; [done|by exists d']).
  assert (children_ mg' = (rs1 ++ [r'] ++ rs2) ≫= slots_of) as Ec'.
  { unfold mg'. cbn [children_ with_children]. rewrite Ec. apply (overwrite_run rs1 r rs2 _ _ leaf r'); [done|lia|unfold repeats; cbn; lia| |done].
    by apply (repeats_length r). }
  assert (child b mg' = Ret leaf) as Hch' by (by apply (child_at mg' (rs1 ++ r' :: rs2) rs1 r' rs2)).
  assert (parent_runs s top (S d') mg rs1 [r] rs2) as Hpr by by constructor.
  assert (Forall (run_ok (S d') (heap s') top) [r']) as Hrok.
  { apply Forall_singleton. unfold run_ok. cbn [r' run_child run_dup run_leaves covers]. rewrite El'. split; [done|]. split; [done|]. by eexists. }
  assert (heap s' !! G = Some (ModelN mg')) as Eg2 by exact Eg'.
  assert (aligned (width rs1) [r']) as Haln by done. assert (width [r'] = width [r]) as Hwidth by (by rewrite !width_cons by done).
  split; [|split; [|done]].
  - assert (covers (S (S d')) (heap s') top G ((rs1 ++ [r'] ++ rs2) ≫= run_leaves)) as Hcov
      by by apply (parent_covers' s s' top G [leaf] _ Hlc (S d') mg mg' rs1 [r] rs2 [r']).
    rewrite !bind_app in Hcov |- *. exact Hcov.
  - apply (parent_moves s s' top G [leaf] _ Hlc (S d') mg mg' rs1 [r] rs2 [r']); [done..|].
    intros fuel key Hfuel Hk Hkb. assert (width [r] = 2 ^ dup) as Hw by (rewrite width_cons, width_nil by done; unfold repeats; cbn; lia). rewrite Hw in Hkb.
    destruct fuel as [|fuel]; [lia|]. exists leaf.
    rewrite (reach_model (S fuel) key G s mg P Eg) by (by apply (child_at mg (rs1 ++ r :: rs2) rs1 r rs2)).
    rewrite (reach_model (S fuel) key G s' mg' leaf Eg2) by (by apply (child_at mg' (rs1 ++ r' :: rs2) rs1 r' rs2)).
    rewrite (reach_data _ _ _ _ _ El'). split; [|done].
    destruct (covers_reach (S d') s top P [leaf] (S fuel) key Hlq Hfuel collapse_top Hk) as (q & -> & ->%list_elem_of_singleton). done.
Qed.

Lemma collapse_ok : tree_ok top s' ls ∧ pairs (heap s') ls = pairs (heap s) ls.
Proof.
  pose proof collapse_local as Hlc. pose proof Hco as [Hroot _ _ (m & Em & _) El (Eg & _ & Hch) Hone _ El' _ Hs]. pose proof Hok as [Hc Hnd Hchain Hwf _ _].
  destruct (below_segment _ _ _ _ _ _ Hc Hbelow) as (lg & u & v & Hlg & Els).
  assert (NoDup lg) as Hndg by (rewrite Els in Hnd; by apply NoDup_app in Hnd as (_ & _ & (? & _)%NoDup_app)).
  assert (leaf ∈ lg) as Hlg_in.
  { destruct (below_covers _ _ _ _ _ P Hlg) as (lq & Hlq & Hsub); [|apply Hsub; rewrite (Hone _ _ Hlq); set_solver].
    apply (below_cap _ top _ 2%nat G lg); [done|]. by eapply (below_child 1 _ G G mg P); [left|..|eapply child_in]. }
  destruct (covers_replace s s' top G [leaf] _ Hlc 0 lg lg) with (d := size (heap s)) (p := root_node_ s) (ls := ls) as (x & y & Exy & Hc' & Hmoves);
    [set_solver| |done..|].
  { intros d Hcd. by destruct (collapse_parent d lg) as (? & ? & _). }
  rewrite <- Exy in Hc'. assert (leaf ∈ ls) as (l1 & l2 & E)%list_elem_of_split by (rewrite Els; set_solver).
  assert (∀ q, q ∈ ls → q ≠ P ∧ q ≠ G) as Hleaves.
  { intros q Hq. destruct (covers_leaf _ _ _ _ _ q Hc Hq) as (lq & Eq). split; intros ->; congruence. }
  assert (∀ q, q ∈ l1 ++ l2 → heap s' !! q = heap s !! q) as Hrest.
  { intros q Hq. destruct (Hleaves q) as [? ?]; [rewrite E; set_solver|]. apply Hs; [done| |done]. intros ->.
    rewrite E in Hnd. apply NoDup_app in Hnd as (_ & Hd & [Hn _]%NoDup_cons). apply elem_of_app in Hq as [Hq|Hq]; [apply (Hd _ Hq); left|done]. }
  rewrite E in Hok, Hc' |- *. change (l1 ++ leaf :: l2) with (l1 ++ [leaf] ++ l2) in *.
  destruct (local_change_ok s s' top G [leaf] _ Hlc (size (heap s)) l1 l2 [leaf] Hok) as (? & ? & _); [|done|lia|done|done].
  constructor; [done|by rewrite <- E| | | | |].
  - rewrite E in Hchain. revert Hchain. apply leaf_chain_frame. intros q lq Hq Eq. destruct (decide (q = leaf)) as [->|Hne].
    + eexists. split; [exact El'|]. by assert (lq = l) as -> by congruence.
    + exists lq. rewrite Hrest by set_solver. done.
  - intros q Hq. rewrite Hrest by done. apply same_at.
  - intros q lq ->%list_elem_of_singleton Eq. rewrite El' in Eq. injection Eq as <-. apply (Hwf leaf l); [set_solver|done].
  - rewrite !pairs_cons. unfold leaf_pairs. by rewrite El', El.
  - intros q q0 k ->%list_elem_of_singleton _ ->%list_elem_of_singleton _. done.
Qed.

Lemma collapse_steady : steady s → steady s'.
Proof.
  intros Hst. pose proof Hst as [(Hn & H0 & Hfresh) Hfan (sm & Esm & Hsm) Hr Hap].
  pose proof Hco as [Hroot Hsup Hnext (m & Em & _) El (Eg & Hb & Hch) Hone Eg' El' Egone Hs].
  assert (below (S (size (heap s))) (heap s) (root_node_ s) P) as HbP by (eapply below_child; [done..|by eapply child_in]).
  assert (superroot_ s ≠ P ∧ superroot_ s ≠ leaf ∧ superroot_ s ≠ G) as (Hs1 & Hs2 & Hs3).
  { split; [|split]; intros E; [|congruence|]; rewrite <- E in *; by eapply super_not_below. }
  assert (∀ q m', heap s' !! q = Some (ModelN m') → q ≠ G → heap s !! q = Some (ModelN m')) as Hback.
  { intros q m' Eq HqG. rewrite <- (Hs q); [done|..|done]; intros ->; congruence. }
  constructor.
  - rewrite <- Hnext in *. split; [done|]. assert (∀ q, heap s !! q = None → heap s' !! q = None) as Hnone by (intros q Eq; rewrite Hs; [done|..]; congruence).
    split; [by apply Hnone|]. intros q Hq. by apply Hnone, Hfresh.
  - intros q m' Eq. destruct (decide (q = G)) as [->|Hne]; [|by apply (Hfan q), Hback]. rewrite Eg' in Eq. injection Eq as <-. by apply (Hfan G mg).
  - exists sm. rewrite Hsup, Hs by done. done.
  - by rewrite Hroot, Hsup.
  - intros q m' Eq. rewrite Hsup. destruct (decide (q = G)) as [->|Hne]; [|by apply (Hap q), Hback]. rewrite Eg' in Eq. injection Eq as <-.
    cbn [children_ with_children]. intros [?|Hin]%overwrite_in; [congruence|]. by apply (Hap G mg).
Qed.
End collapse.

(** ** One level up *)
Section up.
Implicit Types (h : heap_t) (s : Alex) (p q k key top b : Z) (ls : list Z) (m : ModelNode) (path : list TraversalNode).

Lemma child_room d h top p lp m b c n :
  covers d h top p lp → h !! p = Some (ModelN m) → h !! c = Some n → 0 ≤ b < num_children_ m → child b m = Ret c →
  let dup := duplication_factor_ n in
  0 ≤ start_of b (2 ^ dup) ∧ 0 < 2 ^ dup ∧ start_of b (2 ^ dup) + 2 ^ dup ≤ Z.of_nat (length (children_ m)).
Proof.
  intros Hc Ep En Hb Hch dup. destruct d as [|d]; [done|]. cbn [covers] in Hc. rewrite Ep in Hc.
  destruct Hc as (_ & rs & _ & Ec & Hn & -> & Hal & Hf).
  destruct (child_run d h top rs b m c n Ec Hn Hal Hf En Hb Hch) as (rs1 & lp & rs2 & -> & _ & Hd & _ & Est & _). fold dup in Est, Hd. rewrite Est.
  assert (0 ≤ width rs1 ∧ 0 ≤ width rs2) by (unfold width; lia). split; [lia|]. split; [lia|].
  assert (Z.of_nat (length (children_ m)) = width (rs1 ++ mkRun c dup lp :: rs2)) as -> by (by rewrite Ec).
  rewrite width_app, width_cons by done. unfold repeats. cbn. lia.
Qed.

(** The statements of a round of [merge_up] behind its condition, below the root. *)
Definition collapse_under (leaf P G b : Z) (m : ModelNode) s : res Alex :=
  let* s := modify_node leaf (with_dup (mn_duplication_factor_ m)) s in
  let repeats := Z.shiftl 1 (mn_duplication_factor_ m) in
  let* s := delete_node P s in
  let s := add_nodes (-1) 0 s in
  let start_bucketID := start_of b repeats in
  set_children start_bucketID (start_bucketID + repeats) leaf G s.

Lemma collapse_under_spec top s ls P b m G bg rest leaf (l : Leaf) :
  tree_ok top s ls → steady s → path_ok (heap s) (superroot_ s) (root_node_ s) ((P, b) :: (G, bg) :: rest) leaf → P ≠ root_node_ s →
  heap s !! P = Some (ModelN m) → heap s !! leaf = Some (DataNode l) → 2 ^ leaf_duplication_factor_ l = num_children_ m →
  ∃ s', collapse_under leaf P G bg m s = Ret s' ∧ kept top s s' ls ls ∧ root_node_ s' = root_node_ s ∧ superroot_ s' = superroot_ s ∧
    path_ok (heap s') (superroot_ s) (root_node_ s) ((G, bg) :: rest) leaf.
Proof.
  intros Hok Hst Hpath HPr Em El Hall. rewrite path_ok_cons in Hpath. destruct Hpath as [(m' & Em' & Hb & Hch) Hpath].
  assert (m' = m) as -> by congruence. destruct rest as [|g rest]; [by destruct Hpath as (_ & _ & ?)|].
  rewrite path_ok_cons in Hpath. destruct Hpath as [(mg & Eg & Hbg & Hchg) Hpath].
  pose proof (path_below_root _ _ _ _ _ _ Hok Hpath) as HbG. destruct (below_covers _ _ _ _ _ _ (tree_covers _ _ _ Hok) HbG) as (lg & Hlg & _).
  set (dup := mn_duplication_factor_ m). destruct (child_room _ _ _ _ _ _ _ _ _ Hlg Eg Em Hbg Hchg) as (Hs0 & Hpow & Hs1). cbn [duplication_factor_] in *. fold dup in Hs0, Hpow, Hs1.
  set (start := start_of bg (2 ^ dup)) in *. set (mg' := with_children (overwrite start (start + 2 ^ dup) leaf (children_ mg)) mg).
  pose proof Hst as [(Hn & H0 & Hfresh) _ _ _ _].
  assert (G ≠ P) as HGP by (intros ->; by apply (covers_acyclic (heap s) top _ P mg P lg 1%nat Hlg Eg); [eapply child_in|left]).
  assert (leaf ≠ P ∧ leaf ≠ G) as [HlP HlG] by (split; intros ->; congruence).
  set (l' := with_place (leaf_level_ l) dup l).
  set (s1 := add_nodes (-1) 0 (with_heap (base.delete P (<[leaf := DataNode l']> (heap s))) s)).
  set (s' := set_model G mg' s1). assert (heap s1 !! G = Some (ModelN mg)) as Eg1 by (unfold s1; cbn; by rewrite lookup_delete_ne, lookup_insert_ne).
  assert (collapse_heap s s' top P leaf G bg dup mg l) as Hco.
  { constructor; [done|done|done|by exists m|done|done| | | | |].
    - intros d lp Hlp. by eapply only_child.
    - unfold s'. cbn. by rewrite lookup_insert_eq.
    - unfold s', s1. cbn. by rewrite lookup_insert_ne, lookup_delete_ne, lookup_insert_eq.
    - unfold s', s1. cbn. by rewrite lookup_insert_ne, lookup_delete_eq.
    - intros q ? ? ?. unfold s', s1. cbn. by rewrite lookup_insert_ne, lookup_delete_ne, lookup_insert_ne. }
  destruct (collapse_ok _ _ _ _ _ _ _ _ _ _ ls Hco Hok HbG) as [Hok' Hpr].
  assert (NoDup lg) as Hndg.
  { destruct (below_segment _ _ _ _ _ _ (tree_covers _ _ _ Hok) HbG) as (lg' & u & v & Hlg' & Els). pose proof (tree_nodup _ _ _ Hok) as Hnd.
    rewrite (covers_fun _ _ _ _ _ _ _ Hlg Hlg'). rewrite Els in Hnd. by apply NoDup_app in Hnd as (_ & _ & (? & _)%NoDup_app). }
  destruct (collapse_parent _ _ _ _ _ _ _ _ _ _ ls Hco Hok HbG _ lg Hlg Hndg) as (_ & _ & Hch').
  exists s'. split; [|split; [|split; [done|split; [done|]]]].
  - unfold collapse_under, modify_node, get_node. rewrite El. cbn [of_option]. rewrite !res_bind_ret. fold dup. cbn [with_dup]. fold l'.
    unfold delete_node, get_node. cbn [heap set_node with_heap]. rewrite bool_decide_eq_false_2 by (intros ->; congruence).
    rewrite lookup_insert_ne, Em by done. cbn [of_option]. rewrite !res_bind_ret, !Z.shiftl_1_l. fold start.
    apply (set_children_spec start (start + 2 ^ dup) leaf G mg s1 Eg1); lia.
  - constructor; [done..| |done|done]. by eapply (collapse_steady _ _ _ _ _ _ _ _ _ _ Hco).
  - rewrite path_ok_cons. split; [exists mg'; split; [apply Hco|done]|].
    eapply (path_frame (heap s) _ top); [apply Hok|done|by rewrite Eg|]. intros. by eapply (lc_above _ _ _ _ _ _ (collapse_local _ _ _ _ _ _ _ _ _ _ ls Hco Hok HbG)).
Qed.

(** The same at the root. *)
Definition collapse_root (leaf P : Z) (m : ModelNode) s : res Alex :=
  let* s := modify_node leaf (with_dup (mn_duplication_factor_ m)) s in
  let* s := delete_node P s in
  let s := add_nodes (-1) 0 s in
  update_superroot_pointer (with_root leaf s).

Lemma single_leaf_ok top s s' leaf (l l' : Leaf) :
  tree_ok top s [leaf] → heap s !! leaf = Some (DataNode l) → root_node_ s' = leaf → heap s' !! leaf = Some (DataNode l') →
  same_but_links (DataNode l) (DataNode (with_place (leaf_level_ l') (leaf_duplication_factor_ l) l')) →
  prev_leaf_ l' = prev_leaf_ l → next_leaf_ l' = next_leaf_ l →
  tree_ok top s' [leaf] ∧ pairs (heap s') [leaf] = pairs (heap s) [leaf].
Proof.
  intros [Hc Hnd Hch Hwf Hrt Ht] El Hroot El' (Hd & _) Hp Hn. cbn in Hd.
  assert (leaf_pairs (heap s') leaf = leaf_pairs (heap s) leaf) as Hlp by (unfold leaf_pairs; by rewrite El', El, <- Hd).
  split; [constructor|].
  - rewrite Hroot. apply (covers_size 1). cbn [covers]. by rewrite El'.
  - done.
  - revert Hch. apply leaf_chain_frame. intros q lq ->%list_elem_of_singleton Eq. exists l'. assert (lq = l) as -> by congruence. done.
  - intros q lq ->%list_elem_of_singleton Eq. rewrite El' in Eq. injection Eq as <-. rewrite <- Hd. apply (Hwf leaf l); [set_solver|done].
  - intros q k ->%list_elem_of_singleton Hk. rewrite Hlp in Hk. destruct (Hrt leaf k) as [Hkt _]; [set_solver|done|]. split; [done|].
    rewrite route_reach, Hroot. unfold depth_fuel. by apply (reach_data _ _ _ _ l').
  - done.
  - unfold pairs. cbn. by rewrite Hlp.
Qed.

Lemma collapse_root_spec top s ls P b m leaf (l : Leaf) :
  tree_ok top s ls → steady s → P = root_node_ s → heap s !! P = Some (ModelN m) → 0 ≤ b < num_children_ m → child b m = Ret leaf →
  heap s !! leaf = Some (DataNode l) → 2 ^ leaf_duplication_factor_ l = num_children_ m →
  ∃ s', collapse_root leaf P m s = Ret s' ∧ kept top s s' ls ls.
Proof.
  intros Hok Hst HP Em Hb Hch El Hall. assert (ls = [leaf]) as ->.
  { apply (only_child (size (heap s)) (heap s) top P m b leaf l); [rewrite HP; apply Hok|done..]. }
  pose proof Hst as [(Hn & H0 & Hfresh) Hfan (sm & Esm & Hsm) Hr Hap]. set (super := superroot_ s) in *.
  assert (super ≠ P ∧ super ≠ leaf ∧ leaf ≠ P) as (HsP & Hsl & HlP) by (split; [congruence|split; intros E; rewrite E in *; congruence]).
  set (dup := mn_duplication_factor_ m). set (l' := with_place (leaf_level_ l) dup l).
  set (s1 := with_root leaf (add_nodes (-1) 0 (with_heap (base.delete P (<[leaf := DataNode l']> (heap s))) s))).
  set (sm' := mkModelNode (mn_model sm) (num_children_ sm) (<[0%nat := Some leaf]> (children_ sm)) (level_ (DataNode l') - 1) (mn_duplication_factor_ sm)).
  set (s' := set_model super sm' s1).
  assert (heap s1 !! leaf = Some (DataNode l') ∧ heap s1 !! super = Some (ModelN sm)) as [El1 Es1]
    by (unfold s1; cbn; by rewrite !lookup_delete_ne, lookup_insert_eq, lookup_insert_ne).
  assert (∀ q, q ≠ P → q ≠ leaf → q ≠ super → heap s' !! q = heap s !! q) as Hrest
    by (intros; unfold s', s1; cbn; by rewrite lookup_insert_ne, lookup_delete_ne, lookup_insert_ne).
  assert (heap s' !! P = None) as EgP by (unfold s', s1; cbn; by rewrite lookup_insert_ne, lookup_delete_eq).
  assert (heap s' !! leaf = Some (DataNode l')) as El' by (unfold s'; cbn; by rewrite lookup_insert_ne).
  assert (heap s' !! super = Some (ModelN sm')) as Es' by (unfold s'; cbn; by rewrite lookup_insert_eq).
  exists s'. split.
  - unfold collapse_root, modify_node, get_node. rewrite El. cbn [of_option]. rewrite !res_bind_ret. fold dup. cbn [with_dup]. fold l'.
    unfold delete_node, get_node. cbn [heap set_node with_heap]. rewrite bool_decide_eq_false_2 by (intros ->; congruence).
    rewrite lookup_insert_ne, Em by done. cbn [of_option]. rewrite !res_bind_ret.
    change (update_superroot_pointer s1 = Ret s'). unfold update_superroot_pointer, get_node. change (root_node_ s1) with leaf.
    rewrite El1. cbn [of_option]. rewrite res_bind_ret. change (superroot_ s1) with super. rewrite (get_model_node _ _ _ Es1), res_bind_ret.
    unfold set_child, wr. rewrite bool_decide_eq_true_2 by (destruct (children_ sm); [done|cbn; lia]). by rewrite !res_bind_ret.
  - destruct (single_leaf_ok top s s' leaf l l') as [Hok' Hpr]; [done..|].
    constructor; [done|done| |done|done]. assert (∀ q, heap s !! q = None → heap s' !! q = None) as Hnone by (intros q Eq; rewrite Hrest; [done|..]; congruence).
    constructor.
    + split; [done|]. split; [by apply Hnone|]. intros q Hq. by apply Hnone, Hfresh.
    + intros q mq Eq. destruct (decide (q = super)) as [->|Hq]; [rewrite Es' in Eq; injection Eq as <-; by apply (Hfan super sm)|].
      apply (Hfan q). rewrite <- Hrest; [done|..|done]; intros ->; congruence.
    + exists sm'. split; [done|]. cbn. by destruct (children_ sm).
    + done.
    + intros q mq Eq. change (superroot_ s') with super. destruct (decide (q = super)) as [->|Hq].
      * rewrite Es' in Eq. injection Eq as <-. cbn [children_ sm']. intros Hin. apply (Hap super sm Esm). revert Hin.
        destruct (children_ sm) as [|c cs]; [done|]. cbn. intros [?|?]%elem_of_cons; [congruence|by right].
      * apply (Hap q). rewrite <- Hrest; [done|..|done]; intros ->; congruence.
Qed.
End up.
