(* ===== verification/AlexTreeErase.v ===== *)
(** * ALEX: erases that empty a leaf

    [merge] ends with a tree of the same pairs, so that an erase removes the
    pairs of its key whatever it does to the shape of the tree. *)
From S2P Require Import Prelude Ieee AlexBase AlexNode AlexOps AlexInv AlexBuild AlexErase AlexCost AlexFanout AlexTree AlexTreeOps AlexRoute AlexTreeInv AlexTreeOk AlexTreeLookup AlexTreeUpdate AlexLink AlexSubtree AlexReplace AlexSplit AlexTreeSplit AlexMerge AlexMergeLoop AlexCollapse.

Section merge_up.
Implicit Types (h : heap_t) (s : Alex) (p q k key top b : Z) (ls : list Z) (m : ModelNode) (path : list TraversalNode).

Lemma merge_up_round P b G bg rest leaf s :
  merge_up ((P, b) :: (G, bg) :: rest) leaf s =
    let* (leaf, s) := merge_siblings (depth_fuel s) leaf P b s in
    let* l := get_data leaf s in
    let* m := get_model P s in
    if bool_decide (Z.shiftl 1 (leaf_duplication_factor_ l) = num_children_ m) then
      if bool_decide (P = root_node_ s) then collapse_root leaf P m s
      else let* s := collapse_under leaf P G bg m s in merge_up ((G, bg) :: rest) leaf s
    else Ret s.
Proof.
  remember ((G, bg) :: rest) as path eqn:Epath. cbn [merge_up]. destruct (merge_siblings _ _ _ _ _) as [[lf s1]| |]; [|done..]. rewrite !res_bind_ret.
  destruct (get_data lf s1) as [l| |]; [|done..]. rewrite !res_bind_ret. destruct (get_model P s1) as [m| |]; [|done..]. rewrite !res_bind_ret.
  destruct (bool_decide _); [|done]. unfold collapse_root, collapse_under, modify_node.
  destruct (get_node lf s1) as [n| |]; [|by destruct (bool_decide (P = root_node_ s1))..]. rewrite !res_bind_ret. unfold delete_node.
  rewrite Epath. cbn [head of_option].
  destruct (bool_decide (P = 0)); [|destruct (get_node P _); [|by destruct (bool_decide (P = root_node_ s1))..]]; rewrite !res_bind_ret;
    by destruct (bool_decide (P = root_node_ s1)) eqn:E; cbn; rewrite ?E.
Qed.

Lemma merge_up_spec top : ∀ path s ls leaf (l : Leaf), tree_ok top s ls → steady s →
  path_ok (heap s) (superroot_ s) (root_node_ s) path leaf → length path ≠ 1%nat → heap s !! leaf = Some (DataNode l) →
  ∃ s' ls', merge_up path leaf s = Ret s' ∧ kept top s s' ls ls'.
Proof.
  induction path as [|[P b] [|[G bg] rest] IH]; intros s ls leaf l Hok Hst Hpath Hlen El; [done..|]. rewrite merge_up_round.
  pose proof Hpath as Hpath0. rewrite path_ok_cons in Hpath0. destruct Hpath0 as [(m & Em & Hb & Hch) HpathP].
  destruct (merge_siblings_spec top P b _ (depth_fuel s) s ls leaf m l Hok Hst HpathP Em Hb Hch El ltac:(unfold depth_fuel; lia))
    as (lf & s1 & ls1 & -> & Hms & m1 & l1 & Em1 & En1 & Hch1 & El1). rewrite res_bind_ret.
  rewrite (get_data_leaf _ _ _ El1), res_bind_ret, (get_model_node _ _ _ Em1), res_bind_ret.
  destruct Hms as [Hk Hsup Hroot Hkeep _]. pose proof Hk as [Hok1 _ Hst1 _ _]. rewrite Z.shiftl_1_l.
  case_bool_decide as Hall; [|by exists s1, ls1].
  assert (path_ok (heap s1) (superroot_ s1) (root_node_ s1) ((P, b) :: (G, bg) :: rest) lf) as Hpath1.
  { rewrite path_ok_cons. split; [exists m1; rewrite En1; done|]. rewrite Hsup, Hroot. by apply Hkeep. }
  destruct (decide (P = root_node_ s1)) as [E|HPr].
  - rewrite (bool_decide_eq_true_2 _ E).
    destruct (collapse_root_spec top s1 ls1 P b m1 lf l1 Hok1 Hst1 E Em1 ltac:(lia) Hch1 El1 Hall) as (s2 & -> & Hk2).
    exists s2, ls1. split; [done|]. by eapply kept_trans.
  - rewrite (bool_decide_eq_false_2 _ HPr).
    destruct (collapse_under_spec top s1 ls1 P b m1 G bg rest lf l1 Hok1 Hst1 Hpath1 HPr Em1 El1 Hall) as (s2 & E2 & Hk2 & Hr2 & Hs2 & Hpath2).
    rewrite E2, res_bind_ret. pose proof Hk2 as [Hok2 _ Hst2 _ _]. rewrite <- Hr2, <- Hs2 in Hpath2.
    assert (∃ l2, heap s2 !! lf = Some (DataNode l2)) as (l2 & El2).
    { apply (covers_leaf (size (heap s2)) (heap s2) top (root_node_ s2) ls1); [apply Hok2|].
      rewrite path_ok_cons in Hpath1. destruct Hpath1 as [_ Hp1]. pose proof (path_below_root _ _ _ _ _ _ Hok1 Hp1) as HbP.
      destruct (below_covers _ _ _ _ _ _ (tree_covers _ _ _ Hok1) HbP) as (lp & Hlp & Hsub). apply Hsub.
      by eapply child_covered. }
    destruct (IH s2 ls1 lf l2 Hok2 Hst2 Hpath2) as (s3 & ls3 & E3 & Hk3); [|done|].
    { destruct rest; [|done]. rewrite path_ok_cons in Hpath1. by destruct Hpath1 as (_ & _ & _ & ?). }
    exists s3, ls3. split; [done|]. eapply kept_trans; [done|]. by eapply kept_trans.
Qed.

Lemma merge_spec top s ls leaf key (l : Leaf) :
  tree_ok top s ls → steady s → 0 < key ≤ top → route key s = Ret leaf → heap s !! leaf = Some (DataNode l) →
  ∃ s' ls', merge leaf key s = Ret s' ∧ kept top s s' ls ls'.
Proof.
  intros Hok Hst Hk Hr El. destruct (get_leaf_with_spec top s ls key (Some []) Hok) as (p & Q & Hr' & _ & Hd & Eg); [lia|lia|by right|].
  assert (p = leaf) as -> by congruence.
  assert (path_ok (heap s) (superroot_ s) (root_node_ s) Q leaf) as Hpath.
  { apply (descend_path_ok (bucket_of key) s (superroot_ s) (root_node_ s) top (λ m, bucket_of_range m key) (depth_fuel s) (size (heap s))
      (root_node_ s) ls [(superroot_ s, 0)]); [apply Hok|done|done]. }
  unfold merge, get_leaf_path. rewrite Eg, res_bind_ret. cbn [fmap option_fmap option_map of_option]. rewrite !res_bind_ret.
  rewrite !(get_data_leaf _ _ _ El), !res_bind_ret. rewrite (bool_decide_eq_true_2 (leaf = leaf)), res_bind_ret by done.
  case_bool_decide as Hlen; [|by apply (merge_up_spec top Q s ls leaf l)]. exists s, ls. split; [done|]. by constructor.
Qed.

(** ** Erases *)
Lemma steady_shape s s' : same_shape (heap s) (heap s') → next_addr s' = next_addr s → root_node_ s' = root_node_ s →
  superroot_ s' = superroot_ s → steady s → steady s'.
Proof.
  intros Hsh Hn Hr Hsup [(Hn0 & H0 & Hfresh) Hfan (sm & Esm & Hsm) Hroot Hap].
  assert (∀ q m, heap s !! q = Some (ModelN m) ↔ heap s' !! q = Some (ModelN m)) as Hmod.
  { intros q m. specialize (Hsh q). split; intros E; rewrite E in Hsh;
      [destruct (heap s' !! q) as [[]|]|destruct (heap s !! q) as [[]|]]; inversion Hsh as [? ? Hx|]; try done; cbn in Hx; by subst. }
  assert (∀ q, heap s !! q = None → heap s' !! q = None) as Hnone by (intros q E; specialize (Hsh q); rewrite E in Hsh; by inversion Hsh).
  constructor; rewrite ?Hr, ?Hsup.
  - rewrite <- Hn in *. split; [done|]. split; [by apply Hnone|]. intros q Hq. by apply Hnone, Hfresh.
  - intros q m E. apply (Hfan q). by apply Hmod.
  - exists sm. split; [by apply Hmod|done].
  - done.
  - intros q m E. apply (Hap q). by apply Hmod.
Qed.

Lemma erase_with_any top s ls key (f : AlexDataNode → res (Z * AlexDataNode)) r n' :
  tree_ok top s ls → steady s → 0 < key ≤ top →
  (∀ p l, route key s = Ret p → heap s !! p = Some (DataNode l) →
    f (data l) = Ret (r, n') ∧ node_wf n' ∧ (∀ k, k ∈ (contents n').*1 → k ∈ (contents (data l)).*1)) →
  ∃ s' ls', erase_with f key s = Ret (r, s') ∧ tree_ok top s' ls' ∧ steady s' ∧
    stat_num_keys (stats_ s') = stat_num_keys (stats_ (add_keys (- r) s)) ∧
    ∃ p l1 l l2, route key s = Ret p ∧ heap s !! p = Some (DataNode l) ∧
      pairs (heap s) ls = l1 ++ contents (data l) ++ l2 ∧ pairs (heap s') ls' = l1 ++ contents n' ++ l2 ∧
      Forall (λ kp, kp.1 < key) l1 ∧ Forall (λ kp, key < kp.1) l2.
Proof.
  intros Hok Hst Hk Hf. destruct (key_leaf top s ls key Hok Hk) as (l1 & p & l2 & l & -> & Eg & Hr & El & Hwf & Ep & H1 & H2 & Hin).
  destruct (Hf p l Hr El) as (Ef & Hwf' & Hsub). unfold erase_with, on_data.
  rewrite Eg, res_bind_ret, (get_data_leaf _ _ _ El), res_bind_ret, Ef, !res_bind_ret.
  destruct (set_leaf_ok top s l1 p l2 l n' Hok El Hwf') as (Hok' & Epp & Hrr); [intros k Hkk; by apply Hin, Hsub|].
  set (s1 := set_data p (with_data n' l) s) in *. set (s2 := add_keys (- r) s1).
  assert (tree_ok top s2 (l1 ++ p :: l2)) as Hok2 by by apply (same_heap_ok top s1).
  assert (steady s2) as Hst2 by (apply (steady_shape s); [by apply (same_shape_insert _ _ l)|done..]).
  assert (heap s2 !! p = Some (DataNode (with_data n' l))) as El2 by (unfold s2, s1; cbn; by rewrite lookup_insert_eq).
  rewrite (get_data_leaf _ _ _ El2), res_bind_ret. cbn [data with_data].
  assert (∃ s3 ls3, (if bool_decide (num_keys_ n' = 0) then merge p key s2 else Ret s2) = Ret s3 ∧ kept top s2 s3 (l1 ++ p :: l2) ls3)
    as (s3 & ls3 & -> & [Hok3 Hp3 Hst3 Hk3 _]).
  { case_bool_decide; [|exists s2, (l1 ++ p :: l2); split; [done|by constructor]].
    apply (merge_spec top s2 _ p key (with_data n' l)); [done|done|done| |done]. rewrite (same_heap_route s1 s2) by done. by rewrite Hrr. }
  rewrite res_bind_ret. destruct (count_erased_istats key r s3) as [i ->]. exists (with_istats i s3), ls3. split; [done|].
  split; [by apply (same_heap_ok top s3)|]. split; [|split; [exact Hk3|]].
  - apply (steady_shape s3); [|done..|done]. intros q. cbn. destruct (heap s3 !! q); constructor. apply same_node_shape_refl.
  - exists p, (pairs (heap s) l1), l, (pairs (heap s) l2). split; [done|]. split; [done|]. split; [done|]. split; [|done].
    change (heap (with_istats i s3)) with (heap s3). by rewrite Hp3.
Qed.

Context (junk : Z → Z).

Lemma tree_erase_any top s ls key :
  tree_ok top s ls → steady s → 0 < key ≤ top →
  (∀ p l, route key s = Ret p → heap s !! p = Some (DataNode l) → num_keys_ (data l) ≤ 2 ^ 26) →
  ∃ r s' ls', tree_erase junk key s = Ret (r, s') ∧ tree_ok top s' ls' ∧ steady s' ∧
    stat_num_keys (stats_ s') = stat_num_keys (stats_ s) - r ∧
    r = Z.of_nat (length (filter (λ kp, kp.1 = key) (pairs (heap s) ls))) ∧
    pairs (heap s') ls' = filter (λ kp, kp.1 ≠ key) (pairs (heap s) ls).
Proof.
  intros Hok Hst Hk Hl. pose proof (tree_top _ _ _ Hok) as Htop.
  destruct (key_leaf top s ls key Hok Hk) as (l1 & p & l2 & l & Els & _ & Hr & El & Hwf & _).
  destruct (erase_spec junk (data l) key Hwf) as (n' & Ef & Hwf' & Hc); [lia|by apply (Hl p)|].
  destruct (erase_with_any top s ls key (erase junk key) (Z.of_nat (length (filter (λ kp, kp.1 = key) (contents (data l))))) n' Hok Hst Hk)
    as (s' & ls' & E & Hok' & Hst' & Hkeys & p' & m1 & l' & m2 & Hr' & El' & E1 & E2 & H1 & H2).
  { intros p' l' Hr' El'. assert (p' = p) as -> by congruence. assert (l' = l) as -> by congruence.
    split; [exact Ef|]. split; [done|]. rewrite Hc. intros k (kp & -> & [_ ?]%list_elem_of_filter)%list_elem_of_fmap. apply list_elem_of_fmap. by exists kp. }
  assert (l' = l) as -> by congruence. eexists _, s', ls'. split; [exact E|]. split; [done|]. split; [done|]. split; [exact Hkeys|].
  rewrite E2, E1, Hc, !filter_app. rewrite (filter_none _ m1), (filter_none _ m2), (filter_all _ m1), (filter_all _ m2), app_nil_r; [done|..];
    (eapply Forall_impl; [eassumption|]); cbn; lia.
Qed.
End merge_up.
