(* ===== verification/AlexSplitDown.v ===== *)
(** * ALEX: splitting downwards

    A leaf is replaced by a model node with two leaves of its own: under its
    parent, or as the root of a tree that is one leaf. *)
From S2P Require Import Prelude Ieee AlexBase AlexNode AlexOps AlexInv AlexBuild AlexCost AlexFanout AlexTree AlexTreeOps AlexRoute AlexTreeInv AlexTreeOk AlexTreeLookup AlexLink AlexSubtree AlexReplace AlexSplit AlexSplitPlan AlexTreeSplit AlexMerge.

(** ** The new node *)
Section node.
Implicit Types (h : heap_t) (s : Alex) (p q key top : Z) (m : ModelNode).

(** A model node of two children, before it gets them. *)
Definition childless (top : Z) (m : ModelNode) : Prop := model_ok top m ∧ num_children_ m = 2 ∧ children_ m = [None; None].

Lemma halved_pair top m L R : childless top m → children_ (halved L R 0 1 m) = [Some L; Some R].
Proof. intros (_ & _ & Ec). unfold halved. cbn [children_ with_children]. by rewrite Ec. Qed.

Lemma pair_child top m L R key : childless top m →
  child (bucket_of key m) (halved L R 0 1 m) = Ret (if bool_decide (predict key (mn_model m) < middle 0 1) then L else R).
Proof.
  intros Hm. unfold child, rd, bucket_of. rewrite (halved_pair top) by done. destruct Hm as (_ & -> & _). change (middle 0 1) with 1.
  rewrite bool_decide_eq_true_2 by lia. case_bool_decide.
  - by rewrite Z.min_l, Z.max_r by lia.
  - by rewrite Z.min_r by lia.
Qed.

Lemma pair_covers d h top N m L R (lL lR : Leaf) : childless top m → h !! N = Some (ModelN (halved L R 0 1 m)) →
  h !! L = Some (DataNode lL) → leaf_duplication_factor_ lL = 0 → h !! R = Some (DataNode lR) → leaf_duplication_factor_ lR = 0 →
  covers (S (S d)) h top N [L; R].
Proof.
  intros Hm EN EL DL ER DR. remember (S d) as d1 eqn:Ed. cbn [covers]. rewrite EN. split; [apply Hm|]. exists [mkRun L 0 [L]; mkRun R 0 [R]].
  split; [done|]. split; [by apply (halved_pair top)|]. split; [by destruct Hm as (_ & ? & _)|]. split; [done|]. split; [done|].
  rewrite !Forall_cons, Forall_nil, Ed. cbn [covers run_child run_dup run_leaves]. rewrite EL, ER.
  split; [|split; [|done]]; (split; [done|]; split; [done|by eexists]).
Qed.

Lemma pair_reach fuel key N s top m L R (lL lR : Leaf) : childless top m → heap s !! N = Some (ModelN (halved L R 0 1 m)) →
  heap s !! L = Some (DataNode lL) → heap s !! R = Some (DataNode lR) →
  reach (S (S fuel)) key N s = Ret (if bool_decide (predict key (mn_model m) < middle 0 1) then L else R).
Proof.
  intros Hm EN EL ER. rewrite (reach_model _ _ _ _ _ _ EN (pair_child top m L R key Hm)).
  case_bool_decide; [by apply (reach_data _ _ _ _ lL)|by apply (reach_data _ _ _ _ lR)].
Qed.
End node.

(** ** Under a parent *)
Record down_heap (s s' : Alex) (top G old N L R start dup : Z) (mg m : ModelNode) : Prop := {
  dh_root : root_node_ s' = root_node_ s;
  dh_parent : heap s !! G = Some (ModelN mg);
  dh_parent' : heap s' !! G = Some (ModelN (with_children (overwrite start (start + 2 ^ dup) N (children_ mg)) mg));
  dh_old : ∃ l, heap s !! old = Some (DataNode l) ∧ leaf_duplication_factor_ l = dup;
  dh_model : childless top m ∧ mn_duplication_factor_ m = dup;
  dh_node : heap s' !! N = Some (ModelN (halved L R 0 1 m));
  dh_left : ∃ l, heap s' !! L = Some (DataNode l) ∧ leaf_duplication_factor_ l = 0;
  dh_right : ∃ l, heap s' !! R = Some (DataNode l) ∧ leaf_duplication_factor_ l = 0;
  dh_fresh : heap s !! N = None ∧ heap s !! L = None ∧ heap s !! R = None ∧ L ≠ R;
  dh_same q : q ≠ old → q ≠ G → q ≠ N → q ≠ L → q ≠ R → option_Forall2 same_but_links (heap s !! q) (heap s' !! q)
}.

Section down.
Context (s s' : Alex) (top G old N L R start dup : Z) (mg m : ModelNode).
Context (Hdh : down_heap s s' top G old N L R start dup mg m) (Htop : top < 2 ^ 64).
Implicit Types (p q k key : Z) (ls : list Z) (d : nat).

Lemma down_local : local_change s s' top G [old] (moved old L R 0 1 m).
Proof.
  destruct Hdh as [_ Ep Ep' (lo & Eo & _) _ _ _ _ (HNn & HLn & HRn & _) Hs].
  assert (∀ d p ls q, covers d (heap s) top p ls → below d (heap s) p q → q ≠ N ∧ q ≠ L ∧ q ≠ R ∧ (q = old → old ∈ ls)) as Hbelow.
  { intros d p ls q Hc Hq. destruct (below_covers _ _ _ _ _ q Hc Hq) as (lq & Hcq & Hsub). destruct d as [|d]; [done|].
    cbn [covers] in Hcq. split; [|split; [|split]]; intros ->; [by rewrite HNn in Hcq|by rewrite HLn in Hcq|by rewrite HRn in Hcq|].
    rewrite Eo in Hcq. subst lq. apply Hsub. set_solver. }
  constructor.
  - done.
  - done.
  - intros d p ls q Hc Hout Hq Hqp. destruct (Hbelow d p ls q Hc Hq) as (? & ? & ? & Ho). apply Hs; [|done..].
    intros ->. apply (Hout old); [set_solver|by apply Ho].
  - intros d p ls Hc Hbl Hne. assert (below d (heap s) p p) as Hp by (destruct d; [done|by left]).
    destruct (Hbelow d p ls p Hc Hp) as (? & ? & ? & _). apply Hs; [|done..]. intros ->. apply Hne. symmetry. by eapply leaf_below.
  - intros n En. eexists. split; [exact Ep'|]. by assert (n = ModelN mg) as -> by congruence.
  - intros key q Hq. unfold moved. rewrite bool_decide_eq_false_2; [done|]. intros ->. set_solver.
Qed.

Lemma down_parent d x y b :
  covers d (heap s) top G (x ++ [old] ++ y) → NoDup (x ++ [old] ++ y) →
  0 ≤ b < num_children_ mg → child b mg = Ret old → start = start_of b (2 ^ dup) →
  covers (1 + d) (heap s') top G (x ++ [L; R] ++ y) ∧ moves s s' top (moved old L R 0 1 m) (1 + d) G.
Proof.
  intros Hcp Hnd Hb Hch Hst. pose proof down_local as Hlc.
  pose proof Hdh as [_ Ep Ep' (lo & Eo & Edup) (Hm & Emdup) EN (lL & EL & DL) (lR & ER & DR) _ _].
  destruct d as [|d]; [done|]. pose proof Hcp as Hc. cbn [covers] in Hc. rewrite Ep in Hc.
  destruct Hc as (Hmg & rs & Hne & Ec & Hn & Els & Hal & Hf).
  destruct (leaf_run d (heap s) top rs b mg old lo Ec Hn Hal Hf Eo Hb Hch) as (rs1 & rs2 & -> & Ew & Hbr). rewrite Edup, <- Hst in *.
  set (ro := mkRun old dup [old]) in *. set (rn := mkRun N dup [L; R]). change (rs1 ++ ro :: rs2) with (rs1 ++ [ro] ++ rs2) in *.
  assert (x = rs1 ≫= run_leaves ∧ y = rs2 ≫= run_leaves) as [-> ->].
  { rewrite !bind_app in Els. cbn [mbind list_bind ro run_leaves app] in Els. by apply (pivot_unique old). }
  assert (∃ d', d = S d') as [d' ->].
  { apply Forall_app in Hf as [_ [(Hc0 & _) _]%Forall_cons]. destruct d as [|d']; [done|by exists d']. }
  assert (Forall (λ r, 0 ≤ run_dup r) (rs1 ++ [ro] ++ rs2)) as [Hd1 [Hd0 Hd2]%Forall_cons]%Forall_app by (eapply Forall_impl; [exact Hf|]; by intros r (_ & ? & _)).
  cbn [ro run_dup] in Hd0. set (mg' := with_children (overwrite start (start + 2 ^ dup) N (children_ mg)) mg) in *.
  assert (parent_runs s top (S (S d')) mg rs1 [ro] rs2) as Hpr.
  { constructor; [done..| |by rewrite <- Els]. eapply Forall_impl; [exact Hf|]. intros r. apply run_ok_le. lia. }
  assert (Forall (run_ok (S (S d')) (heap s') top) [rn]) as Hrok.
  { apply Forall_singleton. split; [by apply (pair_covers d' _ _ N m L R lL lR)|]. split; [done|]. exists (ModelN (halved L R 0 1 m)). split; [exact EN|exact Emdup]. }
  assert (width [rn] = 2 ^ dup ∧ width [ro] = 2 ^ dup) as [Hwn Hwo] by (rewrite !width_cons, width_nil by done; unfold repeats; cbn; lia).
  assert (children_ mg' = (rs1 ++ [rn] ++ rs2) ≫= slots_of) as Ec'.
  { unfold mg'. cbn [children_ with_children]. rewrite Ec. apply (overwrite_run rs1 ro rs2 _ _ N rn); [done|done|unfold repeats; cbn; lia| |done].
    by apply (repeats_length ro). }
  assert (aligned (width rs1) [rn]) as Haln by (apply aligned_app in Hal as [_ [Hal _]]; [|done]; by rewrite Z.add_0_l in Hal).
  assert (∀ i, width rs1 ≤ i < width rs1 + 2 ^ dup → child i mg = Ret old ∧ child i mg' = Ret N) as Hchild.
  { intros i Hi. split; [by apply (child_at mg (rs1 ++ ro :: rs2) rs1 ro rs2)|by apply (child_at mg' (rs1 ++ rn :: rs2) rs1 rn rs2)]. }
  split.
  - assert (covers (S (S (S d'))) (heap s') top G ((rs1 ++ [rn] ++ rs2) ≫= run_leaves)) as Hcov.
    { apply (parent_covers' s s' top G [old] _ Hlc (S (S d')) mg mg' rs1 [ro] rs2 [rn]); try done. congruence. }
    rewrite !bind_app in Hcov. exact Hcov.
  - apply (parent_moves s s' top G [old] _ Hlc (S (S d')) mg mg' rs1 [ro] rs2 [rn]); [try done; congruence..|].
    intros [|[|fuel]] key Hfuel Hk Hkb; [lia..|]. rewrite Hwo in Hkb. destruct (Hchild _ Hkb) as [Ho Hn']. exists old.
    rewrite (reach_model _ _ _ _ _ _ Ep Ho), (reach_data _ _ _ _ _ Eo). split; [done|].
    rewrite (reach_model (S (S fuel)) key G s' mg' N Ep' Hn'), (pair_reach fuel key N s' top m L R lL lR Hm EN EL ER).
    unfold moved. by rewrite (bool_decide_eq_true_2 (old = old)).
Qed.

Lemma down_heap_ok l1 l2 b (lL lR l : Leaf) :
  tree_ok top s (l1 ++ old :: l2) → below (size (heap s)) (heap s) (root_node_ s) G →
  0 ≤ b < num_children_ mg → child b mg = Ret old → start = start_of b (2 ^ dup) →
  heap s' !! L = Some (DataNode lL) → heap s' !! R = Some (DataNode lR) → heap s !! old = Some (DataNode l) →
  parted m 0 1 lL lR l → chain (heap s') 0 (l1 ++ L :: R :: l2) →
  tree_ok top s' (l1 ++ L :: R :: l2) ∧ pairs (heap s') (l1 ++ L :: R :: l2) = pairs (heap s) (l1 ++ old :: l2) ∧
  (∀ key, 0 ≤ key ≤ top → ∃ q, route key s = Ret q ∧ route key s' = Ret (moved old L R 0 1 m key q)).
Proof.
  intros Hok Hbl Hb Hch Hst EL ER Eo Hpart Hchain. pose proof Hdh as [Hroot Ep Ep' _ _ EN _ _ (HNn & HLn & HRn & HLR) Hs].
  pose proof Hok as [Hc Hnd _ _ _ _]. pose proof down_local as Hlc.
  destruct (below_segment _ _ _ _ _ _ Hc Hbl) as (lp & u & v & Hlp & Els).
  assert (old ∈ lp) as (x & y & ->)%list_elem_of_split by by apply (child_covered _ _ _ _ _ mg b old l Hlp).
  assert (NoDup (x ++ old :: y)) as Hndp by (rewrite Els in Hnd; by apply NoDup_app in Hnd as (_ & _ & (? & _)%NoDup_app)).
  destruct (covers_replace s s' top G [old] (moved old L R 0 1 m) Hlc 1 (x ++ [old] ++ y) (x ++ [L; R] ++ y))
    with (d := size (heap s)) (p := root_node_ s) (ls := l1 ++ old :: l2) as (u' & v' & Els' & Hc' & Hmoves); [set_solver| |done..|].
  { intros d Hcd. by apply (down_parent d x y b). }
  assert (l1 = u' ++ x ∧ l2 = y ++ v') as [-> ->].
  { apply (pivot_unique old); [done|]. rewrite Els'. by rewrite <- !app_assoc. }
  replace (u' ++ (x ++ [L; R] ++ y) ++ v') with ((u' ++ x) ++ [L; R] ++ y ++ v') in Hc' by by rewrite <- !app_assoc.
  apply (local_change_ok s s' top G [old] (moved old L R 0 1 m) Hlc (1 + size (heap s)) (u' ++ x) (y ++ v') [L; R]); [done| |done|lia|done].
  apply (halves_stand s s' old L R 0 1 m _ _ lL lR l); try done.
  intros q Hq. destruct (covers_leaf _ _ _ _ _ q Hc) as (lq & Eq); [set_solver|].
  assert (q ≠ L ∧ q ≠ R ∧ q ≠ G ∧ q ≠ N) as (? & ? & ? & ?) by (repeat split; congruence). split; [done|]. split; [done|]. apply Hs; [|done..].
  intros ->. apply NoDup_app in Hnd as (_ & Hd & [Hn _]%NoDup_cons). set_solver.
Qed.
End down.

(** ** The new subtree *)
Section new_pair.
Context (junk : Z → Z) (log2 : double → double) (max_data_node_slots : Z).
Implicit Types (s : Alex) (p q k key top : Z) (ls : list Z) (m : ModelNode).

Lemma splittable_childless nodes top m l :
  num_children_ m = 2 → children_ m = [None; None] → splittable top nodes m l 0 1 → childless top m.
Proof. intros ?? Hsp. split; [by apply Hsp|done]. Qed.

(** Once the old leaf is gone. *)
Definition paired (s : Alex) (h : heap_t) : Alex :=
  mkAlex h (next_addr s + 3) (root_node_ s) (superroot_ s) (stats_ (add_nodes 0 2 s)) (istats_ s).

Record new_pair (s : Alex) (old : Z) (l : Leaf) (m : ModelNode) (h : heap_t) (lL lR : Leaf) : Prop := {
  np_node : h !! next_addr s = Some (ModelN (halved (next_addr s + 1) (next_addr s + 2) 0 1 m));
  np_left : h !! (next_addr s + 1) = Some (DataNode lL) ∧ leaf_duplication_factor_ lL = 0;
  np_right : h !! (next_addr s + 2) = Some (DataNode lR) ∧ leaf_duplication_factor_ lR = 0;
  np_gone : h !! old = None;
  np_parted : parted m 0 1 lL lR l;
  np_ok : heap_ok (paired s h);
  np_same q : q ≠ old → q < next_addr s → option_Forall2 same_but_links (heap s !! q) (h !! q)
}.

Lemma new_pair_spec nodes top s l1 old l2 l m reuse_model :
  heap_ok s → chain (heap s) 0 (l1 ++ old :: l2) → NoDup (l1 ++ old :: l2) → heap s !! old = Some (DataNode l) →
  children_ m = [None; None] → splittable top nodes m l 0 1 →
  let N := next_addr s in
  ∃ s2 h lL lR,
    create_children junk log2 max_data_node_slots nodes old N 1 reuse_model 0 (alloc_node (ModelN m) s).2 = Ret s2 ∧
    delete_node old s2 = Ret (paired s h) ∧ chain h 0 (l1 ++ (N + 1) :: (N + 2) :: l2) ∧ new_pair s old l m h lL lR.
Proof.
  intros Hh Hc Hnd El Ech Hsp N. set (s1 := (alloc_node (ModelN m) s).2). pose proof Hh as (Hna & H0 & Hfresh).
  pose proof (heap_ok_lt _ _ _ Hh El) as Holt.
  assert (∀ q, q ≠ N → heap s1 !! q = heap s !! q) as Hs1 by (intros q Hq; apply lookup_insert_ne; done).
  assert (heap s1 !! N = Some (ModelN m)) as EN by apply lookup_insert_eq.
  assert (heap_ok s1) as Hh1.
  { split; [cbn; lia|]. split; [by rewrite Hs1 by (unfold N; lia)|]. intros q Hq. cbn in Hq. rewrite Hs1 by (unfold N; lia). apply Hfresh. lia. }
  assert (∀ q, q ∈ l1 ++ old :: l2 → q < N) as Hlt.
  { intros q Hq. apply list_elem_of_split in Hq as (x & y & E). rewrite E in Hc. destruct (chain_at _ _ _ _ _ Hc) as (_ & lq & Eq & _).
    by apply (heap_ok_lt _ _ _ Hh Eq). }
  assert (chain (heap s1) 0 (l1 ++ old :: l2)) as Hc1.
  { apply (leaf_chain_frame (heap s)); [|done]. intros q lq Hq Eq. exists lq. rewrite Hs1; [done|]. specialize (Hlt q Hq). lia. }
  destruct (create_children_spec junk log2 max_data_node_slots top nodes s1 l1 old l2 N l m 0 1 reuse_model Hh1 Hc1 Hnd ltac:(by rewrite Hs1 by lia) EN Hsp)
    as (h' & lL & lR & E & Hc' & EN' & EL & ER & [no Eo] & DL & DR & WL & WR & Hall & Hl & Hr & Hrest).
  assert (next_addr s1 = N + 1 ∧ N + 1 + 1 = N + 2 ∧ N + 1 + 2 = N + 3) as (En & E2 & E3) by (split; [done|lia]).
  rewrite !En in E, Hc', EN', EL, ER, Hrest. rewrite E2 in Hc', EN', ER, Hrest. rewrite E3 in E.
  exists (mkAlex h' (N + 3) (root_node_ s) (superroot_ s) (stats_ (add_nodes 0 2 s)) (istats_ s)), (base.delete old h'), lL, lR.
  assert (∀ q, q ≠ old → base.delete old h' !! q = h' !! q) as Hdel by (intros q Hq; apply lookup_delete_ne; done).
  assert (∀ q, q ≠ old → q ≠ N → q ≠ N + 1 → q ≠ N + 2 → option_Forall2 same_but_links (heap s !! q) (base.delete old h' !! q)) as Hsame.
  { intros q ????. rewrite Hdel by done. rewrite <- Hs1 by done. by apply Hrest. }
  split; [by rewrite E|]. split.
  { unfold delete_node, get_node. cbn [heap]. rewrite bool_decide_eq_false_2 by (intros ->; by rewrite H0 in El).
    rewrite Eo. cbn [of_option]. by rewrite res_bind_ret. }
  split; [|constructor].
  - apply (leaf_chain_frame h'); [|done].
    intros q lq Hq Eq. exists lq. rewrite Hdel; [done|]. intros ->. apply NoDup_app in Hnd as (_ & Hdis & [Hn _]%NoDup_cons).
    rewrite elem_of_app, !elem_of_cons in Hq. destruct Hq as [Hq|[?|[?|?]]]; [|lia|lia|done]. apply (Hdis old Hq). left.
  - by rewrite Hdel by (fold N; lia).
  - by rewrite Hdel by (fold N; lia).
  - by rewrite Hdel by (fold N; lia).
  - apply lookup_delete_eq.
  - by constructor.
  - split; [cbn; lia|]. cbn. fold N. split; [|intros q Hq].
    + assert (0 ≠ old) as Hne by (intros <-; congruence). specialize (Hsame 0 Hne ltac:(unfold N; lia) ltac:(unfold N; lia) ltac:(unfold N; lia)).
      rewrite H0 in Hsame. by inversion Hsame.
    + specialize (Hsame q ltac:(lia) ltac:(lia) ltac:(lia) ltac:(lia)). rewrite (Hfresh q) in Hsame by (fold N; lia). by inversion Hsame.
  - intros q Hq Hqn. apply Hsame; fold N in Hqn; lia || done.
Qed.
End new_pair.

(** ** [split_downwards] *)
(** The model that spreads the keys of the buckets [start] to [start + 2 ^ dup]
    over two children. *)
Definition down_model (start dup : Z) (pm : LinearModel) : LinearModel :=
  let left_boundary_value := bucket_boundary start pm in
  let right_boundary_value := bucket_boundary (start + 2 ^ dup) pm in
  let a := d_mul (d_div (d_of_Z 1) (d_sub right_boundary_value left_boundary_value)) (d_of_Z 2) in
  mkModel a (d_mul (SFopp a) left_boundary_value).
Definition down_node (start dup level : Z) (pm : LinearModel) : ModelNode :=
  mkModelNode (down_model start dup pm) 2 [None; None] level dup.

(** The pointers to a leaf lie in its parent. *)
Lemma leaf_room d (h : heap_t) top p ls m b old (l : Leaf) :
  covers d h top p ls → h !! p = Some (ModelN m) → 0 ≤ b < num_children_ m → child b m = Ret old → h !! old = Some (DataNode l) →
  let dup := leaf_duplication_factor_ l in let start := start_of b (2 ^ dup) in
  0 ≤ dup ∧ 0 ≤ start ∧ start + 2 ^ dup ≤ Z.of_nat (length (children_ m)).
Proof.
  intros Hc Ep Hb Hch El dup start. destruct d as [|d]; [done|]. cbn [covers] in Hc. rewrite Ep in Hc.
  destruct Hc as (_ & rs & _ & Ec & Hn & _ & Hal & Hf). destruct (leaf_run _ _ _ _ _ _ _ _ Ec Hn Hal Hf El Hb Hch) as (rs1 & rs2 & -> & Es & _).
  fold dup in Es. fold start in Es. apply Forall_app in Hf as [_ [(_ & Hd & _) _]%Forall_cons]. cbn in Hd. fold dup in Hd.
  split; [done|]. assert (0 ≤ width rs1) by (unfold width; lia). split; [lia|]. rewrite Ec. change (start + 2 ^ dup ≤ width (rs1 ++ mkRun old dup [old] :: rs2)).
  rewrite width_app, width_cons by done. unfold repeats. cbn [run_dup]. assert (0 ≤ width rs2) by (unfold width; lia). lia.
Qed.

Section downwards.
Context (junk : Z → Z) (log2 : double → double) (max_data_node_slots : Z).
Implicit Types (s : Alex) (p q k key top : Z) (ls : list Z) (m : ModelNode).

(** What both forms of the function do before they set the pointer of the
    parent. *)
Lemma split_downwards_eq nodes s parent b m old l reuse_model s2 s3 :
  heap s !! parent = Some (ModelN m) → child b m = Ret old → heap s !! old = Some (DataNode l) →
  let dup := leaf_duplication_factor_ l in let start := start_of b (2 ^ dup) in let N := next_addr s in
  create_children junk log2 max_data_node_slots nodes old N 1 reuse_model 0
    (alloc_node (ModelN (down_node start dup (leaf_level_ l) (mn_model m))) s).2 = Ret s2 →
  delete_node old s2 = Ret s3 →
  split_downwards junk log2 max_data_node_slots parent b 1 nodes reuse_model s =
    (let* s := set_children start (start + 2 ^ dup) N parent (add_nodes 1 (-1) s3) in
     let* s := if bool_decide (parent = superroot_ s) then update_superroot_pointer (with_root N s) else Ret s in
     Ret (N, s)).
Proof.
  intros Ep Hch El dup start N E2 E3. unfold split_downwards.
  rewrite (get_model_node _ _ _ Ep), res_bind_ret, Hch, res_bind_ret, (get_data_leaf _ _ _ El), res_bind_ret. fold dup.
  rewrite !Z.shiftl_1_l. fold start. unfold alloc_node in E2 |- *. cbn [snd] in E2. fold N.
  change (replicate (Z.to_nat (2 ^ 1)) None) with [@None Z; None]. change (2 ^ 1) with 2.
  fold (down_model start dup (mn_model m)). fold (down_node start dup (leaf_level_ l) (mn_model m)). fold N in E2.
  destruct nodes as [|t nodes]; unfold create_children in E2; change (Z.max 0 (1 - 1)) with 0 in E2; by rewrite E2, res_bind_ret, E3, res_bind_ret.
Qed.

Lemma split_downwards_spec nodes top s ls parent b m old l reuse_model :
  tree_ok top s ls → heap_ok s → below (size (heap s)) (heap s) (root_node_ s) parent → parent ≠ superroot_ s →
  heap s !! parent = Some (ModelN m) → 0 ≤ b < num_children_ m → child b m = Ret old → heap s !! old = Some (DataNode l) →
  let dup := leaf_duplication_factor_ l in let start := start_of b (2 ^ dup) in
  let nd := down_node start dup (leaf_level_ l) (mn_model m) in
  splittable top nodes nd l 0 1 →
  let N := next_addr s in let L := N + 1 in let R := N + 2 in
  ∃ s' l1 l2, ls = l1 ++ old :: l2 ∧
    split_downwards junk log2 max_data_node_slots parent b 1 nodes reuse_model s = Ret (N, s') ∧
    tree_ok top s' (l1 ++ L :: R :: l2) ∧ (born s' L ∧ born s' R) ∧ grown s s' parent [N] ∧ root_node_ s' = root_node_ s ∧ stats_ s' = stats_ (add_nodes 1 1 s) ∧
    heap s' !! parent = Some (ModelN (with_children (overwrite start (start + 2 ^ dup) N (children_ m)) m)) ∧
    pairs (heap s') (l1 ++ L :: R :: l2) = pairs (heap s) ls ∧ heap s' !! N = Some (ModelN (halved L R 0 1 nd)) ∧
    (∀ key, 0 ≤ key ≤ top → ∃ q, route key s = Ret q ∧ route key s' = Ret (moved old L R 0 1 nd key q)).
Proof.
  intros Hok Hh Hbl Hsup Ep Hb Hch El dup start nd Hsp N L R.
  destruct (below_covers _ _ _ _ _ _ (tree_covers _ _ _ Hok) Hbl) as (lq & Hq & Hsub).
  assert (old ∈ ls) as (l1 & l2 & ->)%list_elem_of_split by by apply Hsub, (child_covered _ _ _ _ _ m b old l Hq).
  destruct (new_pair_spec junk log2 max_data_node_slots nodes top s l1 old l2 l nd reuse_model Hh (tree_chain _ _ _ Hok) (tree_nodup _ _ _ Hok) El eq_refl Hsp)
    as (s2 & h & lL & lR & E2 & E3 & Hc' & Hnp). pose proof Hnp as [EN (EL & DL) (ER & DR) _ Hpart (Hna & Hz & Hfresh) Hsame].
  fold N in Hc', EN, EL, ER, Hsame. fold L in Hc', EN, EL. fold R in Hc', EN, ER.
  pose proof (heap_ok_lt _ _ _ Hh El) as Holt. pose proof (heap_ok_lt _ _ _ Hh Ep) as Hplt. fold N in Holt, Hplt.
  assert (parent ≠ old) as Hpo by (intros ->; congruence).
  assert (h !! parent = Some (ModelN m)) as Ep'.
  { specialize (Hsame parent Hpo Hplt). rewrite Ep in Hsame. inversion Hsame as [x y Hxy E1 Ey|]. destruct y; [done|]. by cbn in Hxy; subst. }
  destruct (leaf_room _ _ _ _ _ _ _ _ _ Hq Ep Hb Hch El) as (Hd0 & Hst & Hroom). fold dup in Hd0, Hst, Hroom. fold start in Hst, Hroom.
  set (mg' := with_children (overwrite start (start + 2 ^ dup) N (children_ m)) m).
  set (s' := set_model parent mg' (add_nodes 1 (-1) (paired s h))).
  assert (heap s' !! parent = Some (ModelN mg') ∧ ∀ q, q ≠ parent → heap s' !! q = h !! q) as [Epar Hins]
    by (split; [apply lookup_insert_eq|intros q Hqp; apply lookup_insert_ne; done]).
  assert (heap s' !! L = Some (DataNode lL) ∧ heap s' !! R = Some (DataNode lR) ∧ heap s' !! N = Some (ModelN (halved L R 0 1 nd)))
    as (EL' & ER' & EN') by (rewrite !Hins; unfold L, R; lia || done).
  exists s', l1, l2. split; [done|]. split.
  { rewrite (split_downwards_eq nodes s parent b m old l reuse_model s2 (paired s h)) by done. fold dup start N.
    rewrite (set_children_spec _ _ _ _ m) by (done || lia). rewrite res_bind_ret. fold mg' s'.
    rewrite bool_decide_eq_false_2 by done. by rewrite res_bind_ret. }
  assert (down_heap s s' top parent old N L R start dup m nd) as Hdh.
  { constructor; [done|done|done|by exists l|split; [by apply (splittable_childless nodes top nd l)|done]|done|by exists lL|by exists lR| |].
    - pose proof Hh as (_ & _ & Hf). unfold L, R. repeat split; [apply Hf..|]; fold N; lia.
    - intros q Hqo Hqp Hqn HqL HqR. rewrite Hins by done. destruct (Z.lt_ge_cases q N) as [?|Hge]; [by apply Hsame|].
      assert (h !! q = None) as -> by (apply Hfresh; cbn; fold N; lia). pose proof Hh as (_ & _ & Hf). rewrite (Hf q) by done. constructor. }
  assert (chain (heap s') 0 (l1 ++ L :: R :: l2)) as Hc.
  { apply (leaf_chain_frame h); [|done]. intros q lq' Hq' Eq'. exists lq'. rewrite Hins; [done|]. intros ->. congruence. }
  destruct (down_heap_ok s s' top parent old N L R start dup m nd Hdh ltac:(pose proof (sp_top _ _ _ _ _ _ Hsp); done) l1 l2 b lL lR l)
    as (Hok' & Hpairs & Hroute); try done.
  split; [done|]. split; [destruct Hpart as [[]]; split; by eexists|]. split; [|split; [done|split; [unfold s', add_nodes, with_stats; cbn; f_equal; lia|done]]].
  pose proof Hh as (_ & H0 & Hf). constructor; [split; [done|split]|done|].
  - by rewrite Hins by (intros <-; congruence).
  - intros q Hq'. rewrite Hins; [by apply Hfresh|]. change (N + 3 ≤ q) in Hq'. lia.
  - intros q mq Hqp Hqn. assert (q ≠ N) as HqN by set_solver. destruct (decide (q = old)) as [->|Hqo].
    { apply no_model; [right; by exists l|left; rewrite Hins by done; by apply (np_gone _ _ _ _ _ _ _ Hnp)]. }
    destruct (decide (q = L)) as [->|HqL]; [apply no_model; [left; apply Hf; unfold L, N; lia|right; by exists lL]|].
    destruct (decide (q = R)) as [->|HqR]; [apply no_model; [left; apply Hf; unfold R, N; lia|right; by exists lR]|].
    apply same_links_model. by apply (dh_same _ _ _ _ _ _ _ _ _ _ _ _ Hdh).
Qed.
End downwards.
