(* ===== verification/AlexGrow.v ===== *)
(** * ALEX: more room in a model node

    [expand] repeats every pointer of a model node and scales its model, so that
    the node covers the same leaves and leads every key to the same one. *)
From S2P Require Import Prelude Ieee AlexBase AlexNode AlexOps AlexInv AlexBuild AlexCost AlexFanout AlexTree AlexTreeOps AlexRoute AlexTreeInv AlexTreeOk AlexTreeLookup AlexLink AlexSubtree AlexReplace AlexSplit AlexMergeLoop AlexScale.

(** ** Runs repeated *)
Section raise.
Context (k : Z) (Hk : 0 ≤ k).
Implicit Types (r : run) (rs : list run) (h : heap_t) (p q : Z).

Definition raise_run r : run := mkRun (run_child r) (run_dup r + k) (run_leaves r).
Definition raise_node (n : AlexTreeNode) : AlexTreeNode := with_dup (u8 (duplication_factor_ n + k)) n.
Definition raise (ps : list Z) (h : heap_t) : heap_t := foldl (λ h p, alter raise_node p h) h ps.

Lemma raise_lookup ps : ∀ h q, NoDup ps → raise ps h !! q = if bool_decide (q ∈ ps) then raise_node <$> h !! q else h !! q.
Proof.
  induction ps as [|p ps IH]; intros h q Hnd; [done|]. apply NoDup_cons in Hnd as [Hp Hnd]. cbn [raise foldl]. fold (raise ps (alter raise_node p h)).
  rewrite IH by done. destruct (decide (q = p)) as [->|Hne].
  - rewrite bool_decide_eq_false_2, bool_decide_eq_true_2 by set_solver. apply lookup_alter_eq.
  - rewrite lookup_alter_ne by done. by rewrite (bool_decide_ext (q ∈ p :: ps) (q ∈ ps)) by set_solver.
Qed.

Lemma raise_repeats r : 0 ≤ run_dup r → repeats (raise_run r) = repeats r * 2 ^ k.
Proof. intros. unfold repeats. cbn. by rewrite Z.pow_add_r. Qed.
Lemma raise_width rs : Forall (λ r, 0 ≤ run_dup r) rs → width (raise_run <$> rs) = width rs * 2 ^ k.
Proof.
  induction 1 as [|r rs Hr Hd IH]; [done|]. rewrite fmap_cons, !width_cons, IH, raise_repeats by (cbn; lia || done). lia.
Qed.
Lemma raise_aligned rs : Forall (λ r, 0 ≤ run_dup r) rs → ∀ off, aligned off rs → aligned (off * 2 ^ k) (raise_run <$> rs).
Proof.
  induction 1 as [|r rs Hr Hd IH]; intros off; [done|]. rewrite fmap_cons. cbn [aligned]. rewrite raise_repeats by done. intros [Ha Hrs]. split.
  - assert (0 < 2 ^ k) by lia. rewrite Z.mul_mod_distr_r by (unfold repeats in *; lia). by rewrite Ha.
  - rewrite <- Z.mul_add_distr_r. by apply IH.
Qed.
Lemma raise_leaves rs : (raise_run <$> rs) ≫= run_leaves = rs ≫= run_leaves.
Proof. induction rs as [|r rs IH]; [done|]. by rewrite fmap_cons, !bind_cons, IH. Qed.
End raise.

(** ** The loop *)
Section loop.
Implicit Types (s : Alex) (p q : Z) (m : ModelNode) (c : list (option Z)) (rs : list run).

Lemma fill_children a b p c :
  0 ≤ a → a ≤ b → b ≤ Z.of_nat (length c) → for_up a b (λ i c, wr c i (Some p)) c = Ret (overwrite a b p c).
Proof.
  intros Ha Hab Hb. destruct (for_up_ind (λ i c', c' = overwrite a i p c) (λ i c, wr c i (Some p)) a b c Hab) as (c' & -> & ->); [| |done].
  - unfold overwrite. rewrite Z.sub_diag. change (replicate _ _) with (@nil (option Z)). cbn [app]. by rewrite take_drop.
  - intros i c' Hi ->. rewrite wr_in by (rewrite overwrite_length; lia). rewrite overwrite_step by lia. by eexists.
Qed.

Lemma overwrite_tail X p a b n :
  a = Z.of_nat (length X) → a ≤ b → (Z.to_nat (b - a) ≤ n)%nat →
  overwrite a b p (X ++ replicate n None) = (X ++ replicate (Z.to_nat (b - a)) (Some p)) ++ replicate (n - Z.to_nat (b - a)) None.
Proof.
  intros -> Hab Hn. unfold overwrite. rewrite Nat2Z.id, take_app_length, <- app_assoc. do 2 f_equal.
  replace (Z.to_nat b) with (length X + Z.to_nat (b - Z.of_nat (length X)))%nat by lia. by rewrite drop_app_add, drop_replicate.
Qed.

(** A child and its run. *)
Definition known (h : heap_t) (r : run) : Prop := 0 ≤ run_dup r ∧ ∃ n, h !! run_child r = Some n ∧ duplication_factor_ n = run_dup r.

Lemma expand_loop_spec k m rs2 : 0 ≤ k → ∀ rs1 fuel s,
  children_ m = (rs1 ++ rs2) ≫= slots_of → num_children_ m = width (rs1 ++ rs2) → Forall (λ r, 0 ≤ run_dup r) rs1 →
  Forall (known (heap s)) rs2 → NoDup (run_child <$> rs2) → (length rs2 < fuel)%nat →
  expand_loop fuel (2 ^ k) k (width rs1) m
    (((raise_run k <$> rs1) ≫= slots_of) ++ replicate (Z.to_nat (width rs2 * 2 ^ k)) None) s =
    Ret ((raise_run k <$> (rs1 ++ rs2)) ≫= slots_of, with_heap (raise k (run_child <$> rs2) (heap s)) s).
Proof.
  intros Hk. induction rs2 as [|r rs2 IH]; intros rs1 [|fuel] s Ec Hn Hd1 Hkn Hnd Hf; [cbn in Hf; lia| |cbn in Hf; lia|]; cbn [expand_loop].
  - rewrite app_nil_r in *. rewrite bool_decide_eq_false_2 by lia. rewrite app_nil_r. by destruct s.
  - apply Forall_cons in Hkn as [(Hd & n & En & Edup) Hkn]. rewrite fmap_cons in Hnd. apply NoDup_cons in Hnd as [Hnin Hnd].
    assert (0 < repeats r) as Hr by (unfold repeats; lia). assert (0 < 2 ^ k) as Hp by lia.
    assert (0 ≤ width rs1 ∧ 0 ≤ width rs2) as [Hw1 Hw2] by (unfold width; lia).
    rewrite bool_decide_eq_true_2 by (rewrite Hn, width_app, width_cons by done; lia).
    rewrite (child_at m _ rs1 r rs2 _ Ec eq_refl Hd), res_bind_ret by lia.
    unfold get_node at 1. rewrite En. cbn [of_option]. rewrite res_bind_ret, Edup, Z.shiftl_1_l. fold (repeats r).
    rewrite (width_cons r rs2) by done.
    assert (Z.of_nat (length ((raise_run k <$> rs1) ≫= slots_of)) = width rs1 * 2 ^ k) as El by (apply (raise_width k Hk); done).
    rewrite fill_children, res_bind_ret by (rewrite ?length_app, ?length_replicate; nia).
    rewrite overwrite_tail by (rewrite ?El; nia).
    replace (2 ^ k * (width rs1 + repeats r) - 2 ^ k * width rs1) with (repeats r * 2 ^ k) by lia.
    replace (Z.to_nat ((repeats r + width rs2) * 2 ^ k) - Z.to_nat (repeats r * 2 ^ k))%nat with (Z.to_nat (width rs2 * 2 ^ k)) by nia.
    set (s1 := set_node (run_child r) _ s).
    assert (heap s1 = alter (raise_node k) (run_child r) (heap s)) as Es1.
    { apply map_eq. intros q. unfold s1. cbn. destruct (decide (q = run_child r)) as [->|Hne].
      - rewrite lookup_insert_eq, lookup_alter_eq, En. cbn. unfold raise_node. by rewrite Edup.
      - by rewrite lookup_insert_ne, lookup_alter_ne. }
    specialize (IH (rs1 ++ [r]) fuel s1). rewrite <- app_assoc in IH. cbn [app] in IH.
    rewrite (width_app rs1 [r]), (width_cons r []), width_nil, Z.add_0_r in IH by done.
    assert ((raise_run k <$> rs1 ++ [r]) ≫= slots_of =
      ((raise_run k <$> rs1) ≫= slots_of) ++ replicate (Z.to_nat (repeats r * 2 ^ k)) (Some (run_child r))) as Esl.
    { rewrite fmap_app, bind_app. f_equal. cbn. rewrite app_nil_r. unfold slots_of. by rewrite (raise_repeats k Hk). }
    rewrite Esl in IH. rewrite IH; [|done|done| | |done|cbn in Hf; lia].
    + rewrite Es1. done.
    + apply Forall_app. split; [done|]. by apply Forall_singleton.
    + rewrite Es1. apply list.Forall_forall. intros r' Hr'. rewrite list.Forall_forall in Hkn. destruct (Hkn r' Hr') as (Hd' & n' & En' & Hn').
      split; [done|]. exists n'. split; [|done]. rewrite lookup_alter_ne; [done|]. intros E. apply Hnin. rewrite E. by apply list_elem_of_fmap_2.
Qed.
End loop.

(** ** The tree *)
Section grow.
Context (s : Alex) (top P k : Z) (m : ModelNode) (rs : list run) (d : nat).
Context (Hk : 0 ≤ k < 64) (Ep : heap s !! P = Some (ModelN m)).
Implicit Types (q c key : Z) (r : run) (n : AlexTreeNode).

(** The node, and the heap with the duplication factors of its children. *)
Definition expanded : ModelNode :=
  mkModelNode (expand (d_of_Z (2 ^ k)) (mn_model m)) (num_children_ m * 2 ^ k) ((raise_run k <$> rs) ≫= slots_of)
    (mn_level_ m) (mn_duplication_factor_ m).
Definition grown_state : Alex := set_model P expanded (with_heap (raise k (run_child <$> rs) (heap s)) s).

(** What is known of the node, and what the new one must keep. *)
Record may_grow : Prop := {
  mg_runs : rs ≠ [] ∧ children_ m = rs ≫= slots_of ∧ num_children_ m = width rs;
  mg_aligned : aligned 0 rs;
  mg_children : Forall (run_ok d (heap s) top) rs;
  mg_leaves : NoDup (rs ≫= run_leaves);
  mg_bound : num_children_ m * 2 ^ k ≤ 2 ^ 30;
  mg_model : model_ok top m ∧ normal_slope (mn_model m);
  mg_model' : model_ok top expanded;
  mg_top : top < 2 ^ 64
}.
Context (Hmg : may_grow).

Lemma runs_dup : Forall (λ r, 0 ≤ run_dup r) rs.
Proof. eapply Forall_impl; [apply Hmg|]. by intros r (_ & ? & _). Qed.

(** Two runs share no leaf. *)
Lemma runs_apart r r' x : r ∈ rs → r' ∈ rs → x ∈ run_leaves r → x ∈ run_leaves r' → r = r'.
Proof.
  intros (a & b & E)%list_elem_of_split Hr' Hx Hx'. pose proof (mg_leaves Hmg) as Hnd. rewrite E in Hr', Hnd.
  assert (r' = r ∨ r' ∈ a ++ b) as [->|Hin] by (rewrite elem_of_app, elem_of_cons in Hr'; rewrite elem_of_app; tauto); [done|].
  exfalso. rewrite bind_app, bind_cons in Hnd. apply NoDup_app in Hnd as (_ & Hd & (_ & H2 & _)%NoDup_app).
  apply elem_of_app in Hin as [Hin|Hin].
  - apply (Hd x); [apply list_elem_of_bind; by exists r'|apply elem_of_app; by left].
  - apply (H2 x); [done|]. apply list_elem_of_bind. by exists r'.
Qed.
Lemma run_leaf r : r ∈ rs → ∃ x, x ∈ run_leaves r.
Proof.
  intros Hr. pose proof (mg_children Hmg) as Hf. rewrite list.Forall_forall in Hf. destruct (Hf r Hr) as (Hc & _).
  apply covers_ne in Hc. destruct (run_leaves r) as [|x l]; [done|]. exists x. left.
Qed.
Lemma children_nodup : NoDup (run_child <$> rs).
Proof. eapply runs_nodup; apply Hmg. Qed.

Lemma run_child_iff c : c ∈ run_child <$> rs ↔ Some c ∈ children_ m.
Proof.
  destruct Hmg as [(_ & -> & _) _ _ _ _ _ _ _]. split.
  - intros (r & -> & Hr)%list_elem_of_fmap. apply run_child_in; [|done]. pose proof runs_dup as Hd. rewrite list.Forall_forall in Hd. by apply Hd.
  - intros (r & Hr & <-)%run_of_child. by apply list_elem_of_fmap_2.
Qed.
Lemma parent_covered : covers (S d) (heap s) top P (rs ≫= run_leaves).
Proof.
  cbn [covers]. rewrite Ep. destruct Hmg as [(? & ? & ?) ? Hf ? _ [? _] _ _]. split; [done|]. by exists rs.
Qed.
Lemma child_not_above c d' : c ∈ run_child <$> rs → ¬ below d' (heap s) c P.
Proof. intros Hc Hb. rewrite run_child_iff in Hc. exact (covers_acyclic _ _ _ _ _ _ _ _ parent_covered Ep Hc Hb). Qed.

Lemma grown_at q : q ≠ P → heap grown_state !! q = if bool_decide (q ∈ run_child <$> rs) then raise_node k <$> heap s !! q else heap s !! q.
Proof. intros Hq. unfold grown_state. cbn. rewrite lookup_insert_ne by done. rewrite raise_lookup by (lia || apply children_nodup). done. Qed.
Lemma grown_parent : heap grown_state !! P = Some (ModelN expanded).
Proof. apply lookup_insert_eq. Qed.

Lemma expand_model_spec : expand_model k P s = Ret (2 ^ k, grown_state).
Proof.
  destruct Hmg as [(Hne & Ec & Hn) _ Hf _ _ _ _ _]. pose proof runs_dup as Hd. unfold expand_model.
  rewrite (get_model_node _ _ _ Ep), res_bind_ret, !Z.shiftl_1_l.
  assert (Forall (known (heap s)) rs) as Hkn by (eapply Forall_impl; [exact Hf|]; intros r (_ & ? & ?); done).
  assert (length rs ≤ Z.to_nat (width rs))%nat as Hlen.
  { clear - Hd. induction Hd as [|r l Hr Hd IH]; [cbn; lia|]. rewrite width_cons by done. cbn [length]. unfold repeats, width in *. lia. }
  pose proof (expand_loop_spec k m rs ltac:(lia) [] (S (Z.to_nat (num_children_ m))) s Ec Hn ltac:(done) Hkn children_nodup ltac:(lia)) as E.
  cbn [app fmap list_fmap mbind list_bind] in E. rewrite width_nil in E. rewrite Hn in E |- *. rewrite E, res_bind_ret.
  unfold get_model, get_node. cbn [heap with_heap]. rewrite raise_lookup by (lia || apply children_nodup).
  rewrite bool_decide_eq_false_2, Ep; [cbn [of_option]; rewrite !res_bind_ret; unfold grown_state, expanded; by rewrite Hn|].
  intros Hin. apply (child_not_above P 1 Hin). by left.
Qed.

(** ** Below the children nothing changes *)
Lemma kept_below_child r q : r ∈ rs → below d (heap s) (run_child r) q → q ≠ run_child r → heap grown_state !! q = heap s !! q.
Proof.
  intros Hr Hb Hne. assert (run_child r ∈ run_child <$> rs) as Hin by by apply list_elem_of_fmap_2.
  rewrite grown_at by (intros ->; by apply (child_not_above _ _ Hin Hb)).
  rewrite bool_decide_eq_false_2; [done|]. intros (r' & -> & Hr')%list_elem_of_fmap.
  pose proof (mg_children Hmg) as Hf. rewrite list.Forall_forall in Hf. destruct (Hf r Hr) as (Hc & _), (Hf r' Hr') as (Hc' & _).
  destruct (run_leaf r' Hr') as (x & Hx). apply Hne. f_equal. symmetry. apply (runs_apart r r' x); [done|done| |done].
  by apply (below_in d d (heap s) top (run_child r) _ (run_child r') (run_leaves r')).
Qed.
Lemma child_grown r : r ∈ rs → heap grown_state !! run_child r = raise_node k <$> heap s !! run_child r.
Proof.
  intros Hr. assert (run_child r ∈ run_child <$> rs) as Hin by by apply list_elem_of_fmap_2.
  rewrite grown_at; [by rewrite bool_decide_eq_true_2|]. intros E. apply (child_not_above _ 1 Hin). by left.
Qed.

(** The same children, whatever the factor. *)
Lemma grandchild_agrees r mc c d' : r ∈ rs → heap s !! run_child r = Some (ModelN mc) → Some c ∈ children_ mc → d = S d' →
  agree d' (heap s) (heap grown_state) c.
Proof.
  intros Hr Er Hc Ed q Hq. assert (heap grown_state !! q = heap s !! q) as ->; [|by destruct (heap s !! q) as [[]|]; constructor].
  apply (kept_below_child r); [done| |].
  - rewrite Ed. right. rewrite Er. by exists c.
  - intros ->. pose proof (mg_children Hmg) as Hf. rewrite list.Forall_forall in Hf. destruct (Hf r Hr) as (Hcov & _).
    exact (covers_acyclic _ _ _ _ _ _ _ _ Hcov Er Hc Hq).
Qed.

Lemma child_covers r : r ∈ rs → covers d (heap grown_state) top (run_child r) (run_leaves r).
Proof.
  intros Hr. pose proof (mg_children Hmg) as Hf. rewrite list.Forall_forall in Hf. destruct (Hf r Hr) as (Hc & _).
  pose proof (grandchild_agrees r) as Hag. destruct d as [|d']; [done|]. cbn [covers] in Hc |- *. rewrite child_grown by done.
  destruct (heap s !! run_child r) as [[l|mc]|] eqn:Er; [done| |done]. cbn [fmap option_fmap option_map raise_node with_dup].
  destruct Hc as (Hm & qs & Hne & Ec & Hn & El & Hal & Hfc). split; [done|]. exists qs. do 5 (split; [done|]).
  apply list.Forall_forall. intros r' Hr'. rewrite list.Forall_forall in Hfc. destruct (Hfc r' Hr') as (Hc' & Hd' & n & En & Hdn).
  assert (Some (run_child r') ∈ children_ mc) as Hin by (rewrite Ec; by apply run_child_in).
  pose proof (Hag mc (run_child r') d' Hr eq_refl Hin eq_refl) as Ha. split; [by eapply covers_frame|]. split; [done|].
  assert (below d' (heap s) (run_child r') (run_child r')) as Hb by (destruct d'; [done|by left]).
  specialize (Ha _ Hb). rewrite En in Ha. destruct (heap grown_state !! run_child r') as [n'|] eqn:En'; inversion Ha as [? ? Hnn|]; subst.
  exists n'. split; [done|]. rewrite <- Hdn. by apply same_links_dup.
Qed.

Lemma child_reach r fuel key : r ∈ rs → (d ≤ fuel)%nat → reach fuel key (run_child r) grown_state = reach fuel key (run_child r) s.
Proof.
  intros Hr Hf. pose proof (mg_children Hmg) as Hfc. rewrite list.Forall_forall in Hfc. destruct (Hfc r Hr) as (Hc & _).
  pose proof (grandchild_agrees r) as Hag. destruct d as [|d']; [done|]. destruct fuel as [|fuel]; [lia|]. pose proof (child_grown r Hr) as Eg.
  cbn [covers] in Hc. destruct (heap s !! run_child r) as [[l|mc]|] eqn:Er; [| |done]; cbn [fmap option_fmap option_map raise_node with_dup] in Eg.
  - by rewrite (reach_data _ _ _ _ _ Eg), (reach_data _ _ _ _ _ Er).
  - destruct Hc as (Hm & qs & Hne & Ec & Hn & _ & _ & Hfq).
    assert (Forall (λ r, 0 ≤ run_dup r) qs) as Hdq by (eapply Forall_impl; [exact Hfq|]; naive_solver).
    destruct (key_run top mc qs key Hm Hne Hn Hdq) as (qa & r' & qb & E' & Hb). assert (r' ∈ qs) as Hr' by (rewrite E'; set_solver).
    rewrite list.Forall_forall in Hfq. destruct (Hfq r' Hr') as (Hc' & Hd' & _). pose proof (child_at mc qs qa r' qb _ Ec E' Hd' Hb) as Hch.
    rewrite (reach_model _ _ _ _ _ _ Er Hch). rewrite (reach_model fuel key (run_child r) grown_state _ (run_child r') Eg); [|exact Hch].
    apply (reach_frame d' s grown_state top key _ _ fuel Hc'); [|lia]. apply (Hag mc (run_child r') d'); [done|done| |done].
    rewrite Ec. by apply run_child_in.
Qed.

(** ** The node itself *)
Lemma grown_local : local_change s grown_state top P (rs ≫= run_leaves) (λ _ q, q).
Proof.
  assert (∀ q, q ≠ P → q ∉ run_child <$> rs → option_Forall2 same_but_links (heap s !! q) (heap grown_state !! q)) as Hsame.
  { intros q Hq Hn. rewrite grown_at, bool_decide_eq_false_2 by done. destruct (heap s !! q) as [[]|]; by constructor. }
  pose proof (mg_children Hmg) as Hf. rewrite list.Forall_forall in Hf. constructor.
  - exact (covers_ne _ _ _ _ _ parent_covered).
  - apply Hmg.
  - intros d0 p ls q Hc Hout Hb Hq. apply Hsame; [done|]. intros (r & -> & Hr)%list_elem_of_fmap. destruct (run_leaf r Hr) as (x & Hx).
    apply (Hout x); [apply list_elem_of_bind; by exists r|]. destruct (Hf r Hr) as (Hcr & _). by apply (below_in d0 d (heap s) top p ls (run_child r) (run_leaves r)).
  - intros d0 p ls Hc Hb Hp. apply Hsame; [done|]. intros Hin. exact (child_not_above p d0 Hin Hb).
  - intros n En. exists (ModelN expanded). split; [apply grown_parent|]. by assert (n = ModelN m) as -> by congruence.
  - done.
Qed.

(** No duplication factor overflows its byte. *)
Lemma run_bound r : r ∈ rs → run_dup r + k < 256.
Proof.
  intros Hr. pose proof runs_dup as Hd. pose proof Hmg as [(_ & _ & Hn) _ _ _ Hb _ _ _].
  apply list_elem_of_split in Hr as (a & b & E). rewrite E in Hd, Hn. apply Forall_app in Hd as [Hda [Hdr Hdb]%Forall_cons].
  rewrite width_app, width_cons in Hn by done. assert (0 ≤ width a ∧ 0 ≤ width b) as [? ?] by (unfold width; lia).
  assert (2 ^ (run_dup r + k) ≤ 2 ^ 30) as Hp.
  { rewrite Z.pow_add_r by lia. unfold repeats in Hn. assert (0 < 2 ^ k) by lia. etrans; [|exact Hb]. apply Z.mul_le_mono_nonneg_r; lia. }
  apply Z.pow_le_mono_r_iff in Hp; lia.
Qed.

Lemma grown_covers : covers (S d) (heap grown_state) top P (rs ≫= run_leaves).
Proof.
  cbn [covers]. rewrite grown_parent. pose proof Hmg as [(Hne & _ & Hn) Hal Hf _ _ _ Hm' _]. split; [done|]. exists (raise_run k <$> rs).
  split; [by destruct rs|]. split; [done|]. split; [cbn; by rewrite raise_width, Hn by (lia || apply runs_dup)|].
  split; [by rewrite raise_leaves|]. split; [apply (raise_aligned k ltac:(lia) rs runs_dup 0 Hal)|].
  apply list.Forall_forall. intros r' (r & -> & Hr)%list_elem_of_fmap. cbn [raise_run run_child run_dup run_leaves].
  rewrite list.Forall_forall in Hf. destruct (Hf r Hr) as (_ & Hd & n & En & Hdn). split; [by apply child_covers|]. split; [lia|].
  exists (raise_node k n). split; [by rewrite child_grown, En|]. pose proof (run_bound r Hr). unfold raise_node.
  assert (u8 (duplication_factor_ n + k) = run_dup r + k) as -> by (rewrite Hdn; apply Z.mod_small; lia). by destruct n.
Qed.

Lemma grown_bucket key : 0 ≤ key ≤ top → bucket_of key expanded / 2 ^ k = bucket_of key m.
Proof.
  intros Hkey. pose proof Hmg as [(Hne & Ec & Hn) _ Hfr _ _ [[Hmm Hmf] Hsl] [Hmm' Hmf'] Ht]. pose proof runs_dup as Hd.
  assert (0 < num_children_ m) as Hpos.
  { rewrite Hn. destruct rs as [|r rs']; [done|]. apply Forall_cons in Hd as [? _]. rewrite width_cons by done. unfold repeats, width. lia. }
  assert (∀ mm, monotone mm → fits_int (predict_double top mm) → fits_int (predict_double key mm)) as Hfit
    by (intros mm Hmo; apply fits_int_le; lia || done).
  apply bucket_expand; try done; [lia|by apply Hfit|by apply Hfit].
Qed.

Lemma grown_moves : moves s grown_state top (λ _ q, q) (S d) P.
Proof.
  intros [|fuel] key Hf Hkey; [lia|]. pose proof Hmg as [(Hne & Ec & Hn) _ Hfr _ _ [Hm Hsl] Hm' Ht]. pose proof runs_dup as Hd.
  destruct (covers_reach (S d) s top P _ (S fuel) key parent_covered Hf Ht Hkey) as (q & E & _). exists q. split; [done|]. rewrite <- E.
  destruct (key_run top m rs key Hm Hne Hn Hd) as (ra & r & rb & Er & Hb). assert (r ∈ rs) as Hr by (rewrite Er; set_solver).
  pose proof Hd as Hd0. rewrite list.Forall_forall in Hd0. pose proof (Hd0 r Hr) as Hdr. pose proof (child_at m rs ra r rb _ Ec Er Hdr Hb) as Hch.
  pose proof (grown_bucket key Hkey) as Hbk.
  assert (child (bucket_of key expanded) expanded = Ret (run_child r)) as Hch'.
  { apply (child_at expanded (raise_run k <$> rs) (raise_run k <$> ra) (raise_run k r) (raise_run k <$> rb)); [done|by rewrite Er, fmap_app, fmap_cons|cbn; lia|].
    rewrite Er in Hd. apply Forall_app in Hd as [Hda _]. rewrite raise_width, raise_repeats by (lia || done). rewrite <- Hbk in Hb.
    assert (0 < 2 ^ k) by lia. pose proof (Z.div_mod (bucket_of key expanded) (2 ^ k) ltac:(lia)) as Edm.
    pose proof (Z.mod_pos_bound (bucket_of key expanded) (2 ^ k) ltac:(lia)). set (f := 2 ^ k) in *. set (B := bucket_of key expanded) in *.
    set (Q := B / f) in *. clearbody f B Q. nia. }
  rewrite (reach_model _ _ _ _ _ _ Ep Hch), (reach_model _ _ _ _ _ _ grown_parent Hch'). apply child_reach; [done|lia].
Qed.
End grow.

(** ** The whole tree *)
Section whole.
Implicit Types (s : Alex) (top P k q key : Z) (m : ModelNode) (ls : list Z).

(** A model node that may get [2 ^ k] times as many pointers. *)
Record growable (top k : Z) (m : ModelNode) : Prop := {
  gw_factor : 0 ≤ k < 64;
  gw_bound : num_children_ m * 2 ^ k ≤ 2 ^ 30;
  gw_slope : normal_slope (mn_model m);
  gw_model : let lm := expand (d_of_Z (2 ^ k)) (mn_model m) in monotone lm ∧ fits_int (predict_double top lm)
}.

Lemma may_grow_any d0 d s top P k m rs : heap s !! P = Some (ModelN m) →
  may_grow s top k m rs d0 → covers (S d) (heap s) top P (rs ≫= run_leaves) → may_grow s top k m rs d.
Proof.
  intros Ep Hmg Hc. pose proof Hmg as [(Hne & Ec & Hn) Hal Hf Hnd Hb Hm Hm' Ht]. constructor; try done.
  apply list.Forall_forall. intros r Hr. rewrite list.Forall_forall in Hf. destruct (Hf r Hr) as (Hcr & Hd & Hk).
  assert (Some (run_child r) ∈ children_ m) as Hin by (rewrite Ec; by apply run_child_in).
  destruct (covers_child d (heap s) top P m (run_child r) _ Hc Ep Hin) as (lc & Hlc). split; [|done].
  by rewrite <- (covers_fun _ _ _ _ _ _ _ Hlc Hcr).
Qed.

Lemma expand_tree top s ls P k m :
  tree_ok top s ls → below (size (heap s)) (heap s) (root_node_ s) P → heap s !! P = Some (ModelN m) → growable top k m →
  ∃ d rs, may_grow s top k m rs d ∧ 0 ≤ k < 64 ∧ expand_model k P s = Ret (2 ^ k, grown_state s P k m rs) ∧
    tree_ok top (grown_state s P k m rs) ls ∧ pairs (heap (grown_state s P k m rs)) ls = pairs (heap s) ls ∧
    (∀ key, 0 ≤ key ≤ top → ∃ q, route key s = Ret q ∧ route key (grown_state s P k m rs) = Ret q).
Proof.
  intros Hok Hbl Ep [Hk Hb Hsl [Hm1 Hm2]]. pose proof Hok as [Hc Hnd Hch Hwf Hrt Htop]. change kEndSentinel_ with (2 ^ 64 - 1) in Htop.
  destruct (below_segment _ _ _ _ _ _ Hc Hbl) as (lp & x & y & Hlp & Els). destruct (size (heap s)) as [|d] eqn:Esz; [done|].
  pose proof Hlp as Hlp'. cbn [covers] in Hlp'. rewrite Ep in Hlp'. destruct Hlp' as (Hm & rs & Hne & Ec & Hn & El & Hal & Hf).
  assert (may_grow s top k m rs d) as Hmg.
  { assert (top < 2 ^ 64) by lia. constructor; try done. rewrite Els, El in Hnd. by apply NoDup_app in Hnd as (_ & _ & (? & _)%NoDup_app). }
  exists d, rs. split; [done|]. split; [done|]. split; [by apply (expand_model_spec s top P k m rs d)|].
  set (s' := grown_state s P k m rs). pose proof (grown_local s top P k m rs d Hk Ep Hmg) as Hlc. fold s' in Hlc. rewrite <- El in Hlc.
  assert (∀ d0, covers d0 (heap s) top P lp → covers (0 + d0) (heap s') top P lp ∧ moves s s' top (λ _ q, q) (0 + d0) P) as Hparent.
  { intros [|d0] Hc0; [done|]. rewrite El in Hc0 |- *. pose proof (may_grow_any d d0 s top P k m rs Ep Hmg Hc0) as Hmg0.
    split; [by apply (grown_covers s top P k m rs d0)|by apply (grown_moves s top P k m rs d0)]. }
  assert (∀ q, q ∈ ls → leaf_pairs (heap s') q = leaf_pairs (heap s) q ∧ ∀ l', heap s' !! q = Some (DataNode l') →
    ∃ l, heap s !! q = Some (DataNode l) ∧ data l' = data l) as Hleaf.
  { intros q Hq. destruct (covers_leaf _ _ _ _ _ q Hc Hq) as (l & Eq). assert (q ≠ P) as Hqp by congruence.
    pose proof (grown_at s top P k m rs d Hk Hmg q Hqp) as Eg. fold s' in Eg. rewrite Eq in Eg. unfold leaf_pairs. rewrite Eg, Eq.
    case_bool_decide; (split; [done|]); intros l' [= <-]; by exists l. }
  destruct (covers_replace s s' top P lp (λ _ q, q) Hlc 0 lp lp ltac:(done) Hparent (S d) (root_node_ s) ls Hc Hnd) as (x' & y' & E' & Hc' & Hmv); [done|done|].
  pose proof (local_change_ok s s' top P lp (λ _ q, q) Hlc (S d) x' y' lp) as Hdone. rewrite <- E' in Hdone.
  apply Hdone; [done| |by rewrite E'|lia|exact Hmv]. constructor; [done|by rewrite <- E'| | | | |].
  - rewrite <- E'. apply (leaf_chain_frame (heap s)); [|done]. intros q l Hq Eq. assert (q ≠ P) as Hqp by congruence.
    pose proof (grown_at s top P k m rs d Hk Hmg q Hqp) as Eg. fold s' in Eg. rewrite Eq in Eg.
    case_bool_decide; eexists; (split; [exact Eg|]); done.
  - intros q Hq. assert (q ∈ ls) as Hql by (rewrite E'; set_solver). destruct (covers_leaf _ _ _ _ _ q Hc Hql) as (l & Eq).
    apply (lc_apart _ _ _ _ _ _ Hlc 1 q [q]); [cbn [covers]; by rewrite Eq| |by left|congruence].
    intros z Hz ->%list_elem_of_singleton. rewrite E' in Hnd. apply NoDup_app in Hnd as (_ & H1 & (_ & H2 & _)%NoDup_app).
    apply elem_of_app in Hq as [Hq|Hq]; [apply (H1 q Hq); set_solver|by apply (H2 q)].
  - intros q l' Hq Eq. destruct (Hleaf q) as [_ Hl]; [rewrite E'; set_solver|]. destruct (Hl l' Eq) as (l & El0 & ->). apply (Hwf q); [rewrite E'; set_solver|done].
  - apply pairs_ext. intros q Hq. apply Hleaf. rewrite E'. set_solver.
  - intros q q0 key Hq Hkq Hq0 Hk0. assert (q ∈ ls ∧ q0 ∈ ls) as [Hql Hq0l] by (rewrite E'; set_solver).
    destruct (Hleaf q Hql) as [Elp _]. rewrite Elp in Hkq. destruct (Hrt q key Hql Hkq) as [_ R1]. destruct (Hrt q0 key Hq0l Hk0) as [_ R2]. congruence.
Qed.

(** A leaf below the node, and the pointers to it. *)
Lemma grown_child_at top P k m rs d s b c :
  heap s !! P = Some (ModelN m) → may_grow s top k m rs d → 0 ≤ k < 64 → 0 ≤ b < num_children_ m → child b m = Ret c →
  ∀ i, b * 2 ^ k ≤ i < (b + 1) * 2 ^ k → child i (expanded k m rs) = Ret c.
Proof.
  intros Ep Hmg Hk Hb Hch i Hi. pose proof Hmg as [(Hne & Ec & Hn) _ Hf _ _ _ _ _]. pose proof (runs_dup s top k m rs d Hmg) as Hd.
  rewrite Hn in Hb. destruct (run_at rs b Hd Hb) as (ra & r & rb & E & Hr). assert (r ∈ rs) as Hin by (rewrite E; set_solver).
  rewrite list.Forall_forall in Hf. destruct (Hf r Hin) as (_ & Hdr & _).
  assert (run_child r = c) as <- by (rewrite (child_at m rs ra r rb b Ec E Hdr Hr) in Hch; by injection Hch).
  apply (child_at _ (raise_run k <$> rs) (raise_run k <$> ra) (raise_run k r) (raise_run k <$> rb));
    [done|by rewrite E, fmap_app, fmap_cons|cbn; lia|].
  rewrite E in Hd. apply Forall_app in Hd as [Hda _]. rewrite raise_width, raise_repeats by (lia || done). assert (0 < 2 ^ k) by lia. nia.
Qed.

Lemma grown_leaf top P k m rs d s b old (l : Leaf) :
  heap s !! P = Some (ModelN m) → may_grow s top k m rs d → 0 ≤ k < 64 → 0 ≤ b < num_children_ m → child b m = Ret old → heap s !! old = Some (DataNode l) →
  let s' := grown_state s P k m rs in
  heap s' !! old = Some (DataNode (with_place (leaf_level_ l) (leaf_duplication_factor_ l + k) l)) ∧
  ∀ i, b * 2 ^ k ≤ i < (b + 1) * 2 ^ k → child i (expanded k m rs) = Ret old.
Proof.
  intros Ep Hmg Hk Hb Hch El s'. pose proof Hmg as [(Hne & Ec & Hn0) _ Hf _ _ _ _ _]. pose proof (runs_dup s top k m rs d Hmg) as Hd.
  pose proof Hb as Hb'. rewrite Hn0 in Hb'. destruct (run_at rs b Hd Hb') as (ra & r & rb & E & Hr). assert (r ∈ rs) as Hin by (rewrite E; set_solver).
  rewrite list.Forall_forall in Hf. destruct (Hf r Hin) as (_ & Hdr & n & En & Hdn).
  assert (run_child r = old) as Erc by (rewrite (child_at m rs ra r rb b Ec E Hdr Hr) in Hch; by injection Hch).
  rewrite Erc, El in En. injection En as <-. cbn in Hdn. split.
  - pose proof (child_grown s top P k m rs d Hk Ep Hmg r Hin) as Eg. rewrite Erc, El in Eg. fold s' in Eg. rewrite Eg. cbn. unfold raise_node. cbn.
    pose proof (run_bound s top k m rs d Hk Hmg r Hin). do 3 f_equal. rewrite Hdn. apply Z.mod_small. lia.
  - by apply (grown_child_at top P k m rs d s b old).
Qed.

(** Repeated pointers point to the same nodes. *)
Lemma expanded_children k m rs q : children_ m = rs ≫= slots_of → Forall (λ r, 0 ≤ run_dup r) rs → Some q ∈ children_ (expanded k m rs) → Some q ∈ children_ m.
Proof.
  intros -> Hd (r' & (r & -> & Hr)%list_elem_of_fmap & <-)%run_of_child. rewrite list.Forall_forall in Hd. by apply (run_child_in rs r); [apply Hd|].
Qed.

Lemma grown_steady top P k m rs d s :
  steady s → heap s !! P = Some (ModelN m) → may_grow s top k m rs d → 0 ≤ k < 64 → P ≠ superroot_ s → steady (grown_state s P k m rs).
Proof.
  intros Hst Ep Hmg Hk HP. pose proof Hst as [(Hna & H0 & Hfr) Hfan (sm & Esm & Hsm) Hroot Hap]. set (s' := grown_state s P k m rs).
  pose proof Hmg as [(Hne & Ec & Hn) _ _ _ Hb _ _ _]. pose proof (runs_dup s top k m rs d Hmg) as Hd.
  pose proof (grown_at s top P k m rs d Hk Hmg) as Hat. fold s' in Hat. assert (heap s' !! P = Some (ModelN (expanded k m rs))) as EP by apply grown_parent.
  assert (∀ q, heap s !! q = None → heap s' !! q = None) as Hnone.
  { intros q Eq. rewrite Hat by congruence. rewrite Eq. by case_bool_decide. }
  assert (∀ q mq, heap s' !! q = Some (ModelN mq) → q ≠ P → ∃ m0, heap s !! q = Some (ModelN m0) ∧ num_children_ mq = num_children_ m0 ∧ children_ mq = children_ m0) as Hback.
  { intros q mq Eq Hq. rewrite Hat in Eq by done. case_bool_decide; [|by exists mq].
    destruct (heap s !! q) as [[|m0]|]; cbn in Eq; [done| |done]. injection Eq as <-. by exists m0. }
  constructor; change (superroot_ s') with (superroot_ s); change (root_node_ s') with (root_node_ s).
  - split; [done|]. split; [by apply Hnone|]. intros q Hq. by apply Hnone, Hfr.
  - intros q mq Eq. destruct (decide (q = P)) as [->|Hq].
    + rewrite EP in Eq. injection Eq as <-. destruct (Hfan P m Ep) as (e & He & Hne'). exists (e + k). cbn. rewrite Hne', Z.pow_add_r by lia. split; [|done].
      rewrite Hne', <- Z.pow_add_r in Hb by lia. apply Z.pow_le_mono_r_iff in Hb; lia.
    + destruct (Hback q mq Eq Hq) as (m0 & E0 & -> & _). by apply (Hfan q).
  - exists sm. split; [|done]. rewrite Hat by done. rewrite bool_decide_eq_false_2; [done|]. intros Hin.
    apply (run_child_iff s top k m rs d Hmg) in Hin. by apply (Hap P m Ep).
  - done.
  - intros q mq Eq Hin. destruct (decide (q = P)) as [->|Hq].
    + rewrite EP in Eq. injection Eq as <-. apply (Hap P m Ep). by apply (expanded_children k m rs).
    + destruct (Hback q mq Eq Hq) as (m0 & E0 & _ & Ec0). rewrite Ec0 in Hin. by apply (Hap q m0 E0).
Qed.
(** The same paths. *)
Lemma grown_below top P k m rs d s :
  heap s !! P = Some (ModelN m) → may_grow s top k m rs d → 0 ≤ k < 64 →
  ∀ e p q, below e (heap s) p q → below e (heap (grown_state s P k m rs)) p q.
Proof.
  intros Ep Hmg Hk. induction e as [|e IH]; intros p q; [done|]. cbn [below]. intros [->|Hb]; [by left|right].
  destruct (heap s !! p) as [[|mp]|] eqn:E; [done| |done]. destruct Hb as (c & Hc & Hb). destruct (decide (p = P)) as [->|Hp].
  - rewrite grown_parent. exists c. split; [|by apply IH]. assert (mp = m) as -> by congruence.
    apply (run_child_iff s top k m rs d Hmg) in Hc as (r & -> & Hr)%list_elem_of_fmap. change (run_child r) with (run_child (raise_run k r)).
    apply run_child_in; [|by apply list_elem_of_fmap_2]. pose proof (runs_dup s top k m rs d Hmg) as Hd. rewrite list.Forall_forall in Hd.
    specialize (Hd r Hr). cbn. lia.
  - rewrite (grown_at s top P k m rs d Hk Hmg p Hp), E. case_bool_decide; cbn; exists c; (split; [done|by apply IH]).
Qed.
End whole.
