(* ===== verification/AlexLevel.v ===== *)
(** * ALEX: the levels of a fanout tree

    A level of the fanout tree of [2 ^ level] buckets cuts the keys where the
    model, scaled to that many buckets, puts them; the levels fit together, as
    the bucket on one level is half the bucket on the next. *)
From S2P Require Import Prelude Ieee IeeeMono IeeeLimit AlexBase AlexNode AlexOps AlexInv AlexBuild AlexCost AlexFanout AlexTree AlexRoute AlexScale.

(** ** Sorted keys *)
Section prefix.
Context (P : Z → Prop) `{∀ k, Decision (P k)}.
Implicit Types (l : list (Z * Z)).

(** Of sorted keys, those with a property that smaller keys have too come first. *)
Lemma prefix_filter l :
  StronglySorted Z.le l.*1 → (∀ k k', k ∈ l.*1 → k' ∈ l.*1 → k ≤ k' → P k' → P k) →
  ∀ i kv, l !! i = Some kv → P kv.1 ↔ (i < length (filter (λ kv, P kv.1) l))%nat.
Proof.
  induction l as [|x l IH]; intros Hs Hd i kv E; [done|]. rewrite fmap_cons in Hs. apply StronglySorted_inv in Hs as [Hs Hx].
  assert (∀ k k', k ∈ l.*1 → k' ∈ l.*1 → k ≤ k' → P k' → P k) as Hd' by (intros k k' ??; apply Hd; set_solver).
  destruct (decide (P x.1)) as [Hp|Hp].
  - rewrite filter_cons_True by done. cbn [length]. destruct i as [|i]; [injection E as <-; split; [lia|done]|].
    rewrite (IH Hs Hd' i kv E). lia.
  - rewrite filter_cons_False by done. rewrite filter_none.
    2: { apply list.Forall_forall. intros y Hy Hpy. apply Hp.
      apply (Hd x.1 y.1); [rewrite fmap_cons; left|rewrite fmap_cons; right; by apply list_elem_of_fmap_2| |done].
      rewrite list.Forall_forall in Hx. apply Hx. by apply list_elem_of_fmap_2. }
    split; [|cbn; lia]. intros Hk. exfalso. apply Hp.
    apply list_elem_of_lookup_2 in E as Hin. apply (Hd x.1 kv.1); [rewrite fmap_cons; left|by apply list_elem_of_fmap_2| |done].
    apply elem_of_cons in Hin as [->|Hin]; [lia|]. rewrite list.Forall_forall in Hx. apply Hx. by apply list_elem_of_fmap_2.
Qed.
End prefix.

Section level.
Context (log2 : double → double) (top : Z) (values : list (Z * Z)).
Implicit Types (m nm : LinearModel) (i j k level fanout : Z).

(** How many keys lie in buckets before [j]. *)
Definition cut m fanout j : Z := Z.of_nat (length (filter (λ kv, bucket m fanout kv.1 < j) values)).
Definition count : Z := Z.of_nat (length values).

(** The keys below the start of a bucket, as [c] compares them, are not
    predicted into it, and [c] can compare them with it. *)
Definition exact c m fanout : Prop :=
  ∀ j k, 0 < j < fanout → k ∈ values.*1 → ∃ less, key_less c k (bucket_boundary j m) = Ret less ∧ (less = true → predict k m < j).
Definition steers m : Prop := monotone m ∧ fits_int (predict_double top m).

Context (Hk : keys_ok values) (Htop : ∀ k, k ∈ values.*1 → k ≤ top) (H64 : top < 2 ^ 64).

Lemma value_key (i : nat) kv : values !! i = Some kv → kv.1 ∈ values.*1.
Proof. intros E. apply list_elem_of_fmap_2. by eapply list_elem_of_lookup_2. Qed.
Lemma key_range k : k ∈ values.*1 → 0 ≤ k ≤ top.
Proof. intros Hin. destruct Hk as [_ Hf]. rewrite list.Forall_forall in Hf. specialize (Hf k Hin). specialize (Htop k Hin). lia. Qed.

Lemma bucket_mono m fanout k k' : steers m → 0 ≤ k → k ≤ k' → k' ≤ top → bucket m fanout k ≤ bucket m fanout k'.
Proof.
  intros [Hm Hf] H0 Hkk Ht. assert (fits_int (predict_double k' m)) as Hf' by (apply (fits_int_le m k' top); done || lia).
  apply (bucket_of_mono (mkModelNode m fanout [] 0 0) k k'); done || lia.
Qed.

Lemma cut_at m fanout j (i : nat) kv : steers m → values !! i = Some kv → bucket m fanout kv.1 < j ↔ Z.of_nat i < cut m fanout j.
Proof.
  intros Hm E. unfold cut. rewrite <- Nat2Z.inj_lt. refine (prefix_filter (λ k, bucket m fanout k < j) values (proj1 Hk) _ i kv E).
  intros k k' Hin Hin' Hle Hlt. apply key_range in Hin, Hin'. pose proof (bucket_mono m fanout k k' Hm). lia.
Qed.

Lemma cut_range m fanout j : 0 ≤ cut m fanout j ≤ count.
Proof. unfold cut, count. pose proof (length_filter (λ kv, bucket m fanout kv.1 < j) values). lia. Qed.
Lemma cut_mono m fanout j j' : j ≤ j' → cut m fanout j ≤ cut m fanout j'.
Proof.
  intros Hj. unfold cut. apply inj_le, filter_more. lia.
Qed.
Lemma cut_all m fanout j : 0 < fanout → fanout ≤ j → cut m fanout j = count.
Proof. intros. unfold cut, count. rewrite filter_all; [done|]. apply list.Forall_forall. intros kv _. unfold bucket. lia. Qed.
Lemma cut_none m fanout j : 0 < fanout → j ≤ 0 → cut m fanout j = 0.
Proof. intros. unfold cut. rewrite filter_none; [done|]. apply list.Forall_forall. intros kv _. unfold bucket. lia. Qed.

(** ** One level *)
Lemma lower_bound_prefix c x (vs : list (Z * Z)) : (∀ kv, kv ∈ vs → ∃ less, key_less c kv.1 x = Ret less) →
  ∃ n : nat, lower_bound_of c vs x = Ret (Z.of_nat n) ∧ (n ≤ length vs)%nat ∧
    ∀ (j : nat) kv, (j < n)%nat → vs !! j = Some kv → key_less c kv.1 x = Ret true.
Proof.
  induction vs as [|kv vs IH]; intros Hr; [exists 0%nat; by split_and!; [|lia|lia]|]. cbn [lower_bound_of].
  destruct (Hr kv) as [b Eb]; [by left|]. rewrite Eb, res_bind_ret. destruct b; [|exists 0%nat; split_and!; [done|lia|lia]].
  destruct IH as (n & -> & Hn & Hp); [intros y Hy; apply Hr; by right|]. rewrite res_bind_ret.
  exists (S n). split; [f_equal; lia|]. split; [cbn; lia|]. intros [|j] y Hj E; [by injection E as <-|]. apply (Hp j); [lia|done].
Qed.

Lemma lower_bound_cut c m fanout i : steers m → exact c m fanout → 0 ≤ i → i + 1 < fanout →
  ∃ r, values_lower_bound c values count (bucket_boundary (i + 1) m) = Ret r ∧ 0 ≤ r ≤ cut m fanout (i + 1).
Proof.
  intros Hm Hex Hi Hf. unfold values_lower_bound, count. rewrite Nat2Z.id, take_ge by done.
  destruct (lower_bound_prefix c (bucket_boundary (i + 1) m) values) as (n & -> & Hn & Hp).
  { intros kv Hkv. destruct (Hex (i + 1) kv.1) as (b & E & _); [lia|by apply list_elem_of_fmap_2|by exists b]. }
  exists (Z.of_nat n). split; [done|]. split; [lia|]. destruct n as [|n]; [apply cut_range|].
  destruct (lookup_lt_is_Some_2 values n) as [kv E]; [lia|]. destruct (Hex (i + 1) kv.1 ltac:(lia) (value_key n kv E)) as (b & Eb & Hb).
  rewrite (Hp n kv ltac:(lia) E) in Eb. injection Eb as <-. specialize (Hb eq_refl).
  assert (bucket m fanout kv.1 < i + 1) as Hc by (unfold bucket; lia). apply (cut_at m fanout (i + 1) n kv Hm E) in Hc. lia.
Qed.

Lemma move_boundary_spec m fanout i : steers m → 0 ≤ i → i + 1 < fanout → ∀ fuel rb,
  0 ≤ rb → rb ≤ cut m fanout (i + 1) → count - rb < Z.of_nat fuel → move_boundary fuel values count i m rb = Ret (cut m fanout (i + 1)).
Proof.
  intros Hm Hi Hf. induction fuel as [|fuel IH]; intros rb H0 Hrb Hl; [pose proof (cut_range m fanout (i + 1)); lia|].
  cbn [move_boundary]. pose proof (cut_range m fanout (i + 1)). case_bool_decide as Hlt; [|f_equal; lia].
  destruct (lookup_lt_is_Some_2 values (Z.to_nat rb)) as [kv E]; [unfold count in Hlt; lia|]. rewrite (rd_Some _ _ kv), res_bind_ret by (done || lia).
  pose proof (cut_at m fanout (i + 1) (Z.to_nat rb) kv Hm E) as Hc. rewrite Z2Nat.id in Hc by lia.
  assert (bucket m fanout kv.1 < i + 1 ↔ predict kv.1 m ≤ i) as Hb by (unfold bucket; lia).
  case_bool_decide as Hp; [apply IH; lia|]. f_equal. lia.
Qed.

(** What a node of a level is. *)
Record level_node m fanout level i (t : FTNode) : Prop := {
  ln_level : ft_level t = level;
  ln_id : ft_node_id t = i;
  ln_left : ft_left_boundary t = cut m fanout i;
  ln_right : ft_right_boundary t = cut m fanout (i + 1);
  ln_use : ft_use t = false
}.
Definition level_nodes m fanout level (nodes : list FTNode) : Prop :=
  Z.of_nat (length nodes) = fanout ∧ ∀ (i : nat) t, nodes !! i = Some t → level_node m fanout level (Z.of_nat i) t.

Lemma slice_length l a b : 0 ≤ a → a ≤ b → b ≤ Z.of_nat (length l) → Z.of_nat (length (slice l a b)) = b - a.
Proof. intros. unfold slice. rewrite length_take, length_drop. lia. Qed.

(** ** The levels together *)
(** The model of a node, ready to be given up to [2 ^ D] buckets. *)
Record ready nm (D : Z) : Prop := {
  rd_depth : 0 ≤ D ≤ 30;
  rd_node : steers nm;
  rd_slope : normal_slope nm;
  rd_level level : 1 ≤ level ≤ D → let m := expand (d_of_Z (2 ^ level)) nm in steers m ∧ exact AlexCompare m (2 ^ level)
}.
Definition level_cut nm level j : Z := cut (expand (d_of_Z (2 ^ level)) nm) (2 ^ level) j.

Lemma level_cut_scale nm D level d j : ready nm D → 0 ≤ level → level ≤ d → d ≤ D →
  level_cut nm level j = level_cut nm d (j * 2 ^ (d - level)).
Proof.
  intros [HD [Hm Hf] Hs Hl] H0 Hld HdD. unfold level_cut. assert (2 ^ d = 2 ^ level * 2 ^ (d - level)) as Ed.
  { rewrite <- Z.pow_add_r by lia. f_equal. lia. }
  assert (0 < 2 ^ (d - level)) as Hp by lia. assert (0 < 2 ^ level) by lia. destruct (decide (level = 0)) as [->|Hne].
  - rewrite Z.sub_0_r. change (2 ^ 0) with 1. destruct (decide (1 ≤ j)).
    + rewrite !cut_all by nia. done.
    + rewrite !cut_none by nia. done.
  - destruct (Hl level) as [[Hm1 Hf1] _]; [lia|]. destruct (Hl d) as [[Hm2 Hf2] _]; [lia|].
    set (m1 := expand (d_of_Z (2 ^ level)) nm) in *. set (m2 := expand (d_of_Z (2 ^ d)) nm) in *.
    unfold cut. do 2 f_equal. apply filter_ext_in. intros kv Hkv. assert (0 ≤ kv.1 ≤ top) as Hkey by (apply key_range; by apply list_elem_of_fmap_2).
    assert (∀ mm, steers mm → fits_int (predict_double kv.1 mm)) as Hfit by (intros mm [? ?]; by apply (fits_int_le mm kv.1 top); try lia).
    pose proof (predict_double_scale nm level kv.1 Hm Hs ltac:(lia) Hm1 ltac:(lia) ltac:(by apply Hfit) ltac:(by apply Hfit)) as E1.
    pose proof (predict_double_scale nm d kv.1 Hm Hs ltac:(lia) Hm2 ltac:(lia) ltac:(by apply Hfit) ltac:(by apply Hfit)) as E2.
    fold m1 in E1. fold m2 in E2. rewrite Ed.
    assert (sval (predict_double kv.1 m2) = sval (predict_double kv.1 m1) * 2 ^ (d - level)) as Ev.
    { rewrite E1, E2, <- Z.mul_assoc, <- Z.pow_add_r by lia. do 2 f_equal. lia. }
    rewrite <- (bucket_scaled m1 m2 (d - level) (2 ^ level) kv.1 Hm1 Hm2 ltac:(lia) ltac:(lia) ltac:(by apply Hfit) ltac:(by apply Hfit) Ev) by lia.
    set (q := bucket _ _ _). set (f := 2 ^ (d - level)) in *. clearbody q f. split; intros Hlt.
    + pose proof (Z.div_mod q f ltac:(lia)). pose proof (Z.mod_pos_bound q f ltac:(lia)). nia.
    + apply Z.div_lt_upper_bound; lia.
Qed.

Context (max_data_node_keys : Z) (expected_insert_frac : double) (approximate_model_computation : bool).
Context (Hcount : count ≤ 2 ^ 31).

Lemma level_step_spec c m fanout level i nodes cost : steers m → exact c m fanout → 0 ≤ i < fanout →
  ∃ t cost', level_step log2 c values count level max_data_node_keys expected_insert_frac approximate_model_computation m fanout i
      (nodes, cost, cut m fanout i) = Ret (nodes ++ [t], cost', cut m fanout (i + 1)) ∧ level_node m fanout level i t.
Proof.
  intros Hm Hex Hi. unfold level_step. assert (0 ≤ count) as H0 by (unfold count; lia).
  assert (∃ r, (if bool_decide (i = fanout - 1) then Ret count
                else values_lower_bound c values count (d_div (d_sub (d_of_Z (i + 1)) (b_ m)) (a_ m))) = Ret r ∧
      move_boundary (S (Z.to_nat count)) values count i m r = Ret (cut m fanout (i + 1))) as (r & -> & Emv).
  { case_bool_decide as Hl.
    - exists count. split; [done|]. rewrite (cut_all m fanout (i + 1)) by lia. cbn [move_boundary]. by rewrite bool_decide_eq_false_2 by lia.
    - destruct (lower_bound_cut c m fanout i) as (r & E & Hr); [done|done|lia|lia|]. exists r. split; [exact E|]. apply move_boundary_spec; try done; lia. }
  rewrite res_bind_ret, Emv.
  rewrite res_bind_ret. case_bool_decide as He; [eexists _, _; split; [done|]; by constructor|].
  pose proof (cut_mono m fanout i (i + 1) ltac:(lia)). pose proof (cut_range m fanout i). pose proof (cut_range m fanout (i + 1)).
  set (n := cut m fanout (i + 1) - cut m fanout i). set (part := slice values _ _).
  assert (Z.of_nat (length part) = n) as El by (apply slice_length; unfold count in *; lia).
  rewrite <- El. destruct (build_model_total part model0 approximate_model_computation) as (mm & ->); [lia|]. rewrite res_bind_ret.
  assert (∃ c, compute_expected_cost_of log2 part (Z.of_nat (length part)) kInitDensity_ expected_insert_frac (Some mm) = Ret c) as ([nc st] & ->).
  { unfold compute_expected_cost_of. case_bool_decide; [by eexists|]. rewrite res_bind_ret. case_match; by eexists. }
  rewrite res_bind_ret. eexists _, _. split; [done|]. by constructor.
Qed.

Lemma compute_level_spec c nm total_keys level : let m := mkModel (d_mul (a_ nm) (d_of_Z (2 ^ level))) (d_mul (b_ nm) (d_of_Z (2 ^ level))) in
  0 ≤ level → steers m → exact c m (2 ^ level) →
  ∃ nodes cost, compute_level log2 c values count nm total_keys level max_data_node_keys expected_insert_frac approximate_model_computation =
      Ret (nodes, cost) ∧ level_nodes m (2 ^ level) level nodes.
Proof.
  intros m Hl Hm Hex. unfold compute_level. rewrite Z.shiftl_1_l. fold m. set (fanout := 2 ^ level) in *. assert (0 < fanout) by (unfold fanout; lia).
  destruct (for_up_ind (λ i (s : list FTNode * double * Z), ∃ nodes cost, s = (nodes, cost, cut m fanout i) ∧
      Z.of_nat (length nodes) = i ∧ ∀ (j : nat) t, nodes !! j = Some t → level_node m fanout level (Z.of_nat j) t)
    (level_step log2 c values count level max_data_node_keys expected_insert_frac approximate_model_computation m fanout) 0 fanout ([], d_of_Z 0, 0))
    as (s & -> & nodes & cost & -> & Hlen & Hn); [lia| | |].
  - exists [], (d_of_Z 0). rewrite cut_none by lia. done.
  - intros i s Hi (nodes & cost & -> & Hlen & Hn). destruct (level_step_spec c m fanout level i nodes cost Hm Hex Hi) as (t & cost' & -> & Ht).
    eexists. split; [done|]. exists (nodes ++ [t]), cost'. split; [done|]. rewrite length_app. split; [cbn; lia|].
    intros j t' E. destruct (decide (j < length nodes)%nat); [rewrite lookup_app_l in E by done; by apply Hn|].
    apply lookup_lt_Some in E as Hj. rewrite length_app in Hj. cbn in Hj. assert (j = length nodes) as -> by lia.
    rewrite lookup_app_r, Nat.sub_diag in E by lia. injection E as <-. by rewrite Hlen.
  - rewrite res_bind_ret. eexists _, _. split; [done|]. by split.
Qed.
End level.

(** The two comparisons cut a key above [2 ^ 53] differently. *)
Example comparisons_differ :
  let values := [(2 ^ 53 + 3, 0)] in let boundary := d_of_Z (2 ^ 53 + 4) in
  values_lower_bound AlexCompare values 1 boundary = Ret 0 ∧ values_lower_bound StdLess values 1 boundary = Ret 1.
Proof. by vm_compute. Qed.
