(* ===== verification/AlexPlan.v ===== *)
(** * ALEX: the nodes a fanout search picks

    The nodes that are used tile the buckets of the deepest level: one level is
    used at first, and a merge uses the parent of two nodes in their place. *)
From S2P Require Import Prelude Ieee AlexBase AlexNode AlexOps AlexInv AlexBuild AlexCost AlexFanout AlexTree AlexRoute AlexScale AlexLevel.

(** ** Setting a node *)
Section set.
Implicit Types (t : fanout_tree) (L i : nat) (f : FTNode → FTNode).

Definition node_at t L i : option FTNode := l ← t !! L; l !! i.

Lemma ft_at_node t L i x : node_at t L i = Some x → ft_at (Z.of_nat L) (Z.of_nat i) t = Ret x.
Proof.
  unfold node_at, ft_at. intros (l & El & Ei)%bind_Some. rewrite (rd_Some _ _ l), res_bind_ret by (rewrite ?Nat2Z.id; done || lia).
  apply rd_Some; [lia|by rewrite Nat2Z.id].
Qed.

Lemma ft_set_node t L i f x : node_at t L i = Some x →
  ∃ t', ft_set (Z.of_nat L) (Z.of_nat i) f t = Ret t' ∧ length t' = length t ∧
    ∀ L' i', node_at t' L' i' = if bool_decide (L' = L ∧ i' = i) then Some (f x) else node_at t L' i'.
Proof.
  unfold node_at, ft_set. intros (l & El & Ei)%bind_Some. apply lookup_lt_Some in El as HL. apply lookup_lt_Some in Ei as Hi.
  rewrite (rd_Some _ _ l), res_bind_ret, (rd_Some _ _ x), res_bind_ret by (rewrite ?Nat2Z.id; done || lia).
  rewrite (wr_in l), res_bind_ret, wr_in, !Nat2Z.id by lia. eexists. split; [done|]. split; [apply length_insert|]. intros L' i'.
  destruct (decide (L' = L)) as [->|Hne].
  - rewrite list_lookup_insert_eq, El by done. cbn [mbind option_bind]. destruct (decide (i' = i)) as [->|].
    + by rewrite list_lookup_insert_eq, bool_decide_eq_true_2.
    + rewrite list_lookup_insert_ne, bool_decide_eq_false_2 by naive_solver. done.
  - rewrite list_lookup_insert_ne by done. by rewrite bool_decide_eq_false_2 by naive_solver.
Qed.
End set.

#[export] Instance before_trans max_level : Transitive (before max_level).
Proof. intros x y z. unfold before. lia. Qed.
#[export] Instance before_total max_level : Total (before max_level).
Proof. intros x y. unfold before. lia. Qed.

(** ** Marked nodes *)
(** The buckets, of [2 ^ best], under a node. *)
Definition spans (best : nat) (L i : nat) (j : Z) : Prop :=
  Z.of_nat i * 2 ^ (Z.of_nat best - Z.of_nat L) ≤ j < (Z.of_nat i + 1) * 2 ^ (Z.of_nat best - Z.of_nat L).
Definition marked (t : fanout_tree) (L i : nat) : Prop := ∃ x, node_at t L i = Some x ∧ ft_use x = true.
Definition tiled (best : nat) (t : fanout_tree) : Prop :=
  ∀ j, 0 ≤ j < 2 ^ Z.of_nat best → ∃ L i, (L ≤ best)%nat ∧ marked t L i ∧ spans best L i j ∧
    ∀ L' i', (L' ≤ best)%nat → marked t L' i' → spans best L' i' j → L' = L ∧ i' = i.

Lemma spans_halves best L i j : (L < best)%nat → spans best L i j ↔ spans best (S L) (2 * i) j ∨ spans best (S L) (2 * i + 1) j.
Proof.
  intros HL. unfold spans. replace (Z.of_nat best - Z.of_nat L) with (Z.succ (Z.of_nat best - Z.of_nat (S L))) by lia.
  rewrite Z.pow_succ_r by lia. set (w := 2 ^ _). assert (0 < w) by (unfold w; lia). clearbody w. split; [|lia].
  intros Hj. destruct (decide (j < Z.of_nat (2 * i + 1) * w)); [left|right]; lia.
Qed.

Lemma tiled_merge best t t' L i : (L < best)%nat → tiled best t → marked t (S L) (2 * i) → marked t (S L) (2 * i + 1) →
  (∀ L' i', marked t' L' i' ↔ (L' = L ∧ i' = i) ∨ (marked t L' i' ∧ ¬ (L' = S L ∧ (i' = 2 * i ∨ i' = 2 * i + 1)%nat))) → tiled best t'.
Proof.
  intros HL Ht Hl Hr Hm j Hj. destruct (Ht j Hj) as (L0 & i0 & HL0 & Hm0 & Hs0 & Hu).
  destruct (decide (L0 = S L ∧ (i0 = 2 * i ∨ i0 = 2 * i + 1)%nat)) as [[-> Hi0]|Hn].
  - exists L, i. split; [lia|]. split; [apply Hm; by left|]. split.
    { apply spans_halves; [done|]. destruct Hi0 as [->| ->]; [by left|by right]. }
    intros L' i' HL' [[-> ->]|[Hm' Hn']]%Hm Hs'; [done|]. destruct (Hu L' i' HL' Hm' Hs') as [-> ->]. tauto.
  - exists L0, i0. split; [done|]. split; [apply Hm; by right|]. split; [done|].
    intros L' i' HL' [[-> ->]|[Hm' _]]%Hm Hs'; [|by apply Hu]. exfalso. apply Hn. apply spans_halves in Hs' as [Hs'|Hs']; [..|done].
    + destruct (Hu (S L) (2 * i)%nat ltac:(lia) Hl Hs') as [-> ->]. tauto.
    + destruct (Hu (S L) (2 * i + 1)%nat ltac:(lia) Hr Hs') as [-> ->]. tauto.
Qed.

(** ** The search *)
Section plan.
Context (log2 : double → double) (top : Z) (values : list (Z * Z)).
Context (Hk : keys_ok values) (Htop : ∀ k, k ∈ values.*1 → k ≤ top) (H64 : top < 2 ^ 64).
Context (Hcount : count values ≤ 2 ^ 31).
Context (nm : LinearModel) (D : Z) (Hready : ready top values nm D).
Implicit Types (t : fanout_tree) (L i best : nat).
Local Abbreviation level_cut := (level_cut values nm).
Local Abbreviation count := (count values).

(** A node of a level, whether it is used or not. *)
Record plan_node (L i : nat) (x : FTNode) : Prop := {
  pn_level : ft_level x = Z.of_nat L;
  pn_id : ft_node_id x = Z.of_nat i;
  pn_left : ft_left_boundary x = level_cut (Z.of_nat L) (Z.of_nat i);
  pn_right : ft_right_boundary x = level_cut (Z.of_nat L) (Z.of_nat i + 1)
}.
Lemma plan_node_use L i x b : plan_node L i (set_use b x) ↔ plan_node L i x.
Proof. split; intros [? ? ? ?]; by constructor. Qed.

(** The levels computed so far. *)
Record planned (t : fanout_tree) : Prop := {
  pl_levels : (0 < length t)%nat ∧ Z.of_nat (length t) ≤ D + 1;
  pl_node L i : (L < length t)%nat → Z.of_nat i < 2 ^ Z.of_nat L → is_Some (node_at t L i);
  pl_shape L i x : node_at t L i = Some x → (L < length t)%nat ∧ Z.of_nat i < 2 ^ Z.of_nat L ∧ plan_node L i x
}.

(** The marks changed, and nothing else. *)
Definition remarked (t t' : fanout_tree) : Prop :=
  length t' = length t ∧ ∀ L i, set_use false <$> node_at t' L i = set_use false <$> node_at t L i.

Lemma remarked_planned t t' : remarked t t' → planned t → planned t'.
Proof.
  intros [Hl Hs] [Hd Hn Hp]. constructor.
  - by rewrite Hl.
  - intros L i HL Hi. rewrite Hl in HL. specialize (Hs L i). destruct (Hn L i HL Hi) as [x E]. rewrite E in Hs.
    destruct (node_at t' L i); [by eexists|done].
  - intros L i x E. specialize (Hs L i). rewrite E in Hs. destruct (node_at t L i) as [y|] eqn:Ey; [|done]. apply (inj Some) in Hs.
    destruct (Hp L i y Ey) as (HL & Hi & Hy). rewrite Hl. split; [done|]. split; [done|].
    rewrite <- (plan_node_use L i x false), Hs, plan_node_use. done.
Qed.
Lemma remarked_trans t1 t2 t3 : remarked t1 t2 → remarked t2 t3 → remarked t1 t3.
Proof. intros [H1 S1] [H2 S2]. split; [congruence|]. intros L i. by rewrite S2, S1. Qed.

Lemma set_use_spec t L i b : is_Some (node_at t L i) → ∃ t', ft_set (Z.of_nat L) (Z.of_nat i) (set_use b) t = Ret t' ∧ remarked t t' ∧
  ∀ L' i', marked t' L' i' ↔ if bool_decide (L' = L ∧ i' = i) then b = true else marked t L' i'.
Proof.
  intros [x E]. destruct (ft_set_node t L i (set_use b) x E) as (t' & -> & Hl & Hn). exists t'. split; [done|]. split.
  - split; [done|]. intros L' i'. rewrite Hn. case_bool_decide as Hc; [|done]. destruct Hc as [-> ->]. by rewrite E.
  - intros L' i'. unfold marked. rewrite Hn. case_bool_decide as Hc; [|done]. split; [by intros (y & [= <-] & <-)|intros ->; by eexists].
Qed.

(** One merge of two siblings. *)
Lemma merge_pair_spec t L i : planned t → (S L < length t)%nat → Z.of_nat i < 2 ^ Z.of_nat L →
  ∃ t', merge_pair (Z.of_nat (S L)) (Z.of_nat i) t = Ret t' ∧ remarked t t' ∧
    ∀ L' i', marked t' L' i' ↔ (L' = L ∧ i' = i) ∨ (marked t L' i' ∧ ¬ (L' = S L ∧ (i' = 2 * i ∨ i' = 2 * i + 1)%nat)).
Proof.
  intros Hp HL Hi. unfold merge_pair. assert (2 ^ Z.of_nat (S L) = 2 * 2 ^ Z.of_nat L) as E2 by (rewrite Nat2Z.inj_succ, Z.pow_succ_r; lia).
  destruct (set_use_spec t (S L) (2 * i) false) as (t1 & E1 & R1 & M1); [apply (pl_node _ Hp); lia|].
  pose proof (remarked_planned _ _ R1 Hp) as Hp1.
  destruct (set_use_spec t1 (S L) (2 * i + 1) false) as (t2 & E3 & R2 & M2); [apply (pl_node _ Hp1); rewrite ?(proj1 R1); lia|].
  pose proof (remarked_planned _ _ R2 Hp1) as Hp2.
  destruct (set_use_spec t2 L i true) as (t3 & E4 & R3 & M3); [apply (pl_node _ Hp2); rewrite ?(proj1 R2), ?(proj1 R1); lia|].
  exists t3. rewrite (Nat2Z.inj_mul 2) in E1. rewrite Nat2Z.inj_add, (Nat2Z.inj_mul 2) in E3. change (Z.of_nat 2) with 2 in E1, E3. change (Z.of_nat 1) with 1 in E3. rewrite E1, res_bind_ret, E3, res_bind_ret.
  replace (Z.of_nat (S L) - 1) with (Z.of_nat L) by lia. split; [done|]. split; [by do 2 (eapply remarked_trans; [done|])|].
  intros L' i'. rewrite M3. case_bool_decide as H3; [tauto|]. rewrite M2. case_bool_decide as H2; [naive_solver lia|]. rewrite M1.
  case_bool_decide as H1; naive_solver lia.
Qed.

Lemma merge_step_spec best L num_keys total_keys i t cost merged : planned t → (best < length t)%nat → (S L ≤ best)%nat →
  Z.of_nat i < 2 ^ Z.of_nat L → tiled best t →
  ∃ t' cost' merged', merge_step (Z.of_nat (S L)) num_keys total_keys (Z.of_nat i) (t, cost, merged) = Ret (t', cost', merged') ∧
    remarked t t' ∧ tiled best t'.
Proof.
  intros Hp Hb HL Hi Ht. unfold merge_step. assert (2 ^ Z.of_nat (S L) = 2 * 2 ^ Z.of_nat L) as E2 by (rewrite Nat2Z.inj_succ, Z.pow_succ_r; lia).
  destruct (pl_node _ Hp (S L) (2 * i)) as [l El]; [lia..|]. destruct (pl_node _ Hp (S L) (2 * i + 1)) as [r Er]; [lia..|].
  destruct (pl_node _ Hp L i) as [p Ep]; [lia..|]. pose proof (ft_at_node _ _ _ _ El) as Al. pose proof (ft_at_node _ _ _ _ Er) as Ar.
  rewrite (Nat2Z.inj_mul 2) in Al. rewrite Nat2Z.inj_add, (Nat2Z.inj_mul 2) in Ar. change (Z.of_nat 2) with 2 in Al, Ar. change (Z.of_nat 1) with 1 in Ar. rewrite Al, res_bind_ret, Ar, res_bind_ret.
  assert (remarked t t) as Hrefl by done.
  destruct (ft_use l) eqn:Ul, (ft_use r) eqn:Ur; cbn [andb]; [|by eexists _, _, _..].
  replace (Z.of_nat (S L) - 1) with (Z.of_nat L) by lia. rewrite (ft_at_node _ _ _ _ Ep), res_bind_ret.
  destruct (merge_pair_spec t L i Hp ltac:(lia) Hi) as (t' & E & HR & HM). rewrite E.
  assert (tiled best t') as Ht' by (apply (tiled_merge best t t' L i); [lia|done|by exists l|by exists r|done]).
  repeat case_match; rewrite ?res_bind_ret; by eexists _, _, _.
Qed.

Lemma merge_nodes_spec best num_keys total_keys : ∀ start cost t, planned t → (best < length t)%nat → (start ≤ best)%nat → tiled best t →
  ∃ t' cost', merge_nodes_upwards start cost num_keys total_keys t = Ret (t', cost') ∧ remarked t t' ∧ tiled best t'.
Proof.
  induction start as [|L IH]; intros cost t Hp Hb HL Ht; cbn [merge_nodes_upwards]; [by eexists _, _|].
  assert (Z.shiftl 1 (Z.of_nat (S L)) / 2 = 2 ^ Z.of_nat L) as ->.
  { rewrite Z.shiftl_1_l, Nat2Z.inj_succ, Z.pow_succ_r, Z.mul_comm by lia. by apply Z.div_mul. }
  destruct (for_up_ind (λ _ s, ∃ t' cost' merged, s = (t', cost', merged) ∧ remarked t t' ∧ tiled best t')
    (merge_step (Z.of_nat (S L)) num_keys total_keys) 0 (2 ^ Z.of_nat L) (t, cost, false))
    as (s & -> & t' & cost' & merged & -> & HR & Ht'); [lia|by eexists _, _, _| |].
  - intros i s Hi (t1 & c1 & m1 & -> & HR & Ht1).
    destruct (merge_step_spec best L num_keys total_keys (Z.to_nat i) t1 c1 m1) as (t2 & c2 & m2 & E & HR2 & Ht2); try done; [|rewrite (proj1 HR); lia|lia|].
    { by eapply remarked_planned. }
    rewrite Z2Nat.id in E by lia. rewrite E. eexists. split; [done|]. eexists _, _, _. split; [done|]. split; [by eapply remarked_trans|done].
  - rewrite res_bind_ret. destruct merged; [|by eexists _, _].
    destruct (IH cost' t') as (t2 & c2 & -> & HR2 & Ht2); [by eapply remarked_planned|rewrite (proj1 HR); lia|lia|done|].
    eexists _, _. split; [done|]. split; [by eapply remarked_trans|done].
Qed.

(** ** The nodes that are used, in order *)
Fixpoint tiles (depth cur : Z) (ts : list FTNode) : Prop :=
  match ts with
  | [] => cur = 2 ^ depth
  | x :: ts => let w := 2 ^ (depth - ft_level x) in
      0 ≤ ft_level x ≤ depth ∧ cur mod w = 0 ∧ ft_left_boundary x = level_cut depth cur ∧
      ft_right_boundary x = level_cut depth (cur + w) ∧ tiles depth (cur + w) ts
  end.

Definition covers_bucket best (x : FTNode) (j : Z) : Prop :=
  ft_node_id x * 2 ^ (Z.of_nat best - ft_level x) ≤ j < (ft_node_id x + 1) * 2 ^ (Z.of_nat best - ft_level x).

(** A list in order whose nodes share out the buckets from [cur] on. *)
Lemma sorted_tiles best : Z.of_nat best ≤ D → ∀ ts cur, 0 ≤ cur ≤ 2 ^ Z.of_nat best →
  StronglySorted (before (Z.of_nat best)) ts → NoDup ts →
  (∀ x, x ∈ ts → ∃ L i, (L ≤ best)%nat ∧ Z.of_nat i < 2 ^ Z.of_nat L ∧ plan_node L i x) →
  (∀ x y j, x ∈ ts → y ∈ ts → covers_bucket best x j → covers_bucket best y j → x = y) →
  (∀ j, cur ≤ j < 2 ^ Z.of_nat best → ∃ x, x ∈ ts ∧ covers_bucket best x j) →
  (∀ x, x ∈ ts → cur ≤ ft_node_id x * 2 ^ (Z.of_nat best - ft_level x)) → tiles (Z.of_nat best) cur ts.
Proof.
  intros HbD. induction ts as [|x ts IH]; intros cur Hcur Hs Hnd Hp Hu Hall Hlow; cbn [tiles].
  - destruct (decide (cur < 2 ^ Z.of_nat best)); [|lia]. destruct (Hall cur) as (x & Hx & _); [lia|]. by apply not_elem_of_nil in Hx.
  - apply StronglySorted_inv in Hs as [Hs Hx]. apply NoDup_cons in Hnd as [Hnx Hnd].
    destruct (Hp x ltac:(left)) as (L & i & HL & Hi & [El Ei Eleft Eright]). pose proof (Hlow x ltac:(left)) as Hlx. rewrite El in Hlx |- *. rewrite Ei in Hlx.
    set (w := 2 ^ (Z.of_nat best - Z.of_nat L)) in *. assert (0 < w) as Hw by (unfold w; lia).
    assert (2 ^ Z.of_nat best = 2 ^ Z.of_nat L * w) as Eb by (unfold w; rewrite <- Z.pow_add_r by lia; f_equal; lia).
    assert (covers_bucket best x (Z.of_nat i * w)) as Hself by (unfold covers_bucket; rewrite El, Ei; fold w; lia).
    assert (Z.of_nat i * w = cur) as Ecur.
    { destruct (Hall cur) as (y & Hy & Hcy); [nia|]. pose proof (Hlow y Hy) as Hly. unfold covers_bucket in Hcy.
      assert (position_of (Z.of_nat best) x ≤ ft_node_id y * 2 ^ (Z.of_nat best - ft_level y)) as Hle.
      { apply elem_of_cons in Hy as [->|Hy]; [unfold position_of; rewrite El, Ei, Z.shiftl_mul_pow2 by lia; fold w; lia|].
        rewrite list.Forall_forall in Hx. specialize (Hx y Hy). unfold before, position_of in Hx |- *.
        destruct (Hp y ltac:(by right)) as (L' & i' & HL' & _ & [El' _ _ _]). rewrite !Z.shiftl_mul_pow2 in Hx by (rewrite ?El, ?El'; lia). rewrite !Z.shiftl_mul_pow2 by (rewrite ?El; lia). done. }
      unfold position_of in Hle. rewrite El, Ei, Z.shiftl_mul_pow2 in Hle by lia. fold w in Hle. lia. }
    assert (∀ y, y ∈ ts → cur + w ≤ ft_node_id y * 2 ^ (Z.of_nat best - ft_level y)) as Hnext.
    { intros y Hy. destruct (decide (cur + w ≤ ft_node_id y * 2 ^ (Z.of_nat best - ft_level y))) as [|Hlt]; [done|]. exfalso.
      pose proof (Hlow y ltac:(by right)) as Hly. destruct (Hp y ltac:(by right)) as (L' & i' & HL' & _ & [El' _ _ _]).
      set (j := ft_node_id y * _) in *. assert (y = x) as ->; [|done].
      apply (Hu y x j); [by right|left| |].
      - unfold covers_bucket. fold j. rewrite Z.mul_add_distr_r. fold j. split; [lia|]. assert (0 < 2 ^ (Z.of_nat best - ft_level y)) by (rewrite El'; lia). lia.
      - unfold covers_bucket. rewrite El, Ei. fold w. lia. }
    split; [lia|]. split; [rewrite <- Ecur; apply Z.mod_mul; lia|].
    pose proof (level_cut_scale top values Hk Htop H64 nm D (Z.of_nat L) (Z.of_nat best)) as Hsc.
    split; [by rewrite Eleft, Hsc, <- Ecur by (done || lia)|]. split; [rewrite Eright, Hsc by (done || lia); fold w; f_equal; lia|].
    apply IH; [nia|done|done| | | |done].
    + intros y Hy. apply Hp. by right.
    + intros y z j Hy Hz. apply Hu; by right.
    + intros j Hj. destruct (Hall j) as (y & [->|Hy]%elem_of_cons & Hc); [lia| |by exists y].
      exfalso. unfold covers_bucket in Hc. rewrite El, Ei in Hc. fold w in Hc. lia.
Qed.

(** The nodes of the first levels. *)
Lemma node_in_levels t n x : x ∈ concat (take n t) ↔ ∃ L i, (L < n)%nat ∧ node_at t L i = Some x.
Proof.
  unfold node_at. rewrite list_elem_of_In, in_concat. split.
  - intros (l & Hl%list_elem_of_In & Hx%list_elem_of_In). apply elem_of_take in Hl as (L & El & HL).
    apply list_elem_of_lookup in Hx as (i & Ei). exists L, i. split; [done|]. by rewrite El.
  - intros (L & i & HL & (l & El & Ei)%bind_Some). exists l. rewrite <- !list_elem_of_In. split; [|by eapply list_elem_of_lookup_2].
    apply elem_of_take. by exists L.
Qed.
Lemma levels_nodup t : planned t → ∀ n, (n ≤ length t)%nat → NoDup (concat (take n t)).
Proof.
  intros Hp. induction n as [|n IH]; intros Hn; [constructor|]. destruct (lookup_lt_is_Some_2 t n) as [l El]; [lia|].
  rewrite (take_S_r _ _ l), concat_app by done. cbn [concat]. rewrite app_nil_r. apply NoDup_app. split; [apply IH; lia|]. split.
  - intros x (L & i & HL & E)%node_in_levels Hx. apply list_elem_of_lookup in Hx as (i' & E').
    destruct (pl_shape _ Hp L i x E) as (_ & _ & [H1 _ _ _]). destruct (pl_shape _ Hp n i' x) as (_ & _ & [H2 _ _ _]); [unfold node_at; by rewrite El|]. lia.
  - apply NoDup_alt. intros i j x Ei Ej. destruct (pl_shape _ Hp n i x) as (_ & _ & [_ H1 _ _]); [unfold node_at; by rewrite El|].
    destruct (pl_shape _ Hp n j x) as (_ & _ & [_ H2 _ _]); [unfold node_at; by rewrite El|]. lia.
Qed.

Lemma collect_spec best t : planned t → (best < length t)%nat → tiled best t → tiles (Z.of_nat best) 0 (collect_used_nodes t (Z.of_nat best)).
Proof.
  intros Hp Hb Ht. unfold collect_used_nodes. rewrite Z.min_l by lia. replace (Z.to_nat (Z.of_nat best + 1)) with (S best) by lia.
  set (U := filter _ _). pose proof (merge_sort_Permutation (before (Z.of_nat best)) U) as HP.
  assert (∀ x, x ∈ merge_sort (before (Z.of_nat best)) U ↔ ∃ L i, (L ≤ best)%nat ∧ node_at t L i = Some x ∧ ft_use x = true) as Hin.
  { intros x. rewrite HP. unfold U. rewrite list_elem_of_filter. split.
    - intros (Hu & (L & i & HL & E)%node_in_levels). exists L, i. split; [lia|done].
    - intros (L & i & HL & E & Hu). split; [done|]. apply node_in_levels. exists L, i. split; [lia|done]. }
  assert (∀ L i x j, node_at t L i = Some x → covers_bucket best x j ↔ spans best L i j) as Hspan.
  { intros L i x j E. destruct (pl_shape _ Hp L i x E) as (_ & _ & [H1 H2 _ _]). unfold covers_bucket, spans. by rewrite H1, H2. }
  pose proof (pl_levels _ Hp) as [_ HlD].
  apply (sorted_tiles best); [lia|lia| | | | | |].
  - apply StronglySorted_merge_sort; apply _.
  - rewrite HP. unfold U. apply NoDup_filter, levels_nodup; [done|lia].
  - intros x (L & i & HL & E & _)%Hin. destruct (pl_shape _ Hp L i x E) as (_ & Hi & Hn). by exists L, i.
  - intros x y j (L & i & HL & E & Hu)%Hin (L' & i' & HL' & E' & Hu')%Hin Hx Hy. rewrite (Hspan L i) in Hx by done. rewrite (Hspan L' i') in Hy by done.
    assert (0 ≤ j < 2 ^ Z.of_nat best) as Hj.
    { destruct (pl_shape _ Hp L i x E) as (_ & Hi & _). unfold spans in Hx. assert (2 ^ Z.of_nat best = 2 ^ Z.of_nat L * 2 ^ (Z.of_nat best - Z.of_nat L)) as Eb.
      { rewrite <- Z.pow_add_r by lia. f_equal. lia. } assert (0 < 2 ^ (Z.of_nat best - Z.of_nat L)) by lia. nia. }
    destruct (Ht j Hj) as (L0 & i0 & _ & _ & _ & Huniq). destruct (Huniq L i HL ltac:(by exists x) Hx) as [-> ->].
    destruct (Huniq L' i' HL' ltac:(by exists y) Hy) as [-> ->]. congruence.
  - intros j Hj. destruct (Ht j Hj) as (L & i & HL & (x & E & Hu) & Hs & _). exists x. split; [|by apply (Hspan L i)]. apply Hin. by exists L, i.
  - intros x (L & i & HL & E & _)%Hin. destruct (pl_shape _ Hp L i x E) as (_ & _ & [H1 H2 _ _]). rewrite H1, H2. assert (0 < 2 ^ (Z.of_nat best - Z.of_nat L)) by lia. nia.
Qed.

(** All nodes of one level. *)
Lemma level_tiles (L : Z) nodes : 0 ≤ L ≤ D → level_nodes values (expand (d_of_Z (2 ^ L)) nm) (2 ^ L) L nodes → tiles L 0 nodes.
Proof.
  intros HL [Hlen Hn]. assert (∀ (n : nat) ns, (∀ (i : nat) x, ns !! i = Some x → level_node values (expand (d_of_Z (2 ^ L)) nm) (2 ^ L) L (Z.of_nat (n + i)) x) →
    Z.of_nat n + Z.of_nat (length ns) = 2 ^ L → tiles L (Z.of_nat n) ns) as H; [|by apply (H 0%nat)].
  intros n ns. revert n. induction ns as [|x ns IH]; intros n Hns Hl; cbn [tiles]; [cbn in Hl; lia|].
  destruct (Hns 0%nat x eq_refl) as [El Ei Ele Eri _]. rewrite Nat.add_0_r in *. rewrite El, Z.sub_diag. change (2 ^ 0) with 1.
  split; [lia|]. split; [apply Z.mod_1_r|]. split; [done|]. split; [done|]. replace (Z.of_nat n + 1) with (Z.of_nat (S n)) by lia.
  apply IH; [|cbn in Hl; lia]. intros i y E. replace (S n + i)%nat with (n + S i)%nat by lia. by apply Hns.
Qed.

(** ** Growing the tree *)
Context (max_data_node_keys : Z) (expected_insert_frac : double) (approximate_model_computation : bool) (max_fanout : Z).
Context (HD : max_fanout < 2 ^ (D + 1)).

Definition search_ok (s : search) : Prop :=
  planned (levels s) ∧ 0 ≤ best_level s < Z.of_nat (length (levels s)) ∧ ∀ L i x, node_at (levels s) L i = Some x → ft_use x = false.

Lemma add_level_spec level nodes cost s : search_ok s → level = Z.of_nat (length (levels s)) → level ≤ D →
  level_nodes values (expand (d_of_Z (2 ^ level)) nm) (2 ^ level) level nodes →
  match add_level level nodes cost s with
  | inl s' => search_ok s' ∧ length (levels s') = S (length (levels s))
  | inr s' => search_ok s'
  end.
Proof.
  intros (Hp & Hb & Hun) -> HL [Hlen Hn]. unfold add_level. destruct (rose_twice _); [done|]. remember (length (levels s)) as L0 eqn:EL0.
  assert (∀ bl bc costs, 0 ≤ bl ≤ Z.of_nat L0 → search_ok (mkSearch bl bc costs (levels s ++ [nodes])) ∧ length (levels s ++ [nodes]) = S L0) as Hok.
  { intros bl bc costs Hbl. assert (length (levels s ++ [nodes]) = S L0) as El by (rewrite length_app; cbn; lia). split; [|done].
    assert (∀ L i, node_at (levels s ++ [nodes]) L i = if bool_decide (L = L0) then nodes !! i else node_at (levels s) L i) as Hat.
    { intros L i. unfold node_at. case_bool_decide as Hc; [by rewrite Hc, EL0, lookup_app_r, Nat.sub_diag by lia|].
      destruct (decide (L < L0)%nat); [by rewrite lookup_app_l by lia|]. rewrite lookup_ge_None_2 by (rewrite El; lia). by rewrite lookup_ge_None_2 by (lia). }
    split; [|split; [cbn; rewrite El; lia|]].
    - constructor; cbn [levels].
      + rewrite El. lia.
      + intros L i. rewrite El, Hat. case_bool_decide as Hc; intros H1 H2; [subst L; apply lookup_lt_is_Some_2; lia|apply (pl_node _ Hp); [lia|done]].
      + intros L i x. rewrite El, Hat. case_bool_decide as Hc; intros E; [subst L|].
        * apply lookup_lt_Some in E as Hi. destruct (Hn i x E) as [? ? ? ? _]. split; [lia|]. split; [lia|]. by constructor.
        * destruct (pl_shape _ Hp L i x E) as (? & ? & ?). split; [lia|done].
    - cbn [levels]. intros L i x. rewrite Hat. case_bool_decide; [|by apply Hun]. intros E. apply (Hn i x E). }
  destruct (d_lt cost (best_cost s)); apply Hok; lia.
Qed.

Lemma grow_spec compute : (∀ level, 1 ≤ level ≤ D → ∃ nodes cost, compute level = Ret (nodes, cost) ∧
    level_nodes values (expand (d_of_Z (2 ^ level)) nm) (2 ^ level) level nodes) →
  ∀ fuel level s, search_ok s → level = Z.of_nat (length (levels s)) → D + 1 - level < Z.of_nat fuel →
  ∃ s', grow fuel compute (2 ^ level) max_fanout level s = Ret s' ∧ search_ok s'.
Proof.
  intros Hcomp. pose proof (rd_depth _ _ _ _ Hready) as HD30. induction fuel as [|fuel IH]; intros level s Hs El Hf; [destruct Hs as ([[? ?] _ _] & _); lia|].
  cbn [grow]. case_bool_decide as Hm; [|by eexists]. pose proof Hs as (Hp & _ & _). pose proof (pl_levels _ Hp) as [H0 H1].
  assert (level ≤ D). { assert (2 ^ level < 2 ^ (D + 1)) as Hlt%Z.pow_lt_mono_r_iff by lia; lia. }
  destruct (Hcomp level) as (nodes & cost & -> & Hn); [lia|]. rewrite res_bind_ret.
  pose proof (add_level_spec level nodes cost s Hs El ltac:(lia) Hn) as Ha. destruct (add_level level nodes cost s) as [s'|s']; [|by eexists].
  destruct Ha as [Hs' Hl']. replace (2 ^ level * 2) with (2 ^ (level + 1)) by (rewrite Z.pow_add_r; lia). apply IH; [done|lia|lia].
Qed.

Lemma start_ok cost : let root := mkFT 0 0 cost 0 count false (d_of_Z 0) (d_of_Z 0) (d_of_Z 0) (d_of_Z 0) count in
  search_ok (mkSearch 0 cost [cost] [[root]]).
Proof.
  intros root. pose proof (rd_depth _ _ _ _ Hready).
  assert (∀ L i x, node_at [[root]] L i = Some x ↔ L = 0%nat ∧ i = 0%nat ∧ x = root) as Hat.
  { intros [|L] [|i] x; unfold node_at; cbn; naive_solver. }
  split; [|split; [cbn; lia|]].
  - constructor; cbn [levels length].
    + lia.
    + intros L i HL Hi. assert (L = 0%nat) as -> by lia. assert (i = 0%nat) as -> by lia. by exists root.
    + intros L i x (-> & -> & ->)%Hat. split; [lia|]. split; [lia|]. constructor; try done; cbn.
      * unfold level_cut. by rewrite cut_none by done.
      * unfold level_cut. by rewrite cut_all by done.
  - cbn [levels]. intros L i x (_ & _ & ->)%Hat. done.
Qed.

(** [use_level] marks a level; it tiles. *)
Lemma use_level_spec s : search_ok s → ∃ t, use_level (best_level s) (levels s) = Ret t ∧ remarked (levels s) t ∧ tiled (Z.to_nat (best_level s)) t.
Proof.
  intros (Hp & Hb & Hun). set (best := Z.to_nat (best_level s)). assert (best_level s = Z.of_nat best) as -> by (unfold best; lia).
  destruct (lookup_lt_is_Some_2 (levels s) best) as [l El]; [lia|]. unfold use_level.
  rewrite (rd_Some _ _ l), res_bind_ret, wr_in, Nat2Z.id by (rewrite ?Nat2Z.id; lia || done). eexists. split; [done|].
  set (t := <[best:=_]> _). assert (∀ L i, node_at t L i = if bool_decide (L = best) then set_use true <$> node_at (levels s) L i else node_at (levels s) L i) as Hat.
  { intros L i. unfold node_at, t. case_bool_decide as Hc.
    - subst L. rewrite list_lookup_insert_eq, El by lia. cbn. apply list_lookup_fmap.
    - by rewrite list_lookup_insert_ne. }
  assert (∀ L i, marked t L i ↔ L = best ∧ is_Some (node_at (levels s) best i)) as Hm.
  { intros L i. unfold marked. rewrite Hat. case_bool_decide as Hc.
    - subst L. destruct (node_at (levels s) best i) as [x|] eqn:E; cbn; [|by split; [intros (?&?&?)|intros [_ [? ?]]]].
      split; [by intros _|]. intros _. by eexists.
    - split; [|tauto]. intros (x & E & Hu). by rewrite (Hun L i x E) in Hu. }
  split; [split; [apply length_insert|]|].
  - intros L i. rewrite Hat. case_bool_decide; [|done]. by destruct (node_at (levels s) L i).
  - intros j Hj. exists best, (Z.to_nat j). split; [done|]. split; [apply Hm; split; [done|]; apply (pl_node _ Hp); lia|].
    unfold spans. rewrite Z.sub_diag. change (2 ^ 0) with 1. split; [lia|].
    intros L' i' _ [-> _]%Hm. rewrite Z.sub_diag. change (2 ^ 0) with 1. split; [done|lia].
Qed.

Lemma find_best_fanout_spec node_cost total_keys :
  ∃ ts depth cost, find_best_fanout_bottom_up log2 values count nm node_cost total_keys max_fanout max_data_node_keys
      expected_insert_frac approximate_model_computation = Ret (ts, depth, cost) ∧ 0 ≤ depth ≤ D ∧ tiles depth 0 ts.
Proof.
  pose proof (rd_depth _ _ _ _ Hready) as HD30. unfold find_best_fanout_bottom_up.
  set (best0 := d_add node_cost kNodeLookupsWeight). set (root := mkFT _ _ _ _ _ _ _ _ _ _ _). set (compute := λ level, compute_level _ _ _ _ _ _ _ _ _ _).
  destruct (grow_spec compute) with (fuel := 32%nat) (level := 1) (s := mkSearch 0 best0 [best0] [[root]]) as (s & E & Hs).
  - intros level Hl. destruct (rd_level _ _ _ _ Hready level Hl) as [Hm Hex].
    destruct (compute_level_spec log2 top values Hk Htop H64 max_data_node_keys expected_insert_frac approximate_model_computation Hcount AlexCompare nm total_keys level ltac:(lia) Hm Hex) as (nodes & cost & E & Hn).
    by exists nodes, cost.
  - apply start_ok.
  - done.
  - lia.
  - change (2 ^ 1) with 2 in E. rewrite E, res_bind_ret. destruct (use_level_spec s Hs) as (t & -> & HR & Ht). rewrite res_bind_ret.
    pose proof Hs as (Hp & Hb & _). pose proof (remarked_planned _ _ HR Hp) as Hpt. pose proof (pl_levels _ Hp).
    destruct (merge_nodes_spec (Z.to_nat (best_level s)) count total_keys (Z.to_nat (best_level s)) (best_cost s) t Hpt) as (t' & cost' & -> & HR' & Ht'); [rewrite (proj1 HR); lia|done|done|].
    rewrite res_bind_ret. eexists _, _, _. split; [done|]. split; [lia|]. pose proof (collect_spec (Z.to_nat (best_level s)) t') as Hc.
    rewrite Z2Nat.id in Hc by lia. apply Hc; [by eapply remarked_planned|rewrite (proj1 HR'), (proj1 HR); lia|done].
Qed.
End plan.
