(* ===== verification/AlexLoad.v ===== *)
(** * ALEX: loading a node

    [bulk_load_node] turns sorted values into a subtree: the parts a fanout
    search picks become its children, and each key is in the leaf the models
    lead to. *)
From S2P Require Import Prelude Ieee AlexBase AlexNode AlexOps AlexInv AlexBuild AlexCost AlexFanout AlexTree AlexTreeOps AlexRoute AlexTreeInv AlexTreeOk AlexTreeLookup AlexLink AlexSubtree AlexReplace AlexSplit AlexScale AlexGrow AlexLevel AlexPlan.

(** ** A node changed, and nothing below it *)
Section top.
Implicit Types (h : heap_t) (s : Alex) (p q c key : Z) (ls : list Z) (d fuel : nat) (n : AlexTreeNode).

Definition same_body n n' : Prop :=
  match n, n' with
  | DataNode l, DataNode l' => True
  | ModelN m, ModelN m' => mn_model m' = mn_model m ∧ num_children_ m' = num_children_ m ∧ children_ m' = children_ m
  | _, _ => False
  end.

Lemma below_some d h top p ls q : covers d h top p ls → below d h p q → is_Some (h !! q).
Proof. intros Hc Hb. destruct (below_covers _ _ _ _ _ _ Hc Hb) as (lq & Hq & _). destruct d; [done|]. cbn [covers] in Hq. by destruct (h !! q). Qed.
Lemma below_self d h top p ls : covers d h top p ls → below d h p p.
Proof. destruct d; [done|]. by left. Qed.

Lemma agree_same d h h' p : (∀ q, below d h p q → h' !! q = h !! q) → agree d h h' p.
Proof. intros Hs q Hq. rewrite (Hs q Hq). destruct (h !! q) as [[]|]; by constructor. Qed.
Lemma below_same d h h' : ∀ p, (∀ q, below d h p q → h' !! q = h !! q) → ∀ q, below d h' p q → below d h p q.
Proof.
  induction d as [|d IH]; intros p Hs q; [done|]. cbn [below]. intros [->|Hb]; [by left|right]. rewrite (Hs p) in Hb by by left.
  destruct (h !! p) as [[l|m]|] eqn:Ep; [done| |done]. destruct Hb as (c & Hc & Hb). exists c. split; [done|]. apply IH; [|done].
  intros x Hx. apply Hs. right. rewrite Ep. by exists c.
Qed.

Lemma child_same d h h' top p m ls c : covers (S d) h top p ls → h !! p = Some (ModelN m) → Some c ∈ children_ m →
  (∀ q, q ≠ p → below (S d) h p q → h' !! q = h !! q) → ∀ q, below d h c q → h' !! q = h !! q.
Proof.
  intros Hc Ep Hin Hs q Hq. apply Hs; [intros ->; exact (covers_acyclic _ _ _ _ _ _ _ _ Hc Ep Hin Hq)|].
  right. rewrite Ep. by exists c.
Qed.

Lemma covers_top d h h' top p ls n n' : covers d h top p ls → h !! p = Some n → h' !! p = Some n' → same_body n n' →
  (∀ q, q ≠ p → below d h p q → h' !! q = h !! q) → covers d h' top p ls.
Proof.
  intros Hc En En' Hb Hs. destruct d as [|d]; [done|]. pose proof Hc as Hc0. cbn [covers] in Hc |- *. rewrite En in Hc. rewrite En'.
  destruct n as [l|m], n' as [l'|m']; [done|done|done|]. destruct Hb as (Em & Enum & Ech).
  destruct Hc as (Hm & rs & Hne & Ec & Hw & Els & Hal & Hf). split; [unfold model_ok in *; by rewrite Em|]. exists rs. rewrite Ech, Enum.
  do 5 (split; [done|]). apply list.Forall_forall. intros r Hr. rewrite list.Forall_forall in Hf. destruct (Hf r Hr) as (Hcov & Hd & x & Ex & Hx).
  assert (Some (run_child r) ∈ children_ m) as Hin by (rewrite Ec; by apply run_child_in).
  pose proof (child_same d h h' top p m ls (run_child r) Hc0 En Hin Hs) as Hsame.
  split; [eapply covers_frame; [done|by apply agree_same]|]. split; [done|]. exists x. split; [|done]. rewrite Hsame; [done|]. by eapply below_self.
Qed.

Lemma below_top d h h' top p ls n n' : covers d h top p ls → h !! p = Some n → h' !! p = Some n' → same_body n n' →
  (∀ q, q ≠ p → below d h p q → h' !! q = h !! q) → ∀ q, below d h' p q → below d h p q.
Proof.
  intros Hc En En' Hb Hs q. destruct d as [|d]; [done|]. cbn [below]. intros [->|Hq]; [by left|right]. rewrite En' in Hq. rewrite En.
  destruct n as [l|m], n' as [l'|m']; [done..|]. destruct Hb as (_ & _ & Ech). destruct Hq as (c & Hin & Hq). rewrite Ech in Hin.
  exists c. split; [done|]. apply (below_same d h h'); [|done]. by apply (child_same d h h' top p m ls).
Qed.

Lemma reach_top d s s' top p ls n n' fuel key : covers d (heap s) top p ls → heap s !! p = Some n → heap s' !! p = Some n' → same_body n n' →
  (∀ q, q ≠ p → below d (heap s) p q → heap s' !! q = heap s !! q) → (d ≤ fuel)%nat → reach fuel key p s' = reach fuel key p s.
Proof.
  intros Hc En En' Hb Hs Hf. destruct d as [|d]; [done|]. destruct fuel as [|fuel]; [lia|]. pose proof Hc as Hc0. cbn [covers] in Hc. rewrite En in Hc.
  destruct n as [l|m], n' as [l'|m']; [|done|done|].
  - by rewrite (reach_data _ _ _ _ _ En), (reach_data _ _ _ _ _ En').
  - destruct Hb as (Em & Enum & Ech). destruct Hc as (Hm & rs & Hne & Ec & Hw & _ & _ & Hf0).
    assert (Forall (λ r, 0 ≤ run_dup r) rs) as Hd by (eapply Forall_impl; [exact Hf0|]; naive_solver).
    destruct (key_run top m rs key Hm Hne Hw Hd) as (ra & r & rb & E & Hr). assert (r ∈ rs) as Hin by (rewrite E; set_solver).
    rewrite list.Forall_forall in Hf0. destruct (Hf0 r Hin) as (Hcov & Hdr & _). pose proof (child_at m rs ra r rb _ Ec E Hdr Hr) as Hch.
    rewrite (reach_model _ _ _ _ _ _ En Hch).
    assert (child (bucket_of key m') m' = Ret (run_child r)) as Hch' by (unfold child, bucket_of; rewrite Em, Enum, Ech; exact Hch).
    rewrite (reach_model _ _ _ _ _ _ En' Hch'). apply (reach_frame d s s' top key _ _ fuel Hcov); [|lia].
    apply agree_same. apply (child_same d (heap s) (heap s') top p m ls _ Hc0 En); [|done]. rewrite Ec. by apply run_child_in.
Qed.
End top.

(** ** What loading needs of the models *)
Section loadable.
Context (log2 : double → double) (max_fanout max_data_node_slots : Z) (expected_insert_frac : double)
  (approximate_model_computation : bool) (top D total_keys : Z).
Implicit Types (values : list (Z * Z)) (nm : LinearModel) (cost : double).

Definition exact_check c values m fanout : bool :=
  forallb (λ j, forallb (λ k,
    match key_less c k (bucket_boundary j m) with
    | Ret less => negb less || bool_decide (predict k m < j)
    | _ => false
    end) values.*1) (seqZ 1 (fanout - 1)).
(** Every model is monotone, fits an [int], and cuts the keys where it predicts
    them, with up to [2 ^ D] buckets. *)
Definition ready_check values nm : bool :=
  bool_decide (0 ≤ D ≤ 30 ∧ steers top nm ∧ normal_slope nm) &&
  forallb (λ level, let m := expand (d_of_Z (2 ^ level)) nm in bool_decide (steers top m) && exact_check AlexCompare values m (2 ^ level)) (seqZ 1 D).
Lemma exact_check_sound c values m fanout : exact_check c values m fanout = true → exact values c m fanout.
Proof.
  unfold exact_check. rewrite forallb_spec. intros H j k Hj Hin. specialize (H j). rewrite elem_of_seqZ in H. specialize (H ltac:(lia)).
  rewrite forallb_spec in H. specialize (H k Hin). destruct (key_less c k _) as [less| |]; [|done..].
  exists less. split; [done|]. intros ->. by apply bool_decide_eq_true in H.
Qed.
Lemma ready_check_sound values nm : ready_check values nm = true → ready top values nm D.
Proof.
  unfold ready_check. intros [(HD & Hs & Hn)%bool_decide_eq_true H]%andb_true_iff. rewrite forallb_spec in H. constructor; [done..|].
  intros level Hl. specialize (H level). rewrite elem_of_seqZ in H. specialize (H ltac:(lia)).
  apply andb_true_iff in H as [Hm%bool_decide_eq_true He]. split; [done|by apply exact_check_sound].
Qed.

(** The model of a part of [repeats] buckets from [cur] on. *)
Definition part_model nm fanout cur repeats : LinearModel :=
  let boundary x := d_div (d_sub (d_div (d_of_Z x) (d_of_Z fanout)) (b_ nm)) (a_ nm) in
  let left_boundary := boundary cur in
  let a := d_div (d_of_Z 1) (d_sub (boundary (cur + repeats)) left_boundary) in
  mkModel a (d_mul (SFopp a) left_boundary).
Fixpoint all_parts (rec : list (Z * Z) → LinearModel → double → bool) values nm depth cur (ts : list FTNode) : bool :=
  match ts with
  | [] => true
  | t :: ts =>
      let repeats := 2 ^ (depth - ft_level t) in
      rec (slice values (ft_left_boundary t) (ft_right_boundary t)) (part_model nm (2 ^ depth) cur repeats) (ft_cost t) &&
      all_parts rec values nm depth (cur + repeats) ts
  end.

Definition one_leaf values nm cost : bool :=
  fits max_data_node_slots (Z.of_nat (length values)) && (d_lt cost kNodeLookupsWeight || SFeqb (a_ nm) (d_of_Z 0)).
(** The parts of a node, the depth of their level and whether it was forced,
    [None] for a leaf. *)
Definition plan_of values nm cost : res (option (list FTNode * Z * bool)) :=
  let num_keys := Z.of_nat (length values) in
  let* (used, depth, tree_cost) :=
    find_best_fanout_bottom_up log2 values num_keys nm cost total_keys max_fanout (max_data_node_keys max_data_node_slots)
      expected_insert_frac approximate_model_computation in
  if d_lt tree_cost cost || negb (fits max_data_node_slots num_keys) then
    if bool_decide (depth = 0) then
      let depth := d_to_int (log2 (d_div (d_of_Z num_keys) (d_of_Z max_data_node_slots))) + 1 in
      let* (nodes, _) := compute_level log2 StdLess values num_keys nm total_keys depth (max_data_node_keys max_data_node_slots)
                           expected_insert_frac approximate_model_computation in
      Ret (Some (nodes, depth, true))
    else Ret (Some (used, depth, false))
  else Ret None.

(** The recursion of [bulk_load_node] ends, and each of its models is ready. *)
Fixpoint loadable (fuel : nat) values nm cost : bool :=
  match fuel with
  | O => false
  | S fuel =>
      let leaf_size := bool_decide (Z.of_nat (length values) ≤ 2 ^ 26) in
      if one_leaf values nm cost then leaf_size
      else
        bool_decide (Z.of_nat (length values) ≤ 2 ^ 31) && ready_check values nm &&
        match plan_of values nm cost with
        | Ret None => leaf_size
        | Ret (Some (used, depth, forced)) =>
            bool_decide (1 ≤ depth ≤ D) &&
            (negb forced || exact_check StdLess values (expand (d_of_Z (2 ^ depth)) nm) (2 ^ depth)) &&
            all_parts (loadable fuel) values nm depth 0 used
        | _ => false
        end
  end.
End loadable.

(** ** The heap while nodes are added *)
Record extends (s s' : Alex) : Prop := {
  ex_next : next_addr s ≤ next_addr s';
  ex_old q : q < next_addr s → heap s' !! q = heap s !! q;
  ex_free q : next_addr s' ≤ q → heap s' !! q = None;
  ex_models q m : next_addr s ≤ q → heap s' !! q = Some (ModelN m) →
    (∃ e, 0 ≤ e < 31 ∧ num_children_ m = 2 ^ e) ∧ ∀ c, Some c ∈ children_ m → c < next_addr s';
  ex_same : root_node_ s' = root_node_ s ∧ superroot_ s' = superroot_ s ∧ istats_ s' = istats_ s ∧
    stat_num_keys (stats_ s') = stat_num_keys (stats_ s)
}.
Lemma extends_refl s : (∀ q, next_addr s ≤ q → heap s !! q = None) → extends s s.
Proof. intros Hf. constructor; [lia|done|done| |done]. intros q m Hq E. by rewrite Hf in E. Qed.
Lemma extends_trans s1 s2 s3 : extends s1 s2 → extends s2 s3 → extends s1 s3.
Proof.
  intros [N1 O1 F1 M1 (A1 & B1 & C1 & D1)] [N2 O2 F2 M2 (A2 & B2 & C2 & D2)]. constructor; [lia| |done| |].
  - intros q Hq. rewrite O2 by lia. by apply O1.
  - intros q m Hq E. destruct (Z.lt_ge_cases q (next_addr s2)) as [Hlt|Hge]; [|by apply M2 in E].
    rewrite O2 in E by done. destruct (M1 q m Hq E) as [He Hc]. split; [done|]. intros c Hin. specialize (Hc c Hin). lia.
  - repeat split; congruence.
Qed.
(** A new node changed where it is, or added. *)
Lemma extends_node s s' q n : extends s s' → next_addr s ≤ q < next_addr s' →
  (∀ m, n = ModelN m → (∃ e, 0 ≤ e < 31 ∧ num_children_ m = 2 ^ e) ∧ ∀ c, Some c ∈ children_ m → c < next_addr s') → extends s (set_node q n s').
Proof.
  intros [N O F M S] Hq Hn. constructor; [done| | | |done]; cbn.
  - intros x Hx. rewrite lookup_insert_ne by lia. by apply O.
  - intros x Hx. rewrite lookup_insert_ne by lia. by apply F.
  - intros x m Hx. destruct (decide (x = q)) as [->|Hne]; [rewrite lookup_insert_eq; intros [= E]; by apply Hn|].
    rewrite lookup_insert_ne by done. by apply M.
Qed.
Lemma extends_alloc s n : (∀ q, next_addr s ≤ q → heap s !! q = None) →
  (∀ m, n = ModelN m → (∃ e, 0 ≤ e < 31 ∧ num_children_ m = 2 ^ e) ∧ ∀ c, Some c ∈ children_ m → c < next_addr s + 1) →
  extends s (alloc_node n s).2.
Proof.
  intros Hf Hn. constructor; cbn; [lia| | | |done].
  - intros q Hq. rewrite lookup_insert_ne by lia. done.
  - intros q Hq. rewrite lookup_insert_ne by lia. apply Hf. lia.
  - intros q m Hq. destruct (decide (q = next_addr s)) as [->|Hne]; [rewrite lookup_insert_eq; intros [= E]; by apply Hn|].
    rewrite lookup_insert_ne by done. by rewrite Hf.
Qed.
Lemma extends_stats x y s s' : extends (add_nodes x y s) s' → extends s s'.
Proof. intros [N O F M S]. by constructor. Qed.

Lemma leaf_below_root d h top : ∀ p ls q, covers d h top p ls → q ∈ ls → below d h p q.
Proof.
  induction d as [|d IH]; intros p ls q Hc Hq; [done|]. cbn [covers below] in *. destruct (h !! p) as [[l|m]|]; [|right|done].
  - left. set_solver.
  - destruct Hc as (_ & rs & _ & Ec & _ & -> & _ & Hf). apply list_elem_of_bind in Hq as (r & Hq & Hr).
    rewrite list.Forall_forall in Hf. destruct (Hf r Hr) as (Hcov & Hd & _). exists (run_child r). split; [rewrite Ec; by apply run_child_in|by eapply IH].
Qed.

(** A leaf that is not linked yet. *)
Definition fresh_leaf (l : Leaf) : Prop := node_wf (data l) ∧ prev_leaf_ l = 0 ∧ next_leaf_ l = 0.

(** A subtree that was added. *)
Record loaded (top : Z) (d : nat) (s s' : Alex) (p : Z) (ls : list Z) (vs : list (Z * Z)) : Prop := {
  ld_extends : extends s s';
  ld_covers : covers d (heap s') top p ls;
  ld_below q : below d (heap s') p q → next_addr s ≤ q < next_addr s';
  ld_nodup : NoDup ls;
  ld_wf q l : q ∈ ls → heap s' !! q = Some (DataNode l) → fresh_leaf l;
  ld_pairs : pairs (heap s') ls = vs;
  ld_routed q k : q ∈ ls → k ∈ (leaf_pairs (heap s') q).*1 → reach d k p s' = Ret q;
  ld_dup : duplication_factor_ <$> heap s' !! p = Some 0
}.

Section load.
Context (junk : Z → Z) (log2 : double → double) (max_fanout max_data_node_slots : Z) (expected_insert_frac : double)
  (approximate_model_computation : bool) (top D total_keys : Z).
Context (H64 : top < 2 ^ 64) (HD : max_fanout < 2 ^ (D + 1)).
Implicit Types (s : Alex) (values vs : list (Z * Z)) (nm : LinearModel) (cost : double) (p q c k : Z) (ls : list Z) (rs : list run).
Local Abbreviation load_node := (bulk_load_node junk log2 max_fanout max_data_node_slots expected_insert_frac approximate_model_computation).
Local Abbreviation free s := (∀ q, next_addr s ≤ q → heap s !! q = None).

Lemma load_leaf_spec d vs level cost data_model s : keys_ok vs → Z.of_nat (length vs) ≤ 2 ^ 26 → free s →
  ∃ p s' ls, load_leaf junk max_data_node_slots approximate_model_computation vs (Z.of_nat (length vs)) level cost data_model s = Ret (p, s') ∧
    loaded top (S d) s s' p ls vs.
Proof.
  intros Hk Hl Hf. unfold load_leaf.
  destruct (bulk_load_spec junk vs data_model approximate_model_computation (node_new max_data_node_slots) Hk) as (n & -> & Hwf & Hc & _).
  { apply capacity_for_bound; [lia|apply init_density_within]. }
  rewrite res_bind_ret. set (l := mkLeaf (with_cost cost n) 0 0 level 0). set (s' := (alloc_node (DataNode l) (add_nodes 0 1 s)).2).
  exists (next_addr s), s', [next_addr s]. split; [done|]. assert (heap s' !! next_addr s = Some (DataNode l)) as E by apply lookup_insert_eq.
  assert (node_wf (with_cost cost n)) as Hwf' by (destruct Hwf as [[] Ht]; split; [by constructor|done]).
  constructor.
  - apply (extends_stats 0 1), extends_alloc; done.
  - cbn [covers]. by rewrite E.
  - intros q. cbn [below]. rewrite E. intros [<-|[]]. cbn. lia.
  - apply NoDup_singleton.
  - intros q l' ->%list_elem_of_singleton. rewrite E. by intros [= <-].
  - unfold pairs, leaf_pairs. cbn [mbind list_bind]. by rewrite E, app_nil_r.
  - intros q k ->%list_elem_of_singleton _. by apply (reach_data _ _ _ _ l).
  - by rewrite E.
Qed.

(** One part of a node. *)
Definition load_part (fuel : nat) values nm level depth model_node (t : FTNode) (acc : Alex * Z) : res (Alex * Z) :=
  let '(s, cur) := acc in
  let fanout := Z.shiftl 1 depth in
  let dup := u8 (depth - ft_level t) in
  let repeats := Z.shiftl 1 dup in
  let part := slice values (ft_left_boundary t) (ft_right_boundary t) in
  let* (c, s) :=
    load_node fuel part (ft_right_boundary t - ft_left_boundary t) (part_model nm fanout cur repeats) (level + 1) (ft_cost t)
      total_keys (Some (mkModel (ft_a t) (ft_b t))) s in
  let* s := modify_node c (with_dup dup) s in
  let* n := get_node c s in
  let* s := match n with
            | DataNode _ => modify_leaf c (λ l, with_data (with_expected_of t (data l)) l) s
            | ModelN _ => Ret s
            end in
  let* s := set_children cur (cur + repeats) c model_node s in
  Ret (s, cur + repeats).
Definition load_parts (fuel : nat) values nm level depth model_node (ts : list FTNode) (acc : res (Alex * Z)) : res (Alex * Z) :=
  foldl (λ acc t, let* x := acc in load_part fuel values nm level depth model_node t x) acc ts.

(** The duplication factor and the expected costs of a child. *)
Lemma dress_spec c n dup t s : heap s !! c = Some n →
  ∃ n', (∀ (K : Alex → res (Alex * Z)),
          (let* s := modify_node c (with_dup dup) s in
           let* n := get_node c s in
           let* s := match n with DataNode _ => modify_leaf c (λ l, with_data (with_expected_of t (data l)) l) s | ModelN _ => Ret s end in
           K s) = K (set_node c n' s)) ∧ same_body n n' ∧ duplication_factor_ n' = dup ∧
    (∀ l', n' = DataNode l' → ∃ l, n = DataNode l ∧ contents (data l') = contents (data l) ∧ (fresh_leaf l → fresh_leaf l')).
Proof.
  intros E. assert (get_node c s = Ret n) as En by (unfold get_node; by rewrite E). unfold modify_node. setoid_rewrite En. setoid_rewrite res_bind_ret.
  assert (∀ x, get_node c (set_node c x s) = Ret x) as Hget by (intros x; unfold get_node; cbn; by rewrite lookup_insert_eq).
  destruct n as [l|m]; cbn [with_dup].
  - eexists. split.
    { intros K. rewrite Hget, res_bind_ret. unfold modify_leaf, get_data. rewrite Hget, !res_bind_ret. unfold set_data, set_node, with_heap. cbn [heap]. by rewrite insert_insert_eq. }
    split; [done|]. split; [done|]. intros l' [= <-]. exists l. split; [done|]. split; [done|]. intros ([[] Ht] & Hp & Hn). split; [split; [by constructor|done]|done].
  - eexists. split; [intros K; by rewrite Hget, !res_bind_ret|]. split; [done|]. split; [done|]. by intros l' [=].
Qed.

(** A node with the children of the parts loaded so far. *)
Record loading (f : nat) values (lm : LinearModel) fanout level s0 p0 rs cur s : Prop := {
  lg_extends : extends s0 s;
  lg_parent : next_addr s0 ≤ p0 < next_addr s ∧
    heap s !! p0 = Some (ModelN (mkModelNode lm fanout ((rs ≫= slots_of) ++ replicate (Z.to_nat (fanout - cur)) None) level 0));
  lg_width : width rs = cur ∧ aligned 0 rs;
  lg_runs : Forall (run_ok f (heap s) top) rs;
  lg_below r q : r ∈ rs → below f (heap s) (run_child r) q → p0 < q < next_addr s;
  lg_nodup : NoDup (rs ≫= run_leaves);
  lg_wf q l : q ∈ rs ≫= run_leaves → heap s !! q = Some (DataNode l) → fresh_leaf l;
  lg_pairs : pairs (heap s) (rs ≫= run_leaves) = take (Z.to_nat (cut values lm fanout cur)) values;
  lg_routed rs1 r rs2 q k : rs = rs1 ++ r :: rs2 → q ∈ run_leaves r → k ∈ (leaf_pairs (heap s) q).*1 →
    reach f k (run_child r) s = Ret q ∧ width rs1 ≤ bucket lm fanout k < width rs1 + repeats r
}.

Lemma keys_ok_app vs1 vs2 : keys_ok (vs1 ++ vs2) → keys_ok vs1 ∧ keys_ok vs2.
Proof.
  unfold keys_ok. rewrite fmap_app, Forall_app. intros [Hs [H1 H2]]. revert Hs H1 H2. generalize (vs1.*1) (vs2.*1). intros l1 l2 Hs H1 H2.
  assert (StronglySorted Z.le l1 ∧ StronglySorted Z.le l2) as [? ?]; [|done]. clear H1 H2.
  induction l1 as [|x l1 IH]; [split; [constructor|done]|]. cbn [app] in Hs. apply StronglySorted_inv in Hs as [Hs Hx].
  destruct (IH Hs) as [H1 H2]. split; [|done]. constructor; [done|]. by apply Forall_app in Hx as [? _].
Qed.
Lemma slice_split values a b : 0 ≤ a → a ≤ b → take (Z.to_nat b) values = take (Z.to_nat a) values ++ slice values a b ∧
  values = take (Z.to_nat a) values ++ slice values a b ++ drop (Z.to_nat b) values.
Proof.
  intros Ha Hb. unfold slice. assert (Z.to_nat b = Z.to_nat a + Z.to_nat (b - a))%nat as E by lia.
  assert (take (Z.to_nat b) values = take (Z.to_nat a) values ++ take (Z.to_nat (b - a)) (drop (Z.to_nat a) values)) as Et by (by rewrite take_take_drop, E).
  split; [done|]. by rewrite app_assoc, <- Et, take_drop.
Qed.
Lemma slice_ok values a b : keys_ok values → (∀ k, k ∈ values.*1 → k ≤ top) → 0 ≤ a → a ≤ b →
  keys_ok (slice values a b) ∧ ∀ k, k ∈ (slice values a b).*1 → k ≤ top.
Proof.
  intros Hk Ht Ha Hb. destruct (slice_split values a b Ha Hb) as [_ E]. rewrite E in Hk, Ht.
  apply keys_ok_app in Hk as [_ [Hk _]%keys_ok_app]. split; [done|]. intros k Hin. apply Ht. rewrite !fmap_app, !elem_of_app. tauto.
Qed.

(** The keys of a part are in its buckets. *)
Lemma slice_bucket values nm level cur w k : keys_ok values → (∀ k, k ∈ values.*1 → k ≤ top) → let lm := expand (d_of_Z (2 ^ level)) nm in
  steers top lm → 0 ≤ w → k ∈ (slice values (cut values lm (2 ^ level) cur) (cut values lm (2 ^ level) (cur + w))).*1 →
  cur ≤ bucket lm (2 ^ level) k < cur + w.
Proof.
  intros Hk Ht lm Hs Hw (kv & -> & Hin)%list_elem_of_fmap. unfold slice in Hin. apply list_elem_of_lookup in Hin as (i & E).
  apply lookup_take_Some in E as [E Hi]. rewrite lookup_drop in E. pose proof (cut_range values lm (2 ^ level) cur) as Hr.
  pose proof (cut_at top values Hk Ht H64 lm (2 ^ level) cur _ kv Hs E) as H1. pose proof (cut_at top values Hk Ht H64 lm (2 ^ level) (cur + w) _ kv Hs E) as H2. lia.
Qed.

Lemma tiles_le values nm depth : ∀ ts cur, tiles values nm depth cur ts → cur ≤ 2 ^ depth.
Proof. induction ts as [|t ts IH]; intros cur; cbn [tiles]; [lia|]. intros (Hl & _ & _ & _ & H%IH). assert (0 < 2 ^ (depth - ft_level t)) by lia. lia. Qed.

Section part.
Context (f : nat) (values : list (Z * Z)) (nm : LinearModel) (depth level : Z) (s0 : Alex) (p0 : Z).
Context (Hk : keys_ok values) (Ht : ∀ k, k ∈ values.*1 → k ≤ top) (Hready : ready top values nm D) (Hdepth : 1 ≤ depth ≤ D).
Local Abbreviation fanout := (2 ^ depth).
Local Abbreviation lm := (expand (d_of_Z (2 ^ depth)) nm).
Local Abbreviation loadable := (loadable log2 max_fanout max_data_node_slots expected_insert_frac approximate_model_computation top D total_keys).
Context (IH : ∀ vs nm level cost dm s, keys_ok vs → (∀ k, k ∈ vs.*1 → k ≤ top) → loadable f vs nm cost = true → free s →
  ∃ p s' ls, load_node f vs (Z.of_nat (length vs)) nm level cost total_keys dm s = Ret (p, s') ∧ loaded top f s s' p ls vs).

Lemma load_part_spec rs cur s t : loading f values lm fanout level s0 p0 rs cur s → 0 ≤ cur → let w := 2 ^ (depth - ft_level t) in
  0 ≤ ft_level t ≤ depth → cur mod w = 0 → ft_left_boundary t = level_cut values nm depth cur →
  ft_right_boundary t = level_cut values nm depth (cur + w) → cur + w ≤ fanout →
  loadable f (slice values (ft_left_boundary t) (ft_right_boundary t)) (part_model nm fanout cur w) (ft_cost t) = true →
  ∃ r s', load_part f values nm level depth p0 t (s, cur) = Ret (s', cur + w) ∧ loading f values lm fanout level s0 p0 (rs ++ [r]) (cur + w) s'.
Proof.
  intros Hlg Hcur w Hlev Hmod Hleft Hright Hfit Hload. pose proof Hlg as [Hex [Hp0 Ep0] [Hw Hal] Hruns Hbelow Hnd Hwf Hpairs Hrouted].
  destruct (rd_level _ _ _ _ Hready depth Hdepth) as [Hst _]. pose proof (rd_depth _ _ _ _ Hready) as HD30. assert (0 < w) as Hw0 by (unfold w; lia).
  change (level_cut values nm depth) with (cut values lm fanout) in Hleft, Hright. rewrite Hleft, Hright in Hload.
  set (a := cut values lm fanout cur) in *. set (b := cut values lm fanout (cur + w)) in *.
  assert (0 ≤ a ∧ a ≤ b ∧ b ≤ Z.of_nat (length values)) as (Ha & Hab & Hb).
  { pose proof (cut_range values lm fanout cur). pose proof (cut_range values lm fanout (cur + w)).
    pose proof (cut_mono values lm fanout cur (cur + w) ltac:(lia)). unfold count in *. lia. }
  set (part := slice values a b) in *. assert (Z.of_nat (length part) = b - a) as Elen by by apply slice_length.
  destruct (slice_ok values a b Hk Ht Ha Hab) as [Hkp Htp]. fold part in Hkp, Htp.
  destruct (IH part (part_model nm fanout cur w) (level + 1) (ft_cost t) (Some (mkModel (ft_a t) (ft_b t))) s Hkp Htp Hload (ex_free _ _ Hex))
    as (c & s2 & ls & E2 & [Hex2 Hcov2 Hb2 Hnd2 Hwf2 Hp2 Hr2 Hd2]).
  assert (u8 (depth - ft_level t) = depth - ft_level t) as Eu by (apply Z.mod_small; lia).
  destruct (heap s2 !! c) as [n|] eqn:Ec; [|done]. pose proof (Hb2 c (below_self _ _ _ _ _ Hcov2)) as Hc.
  destruct (dress_spec c n (depth - ft_level t) t s2 Ec) as (n' & Edress & Hsb & Hdup & Hdata).
  pose proof (ex_next _ _ Hex2) as Hn2. assert (c ≠ p0) as Hcp by lia.
  set (s3 := set_node c n' s2) in *. assert (heap s3 !! p0 = heap s !! p0) as E3 by (cbn; rewrite lookup_insert_ne by lia; apply (ex_old _ _ Hex2); lia). rewrite Ep0 in E3.
  set (old := (rs ≫= slots_of) ++ replicate (Z.to_nat (fanout - cur)) None) in *.
  set (r := mkRun c (depth - ft_level t) ls). assert (repeats r = w) as Er by done.
  assert (Z.of_nat (length (rs ≫= slots_of)) = cur) as Elr by done.
  assert (overwrite cur (cur + w) c old = ((rs ++ [r]) ≫= slots_of) ++ replicate (Z.to_nat (fanout - (cur + w))) None) as Eover.
  { unfold old. rewrite overwrite_tail by lia. rewrite bind_app. cbn [mbind list_bind]. rewrite app_nil_r. unfold slots_of at 3. rewrite Er.
    replace (cur + w - cur) with w by lia. do 2 f_equal. lia. }
  assert (length old = Z.to_nat fanout) as Elold by (unfold old; rewrite length_app, length_replicate; lia).
  pose proof (set_children_spec cur (cur + w) c p0 _ s3 E3) as Eset. cbn [children_] in Eset. rewrite Elold in Eset. specialize (Eset ltac:(lia) ltac:(lia) ltac:(lia)).
  set (m' := with_children _ _) in Eset. set (s' := set_model p0 m' s3) in *.
  assert (heap s' !! p0 = Some (ModelN m')) as Ep' by apply lookup_insert_eq.
  assert (heap s' !! c = Some n') as Ec' by (unfold s'; cbn; rewrite lookup_insert_ne by done; apply lookup_insert_eq).
  assert (∀ q, q ≠ p0 → q ≠ c → heap s' !! q = heap s2 !! q) as Hsame by (intros q H1 H2; unfold s', s3; cbn; by rewrite !lookup_insert_ne).
  assert (∀ q, p0 < q < next_addr s → heap s' !! q = heap s !! q) as Hkeep by (intros q Hq; rewrite Hsame by lia; apply (ex_old _ _ Hex2); lia).
  assert (∀ r', r' ∈ rs → ∀ q, below f (heap s) (run_child r') q → heap s' !! q = heap s !! q) as Hkeepr by (intros r' Hr' q Hq; apply Hkeep; by apply (Hbelow r')).
  assert (∀ q, q ≠ c → below f (heap s2) c q → heap s' !! q = heap s2 !! q) as Hnew by (intros q Hq Hbq; apply Hsame; [specialize (Hb2 q Hbq); lia|done]).
  assert (∀ q, q ∈ rs ≫= run_leaves → heap s' !! q = heap s !! q) as Hoq.
  { intros q (r' & Hq & Hr')%list_elem_of_bind. rewrite list.Forall_forall in Hruns. apply (Hkeepr r' Hr'). destruct (Hruns r' Hr') as (Hcv & _). by eapply leaf_below_root. }
  assert (∀ q, q ∈ ls → leaf_pairs (heap s') q = leaf_pairs (heap s2) q ∧ ∀ l', heap s' !! q = Some (DataNode l') → fresh_leaf l') as Hnq.
  { intros q Hq. pose proof (leaf_below_root _ _ _ _ _ _ Hcov2 Hq) as Hbq. destruct (covers_leaf _ _ _ _ _ q Hcov2 Hq) as (l & El).
    destruct (decide (q = c)) as [->|Hne].
    - assert (n = DataNode l) as -> by congruence. destruct n' as [l'|]; [|done]. destruct (Hdata l' eq_refl) as (l0 & [= <-] & Hcont & Hwfl).
      unfold leaf_pairs. rewrite Ec', Ec. split; [done|]. intros l1 [= <-]. apply Hwfl. by apply (Hwf2 c).
    - unfold leaf_pairs. rewrite (Hnew q Hne Hbq). split; [done|]. intros l'. by apply Hwf2. }
  exists r, s'. split.
  { unfold load_part. rewrite !Z.shiftl_1_l, Eu, Hleft, Hright. fold w part. rewrite Elen in E2. rewrite E2, res_bind_ret.
    rewrite Edress. rewrite Eset, res_bind_ret. done. }
  assert (next_addr s' = next_addr s2) as En' by done.
  assert (extends s0 s2) as Hex02 by by eapply extends_trans.
  assert (∀ r' q, r' ∈ rs → below f (heap s') (run_child r') q → below f (heap s) (run_child r') q) as Hbr.
  { intros r' q Hr' Hq. apply (below_same f (heap s) (heap s')); [by apply Hkeepr|done]. }
  assert (Forall (λ r, 0 ≤ run_dup r) rs) as Hdups by (eapply Forall_impl; [exact Hruns|]; by intros ? (_ & ? & _)).
  assert (∀ x, Some x ∈ children_ m' → x < next_addr s2) as Hch.
  { intros x Hx. unfold m' in Hx. cbn [children_ with_children] in Hx. rewrite Eover in Hx. apply elem_of_app in Hx as [Hx|[[=] _]%elem_of_replicate].
    apply run_of_child in Hx as (r' & [Hr'| ->%list_elem_of_singleton]%elem_of_app & <-); [|cbn; lia].
    rewrite list.Forall_forall in Hruns. destruct (Hruns r' Hr') as (Hcv & _). specialize (Hbelow r' _ Hr' (below_self _ _ _ _ _ Hcv)). lia. }
  constructor.
  - apply (extends_node s0 s3 p0); [apply (extends_node s0 s2 c); [done|pose proof (ex_next _ _ Hex); lia|]|change (next_addr s3) with (next_addr s2); lia|].
    + intros m1 ->. destruct n as [|m0]; [done|]. destruct Hsb as (_ & Hnc & Hcc). destruct (ex_models _ _ Hex2 c m0) as [He Hcs]; [lia|done|].
      split; [by rewrite Hnc|by rewrite Hcc].
    + intros m1 [= <-]. split; [exists depth; split; [lia|done]|done].
  - split; [lia|]. rewrite Ep'. unfold m', with_children. cbn [mn_model num_children_ children_ mn_level_ mn_duplication_factor_]. by rewrite Eover.
  - rewrite width_app, width_cons, width_nil, Er, Hw by (cbn; lia). split; [lia|]. apply aligned_app; [done|]. split; [done|].
    cbn [aligned]. by rewrite Er, Z.add_0_l, Hw.
  - apply Forall_app. split; [|apply Forall_singleton].
    + apply list.Forall_forall. intros r' Hr'. rewrite list.Forall_forall in Hruns. destruct (Hruns r' Hr') as (Hcv & Hd & x & Ex & Hx).
      split; [eapply covers_frame; [done|apply agree_same; by apply Hkeepr]|]. split; [done|]. exists x. split; [|done].
      rewrite (Hkeepr r' Hr'); [done|]. by eapply below_self.
    + split; [by apply (covers_top f (heap s2) (heap s') top c ls n n')|]. split; [cbn; lia|]. by exists n'.
  - intros r' q [Hr'| ->%list_elem_of_singleton]%elem_of_app Hq.
    + specialize (Hbelow r' q Hr' (Hbr r' q Hr' Hq)). lia.
    + apply (below_top f (heap s2) (heap s') top c ls n n') in Hq; [|done..]. specialize (Hb2 q Hq). lia.
  - rewrite bind_app. cbn [mbind list_bind]. rewrite app_nil_r. apply NoDup_app. split; [done|]. split; [|done].
    intros q (r' & Hq & Hr')%list_elem_of_bind Hq2. rewrite list.Forall_forall in Hruns. destruct (Hruns r' Hr') as (Hcv & _).
    specialize (Hbelow r' q Hr' (leaf_below_root _ _ _ _ _ _ Hcv Hq)). specialize (Hb2 q (leaf_below_root _ _ _ _ _ _ Hcov2 Hq2)). lia.
  - intros q l. rewrite bind_app. cbn [mbind list_bind]. rewrite app_nil_r. intros [Hq|Hq]%elem_of_app; [rewrite Hoq by done; by apply Hwf|by apply Hnq].
  - rewrite bind_app, pairs_app. cbn [mbind list_bind]. rewrite app_nil_r. fold b. rewrite (proj1 (slice_split values a b Ha Hab)). f_equal.
    + rewrite <- Hpairs. apply pairs_ext. intros q Hq. unfold leaf_pairs. by rewrite Hoq.
    + transitivity (pairs (heap s2) ls); [|exact Hp2]. apply pairs_ext. intros q Hq. by apply Hnq.
  - intros rs1 r' rs2 q k Ers Hq Hkq. destruct rs2 as [|z rs2 _] using rev_ind.
    + apply app_inj_tail in Ers as [<- <-]. change (run_leaves r) with ls in Hq. change (run_child r) with c. destruct (Hnq q Hq) as [Elp _]. rewrite Elp in Hkq.
      rewrite (reach_top f s2 s' top c ls n n' f k) by done. split; [by apply Hr2|]. rewrite Hw, Er.
      apply (slice_bucket values nm depth cur w k Hk Ht Hst ltac:(lia)). change (k ∈ part.*1). rewrite <- Hp2. unfold pairs.
      apply list_elem_of_fmap in Hkq as (kv & -> & Hkv). apply list_elem_of_fmap_2, list_elem_of_bind. by exists q.
    + rewrite app_comm_cons, app_assoc in Ers. apply app_inj_tail in Ers as [Ers _]. assert (r' ∈ rs) as Hr' by (rewrite Ers; set_solver).
      assert (leaf_pairs (heap s') q = leaf_pairs (heap s) q) as Elp by (unfold leaf_pairs; rewrite Hoq; [done|apply list_elem_of_bind; by exists r']).
      rewrite Elp in Hkq. destruct (Hrouted rs1 r' rs2 q k Ers Hq Hkq) as [Hre Hbk]. split; [|done]. rewrite <- Hre.
      rewrite list.Forall_forall in Hruns. destruct (Hruns r' Hr') as (Hcv & _). apply (reach_frame f s s' top k _ _ f Hcv); [|done].
      apply agree_same. by apply Hkeepr.
Qed.

Lemma load_parts_spec : ∀ ts rs cur s, loading f values lm fanout level s0 p0 rs cur s → 0 ≤ cur → tiles values nm depth cur ts →
  all_parts (loadable f) values nm depth cur ts = true →
  ∃ rs' s', load_parts f values nm level depth p0 ts (Ret (s, cur)) = Ret (s', fanout) ∧ loading f values lm fanout level s0 p0 rs' fanout s'.
Proof.
  induction ts as [|t ts IHts]; intros rs cur s Hlg Hcur; cbn [tiles all_parts].
  - intros -> _. by exists rs, s.
  - intros (Hl & Hm & Hle & Hri & Hti) [Hload Hall]%andb_true_iff. pose proof (tiles_le values nm depth ts _ Hti) as Hfit.
    destruct (load_part_spec rs cur s t Hlg Hcur Hl Hm Hle Hri Hfit Hload) as (r & s' & E & Hlg').
    assert (0 < 2 ^ (depth - ft_level t)) by lia. destruct (IHts (rs ++ [r]) _ s' Hlg' ltac:(lia) Hti Hall) as (rs' & s2 & E2 & H2).
    exists rs', s2. split; [|done]. unfold load_parts in *. cbn [foldl]. rewrite res_bind_ret, E. exact E2.
Qed.
End part.

Lemma loading_start f values lm depth level s : free s → 0 ≤ depth < 31 → steers top lm →
  let p0 := next_addr s in
  let s1 := (alloc_node (ModelN (mkModelNode lm (2 ^ depth) (replicate (Z.to_nat (2 ^ depth)) None) level 0)) (add_nodes 1 0 s)).2 in
  loading f values lm (2 ^ depth) level s p0 [] 0 s1.
Proof.
  intros Hf Hd Hs p0 s1. constructor.
  - apply (extends_stats 1 0), extends_alloc; [done|]. intros m [= <-]. split; [by exists depth|]. cbn. intros c [[=] _]%elem_of_replicate.
  - split; [cbn; unfold p0; lia|]. rewrite Z.sub_0_r. apply lookup_insert_eq.
  - done.
  - constructor.
  - intros r q Hr. by apply not_elem_of_nil in Hr.
  - constructor.
  - intros q l Hq. by apply not_elem_of_nil in Hq.
  - rewrite cut_none by lia. done.
  - intros rs1 r rs2 q k E. by destruct rs1.
Qed.

(** All parts are loaded: the node covers them. *)
Lemma loading_done f values nm depth level s rs s' : let lm := expand (d_of_Z (2 ^ depth)) nm in 0 ≤ depth → steers top lm →
  loading f values lm (2 ^ depth) level s (next_addr s) rs (2 ^ depth) s' → loaded top (S f) s s' (next_addr s) (rs ≫= run_leaves) values.
Proof.
  intros lm Hd Hst [Hex [Hp0 Ep0] [Hw Hal] Hruns Hbelow Hnd Hwf Hpairs Hrouted]. rewrite Z.sub_diag in Ep0. change (replicate (Z.to_nat 0) None) with (@nil (option Z)) in Ep0. rewrite app_nil_r in Ep0.
  assert (0 < 2 ^ depth) as Hpos by lia. set (m := mkModelNode lm (2 ^ depth) (rs ≫= slots_of) level 0) in *.
  assert (Forall (λ r, 0 ≤ run_dup r) rs) as Hdups by (eapply Forall_impl; [exact Hruns|]; by intros ? (_ & ? & _)).
  assert (covers (S f) (heap s') top (next_addr s) (rs ≫= run_leaves)) as Hcov.
  { cbn [covers]. rewrite Ep0. split; [done|]. exists rs. split; [intros ->; rewrite width_nil in Hw; lia|]. by repeat split. }
  constructor; [done|done| |done|done| | |].
  - intros q. cbn [below]. rewrite Ep0. intros [<-|(c & Hc & Hq)]; [lia|]. apply run_of_child in Hc as (r & Hr & <-). specialize (Hbelow r q Hr Hq). lia.
  - rewrite Hpairs, (cut_all values lm (2 ^ depth)) by lia. unfold count. rewrite Nat2Z.id. by apply take_ge.
  - intros q k (r & Hq & Hr)%list_elem_of_bind Hk. apply list_elem_of_split in Hr as (rs1 & rs2 & E). destruct (Hrouted rs1 r rs2 q k E Hq Hk) as [Hre Hb].
    rewrite (reach_model f k (next_addr s) s' m (run_child r) Ep0); [done|]. apply (child_at m rs rs1 r rs2); [done|done| |exact Hb].
    rewrite E in Hdups. by apply Forall_app in Hdups as [_ [? _]%Forall_cons].
  - by rewrite Ep0.
Qed.

Lemma bulk_load_node_spec : ∀ f vs nm level cost dm s, keys_ok vs → (∀ k, k ∈ vs.*1 → k ≤ top) →
  loadable log2 max_fanout max_data_node_slots expected_insert_frac approximate_model_computation top D total_keys f vs nm cost = true → free s →
  ∃ p s' ls, load_node f vs (Z.of_nat (length vs)) nm level cost total_keys dm s = Ret (p, s') ∧ loaded top f s s' p ls vs.
Proof.
  induction f as [|f IH]; intros vs nm level cost dm s Hk Ht Hload Hf; [done|]. cbn [loadable bulk_load_node] in Hload |- *.
  fold (one_leaf max_data_node_slots vs nm cost). destruct (one_leaf max_data_node_slots vs nm cost).
  { apply load_leaf_spec; [done|by apply bool_decide_eq_true in Hload|done]. }
  apply andb_true_iff in Hload as [[Hlen%bool_decide_eq_true Hready%ready_check_sound]%andb_true_iff Hload].
  destruct (find_best_fanout_spec log2 top vs Hk Ht H64 Hlen nm D Hready (max_data_node_keys max_data_node_slots) expected_insert_frac
              approximate_model_computation max_fanout HD cost total_keys) as (ts & depth & tc & Efb & Hdepth & Hti).
  unfold plan_of in Hload. unfold count in Efb. rewrite Efb in Hload |- *. rewrite res_bind_ret in Hload. rewrite res_bind_ret.
  destruct (d_lt tc cost || negb (fits max_data_node_slots (Z.of_nat (length vs)))) eqn:Hcut.
  2: { apply load_leaf_spec; [done|by apply bool_decide_eq_true in Hload|done]. }
  match goal with |- context [mbind (M := res) ?g (if bool_decide (depth = 0) then ?x else Ret (ts, depth))] =>
    assert (∃ used depth', (if bool_decide (depth = 0) then x else Ret (ts, depth)) = Ret (used, depth') ∧ 1 ≤ depth' ≤ D ∧
      tiles vs nm depth' 0 used ∧ all_parts (loadable log2 max_fanout max_data_node_slots expected_insert_frac approximate_model_computation top D total_keys f)
        vs nm depth' 0 used = true) as (used & depth' & -> & Hd' & Hti' & Hall) end.
  { revert Hload. destruct (bool_decide (depth = 0)); intros Hload.
    - set (depth' := d_to_int _ + 1) in *. revert Hload. destruct (compute_level _ _ _ _ _ _ depth' _ _ _) as [[nodes cc]| |] eqn:Ecl; intros Hload; [|done..].
      rewrite res_bind_ret in Hload. rewrite res_bind_ret.
      apply andb_true_iff in Hload as [[Hd'%bool_decide_eq_true Hex%exact_check_sound]%andb_true_iff Hall].
      exists nodes, depth'. split; [done|]. split; [done|]. split; [|done]. destruct (rd_level _ _ _ _ Hready depth' Hd') as [Hst _].
      destruct (compute_level_spec log2 top vs Hk Ht H64 (max_data_node_keys max_data_node_slots) expected_insert_frac approximate_model_computation Hlen StdLess nm total_keys depth' ltac:(lia) Hst Hex)
        as (nodes' & cc' & E & Hn). unfold count in E. assert (nodes' = nodes) as -> by congruence. apply (level_tiles vs nm D); [lia|exact Hn].
    - apply andb_true_iff in Hload as [[Hd'%bool_decide_eq_true _]%andb_true_iff Hall]. by exists ts, depth. }
  rewrite res_bind_ret. destruct (rd_level _ _ _ _ Hready depth' Hd') as [Hst _]. pose proof (rd_depth _ _ _ _ Hready).
  pose proof (loading_start f vs _ depth' level s Hf ltac:(lia) Hst) as Hstart. cbv zeta in Hstart.
  destruct (load_parts_spec f vs nm depth' level s (next_addr s) Hk Ht Hready Hd' IH used [] 0 _ Hstart ltac:(lia) Hti' Hall) as (rs & s' & E & Hlg).
  exists (next_addr s), s', (rs ≫= run_leaves). split; [|by apply (loading_done f vs nm depth' level); [lia|..]].
  rewrite <- (Z.shiftl_1_l depth') in E. set (start := load_parts _ _ _ _ _ _ _ _) in E.
  transitivity (let* (x, _) := start in Ret (next_addr s, x)); [|by rewrite E, res_bind_ret]. unfold start. reflexivity.
Qed.
End load.
