(* ===== verification/AlexLinkAll.v ===== *)
(** * ALEX: linking all leaves

    [link_all_data_nodes] visits the nodes of a tree with a stack, a node before
    those below it, and links each leaf to the one before. *)
From S2P Require Import Prelude Ieee AlexBase AlexNode AlexOps AlexInv AlexBuild AlexCost AlexFanout AlexTree AlexRoute AlexTreeInv AlexTreeOk AlexLink AlexSubtree AlexReplace.

Section walk.
Implicit Types (h : heap_t) (s : Alex) (p q c cur prev top : Z) (ls stack : list Z) (d fuel : nat) (rs : list run) (m : ModelNode).

(** The children of a node, each once. *)
Lemma distinct_cons x (l : list (option Z)) :
  distinct_children (Some x :: l) = let* rest := distinct_children l in Ret (if bool_decide (head rest = Some x) then rest else x :: rest).
Proof. done. Qed.
Lemma distinct_run c k (rest : list (option Z)) xs : distinct_children rest = Ret xs → head xs ≠ Some c →
  distinct_children (replicate (S k) (Some c) ++ rest) = Ret (c :: xs).
Proof.
  intros E Hh. induction k as [|k IH].
  - cbn [replicate app]. by rewrite distinct_cons, E, res_bind_ret, bool_decide_eq_false_2.
  - change (replicate (S (S k)) (Some c) ++ rest) with (Some c :: (replicate (S k) (Some c) ++ rest)).
    by rewrite distinct_cons, IH, res_bind_ret, bool_decide_eq_true_2.
Qed.
Lemma distinct_runs rs : Forall (λ r, 0 ≤ run_dup r) rs → NoDup (run_child <$> rs) → distinct_children (rs ≫= slots_of) = Ret (run_child <$> rs).
Proof.
  induction rs as [|r rs IH]; [done|]. intros [Hd Hds]%Forall_cons. rewrite fmap_cons, bind_cons. intros [Hn Hnd]%NoDup_cons.
  unfold slots_of at 1, repeats. assert (0 < 2 ^ run_dup r) by lia. destruct (Z.to_nat (2 ^ run_dup r)) as [|k] eqn:E; [lia|].
  apply distinct_run; [by apply IH|]. intros Hh. apply Hn. destruct (run_child <$> rs); [done|]. injection Hh as ->. left.
Qed.

(** How many nodes a node leads to, itself included. *)
Fixpoint weight d h p : nat :=
  match d with
  | O => O
  | S d => match h !! p with
           | Some (ModelN m) => match distinct_children (children_ m) with Ret cs => S (sum_list_with (weight d h) cs) | _ => O end
           | _ => 1
           end
  end.

Lemma covers_children d h top p ls m : covers (S d) h top p ls → NoDup ls → h !! p = Some (ModelN m) →
  ∃ rs, Forall (run_ok d h top) rs ∧ distinct_children (children_ m) = Ret (run_child <$> rs) ∧ ls = rs ≫= run_leaves.
Proof.
  intros Hc Hnd E. cbn [covers] in Hc. rewrite E in Hc. destruct Hc as (_ & rs & _ & -> & _ & -> & _ & Hf). exists rs.
  split; [done|]. split; [|done]. apply distinct_runs; [eapply Forall_impl; [exact Hf|]; by intros ? (_ & ? & _)|by eapply runs_nodup].
Qed.

Lemma weight_frame d h h' top : ∀ p ls, covers d h top p ls → NoDup ls → same_up_to_links h h' → weight d h' p = weight d h p.
Proof.
  induction d as [|d IH]; intros p ls Hc Hnd Hs; [done|]. cbn [weight]. pose proof (Hs p) as Hp.
  destruct (h !! p) as [[l|m]|] eqn:E; destruct (h' !! p) as [[l'|m']|]; inversion Hp as [? ? Hx|]; subst; try done. cbn in Hx. subst m'.
  destruct (covers_children d h top p ls m Hc Hnd E) as (rs & Hrs & -> & ->). f_equal. clear Hc E.
  induction Hrs as [|r rs (Hcr & _) Hrs IHrs]; [done|]. rewrite bind_cons in Hnd. apply NoDup_app in Hnd as (Hr & _ & Hnd).
  rewrite fmap_cons. cbn [sum_list_with]. rewrite (IH _ _ Hcr Hr Hs). f_equal. by apply IHrs.
Qed.

(** As many as there are below it. *)
Lemma weight_size d h top : ∀ p ls, covers d h top p ls → NoDup ls →
  ∃ X : gset Z, weight d h p = size X ∧ ∀ q, q ∈ X → below d h p q.
Proof.
  induction d as [|d IH]; intros p ls Hc Hnd; [done|]. pose proof Hc as Hc0. cbn [weight below]. destruct (h !! p) as [[l|m]|] eqn:E.
  - exists {[p]}. rewrite size_singleton. split; [done|]. intros q ->%elem_of_singleton. by left.
  - destruct (covers_children d h top p ls m Hc Hnd E) as (rs & Hrs & Hdc & ->). rewrite Hdc.
    assert (∀ r, r ∈ rs → Some (run_child r) ∈ children_ m) as Hin.
    { intros r Hr. cbn [covers] in Hc. rewrite E in Hc. destruct Hc as (_ & rs' & _ & Ec & _ & El & _ & Hf').
      assert (distinct_children (children_ m) = Ret (run_child <$> rs')) as Hdc'.
      { rewrite Ec. apply distinct_runs; [eapply Forall_impl; [exact Hf'|]; by intros ? (_ & ? & _)|]. apply (runs_nodup d h top); [exact Hf'|by rewrite <- El]. }
      assert (run_child <$> rs = run_child <$> rs') as Err by congruence.
      assert (run_child r ∈ run_child <$> rs') as (r' & -> & Hr')%list_elem_of_fmap by (rewrite <- Err; by apply list_elem_of_fmap_2).
      rewrite Ec. rewrite list.Forall_forall in Hf'. destruct (Hf' r' Hr') as (_ & Hd & _). by apply run_child_in. }
    assert (∃ X : gset Z, sum_list_with (weight d h) (run_child <$> rs) = size X ∧ ∀ q, q ∈ X → ∃ r, r ∈ rs ∧ below d h (run_child r) q) as (X & EX & HX).
    { clear Hc Hc0 Hdc Hin E. induction Hrs as [|r rs (Hcr & _) Hrs IHrs]; [exists ∅; by rewrite size_empty|].
      rewrite bind_cons in Hnd. apply NoDup_app in Hnd as (Hr & Hdis & Hnd). destruct (IHrs Hnd) as (Y & EY & HY).
      destruct (IH _ _ Hcr Hr) as (Z0 & EZ & HZ). exists (Z0 ∪ Y). rewrite fmap_cons. cbn [sum_list_with]. rewrite size_union, EZ, EY.
      - split; [done|]. intros q [Hq|Hq]%elem_of_union; [exists r; split; [left|by apply HZ]|]. destruct (HY q Hq) as (r' & ? & ?). exists r'. split; [by right|done].
      - intros q Hq1 Hq2. specialize (HZ q Hq1). destruct (HY q Hq2) as (r' & Hr' & Hb'). rewrite list.Forall_forall in Hrs. destruct (Hrs r' Hr') as (Hcr' & _).
        destruct (below_covers _ _ _ _ _ _ Hcr HZ) as (lq & Hlq & Hsub). pose proof (below_in d d h top _ _ q lq Hcr' Hb' Hlq) as Hsub'.
        pose proof (covers_ne _ _ _ _ _ Hlq) as Hne. destruct lq as [|x lq]; [done|]. apply (Hdis x); [apply Hsub; left|].
        apply list_elem_of_bind. exists r'. split; [apply Hsub'; left|done]. }
    exists ({[p]} ∪ X). rewrite EX, size_union, size_singleton.
    + split; [done|]. intros q [->%elem_of_singleton|Hq]%elem_of_union; [by left|right]. destruct (HX q Hq) as (r & Hr & Hb). exists (run_child r). split; [by apply Hin|done].
    + intros q ->%elem_of_singleton Hq. destruct (HX p Hq) as (r & Hr & Hb). exact (covers_acyclic _ _ _ _ _ _ _ _ Hc0 E (Hin r Hr) Hb).
  - cbn [covers] in Hc. by rewrite E in Hc.
Qed.
Lemma weight_heap d h top p ls : covers d h top p ls → NoDup ls → (weight d h p ≤ size h)%nat.
Proof.
  intros Hc Hnd. destruct (weight_size d h top p ls Hc Hnd) as (X & -> & HX). rewrite <- size_dom. apply subseteq_size. intros q Hq.
  apply elem_of_dom. specialize (HX q Hq). destruct (below_covers _ _ _ _ _ _ Hc HX) as (lq & Hlq & _). destruct d; [done|]. cbn [covers] in Hlq. by destruct (h !! q).
Qed.

Lemma weight_le d d' h top : (d ≤ d')%nat → ∀ p ls, covers d h top p ls → NoDup ls → weight d' h p = weight d h p.
Proof.
  revert d'. induction d as [|d IH]; intros [|d'] Hd p ls Hc Hnd; [done..|lia|]. cbn [weight]. destruct (h !! p) as [[l|m]|] eqn:E; [done| |done].
  destruct (covers_children d h top p ls m Hc Hnd E) as (rs & Hrs & -> & ->). f_equal. clear Hc E.
  induction Hrs as [|r rs (Hcr & _) Hrs IHrs]; [done|]. rewrite bind_cons in Hnd. apply NoDup_app in Hnd as (Hr & _ & Hnd).
  rewrite fmap_cons. cbn [sum_list_with]. rewrite (IH d' ltac:(lia) _ _ Hcr Hr). f_equal. by apply IHrs.
Qed.

(** ** The loop *)
Definition behind prev : list Z := if bool_decide (prev = 0) then [] else [prev].

(** The subtrees on the stack, whose leaves are not linked yet, and the leaf
    before them. *)
Record linkable d top stack (lss : list (list Z)) prev s : Prop := {
  lk_covers : Forall2 (covers d (heap s) top) stack lss;
  lk_nodup : NoDup (behind prev ++ concat lss);
  lk_zero : 0 ∉ concat lss;
  lk_fresh q l : q ∈ concat lss → heap s !! q = Some (DataNode l) → prev_leaf_ l = 0 ∧ next_leaf_ l = 0;
  lk_prev : prev ≠ 0 → ∃ l, heap s !! prev = Some (DataNode l) ∧ next_leaf_ l = 0
}.
(** The leaves [ls] linked to each other and to [prev]. *)
Record linked prev ls s s' : Prop := {
  li_same : s' = with_heap (heap s') s ∧ same_up_to_links (heap s) (heap s');
  li_others q : q ∉ behind prev ++ ls → heap s' !! q = heap s !! q;
  li_seg : seg (heap s') prev ls 0;
  li_prev l : prev ≠ 0 → heap s !! prev = Some (DataNode l) → heap s' !! prev = Some (DataNode (with_next (default 0 (head ls)) l))
}.

Definition link_rest (fuel : nat) stack prev s : res Alex :=
  match stack with
  | [] => Ret s
  | cur :: stack => let* stack := push_children cur stack s in link_loop fuel cur stack prev s
  end.

Lemma links_trans h1 h2 h3 : same_up_to_links h1 h2 → same_up_to_links h2 h3 → same_up_to_links h1 h3.
Proof. intros H1 H2 q. specialize (H1 q). specialize (H2 q). destruct H1 as [x y Hxy|]; inversion H2; subst; constructor. by eapply same_but_links_trans. Qed.
Lemma links_model_inv h h' q m : same_up_to_links h h' → h' !! q = Some (ModelN m) → h !! q = Some (ModelN m).
Proof. intros Hs E. specialize (Hs q). rewrite E in Hs. destruct (h !! q) as [[l|m']|]; inversion Hs as [? ? Hx|]; [done|]. cbn in Hx. by subst. Qed.
Lemma links_none h h' q : same_up_to_links h h' → h !! q = None → h' !! q = None.
Proof. intros Hs E. specialize (Hs q). rewrite E in Hs. by inversion Hs. Qed.
Lemma links_agree h h' d p : same_up_to_links h h' → agree d h h' p.
Proof. intros Hs q _. apply Hs. Qed.

Lemma weights_frame d h h' top stack lss : Forall2 (covers d h top) stack lss → NoDup (concat lss) → same_up_to_links h h' →
  sum_list_with (weight d h') stack = sum_list_with (weight d h) stack ∧ Forall2 (covers d h' top) stack lss.
Proof.
  intros Hc Hnd Hs. induction Hc as [|p ls stack lss Hp Hc IH]; [done|]. cbn [concat] in Hnd. apply NoDup_app in Hnd as (Hl & _ & Hnd).
  destruct (IH Hnd) as [E H2]. cbn [sum_list_with]. rewrite E, (weight_frame d h h' top p ls Hp Hl Hs). split; [done|].
  constructor; [|done]. eapply covers_frame; [done|]. by apply links_agree.
Qed.

(** A model node gives way to its children. *)
Lemma push_spec d top p ls stack lss s : covers d (heap s) top p ls → NoDup ls → Forall2 (covers d (heap s) top) stack lss →
  ∃ stack1 lss1, push_children p stack s = Ret stack1 ∧ Forall2 (covers d (heap s) top) stack1 lss1 ∧
    ls ++ concat lss = (match heap s !! p with Some (DataNode _) => [p] | _ => [] end) ++ concat lss1 ∧
    S (sum_list_with (weight d (heap s)) stack1) = (weight d (heap s) p + sum_list_with (weight d (heap s)) stack)%nat.
Proof.
  intros Hc Hnd Hst. unfold push_children, get_node. destruct d as [|d]; [done|]. pose proof Hc as Hc0. cbn [covers weight] in Hc |- *.
  destruct (heap s !! p) as [[l|m]|] eqn:E; [| |done]; cbn [of_option]; rewrite res_bind_ret.
  - subst ls. by exists stack, lss.
  - destruct (covers_children d (heap s) top p ls m Hc0 Hnd E) as (rs & Hrs & -> & ->). rewrite res_bind_ret.
    exists ((run_child <$> rs) ++ stack), ((run_leaves <$> rs) ++ lss). split; [done|].
    assert (Forall2 (covers (S d) (heap s) top) (run_child <$> rs) (run_leaves <$> rs)) as Hf.
    { apply Forall2_fmap, Forall_Forall2_diag. eapply Forall_impl; [exact Hrs|]. intros r (Hr & _). by apply covers_S. }
    split; [by apply Forall2_app|]. split; [rewrite concat_app; cbn [app]; f_equal; clear; induction rs as [|r rs IH]; [done|]; by rewrite bind_cons, IH|].
    rewrite sum_list_with_app. cbn [plus]. f_equal. f_equal. clear Hc Hc0 Hf E Hst.
    induction Hrs as [|r rs (Hcr & _) Hrs IHrs]; [done|]. rewrite bind_cons in Hnd. apply NoDup_app in Hnd as (Hr & _ & Hnd).
    rewrite fmap_cons. cbn [sum_list_with]. rewrite (IHrs Hnd). f_equal. apply (weight_le d (S d) _ top ltac:(lia) _ _ Hcr Hr).
Qed.

(** The leaf [p] is visited after [prev]. *)
Definition visit p prev s : Alex :=
  if bool_decide (prev = 0) then s else with_heap (leaf_alter (with_prev prev) p (leaf_alter (with_next p) prev (heap s))) s.

Lemma visit_links p prev s : same_up_to_links (heap s) (heap (visit p prev s)) ∧ ∀ q, q ≠ p → q ∉ behind prev → heap (visit p prev s) !! q = heap s !! q.
Proof.
  unfold visit, behind. case_bool_decide; [split; [apply links_refl|done]|]. cbn. split.
  - eapply links_trans; intros q; by apply leaf_alter_same.
  - intros q H1 H2%not_elem_of_cons. by rewrite !leaf_alter_ne by naive_solver.
Qed.

Lemma link_loop_leaf fuel p stack prev s l : heap s !! p = Some (DataNode l) → p ≠ prev → (prev ≠ 0 → ∃ lp, heap s !! prev = Some (DataNode lp)) →
  link_loop (S fuel) p stack prev s = link_rest fuel stack p (visit p prev s).
Proof.
  intros El Hne Hp. cbn [link_loop]. unfold get_node at 1. rewrite El. cbn [of_option]. rewrite res_bind_ret. unfold visit. case_bool_decide as H0; [by rewrite res_bind_ret|].
  destruct (Hp H0) as (lp & Elp). rewrite (modify_leaf_alter _ _ _ lp), res_bind_ret by done.
  by rewrite (modify_leaf_alter _ _ _ l), !res_bind_ret by (cbn; by rewrite leaf_alter_ne).
Qed.

Lemma link_nothing prev s : (prev ≠ 0 → ∃ l, heap s !! prev = Some (DataNode l) ∧ next_leaf_ l = 0) → linked prev [] s s.
Proof.
  intros Hpv. constructor; [split; [by destruct s|apply links_refl]|done|done|]. intros l Hprev El.
  destruct (Hpv Hprev) as (l0 & El0 & En). assert (l0 = l) as -> by congruence. cbn. rewrite El, <- En. by destruct l.
Qed.

Lemma link_rest_spec d top : ∀ fuel stack lss prev s, linkable d top stack lss prev s → (sum_list_with (weight d (heap s)) stack ≤ fuel)%nat →
  ∃ s', link_rest fuel stack prev s = Ret s' ∧ linked prev (concat lss) s s'.
Proof.
  induction fuel as [|fuel IH]; intros stack lss prev s [Hc Hnd H0 Hfr Hpv] Hw.
  all: destruct Hc as [|p ls stack lss Hp Hc].
  1,3: exists s; split; [done|by apply link_nothing].
  all: cbn [concat] in *; apply NoDup_app in Hnd as (Hnp & Hdp & Hnd); pose proof Hnd as (Hls & _ & Hnc)%NoDup_app;
    destruct (push_spec d top p ls stack lss s Hp Hls Hc) as (stack1 & lss1 & Epush & Hc1 & Econ & Ew); cbn [sum_list_with] in Hw.
  1: lia.
  cbn [link_rest]. rewrite Epush, res_bind_ret. rewrite Econ in Hnd, Hdp, H0, Hfr |- *.
  destruct (heap s !! p) as [[l|m]|] eqn:E; cbn [app] in *.
  - apply NoDup_cons in Hnd as [Hpc Hnd]. assert (p ≠ prev) as Hne.
    { intros ->. unfold behind in Hdp. destruct (decide (prev = 0)) as [->|Hz]; [apply H0; left|]. rewrite bool_decide_eq_false_2 in Hdp by done. apply (Hdp prev); left. }
    rewrite (link_loop_leaf fuel p stack1 prev s l E Hne) by (intros Hz; destruct (Hpv Hz) as (lp & ? & _); by exists lp).
    set (s1 := visit p prev s). destruct (visit_links p prev s) as [Hs1 Ho1]. fold s1 in Hs1, Ho1.
    destruct (weights_frame d _ _ top stack1 lss1 Hc1 Hnd Hs1) as [Ew1 Hc1']. destruct (Hfr p l ltac:(left) E) as [Hpl Hnl].
    assert (∀ q, q ∈ concat lss1 → heap s1 !! q = heap s !! q) as Hrest.
    { intros q Hq. apply Ho1; [intros ->; done|]. intros Hb. apply (Hdp q Hb). by right. }
    assert (∃ l1, heap s1 !! p = Some (DataNode l1) ∧ prev_leaf_ l1 = prev ∧ next_leaf_ l1 = 0) as (l1 & El1 & Hp1 & Hn1).
    { unfold s1, visit. case_bool_decide as Hz; [exists l; by rewrite E, Hpl, Hz|]. cbn. exists (with_prev prev l). split; [|done].
      apply leaf_alter_eq. by rewrite leaf_alter_ne. }
    assert (p ≠ 0) as Hp0 by (intros ->; apply H0; left).
    destruct (IH stack1 lss1 p s1) as (s' & Es' & [[Es Hss] Hoth Hseg Hli]).
    { constructor; [done| | | |].
      - unfold behind. rewrite bool_decide_eq_false_2 by done. by apply NoDup_cons.
      - intros Hz. apply H0. by right.
      - intros q lq Hq. rewrite Hrest by done. apply Hfr. by right.
      - intros _. by exists l1. }
    { lia. }
    exists s'. split; [done|]. specialize (Hli l1 Hp0 El1). unfold behind in Hoth. rewrite bool_decide_eq_false_2 in Hoth by done. constructor.
    + split; [|by eapply links_trans]. rewrite Es. unfold s1, visit. by case_bool_decide.
    + intros q Hq. rewrite not_elem_of_app, not_elem_of_cons in Hq. destruct Hq as (Hqb & Hqp & Hqc). rewrite Hoth; [by apply Ho1|]. set_solver.
    + cbn [seg]. split; [done|]. split; [|done]. exists (with_next (default 0 (head (concat lss1))) l1). done.
    + intros lp Hz Elp. assert (prev ≠ p) as Hne' by done. assert (prev ∉ concat lss1) as Hpvc.
      { intros Hin. apply (Hdp prev); [unfold behind; rewrite bool_decide_eq_false_2 by done; left|by right]. }
      rewrite Hoth by set_solver. unfold s1, visit. rewrite bool_decide_eq_false_2 by done. cbn. rewrite leaf_alter_ne by done.
      by rewrite (leaf_alter_eq _ _ _ lp).
  - assert (link_loop (S fuel) p stack1 prev s = link_rest fuel stack1 prev s) as ->.
    { cbn [link_loop]. unfold get_node at 1. rewrite E. cbn [of_option]. by rewrite !res_bind_ret. }
    apply IH; [|lia]. constructor; try done. by apply NoDup_app.
  - destruct d; [done|]. cbn [covers] in Hp. by rewrite E in Hp.
Qed.

(** The leaves of a tree that are not linked yet. *)
Lemma link_all_spec d top s ls : covers d (heap s) top (root_node_ s) ls → NoDup ls → 0 ∉ ls →
  (∀ q l, q ∈ ls → heap s !! q = Some (DataNode l) → prev_leaf_ l = 0 ∧ next_leaf_ l = 0) →
  ∃ s', link_all_data_nodes s = Ret s' ∧ s' = with_heap (heap s') s ∧ same_up_to_links (heap s) (heap s') ∧ chain (heap s') 0 ls.
Proof.
  intros Hc Hnd H0 Hfr. unfold link_all_data_nodes. change (let* stack := push_children (root_node_ s) [] s in link_loop (depth_fuel s) (root_node_ s) stack 0 s)
    with (link_rest (depth_fuel s) [root_node_ s] 0 s).
  destruct (link_rest_spec d top (depth_fuel s) [root_node_ s] [ls] 0 s) as (s' & E & [[Es Hs] _ Hseg _]).
  - constructor; cbn [concat]; rewrite ?app_nil_r; try done. by constructor.
  - cbn. pose proof (weight_heap d (heap s) top _ _ Hc Hnd). unfold depth_fuel. lia.
  - cbn [concat] in Hseg. rewrite app_nil_r in Hseg. exists s'. split; [done|]. split; [done|]. split; [done|]. by apply chain_seg.
Qed.
End walk.
