(* ===== verification/AlexLoadTree.v ===== *)
(** * ALEX: construction and bulk loading

    A new tree is an empty leaf under a superroot; bulk loading replaces it by
    the subtree [bulk_load_node] returns, under a new superroot, and links the
    leaves. *)
From S2P Require Import Prelude Ieee AlexBase AlexNode AlexOps AlexInv AlexBuild AlexCost AlexFanout AlexTree AlexTreeOps AlexEnds AlexRoute AlexTreeInv AlexTreeOk AlexTreeLookup AlexLink AlexSubtree AlexReplace AlexSplit AlexMergeLoop AlexLevel AlexPlan AlexLoad AlexLinkAll.

Section root.
Implicit Types (s : Alex) (p q k key top : Z) (ls : list Z) (m : ModelNode) (l : Leaf).

(** ** The superroot *)
Definition under_superroot s (n : AlexTreeNode) : Alex :=
  mkAlex (<[next_addr s := ModelN (mkModelNode model0 1 [Some (root_node_ s)] (level_ n - 1) 0)]>
            (if bool_decide (superroot_ s = 0) then heap s else base.delete (superroot_ s) (heap s)))
    (next_addr s + 1) (root_node_ s) (next_addr s) (stats_ s) (istats_ s).

Lemma create_superroot_spec s n : root_node_ s ≠ 0 → heap s !! root_node_ s = Some n → root_node_ s < next_addr s → root_node_ s ≠ superroot_ s →
  (superroot_ s ≠ 0 → is_Some (heap s !! superroot_ s)) → create_superroot s = Ret (under_superroot s n).
Proof.
  intros H0 En Hlt Hne Hsup. unfold create_superroot. rewrite bool_decide_eq_false_2 by done.
  set (h := if bool_decide (superroot_ s = 0) then heap s else base.delete (superroot_ s) (heap s)).
  assert (delete_node (superroot_ s) s = Ret (with_heap h s)) as ->.
  { unfold delete_node, h. case_bool_decide as Hs; [by destruct s|]. destruct (Hsup Hs) as [x Ex]. unfold get_node. by rewrite Ex. }
  assert (h !! root_node_ s = Some n) as Eh by (unfold h; case_bool_decide; [done|by rewrite lookup_delete_ne]).
  rewrite res_bind_ret. unfold get_node at 1. cbn [heap with_heap root_node_]. rewrite Eh. cbn [of_option]. rewrite res_bind_ret.
  unfold alloc_node, update_superroot_pointer, get_node. cbn [heap with_heap root_node_ next_addr]. rewrite lookup_insert_ne, Eh by lia. cbn [of_option]. rewrite res_bind_ret.
  unfold get_model, get_node. cbn [heap superroot_]. rewrite lookup_insert_eq. cbn [of_option]. rewrite !res_bind_ret.
  unfold set_child, wr. cbn [children_ length]. rewrite bool_decide_eq_true_2 by lia. rewrite !res_bind_ret.
  unfold set_model, set_node, with_heap, under_superroot. cbn. rewrite insert_insert_eq. done.
Qed.

(** The key domain is that of the outermost leaves. *)
Lemma key_domain_spec d top s ls super : covers d (heap s) top (root_node_ s) ls →
  (∀ q l, q ∈ ls → heap s !! q = Some (DataNode l) → node_ok (data l)) → heap s !! superroot_ s = Some (ModelN super) →
  ∃ lo hi, update_superroot_key_domain s =
    Ret (set_model (superroot_ s) (mkModelNode (unit_model lo hi) (num_children_ super) (children_ super) (mn_level_ super) (mn_duplication_factor_ super))
           (with_istats (mkIStats lo hi 0 0 (stat_num_keys (stats_ s)) (stat_num_keys (stats_ s))) s)).
Proof.
  intros Hc Hok Es. apply covers_size in Hc.
  destruct (outermost false _ s top _ ls (depth_fuel s) [] Hc) as (p & P & Ep & Hp); [unfold depth_fuel; lia|].
  destruct (outermost true _ s top _ ls (depth_fuel s) [] Hc) as (q & Q & Eq & Hq); [unfold depth_fuel; lia|].
  assert (p ∈ ls) as Hpl by (destruct ls; [done|injection Hp as ->; left]). assert (q ∈ ls) as Hql by by apply last_Some_elem_of.
  destruct (covers_leaf _ _ _ _ _ p Hc Hpl) as (l & El). destruct (covers_leaf _ _ _ _ _ q Hc Hql) as (l' & El').
  destruct (first_spec _ (Hok p l Hpl El)) as [Ef _]. destruct (last_spec _ (Hok q l' Hql El')) as [Ela _].
  unfold update_superroot_key_domain, get_min_key, get_max_key, first_data_node, last_data_node.
  rewrite Ep, !res_bind_ret, (get_data_leaf _ _ _ El), res_bind_ret, Ef, res_bind_ret.
  rewrite Eq, !res_bind_ret, (get_data_leaf _ _ _ El'), res_bind_ret, Ela, res_bind_ret, (get_model_node _ _ _ Es), res_bind_ret. by eexists _, _.
Qed.

(** The models lead a key where some depth suffices to see it. *)
Lemma route_at d d' top s ls key q : covers d (heap s) top (root_node_ s) ls → top < 2 ^ 64 → 0 ≤ key ≤ top →
  reach d' key (root_node_ s) s = Ret q → route key s = Ret q.
Proof.
  intros Hc Ht Hk E. apply covers_size in Hc. rewrite route_reach.
  destruct (covers_reach _ s top _ ls (depth_fuel s) key Hc) as (q' & E' & _); [unfold depth_fuel; lia|done|done|].
  rewrite E'. apply (reach_more _ (depth_fuel s + d')) in E'; [|lia]. apply (reach_more _ (depth_fuel s + d')) in E; [|lia]. congruence.
Qed.
End root.

(** ** A new tree *)
Section new.
Context (junk : Z → Z).
Implicit Types (s : Alex) (top : Z).

Definition new_state (l : Leaf) : Alex :=
  mkAlex {[1 := DataNode l; 2 := ModelN (mkModelNode model0 1 [Some 1] (-1) 0)]} 3 1 2 (mkTStats 0 0 1) istats0.

Lemma Alex_new_eq : ∃ l, Alex_new junk = Ret (new_state l) ∧ fresh_leaf l ∧ contents (data l) = [].
Proof.
  unfold Alex_new, empty_root.
  destruct (bulk_load_spec junk [] None false (node_new 1048576)) as (n & E & Hwf & Hc & _).
  { split; constructor. }
  { apply capacity_for_bound; [cbn; lia|apply init_density_within]. }
  change (Z.of_nat (length [])) with 0 in E. rewrite E, res_bind_ret. exists (mkLeaf n 0 0 0 0). split; [|done].
  unfold new_leaf, alloc_node. cbv iota beta. erewrite create_superroot_spec; [|done|apply lookup_insert_eq|cbn; lia|done|done].
  rewrite res_bind_ret. unfold under_superroot, new_state, add_nodes, with_stats. done.
Qed.

Lemma new_at l q : heap (new_state l) !! q = if bool_decide (q = 1) then Some (DataNode l)
  else if bool_decide (q = 2) then Some (ModelN (mkModelNode model0 1 [Some 1] (-1) 0)) else None.
Proof. unfold new_state. cbn. repeat case_bool_decide; subst; by simplify_map_eq. Qed.

Lemma new_ok top l : top < kEndSentinel_ → fresh_leaf l → contents (data l) = [] → tree_ok top (new_state l) [1] ∧ steady (new_state l).
Proof.
  intros Ht (Hwf & Hp & Hn) Hc. assert (heap (new_state l) !! 1 = Some (DataNode l)) as E1 by by rewrite new_at. split; constructor.
  - apply (covers_size 1). cbn [covers]. change (root_node_ (new_state l)) with 1. by rewrite E1.
  - apply NoDup_singleton.
  - cbn [chain head default]. split; [done|]. split; [|done]. exists l. split; [done|]. by split.
  - intros q l' ->%list_elem_of_singleton. rewrite E1. by intros [= <-].
  - intros q k ->%list_elem_of_singleton. unfold leaf_pairs. rewrite E1, Hc. by intros ?%not_elem_of_nil.
  - done.
  - split; [done|]. split; [by rewrite new_at|]. intros q Hq. change (3 ≤ q) in Hq. rewrite new_at. by rewrite !bool_decide_eq_false_2 by lia.
  - intros q m. rewrite new_at. repeat case_bool_decide; [done| |done]. intros [= <-]. by exists 0.
  - exists (mkModelNode model0 1 [Some 1] (-1) 0). split; [by rewrite new_at|done].
  - done.
  - intros q m. rewrite new_at. repeat case_bool_decide; [done| |done]. intros [= <-]. cbn. change (superroot_ (new_state l)) with 2. set_solver.
Qed.
End new.

Lemma rd_last {A} (l : list A) x : last l = Some x → rd l (Z.of_nat (length l) - 1) = Ret x.
Proof.
  intros E. assert (0 < Z.of_nat (length l)) by (destruct l; [done|cbn; lia]).
  apply rd_Some; [lia|]. rewrite <- E, last_lookup. f_equal. lia.
Qed.

(** ** Bulk loading *)
Section bulk.
Context (junk : Z → Z) (log2 : double → double) (max_fanout max_data_node_slots : Z) (expected_insert_frac : double)
  (approximate_model_computation : bool) (top D : Z).
Implicit Types (s : Alex) (values : list (Z * Z)) (p q k : Z) (ls : list Z).
Local Abbreviation tree_bulk_load := (tree_bulk_load junk log2 max_fanout max_data_node_slots expected_insert_frac approximate_model_computation).

(** The root of a bulk load is [loadable]. *)
Definition bulk_loadable (fuel : nat) values : bool :=
  let num_keys := Z.of_nat (length values) in
  match (let* m := build_model values num_keys model0 approximate_model_computation in
         let* (cost, _) := compute_expected_cost_of log2 values num_keys kInitDensity_ expected_insert_frac (Some m) in Ret cost) with
  | Ret cost => loadable log2 max_fanout max_data_node_slots expected_insert_frac approximate_model_computation top D num_keys fuel values
                  (unit_model (default 0 (head values.*1)) (default 0 (last values.*1))) cost
  | _ => false
  end.

(** The costs of a root that is a leaf. *)
Lemma root_costs p s (f : Leaf → Leaf) n : heap s !! p = Some n →
  (∀ l, contents (data (f l)) = contents (data l) ∧ (fresh_leaf l → fresh_leaf (f l))) →
  ∃ n', (let* n := get_node p s in match n with DataNode _ => modify_leaf p f s | ModelN _ => Ret s end) = Ret (set_node p n' s) ∧ same_body n n' ∧
    ∀ l', n' = DataNode l' → ∃ l, n = DataNode l ∧ contents (data l') = contents (data l) ∧ (fresh_leaf l → fresh_leaf l').
Proof.
  intros E Hf. unfold get_node. rewrite E. cbn [of_option]. rewrite res_bind_ret. destruct n as [l|m].
  - rewrite (modify_leaf_set _ _ _ l) by done. eexists. split; [done|]. split; [done|]. intros l' [= <-]. by exists l.
  - exists (ModelN m). split; [|done]. unfold set_node. rewrite insert_id by done. by destruct s.
Qed.

(** ** A subtree, wherever it hangs *)
Record bears (f : nat) s p ls values : Prop := {
  br_covers : covers f (heap s) top p ls;
  br_nodup : NoDup ls;
  br_fresh q l : q ∈ ls → heap s !! q = Some (DataNode l) → fresh_leaf l;
  br_pairs : pairs (heap s) ls = values;
  br_routed q k : q ∈ ls → k ∈ (leaf_pairs (heap s) q).*1 → reach f k p s = Ret q
}.

Lemma bears_same f s s' p ls vs : bears f s p ls vs → (∀ q, below f (heap s) p q → heap s' !! q = heap s !! q) → bears f s' p ls vs.
Proof.
  intros [Hc Hnd Hfr Hp Hr] Hs. assert (∀ q, q ∈ ls → heap s' !! q = heap s !! q) as Hq by (intros q Hq; apply Hs; by eapply leaf_below_root).
  assert (∀ q, q ∈ ls → leaf_pairs (heap s') q = leaf_pairs (heap s) q) as Hlp by (intros q Hin; unfold leaf_pairs; by rewrite Hq).
  constructor; [eapply covers_frame; [done|by apply agree_same]|done| | |].
  - intros q l Hin. rewrite Hq by done. by apply Hfr.
  - rewrite <- Hp. by apply pairs_ext.
  - intros q k Hin. rewrite Hlp by done. intros Hk. rewrite (reach_frame f s s' top k p ls f Hc (agree_same _ _ _ _ Hs) ltac:(done)). by apply Hr.
Qed.

Lemma bears_top f s p n n' ls vs : bears f s p ls vs → heap s !! p = Some n → same_body n n' →
  (∀ l', n' = DataNode l' → ∃ l, n = DataNode l ∧ contents (data l') = contents (data l) ∧ (fresh_leaf l → fresh_leaf l')) →
  bears f (set_node p n' s) p ls vs.
Proof.
  intros [Hc Hnd Hfr Hp Hr] En Hsb Hd. set (s' := set_node p n' s).
  assert (heap s' !! p = Some n') as E4 by apply lookup_insert_eq. assert (∀ q, q ≠ p → heap s' !! q = heap s !! q) as Hs by (intros q Hq; by apply lookup_insert_ne).
  assert (∀ q, q ∈ ls → leaf_pairs (heap s') q = leaf_pairs (heap s) q ∧ ∀ l', heap s' !! q = Some (DataNode l') → fresh_leaf l') as Hq.
  { intros q Hq. unfold leaf_pairs. destruct (decide (q = p)) as [->|Hne]; [|rewrite Hs by done; split; [done|intros l'; by apply Hfr]].
    destruct (covers_leaf _ _ _ _ _ p Hc Hq) as (l & El). assert (n = DataNode l) as -> by congruence. destruct n' as [l'|]; [|done].
    destruct (Hd l' eq_refl) as (l0 & [= <-] & Ec & Hw). rewrite E4, En. split; [done|]. intros l1 [= <-]. apply Hw. by apply (Hfr p). }
  constructor; [apply (covers_top f (heap s) (heap s') top p ls n n'); auto|done| | |].
  - intros q l Hin. by apply Hq.
  - rewrite <- Hp. apply pairs_ext. intros q Hin. by apply Hq.
  - intros q k Hin. rewrite (proj1 (Hq q Hin)). intros Hk. rewrite (reach_top f s s' top p ls n n' f k) by auto. by apply Hr.
Qed.

(** Linked, it is a tree. *)
Lemma bears_tree f s ls vs : top < kEndSentinel_ → keys_ok vs → (∀ k, k ∈ vs.*1 → k ≤ top) → bears f s (root_node_ s) ls vs → steady s → 0 ∉ ls →
  ∃ s', link_all_data_nodes s = Ret s' ∧ tree_ok top s' ls ∧ steady s' ∧ pairs (heap s') ls = vs ∧ stats_ s' = stats_ s.
Proof.
  intros Ht Hk Hkt [Hc Hnd Hfr Hp Hr] [(Hna & Hz & Hfree) Hfan (sm & Esm & Hsm) Hroot Hap] H0. change kEndSentinel_ with (2 ^ 64 - 1) in Ht.
  destruct (link_all_spec f top s ls Hc Hnd H0) as (s' & E & Es & Hlk & Hch); [intros q l Hq El; by destruct (Hfr q l Hq El) as (_ & ?)|].
  assert (root_node_ s' = root_node_ s ∧ superroot_ s' = superroot_ s ∧ next_addr s' = next_addr s ∧ stats_ s' = stats_ s) as (Er & Eu & En & Et) by (by rewrite Es).
  assert (covers f (heap s') top (root_node_ s) ls) as Hc' by (eapply covers_frame; [done|by apply links_agree]).
  assert (∀ q, q ∈ ls → leaf_pairs (heap s') q = leaf_pairs (heap s) q ∧ ∀ l', heap s' !! q = Some (DataNode l') → node_wf (data l')) as Hq.
  { intros q Hq. destruct (covers_leaf _ _ _ _ _ q Hc Hq) as (l & El). destruct (links_leaf _ _ q l Hlk El) as (l' & El' & Ed & _).
    unfold leaf_pairs. rewrite El', El, Ed. split; [done|]. intros l1 [= <-]. rewrite Ed. by apply (Hfr q l). }
  assert (pairs (heap s') ls = vs) as Hp' by (rewrite <- Hp; apply pairs_ext; intros q Hin; by apply Hq).
  exists s'. split; [done|]. split; [|split; [|done]]; constructor; rewrite ?Er, ?Eu; try done.
  - by eapply covers_size.
  - intros q l Hin. by apply (Hq q Hin).
  - intros q k Hin Hkq. rewrite (proj1 (Hq q Hin)) in Hkq. assert (k ∈ vs.*1) as Hkv.
    { rewrite <- Hp. unfold pairs. apply list_elem_of_fmap in Hkq as (kv & -> & Hkv). apply list_elem_of_fmap_2, list_elem_of_bind. by exists q. }
    assert (0 ≤ k ≤ top) as Hkr by (split; [|by apply Hkt]; destruct Hk as [_ Hf]; rewrite list.Forall_forall in Hf; by apply Hf).
    split; [lia|]. apply (route_at f f top s' ls k q); rewrite ?Er; [done|lia|done|].
    rewrite (reach_frame f s s' top k _ ls f Hc (links_agree _ _ _ _ Hlk) ltac:(done)). by apply Hr.
  - unfold heap_ok. rewrite En. split; [done|]. split; [by apply (links_none (heap s))|]. intros q Hq0. apply (links_none (heap s)); [done|by apply Hfree].
  - intros q m Em. apply (Hfan q m). by apply (links_model_inv _ (heap s')).
  - exists sm. split; [|done]. by apply (links_model (heap s)).
  - intros q m Em. apply (Hap q m). by apply (links_model_inv _ (heap s')).
Qed.

(** What the heap needs once a new superroot is in place. *)
Lemma superroot_steady s s' m' :
  0 < root_node_ s < next_addr s → heap s !! 0 = None → (∀ q, next_addr s ≤ q → heap s !! q = None) →
  (∀ q m, q ≠ superroot_ s → heap s !! q = Some (ModelN m) → (∃ e, 0 ≤ e < 31 ∧ num_children_ m = 2 ^ e) ∧ ∀ c, Some c ∈ children_ m → c < next_addr s) →
  num_children_ m' = 1 → children_ m' = [Some (root_node_ s)] →
  heap s' = <[next_addr s := ModelN m']> (base.delete (superroot_ s) (heap s)) → next_addr s' = next_addr s + 1 → root_node_ s' = root_node_ s → superroot_ s' = next_addr s → steady s'.
Proof.
  intros Hr H0 Hf Hm Hn1 Hch Eh Ena Er Eu.
  assert (∀ q m, heap s' !! q = Some (ModelN m) → (∃ e, 0 ≤ e < 31 ∧ num_children_ m = 2 ^ e) ∧ ∀ c, Some c ∈ children_ m → c < next_addr s) as Hall.
  { intros q m Em. rewrite Eh in Em. destruct (decide (q = next_addr s)) as [->|Hq].
    - rewrite lookup_insert_eq in Em. injection Em as <-. rewrite Hn1, Hch. split; [by exists 0|]. intros c [= ->]%list_elem_of_singleton. lia.
    - rewrite lookup_insert_ne in Em by done. destruct (decide (q = superroot_ s)) as [->|Hqs]; [by rewrite lookup_delete_eq in Em|].
      rewrite lookup_delete_ne in Em by done. by apply (Hm q). }
  constructor; rewrite ?Er, ?Eu.
  - unfold heap_ok. rewrite Ena, Eh. split; [lia|]. split; [rewrite lookup_insert_ne by lia; apply lookup_delete_None; by right|].
    intros q Hq. rewrite lookup_insert_ne by lia. apply lookup_delete_None. right. apply Hf. lia.
  - intros q m Em. by apply (Hall q).
  - exists m'. rewrite Eh, Hch. split; [apply lookup_insert_eq|done].
  - lia.
  - intros q m Em Hin. destruct (Hall q m Em) as [_ Hc]. specialize (Hc _ Hin). lia.
Qed.

(** A loaded subtree becomes the tree. *)
Lemma install_ok f l s3 p ls vs n n' : let s0 := with_heap (base.delete 1 (heap (new_state l))) (add_keys (Z.of_nat (length vs)) (new_state l)) in
  top < kEndSentinel_ → keys_ok vs → (∀ k, k ∈ vs.*1 → k ≤ top) → loaded top f s0 s3 p ls vs → heap s3 !! p = Some n → same_body n n' →
  (∀ l', n' = DataNode l' → ∃ l, n = DataNode l ∧ contents (data l') = contents (data l) ∧ (fresh_leaf l → fresh_leaf l')) →
  ∃ s', (let* s := create_superroot (set_node p n' (with_root p s3)) in let* s := update_superroot_key_domain s in link_all_data_nodes s) = Ret s' ∧
    tree_ok top s' ls ∧ steady s' ∧ pairs (heap s') ls = vs ∧ stat_num_keys (stats_ s') = Z.of_nat (length vs).
Proof.
  intros s0 Ht Hk Hkt [Hex Hcov Hb Hnd Hwf Hp Hr _] En Hsb Hdata.
  destruct (ex_same _ _ Hex) as (_ & Esup & _ & Enk). pose proof (ex_next _ _ Hex) as Hn3. pose proof (Hb p (below_self _ _ _ _ _ Hcov)) as Hpr.
  change (next_addr s0) with 3 in *. change (superroot_ s0) with 2 in Esup.
  assert (∀ q, q < 3 → heap s3 !! q = if bool_decide (q = 2) then Some (ModelN (mkModelNode model0 1 [Some 1] (-1) 0)) else None) as Hold.
  { intros q Hq. rewrite (ex_old _ _ Hex) by done. change (heap s0) with (base.delete 1 (heap (new_state l))). destruct (decide (q = 1)) as [->|Hne]; [by rewrite lookup_delete_eq|].
    rewrite lookup_delete_ne, new_at by done. by rewrite (bool_decide_eq_false_2 (q = 1)). }
  assert (bears f (with_root p s3) p ls vs) as B3 by (apply (bears_same f s3); [by constructor|done]).
  pose proof (bears_top f (with_root p s3) p n n' ls vs B3 En Hsb Hdata) as B4. set (s4 := set_node p n' (with_root p s3)) in *.
  assert (heap s4 !! p = Some n') as E4 by apply lookup_insert_eq. assert (∀ q, q ≠ p → heap s4 !! q = heap s3 !! q) as H4 by (intros q Hq; by apply lookup_insert_ne).
  assert (superroot_ s4 = 2) as Es4 by done. change (next_addr s3) with (next_addr s4) in *.
  assert (create_superroot s4 = Ret (under_superroot s4 n')) as ->.
  { apply create_superroot_spec; change (root_node_ s4) with p; rewrite ?Es4; [lia|done|lia|lia|]. intros _. rewrite H4, Hold by lia. by eexists. }
  rewrite res_bind_ret. set (s5 := under_superroot s4 n').
  assert (heap s5 = <[next_addr s4 := ModelN (mkModelNode model0 1 [Some p] (level_ n' - 1) 0)]> (base.delete 2 (heap s4))) as E5.
  { unfold s5, under_superroot. cbn [heap]. rewrite Es4, bool_decide_eq_false_2 by done. done. }
  assert (∀ q, below f (heap s4) p q → 3 ≤ q < next_addr s4) as Hb4 by (intros q Hq; apply Hb; apply (below_top f (heap s3) (heap s4) top p ls n n'); auto).
  assert (bears f s5 p ls vs) as B5.
  { apply (bears_same f s4); [done|]. intros q Hq%Hb4. rewrite E5, lookup_insert_ne, lookup_delete_ne by lia. done. }
  assert (heap s5 !! superroot_ s5 = Some (ModelN (mkModelNode model0 1 [Some p] (level_ n' - 1) 0))) as ES by (rewrite E5; apply lookup_insert_eq).
  destruct (key_domain_spec f top s5 ls _ (br_covers _ _ _ _ _ B5) ltac:(intros q lq Hq El; apply (br_fresh _ _ _ _ _ B5 q lq Hq El)) ES) as (lo & hi & ->). rewrite res_bind_ret.
  match goal with |- context [link_all_data_nodes ?x] => set (s6 := x) end.
  assert (heap s6 = <[next_addr s4 := ModelN (mkModelNode (unit_model lo hi) 1 [Some p] (level_ n' - 1) 0)]> (base.delete 2 (heap s4))) as E6.
  { change (heap s6) with (<[next_addr s4 := ModelN (mkModelNode (unit_model lo hi) 1 [Some p] (level_ n' - 1) 0)]> (heap s5)). by rewrite E5, insert_insert_eq. }
  assert (bears f s6 p ls vs) as B6.
  { apply (bears_same f s4); [done|]. intros q Hq%Hb4. rewrite E6, lookup_insert_ne, lookup_delete_ne by lia. done. }
  assert (steady s6) as Hst.
  { apply (superroot_steady s4 s6 (mkModelNode (unit_model lo hi) 1 [Some p] (level_ n' - 1) 0)); [change (root_node_ s4) with p; lia| | | |done|done|by rewrite E6, Es4|done|done|done].
    - rewrite H4, Hold by lia. done.
    - intros q Hq. rewrite H4 by lia. by apply (ex_free _ _ Hex).
    - intros q m Hqs Em. rewrite Es4 in Hqs. assert (∃ m0, heap s3 !! q = Some (ModelN m0) ∧ num_children_ m = num_children_ m0 ∧ children_ m = children_ m0) as (m0 & E0 & -> & ->).
      { destruct (decide (q = p)) as [->|Hqp]; [|rewrite H4 in Em by done; by exists m]. assert (n' = ModelN m) as -> by congruence.
        destruct n as [|m0]; [done|]. destruct Hsb as (_ & ? & ?). by exists m0. }
      destruct (Z.lt_ge_cases q 3) as [Hlt|Hge]; [rewrite Hold, bool_decide_eq_false_2 in E0 by done; done|]. by apply (ex_models _ _ Hex q m0). }
  destruct (bears_tree f s6 ls vs Ht Hk Hkt B6 Hst) as (s' & -> & Hok & Hst' & Hp' & Et).
  { intros H0. pose proof (Hb4 0 (leaf_below_root _ _ _ _ _ _ (br_covers _ _ _ _ _ B4) H0)). lia. }
  exists s'. split; [done|]. do 3 (split; [done|]). rewrite Et. change (stats_ s6) with (stats_ s3). by rewrite Enk.
Qed.

Lemma bulk_load_tree fuel values : top < kEndSentinel_ → max_fanout < 2 ^ (D + 1) → values ≠ [] → keys_ok values → (∀ k, k ∈ values.*1 → k ≤ top) →
  bulk_loadable fuel values = true →
  ∃ s ls, (let* s := Alex_new junk in tree_bulk_load fuel values (Z.of_nat (length values)) s) = Ret s ∧
    tree_ok top s ls ∧ steady s ∧ pairs (heap s) ls = values ∧ stat_num_keys (stats_ s) = Z.of_nat (length values).
Proof.
  intros Ht HD Hne Hk Hkt Hload. destruct (Alex_new_eq junk) as (l & -> & Hfl & Hcl). rewrite res_bind_ret.
  unfold AlexTreeOps.tree_bulk_load. set (n := Z.of_nat (length values)). assert (0 < n) as Hn by (apply Z.nle_gt; intros Hle; apply Hne, length_zero_iff_nil; lia).
  rewrite (bool_decide_eq_false_2 (n ≤ 0)) by lia. change (bool_decide (0 < stat_num_keys (stats_ (new_state l)))) with false. cbn [orb].
  assert (delete_node (root_node_ (new_state l)) (new_state l) = Ret (with_heap (base.delete 1 (heap (new_state l))) (new_state l))) as -> by done.
  rewrite res_bind_ret. change (n - stat_num_keys (stats_ (with_heap _ _))) with (n - 0). rewrite Z.sub_0_r.
  set (s0 := add_keys n _). unfold bulk_loadable in Hload. fold n in Hload.
  assert (∃ k0 v0, head values = Some (k0, v0)) as (k0 & v0 & Ev) by (destruct values as [|[a b] r]; [done|by exists a, b]).
  rewrite (rd_Some values 0 (k0, v0)), res_bind_ret by (done || (by rewrite <- Ev, head_lookup)).
  destruct (last values) as [[k1 v1]|] eqn:El; [|by apply last_None in El].
  rewrite (rd_last values (k1, v1) El : rd values (n - 1) = _), res_bind_ret.
  assert (head values.*1 = Some k0) as Eh by (by rewrite head_lookup, list_lookup_fmap, <- head_lookup, Ev). assert (last values.*1 = Some k1) as Ela by (by rewrite fmap_last, El).
  rewrite Eh, Ela in Hload. cbn [default from_option] in Hload.
  destruct (build_model values n model0 approximate_model_computation) as [dm| |]; [|done..]. rewrite res_bind_ret. cbn [mbind res_bind] in Hload.
  destruct (compute_expected_cost_of log2 values n kInitDensity_ expected_insert_frac (Some dm)) as [[cost st]| |]; [|done..]. rewrite res_bind_ret. cbn [mbind res_bind] in Hload.
  assert (∀ q, next_addr s0 ≤ q → heap s0 !! q = None) as Hfree.
  { intros q Hq. change (next_addr s0) with 3 in Hq. change (heap s0) with (base.delete 1 (heap (new_state l))). rewrite lookup_delete_ne, new_at by lia.
    by rewrite !bool_decide_eq_false_2 by lia. }
  change kEndSentinel_ with (2 ^ 64 - 1) in Ht.
  destruct (bulk_load_node_spec junk log2 max_fanout max_data_node_slots expected_insert_frac approximate_model_computation top D n ltac:(lia) HD fuel values
              (unit_model k0 k1) 0 cost (Some dm) s0 Hk Hkt Hload Hfree) as (p & s3 & ls & E & Hl).
  fold n in E. cbn [fst]. rewrite E, res_bind_ret. destruct (heap s3 !! p) as [nd|] eqn:En; [|pose proof (ld_dup _ _ _ _ _ _ _ Hl) as Hd; by rewrite En in Hd].
  set (fc := λ l0 : Leaf, with_data (with_expected (num_search_iterations st) (AlexCost.num_shifts st) (data l0)) l0).
  destruct (root_costs p (with_root p s3) fc nd En) as (nd' & Erc & Hsb & Hd).
  { intros l0. split; [done|]. intros ([[] Hth] & ? & ?). split; [split; [by constructor|done]|done]. }
  destruct (install_ok fuel l s3 p ls values nd nd' Ht Hk Hkt Hl En Hsb Hd) as (s' & E' & Hok & Hst & Hp & Hnk).
  exists s', ls. split; [|done]. rewrite <- E'.
  assert (get_node p (with_root p s3) = Ret nd) as Eg by (unfold get_node; change (heap (with_root p s3)) with (heap s3); by rewrite En).
  rewrite Eg, res_bind_ret in Erc. rewrite Eg, res_bind_ret. rewrite Erc, res_bind_ret. done.
Qed.
End bulk.
