(* ===== verification/AlexRoom.v ===== *)
(** * ALEX: making room

    What a round of the loop of [insert] does once it is decided that the leaf
    is split in two, with a plan or without: sideways, under a new model node,
    or under a new root. *)
From S2P Require Import Prelude Ieee AlexBase AlexNode AlexOps AlexInv AlexSearch AlexEnds AlexBuild AlexCost AlexFanout AlexTree AlexTreeOps AlexRoute AlexTreeInv AlexTreeOk AlexTreeLookup AlexLink AlexSubtree AlexReplace AlexSplit AlexSplitPlan AlexTreeSplit AlexMergeLoop AlexSplitDown AlexGrow.

Section path.
Implicit Types (s : Alex) (p q k key top : Z) (ls : list Z) (m : ModelNode).

(** ** The path to a leaf *)
(** The parent is the last model node of the path to the leaf. *)
Lemma covered_model d h top p ls parent m :
  covers d h top p ls → below d h p parent → h !! parent = Some (ModelN m) →
  0 < num_children_ m ∧ Z.of_nat (length (children_ m)) = num_children_ m.
Proof.
  intros Hc Hbl Ep. destruct (below_covers _ _ _ _ _ _ Hc Hbl) as (lq & Hq & _). destruct d as [|d]; [done|]. cbn [covers] in Hq.
  rewrite Ep in Hq. destruct Hq as (_ & rs & Hne & -> & -> & _ & _ & Hf). split; [|done].
  destruct rs as [|r rs]; [done|]. apply Forall_cons in Hf as [(_ & Hd0 & _) _]. rewrite width_cons by done. unfold repeats, width. lia.
Qed.

Lemma start_in b dup : 0 ≤ b → 0 ≤ dup → 0 ≤ start_of b (2 ^ dup) ≤ b ∧ b < start_of b (2 ^ dup) + 2 ^ dup.
Proof.
  intros Hb Hd. unfold start_of. rewrite Z.rem_mod_nonneg by lia. pose proof (Z.mod_pos_bound b (2 ^ dup) ltac:(lia)).
  pose proof (Z.mod_le b (2 ^ dup) Hb ltac:(lia)). lia.
Qed.

Lemma path_parent top s ls key old parent b path :
  tree_ok top s ls → 0 < key ≤ top → is_leaf_ <$> heap s !! root_node_ s = Some false →
  get_leaf_path key s = Ret (old, (parent, b) :: path) →
  ∃ m, heap s !! parent = Some (ModelN m) ∧ b = bucket_of key m ∧ 0 ≤ b < num_children_ m ∧ child b m = Ret old ∧
    below (size (heap s)) (heap s) (root_node_ s) parent ∧ route key s = Ret old.
Proof.
  intros Hok Hk Hroot E. destruct (get_leaf_with_spec top s ls key (Some []) Hok) as (p & Q & Hr & _ & Hd & Eg); [lia|lia|by right|].
  unfold get_leaf_path in E. rewrite Eg, res_bind_ret in E. cbn in E. injection E as -> ->.
  destruct (heap s !! root_node_ s) as [[l|mr]|] eqn:Er; [done| |done]. pose proof (tree_covers _ _ _ Hok) as Hc.
  destruct (descend_parent _ s top _ (depth_fuel s) _ ls _ old _ mr Hc Er ltac:(unfold depth_fuel; lia) Hd) as (x & m & rest & Ex & Ep & Hch & Hbl).
  injection Ex as <- Eb ->. exists m. split; [done|]. split; [done|]. split; [|by rewrite Eb]. rewrite Eb. apply bucket_of_range.
  by apply (covered_model _ _ _ _ _ _ _ Hc Hbl Ep).
Qed.

End path.

(** ** What the heap needs *)
Section steady.
Implicit Types (s : Alex) (p q k key top : Z) (ls : list Z) (m : ModelNode).

Lemma elem_of_overwrite a b p (c : list (option Z)) x : x ∈ overwrite a b p c → x = Some p ∨ x ∈ c.
Proof.
  unfold overwrite. rewrite !elem_of_app. intros [H|[H|H]]; [right|left|right].
  - apply elem_of_take in H as (i & E & _). by eapply list_elem_of_lookup_2.
  - by apply elem_of_replicate in H as [-> _].
  - apply list_elem_of_lookup in H as (i & E). rewrite lookup_drop in E. by eapply list_elem_of_lookup_2.
Qed.

(** A model node that may be put in the heap. *)
Definition node_steady (super : Z) (m : ModelNode) : Prop :=
  (∃ e, 0 ≤ e < 31 ∧ num_children_ m = 2 ^ e) ∧ Some super ∉ children_ m.

Lemma steady_grown s s' parent news :
  steady s → grown s s' parent news → root_node_ s' ≠ superroot_ s →
  (∃ sm, heap s' !! superroot_ s = Some (ModelN sm) ∧ children_ sm ≠ []) →
  (∀ q m, q = parent ∨ q ∈ news → heap s' !! q = Some (ModelN m) → node_steady (superroot_ s) m) → steady s'.
Proof.
  intros [Hh Hf _ _ Hap] [Hh' Hs Hm] Hr Hsup Hnew.
  assert (∀ q m, heap s' !! q = Some (ModelN m) → node_steady (superroot_ s) m) as Hall.
  { intros q m E. destruct (decide (q = parent ∨ q ∈ news)) as [Hq|Hq]; [by apply (Hnew q)|].
    apply Hm in E; [|tauto..]. split; [by apply (Hf q)|by apply (Hap q)]. }
  constructor; rewrite ?Hs; try done; intros q m E; by apply (Hall q).
Qed.

Lemma not_in_nones (x : Z) : Some x ∉ [None; None].
Proof. set_solver. Qed.
Lemma node_steady_overwrite super a b p m : node_steady super m → p ≠ super →
  node_steady super (with_children (overwrite a b p (children_ m)) m).
Proof. intros [He Hn] Hp. split; [done|]. cbn. intros [[=]|?]%elem_of_overwrite; [by subst|done]. Qed.
Lemma node_steady_halved super L R start dup m : node_steady super m → L ≠ super → R ≠ super →
  node_steady super (halved L R start dup m).
Proof.
  intros [He Hn] HL HR. split; [done|]. cbn. intros [[=]|[[=]|?]%elem_of_overwrite]%elem_of_overwrite; [by subst..|done].
Qed.
Lemma steady_node s q m : steady s → heap s !! q = Some (ModelN m) → node_steady (superroot_ s) m.
Proof. intros [_ Hf _ _ Hap] E. split; [by apply (Hf q)|by apply (Hap q)]. Qed.
End steady.

(** ** A split *)
Section room.
Context (junk : Z → Z) (log2 : double → double) (max_data_node_slots max_fanout : Z) (nodes : list FTNode).
Implicit Types (s : Alex) (p q k key top : Z) (ls : list Z) (m : ModelNode).

(** What [make_room] does with a fanout of two. *)
Definition split_leaf (fail key bucketID parent leaf : Z) s : res (Z * Z * Alex) :=
  let* m := get_model parent s in
  let* super := get_model (superroot_ s) s in
  let* l := get_data leaf s in
  let should_split_downwards :=
    bool_decide (max_fanout < Z.quot (num_children_ m * Z.shiftl 1 1) (Z.shiftl 1 (leaf_duplication_factor_ l))) ||
    bool_decide (mn_level_ m = mn_level_ super) in
  let* (parent, s) :=
    if should_split_downwards then split_downwards junk log2 max_data_node_slots parent bucketID 1 nodes (bool_decide (fail = 3)) s
    else let* s := split_sideways junk log2 max_data_node_slots parent bucketID 1 nodes (bool_decide (fail = 3)) s in Ret (parent, s) in
  let* m := get_model parent s in
  let* leaf := get_child_node key m in
  Ret (parent, leaf, s).

(** The parent has no room for another pointer, or is the superroot. *)
Definition goes_down (super m : ModelNode) (l : Leaf) : bool :=
  bool_decide (max_fanout < Z.quot (num_children_ m * 2) (2 ^ leaf_duplication_factor_ l)) || bool_decide (mn_level_ m = mn_level_ super).

Lemma split_leaf_eq fail key b s parent old m super (l : Leaf) :
  heap s !! parent = Some (ModelN m) → heap s !! old = Some (DataNode l) → heap s !! superroot_ s = Some (ModelN super) →
  split_leaf fail key b parent old s =
    (let* (parent, s) :=
       if goes_down super m l then split_downwards junk log2 max_data_node_slots parent b 1 nodes (bool_decide (fail = 3)) s
       else let* s := split_sideways junk log2 max_data_node_slots parent b 1 nodes (bool_decide (fail = 3)) s in Ret (parent, s) in
     let* m := get_model parent s in let* leaf := get_child_node key m in Ret (parent, leaf, s)).
Proof.
  intros Ep El Esup. unfold split_leaf. rewrite (get_model_node _ _ _ Ep), res_bind_ret, (get_model_node _ _ _ Esup), res_bind_ret, (get_data_leaf _ _ _ El), res_bind_ret.
  rewrite !Z.shiftl_1_l. done.
Qed.

(** The parent with twice the pointers, for the split of a leaf with one. *)
Definition widened m : ModelNode :=
  mkModelNode (expand (d_of_Z 2) (mn_model m)) (num_children_ m * 2) (replicate (Z.to_nat (num_children_ m * 2)) None)
    (mn_level_ m) (mn_duplication_factor_ m).

(** How the leaf [old] of the key is split in two, by the parent it was reached
    from; [cut] says that the models and the arrays allow it. *)
Inductive split_ready (cut : ModelNode → Leaf → Z → Z → Prop) (top key : Z) (s : Alex) (old parent : Z) : Prop :=
| ready_under b path m super (l : Leaf) :
    parent ≠ superroot_ s → is_leaf_ <$> heap s !! root_node_ s = Some false →
    get_leaf_path key s = Ret (old, (parent, b) :: path) → heap s !! parent = Some (ModelN m) →
    heap s !! old = Some (DataNode l) → heap s !! superroot_ s = Some (ModelN super) →
    (let dup := leaf_duplication_factor_ l in let start := start_of b (2 ^ dup) in
     if goes_down super m l then cut (down_node start dup (leaf_level_ l) (mn_model m)) l 0 1
     else cut m l start dup) → split_ready cut top key s old parent
| ready_grow b path m super (l : Leaf) :
    parent ≠ superroot_ s → is_leaf_ <$> heap s !! root_node_ s = Some false →
    get_leaf_path key s = Ret (old, (parent, b) :: path) → heap s !! parent = Some (ModelN m) →
    heap s !! old = Some (DataNode l) → heap s !! superroot_ s = Some (ModelN super) →
    goes_down super m l = false → leaf_duplication_factor_ l = 0 →
    growable top 1 m → cut (widened m) l (b * 2) 1 → split_ready cut top key s old parent
| ready_root super (l : Leaf) :
    parent = superroot_ s → root_node_ s = old → heap s !! old = Some (DataNode l) →
    leaf_duplication_factor_ l = 0 → heap s !! superroot_ s = Some (ModelN super) →
    num_children_ super = 1 → children_ super = [Some old] →
    cut (down_node 0 0 (leaf_level_ l) (mn_model super)) l 0 1 → split_ready cut top key s old parent.

Lemma split_ready_mono (cut cut' : ModelNode → Leaf → Z → Z → Prop) top key s old parent (l : Leaf) :
  heap s !! old = Some (DataNode l) → (∀ m start dup, cut m l start dup → cut' m l start dup) →
  split_ready cut top key s old parent → split_ready cut' top key s old parent.
Proof.
  intros El Hcut [b path m super l' H1 H2 H3 H4 El' H6 Hsp|b path m super l' H1 H2 H3 H4 El' H6 H7 H8 H9 Hsp|super l' H1 H2 El' H4 H5 H6 H7 Hsp];
    assert (l' = l) as -> by congruence.
  - apply (ready_under _ _ _ _ _ _ b path m super l); try done. cbv zeta in *. destruct (goes_down super m l); by apply Hcut.
  - apply (ready_grow _ _ _ _ _ _ b path m super l); try done. by apply Hcut.
  - apply (ready_root _ _ _ _ _ _ super l); try done. by apply Hcut.
Qed.

(** What a split leaves. *)
Record split_round (top key : Z) (s : Alex) (ls : list Z) (old leaf : Z) (s' : Alex) (l1 : list Z) (L R : Z) (l2 : list Z) : Prop := {
  round_list : ls = l1 ++ old :: l2;
  round_fresh : heap s !! L = None ∧ heap s !! R = None;
  round_tree : tree_ok top s' (l1 ++ L :: R :: l2);
  round_steady : steady s';
  round_keys : stat_num_keys (stats_ s') = stat_num_keys (stats_ s);
  round_pairs : pairs (heap s') (l1 ++ L :: R :: l2) = pairs (heap s) ls;
  round_route : route key s' = Ret leaf;
  round_leaf : leaf = L ∨ leaf = R;
  round_born : born s' L ∧ born s' R;
  round_moves k : 0 < k ≤ top → ∃ q, route k s = Ret q ∧ (if decide (q = old) then route k s' = Ret L ∨ route k s' = Ret R else route k s' = Ret q)
}.

(** The model node [m] with twice the slope and each pointer twice. *)
Definition twice m m' : Prop :=
  mn_model m' = expand (d_of_Z 2) (mn_model m) ∧ num_children_ m' = num_children_ m * 2 ∧
  ∀ i c, 0 ≤ i < num_children_ m → child i m = Ret c → child (i * 2) m' = Ret c ∧ child (i * 2 + 1) m' = Ret c.

(** How the pointers change: sideways, in a parent that doubles first if the
    leaf had one pointer only; below a new model node that takes the leaf's
    pointers; below a new root. *)
Inductive split_shape (key : Z) (super m : ModelNode) (l : Leaf) (s s' : Alex) (parent parent' L R : Z) : Prop :=
| shape_sideways (dup := leaf_duplication_factor_ l) :
    parent ≠ superroot_ s → goes_down super m l = false → 1 ≤ dup → parent' = parent → root_node_ s' = root_node_ s →
    heap s' !! parent = Some (ModelN (halved L R (start_of (bucket_of key m) (2 ^ dup)) dup m)) →
    split_shape key super m l s s' parent parent' L R
| shape_grown m1 :
    parent ≠ superroot_ s → goes_down super m l = false → leaf_duplication_factor_ l = 0 → parent' = parent → root_node_ s' = root_node_ s →
    twice m m1 → heap s' !! parent = Some (ModelN (halved L R (bucket_of key m * 2) 1 m1)) →
    split_shape key super m l s s' parent parent' L R
| shape_down (dup := leaf_duplication_factor_ l) (start := start_of (bucket_of key m) (2 ^ dup)) :
    parent ≠ superroot_ s → goes_down super m l = true → heap s !! parent' = None → root_node_ s' = root_node_ s →
    heap s' !! parent' = Some (ModelN (halved L R 0 1 (down_node start dup (leaf_level_ l) (mn_model m)))) →
    heap s' !! parent = Some (ModelN (with_children (overwrite start (start + 2 ^ dup) parent' (children_ m)) m)) →
    split_shape key super m l s s' parent parent' L R
| shape_root :
    parent = superroot_ s → heap s !! parent' = None → root_node_ s' = parent' →
    heap s' !! parent' = Some (ModelN (halved L R 0 1 (down_node 0 0 (leaf_level_ l) (mn_model m)))) →
    heap s' !! parent = Some (ModelN (mkModelNode (mn_model m) 1 [Some parent'] (leaf_level_ l - 1) (mn_duplication_factor_ m))) →
    split_shape key super m l s s' parent parent' L R.

Lemma moved_sides top old L R start dup m s s' :
  (∀ key, 0 ≤ key ≤ top → ∃ q, route key s = Ret q ∧ route key s' = Ret (moved old L R start dup m key q)) →
  ∀ k, 0 < k ≤ top → ∃ q, route k s = Ret q ∧ (if decide (q = old) then route k s' = Ret L ∨ route k s' = Ret R else route k s' = Ret q).
Proof.
  intros H k Hk. destruct (H k ltac:(lia)) as (q & Eq & Eq'). exists q. split; [done|]. rewrite Eq'. unfold moved.
  case_decide; [rewrite bool_decide_eq_true_2 by done|by rewrite bool_decide_eq_false_2]. case_bool_decide; tauto.
Qed.

Lemma moved_self old L R start dup m key : moved old L R start dup m key old = (if bool_decide (predict key (mn_model m) < middle start dup) then L else R).
Proof. unfold moved. by rewrite bool_decide_eq_true_2. Qed.

Lemma halved_child L R start dup m key :
  1 ≤ dup → 0 ≤ start → start + 2 ^ dup ≤ num_children_ m → Z.of_nat (length (children_ m)) = num_children_ m →
  start ≤ bucket_of key m < start + 2 ^ dup →
  child (bucket_of key m) (halved L R start dup m) = Ret (if bool_decide (predict key (mn_model m) < middle start dup) then L else R).
Proof.
  intros Hd Hs Hn Hlen Hb. destruct (middle_eq start dup Hd) as [Em Ee]. assert (0 < 2 ^ (dup - 1)) by lia. rewrite child_halved by lia.
  assert (predict key (mn_model m) < middle start dup ↔ bucket_of key m < middle start dup) as Hside by (unfold bucket_of in *; lia).
  destruct (decide (bucket_of key m < middle start dup)).
  - by rewrite !bool_decide_eq_true_2 by lia.
  - by rewrite (bool_decide_eq_false_2 (start ≤ _ < _)), bool_decide_eq_true_2, bool_decide_eq_false_2 by lia.
Qed.

(** Nothing but the pointers of the parent changed among the model nodes. *)
Lemma halved_steady s s' parent m L R start dup :
  steady s → heap s !! parent = Some (ModelN m) → parent ≠ superroot_ s → grown s s' parent [] → root_node_ s' = root_node_ s →
  heap s' !! parent = Some (ModelN (halved L R start dup m)) → next_addr s ≤ L → next_addr s ≤ R → steady s'.
Proof.
  intros Hst Ep Hpar Hg Hro Ehalf HL HR. pose proof (st_heap _ Hst) as Hh. destruct (st_super _ Hst) as (sm & Es & Hsm).
  pose proof (heap_ok_lt _ _ _ Hh Es) as Hsn. apply (steady_grown s s' parent []); [done|done|by rewrite Hro; apply Hst| |].
  - exists sm. split; [apply (gr_models _ _ _ _ Hg); [done|set_solver|done]|done].
  - intros q mq [->|Hq] Eq0; [|set_solver]. rewrite Ehalf in Eq0. injection Eq0 as <-.
    apply node_steady_halved; [by apply (steady_node s parent)|lia|lia].
Qed.

Lemma sideways_round top s ls key old parent b path m super (l : Leaf) fail :
  tree_ok top s ls → steady s → 0 < key ≤ top →
  parent ≠ superroot_ s → is_leaf_ <$> heap s !! root_node_ s = Some false →
  get_leaf_path key s = Ret (old, (parent, b) :: path) → heap s !! parent = Some (ModelN m) →
  heap s !! old = Some (DataNode l) → heap s !! superroot_ s = Some (ModelN super) → goes_down super m l = false →
  let dup := leaf_duplication_factor_ l in let start := start_of b (2 ^ dup) in splittable top nodes m l start dup →
  ∃ s' leaf l1 l2, split_leaf fail key (bucket_of key m) parent old s = Ret (parent, leaf, s') ∧
    split_round top key s ls old leaf s' l1 (next_addr s) (next_addr s + 1) l2 ∧
    split_shape key super m l s s' parent parent (next_addr s) (next_addr s + 1).
Proof.
  intros Hok Hst Hk Hpar Hroot Epath Ep El Esup Hgo dup start Hsp. pose proof (st_heap _ Hst) as Hh.
  destruct (path_parent top s ls key old parent b path Hok Hk Hroot Epath) as (m' & Ep' & Eb & Hb & Hch & Hbl & Hr).
  assert (m' = m) as -> by congruence. clear Ep'.
  destruct (split_sideways_spec junk log2 max_data_node_slots nodes top s ls parent b m old l (bool_decide (fail = 3)) Hok Hh Hbl Ep Hb Hch El Hsp)
    as (s' & l1 & l2 & -> & E & Hok' & Hbn & Hg & Hro & Hstat & Hpairs & Ehalf & Hroute).
  fold dup in Ehalf, Hroute. fold start in Ehalf, Hroute.
  destruct (Hroute key ltac:(lia)) as (q & Eq & Eq'). assert (q = old) as -> by congruence. rewrite moved_self in Eq'.
  destruct (covered_model _ _ _ _ _ _ _ (tree_covers _ _ _ Hok) Hbl Ep) as [_ Hlen].
  exists s'. eexists _, l1, l2. split; [|split].
  - rewrite (split_leaf_eq fail key _ s parent old m super l), Hgo, <- Eb by done. rewrite E, !res_bind_ret, (get_model_node _ _ _ Ehalf), res_bind_ret.
    unfold get_child_node. change (bucket_of key (halved (next_addr s) (next_addr s + 1) start dup m)) with (bucket_of key m). rewrite <- Eb.
    fold dup in Hsp. pose proof (sp_dup _ _ _ _ _ _ Hsp) as Hdup. pose proof (sp_room _ _ _ _ _ _ Hsp) as Hroom. pose proof (sp_start _ _ _ _ _ _ Hsp).
    pose proof (start_in b dup ltac:(lia) ltac:(lia)) as Hin. fold start in Hin. rewrite Eb in Hin |- *. by rewrite halved_child by lia.
  - pose proof Hh as (Hna & _ & Hfr).
    constructor; [done|split; apply Hfr; lia|done| |by rewrite Hstat|done|done|case_bool_decide; tauto|done|exact (moved_sides _ _ _ _ _ _ _ _ _ Hroute)].
    eapply (halved_steady s s' parent m); try done; lia.
  - apply shape_sideways; try done; [apply (sp_dup _ _ _ _ _ _ Hsp)|by rewrite <- Eb].
Qed.

Lemma splittable_as top m m' l l' start dup :
  splittable top nodes m l start dup → mn_model m' = mn_model m → length (children_ m') = length (children_ m) → data l' = data l →
  splittable top nodes m' l' start dup.
Proof.
  intros [[? ? ? ? Hm ? ? ? Hc] Hp] Em Ec El. unfold model_ok, middle_cut, planned_cut in *.
  constructor; [|by rewrite El]. constructor; rewrite ?Ec, ?El; try done.
  - unfold model_ok. by rewrite Em.
  - unfold middle_cut, planned_cut. by rewrite Em.
Qed.

Lemma split_sideways_grow s s1 parent b m m1 old l l1 reuse_model :
  heap s !! parent = Some (ModelN m) → child b m = Ret old → heap s !! old = Some (DataNode l) → leaf_duplication_factor_ l = 0 →
  expand_model 1 parent s = Ret (2, s1) →
  heap s1 !! parent = Some (ModelN m1) → child (b * 2) m1 = Ret old → heap s1 !! old = Some (DataNode l1) → leaf_duplication_factor_ l1 = 1 →
  split_sideways junk log2 max_data_node_slots parent b 1 nodes reuse_model s =
  split_sideways junk log2 max_data_node_slots parent (b * 2) 1 nodes reuse_model s1.
Proof.
  intros Ep Hch El Hd E Ep1 Hch1 El1 Hd1. unfold split_sideways.
  rewrite (get_model_node _ _ _ Ep), res_bind_ret, Hch, res_bind_ret, (get_data_leaf _ _ _ El), res_bind_ret, Hd.
  rewrite (bool_decide_eq_true_2 (Z.shiftl 1 0 < _)) by done. change (1 - 0) with 1. rewrite E, !res_bind_ret, (get_data_leaf _ _ _ El1), res_bind_ret.
  rewrite (get_model_node _ _ _ Ep1), res_bind_ret, Hch1, res_bind_ret, (get_data_leaf _ _ _ El1), res_bind_ret, Hd1.
  rewrite (bool_decide_eq_false_2 (Z.shiftl 1 1 < _)), res_bind_ret by done. rewrite (get_data_leaf _ _ _ El1), res_bind_ret, Hd1. done.
Qed.

Lemma grow_round top s ls key old parent b path m super (l : Leaf) fail :
  tree_ok top s ls → steady s → 0 < key ≤ top →
  parent ≠ superroot_ s → is_leaf_ <$> heap s !! root_node_ s = Some false →
  get_leaf_path key s = Ret (old, (parent, b) :: path) → heap s !! parent = Some (ModelN m) →
  heap s !! old = Some (DataNode l) → heap s !! superroot_ s = Some (ModelN super) → goes_down super m l = false →
  leaf_duplication_factor_ l = 0 → growable top 1 m → splittable top nodes (widened m) l (b * 2) 1 →
  ∃ s' leaf l1 l2, split_leaf fail key (bucket_of key m) parent old s = Ret (parent, leaf, s') ∧
    split_round top key s ls old leaf s' l1 (next_addr s) (next_addr s + 1) l2 ∧
    split_shape key super m l s s' parent parent (next_addr s) (next_addr s + 1).
Proof.
  intros Hok Hst Hk Hpar Hroot Epath Ep El Esup Hgo Hdup Hgw Hsp.
  destruct (path_parent top s ls key old parent b path Hok Hk Hroot Epath) as (m0 & Ep0 & Eb & Hb & Hch & Hbl & Hr).
  assert (m0 = m) as -> by congruence. clear Ep0.
  destruct (expand_tree top s ls parent 1 m Hok Hbl Ep Hgw) as (d & rs & Hmg & H1 & E1 & Hok1 & Hp1 & Hroute1).
  set (s1 := grown_state s parent 1 m rs) in *. set (m1 := expanded 1 m rs).
  assert (heap s1 !! parent = Some (ModelN m1)) as Ep1 by apply grown_parent.
  destruct (grown_leaf top parent 1 m rs d s b old l Ep Hmg H1 Hb Hch El) as [El1 Hch1]. fold s1 in El1. fold m1 in Hch1.
  set (l1 := with_place _ _ l) in El1. assert (leaf_duplication_factor_ l1 = 1) as Hd1 by (cbn; by rewrite Hdup).
  pose proof (grown_steady top parent 1 m rs d s Hst Ep Hmg H1 Hpar) as Hst1. fold s1 in Hst1. pose proof (st_heap _ Hst1) as Hh1.
  assert (below (size (heap s1)) (heap s1) (root_node_ s1) parent) as Hbl1.
  { apply (below_cap _ top _ (size (heap s)) _ ls); [apply Hok1|]. by apply (grown_below top parent 1 m rs d s). }
  destruct (covered_model _ _ _ _ _ _ _ (tree_covers _ _ _ Hok1) Hbl1 Ep1) as [Hn1 Hlen1]. change (num_children_ m1) with (num_children_ m * 2) in *.
  assert (splittable top nodes m1 l1 (b * 2) 1) as Hsp1.
  { apply (splittable_as top (widened m) m1 l l1); [done|done| |done]. cbn [widened children_]. rewrite length_replicate. lia. }
  assert (start_of (b * 2) (2 ^ leaf_duplication_factor_ l1) = b * 2) as Est.
  { rewrite Hd1. unfold start_of. rewrite Z.rem_mul by done. lia. }
  destruct (split_sideways_spec junk log2 max_data_node_slots nodes top s1 ls parent (b * 2) m1 old l1 (bool_decide (fail = 3)) Hok1 Hh1 Hbl1 Ep1)
    as (s' & l1' & l2' & -> & E & Hok' & Hbn & Hg & Hro & Hstat & Hpairs & Ehalf & Hroute).
  { change (num_children_ m1) with (num_children_ m * 2). lia. }
  { apply Hch1. lia. }
  { done. }
  { by rewrite Est, Hd1. }
  rewrite Est, Hd1 in Ehalf, Hroute. change (next_addr s1) with (next_addr s) in *.
  destruct (Hroute1 key ltac:(lia)) as (q & Eq & Eq1). assert (q = old) as -> by congruence.
  destruct (Hroute key ltac:(lia)) as (q & Eq' & Eq''). assert (q = old) as -> by congruence. rewrite moved_self in Eq''.
  assert (b * 2 ≤ bucket_of key m1 < b * 2 + 2 ^ 1) as Hb1.
  { assert (bucket_of key m1 / 2 ^ 1 = bucket_of key m) as Hbk by (apply (grown_bucket s top 1 m rs d H1 Hmg); lia).
    rewrite <- Eb in Hbk. change (2 ^ 1) with 2 in *. clear - Hbk. pose proof (Z.div_mod (bucket_of key m1) 2 ltac:(lia)).
    pose proof (Z.mod_pos_bound (bucket_of key m1) 2 ltac:(lia)). lia. }
  exists s'. eexists _, l1', l2'. split; [|split].
  - rewrite (split_leaf_eq fail key _ s parent old m super l), Hgo, <- Eb by done.
    rewrite (split_sideways_grow s s1 parent b m m1 old l l1 _ Ep Hch El Hdup E1 Ep1 (Hch1 (b * 2) ltac:(lia)) El1 Hd1).
    rewrite E, !res_bind_ret, (get_model_node _ _ _ Ehalf), res_bind_ret. unfold get_child_node.
    change (bucket_of key (halved _ _ _ _ m1)) with (bucket_of key m1). rewrite halved_child; [done|lia|lia|change (num_children_ m1) with (num_children_ m * 2)..|done]; lia.
  - pose proof Hst as [(Hna & _ & Hfr) _ _ _ _].
    constructor; [done|split; apply Hfr; lia|done| |by rewrite Hstat|by rewrite Hpairs|done|case_bool_decide; tauto|done|].
    + eapply (halved_steady s1 s' parent m1); try done; change (next_addr s1) with (next_addr s); lia.
    + apply (moved_sides _ old (next_addr s) (next_addr s + 1) (b * 2) 1 m1). intros k Hkk. destruct (Hroute1 k ltac:(lia)) as (q1 & Er1 & Er2).
      destruct (Hroute k ltac:(lia)) as (q2 & Er3 & Er4). assert (q2 = q1) as -> by congruence. by exists q1.
  - apply (shape_grown _ _ _ _ _ _ _ _ _ _ m1); try done; [|by rewrite <- Eb]. split; [done|]. split; [done|]. intros i c Hi Hci.
    pose proof (grown_child_at top parent 1 m rs d s i c Ep Hmg H1 Hi Hci) as Hcc. split; apply Hcc; lia.
Qed.

Lemma down_round top s ls key old parent b path m super (l : Leaf) fail :
  tree_ok top s ls → steady s → 0 < key ≤ top →
  parent ≠ superroot_ s → is_leaf_ <$> heap s !! root_node_ s = Some false →
  get_leaf_path key s = Ret (old, (parent, b) :: path) → heap s !! parent = Some (ModelN m) →
  heap s !! old = Some (DataNode l) → heap s !! superroot_ s = Some (ModelN super) → goes_down super m l = true →
  let dup := leaf_duplication_factor_ l in let nd := down_node (start_of b (2 ^ dup)) dup (leaf_level_ l) (mn_model m) in
  splittable top nodes nd l 0 1 →
  ∃ s' leaf l1 l2, split_leaf fail key (bucket_of key m) parent old s = Ret (next_addr s, leaf, s') ∧
    split_round top key s ls old leaf s' l1 (next_addr s + 1) (next_addr s + 2) l2 ∧
    split_shape key super m l s s' parent (next_addr s) (next_addr s + 1) (next_addr s + 2).
Proof.
  intros Hok Hst Hk Hpar Hroot Epath Ep El Esup Hgo dup nd Hsp. pose proof (st_heap _ Hst) as Hh.
  destruct (path_parent top s ls key old parent b path Hok Hk Hroot Epath) as (m' & Ep' & Eb & Hb & Hch & Hbl & Hr).
  assert (m' = m) as -> by congruence. clear Ep'. set (start := start_of b (2 ^ dup)) in *.
  destruct (split_downwards_spec junk log2 max_data_node_slots nodes top s ls parent b m old l (bool_decide (fail = 3)) Hok Hh Hbl Hpar Ep Hb Hch El Hsp)
    as (s' & l1 & l2 & -> & E & Hok' & Hbn & Hg & Hro & Hstat & Epar & Hpairs & EN & Hroute).
  fold dup in EN, Hroute, Epar. fold start in EN, Hroute, Epar. fold nd in EN, Hroute.
  destruct (Hroute key ltac:(lia)) as (q & Eq & Eq'). assert (q = old) as -> by congruence. rewrite moved_self in Eq'.
  exists s'. eexists _, l1, l2. split; [|split].
  - rewrite (split_leaf_eq fail key _ s parent old m super l), Hgo, <- Eb by done. rewrite E, !res_bind_ret, (get_model_node _ _ _ EN), res_bind_ret.
    unfold get_child_node. change (bucket_of key (halved (next_addr s + 1) (next_addr s + 2) 0 1 nd)) with (bucket_of key nd).
    rewrite (pair_child top) by by apply (splittable_childless nodes top nd l). by rewrite res_bind_ret.
  - pose proof Hh as (Hna & _ & Hfr). assert (superroot_ s < next_addr s) as Hsn by (by eapply heap_ok_lt).
    constructor; [done|split; apply Hfr; lia|done| |by rewrite Hstat|done|done|case_bool_decide; tauto|done|exact (moved_sides _ _ _ _ _ _ _ _ _ Hroute)].
    apply (steady_grown s s' parent [next_addr s]); [done|done|by rewrite Hro; apply Hst| |].
    + exists super. split; [apply (gr_models _ _ _ _ Hg); [done|rewrite list_elem_of_singleton; lia|done]|].
      destruct (st_super _ Hst) as (sm & E1 & E2). by assert (super = sm) as -> by congruence.
    + intros q mq [->| ->%list_elem_of_singleton] Eq0.
      * rewrite Epar in Eq0. injection Eq0 as <-. apply node_steady_overwrite; [by apply (steady_node s parent)|lia].
      * rewrite EN in Eq0. injection Eq0 as <-. apply node_steady_halved; [|lia..]. split; [by exists 1|].
        apply not_in_nones.
  - pose proof Hh as (_ & _ & Hfr). apply shape_down; try done; [by apply Hfr|by rewrite <- Eb..].
Qed.

(** A tree of one model node and two leaves. *)
Lemma pair_tree top s N L R m (lL lR l : Leaf) :
  childless top m → root_node_ s = N → heap s !! N = Some (ModelN (halved L R 0 1 m)) →
  heap s !! L = Some (DataNode lL) → leaf_duplication_factor_ lL = 0 →
  heap s !! R = Some (DataNode lR) → leaf_duplication_factor_ lR = 0 → L ≠ R →
  chain (heap s) 0 [L; R] → parted m 0 1 lL lR l → (∀ k, k ∈ (contents (data l)).*1 → k ≤ top) → top < kEndSentinel_ →
  tree_ok top s [L; R] ∧ pairs (heap s) [L; R] = contents (data l) ∧
  (∀ key, route key s = Ret (if bool_decide (predict key (mn_model m) < middle 0 1) then L else R)).
Proof.
  intros Hm Hr EN EL DL ER DR HLR Hch [[[WL _] [WR _]] Hall Hl Hrt] Hk Ht.
  assert (∀ key, route key s = Ret (if bool_decide (predict key (mn_model m) < middle 0 1) then L else R)) as Hroute.
  { intros key. rewrite route_reach, Hr. assert (∃ f, depth_fuel s = S (S f)) as [f ->]; [|by apply (pair_reach f key N s top m L R lL lR)].
    unfold depth_fuel. assert (size (heap s) ≠ 0%nat) as Hsz by (intros E%map_size_empty_inv; by rewrite E in EN).
    destruct (size (heap s)) as [|f]; [done|by exists f]. }
  assert (leaf_pairs (heap s) L = contents (data lL) ∧ leaf_pairs (heap s) R = contents (data lR)) as [HpL HpR]
    by (unfold leaf_pairs; by rewrite EL, ER).
  split; [constructor|split; [|done]].
  - rewrite Hr. apply (covers_size 2). by apply (pair_covers 0 _ top N m L R lL lR).
  - apply NoDup_cons. split; [set_solver|apply NoDup_singleton].
  - done.
  - intros q lq Hq Eq. assert (q = L ∨ q = R) as [->| ->] by set_solver; congruence.
  - intros q k Hq Hkq. rewrite Hroute.
    assert (q = L ∨ q = R) as [->| ->] by set_solver; rewrite ?HpL, ?HpR in Hkq;
      (split; [apply Hk; rewrite Hall, fmap_app; set_solver|]).
    + by rewrite bool_decide_eq_true_2 by by apply Hl.
    + specialize (Hrt k Hkq). by rewrite bool_decide_eq_false_2 by lia.
  - done.
  - unfold pairs. cbn. by rewrite HpL, HpR, app_nil_r.
Qed.

(** The heap after a split of the root: the superroot points to the new node. *)
Lemma split_root_spec top s old super l reuse_model :
  tree_ok top s [old] → heap_ok s → root_node_ s = old → heap s !! old = Some (DataNode l) → leaf_duplication_factor_ l = 0 →
  heap s !! superroot_ s = Some (ModelN super) → num_children_ super = 1 → children_ super = [Some old] →
  let nd := down_node 0 0 (leaf_level_ l) (mn_model super) in
  splittable top nodes nd l 0 1 →
  let N := next_addr s in let L := N + 1 in let R := N + 2 in
  ∃ s', split_downwards junk log2 max_data_node_slots (superroot_ s) 0 1 nodes reuse_model s = Ret (N, s') ∧
    grown s s' (superroot_ s) [N] ∧ root_node_ s' = N ∧ stats_ s' = stats_ (add_nodes 1 1 s) ∧
    heap s' !! superroot_ s = Some (ModelN (mkModelNode (mn_model super) 1 [Some N] (leaf_level_ l - 1) (mn_duplication_factor_ super))) ∧
    heap s' !! N = Some (ModelN (halved L R 0 1 nd)) ∧
    tree_ok top s' [L; R] ∧ (born s' L ∧ born s' R) ∧ pairs (heap s') [L; R] = pairs (heap s) [old] ∧
    (∀ key, route key s' = Ret (if bool_decide (predict key (mn_model nd) < middle 0 1) then L else R)).
Proof.
  intros Hok Hh Hr El Hdup Es Hn1 Hch nd Hsp N L R. set (S := superroot_ s) in *.
  destruct (new_pair_spec junk log2 max_data_node_slots nodes top s [] old [] l nd reuse_model Hh (tree_chain _ _ _ Hok) (tree_nodup _ _ _ Hok) El eq_refl Hsp)
    as (s2 & h & lL & lR & E2 & E3 & Hc' & Hnp). pose proof Hnp as [EN (EL & DL) (ER & DR) Hgone Hpart (Hna & Hz & Hfresh) Hsame].
  fold N in Hc', EN, EL, ER, Hsame. fold L in Hc', EN, EL. fold R in Hc', EN, ER. cbn [app] in Hc'.
  pose proof (heap_ok_lt _ _ _ Hh El) as Holt. pose proof (heap_ok_lt _ _ _ Hh Es) as Hslt. fold N in Holt, Hslt.
  assert (S ≠ old) as Hso by (intros E; rewrite E in Es; congruence).
  assert (h !! S = Some (ModelN super)) as Es'.
  { apply (same_links_model (heap s !! S)); [|done]. by apply Hsame. }
  set (super' := with_children [Some N] super). set (s4 := set_model S super' (add_nodes 1 (-1) (paired s h))).
  set (super'' := mkModelNode (mn_model super) 1 [Some N] (leaf_level_ l - 1) (mn_duplication_factor_ super)).
  set (s' := set_model S super'' (with_root N s4)).
  assert (heap s' !! S = Some (ModelN super'') ∧ ∀ q, q ≠ S → heap s' !! q = h !! q) as [Esup Hins].
  { split; [apply lookup_insert_eq|]. intros q Hq. unfold s', s4. cbn. by rewrite !lookup_insert_ne. }
  assert (heap s' !! L = Some (DataNode lL) ∧ heap s' !! R = Some (DataNode lR) ∧ heap s' !! N = Some (ModelN (halved L R 0 1 nd)))
    as (EL' & ER' & EN') by (rewrite !Hins; unfold L, R; lia || done).
  exists s'. split.
  { rewrite (split_downwards_eq junk log2 max_data_node_slots nodes s S 0 super old l reuse_model s2 (paired s h)); [|done|by unfold child, rd; rewrite Hch|done|by rewrite Hdup|done].
    rewrite Hdup. fold N. change (start_of 0 (2 ^ 0)) with 0. change (0 + 2 ^ 0) with 1. rewrite (set_children_spec _ _ _ _ super) by (done || (rewrite ?Hch; cbn; lia)). rewrite res_bind_ret, Hch.
    change (overwrite _ _ _ [Some old]) with [Some N]. fold super' s4. rewrite bool_decide_eq_true_2 by done.
    assert (heap (with_root N s4) !! N = Some (ModelN (halved L R 0 1 nd)) ∧ heap (with_root N s4) !! S = Some (ModelN super')) as [E5 E6].
    { unfold s4. cbn. rewrite lookup_insert_eq, lookup_insert_ne by lia. done. }
    unfold update_superroot_pointer, get_node. change (root_node_ (with_root N s4)) with N. rewrite E5. cbn [of_option]. rewrite res_bind_ret.
    change (superroot_ (with_root N s4)) with S. rewrite (get_model_node _ _ _ E6), res_bind_ret. unfold set_child, wr. cbn. unfold s', super''. rewrite <- Hn1. done. }
  assert (grown s s' S [N]) as Hg.
  { pose proof Hh as (_ & H0 & Hf). constructor; [split; [done|split]|done|].
    - rewrite Hins; [done|]. intros E. unfold S in *. rewrite <- E in Es. congruence.
    - intros q Hq'. rewrite Hins; [by apply Hfresh|]. change (N + 3 ≤ q) in Hq'. lia.
    - intros q mq Hqp Hqn. assert (q ≠ N) as HqN by set_solver. destruct (decide (q = old)) as [->|Hqo].
      { apply no_model; [right; by exists l|left; by rewrite Hins]. }
      destruct (decide (q = L)) as [->|HqL]; [apply no_model; [left; apply Hf; unfold L, N; lia|right; by exists lL]|].
      destruct (decide (q = R)) as [->|HqR]; [apply no_model; [left; apply Hf; unfold R, N; lia|right; by exists lR]|].
      rewrite Hins by done. destruct (Z.lt_ge_cases q N) as [?|Hge]; [by apply same_links_model, Hsame|].
      apply no_model; left; [by apply Hf|apply Hfresh; cbn; fold N; lia]. }
  assert (chain (heap s') 0 [L; R]) as Hc.
  { apply (leaf_chain_frame h); [|done]. intros q lq Hq Eq. exists lq. rewrite Hins; [done|]. intros ->. congruence. }
  destruct (pair_tree top s' N L R nd lL lR l) as (Hok' & Hpairs & Hroute); [by apply (splittable_childless nodes top nd l)|try done..].
  { unfold L, R. lia. }
  { apply (sp_keys _ _ _ _ _ _ Hsp). }
  { apply (tree_top _ _ _ Hok). }
  split; [done|]. split; [done|]. split; [unfold s', s4, add_nodes, with_stats; cbn; f_equal; lia|]. do 2 (split; [done|]).
  split; [done|]. split; [destruct Hpart as [[]]; split; by eexists|]. split; [|done]. rewrite Hpairs. unfold pairs, leaf_pairs. cbn. by rewrite El, app_nil_r.
Qed.

Lemma root_round top s ls key old super (l : Leaf) fail :
  tree_ok top s ls → steady s → root_node_ s = old → heap s !! old = Some (DataNode l) →
  leaf_duplication_factor_ l = 0 → heap s !! superroot_ s = Some (ModelN super) →
  num_children_ super = 1 → children_ super = [Some old] →
  splittable top nodes (down_node 0 0 (leaf_level_ l) (mn_model super)) l 0 1 →
  ∃ s' leaf, split_leaf fail key (bucket_of key super) (superroot_ s) old s = Ret (next_addr s, leaf, s') ∧
    split_round top key s ls old leaf s' [] (next_addr s + 1) (next_addr s + 2) [] ∧
    split_shape key super super l s s' (superroot_ s) (next_addr s) (next_addr s + 1) (next_addr s + 2).
Proof.
  intros Hok Hst Hr El Hdup Es Hn1 Hch Hsp. pose proof (st_heap _ Hst) as Hh. set (S := superroot_ s) in *.
  assert (ls = [old]) as ->.
  { pose proof (tree_covers _ _ _ Hok) as Hc. destruct (size (heap s)); [done|]. cbn [covers] in Hc. by rewrite Hr, El in Hc. }
  destruct (split_root_spec top s old super l (bool_decide (fail = 3)) Hok Hh Hr El Hdup Es Hn1 Hch Hsp)
    as (s' & E & Hg & Hro & Hstat & Esup & EN & Hok' & Hbn & Hpairs & Hroute). fold S in E, Hg, Esup.
  set (nd := down_node 0 0 (leaf_level_ l) (mn_model super)) in *. exists s'. eexists. split; [|split].
  - rewrite (split_leaf_eq fail key _ s S old super super l) by done.
    unfold goes_down. rewrite (bool_decide_eq_true_2 (mn_level_ super = _)), orb_true_r by done.
    assert (bucket_of key super = 0) as -> by (unfold bucket_of; rewrite Hn1; lia).
    rewrite E, !res_bind_ret, (get_model_node _ _ _ EN), res_bind_ret. unfold get_child_node.
    change (bucket_of key (halved (next_addr s + 1) (next_addr s + 2) 0 1 nd)) with (bucket_of key nd).
    rewrite (pair_child top) by by apply (splittable_childless nodes top nd l). by rewrite res_bind_ret.
  - pose proof Hh as (Hna & _ & Hfr). pose proof (heap_ok_lt _ _ _ Hh Es) as Hsn. fold S in Hsn.
    constructor; [done|split; apply Hfr; lia|done| |by rewrite Hstat|done|done|destruct (bool_decide (_ < _)); tauto|done|].
    + apply (steady_grown s s' S [next_addr s]); [done|done|fold S; lia|by eexists|].
      fold S. intros q mq [->| ->%list_elem_of_singleton] Eq0.
      * rewrite Esup in Eq0. injection Eq0 as <-. split; [by exists 0|]. cbn. rewrite list_elem_of_singleton. intros [=]. lia.
      * rewrite EN in Eq0. injection Eq0 as <-. apply node_steady_halved; [|lia..]. split; [by exists 1|]. apply not_in_nones.
    + intros k Hk. destruct (get_leaf_spec top s [old] k Hok) as (q & _ & Er & ->%list_elem_of_singleton); [lia..|]. exists old. split; [done|].
      rewrite decide_True by done. rewrite !Hroute. destruct (bool_decide (_ < _)); tauto.
  - pose proof Hh as (_ & _ & Hfr). apply shape_root; try done. by apply Hfr.
Qed.

Lemma split_leaf_spec top s ls key old parent m fail :
  tree_ok top s ls → steady s → 0 < key ≤ top → heap s !! parent = Some (ModelN m) → split_ready (splittable top nodes) top key s old parent →
  ∃ parent' leaf s' l1 L R l2, split_leaf fail key (bucket_of key m) parent old s = Ret (parent', leaf, s') ∧
    split_round top key s ls old leaf s' l1 L R l2 ∧
    ∃ super (l : Leaf), heap s !! superroot_ s = Some (ModelN super) ∧ heap s !! old = Some (DataNode l) ∧ split_shape key super m l s s' parent parent' L R.
Proof.
  intros Hok Hst Hk Em [b path m' super l Hpar Hroot Epath Ep El Es Hsp|b path m' super l Hpar Hroot Epath Ep El Es Hgo Hd Hgw Hsp|super l -> Hr El Hd Es Hn Hc Hsp]; cbv zeta in *.
  - assert (m' = m) as -> by congruence. destruct (goes_down super m l) eqn:Hgo.
    + destruct (down_round top s ls key old parent b path m super l fail) as (s' & leaf & l1 & l2 & E & H & Hsh); [done..|]. eexists _, leaf, s', l1, _, _, l2. split; [done|]. split; [done|]. by exists super, l.
    + destruct (sideways_round top s ls key old parent b path m super l fail) as (s' & leaf & l1 & l2 & E & H & Hsh); [done..|]. eexists _, leaf, s', l1, _, _, l2. split; [done|]. split; [done|]. by exists super, l.
  - assert (m' = m) as -> by congruence.
    destruct (grow_round top s ls key old parent b path m super l fail) as (s' & leaf & l1 & l2 & E & H & Hsh); [done..|]. eexists _, leaf, s', l1, _, _, l2. split; [done|]. split; [done|]. by exists super, l.
  - assert (super = m) as -> by congruence.
    destruct (root_round top s ls key old m l fail) as (s' & leaf & E & H & Hsh); [done..|]. eexists _, leaf, s', [], _, _, []. split; [done|]. split; [done|]. by exists m, l.
Qed.
End room.
