(* ===== verification/AlexRound.v ===== *)
(** * ALEX: a round of the loop of [insert]

    The key domain of a root that is a leaf is brought up to date, the policy
    decides, by the costs or without them, whether the full leaf is split in two
    or gets larger arrays and a new model, and that is done. *)
From S2P Require Import Prelude Ieee AlexBase AlexNode AlexOps AlexInv AlexSearch AlexBuild AlexCost AlexFanout AlexTree AlexTreeOps AlexRoute AlexTreeInv AlexTreeOk AlexTreeLookup AlexTreeUpdate AlexLink AlexSubtree AlexSplit AlexSplitPlan AlexMergeLoop AlexTreeErase AlexLoad AlexLoadTree AlexRoom.

(** ** The plan only counts *)
Section plan.
Context (log2 : double → double).
Implicit Types (s : Alex).

(** The plan of a round changes the counters of the leaf at most; it is there if
    the leaf is kept, and of two parts of the leaf if it has two. *)
Lemma split_plan_still max_fanout policy fail parent bucket (m : ModelNode) s c (l : Leaf) depth nodes s' :
  child bucket m = Ret c → heap s !! c = Some (DataNode l) → node_ok (data l) →
  split_plan log2 max_fanout policy fail parent bucket m s = Ret (depth, nodes, s') →
  ∃ n, same_node (data l) n ∧ s' = set_data c (with_data n l) s ∧ (depth = 0 → ∃ t, nodes = [t]) ∧ (depth = 1 → well_planned nodes n).
Proof.
  intros Hc El Hok. unfold split_plan. case_match.
  - intros [= <- <- <-]. exists (data l). split; [apply same_node_refl|]. split; [|by split].
    unfold set_data, set_node. rewrite insert_id by (rewrite El; by destruct l). by destruct s.
  - rewrite Hc, res_bind_ret, (get_data_leaf _ _ _ El), res_bind_ret. intros ([[n ts] d] & E & [= <- <- <-])%res_bind_Ret_inv.
    assert (same_node (data l) n) as Hs by (by eapply existing_node_still). exists n. do 2 (split; [done|]). split.
    + intros ->. by apply existing_plan_keep in E.
    + intros ->. apply existing_plan in E; [|done]. by destruct Hs as [k ->].
Qed.
End plan.

(** ** The key domain is brought up to date *)
Section domain.
Implicit Types (s : Alex) (p q k key top : Z) (ls : list Z) (m : ModelNode).

(** What a round that keeps the leaves leaves. *)
Record kept_round (top : Z) (s : Alex) (s' : Alex) (ls ls' : list Z) : Prop := {
  kr_tree : tree_ok top s' ls';
  kr_steady : steady s';
  kr_pairs : pairs (heap s') ls' = pairs (heap s) ls;
  kr_keys : stat_num_keys (stats_ s') = stat_num_keys (stats_ s)
}.

Lemma same_below_ok top s s' ls : tree_ok top s ls → root_node_ s' = root_node_ s →
  (∀ q, below (size (heap s)) (heap s) (root_node_ s) q → heap s' !! q = heap s !! q) →
  tree_ok top s' ls ∧ pairs (heap s') ls = pairs (heap s) ls ∧ ∀ key, 0 ≤ key ≤ top → route key s' = route key s.
Proof.
  intros [Hc Hnd Hch Hwf Hrt Ht] Hr Hs. pose proof (agree_same _ _ _ _ Hs) as Ha. pose proof (covers_frame _ _ _ _ _ _ Hc Ha) as Hc'.
  assert (∀ q, q ∈ ls → heap s' !! q = heap s !! q) as Hq by (intros q Hin; apply Hs; by eapply leaf_below_root).
  assert (∀ q, q ∈ ls → leaf_pairs (heap s') q = leaf_pairs (heap s) q) as Hlp by (intros q Hin; unfold leaf_pairs; by rewrite Hq).
  assert (∀ key, 0 ≤ key ≤ top → route key s' = route key s) as Hroute.
  { intros key Hk. change kEndSentinel_ with (2 ^ 64 - 1) in Ht. destruct (covers_reach _ s top _ ls (depth_fuel s) key Hc) as (q & E & _); [unfold depth_fuel; lia|lia|done|].
    rewrite (route_reach key s), E. apply (route_at (size (heap s)) (depth_fuel s) top s' ls); rewrite ?Hr; [done|lia|done|].
    by rewrite (reach_frame _ s s' top key _ ls _ Hc Ha) by (unfold depth_fuel; lia). }
  split; [|split; [by apply pairs_ext|done]]. constructor; [rewrite Hr; by eapply covers_size|done| | | |done].
  - apply (leaf_chain_frame (heap s)); [|done]. intros q l Hin El. exists l. by rewrite Hq.
  - intros q l Hin. rewrite Hq by done. by apply Hwf.
  - intros q k Hin. rewrite Hlp by done. intros Hk. destruct (Hrt q k Hin Hk) as [Hkt Hrk]. split; [done|]. rewrite Hroute; [done|]. split; [|done].
    pose proof (covers_leaf _ _ _ _ _ q Hc Hin) as (l & El). unfold leaf_pairs in Hk. rewrite El in Hk. destruct (ok_keys _ (proj1 (Hwf q l Hin El))) as [_ Hf].
    rewrite list.Forall_forall in Hf. by apply Hf.
Qed.

Lemma key_domain_ok top s ls : tree_ok top s ls → steady s →
  ∃ s', update_superroot_key_domain s = Ret s' ∧ kept_round top s s' ls ls ∧ (∀ key, 0 ≤ key ≤ top → route key s' = route key s) ∧
    (∀ q, q ≠ superroot_ s → heap s' !! q = heap s !! q) ∧ superroot_ s' = superroot_ s ∧ root_node_ s' = root_node_ s.
Proof.
  intros Hok Hst. destruct (st_super _ Hst) as (sm & Es & Hsm). destruct (key_domain_spec _ top s ls sm (tree_covers _ _ _ Hok)) as (lo & hi & ->); [|done|].
  { intros q l Hq El. by apply (tree_wf _ _ _ Hok q l). }
  match goal with |- ∃ s', Ret ?x = _ ∧ _ => set (s' := x) end. assert (∀ q, q ≠ superroot_ s → heap s' !! q = heap s !! q) as Hs by (intros q Hq; by apply lookup_insert_ne).
  destruct (same_below_ok top s s' ls Hok) as (Hok' & Hp & Hr); [done|intros q Hq; apply Hs; intros ->; by apply (super_not_below s _ Hst) in Hq|].
  exists s'. split; [done|]. split; [constructor; [done| |done|done]|done].
  pose proof Hst as [(Hn0 & H0 & Hf) Hfan _ Hroot Hap]. assert (superroot_ s ≠ 0) as Hs0 by (intros E; rewrite E in Es; congruence).
  assert (∀ q m, heap s' !! q = Some (ModelN m) → ∃ q0 m0, heap s !! q0 = Some (ModelN m0) ∧ num_children_ m = num_children_ m0 ∧ children_ m = children_ m0) as Hm.
  { intros q m. destruct (decide (q = superroot_ s)) as [->|Hq]; [|rewrite Hs by done; intros E; by exists q, m].
    unfold s'. cbn. rewrite lookup_insert_eq. intros [= <-]. by exists (superroot_ s), sm. }
  constructor.
  - split; [done|]. split; [by rewrite Hs|]. intros q Hq. change (next_addr s') with (next_addr s) in Hq. destruct (decide (q = superroot_ s)) as [->|Hne]; [|rewrite Hs by done; by apply Hf].
    rewrite Hf in Es by done. done.
  - intros q m (q0 & m0 & E0 & -> & _)%Hm. by apply (Hfan q0).
  - eexists. split; [apply lookup_insert_eq|done].
  - done.
  - intros q m (q0 & m0 & E0 & _ & ->)%Hm. by apply (Hap q0).
Qed.
End domain.

(** ** The round *)
Section round.
Context (junk : Z → Z) (log2 : double → double) (max_data_node_slots max_fanout splitting_policy_method : Z).
Implicit Types (s : Alex) (p q k key top : Z) (ls : list Z) (m : ModelNode) (nodes : list FTNode).
Local Abbreviation make_room := (make_room junk log2 max_fanout max_data_node_slots splitting_policy_method).

(** The decision about the leaf [old] of the key: a fanout of [2 ^ depth] with
    the plan [nodes], in the state [s2]. *)
Definition decided (fail key : Z) s (old parent depth : Z) nodes m s2 : Prop :=
  ∃ s1, (if bool_decide (parent = superroot_ s) then update_superroot_key_domain s else Ret s) = Ret s1 ∧
    heap s1 !! parent = Some (ModelN m) ∧ child (bucket_of key m) m = Ret old ∧ route key s = Ret old ∧
    split_plan log2 max_fanout splitting_policy_method fail parent (bucket_of key m) m s1 = Ret (depth, nodes, s2).

(** The leaf is kept. *)
Definition retrains (fail key : Z) s (old parent : Z) : Prop :=
  ∃ nodes m s2 (l : Leaf), decided fail key s old parent 0 nodes m s2 ∧ heap s !! old = Some (DataNode l) ∧ 0 < num_keys_ (data l) ≤ 2 ^ 26.
(** The leaf is split in two. *)
Definition splits (top fail key : Z) s (old parent : Z) : Prop :=
  ∃ nodes m s2, decided fail key s old parent 1 nodes m s2 ∧ split_ready max_fanout (cuttable top nodes) top key s2 old parent.

Lemma set_same_ok top s ls p (l : Leaf) n : tree_ok top s ls → steady s → p ∈ ls → heap s !! p = Some (DataNode l) → node_wf n → contents n = contents (data l) →
  let s' := set_data p (with_data n l) s in kept_round top s s' ls ls ∧ ∀ key, route key s' = route key s.
Proof.
  intros Hok Hst Hp El Hn Hc s'. destruct (tree_split_at top s ls p Hok Hp) as (l1 & l2 & l0 & -> & El0 & _ & Elp). assert (l0 = l) as -> by congruence.
  destruct (set_leaf_ok top s l1 p l2 l n Hok El Hn) as (Hok' & Hpp & Hr).
  { intros k. rewrite Hc, <- Elp. by apply (tree_routed _ _ _ Hok). }
  split; [|done]. constructor; [done| | |done].
  - apply (steady_shape s); [by apply (same_shape_insert _ _ l)|done..].
  - fold s' in Hpp. rewrite Hpp, Hc, pairs_app, pairs_cons. by rewrite Elp.
Qed.

(** What the decision leaves: the tree as it was, up to counters and the model of
    the superroot. *)
Lemma decided_state top s ls key old parent fail depth nodes m s2 :
  tree_ok top s ls → steady s → 0 < key ≤ top → decided fail key s old parent depth nodes m s2 →
  ∃ (l : Leaf) n, ((depth = 0 → ∃ t, nodes = [t]) ∧ (depth = 1 → well_planned nodes n)) ∧ heap s !! old = Some (DataNode l) ∧ same_node (data l) n ∧ node_wf (data l) ∧ old ∈ ls ∧
    kept_round top s s2 ls ls ∧ (∀ k, 0 ≤ k ≤ top → route k s2 = route k s) ∧ heap s2 !! parent = Some (ModelN m) ∧ heap s2 !! old = Some (DataNode (with_data n l)) ∧
    ∀ q, heap s2 !! q = None → heap s !! q = None.
Proof.
  intros Hok Hst Hk (s1 & E1 & Em & Hch & Hr & Epl).
  destruct (get_leaf_spec top s ls key Hok) as (p & _ & Hr' & Hin); [lia..|]. assert (p = old) as -> by congruence.
  destruct (tree_leaf top s ls old Hok Hin) as (l & El & Hwf).
  assert (kept_round top s s1 ls ls ∧ (∀ k, 0 ≤ k ≤ top → route k s1 = route k s) ∧ heap s1 !! old = heap s !! old ∧ ∀ q, heap s1 !! q = None → heap s !! q = None)
    as ([Hok1 Hst1 Hp1 Hk1] & Hr1 & Eo & Hnone).
  { destruct (bool_decide (parent = superroot_ s)); [|injection E1 as <-; by split; [constructor|]].
    destruct (key_domain_ok top s ls Hok Hst) as (x & Ex & Hx & Hrx & Hsame & Esup & _). assert (x = s1) as -> by congruence.
    destruct (st_super _ Hst) as (sm & Es & _). destruct (st_super _ (kr_steady _ _ _ _ _ Hx)) as (sm' & Es' & _). rewrite Esup in Es'.
    split; [done|]. split; [done|]. split; [apply Hsame; congruence|].
    intros q Eq. destruct (decide (q = superroot_ s)) as [->|Hq]; [congruence|by rewrite <- Hsame]. }
  rewrite El in Eo. destruct (split_plan_still log2 _ _ _ _ _ _ _ _ l _ _ _ Hch Eo (proj1 Hwf) Epl) as (n & Hsn & -> & Hplan).
  destruct (same_node_ok _ _ Hsn (proj1 Hwf)) as [Hnok Hnc]. assert (node_wf n) as Hnwf by (split; [done|by destruct Hsn as [c ->]; apply Hwf]).
  destruct (set_same_ok top s1 ls old l n Hok1 Hst1 Hin Eo Hnwf Hnc) as ([Hok2 Hst2 Hp2 Hk2] & Hr2).
  exists l, n. do 5 (split; [done|]). split; [constructor; [done|done|by rewrite Hp2|by rewrite Hk2]|]. split; [intros k Hkk; rewrite Hr2; by apply Hr1|].
  assert (parent ≠ old) as Hpo by (intros ->; congruence).
  split; [cbn; by rewrite lookup_insert_ne|]. split; [apply lookup_insert_eq|].
  intros q. cbn. intros [Eq _]%lookup_insert_None. by apply Hnone.
Qed.

Lemma decided_keep fail key s old parent nodes m s2 : decided fail key s old parent 0 nodes m s2 →
  make_room fail key parent old s = (let* t := of_option (head nodes) in let* s := retrain junk old t s2 in Ret (parent, old, s)).
Proof.
  intros (s1 & E1 & Em & _ & _ & Epl). unfold AlexTreeOps.make_room.
  by rewrite E1, res_bind_ret, (get_model_node _ _ _ Em), res_bind_ret, Epl, res_bind_ret, (bool_decide_eq_true_2 (0 = 0)).
Qed.
Lemma decided_split fail key s old parent nodes m s2 : decided fail key s old parent 1 nodes m s2 →
  make_room fail key parent old s = split_leaf junk log2 max_data_node_slots max_fanout nodes fail key (bucket_of key m) parent old s2.
Proof.
  intros (s1 & E1 & Em & _ & _ & Epl). unfold AlexTreeOps.make_room.
  by rewrite E1, res_bind_ret, (get_model_node _ _ _ Em), res_bind_ret, Epl, res_bind_ret, (bool_decide_eq_false_2 (1 = 0)).
Qed.

Lemma retrain_round top s ls key old parent fail :
  tree_ok top s ls → steady s → 0 < key ≤ top → retrains fail key s old parent →
  ∃ s', make_room fail key parent old s = Ret (parent, old, s') ∧ kept_round top s s' ls ls ∧ route key s' = Ret old ∧ born s' old.
Proof.
  intros Hok Hst Hk (nodes & m & s2 & l & Hde & El & Hn). rewrite (decided_keep _ _ _ _ _ _ _ _ Hde).
  destruct (decided_state top s ls key old parent fail _ _ _ _ Hok Hst Hk Hde) as (l' & n & [Hplan _] & El' & Hsn & Hwf & Hin & [Hok2 Hst2 Hp2 Hk2] & Hr2 & _ & Eo & _).
  destruct (Hplan eq_refl) as (t & ->).
  assert (l' = l) as -> by congruence. destruct (same_node_ok _ _ Hsn (proj1 Hwf)) as [Hnok Hnc].
  destruct (resize_spec junk kMinDensity_ true (is_append_mostly_right n) (is_append_mostly_left n) n Hnok) as (n' & Er & Hwf' & Hc' & _ & _ & _ & Hroom).
  { destruct Hsn as [c ->]. change (num_keys_ (data l) ≠ 0). lia. }
  { apply capacity_for_bound; [|apply min_density_within]. destruct Hsn as [c ->]. change (0 ≤ num_keys_ (data l) ≤ 2 ^ 26). lia. }
  set (n2 := reset_stats (with_expected_of t (with_cost (ft_cost t) n'))).
  assert (num_keys_ n' ≤ 2 ^ 26) as Hn'.
  { rewrite (ok_count n' (proj1 Hwf')), Hc', <- (ok_count n Hnok). destruct Hsn as [c ->]. apply Hn. }
  assert (node_wf n2 ∧ contents n2 = contents n) as [Hwf2 Hc2].
  { split; [|done]. destruct Hwf' as [[] Hth]. split; [by constructor|done]. }
  destruct (set_same_ok top s2 ls old (with_data n l) n2 Hok2 Hst2 Hin Eo Hwf2 Hc2) as ([Hok' Hst' Hp' Hk'] & Hr').
  exists (set_data old (with_data n2 (with_data n l)) s2). split; [|split; [constructor; [done|done|by rewrite Hp'|by rewrite Hk']|split; [rewrite Hr', Hr2 by lia; by destruct Hde as (? & _ & _ & _ & ? & _)|]]].
  - cbn [head of_option]. rewrite res_bind_ret. unfold retrain. rewrite (get_data_leaf _ _ _ Eo), res_bind_ret.
    cbn [data with_data]. by rewrite Er, !res_bind_ret.
  - eexists. split; [apply lookup_insert_eq|]. by split.
Qed.

(** The nodes the decision is about: the parent and the superroot, once the key
    domain of a root that is a leaf is up to date, and the leaf. *)
Definition found s (old parent : Z) (super m : ModelNode) (l : Leaf) : Prop :=
  ∃ s1, (if bool_decide (parent = superroot_ s) then update_superroot_key_domain s else Ret s) = Ret s1 ∧
    heap s1 !! superroot_ s = Some (ModelN super) ∧ heap s1 !! parent = Some (ModelN m) ∧ heap s !! old = Some (DataNode l).

Lemma decided_found top s ls key old parent fail depth nodes m s2 super n (l : Leaf) :
  tree_ok top s ls → steady s → decided fail key s old parent depth nodes m s2 →
  heap s !! old = Some (DataNode l) → heap s2 !! old = Some (DataNode (with_data n l)) → node_ok (data l) →
  heap s2 !! superroot_ s2 = Some (ModelN super) →
  root_node_ s2 = root_node_ s ∧ superroot_ s2 = superroot_ s ∧ found s old parent super m l.
Proof.
  intros Hok Hst (s1 & E1 & Em & Hch & Hr & Epl) El Eo Hn Es2.
  assert (root_node_ s1 = root_node_ s ∧ superroot_ s1 = superroot_ s ∧ heap s1 !! old = heap s !! old) as (Er & Es & Eold).
  { destruct (bool_decide (parent = superroot_ s)); [|by injection E1 as <-].
    destruct (key_domain_ok top s ls Hok Hst) as (x & Ex & _ & _ & Hsame & Esup & Ero). assert (x = s1) as -> by congruence.
    split; [done|]. split; [done|]. apply Hsame. destruct (st_super _ Hst) as (sm & Esm & _). congruence. }
  rewrite El in Eold. destruct (split_plan_still log2 _ _ _ _ _ _ _ _ l _ _ _ Hch Eold Hn Epl) as (n' & _ & -> & _).
  split; [done|]. split; [done|]. exists s1. split; [done|]. split; [|done]. change (superroot_ (set_data _ _ s1)) with (superroot_ s1) in Es2. rewrite Es in Es2.
  cbn in Es2. rewrite lookup_insert_ne in Es2; [done|]. intros ->. rewrite lookup_insert_eq in Es2. done.
Qed.

Lemma split_shape_before key super m (l : Leaf) n s s2 s' parent parent' L R :
  root_node_ s2 = root_node_ s → superroot_ s2 = superroot_ s → (∀ q, heap s2 !! q = None → heap s !! q = None) →
  split_shape max_fanout key super m (with_data n l) s2 s' parent parent' L R → split_shape max_fanout key super m l s s' parent parent' L R.
Proof.
  intros Hr Hs Hn [dup H1 H2 H3 H4 H5 H6|m1 H1 H2 H3 H4 H5 H6 H7|dup start H1 H2 H3 H4 H5 H6|H1 H2 H3 H4 H5]; rewrite ?Hs, ?Hr in *.
  - by apply shape_sideways.
  - by apply (shape_grown _ _ _ _ _ _ _ _ _ _ _ m1).
  - apply shape_down; try done. by apply Hn.
  - apply shape_root; try done. by apply Hn.
Qed.

Lemma round_spec top s ls key old parent fail :
  tree_ok top s ls → steady s → 0 < key ≤ top → splits top fail key s old parent →
  ∃ super m l parent' leaf s' l1 L R l2, found s old parent super m l ∧
    make_room fail key parent old s = Ret (parent', leaf, s') ∧ split_round top key s ls old leaf s' l1 L R l2 ∧
    split_shape max_fanout key super m l s s' parent parent' L R.
Proof.
  intros Hok Hst Hk (nodes & m & s2 & Hde & Hready). rewrite (decided_split _ _ _ _ _ _ _ _ Hde).
  destruct (decided_state top s ls key old parent fail _ _ _ _ Hok Hst Hk Hde) as (l & n & [_ Hplan] & El & _ & Hwf & _ & [Hok2 Hst2 Hp2 Hk2] & Hr2 & Em & Eo & Hnone).
  apply (split_ready_mono max_fanout _ (splittable top nodes) top key s2 old parent _ Eo) in Hready; [|by intros; constructor; [|apply Hplan]].
  destruct (split_leaf_spec junk log2 max_data_node_slots max_fanout nodes top s2 ls key old parent m fail Hok2 Hst2 Hk Em Hready)
    as (parent' & leaf & s' & l1 & L & R & l2 & E & [Els [HL HR] Hok' Hst' Hn Hp Hr Hlf Hbn Hmv] & super & l' & Es & Eo' & Hsh).
  assert (l' = with_data n l) as -> by congruence.
  destruct (decided_found top s ls key old parent fail _ _ _ _ super n l Hok Hst Hde El Eo (proj1 Hwf) Es) as (Hro & Hsu & Hfound).
  exists super, m, l, parent', leaf, s', l1, L, R, l2. split; [done|]. split; [done|]. split; [|by apply (split_shape_before key super m l n s s2)].
  constructor; [done|by split; apply Hnone|done|done|by rewrite Hn|by rewrite Hp|done|done|done|].
  intros k Hkk. destruct (Hmv k Hkk) as (q & Eq & Hq). exists q. by rewrite <- (Hr2 k) by lia.
Qed.
End round.
