(* ===== verification/AlexTreeInsert.v ===== *)
(** * ALEX: inserts that make room

    As long as the leaf of the key refuses it, the loop of [insert] splits that
    leaf in two, or gives it larger arrays and a new model, and tries again;
    then the pair is where it belongs. *)
From S2P Require Import Prelude Ieee AlexBase AlexNode AlexOps AlexInv AlexSearch AlexBuild AlexUpdate AlexCost AlexFanout AlexTree AlexTreeOps AlexRoute AlexTreeInv AlexTreeOk AlexTreeLookup AlexTreeUpdate AlexSplit AlexMergeLoop AlexTreeErase AlexRoom AlexRound.

Section insert.
Context (junk : Z → Z) (log2 : double → double) (max_fanout max_data_node_slots splitting_policy_method : Z).
Implicit Types (s : Alex) (p q k key payload top : Z) (ls : list Z) (n fuel : nat).
Local Abbreviation make_room := (make_room junk log2 max_fanout max_data_node_slots splitting_policy_method).
Local Abbreviation splits := (splits log2 max_fanout splitting_policy_method).
Local Abbreviation retrains := (retrains log2 max_fanout splitting_policy_method).

Lemma refused_flag fail key s : refused fail key s → 1 ≤ fail ≤ 3.
Proof. intros (p & l & _ & _ & E). unfold refuse in E. repeat case_match; simplify_eq; lia. Qed.

(** A round splits the leaf or keeps it. *)
Definition makes_progress (top fail key : Z) (s : Alex) (leaf parent : Z) : Prop :=
  splits top fail key s leaf parent ∨ retrains fail key s leaf parent.

Lemma any_round top s ls key leaf parent fail :
  tree_ok top s ls → steady s → 0 < key ≤ top → makes_progress top fail key s leaf parent →
  ∃ parent' leaf' s' ls', make_room fail key parent leaf s = Ret (parent', leaf', s') ∧ kept_round top s s' ls ls' ∧
    route key s' = Ret leaf' ∧ born s' leaf'.
Proof.
  intros Hok Hst Hk [Hsp|Hre].
  - destruct (round_spec junk log2 max_data_node_slots max_fanout splitting_policy_method top s ls key leaf parent fail Hok Hst Hk Hsp)
      as (_ & _ & _ & parent' & leaf' & s' & l1 & L & R & l2 & _ & E & [-> _ Hok' Hst' Hn Hp Hr Hlf [HL HR] _] & _). exists parent', leaf', s', (l1 ++ L :: R :: l2).
    split; [done|]. split; [by constructor|]. split; [done|]. by destruct Hlf as [->| ->].
  - destruct (retrain_round junk log2 max_data_node_slots max_fanout splitting_policy_method top s ls key leaf parent fail Hok Hst Hk Hre) as (s' & E & H).
    by exists parent, leaf, s', ls.
Qed.

(** The leaf of the key is expected to shift too many pairs per insert. *)
Definition costly (key : Z) (s : Alex) : Prop :=
  ∃ p l, route key s = Ret p ∧ heap s !! p = Some (DataNode l) ∧ d_lt (d_of_Z 100) (expected_avg_shifts_ (data l)) = true.

(** That is the only reason for which new arrays refuse a pair. *)
Lemma newborn_refuse (n : AlexDataNode) : newborn n → refuse n = if d_lt (d_of_Z 100) (expected_avg_shifts_ n) then Some 2 else None.
Proof.
  intros (_ & Hr & Hi & _). unfold refuse, catastrophic_cost, shifts_per_insert. rewrite Hi, Hr. cbn [Z.rem].
  rewrite !(bool_decide_eq_true_2 (_ = _)) by done. change (d_lt (d_of_Z 100) (d_of_Z 0)) with false. by destruct (d_lt _ _).
Qed.
Lemma born_room key s p : route key s = Ret p → born s p → room_for key s ∨ costly key s ∧ refused 2 key s.
Proof.
  intros Hr (l & El & Hn). pose proof (newborn_refuse _ Hn) as Href. destruct (d_lt _ _) eqn:Ec.
  - right. by split; exists p, l.
  - left. exists p, l. do 3 (split; [done|]). apply Hn.
Qed.

(** [n] rounds make room for the key: the last leaves a leaf that is not
    costly. *)
Inductive makes_room (top key : Z) : nat → Z → Z → Z → Alex → Prop :=
| room_round n fail parent leaf s :
    makes_progress top fail key s leaf parent →
    (∀ parent' leaf' s', make_room fail key parent leaf s = Ret (parent', leaf', s') → costly key s' → makes_room top key n 2 parent' leaf' s') →
    makes_room top key (S n) fail parent leaf s.

(** What an insert leaves. *)
Record put (top key payload : Z) (s : Alex) (ls : list Z) (p pos : Z) (s' : Alex) (ls' : list Z) : Prop := {
  put_tree : tree_ok top s' ls';
  put_steady : steady s';
  put_pairs : pairs (heap s') ls' = inserted (pairs (heap s) ls) key payload;
  put_route : route key s' = Ret p;
  put_payload : leaf_payload p pos s' = Ret payload;
  put_keys : stat_num_keys (stats_ s') = stat_num_keys (stats_ s)
}.

Lemma try_insert_put top s ls p key payload :
  tree_ok top s ls → steady s → 0 < key ≤ top → route key s = Ret p → room_for key s →
  ∃ pos s', try_insert junk key payload p s = Ret (0, pos, s') ∧ put top key payload s ls p pos s' ls.
Proof.
  intros Hok Hst Hk Hr Hroom. destruct (try_insert_spec junk top s ls p key payload Hok Hk Hr Hroom) as (pos & l & n' & El & E & Hok' & Hp & Hr' & Hpay).
  eexists pos, _. split; [exact E|]. constructor; try done. apply (steady_shape s); [by apply (same_shape_insert _ _ l)|done..].
Qed.

Lemma insert_loop_S fuel fail key payload parent leaf pos s :
  insert_loop junk log2 max_fanout max_data_node_slots splitting_policy_method (S fuel) fail key payload parent leaf pos s =
  if bool_decide (fail = 0) then Ret (leaf, pos, true, s)
  else
    let* (parent, leaf, s) := make_room fail key parent leaf s in
    let* (fail, pos, s) := try_insert junk key payload leaf s in
    if bool_decide (fail = -1) then Ret (leaf, pos, false, s)
    else insert_loop junk log2 max_fanout max_data_node_slots splitting_policy_method fuel fail key payload parent leaf pos s.
Proof. done. Qed.

(** One turn of the loop: with room in the leaf, the pair is put there and the
    loop ends; else the leaf is costly, and the loop goes on from there. *)
Lemma insert_loop_turn top key payload s ls fail leaf parent :
  tree_ok top s ls → steady s → 0 < key ≤ top → 1 ≤ fail ≤ 3 → makes_progress top fail key s leaf parent →
  ∃ parent' leaf' s1 ls1, make_room fail key parent leaf s = Ret (parent', leaf', s1) ∧ kept_round top s s1 ls ls1 ∧ route key s1 = Ret leaf' ∧
    ((∃ pos' s', (∀ fuel pos, insert_loop junk log2 max_fanout max_data_node_slots splitting_policy_method (S (S fuel)) fail key payload parent leaf pos s =
        Ret (leaf', pos', true, s')) ∧ put top key payload s ls leaf' pos' s' ls1) ∨
     costly key s1 ∧ refused 2 key s1 ∧
       ∀ fuel pos, insert_loop junk log2 max_fanout max_data_node_slots splitting_policy_method (S fuel) fail key payload parent leaf pos s =
         insert_loop junk log2 max_fanout max_data_node_slots splitting_policy_method fuel 2 key payload parent' leaf' (-1) s1).
Proof.
  intros Hok Hst Hk Hfail Hsp.
  destruct (any_round top s ls key leaf parent fail Hok Hst Hk Hsp) as (parent' & leaf' & s1 & ls1 & E & Hkr & Hr1 & Hb1).
  exists parent', leaf', s1, ls1. do 3 (split; [done|]). destruct Hkr as [Hok1 Hst1 Hp1 Hn1].
  destruct (born_room key s1 leaf' Hr1 Hb1) as [Hroom|[Hco Href]]; [left|right; do 2 (split; [done|])].
  - destruct (try_insert_put top s1 _ leaf' key payload Hok1 Hst1 Hk Hr1 Hroom) as (pos' & s' & Et & [Ht Hs Hp Hr Hpay Hn]).
    exists pos', s'. split; [|constructor; [exact Ht|done|by rewrite Hp, Hp1|done|done|by rewrite Hn]].
    intros fuel pos. rewrite insert_loop_S, (bool_decide_eq_false_2 (fail = 0)) by lia. rewrite E, res_bind_ret, Et, res_bind_ret.
    rewrite (bool_decide_eq_false_2 (0 = -1)) by done. by rewrite insert_loop_S, bool_decide_eq_true_2.
  - intros fuel pos. rewrite insert_loop_S, (bool_decide_eq_false_2 (fail = 0)) by lia. rewrite E, res_bind_ret.
    by rewrite (try_insert_refused junk s1 leaf' 2 key payload Hr1 Href), res_bind_ret, (bool_decide_eq_false_2 (2 = -1)).
Qed.

Lemma insert_loop_spec top key payload : 0 < key ≤ top → ∀ n fail parent leaf s ls,
  makes_room top key n fail parent leaf s → 1 ≤ fail ≤ 3 → tree_ok top s ls → steady s →
  ∀ fuel pos, (n < fuel)%nat →
  ∃ p pos' s' ls', insert_loop junk log2 max_fanout max_data_node_slots splitting_policy_method fuel fail key payload parent leaf pos s =
      Ret (p, pos', true, s') ∧ put top key payload s ls p pos' s' ls'.
Proof.
  intros Hk n fail parent leaf s ls Hm. revert ls.
  induction Hm as [n fail parent leaf s Hsp Hm IH]; intros ls Hfail Hok Hst [|fuel] pos Hf; [lia|].
  destruct (insert_loop_turn top key payload s ls fail leaf parent Hok Hst Hk Hfail Hsp) as
    (parent' & leaf' & s1 & ls1 & E & [Hok1 Hst1 Hp1 Hn1] & Hr1 & [(pos' & s' & El & Hput)|(Hco & _ & El)]).
  - destruct fuel as [|fuel]; [lia|]. by exists leaf', pos', s', ls1.
  - rewrite El. destruct (IH _ _ _ E Hco _ ltac:(done) Hok1 Hst1 fuel (-1)) as (p & pos' & s' & ls' & -> & [Ht Hs Hp Hr Hpay Hn]); [lia|].
    exists p, pos', s', ls'. split; [done|]. constructor; [done|done|by rewrite Hp, Hp1|done|done|by rewrite Hn].
Qed.

(** The key is settled, its leaf refuses it, and the round that follows, from
    [s0], splits the leaf or keeps it. *)
Definition refused_at (top key : Z) (s : Alex) (fail leaf parent : Z) (s0 : Alex) : Prop :=
  expand_domain junk log2 max_fanout max_data_node_slots key s = Ret s0 ∧ refused fail key s0 ∧
  (∃ b path, get_leaf_path key s0 = Ret (leaf, (parent, b) :: path)) ∧ makes_progress top fail key s0 leaf parent.
(** The leaf of the key refuses it, and [n] rounds make room. *)
Definition refused_then_room (top key : Z) (n : nat) (s : Alex) : Prop :=
  ∃ s0 fail leaf parent b path, expand_domain junk log2 max_fanout max_data_node_slots key s = Ret s0 ∧ refused fail key s0 ∧
    get_leaf_path key s0 = Ret (leaf, (parent, b) :: path) ∧ makes_room top key n fail parent leaf s0.

(** What the loop of an insert starts from. *)
Lemma insert_enters_loop top s ls key payload s0 fail leaf parent b path :
  tree_ok top s ls → steady s → 0 < key ≤ top → settled key s →
  expand_domain junk log2 max_fanout max_data_node_slots key s = Ret s0 → refused fail key s0 →
  get_leaf_path key s0 = Ret (leaf, (parent, b) :: path) →
  kept_round top s s0 ls ls ∧ 1 ≤ fail ≤ 3 ∧
  ∀ fuel, tree_insert junk log2 max_fanout max_data_node_slots splitting_policy_method fuel key payload s =
    let* (p, pos, inserted, s') := insert_loop junk log2 max_fanout max_data_node_slots splitting_policy_method fuel fail key payload parent leaf (-1) s0 in
    Ret (p, pos, inserted, if inserted : bool then add_keys 1 s' else s').
Proof.
  intros Hok Hst Hk Hs Ee Href Epath.
  destruct (expand_domain_settled junk log2 max_fanout max_data_node_slots key s Hs) as (i & Ee'). assert (s0 = with_istats i s) as -> by congruence.
  set (s0 := with_istats i s) in *. assert (tree_ok top s0 ls) as Hok0 by by apply (same_heap_ok top s).
  destruct (get_leaf_spec top s0 ls key Hok0) as (p0 & Eg & Hr & _); [lia..|].
  assert (leaf = p0) as ->.
  { destruct (get_leaf_with_spec top s0 ls key (Some []) Hok0) as (q & Q & Hr' & _ & _ & Eq); [lia|lia|by right|].
    unfold get_leaf_path in Epath. rewrite Eq in Epath. cbn in Epath. congruence. }
  pose proof (refused_flag _ _ _ Href) as Hfail.
  split; [constructor; [done|destruct Hst as [[]]; constructor; [split|..]; done|done|done]|]. split; [done|]. intros fuel.
  unfold tree_insert. rewrite Ee, res_bind_ret, Eg, res_bind_ret, (try_insert_refused junk s0 p0 fail key payload Hr Href), res_bind_ret.
  rewrite !bool_decide_eq_false_2, Epath, res_bind_ret by lia. cbn [head of_option]. by rewrite res_bind_ret.
Qed.

(** What a whole insert leaves, and what one of its loop leaves of it. *)
Record put_all (top key payload : Z) (s : Alex) (ls : list Z) (p pos : Z) (s' : Alex) (ls' : list Z) : Prop := {
  pa_tree : tree_ok top s' ls';
  pa_steady : steady s';
  pa_pairs : pairs (heap s') ls' = inserted (pairs (heap s) ls) key payload;
  pa_route : route key s' = Ret p;
  pa_payload : leaf_payload p pos s' = Ret payload;
  pa_keys : stat_num_keys (stats_ s') = stat_num_keys (stats_ s) + 1
}.
Lemma put_counted top key payload s s0 ls p pos s' ls' :
  kept_round top s s0 ls ls → put top key payload s0 ls p pos s' ls' → put_all top key payload s ls p pos (add_keys 1 s') ls'.
Proof.
  intros [_ _ Hp0 Hn0] [Ht Hs' Hp Hr' Hpay Hn]. constructor.
  - by apply (same_heap_ok top s').
  - destruct Hs' as [[]]; constructor; [split|..]; done.
  - change (heap (add_keys 1 s')) with (heap s'). by rewrite Hp, Hp0.
  - by rewrite (same_heap_route s').
  - done.
  - cbn. by rewrite Hn, Hn0.
Qed.

Lemma tree_insert_turn top s ls key payload fail leaf parent s0 :
  tree_ok top s ls → steady s → 0 < key ≤ top → settled key s → refused_at top key s fail leaf parent s0 →
  ∃ parent' leaf' s1 ls1, make_room fail key parent leaf s0 = Ret (parent', leaf', s1) ∧ kept_round top s s1 ls ls1 ∧ route key s1 = Ret leaf' ∧
    ((∃ pos s', (∀ fuel, (2 ≤ fuel)%nat → tree_insert junk log2 max_fanout max_data_node_slots splitting_policy_method fuel key payload s =
        Ret (leaf', pos, true, s')) ∧ put_all top key payload s ls leaf' pos s' ls1) ∨
     costly key s1 ∧ refused 2 key s1 ∧
       ∀ fuel, tree_insert junk log2 max_fanout max_data_node_slots splitting_policy_method (S fuel) key payload s =
         let* (p, pos, inserted, s') := insert_loop junk log2 max_fanout max_data_node_slots splitting_policy_method fuel 2 key payload parent' leaf' (-1) s1 in
         Ret (p, pos, inserted, if inserted : bool then add_keys 1 s' else s')).
Proof.
  intros Hok Hst Hk Hs (Ee & Href & (b & path & Epath) & Hpr).
  destruct (insert_enters_loop top s ls key payload s0 fail leaf parent b path) as (Hkr & Hfail & Eins); [done..|]. pose proof Hkr as [Hok0 Hst0 Hp0 Hn0].
  destruct (insert_loop_turn top key payload s0 ls fail leaf parent Hok0 Hst0 Hk Hfail Hpr) as (parent' & leaf' & s1 & ls1 & E & [Hok1 Hst1 Hp1 Hn1] & Hr1 & Hcase).
  exists parent', leaf', s1, ls1. split; [done|]. split; [constructor; [done|done|by rewrite Hp1|by rewrite Hn1]|]. split; [done|].
  destruct Hcase as [(pos' & s' & El & Hput)|(Hco & Href' & El)]; [left|right; do 2 (split; [done|])].
  - exists pos', (add_keys 1 s'). split; [|by apply (put_counted top key payload s s0)].
    intros [|[|fuel]] Hf; [lia..|]. by rewrite Eins, El, res_bind_ret.
  - intros fuel. by rewrite Eins, El.
Qed.

Lemma tree_insert_split top s ls key payload n fuel :
  tree_ok top s ls → steady s → 0 < key ≤ top → settled key s → refused_then_room top key n s → (n < fuel)%nat →
  ∃ p pos s' ls', tree_insert junk log2 max_fanout max_data_node_slots splitting_policy_method fuel key payload s = Ret (p, pos, true, s') ∧
    put_all top key payload s ls p pos s' ls'.
Proof.
  intros Hok Hst Hk Hs (s0 & fail & leaf & parent & b & path & Ee & Href & Epath & Hm) Hf.
  destruct (insert_enters_loop top s ls key payload s0 fail leaf parent b path) as (Hkr & Hfail & ->); [done..|]. pose proof Hkr as [Hok0 Hst0 _ _].
  destruct (insert_loop_spec top key payload Hk n fail parent leaf s0 ls Hm Hfail Hok0 Hst0 fuel (-1) Hf) as (p & pos & s' & ls' & -> & Hput).
  rewrite res_bind_ret. exists p, pos, (add_keys 1 s'), ls'. split; [done|]. by apply (put_counted top key payload s s0).
Qed.
End insert.
