(* ===== verification/AlexTreeCheck.v ===== *)
(** * ALEX: decision procedures

    [tree_check] computes the leaves of a tree and whether [tree_ok] holds of
    it, so that the theorems can be applied to trees built by running the
    operations.  The others decide the hypotheses of the theorems about inserts:
    the state of the heap, and the rounds that make room. *)
From S2P Require Import Prelude Ieee AlexBase AlexNode AlexOps AlexInv AlexSearch AlexBuild AlexUpdate AlexCost AlexFanout AlexTree AlexTreeOps AlexRoute AlexScale AlexTreeInv AlexTreeOk AlexTreeLookup AlexTreeUpdate AlexSplit AlexSplitPlan AlexTreeSplit AlexMergeLoop AlexTreeErase AlexSplitDown AlexGrow AlexRoom AlexRound AlexTreeInsert.

(** ** Data nodes *)
Fixpoint ascending (l : list Z) : bool :=
  match l with
  | [] => true
  | x :: l => forallb (λ y, bool_decide (x ≤ y)) l && ascending l
  end.

Definition node_check (n : AlexDataNode) : bool :=
  let cap := data_capacity_ n in
  let t := slots_ n in
  let filled := ex (bitmap_ t) in
  bool_decide (0 < cap ≤ 2 ^ 30 ∧ bitmap_size_ n = words_for cap ∧ Z.of_nat (length (key_slots_ t)) = cap ∧
    Z.of_nat (length (payload_slots_ t)) = cap ∧ Z.of_nat (length (bitmap_ t)) = words_for cap ∧
    num_keys_ n = Z.of_nat (length (contents n))) &&
  forallb (λ w, bool_decide (0 ≤ w < 2 ^ 64)) (bitmap_ t) &&
  forallb (λ i, negb (filled i)) (seqZ cap (words_for cap * 64 - cap)) &&
  forallb (λ i, filled i || bool_decide (key_at t i = if decide (i + 1 < cap) then key_at t (i + 1) else kEndSentinel_))
    (seqZ 0 cap) &&
  ascending (contents n).*1 && forallb (λ k, bool_decide (0 ≤ k < kEndSentinel_)) (contents n).*1 &&
  d_le (expansion_threshold_ n) (d_of_Z cap).

(** ** Model nodes *)
(** The runs of a pointer array, from what is known of the children. *)
Fixpoint runs_of (fuel : nat) (child_of : Z → option (Z * list Z)) (c : list (option Z)) : option (list run) :=
  match fuel, c with
  | _, [] => Some []
  | O, _ => None
  | S fuel, x :: _ =>
      p ← x; '(dup, ls) ← child_of p;
      let r := mkRun p dup ls in
      let k := Z.to_nat (repeats r) in
      if bool_decide (0 ≤ dup ∧ take k c = slots_of r) then rs ← runs_of fuel child_of (drop k c); Some (r :: rs) else None
  end.
Fixpoint aligned_check (off : Z) (rs : list run) : bool :=
  match rs with
  | [] => true
  | r :: rs => bool_decide (off mod repeats r = 0) && aligned_check (off + repeats r) rs
  end.

Fixpoint leaves_of (d : nat) (h : heap_t) (top p : Z) : option (list Z) :=
  match d with
  | O => None
  | S d =>
      match h !! p with
      | None => None
      | Some (DataNode _) => Some [p]
      | Some (ModelN m) =>
          rs ← runs_of (length (children_ m))
                 (λ q, n ← h !! q; ls ← leaves_of d h top q; Some (duplication_factor_ n, ls)) (children_ m);
          if bool_decide (monotone (mn_model m) ∧ fits_int (predict_double top (mn_model m)) ∧ rs ≠ [] ∧
                          num_children_ m = Z.of_nat (length (children_ m))) && aligned_check 0 rs
          then Some (rs ≫= run_leaves) else None
      end
  end.

Fixpoint chain_check (h : heap_t) (prev : Z) (ls : list Z) : bool :=
  match ls with
  | [] => true
  | p :: rest =>
      bool_decide (p ≠ 0) &&
      match h !! p with
      | Some (DataNode l) => bool_decide (prev_leaf_ l = prev ∧ next_leaf_ l = default 0 (head rest))
      | _ => false
      end && chain_check h p rest
  end.

Definition routes_to (key : Z) (s : Alex) (p : Z) : bool :=
  match route key s with Ret q => bool_decide (q = p) | _ => false end.
Definition leaf_check (top : Z) (s : Alex) (p : Z) : bool :=
  match heap s !! p with
  | Some (DataNode l) => node_check (data l) && forallb (λ k, bool_decide (k ≤ top) && routes_to k s p) (contents (data l)).*1
  | _ => false
  end.
Definition tree_check (top : Z) (s : Alex) : option (list Z) :=
  ls ← leaves_of (size (heap s)) (heap s) top (root_node_ s);
  if bool_decide (NoDup ls ∧ top < kEndSentinel_) && chain_check (heap s) 0 ls && forallb (leaf_check top s) ls
  then Some ls else None.

(** ** Soundness *)
Section sound.
Implicit Types (h : heap_t) (s : Alex) (p q top : Z) (ls : list Z).

Lemma ascending_sorted (l : list Z) : ascending l = true → StronglySorted Z.le l.
Proof.
  induction l as [|x l IH]; cbn [ascending]; [constructor|]. intros [Hx Hl]%andb_true_iff. constructor; [by apply IH|].
  apply list.Forall_forall. intros y Hy. rewrite forallb_spec in Hx. apply (bool_decide_eq_true_1 _ (Hx y Hy)).
Qed.

Lemma node_check_sound n : node_check n = true → node_wf n.
Proof.
  unfold node_check. rewrite !andb_true_iff. intros [[[[[[Hc Hw] Ht] Hg] Hs] Hr] Hd]. apply bool_decide_eq_true in Hc.
  destruct Hc as (Hcap & Hb & Hk & Hp & Hbm & Hn). rewrite forallb_spec in Hw, Ht, Hg, Hr. split; [|done]. constructor; [done|done| | | |done].
  - constructor; [done|done|done| |].
    + apply list.Forall_forall. intros w Hin. apply (bool_decide_eq_true_1 _ (Hw w Hin)).
    + intros i Hi Hiw. apply negb_true_iff, Ht, elem_of_seqZ. revert Hiw. Z.to_euclidean_division_equations. lia.
  - intros i Hi He. specialize (Hg i ltac:(apply elem_of_seqZ; lia)). rewrite He in Hg. apply (bool_decide_eq_true_1 _ Hg).
  - split; [by apply ascending_sorted|]. apply list.Forall_forall. intros k Hin. apply (bool_decide_eq_true_1 _ (Hr k Hin)).
Qed.

Lemma runs_of_sound child_of : ∀ fuel c rs, runs_of fuel child_of c = Some rs →
  c = rs ≫= slots_of ∧ Forall (λ r, 0 ≤ run_dup r ∧ child_of (run_child r) = Some (run_dup r, run_leaves r)) rs.
Proof.
  induction fuel as [|fuel IH]; intros [|x c] rs; cbn [runs_of]; [by intros [= <-]|done|by intros [= <-]|].
  intros (p & -> & E)%bind_Some. apply bind_Some in E as ([dup ls] & Ec & E).
  set (r := mkRun p dup ls) in *. case_bool_decide as Hd; [|done]. destruct Hd as [Hd Ht].
  apply bind_Some in E as (rs' & E & [= <-]). destruct (IH _ _ E) as [Es Hf]. split; [|by constructor].
  rewrite bind_cons, <- Es, <- Ht. by rewrite take_drop.
Qed.

Lemma aligned_check_sound rs : ∀ off, aligned_check off rs = true → aligned off rs.
Proof.
  induction rs as [|r rs IH]; intros off; cbn [aligned_check aligned]; [done|]. intros [H1 H2]%andb_true_iff.
  split; [by apply bool_decide_eq_true in H1|by apply IH].
Qed.

Lemma leaves_of_sound top h : ∀ d p ls, leaves_of d h top p = Some ls → covers d h top p ls.
Proof.
  induction d as [|d IH]; intros p ls; cbn [leaves_of covers]; [done|]. destruct (h !! p) as [[l|m]|]; [by intros [= <-]| |done].
  intros (rs & E & Hrest)%bind_Some. destruct (runs_of_sound _ _ _ _ E) as [Es Hf].
  destruct (bool_decide _) eqn:Hb; cbn [andb] in Hrest; [|done]. apply bool_decide_eq_true in Hb as (Hm & Hfit & Hne & Hn).
  destruct (aligned_check 0 rs) eqn:Ha; [|done]. injection Hrest as <-. split; [done|]. exists rs. split; [done|]. split; [done|].
  split; [by rewrite Hn, Es|]. split; [done|]. split; [by apply aligned_check_sound|].
  eapply Forall_impl; [exact Hf|]. intros r [Hd Hc]. apply bind_Some in Hc as (n & En & Hc). apply bind_Some in Hc as (ls & El & Hc).
  injection Hc as Hdup Hls. rewrite <- Hls, <- Hdup. split; [by apply IH|]. split; [lia|]. by exists n.
Qed.

Lemma chain_check_sound h ls : ∀ prev, chain_check h prev ls = true → chain h prev ls.
Proof.
  induction ls as [|p ls IH]; intros prev; cbn [chain_check chain]; [done|]. rewrite !andb_true_iff. intros [[Hp Hl] Hc].
  split; [by apply bool_decide_eq_true in Hp|]. split; [|by apply IH]. destruct (h !! p) as [[l|]|]; [|done..]. exists l.
  split; [done|]. by apply bool_decide_eq_true in Hl.
Qed.

Lemma tree_check_sound top s ls : tree_check top s = Some ls → tree_ok top s ls.
Proof.
  unfold tree_check. intros (ls' & E & Hr)%bind_Some. destruct (bool_decide _) eqn:Hb; cbn [andb] in Hr; [|done].
  apply bool_decide_eq_true in Hb as [Hnd Htop]. destruct (chain_check _ _ _) eqn:Hc; cbn [andb] in Hr; [|done].
  destruct (forallb _ _) eqn:Hl; [|done]. injection Hr as <-. rewrite forallb_spec in Hl. constructor.
  - by apply leaves_of_sound.
  - done.
  - by apply chain_check_sound.
  - intros p l Hp El. specialize (Hl p Hp). unfold leaf_check in Hl. rewrite El in Hl. apply andb_true_iff in Hl as [Hn _].
    by apply node_check_sound.
  - intros p k Hp Hk. specialize (Hl p Hp). unfold leaf_check in Hl. unfold leaf_pairs in Hk.
    destruct (heap s !! p) as [[l|]|]; [|done..]. apply andb_true_iff in Hl as [_ Hl]. rewrite forallb_spec in Hl.
    specialize (Hl k Hk). apply andb_true_iff in Hl as [Hkt Hroute]. split; [by apply bool_decide_eq_true in Hkt|].
    unfold routes_to in Hroute. destruct (route k s); [|done..]. by apply bool_decide_eq_true in Hroute as ->.
  - done.
Qed.
End sound.

(** ** Deciding whether a leaf can be split *)
Definition right_check (m : ModelNode) (n : AlexDataNode) (start dup : Z) (gap : bool) : bool :=
  existsb (λ k, bool_decide (middle start dup ≤ predict k (mn_model m))) (contents n).*1 ||
  bool_decide (key_at (slots_ n) (data_capacity_ n - 1) = kEndSentinel_) && gap.
Lemma right_check_sound m n start dup gap : right_check m n start dup gap = true →
  (∃ k, k ∈ (contents n).*1 ∧ middle start dup ≤ predict k (mn_model m)) ∨ ends_in_gap n ∧ gap = true.
Proof.
  intros [(k & Hin & Hge)%existsb_exists|[Hg Hx]%andb_true_iff]%orb_true_iff; [left|right].
  - exists k. apply list_elem_of_In in Hin. split; [done|]. apply (bool_decide_eq_true_1 _ Hge).
  - split; [by apply bool_decide_eq_true in Hg|done].
Qed.

Definition middle_check (m : ModelNode) (n : AlexDataNode) (start dup : Z) : bool :=
  let x := bucket_boundary (middle start dup) (mn_model m) in
  forallb (λ k, negb (d_lt (d_of_Z k) x) || bool_decide (predict k (mn_model m) < middle start dup)) (contents n).*1 &&
  right_check m n start dup (negb (d_lt (d_of_Z kEndSentinel_) x)).
Lemma middle_check_sound m n start dup : middle_check m n start dup = true → middle_cut m n start dup.
Proof.
  intros [Hc Hr%right_check_sound]%andb_true_iff. rewrite forallb_spec in Hc. split.
  - intros k Hin Hlt. specialize (Hc k Hin). rewrite Hlt in Hc. apply (bool_decide_eq_true_1 _ Hc).
  - destruct Hr as [?|[? ?%negb_true_iff]]; [by left|by right].
Qed.

Definition planned_check (nodes : list FTNode) (m : ModelNode) (n : AlexDataNode) (start dup : Z) : bool :=
  match nodes with
  | [t1; t2] =>
      let b := ft_right_boundary t1 in
      forallb (λ kp, bool_decide (predict kp.1 (mn_model m) < middle start dup)) (between n 0 b) &&
      right_check m n start dup (bool_decide (b < data_capacity_ n))
  | _ => false
  end.
Lemma planned_check_sound nodes m n start dup : planned_check nodes m n start dup = true → planned_cut nodes m n start dup.
Proof.
  destruct nodes as [|t1 [|t2 [|]]]; try done. intros [Hc Hr%right_check_sound]%andb_true_iff.
  rewrite forallb_spec in Hc. exists t1, t2. split; [done|]. split.
  - intros kp Hin. apply (bool_decide_eq_true_1 _ (Hc kp Hin)).
  - destruct Hr as [?|[? ?%bool_decide_eq_true]]; [by left|by right].
Qed.

Definition cuttable_check (top : Z) (nodes : list FTNode) (m : ModelNode) (l : Leaf) (start dup : Z) : bool :=
  node_check (data l) && bool_decide (num_keys_ (data l) ≤ 2 ^ 26) && forallb (λ k, bool_decide (k ≤ top)) (contents (data l)).*1 &&
  bool_decide (top < 2 ^ 64 ∧ monotone (mn_model m) ∧ fits_int (predict_double top (mn_model m)) ∧ 0 ≤ start ∧ 1 ≤ dup < 256 ∧
    start + 2 ^ dup ≤ Z.of_nat (length (children_ m))) &&
  match nodes with [] => middle_check m (data l) start dup | _ => planned_check nodes m (data l) start dup end.

Lemma cuttable_check_sound top nodes m l start dup : cuttable_check top nodes m l start dup = true → cuttable top nodes m l start dup.
Proof.
  unfold cuttable_check. rewrite !andb_true_iff, !forallb_spec, !bool_decide_eq_true.
  intros [[[[Hn Hc] Hk] (Ht & Hm & Hf & Hs & Hd & Hr)] Hcut]. constructor; try done.
  - by apply node_check_sound.
  - intros k Hin. apply (bool_decide_eq_true_1 _ (Hk k Hin)).
  - destruct nodes; [by apply middle_check_sound|by apply planned_check_sound].
Qed.

Definition growable_check (top k : Z) (m : ModelNode) : bool :=
  let lm := expand (d_of_Z (2 ^ k)) (mn_model m) in
  bool_decide (0 ≤ k < 64 ∧ num_children_ m * 2 ^ k ≤ 2 ^ 30 ∧ normal_slope (mn_model m) ∧ monotone lm ∧ fits_int (predict_double top lm)).
Lemma growable_check_sound top k m : growable_check top k m = true → growable top k m.
Proof. intros (? & ? & ? & ? & ?)%bool_decide_eq_true. by constructor. Qed.

Definition heap_check (s : Alex) : bool :=
  bool_decide (0 < next_addr s) && bool_decide (heap s !! 0 = None) &&
  forallb (λ qn, bool_decide (qn.1 < next_addr s)) (map_to_list (heap s)).
Lemma heap_check_sound s : heap_check s = true → heap_ok s.
Proof.
  unfold heap_check. rewrite !andb_true_iff, forallb_spec, !bool_decide_eq_true. intros [[H1 H2] H3]. split; [done|]. split; [done|].
  intros q Hq. destruct (heap s !! q) as [n|] eqn:E; [|done]. apply elem_of_map_to_list in E. specialize (H3 _ E).
  apply bool_decide_eq_true in H3. cbn in H3. lia.
Qed.

Definition steady_check (s : Alex) : bool :=
  heap_check s && bool_decide (root_node_ s ≠ superroot_ s) &&
  forallb (λ qn, match qn.2 with
                 | DataNode _ => true
                 | ModelN m => let e := Z.log2 (num_children_ m) in
                     bool_decide (0 ≤ e < 31 ∧ num_children_ m = 2 ^ e ∧ Some (superroot_ s) ∉ children_ m)
                 end) (map_to_list (heap s)) &&
  match heap s !! superroot_ s with Some (ModelN m) => bool_decide (children_ m ≠ []) | _ => false end.
Lemma steady_check_sound s : steady_check s = true → steady s.
Proof.
  unfold steady_check. rewrite !andb_true_iff, forallb_spec, bool_decide_eq_true. intros [[[Hh Hr] Hf] Hs].
  assert (∀ q m, heap s !! q = Some (ModelN m) → 0 ≤ Z.log2 (num_children_ m) < 31 ∧ num_children_ m = 2 ^ Z.log2 (num_children_ m) ∧
    Some (superroot_ s) ∉ children_ m) as Hm.
  { intros q m E. apply elem_of_map_to_list in E. specialize (Hf _ E). cbn [snd] in Hf. by apply bool_decide_eq_true in Hf. }
  constructor; [by apply heap_check_sound| | |done|].
  - intros q m E. destruct (Hm q m E) as (He & Hn & _). by exists (Z.log2 (num_children_ m)).
  - destruct (heap s !! superroot_ s) as [[|sm]|]; [done| |done]. exists sm. split; [done|]. by apply bool_decide_eq_true in Hs.
  - intros q m E. by destruct (Hm q m E) as (_ & _ & ?).
Qed.

Definition refusal (key : Z) (s : Alex) : option Z :=
  match route key s with
  | Ret p => match heap s !! p with Some (DataNode l) => refuse (data l) | _ => None end
  | _ => None
  end.
Lemma refusal_sound fail key s : refusal key s = Some fail → refused fail key s.
Proof.
  unfold refusal. destruct (route key s) as [p| |] eqn:Er; [|done..]. destruct (heap s !! p) as [[l|]|] eqn:El; [|done..].
  intros E. by exists p, l.
Qed.

Section splits_check.
Context (junk : Z → Z) (log2 : double → double) (max_fanout max_data_node_slots splitting_policy_method top key : Z).

Definition ready_split_check (nodes : list FTNode) (s : Alex) (old parent : Z) : bool :=
  match heap s !! parent, heap s !! old, heap s !! superroot_ s with
  | Some (ModelN m), Some (DataNode l), Some (ModelN super) =>
      let dup := leaf_duplication_factor_ l in
      if bool_decide (parent = superroot_ s) then
        bool_decide (root_node_ s = old ∧ dup = 0 ∧ num_children_ super = 1 ∧ children_ super = [Some old]) &&
        cuttable_check top nodes (down_node 0 0 (leaf_level_ l) (mn_model super)) l 0 1
      else
        bool_decide (is_leaf_ <$> heap s !! root_node_ s = Some false) &&
        match get_leaf_path key s with
        | Ret (old', (parent', b) :: _) =>
            let start := start_of b (2 ^ dup) in
            bool_decide (old' = old ∧ parent' = parent) &&
            (if goes_down max_fanout super m l then cuttable_check top nodes (down_node start dup (leaf_level_ l) (mn_model m)) l 0 1
             else if bool_decide (dup = 0) then growable_check top 1 m && cuttable_check top nodes (widened m) l (b * 2) 1
             else cuttable_check top nodes m l start dup)
        | _ => false
        end
  | _, _, _ => false
  end.
Lemma ready_split_check_sound nodes s old parent : ready_split_check nodes s old parent = true → split_ready max_fanout (cuttable top nodes) top key s old parent.
Proof.
  unfold ready_split_check. intros H.
  destruct (heap s !! parent) as [[|m]|] eqn:Ep; [done| |done]. destruct (heap s !! old) as [[l|]|] eqn:El; [|done..].
  destruct (heap s !! superroot_ s) as [[|super]|] eqn:Es; [done| |done]. case_bool_decide as Hpar.
  - apply andb_true_iff in H as [(Hr & Hd & Hn & Hc)%bool_decide_eq_true Hsp%cuttable_check_sound].
    exact (ready_root _ _ _ _ _ _ _ super l Hpar Hr El Hd Es Hn Hc Hsp).
  - apply andb_true_iff in H as [Hroot%bool_decide_eq_true H]. destruct (get_leaf_path key s) as [[old' [|[parent' b] path]]| |] eqn:Epath; [done| |done..].
    apply andb_true_iff in H as [[-> ->]%bool_decide_eq_true H]. destruct (goes_down max_fanout super m l) eqn:Hgo; [|case_bool_decide as Hd].
    + apply (ready_under _ _ _ _ _ _ _ b path m super l); try done. cbv zeta. rewrite Hgo. by apply cuttable_check_sound.
    + apply andb_true_iff in H as [Hgw%growable_check_sound Hsp%cuttable_check_sound].
      exact (ready_grow _ _ _ _ _ _ _ b path m super l Hpar Hroot Epath Ep El Es Hgo Hd Hgw Hsp).
    + apply (ready_under _ _ _ _ _ _ _ b path m super l); try done. cbv zeta. rewrite Hgo. by apply cuttable_check_sound.
Qed.

(** The decision of a round. *)
Definition decision (fail : Z) (s : Alex) (old parent : Z) : option (Z * list FTNode * ModelNode * Alex) :=
  match (if bool_decide (parent = superroot_ s) then update_superroot_key_domain s else Ret s) with
  | Ret s1 =>
      match heap s1 !! parent with
      | Some (ModelN m) =>
          match child (bucket_of key m) m, route key s with
          | Ret c, Ret q =>
              if bool_decide (c = old ∧ q = old) then
                match split_plan log2 max_fanout splitting_policy_method fail parent (bucket_of key m) m s1 with
                | Ret (depth, nodes, s2) => Some (depth, nodes, m, s2)
                | _ => None
                end
              else None
          | _, _ => None
          end
      | _ => None
      end
  | _ => None
  end.
Lemma decision_sound fail s old parent depth nodes m s2 : decision fail s old parent = Some (depth, nodes, m, s2) →
  decided log2 max_fanout splitting_policy_method fail key s old parent depth nodes m s2.
Proof.
  unfold decision, decided. destruct (if bool_decide (parent = _) then _ else _) as [s1| |]; [|done..].
  destruct (heap s1 !! parent) as [[|m']|] eqn:Em; [done| |done]. destruct (child (bucket_of key m') m') as [c| |] eqn:Ec; [|done..].
  destruct (route key s) as [q| |]; [|done..]. destruct (bool_decide (c = old ∧ q = old)) eqn:Eb; [|done]. apply bool_decide_eq_true in Eb as [-> ->].
  destruct (split_plan _ _ _ _ _ _ _ _) as [[[d ts] s']| |] eqn:Ep; [|done..]. intros [= <- <- <- <-]. by exists s1.
Qed.

Definition progress_check (fail : Z) (s : Alex) (old parent : Z) : bool :=
  match decision fail s old parent with
  | Some (depth, nodes, m, s2) =>
      if bool_decide (depth = 1) then ready_split_check nodes s2 old parent
      else bool_decide (depth = 0) &&
        match heap s !! old with Some (DataNode l) => bool_decide (0 < num_keys_ (data l) ≤ 2 ^ 26) | _ => false end
  | None => false
  end.
Lemma progress_check_sound fail s old parent :
  progress_check fail s old parent = true → makes_progress log2 max_fanout splitting_policy_method top fail key s old parent.
Proof.
  unfold progress_check. destruct (decision fail s old parent) as [[[[depth nodes] m] s2]|] eqn:E; [|done]. apply decision_sound in E.
  case_bool_decide as H1; [subst depth|].
  - intros Hr%ready_split_check_sound. left. by exists nodes, m, s2.
  - intros [->%bool_decide_eq_true H]%andb_true_iff. destruct (heap s !! old) as [[l|]|] eqn:El; [|done..].
    apply bool_decide_eq_true in H. right. by exists nodes, m, s2, l.
Qed.

Definition splits_check (fail : Z) (s : Alex) (old parent : Z) : bool :=
  match decision fail s old parent with
  | Some (depth, nodes, m, s2) => bool_decide (depth = 1) && ready_split_check nodes s2 old parent
  | None => false
  end.
Lemma splits_check_sound fail s old parent : splits_check fail s old parent = true → splits log2 max_fanout splitting_policy_method top fail key s old parent.
Proof.
  unfold splits_check. destruct (decision fail s old parent) as [[[[depth nodes] m] s2]|] eqn:E; [|done]. apply decision_sound in E.
  intros [->%bool_decide_eq_true Hr%ready_split_check_sound]%andb_true_iff. by exists nodes, m, s2.
Qed.

(** The rounds that make room, at most [n]. *)
Definition costly_check (s : Alex) : bool :=
  match route key s with
  | Ret p => match heap s !! p with Some (DataNode l) => d_lt (d_of_Z 100) (expected_avg_shifts_ (data l)) | _ => false end
  | _ => false
  end.
Fixpoint makes_room_check (n : nat) (fail : Z) (parent leaf : Z) (s : Alex) : bool :=
  match n with
  | O => false
  | S n =>
      progress_check fail s leaf parent &&
      match make_room junk log2 max_fanout max_data_node_slots splitting_policy_method fail key parent leaf s with
      | Ret (parent', leaf', s') => negb (costly_check s') || makes_room_check n 2 parent' leaf' s'
      | _ => false
      end
  end.
Lemma makes_room_check_sound n : ∀ fail parent leaf s, makes_room_check n fail parent leaf s = true →
  makes_room junk log2 max_fanout max_data_node_slots splitting_policy_method top key n fail parent leaf s.
Proof.
  induction n as [|n IH]; intros fail parent leaf s; cbn [makes_room_check]; [done|]. intros [Hsp%progress_check_sound H]%andb_true_iff.
  apply room_round; [done|]. intros parent' leaf' s' E Hco. rewrite E in H. apply IH. unfold costly_check in H.
  destruct Hco as (p & l & Er & El & Ec). by rewrite Er, El, Ec in H.
Qed.

(** The turn of an insert that its leaf refuses. *)
Definition refused_at_check (fail leaf parent : Z) (s0 : Alex) : bool :=
  bool_decide (refusal key s0 = Some fail) &&
  match get_leaf_path key s0 with Ret (leaf', (parent', _) :: _) => bool_decide (leaf' = leaf ∧ parent' = parent) | _ => false end &&
  progress_check fail s0 leaf parent.
Lemma refused_at_check_sound fail leaf parent s s0 :
  expand_domain junk log2 max_fanout max_data_node_slots key s = Ret s0 → refused_at_check fail leaf parent s0 = true →
  refused_at junk log2 max_fanout max_data_node_slots splitting_policy_method top key s fail leaf parent s0.
Proof.
  unfold refused_at_check. intros Ee [[Er%bool_decide_eq_true Hp]%andb_true_iff Hpr%progress_check_sound]%andb_true_iff.
  destruct (get_leaf_path key s0) as [[leaf' [|[parent' b] path]]| |] eqn:Epath; [done| |done..]. apply bool_decide_eq_true in Hp as [-> ->].
  split; [done|]. split; [by apply refusal_sound|]. split; [by exists b, path|done].
Qed.

Definition room_insert_check (n : nat) (s : Alex) : bool :=
  match expand_domain junk log2 max_fanout max_data_node_slots key s with
  | Ret s0 => match refusal key s0, get_leaf_path key s0 with
              | Some fail, Ret (leaf, (parent, _) :: _) => makes_room_check n fail parent leaf s0
              | _, _ => false
              end
  | _ => false
  end.
Lemma room_insert_check_sound n s : room_insert_check n s = true →
  refused_then_room junk log2 max_fanout max_data_node_slots splitting_policy_method top key n s.
Proof.
  unfold room_insert_check. destruct (expand_domain _ _ _ _ _ _) as [s0| |] eqn:Ee; [|done..].
  destruct (refusal key s0) as [fail|] eqn:Er; [|done]. destruct (get_leaf_path key s0) as [[leaf [|[parent b] path]]| |] eqn:Epath; [done| |done..].
  intros Hm. exists s0, fail, leaf, parent, b, path. split; [done|]. split; [by apply refusal_sound|]. split; [done|]. by apply makes_room_check_sound.
Qed.
End splits_check.
