(* ===== verification/AlexTreeThm.v ===== *)
(** * ALEX: what the tree promises

    The models lead greater keys further to the right, so that lookups, inserts
    and erases through the tree are those of the sorted list of all its pairs;
    a split hands the pairs of one leaf to two. *)
From S2P Require Import Prelude Ieee AlexBase AlexNode AlexOps AlexInv AlexBuild AlexUpdate AlexCost AlexFanout AlexTree AlexTreeOps AlexRoute AlexScale AlexTreeInv AlexTreeOk AlexTreeLookup AlexTreeUpdate AlexSplit AlexSplitPlan AlexTreeSplit AlexMergeLoop AlexTreeErase AlexSplitDown AlexGrow AlexRoom AlexRound AlexTreeInsert AlexTreeCheck.

(** ** Trees the operations build *)
Definition junk0 (i : Z) : Z := 7.
(** The logarithm rounded down. *)
Definition log2_floor (x : double) : double :=
  match x with S754_finite _ m e => d_of_Z (Z.log2 (Zpos m) + e) | _ => x end.
Definition half : double := d_div (d_of_Z 1) (d_of_Z 2).
Definition tree_of (r : res Alex) : Alex := match r with Ret s => s | _ => mkAlex ∅ 1 0 0 (mkTStats 0 0 0) istats0 end.
Definition load (max_slots : Z) (keys : list Z) : Alex :=
  tree_of (let* s := Alex_new junk0 in
           tree_bulk_load junk0 log2_floor 4 max_slots half false 20 (map (λ k, (k, 10 * k)) keys) (Z.of_nat (length keys)) s).
(** Seven leaves under two model nodes. *)
Definition uneven : list Z := [10; 20; 30; 40; 50; 60; 110; 120; 130] ++ map (λ i, 140 + i) (seqZ 0 21).

Definition payload_of (r : res (Z * Alex)) : res Z := let* (v, _) := r in Ret v.

Lemma uneven_ok : tree_ok 1000 (load 16 uneven) [4; 5; 7; 8; 9; 10].
Proof. apply tree_check_sound. vm_compute. reflexivity. Qed.
Lemma uneven_pairs : pairs (heap (load 16 uneven)) [4; 5; 7; 8; 9; 10] = map (λ k, (k, 10 * k)) uneven.
Proof. vm_compute. reflexivity. Qed.

(** ** Routing *)
(** C28: The models lead keys in order: of two keys from 1 to [top], in a tree
    whose models are monotone and predict less than [2 ^ 31] for [top], the
    greater is never led to a leaf further to the left, and [get_leaf], with its
    checks of the neighbours where a prediction is close to a border, ends in
    the leaf that the models alone lead to. *)
Theorem tree_routes_in_order top s ls k k' :
  tree_ok top s ls → 0 < k → k ≤ k' → k' ≤ top →
  ∃ q q', route k s = Ret q ∧ route k' s = Ret q' ∧ get_leaf k s = Ret q ∧ get_leaf k' s = Ret q' ∧ ordered ls q q'.
Proof.
  intros Hok H0 Hk Ht. destruct (get_leaf_spec top s ls k Hok) as (q & -> & Hq & _); [lia..|].
  destruct (get_leaf_spec top s ls k' Hok) as (q' & -> & Hq' & _); [lia..|].
  destruct (route_ordered top s ls k k' Hok) as (x & y & Ex & Ey & Ho); [lia..|]. exists q, q'. do 4 (split; [done|]). congruence.
Qed.
Lemma tree_routes_in_order_witness :
  get_leaf 55 (load 16 uneven) = Ret 4 ∧ get_leaf 145 (load 16 uneven) = Ret 9 ∧
  ∃ q q', route 55 (load 16 uneven) = Ret q ∧ route 145 (load 16 uneven) = Ret q' ∧
    get_leaf 55 (load 16 uneven) = Ret q ∧ get_leaf 145 (load 16 uneven) = Ret q' ∧ ordered [4; 5; 7; 8; 9; 10] q q'.
Proof.
  split; [vm_compute; reflexivity|]. split; [vm_compute; reflexivity|].
  apply (tree_routes_in_order 1000 _ _ 55 145 uneven_ok); vm_compute; reflexivity || discriminate.
Defined.

Definition root_model (s : Alex) : ModelNode :=
  match get_model (root_node_ s) s with Ret m => m | _ => mkModelNode model0 0 [] 0 0 end.

(** ** Lookups *)
(** C13: [get_payload] answers with the payload of the last pair of the key, or
    reports that no leaf has it; the tree holds what it held. *)
Theorem tree_get_payload_correct top s ls key :
  tree_ok top s ls → 0 < key ≤ top →
  ∃ o s', get_payload key s = Ret (o, s') ∧ tree_ok top s' ls ∧ pairs (heap s') ls = pairs (heap s) ls ∧
    match o with
    | Some v => ∃ l1 l2, pairs (heap s) ls = l1 ++ (key, v) :: l2 ∧ key ∉ l2.*1
    | None => key ∉ (pairs (heap s) ls).*1
    end.
Proof. apply get_payload_spec. Qed.
Definition answer {A} (r : res (A * Alex)) : res A := let* (o, _) := r in Ret o.
Lemma tree_get_payload_correct_witness :
  answer (get_payload 150 (load 16 uneven)) = Ret (Some 1500) ∧ answer (get_payload 151 (load 16 [10; 20])) = Ret None ∧
  ∃ o s', get_payload 150 (load 16 uneven) = Ret (o, s') ∧ tree_ok 1000 s' [4; 5; 7; 8; 9; 10] ∧
    pairs (heap s') [4; 5; 7; 8; 9; 10] = pairs (heap (load 16 uneven)) [4; 5; 7; 8; 9; 10] ∧
    match o with
    | Some v => ∃ l1 l2, pairs (heap (load 16 uneven)) [4; 5; 7; 8; 9; 10] = l1 ++ (150, v) :: l2 ∧ 150 ∉ l2.*1
    | None => 150 ∉ (pairs (heap (load 16 uneven)) [4; 5; 7; 8; 9; 10]).*1
    end.
Proof.
  split; [vm_compute; reflexivity|]. split; [vm_compute; reflexivity|].
  apply (tree_get_payload_correct 1000 _ _ 150 uneven_ok). vm_compute. split; [reflexivity|discriminate].
Defined.

(** C7: In a tree whose models are monotone and predict less than [2 ^ 31] for
    keys up to [top], and for a key from 1 to [top],
    [get_payload_last_no_greater_than], by which the EPL-Tree finds the leaf of
    a key, answers with the payload of the last pair whose key is at most the
    given one, crossing empty leaves to the left; with no such pair it answers
    with the first payload of the first leaf, if that leaf is not empty. Keys
    whose predictions do not fit an [int] are not covered. *)
Theorem tree_floor_correct top s ls key :
  tree_ok top s ls → 0 < key ≤ top →
  let below := floor_of (pairs (heap s) ls) key in
  ∃ v s', tree_get_payload_last_no_greater_than key s = Ret (v, s') ∧ tree_ok top s' ls ∧
    pairs (heap s') ls = pairs (heap s) ls ∧
    (below ≠ [] → v = default 0 (last below.*2)) ∧
    (below = [] → ∀ p rest, ls = p :: rest → leaf_pairs (heap s) p ≠ [] → v = default 0 (head (leaf_pairs (heap s) p).*2)).
Proof. apply floor_spec. Qed.
Lemma tree_floor_correct_witness :
  payload_of (tree_get_payload_last_no_greater_than 109 (load 16 uneven)) = Ret 600 ∧
  ∃ v s', tree_get_payload_last_no_greater_than 109 (load 16 uneven) = Ret (v, s') ∧ tree_ok 1000 s' [4; 5; 7; 8; 9; 10] ∧
    pairs (heap s') [4; 5; 7; 8; 9; 10] = pairs (heap (load 16 uneven)) [4; 5; 7; 8; 9; 10] ∧
    (floor_of (pairs (heap (load 16 uneven)) [4; 5; 7; 8; 9; 10]) 109 ≠ [] →
       v = default 0 (last (floor_of (pairs (heap (load 16 uneven)) [4; 5; 7; 8; 9; 10]) 109).*2)) ∧
    (floor_of (pairs (heap (load 16 uneven)) [4; 5; 7; 8; 9; 10]) 109 = [] →
       ∀ p rest, [4; 5; 7; 8; 9; 10] = p :: rest → leaf_pairs (heap (load 16 uneven)) p ≠ [] →
       v = default 0 (head (leaf_pairs (heap (load 16 uneven)) p).*2)).
Proof.
  split; [vm_compute; reflexivity|].
  apply (tree_floor_correct 1000 _ _ 109 uneven_ok). vm_compute. split; [reflexivity|discriminate].
Defined.

(** ** Inserts and erases *)
Definition few_keys (key : Z) (s : Alex) : Prop :=
  ∃ p l, route key s = Ret p ∧ heap s !! p = Some (DataNode l) ∧ num_keys_ (data l) ≤ 2 ^ 26.

Section updates.
Context (junk : Z → Z) (log2 : double → double) (max_fanout max_data_node_slots splitting_policy_method : Z).

(** C8: In a tree whose models are monotone and predict less than [2 ^ 31] for
    keys up to [top], for a key from 1 to [top] that lies in the key domain of
    the root, or any such key if the root is a leaf, so that the root is not
    expanded: an insert into a leaf with room puts the pair behind all the pairs
    whose keys are at most its own, in the list of all pairs, and returns where
    it is; the models, and the leaf of every key, stay; the key is counted. *)
Theorem tree_insert_correct top s ls fuel key payload :
  tree_ok top s ls → 0 < key ≤ top → settled key s → room_for key s →
  ∃ p pos s', tree_insert junk log2 max_fanout max_data_node_slots splitting_policy_method fuel key payload s =
      Ret (p, pos, true, s') ∧ tree_ok top s' ls ∧ pairs (heap s') ls = inserted (pairs (heap s) ls) key payload ∧
    route key s' = Ret p ∧ leaf_payload p pos s' = Ret payload ∧ stats_ s' = stats_ (add_keys 1 s).
Proof.
  intros. by apply tree_insert_spec.
Qed.

(** C14: An erase removes all the pairs of the key and no other, returns how
    many there were, and counts them off.  When it empties a leaf, the leaf is
    merged with its sibling for as long as that is possible, and model nodes
    left with one leaf are replaced by it up to the root: that ends, and what
    it leaves is a tree of the same pairs. *)
Theorem tree_erase_correct top s ls key :
  tree_ok top s ls → steady s → 0 < key ≤ top → few_keys key s →
  ∃ r s' ls', tree_erase junk key s = Ret (r, s') ∧ tree_ok top s' ls' ∧ steady s' ∧
    stat_num_keys (stats_ s') = stat_num_keys (stats_ s) - r ∧
    r = Z.of_nat (length (filter (λ kp, kp.1 = key) (pairs (heap s) ls))) ∧
    pairs (heap s') ls' = filter (λ kp, kp.1 ≠ key) (pairs (heap s) ls).
Proof.
  intros Hok Hst Hk (p & l & Hr & El & Hroom). apply tree_erase_any; [done..|].
  intros p' l' Hr' El'. assert (p' = p) as -> by congruence. by assert (l' = l) as -> by congruence.
Qed.

(** C11: When a leaf refuses an insert and the policy splits it in two, at the
    slot the costs planned or without a plan, one round of the loop of [insert]
    replaces it in the list of leaves by two new leaves that share its pairs out
    in order, in arrays with room for another, and every key keeps its leaf but
    those of the old one. What the pointers become is exact: if the parent has
    room and the leaf has pointers to give, halves of them go to either leaf; if
    the leaf has a single pointer, the parent's pointers and its slope double
    first; if the parent has no room, a new model node over two leaves takes
    over the leaf's pointers; and if the leaf was the root, such a node becomes
    the root, below the superroot. The leaf that is tried next is the one the
    key now belongs to. This needs, of the state before the round and from a tree
    in a heap as the operations keep it, with monotone models that predict less
    than [2 ^ 31] up to [top]: a key from
    1 to [top]; at most [2 ^ 26] keys in the leaf; that the slot it is cut at
    agrees with the model that will lead to the two parts, which must be monotone
    and fit an [int] too, and that the right part starts within the array; and,
    to double the parent, that it stays within [2 ^ 30] pointers and its model
    scales without overflow or underflow. *)
Theorem split_in_two_correct top s ls key old parent fail :
  tree_ok top s ls → steady s → 0 < key ≤ top → splits log2 max_fanout splitting_policy_method top fail key s old parent →
  ∃ super m l parent' leaf s' l1 L R l2,
    found s old parent super m l ∧
    make_room junk log2 max_fanout max_data_node_slots splitting_policy_method fail key parent old s = Ret (parent', leaf, s') ∧
    split_round top key s ls old leaf s' l1 L R l2 ∧
    split_shape max_fanout key super m l s s' parent parent' L R.
Proof. intros. by apply round_spec. Qed.

(** C10: The turn of the loop of [insert] that follows a refusal. On a tree in a
    heap as the operations keep it, with monotone models that predict less than [2 ^ 31] up to [top], for a key from 1
    to [top] in the key domain of the root, or any such key if the root is a
    leaf: when the leaf refuses the pair and the policy keeps it, with at most
    [2 ^ 26] keys, or splits it in two where that is possible as in
    [split_in_two_correct] - all of it decided on the state before the round -
    the round ends in a tree of the same pairs. The leaf the key then belongs to
    takes the pair and the insert returns with it behind all the pairs whose
    keys are at most its own, in the list of all pairs, and counted, unless that
    leaf is expected to shift more than 100 pairs per insert: then it refuses
    with the code 2 and the loop goes on from the tree reached. *)
Theorem tree_insert_makes_room top s ls key payload fail leaf parent s0 :
  tree_ok top s ls → steady s → 0 < key ≤ top → settled key s →
  refused_at junk log2 max_fanout max_data_node_slots splitting_policy_method top key s fail leaf parent s0 →
  ∃ parent' leaf' s1 ls1,
    make_room junk log2 max_fanout max_data_node_slots splitting_policy_method fail key parent leaf s0 = Ret (parent', leaf', s1) ∧
    kept_round top s s1 ls ls1 ∧ route key s1 = Ret leaf' ∧
    ((∃ pos s', (∀ fuel, (2 ≤ fuel)%nat →
          tree_insert junk log2 max_fanout max_data_node_slots splitting_policy_method fuel key payload s = Ret (leaf', pos, true, s')) ∧
        put_all top key payload s ls leaf' pos s' ls1) ∨
     costly key s1 ∧ refused 2 key s1 ∧
       ∀ fuel, tree_insert junk log2 max_fanout max_data_node_slots splitting_policy_method (S fuel) key payload s =
         let* (p, pos, inserted, s') :=
           insert_loop junk log2 max_fanout max_data_node_slots splitting_policy_method fuel 2 key payload parent' leaf' (-1) s1 in
         Ret (p, pos, inserted, if inserted : bool then add_keys 1 s' else s')).
Proof. intros. by apply tree_insert_turn. Qed.
End updates.

Lemma tree_insert_correct_witness :
  ∃ p pos s', tree_insert junk0 log2_floor 4 16 1 10 55 7 (load 16 uneven) = Ret (p, pos, true, s') ∧
    tree_ok 1000 s' [4; 5; 7; 8; 9; 10] ∧
    pairs (heap s') [4; 5; 7; 8; 9; 10] = inserted (pairs (heap (load 16 uneven)) [4; 5; 7; 8; 9; 10]) 55 7 ∧
    route 55 s' = Ret p ∧ leaf_payload p pos s' = Ret 7 ∧ stats_ s' = stats_ (add_keys 1 (load 16 uneven)).
Proof.
  apply (tree_insert_correct junk0 log2_floor 4 16 1 1000 _ _ 10 55 7 uneven_ok).
  - split; [reflexivity|discriminate].
  - right. vm_compute. split; discriminate.
  - eexists _, _. split; [vm_compute; reflexivity|]. split; [vm_compute; reflexivity|]. split; [vm_compute; reflexivity|].
    vm_compute. discriminate.
Defined.
(** The only key of its leaf goes, the leaf with it; erasing almost all keys
    leaves one leaf, the root. *)
Definition erase_all (keys : list Z) (s : Alex) : Alex :=
  foldl (λ s k, tree_of (let* (_, s) := tree_erase junk0 k s in Ret s)) s keys.
Lemma tree_erase_correct_witness :
  tree_check 1000 (erase_all [130] (load 16 uneven)) = Some [4; 5; 8; 9; 10] ∧
  (let s := erase_all (tail uneven) (load 16 uneven) in tree_check 1000 s = Some [4] ∧ root_node_ s = 4 ∧ steady_check s = true) ∧
  ∃ r s' ls', tree_erase junk0 130 (load 16 uneven) = Ret (r, s') ∧ tree_ok 1000 s' ls' ∧ steady s' ∧
    stat_num_keys (stats_ s') = stat_num_keys (stats_ (load 16 uneven)) - r ∧
    r = Z.of_nat (length (filter (λ kp, kp.1 = 130) (pairs (heap (load 16 uneven)) [4; 5; 7; 8; 9; 10]))) ∧
    pairs (heap s') ls' = filter (λ kp, kp.1 ≠ 130) (pairs (heap (load 16 uneven)) [4; 5; 7; 8; 9; 10]).
Proof.
  split; [vm_compute; reflexivity|]. split; [vm_compute; done|].
  apply (tree_erase_correct junk0 1000 _ _ 130 uneven_ok).
  - apply steady_check_sound. vm_compute. reflexivity.
  - split; [reflexivity|discriminate].
  - eexists _, _. split; [vm_compute; reflexivity|]. split; [vm_compute; reflexivity|]. vm_compute; discriminate.
Defined.
(** What the theorem says of a split. *)
Definition splits_at (max_fanout policy top fail key : Z) (s : Alex) (ls : list Z) (old parent : Z) : Prop :=
  ∃ super m l parent' leaf s' l1 L R l2,
    found s old parent super m l ∧
    make_room junk0 log2_floor max_fanout 16 policy fail key parent old s = Ret (parent', leaf, s') ∧
    split_round top key s ls old leaf s' l1 L R l2 ∧
    split_shape max_fanout key super m l s s' parent parent' L R.
Lemma split_in_two_correct_witness :
  splits_at 4 0 1000 1 55 (load 16 uneven) [4; 5; 7; 8; 9; 10] 4 3 ∧
  splits_at 4 1 1000 3 145 (load 16 uneven) [4; 5; 7; 8; 9; 10] 9 6 ∧
  splits_at 16 1 1000 3 145 (load 16 uneven) [4; 5; 7; 8; 9; 10] 9 6.
Proof.
  split; [|split].
  - apply (split_in_two_correct junk0 log2_floor 4 16 0 1000 _ _ 55 4 3 1 uneven_ok).
    + apply steady_check_sound. vm_compute. reflexivity.
    + split; [reflexivity|discriminate].
    + apply splits_check_sound. vm_compute. reflexivity.
  - apply (split_in_two_correct junk0 log2_floor 4 16 1 1000 _ _ 145 9 6 3 uneven_ok).
    + apply steady_check_sound. vm_compute. reflexivity.
    + split; [reflexivity|discriminate].
    + apply splits_check_sound. vm_compute. reflexivity.
  - apply (split_in_two_correct junk0 log2_floor 16 16 1 1000 _ _ 145 9 6 3 uneven_ok).
    + apply steady_check_sound. vm_compute. reflexivity.
    + split; [reflexivity|discriminate].
    + apply splits_check_sound. vm_compute. reflexivity.
Defined.

(** A tree after inserts. *)
Definition insert_all (max_slots : Z) (keys : list Z) (s : Alex) : Alex :=
  foldl (λ s k, tree_of (let* (_, _, _, s) := tree_insert junk0 log2_floor 4 max_slots 1 10 k (10 * k) s in Ret s)) s keys.
(** One leaf, with as many keys as it takes. *)
Definition full_leaf : Alex := insert_all 16 [40; 50; 60; 70; 80; 90; 100; 110; 120] (load 16 [10; 20; 30]).
(** A leaf that the costs have split in two, before it is full. *)
Definition costly_leaf : Alex := insert_all 32 (seqZ 100 6) (load 32 [10; 20; 30]).
(** A tree with a leaf that the costs keep. *)
Definition spread : Alex := insert_all 64 (map (λ i, 100 + (i * 7919) mod 1009) (seqZ 0 108)) (load 64 [10; 20; 30]).

(** What the theorem says of an insert. *)
Definition turns_at (max_slots top : Z) (s : Alex) (ls : list Z) (key payload fail leaf parent : Z) : Prop :=
  ∃ s0 parent' leaf' s1 ls1,
    make_room junk0 log2_floor 4 max_slots 1 fail key parent leaf s0 = Ret (parent', leaf', s1) ∧
    kept_round top s s1 ls ls1 ∧ route key s1 = Ret leaf' ∧
    ((∃ pos s', (∀ fuel, (2 ≤ fuel)%nat → tree_insert junk0 log2_floor 4 max_slots 1 fuel key payload s = Ret (leaf', pos, true, s')) ∧
        put_all top key payload s ls leaf' pos s' ls1) ∨
     costly key s1 ∧ refused 2 key s1 ∧
       ∀ fuel, tree_insert junk0 log2_floor 4 max_slots 1 (S fuel) key payload s =
         let* (p, pos, inserted, s') := insert_loop junk0 log2_floor 4 max_slots 1 fuel 2 key payload parent' leaf' (-1) s1 in
         Ret (p, pos, inserted, if inserted : bool then add_keys 1 s' else s')).
Definition insert_answer (max_slots key payload : Z) (s : Alex) : res Z :=
  let* (p, pos, _, s) := tree_insert junk0 log2_floor 4 max_slots 1 2 key payload s in leaf_payload p pos s.
Lemma tree_insert_makes_room_witness :
  (insert_answer 16 130 7 full_leaf = Ret 7 ∧ insert_answer 32 106 7 costly_leaf = Ret 7 ∧ insert_answer 64 729 7 spread = Ret 7) ∧
  turns_at 16 1000 full_leaf [3] 130 7 3 3 4 ∧ turns_at 32 1000 costly_leaf [3] 106 7 1 3 4 ∧
  turns_at 64 2000 spread [10; 11; 8; 9] 729 7 1 8 5.
Proof.
  split; [vm_compute; done|]. split; [|split].
  - destruct (expand_domain junk0 log2_floor 4 16 130 full_leaf) as [s0| |] eqn:E; [|by vm_compute in E..]. exists s0.
    apply (tree_insert_makes_room junk0 log2_floor 4 16 1 1000 full_leaf [3] 130 7 3 3 4 s0).
    + apply tree_check_sound. vm_compute. reflexivity.
    + apply steady_check_sound. vm_compute. reflexivity.
    + split; [reflexivity|discriminate].
    + left. eexists. vm_compute. reflexivity.
    + apply refused_at_check_sound; [exact E|]. vm_compute in E. injection E as <-. vm_compute. reflexivity.
  - destruct (expand_domain junk0 log2_floor 4 32 106 costly_leaf) as [s0| |] eqn:E; [|by vm_compute in E..]. exists s0.
    apply (tree_insert_makes_room junk0 log2_floor 4 32 1 1000 costly_leaf [3] 106 7 1 3 4 s0).
    + apply tree_check_sound. vm_compute. reflexivity.
    + apply steady_check_sound. vm_compute. reflexivity.
    + split; [reflexivity|discriminate].
    + left. eexists. vm_compute. reflexivity.
    + apply refused_at_check_sound; [exact E|]. vm_compute in E. injection E as <-. vm_compute. reflexivity.
  - destruct (expand_domain junk0 log2_floor 4 64 729 spread) as [s0| |] eqn:E; [|by vm_compute in E..]. exists s0.
    apply (tree_insert_makes_room junk0 log2_floor 4 64 1 2000 spread [10; 11; 8; 9] 729 7 1 8 5 s0).
    + apply tree_check_sound. vm_compute. reflexivity.
    + apply steady_check_sound. vm_compute. reflexivity.
    + split; [reflexivity|discriminate].
    + right. vm_compute. split; discriminate.
    + apply refused_at_check_sound; [exact E|]. vm_compute in E. injection E as <-. vm_compute. reflexivity.
Defined.
