(* ===== verification/AlexLoadThm.v ===== *)
(** * ALEX: what bulk loading promises

    A fanout search shares out the keys of a node; construction and bulk
    loading establish the invariant that the operations of [AlexTreeThm.v] and
    [AlexIterThm.v] keep. *)
From S2P Require Import Prelude Ieee AlexBase AlexNode AlexOps AlexInv AlexCost AlexFanout AlexTree AlexTreeOps AlexTreeInv AlexTreeOk AlexTreeLookup AlexMergeLoop AlexScale AlexLevel AlexPlan AlexLoad AlexLoadTree AlexTreeCheck AlexTreeThm.

(** Nodes that tile the buckets share out the pairs. *)
Lemma tiles_parts values nm depth : 0 ≤ depth → ∀ ts cur, 0 ≤ cur → tiles values nm depth cur ts →
  drop (Z.to_nat (level_cut values nm depth cur)) values = ts ≫= λ t, slice values (ft_left_boundary t) (ft_right_boundary t).
Proof.
  intros Hd. assert (0 < 2 ^ depth) as Hp by lia. induction ts as [|t ts IH]; intros cur Hcur; cbn [tiles mbind list_bind].
  - intros ->. unfold level_cut. rewrite cut_all by lia. unfold count. rewrite Nat2Z.id. apply drop_all.
  - intros (Hl & _ & El & Er & Ht). set (w := 2 ^ (depth - ft_level t)) in *. assert (0 < w) by (unfold w; lia).
    rewrite El, Er. change (list_bind _ _ _ ts) with (ts ≫= λ t, slice values (ft_left_boundary t) (ft_right_boundary t)). rewrite <- (IH (cur + w)) by (done || lia).
    set (a := level_cut values nm depth cur). set (b := level_cut values nm depth (cur + w)).
    assert (0 ≤ a ≤ b) as [Ha Hab] by (split; [apply cut_range|apply cut_mono; lia]).
    unfold slice. replace (Z.to_nat b) with (Z.to_nat a + Z.to_nat (b - a))%nat by lia. rewrite <- drop_drop. symmetry. apply take_drop.
Qed.

(** C18: The fanout search of [bulk_load_node] ends, and the nodes it
    picks, of whatever levels, share out the buckets of the deepest level and
    with them the pairs, in order: none is lost, none is in two parts, and a
    part begins where the model predicts its first bucket. This needs the
    models of the levels to be monotone and exact where keys are cut. *)
Theorem fanout_plan_partitions log2 top values nm D max_fanout max_keys frac approx node_cost total_keys :
  keys_ok values → (∀ k, k ∈ values.*1 → k ≤ top) → top < 2 ^ 64 → count values ≤ 2 ^ 31 → ready top values nm D → max_fanout < 2 ^ (D + 1) →
  ∃ ts depth cost,
    find_best_fanout_bottom_up log2 values (count values) nm node_cost total_keys max_fanout max_keys frac approx = Ret (ts, depth, cost) ∧
    0 ≤ depth ≤ D ∧ tiles values nm depth 0 ts ∧
    (ts ≫= λ t, slice values (ft_left_boundary t) (ft_right_boundary t)) = values.
Proof.
  intros Hk Ht H64 Hc Hr HD. destruct (find_best_fanout_spec log2 top values Hk Ht H64 Hc nm D Hr max_keys frac approx max_fanout HD node_cost total_keys)
    as (ts & depth & cost & E & Hd & Hti). exists ts, depth, cost. do 3 (split; [done|]).
  rewrite <- (tiles_parts values nm depth) with (cur := 0) by (done || lia). unfold level_cut. rewrite cut_none by lia. done.
Qed.

(** C9: Construction and bulk loading establish the invariant of the tree: from
    sorted pairs, however many equal keys they have, [bulk_load] of a new tree
    ends; the leaves, wherever the recursion of [bulk_load_node] put them, are
    linked in order, hold exactly the pairs given, and the models lead each key
    to the leaf that holds it. This needs [bulk_loadable], which is decided on
    the pairs before any node is made: the models that the recursion chooses are
    monotone, fit an [int] up to [top], and are exact where keys are cut - with
    the comparison of [double]s in the search for a fanout, and with the bound
    truncated to [uint64_t], as [std::less] has it, where the fanout is forced. *)
Theorem bulk_load_builds_tree junk log2 max_fanout max_slots frac approx top D fuel values :
  top < kEndSentinel_ → max_fanout < 2 ^ (D + 1) → values ≠ [] → keys_ok values → (∀ k, k ∈ values.*1 → k ≤ top) →
  bulk_loadable log2 max_fanout max_slots frac approx top D fuel values = true →
  ∃ s ls,
    (let* s := Alex_new junk in tree_bulk_load junk log2 max_fanout max_slots frac approx fuel values (Z.of_nat (length values)) s) = Ret s ∧
    tree_ok top s ls ∧ steady s ∧ pairs (heap s) ls = values ∧ stat_num_keys (stats_ s) = Z.of_nat (length values).
Proof. apply bulk_load_tree. Qed.

(** ** Examples *)
Definition values_of (keys : list Z) : list (Z * Z) := map (λ k, (k, 10 * k)) keys.
(** A hundred keys, which do not fit one leaf: the plan of the root is forced. *)
Definition dense : list (Z * Z) := values_of (seqZ 1 100).
(** Keys with repetitions, whose parts are of three levels. *)
Definition repeated : list (Z * Z) := values_of ([3; 3; 3] ++ map (λ i, 10 * i) (seqZ 1 30) ++ [300; 300]).

Definition values_check (top : Z) (values : list (Z * Z)) : bool :=
  ascending values.*1 && forallb (λ k, bool_decide (0 ≤ k < kEndSentinel_ ∧ k ≤ top)) values.*1.
Lemma values_check_sound top values : values_check top values = true → keys_ok values ∧ ∀ k, k ∈ values.*1 → k ≤ top.
Proof.
  unfold values_check. rewrite andb_true_iff, forallb_spec. intros [Ha%ascending_sorted Hr].
  assert (∀ k, k ∈ values.*1 → 0 ≤ k < kEndSentinel_ ∧ k ≤ top) as Hb by (intros k Hin; apply (bool_decide_eq_true_1 _ (Hr k Hin))).
  split; [split; [done|]; apply list.Forall_forall|]; intros k Hin; by apply Hb.
Qed.

Definition picked (r : res (list FTNode * Z * double)) : list (Z * Z) * Z :=
  match r with Ret (ts, depth, _) => (map (λ t, (ft_left_boundary t, ft_right_boundary t)) ts, depth) | _ => ([], 0) end.
Definition search (values : list (Z * Z)) nm := find_best_fanout_bottom_up log2_floor values (count values) nm (d_of_Z 100) (count values) 8 16 half false.

Lemma fanout_plan_partitions_witness :
  picked (search repeated (unit_model 3 300)) = ([(0, 7); (7, 10); (10, 18); (18, 25); (25, 35)], 3) ∧
  ∃ ts depth cost, search repeated (unit_model 3 300) = Ret (ts, depth, cost) ∧ 0 ≤ depth ≤ 3 ∧ tiles repeated (unit_model 3 300) depth 0 ts ∧
    (ts ≫= λ t, slice repeated (ft_left_boundary t) (ft_right_boundary t)) = repeated.
Proof.
  split; [vm_compute; reflexivity|]. assert (values_check 1000 repeated = true) as Hv by (vm_compute; reflexivity).
  destruct (values_check_sound 1000 repeated Hv) as [Hk Ht].
  apply (fanout_plan_partitions log2_floor 1000 repeated (unit_model 3 300) 3 8 16 half false (d_of_Z 100) (count repeated) Hk Ht).
  - reflexivity.
  - vm_compute. discriminate.
  - apply ready_check_sound. vm_compute. reflexivity.
  - reflexivity.
Defined.

Definition loaded_dense : res Alex :=
  let* s := Alex_new junk0 in tree_bulk_load junk0 log2_floor 4 16 half false 20 dense (Z.of_nat (length dense)) s.
Lemma bulk_load_builds_tree_witness :
  tree_check 200 (tree_of loaded_dense) = Some [5; 6; 8; 9; 11; 12; 14; 15; 17; 18; 20; 21; 23; 24; 26; 27] ∧
  ∃ s ls, loaded_dense = Ret s ∧ tree_ok 200 s ls ∧ steady s ∧ pairs (heap s) ls = dense ∧ stat_num_keys (stats_ s) = 100.
Proof.
  split; [vm_compute; reflexivity|]. assert (values_check 200 dense = true) as Hv by (vm_compute; reflexivity).
  destruct (values_check_sound 200 dense Hv) as [Hk Ht].
  apply (bulk_load_builds_tree junk0 log2_floor 4 16 half false 200 3 20 dense).
  - reflexivity.
  - reflexivity.
  - discriminate.
  - exact Hk.
  - exact Ht.
  - vm_compute. reflexivity.
Defined.
