(* ===== verification/AlexIndex.v ===== *)
(** * ALEX: the index of the EPL-Tree

    On the operations the EPL-Tree calls, an ALEX tree gives the answers of any
    index that keeps the laws of [Index.v], as long as its models and costs
    allow each insert. *)
From S2P Require Import Prelude Index Ieee AlexBase AlexNode AlexOps AlexInv AlexSearch AlexCost AlexFanout AlexTree AlexTreeOps AlexTreeInv AlexTreeOk AlexTreeLookup AlexTreeUpdate AlexUpdate AlexSplit AlexMergeLoop AlexTreeErase AlexLevel AlexLoad AlexLoadTree AlexTreeInsert AlexTreeCheck AlexTreeThm AlexLoadThm.

(** ** Lists of pairs with distinct keys *)
Section lists.
Implicit Types (l : list (Z * Z)) (m : gmap Z Z) (k v key : Z).

Lemma inserted_perm l key payload : inserted l key payload ≡ₚ (key, payload) :: l.
Proof.
  unfold inserted. rewrite <- Permutation_middle. f_equiv. rewrite <- (filter_app_complement (λ kp : Z * Z, kp.1 ≤ key) l) at 3. f_equiv.
  match goal with |- ?a ≡ₚ ?b => assert (a = b) as ->; [|done] end. apply list_filter_iff. intros x. lia.
Qed.

Lemma inserted_map l key payload : NoDup l.*1 → (list_to_map l : gmap Z Z) !! key = None →
  NoDup (inserted l key payload).*1 ∧ (list_to_map (inserted l key payload) : gmap Z Z) = <[key := payload]> (list_to_map l).
Proof.
  intros Hnd Hk%not_elem_of_list_to_map_2. assert (NoDup ((key, payload) :: l).*1) as Hnd' by (by constructor).
  assert (NoDup (inserted l key payload).*1) as Hnd2 by (by rewrite inserted_perm). split; [done|]. rewrite (list_to_map_proper _ _ Hnd2 (inserted_perm _ _ _)). done.
Qed.

Lemma erased_map l key : NoDup l.*1 → NoDup (filter (λ kp, kp.1 ≠ key) l).*1 ∧
  (list_to_map (filter (λ kp, kp.1 ≠ key) l) : gmap Z Z) = delete key (list_to_map l).
Proof.
  induction l as [|[k v] l IH]; [split; [constructor|symmetry; apply delete_empty]|]. cbn [fmap list_fmap fst]. intros [Hk Hnd]%NoDup_cons. destruct (IH Hnd) as [Hnd' Hm].
  rewrite filter_cons. cbn [fst]. case_decide as Hne.
  - cbn [fmap list_fmap fst list_to_map]. split.
    + apply NoDup_cons. split; [|done]. intros (x & -> & [_ Hin]%list_elem_of_filter)%list_elem_of_fmap. apply Hk. apply list_elem_of_fmap. by exists x.
    + cbn. rewrite Hm. symmetry. apply delete_insert_ne. congruence.
  - subst k. split; [done|]. cbn. by rewrite Hm, delete_insert_eq.
Qed.

Lemma elem_of_list_to_map_fst l k : k ∈ l.*1 ↔ is_Some ((list_to_map l : gmap Z Z) !! k).
Proof.
  split.
  - intros Hin. destruct (_ !! k) eqn:E; [by eexists|]. by apply not_elem_of_list_to_map_2 in E.
  - intros [v E%elem_of_list_to_map_2]. by apply elem_of_fst with v.
Qed.
End lists.

(** ** The pairs of a tree *)
Section tree.
Implicit Types (s : Alex) (p q k key top : Z) (ls : list Z).

Lemma pairs_sorted top s ls : tree_ok top s ls → StronglySorted Z.le (pairs (heap s) ls).*1.
Proof.
  intros Hok. assert (∀ l2 l1, ls = l1 ++ l2 → StronglySorted Z.le (pairs (heap s) l2).*1) as H; [|by apply (H ls [])].
  induction l2 as [|p l2 IH]; intros l1 E; [constructor|]. rewrite pairs_cons, fmap_app.
  destruct (tree_split_at top s ls p Hok) as (_ & _ & l & _ & El & Hwf & Elp); [rewrite E; set_solver|].
  destruct (ok_keys _ (proj1 Hwf)) as [Hs Hf]. rewrite Elp. apply StronglySorted_app_2; [|done|apply (IH (l1 ++ [p])); by rewrite <- app_assoc].
  intros k k' Hin Hin'. rewrite E in Hok. rewrite <- Elp in Hin. destruct (tree_routed _ _ _ Hok p k) as [Hk Hr]; [set_solver|done|].
  rewrite list.Forall_forall in Hf. rewrite Elp in Hin. specialize (Hf k Hin).
  destruct (pairs_split top s l1 p l2 k Hok ltac:(lia) Hr) as (_ & _ & Hhi). rewrite list.Forall_forall in Hhi.
  apply list_elem_of_fmap in Hin' as (kp & -> & Hin'). specialize (Hhi kp Hin'). lia.
Qed.

(** The lookup changes counters only. *)
Lemma floor_shape s key v s' : tree_get_payload_last_no_greater_than key s = Ret (v, s') →
  ∃ p (l : Leaf) n, heap s !! p = Some (DataNode l) ∧ s' = set_data p (with_data n l) s.
Proof.
  unfold tree_get_payload_last_no_greater_than. intros (p & _ & E)%res_bind_Ret_inv. apply res_bind_Ret_inv in E as ([pos s1] & E1 & E).
  apply res_bind_Ret_inv in E as ([q i] & _ & E). apply res_bind_Ret_inv in E as (v' & _ & [= _ <-]). unfold on_data in E1.
  apply res_bind_Ret_inv in E1 as (l & El & E1). apply res_bind_Ret_inv in E1 as ([r n] & _ & [= _ <-]). exists p, l, n. split; [|done].
  unfold get_data, get_node in El. destruct (heap s !! p) as [[l'|]|]; cbn in El; congruence.
Qed.

(** The last pair that is no greater is the floor. *)
Lemma floor_sorted l key : StronglySorted Z.le l.*1 → StronglySorted Z.le (floor_of l key).*1.
Proof.
  unfold floor_of. induction l as [|x l IH]; intros Hs; [constructor|]. cbn in Hs. apply StronglySorted_inv in Hs as [Hs Hf]. rewrite filter_cons.
  case_decide; [|by apply IH]. cbn. constructor; [by apply IH|]. rewrite list.Forall_forall in *.
  intros z (kp & -> & [_ Hin]%list_elem_of_filter)%list_elem_of_fmap. apply Hf, list_elem_of_fmap. by exists kp.
Qed.

Lemma floor_last l key k0 : StronglySorted Z.le l.*1 → NoDup l.*1 → k0 ∈ l.*1 → k0 ≤ key →
  ∃ k v, is_floor (list_to_map l) key k ∧ (list_to_map l : gmap Z Z) !! k = Some v ∧ floor_of l key ≠ [] ∧ default 0 (last (floor_of l key).*2) = v.
Proof.
  intros Hs Hnd (kp & -> & Hin)%list_elem_of_fmap Hle. assert (kp ∈ floor_of l key) as Hk0 by by apply list_elem_of_filter.
  destruct (last (floor_of l key)) as [[k v]|] eqn:E; [|apply last_None in E; rewrite E in Hk0; by apply not_elem_of_nil in Hk0].
  exists k, v. rewrite fmap_last, E. apply last_Some in E as (l0 & E).
  assert ((k, v) ∈ floor_of l key) as [Hle2 Hin2]%list_elem_of_filter by (rewrite E; set_solver). cbn in Hle2.
  assert ((list_to_map l : gmap Z Z) !! k = Some v) as Hm by by apply elem_of_list_to_map.
  split; [|split; [done|split; [by rewrite E; destruct l0|done]]]. split; [by eexists|]. split; [done|].
  intros k' [v' Hk']%elem_of_list_to_map_fst%elem_of_fst_inv Hle'. assert ((k', v') ∈ floor_of l key) as Hin' by by apply list_elem_of_filter.
  pose proof (floor_sorted l key Hs) as Hs2. rewrite E in Hin', Hs2. rewrite fmap_app in Hs2.
  apply elem_of_app in Hin' as [Hin'|Hin'%list_elem_of_singleton]; [|injection Hin' as -> _; lia].
  apply (StronglySorted_app_1_elem_of _ _ _ _ _ Hs2); [by apply elem_of_fst with v'|cbn; left].
Qed.
End tree.

(** ** The index *)
Section index.
Context (junk : Z → Z) (log2 : double → double) (max_fanout max_data_node_slots splitting_policy_method : Z) (fuel : nat) (top : Z).
Implicit Types (s : Alex) (m : gmap Z Z) (k v key : Z) (l : list (Z * Z)).

(** The calls of the EPL-Tree. *)
Inductive index_op := IInsert (key payload : Z) | IErase (key : Z) | IFloor (key : Z).
Implicit Types (o : index_op).

Definition tree_step o s : res (option Z * Alex) :=
  match o with
  | IInsert key payload =>
      let* (_, _, _, s) := tree_insert junk log2 max_fanout max_data_node_slots splitting_policy_method fuel key payload s in Ret (None, s)
  | IErase key => let* (_, s) := tree_erase junk key s in Ret (None, s)
  | IFloor key => let* (v, s) := tree_get_payload_last_no_greater_than key s in Ret (Some v, s)
  end.
Fixpoint tree_run (os : list index_op) s : res (list (option Z) * Alex) :=
  match os with
  | [] => Ret ([], s)
  | o :: os => let* (r, s) := tree_step o s in let* (rs, s) := tree_run os s in Ret (r :: rs, s)
  end.

Definition index_step `{OrderedIndex idx} o (i : idx) : option Z * idx :=
  match o with
  | IInsert key payload => (None, idx_insert key payload i)
  | IErase key => (None, idx_erase key i)
  | IFloor key => (get_payload_last_no_greater_than key i, i)
  end.
Fixpoint index_run `{OrderedIndex idx} (os : list index_op) (i : idx) : list (option Z) * idx :=
  match os with
  | [] => ([], i)
  | o :: os => let '(r, i) := index_step o i in let '(rs, i) := index_run os i in (r :: rs, i)
  end.

(** The map a tree stands for. *)
Definition represents s m : Prop :=
  ∃ ls, tree_ok top s ls ∧ steady s ∧ NoDup (pairs (heap s) ls).*1 ∧ m = list_to_map (pairs (heap s) ls).

(** What a call asks: inserts are of new keys within the domain, and room can be
    made for them; a lookup has a key to fall on, or is below all of them when
    the first leaf is in use. *)
Definition first_used s : Prop :=
  ∀ p (l : Leaf), heap s !! p = Some (DataNode l) → prev_leaf_ l = 0 → contents (data l) ≠ [].
Definition servable o s m : Prop :=
  match o with
  | IInsert key _ => 0 < key ≤ top ∧ m !! key = None ∧ settled key s ∧
      (room_for key s ∨ ∃ n, (n < fuel)%nat ∧ refused_then_room junk log2 max_fanout max_data_node_slots splitting_policy_method top key n s)
  | IErase key => 0 < key ≤ top ∧ few_keys key s
  | IFloor key => 0 < key ≤ top ∧ ((∃ k, is_Some (m !! k) ∧ k ≤ key) ∨ first_used s ∧ ∀ k, is_Some (m !! k) → key < k)
  end.
Definition next o m : gmap Z Z :=
  match o with IInsert key payload => <[key := payload]> m | IErase key => delete key m | IFloor _ => m end.
Fixpoint servable_run (os : list index_op) s m : Prop :=
  match os with
  | [] => True
  | o :: os => servable o s m ∧ ∀ r s', tree_step o s = Ret (r, s') → servable_run os s' (next o m)
  end.

Lemma insert_room s ls key payload :
  tree_ok top s ls → steady s → 0 < key ≤ top → settled key s → room_for key s →
  ∃ p pos s', tree_insert junk log2 max_fanout max_data_node_slots splitting_policy_method fuel key payload s = Ret (p, pos, true, s') ∧
    tree_ok top s' ls ∧ steady s' ∧ pairs (heap s') ls = inserted (pairs (heap s) ls) key payload.
Proof.
  intros Hok Hst Hk Hs Hroom. destruct (expand_domain_settled junk log2 max_fanout max_data_node_slots key s Hs) as (i & Ee). unfold tree_insert. rewrite Ee, res_bind_ret.
  set (s0 := with_istats i s). assert (tree_ok top s0 ls) as Hok0 by by apply (same_heap_ok top s).
  assert (steady s0) as Hst0 by (destruct Hst as [[]]; constructor; [split|..]; done).
  destruct (get_leaf_spec top s0 ls key Hok0) as (p & Eg & Hr & _); [pose proof (tree_top _ _ _ Hok); lia..|].
  destruct (try_insert_put junk top s0 ls p key payload Hok0 Hst0 Hk Hr (room_for_istats _ _ _ Hroom)) as (pos & s' & E & [Ht Hs' Hp _ _ _]).
  rewrite Eg, res_bind_ret, E, res_bind_ret, (bool_decide_eq_false_2 (0 = -1)), (bool_decide_eq_true_2 (0 = 0)) by lia.
  exists p, pos, (add_keys 1 s'). split; [done|]. split; [by apply (same_heap_ok top s')|]. split; [|done].
  destruct Hs' as [[]]; constructor; [split|..]; done.
Qed.

Lemma represents_sorted s m : represents s m → ∃ ls, tree_ok top s ls ∧ steady s ∧ NoDup (pairs (heap s) ls).*1 ∧
  m = list_to_map (pairs (heap s) ls) ∧ StronglySorted Z.le (pairs (heap s) ls).*1.
Proof. intros (ls & Hok & Hst & Hnd & ->). exists ls. do 4 (split; [done|]). by apply (pairs_sorted top). Qed.

Lemma tree_step_insert s m key payload : represents s m → servable (IInsert key payload) s m →
  ∃ s', tree_step (IInsert key payload) s = Ret (None, s') ∧ represents s' (<[key := payload]> m).
Proof.
  intros (ls & Hok & Hst & Hnd & ->) (Hk & Hfresh & Hs & Hroom). cbn [tree_step]. destruct (inserted_map _ _ payload Hnd Hfresh) as [Hnd' Hm].
  destruct Hroom as [Hroom|(n & Hn & Href)].
  - destruct (insert_room s ls key payload Hok Hst Hk Hs Hroom) as (p & pos & s' & -> & Hok' & Hst' & Hp).
    rewrite res_bind_ret. exists s'. split; [done|]. exists ls. by rewrite Hp, Hm.
  - destruct (tree_insert_split junk log2 max_fanout max_data_node_slots splitting_policy_method top s ls key payload n fuel Hok Hst Hk Hs Href Hn)
      as (p & pos & s' & ls' & -> & [Hok' Hst' Hp _ _ _]). rewrite res_bind_ret. exists s'. split; [done|]. exists ls'. by rewrite Hp, Hm.
Qed.

Lemma tree_step_erase s m key : represents s m → servable (IErase key) s m →
  ∃ s', tree_step (IErase key) s = Ret (None, s') ∧ represents s' (delete key m).
Proof.
  intros (ls & Hok & Hst & Hnd & ->) (Hk & p & l & Hr & El & Hn). cbn [tree_step]. destruct (erased_map _ key Hnd) as [Hnd' Hm].
  destruct (tree_erase_any junk top s ls key Hok Hst Hk) as (r & s' & ls' & -> & Hok' & Hst' & _ & _ & Hp); [intros p' l' Hr' El'; congruence|].
  rewrite res_bind_ret. exists s'. split; [done|]. exists ls'. by rewrite Hp, Hm.
Qed.

Lemma tree_step_floor `{OrderedIndexLaws idx} (i : idx) s key : represents s (idx_map i) → servable (IFloor key) s (idx_map i) →
  ∃ s', tree_step (IFloor key) s = Ret (get_payload_last_no_greater_than key i, s') ∧ represents s' (idx_map i).
Proof.
  intros (ls & Hok & Hst & Hnd & Hm & Hss)%represents_sorted [Hk Hserv]. cbn [tree_step]. pose proof (tree_top _ _ _ Hok) as Htop.
  destruct (floor_spec top s ls key Hok Hk) as (v & s' & E & Hok' & Hp & Hv & Hv0). rewrite E, res_bind_ret. exists s'.
  assert (steady s') as Hst'.
  { destruct (floor_shape _ _ _ _ E) as (p & l & n & El & ->). apply (steady_shape s); [by apply (same_shape_insert _ _ l)|done..]. }
  split; [|exists ls; by rewrite Hp]. do 2 f_equal. destruct Hserv as [(k & Hfl)|[Hfirst Hlow]].
  - destruct Hfl as [Hin Hle]. rewrite Hm in Hin. apply elem_of_list_to_map_fst in Hin. destruct (floor_last _ key k Hss Hnd Hin Hle) as (k' & v' & Hfl & Hkv & Hne & Hl).
    rewrite <- Hm in Hfl, Hkv. rewrite (lookup_floor key k' v' i) by (done || (change UINT64_MAX with kEndSentinel_; lia)).
    by rewrite Hv, Hl by done.
  - pose proof (covers_ne _ _ _ _ _ (tree_covers _ _ _ Hok)) as Hne. destruct ls as [|p rest]; [done|]. pose proof (tree_chain _ _ _ Hok) as (_ & (l & El & Hprev & _) & _).
    assert (leaf_pairs (heap s) p = contents (data l)) as Elp by (unfold leaf_pairs; by rewrite El). specialize (Hfirst p l El Hprev). rewrite pairs_cons in *.
    assert (∀ k, k ∈ (leaf_pairs (heap s) p ++ pairs (heap s) rest).*1 → key < k) as Hall.
    { intros k Hin. apply Hlow. rewrite Hm. by apply (elem_of_list_to_map_fst (_ ++ _)). }
    rewrite (Hv0 ltac:(apply filter_none, list.Forall_forall; intros kp Hin; apply Z.nle_gt, Hall, list_elem_of_fmap; by exists kp) p rest eq_refl ltac:(congruence)).
    rewrite <- Elp in Hfirst. destruct (leaf_pairs (heap s) p) as [|[k v'] lp]; [done|]. cbn in Hss, Hm, Hnd |- *. symmetry. apply (lookup_below key k v'); [done| |].
    + split; [rewrite Hm, lookup_insert_eq; by eexists|]. intros k' Hk'. rewrite Hm in Hk'. apply (elem_of_list_to_map_fst ((k, v') :: lp ++ pairs (heap s) rest)) in Hk'.
      apply StronglySorted_inv in Hss as [_ Hf]. rewrite list.Forall_forall in Hf. apply elem_of_cons in Hk' as [->|Hk']; [done|by apply Hf].
    + by rewrite Hm, lookup_insert_eq.
Qed.

Lemma tree_step_ok `{OrderedIndexLaws idx} o (i : idx) s : represents s (idx_map i) → servable o s (idx_map i) →
  ∃ s', tree_step o s = Ret ((index_step o i).1, s') ∧ represents s' (idx_map (index_step o i).2) ∧ idx_map (index_step o i).2 = next o (idx_map i).
Proof.
  intros Hr Hs. destruct o as [key payload|key|key]; cbn [index_step fst snd next].
  - pose proof Hs as (Hk & Hfresh & _). pose proof Hr as (ls & Hok & _). pose proof (tree_top _ _ _ Hok) as Htop.
    rewrite idx_map_insert by (done || (change UINT64_MAX with kEndSentinel_; lia)). destruct (tree_step_insert s _ key payload Hr Hs) as (s' & E & H'). by exists s'.
  - rewrite idx_map_erase. destruct (tree_step_erase s _ key Hr Hs) as (s' & E & H'). by exists s'.
  - destruct (tree_step_floor i s key Hr Hs) as (s' & E & H'). by exists s'.
Qed.

Lemma tree_run_ok `{OrderedIndexLaws idx} : ∀ os (i : idx) s, represents s (idx_map i) → servable_run os s (idx_map i) →
  ∃ s', tree_run os s = Ret ((index_run os i).1, s') ∧ represents s' (idx_map (index_run os i).2).
Proof.
  induction os as [|o os IH]; intros i s Hr; cbn [servable_run tree_run index_run]; [intros _; by exists s|]. intros [Hs Hrest].
  destruct (tree_step_ok o i s Hr Hs) as (s1 & E1 & Hr1 & Hn). specialize (Hrest _ _ E1). rewrite E1, res_bind_ret.
  destruct (index_step o i) as [r i1]. cbn [fst snd] in *. rewrite <- Hn in Hrest. destruct (IH i1 s1 Hr1 Hrest) as (s' & E & H').
  rewrite E, res_bind_ret. destruct (index_run os i1) as [rs i2]. by exists s'.
Qed.
End index.

(** ** Deciding what a run asks *)
Section check.
Context (junk : Z → Z) (log2 : double → double) (max_fanout max_data_node_slots splitting_policy_method : Z) (fuel : nat) (top : Z).
Implicit Types (s : Alex) (m : gmap Z Z) (key : Z).

Definition settled_check (key : Z) (s : Alex) : bool :=
  match heap s !! root_node_ s with
  | Some (DataNode _) => true
  | _ => bool_decide (key_domain_min_ (istats_ s) ≤ key ≤ key_domain_max_ (istats_ s))
  end.
Lemma settled_check_sound key s : settled_check key s = true → settled key s.
Proof.
  unfold settled_check, settled. destruct (heap s !! root_node_ s) as [[l|]|]; [intros _; left; by exists l|intros H%bool_decide_eq_true; by right..].
Qed.

(** The leaf of the key has few keys, and takes another. *)
Definition leaf_check (P : AlexDataNode → bool) (key : Z) (s : Alex) : bool :=
  match route key s with
  | Ret p => match heap s !! p with Some (DataNode l) => bool_decide (num_keys_ (data l) ≤ 2 ^ 26) && P (data l) | _ => false end
  | _ => false
  end.
Lemma leaf_check_sound P key s : leaf_check P key s = true →
  ∃ p l, route key s = Ret p ∧ heap s !! p = Some (DataNode l) ∧ num_keys_ (data l) ≤ 2 ^ 26 ∧ P (data l) = true.
Proof.
  unfold leaf_check. destruct (route key s) as [p| |] eqn:Er; [|done..]. destruct (heap s !! p) as [[l|]|] eqn:El; [|done..].
  intros [Hn%bool_decide_eq_true HP]%andb_true_iff. by exists p, l.
Qed.

Definition first_used_check (s : Alex) : bool :=
  forallb (λ pn, match pn.2 with
                 | DataNode l => negb (bool_decide (prev_leaf_ l = 0)) || negb (bool_decide (contents (data l) = []))
                 | ModelN _ => true
                 end) (map_to_list (heap s)).
Lemma first_used_check_sound s : first_used_check s = true → first_used s.
Proof.
  unfold first_used_check. rewrite forallb_spec. intros H p l El Hp Hc. apply elem_of_map_to_list in El. specialize (H _ El). cbn in H.
  by rewrite !bool_decide_eq_true_2 in H.
Qed.

Definition servable_check (o : index_op) (s : Alex) (m : gmap Z Z) : bool :=
  match o with
  | IInsert key _ => bool_decide (0 < key ≤ top ∧ m !! key = None) && settled_check key s &&
      (leaf_check (λ n, bool_decide (refuse n = None)) key s ||
       room_insert_check junk log2 max_fanout max_data_node_slots splitting_policy_method top key (pred fuel) s)
  | IErase key => bool_decide (0 < key ≤ top) && leaf_check (λ _, true) key s
  | IFloor key => bool_decide (0 < key ≤ top) &&
      (existsb (λ kv, bool_decide (kv.1 ≤ key)) (map_to_list m) || first_used_check s)
  end.
Lemma servable_check_sound o s m : (0 < fuel)%nat → servable_check o s m = true →
  servable junk log2 max_fanout max_data_node_slots splitting_policy_method fuel top o s m.
Proof.
  intros Hf. destruct o as [key payload|key|key]; cbn [servable_check servable]; rewrite !andb_true_iff, ?bool_decide_eq_true.
  - intros [[[? ?] Hs%settled_check_sound] [Hl|Hr]%orb_true_iff]; do 3 (split; [done|]).
    + left. apply leaf_check_sound in Hl as (p & l & Er & El & Hn & Href%bool_decide_eq_true). by exists p, l.
    + right. exists (pred fuel). split; [lia|]. by apply room_insert_check_sound.
  - intros [? (p & l & Er & El & Hn & _)%leaf_check_sound]. split; [done|]. by exists p, l.
  - intros [? Hr]. split; [done|]. destruct (existsb _ _) eqn:Ex.
    + left. apply existsb_exists in Ex as ([k v] & Hin & Hle%bool_decide_eq_true). apply list_elem_of_In, elem_of_map_to_list in Hin.
      exists k. split; [by eexists|done].
    + right. split; [by apply first_used_check_sound|]. intros k [v Hkv]. apply Z.nle_gt. intros Hle.
      assert (existsb (λ kv : Z * Z, bool_decide (kv.1 ≤ key)) (map_to_list m) = true); [|congruence].
      apply existsb_exists. exists (k, v). split; [by apply list_elem_of_In, elem_of_map_to_list|by apply bool_decide_eq_true].
Qed.

Fixpoint servable_run_check (os : list index_op) (s : Alex) (m : gmap Z Z) : bool :=
  match os with
  | [] => true
  | o :: os => servable_check o s m &&
      match tree_step junk log2 max_fanout max_data_node_slots splitting_policy_method fuel o s with
      | Ret (_, s') => servable_run_check os s' (next o m)
      | _ => true
      end
  end.
Lemma servable_run_check_sound os : (0 < fuel)%nat → ∀ s m, servable_run_check os s m = true →
  servable_run junk log2 max_fanout max_data_node_slots splitting_policy_method fuel top os s m.
Proof.
  intros Hf. induction os as [|o os IH]; intros s m; cbn [servable_run_check servable_run]; [done|].
  intros [Ho Hrest]%andb_true_iff. split; [by apply servable_check_sound|]. intros r s' E. rewrite E in Hrest. by apply IH.
Qed.

Definition represents_check (s : Alex) (m : gmap Z Z) : bool :=
  match tree_check top s with
  | Some ls => steady_check s && bool_decide (NoDup (pairs (heap s) ls).*1) && bool_decide (m = list_to_map (pairs (heap s) ls))
  | None => false
  end.
Lemma represents_check_sound s m : represents_check s m = true → represents top s m.
Proof.
  unfold represents_check. destruct (tree_check top s) as [ls|] eqn:E; [|done]. intros [[Hs%steady_check_sound Hn%bool_decide_eq_true]%andb_true_iff Hm%bool_decide_eq_true]%andb_true_iff.
  exists ls. split; [by apply tree_check_sound|done].
Qed.
End check.

(** C5: On the calls of the EPL-Tree, as long as they are servable, an ALEX tree
    is any index that keeps the laws it relies on. Bulk loading a new tree with
    pairs in increasing order, whose keys are at most [top], gives the map of the
    pairs if [bulk_loadable] holds of them: a function of the pairs and the
    parameters alone, which says that every model the recursion chooses is
    monotone, fits an [int] and is exact where keys are cut, by either of the two
    comparisons the code cuts with. From such a tree every run of inserts of new
    keys, erases and floor lookups returns what that index returns, with splits,
    retrainings and merges on the way. A call is servable if its key is from 1 to
    [top]; for an insert, if the root need not be expanded and the leaf has room,
    or a number of rounds below the fuel, each keeping the leaf or splitting it
    in two as in [split_in_two_correct], make room; for an erase, if its leaf has
    at most [2 ^ 26] keys; for a lookup, if there is a key to fall on, or the
    first leaf is in use and all keys are greater. *)
Theorem alex_implements_index `{OrderedIndexLaws idx} junk log2 max_fanout max_slots policy fuel top :
  (∀ frac approx D load_fuel values, top < kEndSentinel_ → max_fanout < 2 ^ (D + 1) → values ≠ [] →
     StronglySorted Z.lt values.*1 → Forall (λ k, 0 ≤ k ≤ top) values.*1 →
     bulk_loadable log2 max_fanout max_slots frac approx top D load_fuel values = true →
     ∃ s, (let* s := Alex_new junk in tree_bulk_load junk log2 max_fanout max_slots frac approx load_fuel values (Z.of_nat (length values)) s) = Ret s ∧
       represents top s (idx_map (idx_bulk_load values idx_new))) ∧
  (∀ os (i : idx) s, represents top s (idx_map i) → servable_run junk log2 max_fanout max_slots policy fuel top os s (idx_map i) →
     ∃ s', tree_run junk log2 max_fanout max_slots policy fuel os s = Ret ((index_run os i).1, s') ∧
       represents top s' (idx_map (index_run os i).2)).
Proof.
  split.
  - intros frac approx D load_fuel values Htop HD Hne Hs Hf Hl. assert (NoDup values.*1) as Hnd by by apply sorted_lt_NoDup.
    destruct (bulk_load_tree junk log2 max_fanout max_slots frac approx top D load_fuel values) as (s & ls & E & Hok & Hst & Hp & _); [done..| | |done|].
    + split; [|eapply Forall_impl; [exact Hf|]; cbn; lia]. clear - Hs. induction Hs as [|x l Hs IH Hx]; constructor; [done|]. eapply Forall_impl; [exact Hx|]. cbn. lia.
    + rewrite list.Forall_forall in Hf. intros k Hin. by apply Hf.
    + exists s. split; [done|]. exists ls. rewrite Hp. do 3 (split; [done|]). apply idx_map_bulk_load; [apply idx_map_new|done|done|].
      eapply Forall_impl; [exact Hf|]. cbn. change UINT64_MAX with kEndSentinel_. lia.
  - intros os i s. by apply tree_run_ok.
Qed.

(** ** An example *)
(** The pairs of the tree of [AlexTreeThm.v] made by single inserts. *)
Definition uneven_map : gmap Z Z := list_to_map (pairs (heap (load 16 uneven)) [4; 5; 7; 8; 9; 10]).
(** A lookup below all keys, on a key and between keys, the erase of a whole
    leaf, and inserts of which some split a leaf. *)
Definition calls : list index_op :=
  [IFloor 1; IInsert 55 7; IFloor 55; IErase 130; IFloor 131] ++ map (λ i, IInsert (61 + i) i) (seqZ 0 16) ++ [IFloor 68; IErase 55; IFloor 59].
Definition calls_run : res (list (option Z) * Alex) := tree_run junk0 log2_floor 16 16 1 10 calls (load 16 uneven).
#[local] Existing Instances MapIndex.ops MapIndex.laws.

Lemma alex_implements_index_witness :
  (∃ s, loaded_dense = Ret s ∧ represents 200 s (list_to_map dense)) ∧
  (match calls_run with Ret (_, s) => tree_check 1000 s | _ => None end) = Some [12; 14; 15; 5; 8; 9; 10] ∧
  ∃ s', calls_run = Ret ([Some 100; None; Some 7; None; Some 1200] ++ replicate 16 None ++ [Some 7; None; Some 500], s') ∧
    represents 1000 s' (index_run calls uneven_map).2.
Proof.
  split; [|split; [vm_compute; reflexivity|]].
  - destruct (alex_implements_index (idx := MapIndex.t) junk0 log2_floor 4 16 1 10 200) as [Hload _].
    apply (Hload half false 3 20%nat dense).
    + reflexivity.
    + reflexivity.
    + discriminate.
    + repeat constructor.
    + apply (bool_decide_eq_true_1 (Forall (λ k, 0 ≤ k ≤ 200) dense.*1)). vm_compute. reflexivity.
    + vm_compute. reflexivity.
  - destruct (alex_implements_index (idx := MapIndex.t) junk0 log2_floor 16 16 1 10 1000) as [_ Hrun].
    destruct (Hrun calls uneven_map (load 16 uneven)) as (s' & E & Hr).
    + apply represents_check_sound. vm_compute. reflexivity.
    + apply servable_run_check_sound; [lia|]. vm_compute. reflexivity.
    + exists s'. split; [|exact Hr]. etransitivity; [exact E|]. vm_compute. reflexivity.
Defined.
