(* ===== verification/AlexIterThm.v ===== *)
(** * ALEX: what the iterators promise

    From [begin] they visit all pairs in order, from [rbegin] in reverse; the
    lookups that return one stand where the list of all pairs says. *)
From S2P Require Import Prelude Ieee AlexBase AlexNode AlexOps AlexInv AlexSearch AlexLookup AlexBuild AlexCost AlexFanout AlexTree AlexTreeOps AlexRoute AlexTreeInv AlexTreeOk AlexTreeLookup AlexLink AlexSubtree AlexIter AlexIterLookup AlexIterRev AlexTreeCheck AlexTreeThm.

Section ends.
Implicit Types (s : Alex) (p q top : Z) (ls : list Z) (d fuel : nat).

Lemma begin_spec top s ls : tree_ok top s ls → ∃ it, begin s = Ret it ∧ stands s ls it (pairs (heap s) ls).
Proof.
  intros Hok. destruct (outermost false _ s top _ ls (depth_fuel s) [] (tree_covers _ _ _ Hok)) as (q & Q & E & Hq); [unfold depth_fuel; lia|].
  destruct ls as [|p ls]; [done|]. injection Hq as <-. unfold begin, first_data_node. rewrite E, !res_bind_ret.
  destruct (tree_leaf _ _ _ p Hok) as (l & El & _); [left|]. destruct (initialize_spec top s [] p ls l 0 Hok El) as (it & -> & Hst); [lia|].
  exists it. split; [done|]. rewrite pairs_cons, (leaf_pairs_at _ _ _ El). exact Hst.
Qed.

Lemma rbegin_spec top s ls : tree_ok top s ls → ∃ it, rbegin s = Ret it ∧ stands_back s ls it (reverse (pairs (heap s) ls)).
Proof.
  intros Hok. destruct (outermost true _ s top _ ls (depth_fuel s) [] (tree_covers _ _ _ Hok)) as (q & Q & E & Hq); [unfold depth_fuel; lia|].
  apply last_Some in Hq as (ls' & ->). unfold rbegin, last_data_node. rewrite E, !res_bind_ret.
  destruct (tree_leaf _ _ _ q Hok) as (l & El & Hn & _); [set_solver|]. rewrite (get_data_leaf _ _ _ El), res_bind_ret. pose proof (ok_capacity _ Hn).
  destruct (initialize_back_spec top s ls' q [] l (data_capacity_ (data l) - 1) Hok El) as (it & -> & Hst); [lia|].
  exists it. split; [done|]. rewrite Z.sub_add in Hst. rewrite pairs_app, pairs_cons, (leaf_pairs_at _ _ _ El), app_nil_r. exact Hst.
Qed.
End ends.

(** ** The theorems *)
(** C15: [for (it = begin(); !it.is_end(); ++it)] visits the pairs of all leaves
    in order and ends, and the loop from [rbegin] visits them in reverse,
    across empty leaves and whatever slots are gaps. *)
Theorem iteration_visits_all top s ls fuel :
  tree_ok top s ls → (length (pairs (heap s) ls) < fuel)%nat →
  (let* it := begin s in visit advance fuel it s) = Ret (pairs (heap s) ls) ∧
  (let* it := rbegin s in visit retreat fuel it s) = Ret (reverse (pairs (heap s) ls)).
Proof.
  intros Hok Hf. destruct (begin_spec top s ls Hok) as (it & -> & Hst). destruct (rbegin_spec top s ls Hok) as (it' & -> & Hst'). rewrite !res_bind_ret. split.
  - by apply (visit_advance top s ls).
  - apply (visit_retreat top s ls); [done|done|by rewrite length_reverse].
Qed.
Lemma iteration_visits_all_witness :
  let s := erase_all [110; 120] (load 16 uneven) in
  (let* it := begin s in visit advance 40 it s) = Ret (map (λ k, (k, 10 * k)) (filter (λ k, k ∉ [110; 120]) uneven)) ∧
  (let* it := begin s in visit advance 40 it s) = Ret (pairs (heap s) [4; 5; 7; 8; 9; 10]) ∧
  (let* it := rbegin s in visit retreat 40 it s) = Ret (reverse (pairs (heap s) [4; 5; 7; 8; 9; 10])).
Proof.
  split; [vm_compute; reflexivity|].
  apply (iteration_visits_all 1000 (erase_all [110; 120] (load 16 uneven)) [4; 5; 7; 8; 9; 10]).
  - apply tree_check_sound. vm_compute. reflexivity.
  - vm_compute. lia.
Defined.

(** C16: In a tree whose models are monotone and predict less than [2 ^ 31] for
    keys up to [top], and for a key from 1 to [top]: [lower_bound] and
    [upper_bound] return iterators that visit exactly the pairs with keys no less
    than, and greater than, the given key, and [count] the number of its pairs,
    provided the search in the leaf does not read behind a full bitmap. Keys
    whose predictions do not fit an [int] are not covered. *)
Theorem bounds_correct top s ls key fuel :
  tree_ok top s ls → 0 < key ≤ top → stops (λ k, key < k) key s → (length (pairs (heap s) ls) < fuel)%nat →
  (∃ it s', tree_lower_bound key s = Ret (it, s') ∧ tree_ok top s' ls ∧ pairs (heap s') ls = pairs (heap s) ls ∧
     visit advance fuel it s' = Ret (filter (λ kp, key ≤ kp.1) (pairs (heap s) ls))) ∧
  (∃ it s', tree_upper_bound key s = Ret (it, s') ∧ tree_ok top s' ls ∧ pairs (heap s') ls = pairs (heap s) ls ∧
     visit advance fuel it s' = Ret (filter (λ kp, key < kp.1) (pairs (heap s) ls))) ∧
  (∃ s', count fuel key s = Ret (Z.of_nat (length (filter (λ kp, kp.1 = key) (pairs (heap s) ls))), s') ∧ tree_ok top s' ls ∧
     pairs (heap s') ls = pairs (heap s) ls).
Proof.
  intros Hok Hk Hst Hf. assert (stops (λ k, key ≤ k) key s) as Hst'.
  { destruct Hst as (p & l & Hr & El & [?|(k & Hin & ?)]); exists p, l; (split; [done|]); (split; [done|]); [by left|right; exists k; split; [done|lia]]. }
  assert (∀ Q : Z * Z → Prop, ∀ `{!∀ kp, Decision (Q kp)}, (length (filter Q (pairs (heap s) ls)) < fuel)%nat) as Hlen
    by (intros Q HQ; pose proof (length_filter Q (pairs (heap s) ls)); lia).
  split; [|split].
  - destruct (tree_lower_bound_spec top s ls key Hok Hk Hst') as (it & s' & E & Hok' & Hpr & Hit). exists it, s'.
    split; [done|]. split; [done|]. split; [done|]. by apply (visit_advance top s' ls).
  - destruct (tree_upper_bound_spec top s ls key Hok Hk Hst) as (it & s' & E & Hok' & Hpr & Hit). exists it, s'.
    split; [done|]. split; [done|]. split; [done|]. by apply (visit_advance top s' ls).
  - by apply count_spec.
Qed.

(** C17: In a tree whose models are monotone and predict less than [2 ^ 31] for
    keys up to [top], and for a key from 1 to [top]: [find] returns an iterator
    on the last pair of the key, or [end()] when there is none;
    [find_last_no_greater_than] one on the last pair whose key is at most the
    given one, and on the first pair of all when there is none. Keys whose
    predictions do not fit an [int] are not covered. *)
Theorem find_correct top s ls key fuel :
  tree_ok top s ls → 0 < key ≤ top → (length (pairs (heap s) ls) < fuel)%nat →
  (∃ it s', find key s = Ret (it, s') ∧ tree_ok top s' ls ∧ pairs (heap s') ls = pairs (heap s) ls ∧
     ((li_is_end it = true ∧ key ∉ (pairs (heap s) ls).*1) ∨
      ∃ l1 v rest, pairs (heap s) ls = l1 ++ (key, v) :: rest ∧ key ∉ rest.*1 ∧ visit advance fuel it s' = Ret ((key, v) :: rest))) ∧
  (let below := floor_of (pairs (heap s) ls) key in
   ∃ it s', find_last_no_greater_than key s = Ret (it, s') ∧ tree_ok top s' ls ∧ pairs (heap s') ls = pairs (heap s) ls ∧
     (below = [] → visit advance fuel it s' = Ret (pairs (heap s) ls)) ∧
     (below ≠ [] → ∃ init kp, below = init ++ [kp] ∧ visit advance fuel it s' = Ret (kp :: filter (λ kp, key < kp.1) (pairs (heap s) ls)))).
Proof.
  intros Hok Hk Hf. split.
  - destruct (find_spec top s ls key Hok Hk) as (it & s' & E & Hok' & Hpr & H). exists it, s'. do 3 (split; [done|]).
    destruct H as [?|(l1 & v & rest & Ep & Hn & Hst)]; [by left|right]. exists l1, v, rest. split; [done|]. split; [done|].
    apply (visit_advance top s' ls Hok' _ fuel it Hst). rewrite Ep, length_app in Hf. lia.
  - intros below. destruct (find_last_spec top s ls key Hok Hk) as (it & s' & E & Hok' & Hpr & Hz & Hn). exists it, s'. do 3 (split; [done|]).
    split; [intros Hb; by apply (visit_advance top s' ls Hok' _ fuel it (Hz Hb))|]. intros Hb. destruct (Hn Hb) as (init & kp & Ei & Hst).
    exists init, kp. split; [done|]. apply (visit_advance top s' ls Hok' _ fuel it Hst). cbn [length].
    assert (∀ l : list (Z * Z), length (floor_of l key) + length (filter (λ kp : Z * Z, (key < kp.1)%Z) l) = length l)%nat as Hlen.
    { intros l. unfold floor_of. induction l as [|kp' l IH]; [done|]. rewrite !filter_cons. repeat case_decide; cbn [length]; lia. }
    specialize (Hlen (pairs (heap s) ls)). rewrite Ei, length_app in Hlen. cbn [length] in Hlen. lia.
Qed.

Lemma bounds_correct_witness :
  answer (count 40 145 (load 16 uneven)) = Ret 1 ∧
  (∃ it s', tree_lower_bound 145 (load 16 uneven) = Ret (it, s') ∧ tree_ok 1000 s' [4; 5; 7; 8; 9; 10] ∧
     pairs (heap s') [4; 5; 7; 8; 9; 10] = pairs (heap (load 16 uneven)) [4; 5; 7; 8; 9; 10] ∧
     visit advance 40 it s' = Ret (filter (λ kp, 145 ≤ kp.1) (pairs (heap (load 16 uneven)) [4; 5; 7; 8; 9; 10]))) ∧
  (∃ it s', tree_upper_bound 145 (load 16 uneven) = Ret (it, s') ∧ tree_ok 1000 s' [4; 5; 7; 8; 9; 10] ∧
     pairs (heap s') [4; 5; 7; 8; 9; 10] = pairs (heap (load 16 uneven)) [4; 5; 7; 8; 9; 10] ∧
     visit advance 40 it s' = Ret (filter (λ kp, 145 < kp.1) (pairs (heap (load 16 uneven)) [4; 5; 7; 8; 9; 10]))) ∧
  (∃ s', count 40 145 (load 16 uneven) =
      Ret (Z.of_nat (length (filter (λ kp, kp.1 = 145) (pairs (heap (load 16 uneven)) [4; 5; 7; 8; 9; 10]))), s') ∧
     tree_ok 1000 s' [4; 5; 7; 8; 9; 10] ∧ pairs (heap s') [4; 5; 7; 8; 9; 10] = pairs (heap (load 16 uneven)) [4; 5; 7; 8; 9; 10]).
Proof.
  split; [vm_compute; reflexivity|]. apply (bounds_correct 1000 _ _ 145 40 uneven_ok).
  - split; [reflexivity|discriminate].
  - eexists _, _. split; [vm_compute; reflexivity|]. split; [vm_compute; reflexivity|]. left. vm_compute. discriminate.
  - vm_compute. lia.
Defined.
Lemma find_correct_witness :
  answer (let* (it, s) := find 145 (load 16 uneven) in let* v := li_payload it s in Ret (v, s)) = Ret 1450 ∧
  answer (let* (it, s) := find_last_no_greater_than 109 (load 16 uneven) in let* k := li_key it s in Ret (k, s)) = Ret 60 ∧
  (∃ it s', find 145 (load 16 uneven) = Ret (it, s') ∧ tree_ok 1000 s' [4; 5; 7; 8; 9; 10] ∧
     pairs (heap s') [4; 5; 7; 8; 9; 10] = pairs (heap (load 16 uneven)) [4; 5; 7; 8; 9; 10] ∧
     ((li_is_end it = true ∧ 145 ∉ (pairs (heap (load 16 uneven)) [4; 5; 7; 8; 9; 10]).*1) ∨
      ∃ l1 v rest, pairs (heap (load 16 uneven)) [4; 5; 7; 8; 9; 10] = l1 ++ (145, v) :: rest ∧ 145 ∉ rest.*1 ∧
        visit advance 40 it s' = Ret ((145, v) :: rest))) ∧
  (let below := floor_of (pairs (heap (load 16 uneven)) [4; 5; 7; 8; 9; 10]) 145 in
   ∃ it s', find_last_no_greater_than 145 (load 16 uneven) = Ret (it, s') ∧ tree_ok 1000 s' [4; 5; 7; 8; 9; 10] ∧
     pairs (heap s') [4; 5; 7; 8; 9; 10] = pairs (heap (load 16 uneven)) [4; 5; 7; 8; 9; 10] ∧
     (below = [] → visit advance 40 it s' = Ret (pairs (heap (load 16 uneven)) [4; 5; 7; 8; 9; 10])) ∧
     (below ≠ [] → ∃ init kp, below = init ++ [kp] ∧
        visit advance 40 it s' = Ret (kp :: filter (λ kp, 145 < kp.1) (pairs (heap (load 16 uneven)) [4; 5; 7; 8; 9; 10])))).
Proof.
  split; [vm_compute; reflexivity|]. split; [vm_compute; reflexivity|].
  apply (find_correct 1000 _ _ 145 40 uneven_ok).
  - split; [reflexivity|discriminate].
  - vm_compute. lia.
Defined.
